(* ===== verification/_CoqProject ===== *)
-Q . S2P
Prelude.v
PyDict.v
PySet.v
Dfs.v
PyStr.v
PyPath.v
PyVal.v
PyNum.v
Common.v
DepGraph.v
DepList.v
Merge.v
Config.v
Filters.v
Validate.v
Targets.v
LinkDeps.v
TopSort.v
Shell.v
NinjaSyntax.v
TargetSpec.v
MakeQuote.v
MakeWriter.v
NinjaQuote.v
NinjaGen.v
NinjaMaster.v
Refs.v
Store.v
Expand.v
BuildFile.v
Parallel.v
Load.v
OrderedDict.v
MSVSSettings.v
MSVSUtil.v
Js2c.v
OptParse.v
CommandLine.v
TestExpr.v
TestConfig.v
TestRun.v
XcObject.v
XcPrint.v
XcIds.v
XcGroup.v
XcProject.v
XcTypes.v
XcGen.v
XcRules.v
XcGenTypes.v
