(* ===== verification/Prelude.v ===== *)
(** * A verification of the core of gyp, the build configuration of codius-nacl-node

    The repository is a port of V8 and a small Node to Native Client; its own Python is
    gyp (src/tools/gyp), which reads .gyp files and writes build files, and a test driver.
    This library models the core of gyp: what happens between the text of .gyp files
    and the finished dictionaries of targets that a generator reads, the modules the
    generators rest on, the generators of makefiles and of ninja files, the objects of Xcode projects, the command line around
    them, the part of the test driver (tools/test.py) that computes, and the tool
    that embeds JavaScript into the program (tools/js2c.py).  Everything is a shallow embedding: a Python function is a
    function into [result] (a value or an exception), one that works on shared
    objects is a computation in a monad over a store, and what runs concurrently is a
    transition system.

    ** How the parts fit

    gyp's [Load] (tools/gyp/pylib/gyp/input.py) reads the build files and what they
    include, expands the early references and conditions of each file, builds the
    dictionary of targets, qualifies and expands dependency lists, sorts the targets
    topologically, merges settings of dependents, expands late references, sets up
    configurations, applies list filters, and validates the result.  The files follow
    that order:

    - PyStr, PyPath, PyVal, PyDict, PySet: the strings, paths, values, dictionaries
      and sets of Python that the source uses ([PyDict] keeps the order of the items,
      [PySet] leaves the order of [pop] open as a class [SetPop]);
    - Dfs: depth-first collection, shared by the functions that traverse a graph;
    - Common (common.py): names of targets, relative paths, small list functions;
    - BuildFile (input.py 156-444): [CheckNode], [LoadOneBuildFile] and includes, toolsets,
      [LoadTargetBuildFile] with the files it depends on;
    - Parallel (446-612): the same with a pool of processes, as a transition system of
      the main thread, the thread of the pool and the workers;
    - Refs (614-690): brackets, canonical integers and the expressions for references;
    - Store, Expand (687-1245): objects in a store, [ExpandVariables], conditions, and
      the recursion over dictionaries and lists;
    - Targets (1247-1388, 2414-2460, 2640-2663): the dictionary of targets, qualified
      names, wildcards, duplicates, pruning, collisions;
    - DepGraph, DepList (1447-1610, 1708-1806): [DependencyGraphNode], flattening, cycles,
      [BuildDependencyList] and the check of the graph of the build files;
    - LinkDeps (1611-1706, 1809-1902 and common.py): imported and link dependencies,
      dependent settings, static libraries;
    - Merge, Config (1905-2227): [MergeLists], [MergeDicts], configurations;
    - Filters (2229-2411): exclusion lists and filters by regular expressions;
    - Validate (2463-2638): the checks of finished targets;
    - Load (2665-2830): the composition of all these, from the names of the build files to
      the sorted list and the dictionary of targets;
    - TopSort, Shell (common.py), NinjaSyntax (ninja_syntax.py), OrderedDict
      (ordered_dict.py): what generators use to sort, to quote, to write ninja files
      and to keep dictionaries in order;
    - TargetSpec: the parts of a target that generators read;
    - MakeQuote, MakeWriter (generator/make.py): the escaping of text for makefiles, with
      a reader of what GNU make and the shell make of it; [MakefileWriter], the makefile of one
      target as a list of rules and text; and the loop of [GenerateOutput] over the list
      that Load returns;
    - NinjaQuote, NinjaGen, NinjaMaster (generator/ninja.py, and quoting in msvs_emulation.py): quoting
      with its readers; [Target] and [NinjaWriter], the file of one target as a list of
      statements, and the loop over the targets; the master file with its variables and rules;
    - PyNum: the numbers Python parses and prints; MSVSSettings (MSVSSettings.py) and
      MSVSUtil (MSVSUtil.py): the tables of the settings of Visual Studio with their
      validation and conversion, sharding of targets and shims for large program databases;
    - XcObject, XcPrint, XcIds (xcodeproj_file.py): the objects of Xcode projects in a heap with the schemas of their
      classes, validation, defaults and copies; their names and the text of the project file, with a reader of property
      lists; what is hashed for them, their identifiers, and the end of the generator that puts these together;
    - XcGroup, XcProject, XcTypes (xcodeproj_file.py): files and variants in groups, taking over only children, sorting;
      build phases, targets with their products, dependencies within a project and across projects; all
      public operations as the steps of scripts;
    - XcGen, XcRules, XcGenTypes (generator/xcode.py): the generator of Xcode projects from the dictionaries to the texts of
      the makefiles and project files, as calls of the operations above; what make reads in the makefile of a rule; the types
      of all objects and the files of a whole run;
    - OptParse, CommandLine (gyp/__init__.py, tools/gyp_node.py): the options with Python's parser of
      command lines, what [gyp_main] works out of options, environment and directories, the loop over the
      formats, and the flags that regenerate the options;
    - Js2c (tools/js2c.py): constants, macros and the header with the arrays;
    - TestExpr, TestConfig, TestRun (tools/test.py 40-140, 420-460, 760-1280): the expressions
      of the test configuration with their parser, sections and rules and the
      classification of the tests, and the threads that run them, as a transition system.

    ** Interfaces

    What code outside the repository does is a parameter with its documented
    behaviour as the laws of a class or as named hypotheses: [SetPop] (which element a
    set pops), [RealPath] (os.path.realpath), the compiler of regular expressions, the
    evaluator and parser of Python, the file system, the processes, [textwrap.wrap], the order
    in which a set is printed ([SetOrder]), the hash function ([Sha1]); the witnesses instantiate them.  [Globals] holds what a generator sets once
    ([SetGeneratorGlobals]).

    ** What the theorems show

    - Graphs: the flattening is a topological order for every pop order and exists
      exactly if the graph is acyclic; cycle search is sound and complete; the transitive
      traversals return the reachable nodes, each once, also on cyclic graphs.
    - Names, paths, texts: parsing undoes printing for qualified targets, shell
      arguments, wrapped lines of ninja files and canonical integers; a relative path
      leads where it should.
    - Merging: lists are appended and prepended without duplicates of singletons,
      dictionaries are merged key by key, configurations inherit from all ancestors,
      nearest last; nothing inherited twice, cycles included.
    - Expansion: a template expands to the text with the values in place, nothing is
      left to expand, a list is spliced and normalised in place.
    - Loading: [CheckNode] accepts what has no repeated key and agrees with eval; a
      parallel load is correct for every interleaving and cannot deadlock.
    - Passes over targets: each pass has a functional specification on every branch;
      validators accept exactly the targets they should and otherwise raise the first
      defect.
    - The whole of Load: its list has exactly the targets of the run, each once and after
      everything it depends on, and its dictionary a checked target for each; its phases end.
    - Makefiles: defines and rules are read by make and the shell as they are meant; the
      file of a target makes its output after its sources, actions and dependencies, and
      for a list in the order Load gives every dependency is made by one of the files.
    - Ninja files: what is generated for a target and its dependencies is made before the target is
      compiled or used, in all files together; every rule is declared before it is used; the
      compilers have the documented priority; quoted arguments are read back.
    - Containers: the ordered dictionary refines the list of its items.
    - Visual Studio: what the validators of one tool accept is converted to what those of the
      other accept; shards share out the sources; shims agree with their targets.
    - Xcode projects: every script keeps the objects within their schemas; files are added where their paths say,
      and taking over only children ends and keeps every file at its path; identifiers depend on the paths of the
      objects only; the text of a project is read back as the project, every object under an identifier of its own.  A run
      of the generator that returns keeps these and writes one such file for every .gyp file; make reads the makefile of a
      rule as the rules it stands for.
    - Command line: regenerated flags, parsed without the environment, give every option that is regenerated
      its value, and a run with them the same variables; every format is generated once.
    - Embedding: the header has, as C reads it, the codes of every module after expansion.
    - Tests: the parser accepts exactly the grammar of conditions, evaluation ends and
      agrees with the rules, each case gets the outcomes of its rules, and every
      interleaving of the threads counts every case once and ends.

    ** Fuel

    A definition takes fuel if the recursion of the source is not structural.  Where the
    code always ends a theorem gives fuel that suffices: the number of nodes for graphs
    ([LinkDeps.link_fuel], [LinkDeps.deep_fuel]), the length of the text for the writer,
    the depth of a tree for filters, the number of files for includes, four times the number of
    tokens for the parser of conditions ([TestExpr.parse_fuel]).  The objects of Xcode
    projects are nested to the depth of [XcObject.new_fuel] by defaults, and no deeper than there are objects otherwise;
    a path has no more components than characters.  [Load] takes two: one for the
    files that include or depend on one another, one for the expansions.  Variable
    expansion does not always end (a variable may refer to itself), nor does the loading
    of files that include themselves; there [OutOfFuel] stands for running on, and the
    theorems speak of runs that return, with theorems that give the fuel for the inputs
    where they do ([Expand.ExpandVariables_template]).

    ** Not modelled

    Reading and writing files, starting processes, printing and debugging output; for make,
    the flavor of the mac, the fixed text of the root makefile and its rule for regeneration; for
    ninja, the flavors of the mac and of Windows; the minifier of JavaScript (tools/jsmin.py), which the embedding
    names wrongly and never runs; a list that several configurations of an Xcode target share (the generator appends only to lists of one); the move of the finished project file to its place; the other generators and the emulations of Xcode and
    Visual Studio, which are mostly tables and templates of other tools; the tools of V8, which is vendored.  The evaluation of an expression by Python and the meaning of a
    regular expression given by a user are parameters.  The order in which Python 2
    iterates over dictionaries depends on hashes; the model has a list of items and the
    theorems hold for every list. *)
From stdpp Require Export base sets list strings pretty sorting gmap.
From Stdlib Require Export ZArith Lia.

#[export] Set Warnings "-clear-no-such-hyp".

(** ** Python exceptions and the error monad

    A Python function that can raise is a function into [result].  [OutOfFuel]
    is not a Python exception: it marks that a fuel-indexed definition was run
    with too little fuel. *)
Inductive exn :=
  | GypError (msg : string)
  | CircularException (msg : string)
  | CycleError (nodes : list string)
  | KeyError (key : string)
  | IndexError
  | TypeError (msg : string)
  | ValueError (msg : string)
  | AttributeError (attr : string)
  | AssertionError
  | NameError (name : string)
  | SyntaxError (msg : string)
  | RuntimeError (msg : string)
  | SystemExit (output : string)
  | OutOfFuel.

#[export] Instance exn_eq_dec : EqDecision exn.
Proof. solve_decision. Defined.

Inductive result (A : Type) :=
  | Ok (a : A)
  | Err (e : exn).
Arguments Ok {A} a.
Arguments Err {A} e.

#[export] Instance result_eq_dec `{EqDecision A} : EqDecision (result A).
Proof. solve_decision. Defined.

#[export] Instance result_ret : MRet result := λ A a, Ok a.
#[export] Instance result_bind : MBind result := λ A B f m,
  match m with Ok a => f a | Err e => Err e end.
#[export] Instance result_fmap : FMap result := λ A B f m,
  match m with Ok a => Ok (f a) | Err e => Err e end.

Definition is_ok {A} (m : result A) : bool :=
  match m with Ok _ => true | Err _ => false end.

(** [raise_if b e] is the statement [if b: raise e]. *)
Definition raise_if (b : bool) (e : exn) : result unit :=
  if b then Err e else Ok tt.

(** A Python [for] loop whose body may raise, threading the state [s]. *)
Fixpoint for_each {A S} (l : list A) (s : S) (body : A → S → result S) : result S :=
  match l with
  | [] => Ok s
  | x :: l => s' ← body x s; for_each l s' body
  end.

(** The items of a list for which [f] produces something, in order. *)
Fixpoint map_result {A B} (f : A → result B) (l : list A) : result (list B) :=
  match l with
  | [] => Ok []
  | x :: l => y ← f x; ys ← map_result f l; mret (y :: ys)
  end.

Declare Scope gyp_scope.
Delimit Scope gyp_scope with gyp.
Notation "x '==?' y" := (bool_decide (x = y)) (at level 70, no associativity) : gyp_scope.
Notation "x 'in?' l" := (bool_decide (x ∈ l)) (at level 70, no associativity) : gyp_scope.
#[global] Open Scope gyp_scope.

Lemma Ok_inj {A} (a b : A) : Ok a = Ok b → a = b.
Proof. by intros [= ->]. Qed.

Section result_lemmas.
Context {A B : Type}.

Lemma bind_Ok (m : result A) (f : A → result B) b :
  m ≫= f = Ok b ↔ ∃ a, m = Ok a ∧ f a = Ok b.
Proof. destruct m; simpl; naive_solver. Qed.

Lemma bind_Err (m : result A) (f : A → result B) e :
  m ≫= f = Err e ↔ m = Err e ∨ ∃ a, m = Ok a ∧ f a = Err e.
Proof. destruct m; simpl; naive_solver. Qed.

Lemma fmap_Ok (m : result A) (f : A → B) b :
  f <$> m = Ok b ↔ ∃ a, m = Ok a ∧ b = f a.
Proof. destruct m; simpl; naive_solver. Qed.

Lemma raise_if_Ok b e u : raise_if b e = Ok u ↔ b = false.
Proof. destruct b, u; simpl; naive_solver. Qed.
End result_lemmas.

(** Invert every successful bind, map and guard among the hypotheses. *)
Ltac inv_ok1 :=
  match goal with
  | H : (_ ≫= _) = Ok _ |- _ => apply bind_Ok in H; destruct H as (?&?&H)
  | H : (_ <$> _) = Ok _ |- _ => apply fmap_Ok in H; destruct H as (?&?&?)
  | H : raise_if _ _ = Ok _ |- _ => apply raise_if_Ok in H
  | H : mret _ = Ok _ |- _ => injection H as H
  | H : Ok _ = Ok _ |- _ => injection H as H
  | H : Err _ = Ok _ |- _ => discriminate H
  end.
Ltac inv_ok := repeat (progress (repeat inv_ok1; simplify_eq)).

(** Case analysis on every [bool_decide] and [decide] in the goal. *)
Ltac decide_all :=
  repeat (case_bool_decide || case_decide); try congruence; try tauto.

Create HintDb gyp.
Create Rewrite HintDb gyp.

Section loops.
Context {A B S : Type}.

(** Loop invariants for [for_each]. *)
Lemma for_each_inv (P : S → Prop) (body : A → S → result S) l s s' :
  P s →
  (∀ x s s', x ∈ l → P s → body x s = Ok s' → P s') →
  for_each l s body = Ok s' → P s'.
Proof.
  revert s; induction l as [|x l IH]; intros s HP Hstep Hrun; simpl in Hrun; inv_ok; [done|].
  eapply IH; [| |done].
  - eapply Hstep; [left|done|done].
  - intros y s1 s2 Hy. apply Hstep. by right.
Qed.

(** The error a [for_each] ends with is one its body raised. *)
Lemma for_each_err (body : A → S → result S) l s e :
  for_each l s body = Err e → ∃ x s', x ∈ l ∧ body x s' = Err e.
Proof.
  revert s; induction l as [|x l IH]; intros s H; simpl in H; [done|].
  apply bind_Err in H as [H|(s1&_&H)]; [exists x, s; by split; [left|]|].
  apply IH in H as (y&s2&?&?). exists y, s2. by split; [right|].
Qed.

Lemma for_each_app (body : A → S → result S) l1 l2 s :
  for_each (l1 ++ l2) s body = (s' ← for_each l1 s body; for_each l2 s' body).
Proof.
  revert s; induction l1 as [|x l1 IH]; intros s; simpl; [done|].
  destruct (body x s); simpl; [apply IH|done].
Qed.

(** A body that never fails makes the loop a left fold. *)
Lemma for_each_pure (body : A → S → S) l s :
  for_each l s (λ x s, Ok (body x s)) = Ok (foldl (λ s x, body x s) s l).
Proof. revert s; induction l; intros; simpl; auto. Qed.

Lemma map_result_Ok (f : A → result B) l ys :
  map_result f l = Ok ys ↔ Forall2 (λ x y, f x = Ok y) l ys.
Proof.
  split.
  - revert ys; induction l as [|x l IH]; intros ys H; simpl in H; inv_ok;
      constructor; eauto.
  - induction 1 as [|x y l ys Hx _ IH]; [done|]. simpl. by rewrite Hx; simpl; rewrite IH.
Qed.

Lemma map_result_total (f : A → result B) l :
  (∀ x, x ∈ l → ∃ y, f x = Ok y) → ∃ ys, map_result f l = Ok ys.
Proof.
  induction l as [|x l IH]; intros Hf; simpl; [by eexists|].
  destruct (Hf x) as [y ->]; [by left|]. destruct IH as [ys ->]; [|by eexists].
  intros z Hz. apply Hf. by right.
Qed.

Lemma map_result_pure (f : A → B) l : map_result (λ x, Ok (f x)) l = Ok (f <$> l).
Proof. induction l as [|x l IH]; [done|]; simpl; by rewrite IH. Qed.

(** What one turn of a loop establishes for its item, and no turn destroys, holds for all. *)
Lemma for_each_establish (P : A → S → Prop) (body : A → S → result S) l s s' :
  (∀ x s s', x ∈ l → body x s = Ok s' → P x s' ∧ ∀ y, P y s → P y s') →
  for_each l s body = Ok s' → ∀ x, x ∈ l → P x s'.
Proof.
  intros Hbody. assert (Hmono : ∀ l1 s1, l1 ⊆ l → for_each l1 s1 body = Ok s' → ∀ y, P y s1 → P y s').
  { intros l1. induction l1 as [|x l1 IH]; intros s1 Hsub Hrun y Hy; cbn [for_each] in Hrun; [by injection Hrun as <-|].
    apply bind_Ok in Hrun as (s2&Hstep&Hrun). refine (IH s2 _ Hrun y _); [intros z Hz; apply Hsub; by right|].
    destruct (Hbody x s1 s2) as [_ Hp]; [apply Hsub; by left|done|by apply Hp]. }
  intros Hrun x Hx. apply list_elem_of_split in Hx as (l1&l2&->). rewrite for_each_app in Hrun.
  apply bind_Ok in Hrun as (s1&_&Hrun). cbn in Hrun. apply bind_Ok in Hrun as (s2&Hstep&Hrun).
  refine (Hmono l2 s2 _ Hrun x _).
  - intros z Hz. apply elem_of_app. right. by right.
  - destruct (Hbody x s1 s2) as [Hp _]; [apply elem_of_app; right; by left|done|done].
Qed.

(** A loop that appends what [f] returns for each item. *)
Lemma for_each_collect (f : A → result (list B)) l r0 r :
  for_each l r0 (λ x r, ys ← f x; Ok (r ++ ys)) = Ok r →
  (∀ y, y ∈ r ↔ y ∈ r0 ∨ ∃ x ys, x ∈ l ∧ f x = Ok ys ∧ y ∈ ys)
  ∧ (∀ x, x ∈ l → ∃ ys, f x = Ok ys).
Proof.
  revert r0; induction l as [|x l IH]; intros r0 Hrun; simpl in Hrun; inv_ok.
  - split; [|by intros x ?%elem_of_nil]. intros y. split; [by left|].
    by intros [?|(x&?&?%elem_of_nil&_)].
  - apply IH in Hrun as [He Hok]. split.
    + intros y. rewrite He, elem_of_app. split.
      * intros [[?|?]|(x'&ys&?&?&?)]; [by left|right; exists x; eauto using list_elem_of_here|].
        right; exists x', ys; eauto using list_elem_of_further.
      * intros [?|(x'&ys&[->|?]%elem_of_cons&?&?)]; [by left; left| |right; eauto].
        match goal with H1 : f x = _, H2 : f x = _ |- _ => rewrite H1 in H2; inv_ok end.
        by left; right.
    + intros y [->|?]%elem_of_cons; eauto.
Qed.

Lemma for_each_collect_ok (f : A → result (list B)) l r0 :
  (∀ x, x ∈ l → ∃ ys, f x = Ok ys) →
  ∃ r, for_each l r0 (λ x r, ys ← f x; Ok (r ++ ys)) = Ok r.
Proof.
  revert r0; induction l as [|x l IH]; intros r0 Hf; simpl; [by eexists|].
  destruct (Hf x) as [ys ->]; [by left|]. simpl. apply IH. intros y ?. apply Hf. by right.
Qed.
End loops.

(** ** Fuel *)

(** [m] was not cut short: it returned, or raised an exception of the program. *)
Definition terminates {A} (m : result A) : Prop := m ≠ Err OutOfFuel.

Lemma terminates_Ok {A} (a : A) : terminates (Ok a).
Proof. done. Qed.

Lemma terminates_bind {A B} (m : result A) (f : A → result B) :
  terminates m → (∀ a, m = Ok a → terminates (f a)) → terminates (m ≫= f).
Proof. unfold terminates. destruct m; simpl; naive_solver. Qed.

Lemma terminates_fmap {A B} (m : result A) (f : A → B) : terminates m → terminates (f <$> m).
Proof. unfold terminates. destruct m; simpl; naive_solver. Qed.

Lemma terminates_for_each {A S} (l : list A) (s : S) body :
  (∀ x s, x ∈ l → terminates (body x s)) → terminates (for_each l s body).
Proof. intros Hb He. apply for_each_err in He as (x&s'&?&?). by apply (Hb x s'). Qed.

(** With an invariant of the state of the loop. *)
Lemma terminates_for_each_inv {A S} (P : S → Prop) (l : list A) (s : S) body :
  P s → (∀ x s, x ∈ l → P s → terminates (body x s)) → (∀ x s s', x ∈ l → P s → body x s = Ok s' → P s') →
  terminates (for_each l s body).
Proof.
  revert s. induction l as [|x l IH]; intros s HP Hb Hstep; [done|]. cbn [for_each].
  apply terminates_bind; [by apply Hb; [left|]|]. intros s' Hs'. apply IH.
  - by eapply Hstep; [left| |].
  - intros y s1 Hy. apply Hb. by right.
  - intros y s1 s2 Hy. apply Hstep. by right.
Qed.

Lemma terminates_map_result {A B} (f : A → result B) l :
  (∀ x, x ∈ l → terminates (f x)) → terminates (map_result f l).
Proof.
  induction l as [|x l IH]; intros Hf; [done|]. simpl. apply terminates_bind; [apply Hf; by left|].
  intros y _. apply terminates_bind; [|done]. apply IH. intros z ?. apply Hf. by right.
Qed.

Lemma terminates_raise_if b e : e ≠ OutOfFuel → terminates (raise_if b e).
Proof. destruct b; unfold terminates; simpl; congruence. Qed.

Create HintDb terminates.
#[export] Hint Resolve terminates_Ok terminates_bind terminates_fmap terminates_for_each
  terminates_map_result terminates_raise_if : terminates.
#[export] Hint Extern 1 (_ ≠ OutOfFuel) => discriminate : terminates.
#[export] Hint Extern 1 (terminates (Err _)) => discriminate : terminates.

(** Follow the code: binds, loops, case analyses. *)
Ltac solve_terminates :=
  repeat (intros; match goal with
  | |- terminates (_ ≫= _) => apply terminates_bind
  | |- terminates (_ <$> _) => apply terminates_fmap
  | |- terminates (for_each _ _ _) => apply terminates_for_each
  | |- terminates (map_result _ _) => apply terminates_map_result
  | |- terminates (raise_if _ _) => apply terminates_raise_if; try discriminate
  | |- terminates (Ok _) => done
  | |- terminates (mret _) => done
  | |- terminates (Err _) => discriminate
  | |- terminates _ => solve [eauto with terminates]
  | |- terminates (match ?x with _ => _ end) => destruct x
  | |- terminates ((match ?x with _ => _ end) _) => destruct x
  end).

(** ** Lists *)

Lemma list_filter_all {A} (P : A → Prop) `{∀ x, Decision (P x)} (l : list A) :
  (∀ x, x ∈ l → P x) → filter P l = l.
Proof.
  induction l as [|x l IH]; intros Hl; [done|]. rewrite filter_cons_True by (apply Hl; by left).
  f_equal. apply IH. intros y ?. apply Hl. by right.
Qed.

Lemma elem_of_concat {A} (x : A) (ls : list (list A)) : x ∈ concat ls ↔ ∃ l, x ∈ l ∧ l ∈ ls.
Proof.
  rewrite list_elem_of_In, in_concat. setoid_rewrite list_elem_of_In. naive_solver.
Qed.

#[export] Hint Constructors list_elem_of NoDup Forall : gyp.
