(* ===== verification/PyDict.v ===== *)
(** * Python dictionaries

    A dictionary is the list of its items in iteration order, with distinct
    keys ([dict_wf]).  Assigning to a present key keeps its place, assigning to
    a new key adds the item at the end, and deleting removes it.  CPython 2
    iterates in an order that depends on hashes; the theorems of the components
    that iterate over a dictionary hold for every list of items, so for every
    such order. *)
From S2P Require Import Prelude.

Section dict.
Context {K V : Type} `{EqDecision K}.
Implicit Types (d : list (K * V)) (k : K) (v : V).

(** [d.get(k)], with [None] for an absent key. *)
Fixpoint dict_get d k : option V :=
  match d with
  | [] => None
  | (k', v) :: d => if decide (k' = k) then Some v else dict_get d k
  end.

(** [k in d] *)
Definition dict_mem d k : bool := bool_decide (is_Some (dict_get d k)).

(** [d[k] = v] *)
Fixpoint dict_set d k v : list (K * V) :=
  match d with
  | [] => [(k, v)]
  | (k', v') :: d => if decide (k' = k) then (k, v) :: d else (k', v') :: dict_set d k v
  end.

(** [del d[k]] for a present key; the identity for an absent one. *)
Definition dict_del d k : list (K * V) := filter (λ p, p.1 ≠ k) d.

(** [d.keys()] *)
Definition dict_keys d : list K := d.*1.

Definition dict_wf d : Prop := NoDup (dict_keys d).

(** [d.setdefault(k, v)]: the value found and the dictionary after. *)
Definition dict_setdefault d k v : V * list (K * V) :=
  match dict_get d k with Some v' => (v', d) | None => (v, dict_set d k v) end.

(** [for k, v in l: d[k] = v] *)
Definition dict_update d (l : list (K * V)) : list (K * V) :=
  foldl (λ d p, dict_set d p.1 p.2) d l.

Lemma dict_get_In d k v : dict_get d k = Some v → (k, v) ∈ d.
Proof.
  induction d as [|[k' v'] d IH]; simpl; [done|]. case_decide; intros; simplify_eq.
  - by left.
  - right; auto.
Qed.

Lemma dict_In_get d k v : dict_wf d → (k, v) ∈ d → dict_get d k = Some v.
Proof.
  unfold dict_wf, dict_keys.
  induction d as [|[k' v'] d IH]; simpl; [by rewrite elem_of_nil|].
  rewrite NoDup_cons, elem_of_cons. intros [Hk Hd] [Heq|Hin]; [simplify_eq; by rewrite decide_True|].
  case_decide; subst; [|auto].
  destruct Hk. apply list_elem_of_fmap. by exists (k, v).
Qed.

Lemma dict_get_None d k : dict_get d k = None ↔ k ∉ dict_keys d.
Proof.
  unfold dict_keys; induction d as [|[k' v'] d IH]; simpl.
  - split; [set_solver|done].
  - case_decide; subst; rewrite not_elem_of_cons; naive_solver.
Qed.

Lemma dict_get_is_Some d k : is_Some (dict_get d k) ↔ k ∈ dict_keys d.
Proof.
  rewrite <- not_eq_None_Some, dict_get_None.
  destruct (decide (k ∈ dict_keys d)); naive_solver.
Qed.

Lemma dict_mem_true d k : dict_mem d k = true ↔ k ∈ dict_keys d.
Proof. unfold dict_mem. by rewrite bool_decide_eq_true, dict_get_is_Some. Qed.

Lemma dict_mem_false d k : dict_mem d k = false ↔ k ∉ dict_keys d.
Proof. unfold dict_mem. by rewrite bool_decide_eq_false, dict_get_is_Some. Qed.

Lemma dict_get_set d k v k' :
  dict_get (dict_set d k v) k' = if decide (k = k') then Some v else dict_get d k'.
Proof.
  induction d as [|[k0 v0] d IH]; simpl.
  - repeat case_decide; congruence.
  - repeat (simpl; case_decide); subst; simpl in *; try congruence.
Qed.

Lemma dict_get_set_eq d k v : dict_get (dict_set d k v) k = Some v.
Proof. rewrite dict_get_set. by rewrite decide_True. Qed.

Lemma dict_get_set_ne d k v k' : k ≠ k' → dict_get (dict_set d k v) k' = dict_get d k'.
Proof. intros. rewrite dict_get_set. by rewrite decide_False. Qed.

Lemma dict_get_del d k k' :
  dict_get (dict_del d k) k' = if decide (k = k') then None else dict_get d k'.
Proof.
  unfold dict_del; induction d as [|[k0 v0] d IH]; [simpl; by case_decide|].
  rewrite filter_cons; simpl. repeat (case_decide; simpl); subst; try congruence; try tauto.
Qed.

Lemma dict_get_del_eq d k : dict_get (dict_del d k) k = None.
Proof. rewrite dict_get_del. by rewrite decide_True. Qed.

Lemma dict_get_del_ne d k k' : k ≠ k' → dict_get (dict_del d k) k' = dict_get d k'.
Proof. intros. rewrite dict_get_del. by rewrite decide_False. Qed.

Lemma dict_keys_set d k v :
  dict_keys (dict_set d k v) =
    if decide (k ∈ dict_keys d) then dict_keys d else dict_keys d ++ [k].
Proof.
  unfold dict_keys; induction d as [|[k0 v0] d IH]; cbn -[decide]; [case_decide; set_solver|].
  repeat case_decide; subst; cbn -[decide]; rewrite ?IH; repeat case_decide; set_solver.
Qed.

Lemma elem_of_dict_keys_set d k v k' :
  k' ∈ dict_keys (dict_set d k v) ↔ k' = k ∨ k' ∈ dict_keys d.
Proof. rewrite dict_keys_set. case_decide; set_solver. Qed.

Lemma dict_keys_del d k : dict_keys (dict_del d k) = filter (λ k', k' ≠ k) (dict_keys d).
Proof.
  unfold dict_keys, dict_del; induction d as [|[k0 v0] d IH]; [done|].
  rewrite fmap_cons, !filter_cons; simpl.
  repeat case_decide; try tauto; rewrite ?fmap_cons; simpl; by rewrite IH.
Qed.

Lemma elem_of_dict_keys_del d k k' :
  k' ∈ dict_keys (dict_del d k) ↔ k' ≠ k ∧ k' ∈ dict_keys d.
Proof. by rewrite dict_keys_del, list_elem_of_filter. Qed.

Lemma dict_set_wf d k v : dict_wf d → dict_wf (dict_set d k v).
Proof.
  unfold dict_wf. rewrite dict_keys_set. case_decide; [done|].
  intros Hd. apply NoDup_app. split_and!; [done|set_solver|apply NoDup_singleton].
Qed.

Lemma dict_del_wf d k : dict_wf d → dict_wf (dict_del d k).
Proof. unfold dict_wf. rewrite dict_keys_del. apply NoDup_filter. Qed.

Lemma dict_nil_wf : dict_wf [].
Proof. apply NoDup_nil_2. Qed.

Lemma dict_set_id d k v : dict_get d k = Some v → dict_set d k v = d.
Proof.
  induction d as [|[k0 v0] d IH]; simpl; [done|]. case_decide; intros; simplify_eq; [done|].
  by rewrite IH.
Qed.

Lemma dict_set_new d k v : k ∉ dict_keys d → dict_set d k v = d ++ [(k, v)].
Proof.
  unfold dict_keys; induction d as [|[k0 v0] d IH]; simpl; [done|].
  rewrite not_elem_of_cons. intros [? ?]. rewrite decide_False by done. by rewrite IH.
Qed.

(** Two well-formed dictionaries with the same lookups have the same items. *)
Lemma dict_ext d1 d2 :
  dict_wf d1 → dict_wf d2 → (∀ k, dict_get d1 k = dict_get d2 k) → d1 ≡ₚ d2.
Proof.
  intros H1 H2 Heq. apply NoDup_Permutation.
  - by apply NoDup_fmap_1 in H1.
  - by apply NoDup_fmap_1 in H2.
  - intros [k v]. split; intros Hin; apply dict_get_In.
    + rewrite <- Heq. by apply dict_In_get.
    + rewrite Heq. by apply dict_In_get.
Qed.

Lemma dict_update_wf d l : dict_wf d → dict_wf (dict_update d l).
Proof.
  unfold dict_update; revert d; induction l as [|[k v] l IH]; intros d Hd; simpl; [done|].
  by apply IH, dict_set_wf.
Qed.

Lemma dict_update_get d l k :
  dict_wf l →
  dict_get (dict_update d l) k =
    match dict_get l k with Some v => Some v | None => dict_get d k end.
Proof.
  unfold dict_wf, dict_update, dict_keys; revert d.
  induction l as [|[k0 v0] l IH]; intros d Hl; simpl in *; [done|].
  apply NoDup_cons in Hl as [Hk Hl]. rewrite IH by done. rewrite dict_get_set.
  case_decide; subst; [|done].
  by rewrite (proj2 (dict_get_None l k)).
Qed.
End dict.

#[export] Hint Resolve dict_set_wf dict_del_wf dict_nil_wf dict_update_wf : gyp.
#[export] Hint Rewrite @dict_get_set_eq @dict_get_del_eq : gyp.
