(* ===== verification/PySet.v ===== *)
(** * Python sets

    A set is the list of its elements, each once.  [set.pop] removes and returns
    an element the implementation chooses; [SetPop] is that contract, and the
    code that pops from a set is verified against the contract, so for every
    choice an implementation may make. *)
From S2P Require Import Prelude.

Class SetPop (A : Type) := {
  set_pop : list A → option (A * list A);
  set_pop_nil : set_pop [] = None;
  set_pop_cons : ∀ x s, is_Some (set_pop (x :: s));
  set_pop_perm : ∀ s x s', set_pop s = Some (x, s') → s ≡ₚ x :: s'
}.

(** Two implementations: take the first element, take the last one. *)
Definition pop_first {A} (s : list A) : option (A * list A) :=
  match s with [] => None | x :: s => Some (x, s) end.

#[refine] Instance set_pop_first A : SetPop A | 10 := {| set_pop := pop_first |}.
Proof.
  - done.
  - intros x s. by eexists.
  - intros [|y s] x s' H; simplify_eq/=; done.
Defined.

#[refine] Instance set_pop_last A : SetPop A | 20 := {| set_pop s := '(x, s') ← pop_first (reverse s); Some (x, reverse s') |}.
Proof.
  - done.
  - intros x s. rewrite reverse_cons. destruct (reverse s); simpl; by eexists.
  - intros s x s' H. destruct (reverse s) as [|y r] eqn:Hr; simplify_eq/=.
    rewrite <- (reverse_involutive s), Hr, reverse_cons. by rewrite Permutation_app_comm.
Defined.

Section set.
Context {A : Type} `{EqDecision A}.
Implicit Types (s : list A) (x : A).

(** [s.add(x)] *)
Definition set_add x s : list A := if x in? s then s else s ++ [x].

(** [set(l)] *)
Definition set_of (l : list A) : list A := foldl (λ s x, set_add x s) [] l.

Lemma elem_of_set_add x s y : y ∈ set_add x s ↔ y = x ∨ y ∈ s.
Proof. unfold set_add. case_bool_decide; set_solver. Qed.

Lemma NoDup_set_add x s : NoDup s → NoDup (set_add x s).
Proof.
  unfold set_add. case_bool_decide; [done|]. intros. apply NoDup_app.
  split_and!; [done|set_solver|apply NoDup_singleton].
Qed.

Lemma set_of_foldl l s :
  NoDup s → NoDup (foldl (λ s x, set_add x s) s l)
  ∧ ∀ y, y ∈ foldl (λ s x, set_add x s) s l ↔ y ∈ s ∨ y ∈ l.
Proof.
  revert s; induction l as [|x l IH]; intros s Hs; simpl; [set_solver|].
  destruct (IH (set_add x s)) as [Hn He]; [by apply NoDup_set_add|].
  split; [done|]. intros y. rewrite He, elem_of_set_add, elem_of_cons. tauto.
Qed.

Lemma NoDup_set_of l : NoDup (set_of l).
Proof. apply set_of_foldl, NoDup_nil_2. Qed.

Lemma elem_of_set_of l y : y ∈ set_of l ↔ y ∈ l.
Proof. unfold set_of. destruct (set_of_foldl l []) as [_ ->]; [apply NoDup_nil_2|set_solver]. Qed.
End set.

#[export] Hint Resolve NoDup_set_add NoDup_set_of : gyp.
#[export] Hint Rewrite @elem_of_set_add @elem_of_set_of : gyp.
