(* ===== verification/Dfs.v ===== *)
(** * Depth-first collection

    Several functions of gyp collect a reachable set with the same recursion:
    skip a node already in the accumulator, append it, then visit its
    successors in order ([DependencyGraphNode.DeepDependencies],
    [_LinkDependenciesInternal] and [GetIncludedBuildFiles] of
    tools/gyp/pylib/gyp/input.py).  This file proves what that recursion
    computes, once, for an arbitrary successor function. *)
From stdpp Require Import relations.
From S2P Require Import Prelude.

Section dfs.
Context {A : Type} `{EqDecision A} (succ : A → list A).
Implicit Types (x y : A) (acc l : list A).

Definition edge x y : Prop := y ∈ succ x.

Fixpoint visit (fuel : nat) x acc : result (list A) :=
  match fuel with
  | 0 => Err OutOfFuel
  | S fuel =>
      if x in? acc then Ok acc
      else for_each (succ x) (acc ++ [x]) (visit fuel)
  end.

Definition visit_all (fuel : nat) l acc : result (list A) := for_each l acc (visit fuel).

(** What one traversal establishes: the accumulator grows by new, distinct
    nodes, each reachable from the starting nodes [l], all of whose
    successors are in the final accumulator, as are the starting nodes. *)
Record collected (l acc acc' : list A) : Prop := {
  collected_new : ∃ new, acc' = acc ++ new
    ∧ (NoDup acc → NoDup acc')
    ∧ (∀ y, y ∈ new → ∃ x, x ∈ l ∧ rtc edge x y)
    ∧ (∀ y z, y ∈ new → z ∈ succ y → z ∈ acc');
  collected_start : ∀ x, x ∈ l → x ∈ acc'
}.

Lemma collected_nil acc : collected [] acc acc.
Proof. split; [exists []; rewrite app_nil_r|]; set_solver. Qed.

Lemma collected_incl l acc acc' : collected l acc acc' → acc ⊆ acc'.
Proof. intros [(new&->&_) _]. set_solver. Qed.

Lemma collected_cons x l acc acc1 acc2 :
  collected [x] acc acc1 → collected l acc1 acc2 → collected (x :: l) acc acc2.
Proof.
  intros [(n1&->&Hd1&Hr1&Hc1) Hs1] [(n2&->&Hd2&Hr2&Hc2) Hs2]. split.
  - exists (n1 ++ n2). rewrite app_assoc. split_and!; [done|auto|set_solver|set_solver].
  - set_solver.
Qed.

Lemma collected_here x acc : x ∈ acc → collected [x] acc acc.
Proof. split; [exists []; rewrite app_nil_r|]; set_solver. Qed.

Lemma collected_step x acc acc' :
  x ∉ acc → collected (succ x) (acc ++ [x]) acc' → collected [x] acc acc'.
Proof.
  intros Hx [(new&->&Hd&Hr&Hc) Hs]. split.
  - exists (x :: new). rewrite <- app_assoc in *. split_and!.
    + done.
    + intros Hacc. apply Hd, NoDup_app. split_and!; [done|set_solver|apply NoDup_singleton].
    + intros y [->|Hy]%elem_of_cons; exists x; (split; [by left|]); [done|].
      destruct (Hr y Hy) as (z&?&?). by apply rtc_l with z.
    + intros y z [->|Hy]%elem_of_cons Hz; [auto|by eapply Hc].
  - intros y ->%list_elem_of_singleton. set_solver.
Qed.

Lemma visit_collected fuel x acc acc' :
  visit fuel x acc = Ok acc' → collected [x] acc acc'.
Proof.
  revert x acc acc'; induction fuel as [|fuel IH]; intros x acc acc' H; simpl in H; [done|].
  case_bool_decide; inv_ok; [by apply collected_here|].
  apply collected_step; [done|]. revert H. generalize (acc ++ [x]) as a.
  induction (succ x) as [|y l IHl]; intros a H1; simpl in H1; inv_ok; [apply collected_nil|].
  eapply collected_cons; eauto.
Qed.

Lemma visit_all_collected fuel l acc acc' :
  visit_all fuel l acc = Ok acc' → collected l acc acc'.
Proof.
  unfold visit_all; revert acc; induction l as [|x l IH]; intros acc H; simpl in H; inv_ok;
    [apply collected_nil|].
  eapply collected_cons; eauto using visit_collected.
Qed.

(** Fuel: in a universe [U] closed under successors, as much fuel as there
    are nodes of [U] not yet collected, and one more, is enough. *)
Definition closed (U : list A) : Prop := ∀ x y, x ∈ U → y ∈ succ x → y ∈ U.

Definition missing (U acc : list A) : nat := length (filter (λ x, x ∉ acc) U).

Lemma missing_mono U acc acc' : acc ⊆ acc' → missing U acc' ≤ missing U acc.
Proof.
  intros Hincl. unfold missing. induction U as [|x U IH]; [done|].
  rewrite !filter_cons. repeat case_decide; simpl; set_solver by lia.
Qed.

Lemma missing_lt U acc x : x ∈ U → x ∉ acc → missing U (acc ++ [x]) < missing U acc.
Proof.
  unfold missing. induction U as [|y U IH]; [by rewrite elem_of_nil|].
  intros [->|Hin]%elem_of_cons Hx; rewrite !filter_cons.
  - rewrite decide_False by set_solver. rewrite decide_True by done. simpl.
    pose proof (missing_mono U acc (acc ++ [y])). unfold missing in *. set_solver by lia.
  - specialize (IH Hin Hx). repeat case_decide; simpl; set_solver by lia.
Qed.

Lemma missing_le U acc : missing U acc ≤ length U.
Proof. apply length_filter. Qed.

Lemma visit_fuel U fuel x acc :
  closed U → x ∈ U → missing U acc < fuel → ∃ acc', visit fuel x acc = Ok acc'.
Proof.
  intros HU. revert x acc; induction fuel as [|fuel IH]; intros x acc Hx Hm; [lia|].
  simpl. case_bool_decide as Hin; [by eexists|].
  assert (Hm' : missing U (acc ++ [x]) < fuel).
  { pose proof (missing_lt U acc x Hx Hin). lia. }
  assert (Hl : ∀ y, y ∈ succ x → y ∈ U) by eauto.
  clear Hm Hin. revert Hm'. generalize (acc ++ [x]) as a.
  induction (succ x) as [|y l IHl]; intros a Ha; simpl; [by eexists|].
  destruct (IH y a) as [a' Ha']; [set_solver|done|]. rewrite Ha'; simpl.
  apply IHl; [set_solver|].
  pose proof (collected_incl _ _ _ (visit_collected _ _ _ _ Ha')).
  pose proof (missing_mono U a a'). lia || (assert (missing U a' ≤ missing U a) by auto; lia).
Qed.

Lemma visit_all_fuel U fuel l acc :
  closed U → l ⊆ U → missing U acc < fuel → ∃ acc', visit_all fuel l acc = Ok acc'.
Proof.
  unfold visit_all. intros HU. revert acc; induction l as [|x l IH]; intros acc Hl Hm; simpl;
    [by eexists|].
  destruct (visit_fuel U fuel x acc) as [a' Ha']; [done|set_solver|done|].
  rewrite Ha'; simpl. apply IH; [set_solver|].
  pose proof (collected_incl _ _ _ (visit_collected _ _ _ _ Ha')).
  assert (missing U a' ≤ missing U acc) by (by apply missing_mono). lia.
Qed.

(** The whole result, started from an empty accumulator: exactly the nodes
    reachable from the starting nodes, each once. *)
Lemma collected_reachable l acc' :
  collected l [] acc' → NoDup acc' ∧ ∀ y, y ∈ acc' ↔ ∃ x, x ∈ l ∧ rtc edge x y.
Proof.
  intros [(new&->&Hd&Hr&Hc) Hs]; simpl in *. split; [apply Hd, NoDup_nil_2|].
  intros y. split; [apply Hr|]. intros (x&Hx&Hxy). apply Hs in Hx.
  induction Hxy as [|x z y Hxz _ IH]; [done|]. apply IH. by eapply Hc.
Qed.

Lemma visit_all_reachable fuel l acc' :
  visit_all fuel l [] = Ok acc' →
  NoDup acc' ∧ ∀ y, y ∈ acc' ↔ ∃ x, x ∈ l ∧ rtc edge x y.
Proof. intros H. eapply collected_reachable, visit_all_collected, H. Qed.
End dfs.
