(* ===== verification/PyStr.v ===== *)
(** * Python string operations

    The string methods the modelled code uses, on character lists ([chars] of a
    string), with their wrappers on strings and the lemmas that relate them:
    splitting and joining, replacing, stripping and searching. *)
From S2P Require Import Prelude.
From Stdlib Require Import Ascii.

Section list_ops.
Context {A : Type} `{EqDecision A}.
Implicit Types (c : A) (l : list A) (ls : list (list A)).

(** [s.split(c)] *)
Fixpoint lsplit c l : list (list A) :=
  match l with
  | [] => [[]]
  | x :: l =>
      if decide (x = c) then [] :: lsplit c l
      else match lsplit c l with w :: ws => (x :: w) :: ws | [] => [[x]] end
  end.

(** [sep.join(ls)] *)
Fixpoint ljoin (sep : list A) ls : list A :=
  match ls with
  | [] => []
  | [w] => w
  | w :: ws => w ++ sep ++ ljoin sep ws
  end.

(** [s.rsplit(c, 1)] when it splits: the parts around the last [c]. *)
Fixpoint lrsplit1 c l : option (list A * list A) :=
  match l with
  | [] => None
  | x :: l =>
      match lrsplit1 c l with
      | Some (a, b) => Some (x :: a, b)
      | None => if decide (x = c) then Some ([], l) else None
      end
  end.

(** [s.startswith(p)] *)
Fixpoint lstarts p l : bool :=
  match p, l with
  | [], _ => true
  | _, [] => false
  | x :: p, y :: l => (x ==? y) && lstarts p l
  end.

(** [s.find(p)]: the first index at which [p] occurs. *)
Fixpoint lfind p l : option nat :=
  if lstarts p l then Some 0
  else match l with [] => None | _ :: l => S <$> lfind p l end.

(** [s.replace(old, new)]; [skip] counts the characters of the current
    occurrence still to be dropped. *)
Fixpoint lreplace_go (old new : list A) (skip : nat) l : list A :=
  match l with
  | [] => []
  | x :: l' =>
      match skip with
      | S skip => lreplace_go old new skip l'
      | 0 => if lstarts old l then new ++ lreplace_go old new (pred (length old)) l'
             else x :: lreplace_go old new 0 l'
      end
  end.

(** An empty [old] occurs before every character and at the end. *)
Definition lreplace (old new : list A) l : list A :=
  match old with
  | [] => new ++ mjoin ((λ x, x :: new) <$> l)
  | _ => lreplace_go old new 0 l
  end.

Fixpoint drop_while (P : A → bool) l : list A :=
  match l with [] => [] | x :: l' => if P x then drop_while P l' else l end.

(** [s.lstrip(..)], [s.rstrip(..)], [s.strip(..)] for a set of characters. *)
Definition lstrip (P : A → bool) l := drop_while P l.
Definition rstrip (P : A → bool) l := reverse (drop_while P (reverse l)).
Definition strip (P : A → bool) l := rstrip P (lstrip P l).

(** The longest prefix whose items have the property, and the rest. *)
Fixpoint span (P : A → bool) l : list A * list A :=
  match l with
  | [] => ([], [])
  | c :: r => if P c then let '(a, b) := span P r in (c :: a, b) else ([], l)
  end.

Lemma span_app P l : (span P l).1 ++ (span P l).2 = l.
Proof. induction l as [|c l IH]; [done|]. cbn. destruct (P c); [|done]. destruct (span P l). cbn in *. by rewrite IH. Qed.

Lemma span_all P l1 l2 : forallb P l1 = true → (∀ c, head l2 = Some c → P c = false) → span P (l1 ++ l2) = (l1, l2).
Proof.
  intros H1 H2. induction l1 as [|c l1 IH]; cbn.
  - destruct l2 as [|c l2]; [done|]. cbn. by rewrite (H2 c eq_refl).
  - cbn in H1. apply andb_true_iff in H1 as [-> H1]. by rewrite IH.
Qed.

Lemma lsplit_nonempty c l : lsplit c l ≠ [].
Proof. destruct l; simpl; [done|]. case_decide; [done|]. by destruct (lsplit c l). Qed.

Lemma ljoin_cons sep w ws : ws ≠ [] → ljoin sep (w :: ws) = w ++ sep ++ ljoin sep ws.
Proof. by destruct ws. Qed.

Lemma ljoin_lsplit c l : ljoin [c] (lsplit c l) = l.
Proof.
  induction l as [|x l IH]; [done|]; simpl. case_decide; subst.
  - rewrite ljoin_cons by apply lsplit_nonempty. simpl. by rewrite IH.
  - pose proof (lsplit_nonempty c l) as Hne. destruct (lsplit c l) as [|w ws]; [done|].
    destruct ws as [|w' ws]; simpl in *; by rewrite <- IH.
Qed.

Lemma lsplit_free c l : c ∉ l → lsplit c l = [l].
Proof.
  induction l as [|x l IH]; [done|]; simpl. rewrite not_elem_of_cons. intros [??].
  by rewrite decide_False, IH.
Qed.

Lemma lsplit_app c l1 l2 : c ∉ l1 → lsplit c (l1 ++ c :: l2) = l1 :: lsplit c l2.
Proof.
  induction l1 as [|x l1 IH]; simpl; [by rewrite decide_True|].
  rewrite not_elem_of_cons. intros [??]. by rewrite decide_False, IH.
Qed.

(** Splitting a join of [c]-free words returns the words. *)
Lemma lsplit_ljoin c ws : ws ≠ [] → Forall (λ w, c ∉ w) ws → lsplit c (ljoin [c] ws) = ws.
Proof.
  intros Hne Hf. induction Hf as [|w ws Hw Hf IH]; [done|].
  destruct ws as [|w' ws]; [by apply lsplit_free|].
  rewrite ljoin_cons by done. cbn [app]. rewrite lsplit_app by done. by rewrite IH.
Qed.

Lemma lsplit_words_free c l : Forall (λ w, c ∉ w) (lsplit c l).
Proof.
  induction l as [|x l IH]; simpl; [repeat constructor; set_solver|]. case_decide.
  - constructor; [set_solver|done].
  - destruct (lsplit c l) as [|w ws]; [repeat constructor; set_solver|].
    inversion IH; subst. constructor; [set_solver|done].
Qed.

Lemma lrsplit1_None c l : lrsplit1 c l = None ↔ c ∉ l.
Proof.
  induction l as [|x l IH]; simpl; [set_solver|]. rewrite not_elem_of_cons.
  destruct (lrsplit1 c l) as [[a b]|]; [naive_solver|]. case_decide; naive_solver.
Qed.

Lemma lrsplit1_Some c l a b : lrsplit1 c l = Some (a, b) ↔ l = a ++ c :: b ∧ c ∉ b.
Proof.
  revert a; induction l as [|x l IH]; intros a; simpl.
  - split; [done|]. intros [? _]. by destruct a.
  - destruct (lrsplit1 c l) as [[a' b']|] eqn:Hl.
    + split.
      * intros [= <- <-]. destruct (IH a') as [[-> ?] _]; [done|]. done.
      * intros [Heq Hb]. destruct a as [|y a]; simplify_eq/=.
        { apply lrsplit1_None in Hb. congruence. }
        destruct (IH a) as [_ Hi]. specialize (Hi (conj eq_refl Hb)). by simplify_eq.
    + apply lrsplit1_None in Hl. case_decide; subst; split.
      * by intros [= <- <-].
      * intros [Heq Hb]. destruct a as [|y a]; simplify_eq/=; [done|]. set_solver.
      * done.
      * intros [Heq Hb]. destruct a as [|y a]; simplify_eq/=. set_solver.
Qed.

Lemma lstarts_spec p l : lstarts p l = true ↔ ∃ s, l = p ++ s.
Proof.
  revert l; induction p as [|x p IH]; intros l; simpl; [naive_solver|].
  destruct l as [|y l]; [naive_solver|].
  rewrite andb_true_iff, bool_decide_eq_true, IH. naive_solver.
Qed.

(** Replacing a single character. *)
Lemma lreplace_single c new l : lreplace [c] new l = concat ((λ x, if decide (x = c) then new else [x]) <$> l).
Proof.
  unfold lreplace. induction l as [|x l IH]; [done|]. cbn [lreplace_go lstarts fmap list_fmap concat length pred].
  rewrite andb_true_r. case_bool_decide as Hx; subst; [|rewrite decide_False by done]; [rewrite decide_True by done|];
    by rewrite IH.
Qed.

Lemma lstarts_app p l : lstarts p (p ++ l) = true.
Proof. apply lstarts_spec. by exists l. Qed.
End list_ops.

(** ** Strings *)
Definition chars (s : string) : list ascii := String.list_ascii_of_string s.
Definition of_chars (l : list ascii) : string := String.string_of_list_ascii l.

Lemma of_chars_chars s : of_chars (chars s) = s.
Proof. apply String.string_of_list_ascii_of_string. Qed.
Lemma chars_of_chars l : chars (of_chars l) = l.
Proof. apply String.list_ascii_of_string_of_list_ascii. Qed.
Lemma chars_app s1 s2 : chars (s1 +:+ s2) = chars s1 ++ chars s2.
Proof. induction s1 as [|c s1 IH]; [done|]. simpl. by f_equal. Qed.
Lemma of_chars_app l1 l2 : of_chars (l1 ++ l2) = of_chars l1 +:+ of_chars l2.
Proof. induction l1 as [|c l1 IH]; [done|]. simpl. by rewrite IH. Qed.
#[export] Instance chars_inj : Inj (=) (=) chars.
Proof. intros s1 s2 H. by rewrite <- (of_chars_chars s1), H, of_chars_chars. Qed.
#[export] Instance of_chars_inj : Inj (=) (=) of_chars.
Proof. intros s1 s2 H. by rewrite <- (chars_of_chars s1), H, chars_of_chars. Qed.

#[export] Hint Rewrite of_chars_chars chars_of_chars chars_app : gyp.

(** [c in s] for a character [c]. *)
Definition str_has (c : ascii) (s : string) : bool := c in? chars s.

(** [s.rsplit(c, 1)]: the two parts, or [None] for the singleton list. *)
Definition str_rsplit1 (c : ascii) (s : string) : option (string * string) :=
  '(a, b) ← lrsplit1 c (chars s); Some (of_chars a, of_chars b).
Definition str_split (c : ascii) (s : string) : list string := of_chars <$> lsplit c (chars s).
Definition str_join (sep : string) (l : list string) : string :=
  of_chars (ljoin (chars sep) (chars <$> l)).
Definition str_startswith (p s : string) : bool := lstarts (chars p) (chars s).
Definition str_endswith (p s : string) : bool := lstarts (reverse (chars p)) (reverse (chars s)).
Definition str_replace (old new s : string) : string :=
  of_chars (lreplace (chars old) (chars new) (chars s)).

(** [s[-1:]] and [s[:-1]] *)
Definition str_last (s : string) : option ascii := last (chars s).
Definition str_init (s : string) : string := of_chars (take (pred (length (chars s))) (chars s)).

(** [c.isspace()] and the default [s.strip()] *)
Definition str_strip (s : string) : string := of_chars (strip Ascii.is_space (chars s)).

(** [s.lower()] *)
Definition lower_char (c : ascii) : ascii :=
  let n := nat_of_ascii c in if (65 <=? n) && (n <=? 90) then ascii_of_nat (n + 32) else c.
Definition lower (s : string) : string := of_chars (lower_char <$> chars s).

(** A text between double quotes. *)
Definition quoted (s : string) : string := String "034"%char (s +:+ String "034"%char "").

(** The newline character, as a string. *)
Definition newline : string := String "010"%char "".

(** The decimal form of an integer, [str(n)]. *)
Definition str_of_int (z : Z) : string := pretty z.

Lemma str_rsplit1_Some c s a b :
  str_rsplit1 c s = Some (a, b) ↔ s = a +:+ String c b ∧ c ∉ chars b.
Proof.
  unfold str_rsplit1. split.
  - destruct (lrsplit1 c (chars s)) as [[la lb]|] eqn:Hl; simpl; [|done].
    intros [= <- <-]. apply lrsplit1_Some in Hl as [Hs Hb]. rewrite chars_of_chars. split; [|done].
    apply (inj chars). rewrite chars_app, Hs. simpl. by rewrite !chars_of_chars.
  - intros [-> Hb]. rewrite chars_app.
    assert (lrsplit1 c (chars a ++ chars (String c b)) = Some (chars a, chars b)) as ->
      by by apply lrsplit1_Some.
    simpl. by rewrite !of_chars_chars.
Qed.

Lemma str_rsplit1_None c s : str_rsplit1 c s = None ↔ c ∉ chars s.
Proof.
  unfold str_rsplit1. rewrite <- lrsplit1_None.
  destruct (lrsplit1 c (chars s)) as [[??]|]; simpl; naive_solver.
Qed.

Lemma str_init_last s c : str_last s = Some c → s = str_init s +:+ String c "".
Proof.
  unfold str_last, str_init. intros Hl. apply (inj chars).
  rewrite chars_app, chars_of_chars. simpl. apply last_Some in Hl as [l ->].
  rewrite length_app, Nat.add_comm; simpl. by rewrite take_app_length.
Qed.

(** ** Order *)

(** [a < b] and [sorted(l)], by the codes of the characters. *)
Definition str_lt (a b : string) : bool :=
  match String.compare a b with Lt => true | _ => false end.
Definition str_le (a b : string) : Prop := str_lt b a = false.
#[export] Instance str_le_dec : RelDecision str_le.
Proof. intros a b. unfold str_le. apply _. Defined.
Definition str_sorted (l : list string) : list string := merge_sort str_le l.

Lemma str_sorted_Permutation l : str_sorted l ≡ₚ l.
Proof. apply merge_sort_Permutation. Qed.
