(* ===== verification/PyPath.v ===== *)
(** * posixpath

    The functions of Python's [os.path] (posixpath) the modelled code calls, on
    character lists, and the facts about normal forms that path arithmetic
    needs. *)
From S2P Require Import Prelude PyStr.
From Stdlib Require Import Ascii.

Abbreviation text := (list ascii).

(** [re.sub('[^a-zA-Z0-9_]', '_', s)] *)
Definition is_word_char (c : ascii) : bool :=
  let n := nat_of_ascii c in
  ((97 <=? n) && (n <=? 122)) || ((65 <=? n) && (n <=? 90)) || ((48 <=? n) && (n <=? 57)) || (c ==? "_"%char).
Definition only_word_chars (s : text) : text := (λ c, if is_word_char c then c else "_"%char) <$> s.

Definition slash : ascii := "/".
Definition dot : text := chars ".".
Definition dotdot : text := chars "..".

(** [os.path.isabs(p)] *)
Definition p_isabs (p : text) : bool := lstarts [slash] p.

(** [os.path.join(a, b)] *)
Definition p_join (a b : text) : text :=
  if lstarts [slash] b then b
  else if (a ==? []) || (last a ==? Some slash) then a ++ b
  else a ++ slash :: b.

(** [os.path.join(a, b1, b2, ...)] *)
Definition p_join_list (a : text) (bs : list text) : text := foldl p_join a bs.

(** The head and tail of [os.path.split(p)]: the tail follows the last slash;
    the head loses its trailing slashes unless it is made of slashes only. *)
Definition p_split (p : text) : text * text :=
  match lrsplit1 slash p with
  | None => ([], p)
  | Some (head, tail) =>
      let head := head ++ [slash] in
      (if forallb (λ c, c ==? slash) head then head else rstrip (λ c, c ==? slash) head, tail)
  end.
Definition p_dirname (p : text) : text := (p_split p).1.
Definition p_basename (p : text) : text := (p_split p).2.

(** [os.path.splitext(p)]: the extension starts at the last dot of the last
    component, unless only dots precede it there. *)
Definition p_splitext (p : text) : text * text :=
  match lrsplit1 "."%char p with
  | None => (p, [])
  | Some (root, ext) =>
      if slash in? ext then (p, [])
      else
        let file := match lrsplit1 slash root with Some (_, f) => f | None => root end in
        if forallb (λ c, c ==? "."%char) file then (p, []) else (root, "."%char :: ext)
  end.

(** The loop of [os.path.normpath] over the components; [acc] is [new_comps],
    last component first. *)
Fixpoint norm_comps (absolute : bool) (acc comps : list text) : list text :=
  match comps with
  | [] => acc
  | comp :: comps =>
      let acc :=
        if (comp ==? []) || (comp ==? dot) then acc
        else if negb (comp ==? dotdot) || (negb absolute && (acc ==? []))
                || match acc with top :: _ => top ==? dotdot | [] => false end
             then comp :: acc
        else tail acc in
      norm_comps absolute acc comps
  end.

Definition initial_slashes (p : text) : text :=
  if lstarts [slash] p then
    if lstarts [slash; slash] p && negb (lstarts [slash; slash; slash] p)
    then [slash; slash] else [slash]
  else [].

(** [os.path.normpath(p)] *)
Definition p_normpath (p : text) : text :=
  if p ==? [] then dot
  else
    let slashes := initial_slashes p in
    let comps := reverse (norm_comps (negb (slashes ==? [])) [] (lsplit slash p)) in
    let path := slashes ++ ljoin [slash] comps in
    if path ==? [] then dot else path.

(** [os.path.commonprefix([a, b])] for two lists. *)
Fixpoint common_prefix {A} `{EqDecision A} (a b : list A) : list A :=
  match a, b with
  | x :: a, y :: b => if decide (x = y) then x :: common_prefix a b else []
  | _, _ => []
  end.

(** ** Normal absolute paths *)

(** A component that normalisation keeps. *)
Definition comp_ok (c : text) : Prop := c ≠ [] ∧ c ≠ dot ∧ c ≠ dotdot ∧ slash ∉ c.

(** The absolute path with the components [comps], as [normpath] prints it. *)
Definition abs_path (comps : list text) : text := slash :: ljoin [slash] comps.

Lemma common_prefix_split {A} `{EqDecision A} (a b : list A) :
  ∃ a' b', a = common_prefix a b ++ a' ∧ b = common_prefix a b ++ b'
    ∧ (∀ x y, head a' = Some x → head b' = Some y → x ≠ y).
Proof.
  revert b; induction a as [|x a IH]; intros [|y b]; simpl; [by eexists _, _..|].
  case_decide; subst; [|by exists (x :: a), (y :: b); naive_solver].
  destruct (IH b) as (a'&b'&Ha&Hb&?). exists a', b'. simpl. by rewrite <- Ha, <- Hb.
Qed.

Lemma norm_comps_app ab acc l1 l2 :
  norm_comps ab acc (l1 ++ l2) = norm_comps ab (norm_comps ab acc l1) l2.
Proof. revert acc; induction l1 as [|c l1 IH]; intros acc; simpl; [done|]. apply IH. Qed.

(** Kept components are pushed. *)
Lemma norm_comps_ok ab acc l : Forall comp_ok l → norm_comps ab acc l = reverse l ++ acc.
Proof.
  intros Hl; revert acc; induction Hl as [|c l (?&?&?&_) _ IH]; intros acc; simpl; [done|].
  rewrite !bool_decide_eq_false_2 by done. simpl. by rewrite IH, reverse_cons, <- app_assoc.
Qed.

(** Each [..] pops one of the kept components of an absolute path. *)
Lemma norm_comps_pop n acc :
  Forall comp_ok acc → norm_comps true acc (replicate n dotdot) = drop n acc.
Proof.
  revert acc; induction n as [|n IH]; intros acc Hacc; [by rewrite drop_0|].
  destruct Hacc as [|c acc (?&?&?&?) Hacc]; simpl; [rewrite IH by done; by rewrite drop_nil|].
  rewrite (bool_decide_eq_false_2 (c = dotdot)) by done. by rewrite IH.
Qed.

Lemma norm_comps_wf acc l :
  Forall comp_ok acc → Forall (λ c, slash ∉ c) l → Forall comp_ok (norm_comps true acc l).
Proof.
  revert acc; induction l as [|c l IH]; intros acc Hacc Hl; simpl; [done|].
  inversion Hl; subst. apply IH; [|done].
  repeat case_bool_decide; simpl; try done; try (by constructor; [done|]);
    destruct Hacc as [|top acc (?&?&?&?) ?]; simpl; try done;
    rewrite ?bool_decide_eq_false_2 by done; try done; by repeat constructor.
Qed.

(** [normpath] of an absolute path with one initial slash is a normal path. *)
Lemma p_normpath_abs p :
  p_isabs p = true → initial_slashes p = [slash] →
  p_normpath p = abs_path (reverse (norm_comps true [] (lsplit slash p)))
  ∧ Forall comp_ok (reverse (norm_comps true [] (lsplit slash p))).
Proof.
  intros Habs Hs. unfold p_normpath, abs_path. rewrite Hs.
  destruct p as [|c p]; [done|]. simpl. split; [done|].
  apply Forall_reverse. change (Forall comp_ok (norm_comps true [] (lsplit slash (c :: p)))).
  apply norm_comps_wf; [done|]. apply lsplit_words_free.
Qed.

Lemma lsplit_abs comps :
  Forall comp_ok comps → comps ≠ [] → lsplit slash (abs_path comps) = [] :: comps.
Proof.
  intros Hc Hne. unfold abs_path. simpl. f_equal. apply lsplit_ljoin; [done|].
  eapply Forall_impl; [done|]. by intros c (?&?&?&?).
Qed.
