(* ===== verification/PyVal.v ===== *)
(** * The data of a gyp file

    A gyp file evaluates to a tree of dictionaries, lists, strings and integers
    ([CheckNode] of tools/gyp/pylib/gyp/input.py admits nothing else).  This file
    holds that tree, Python's equality and truth value on it, and the accessors
    the later phases use on values whose type they take for granted. *)
From S2P Require Import Prelude PyDict.

#[local] Set Warnings "-register-all".
#[local] Unset Elimination Schemes.
Inductive pyval :=
  | VStr (s : string)
  | VInt (z : Z)
  | VList (l : list pyval)
  | VDict (d : list (string * pyval)).
#[local] Set Elimination Schemes.

(** The dictionaries of gyp: a target, a configuration, a build file. *)
Abbreviation pydict := (list (string * pyval)).

Section induction.
Variable P : pyval → Prop.
Hypothesis (HStr : ∀ s, P (VStr s)) (HInt : ∀ z, P (VInt z)).
Hypothesis HList : ∀ l, Forall P l → P (VList l).
Hypothesis HDict : ∀ d, Forall (λ p, P p.2) d → P (VDict d).

Fixpoint pyval_ind (v : pyval) : P v :=
  match v with
  | VStr s => HStr s
  | VInt z => HInt z
  | VList l => HList l ((fix go l := match l return Forall P l with
      | [] => Forall_nil_2 _
      | x :: l => Forall_cons_2 _ _ _ (pyval_ind x) (go l) end) l)
  | VDict d => HDict d ((fix go d := match d return Forall (λ p, P p.2) d with
      | [] => Forall_nil_2 _
      | p :: d => Forall_cons_2 (λ p, P p.2) p d (pyval_ind p.2) (go d) end) d)
  end.
End induction.

#[export] Instance pyval_eq_dec : EqDecision pyval.
Proof.
  refine (fix go (v1 v2 : pyval) : Decision (v1 = v2) :=
    let _ : EqDecision pyval := @go in
    match v1, v2 with
    | VStr s1, VStr s2 => cast_if (decide (s1 = s2))
    | VInt z1, VInt z2 => cast_if (decide (z1 = z2))
    | VList l1, VList l2 => cast_if (decide (l1 = l2))
    | VDict d1, VDict d2 => cast_if (decide (d1 = d2))
    | _, _ => right _
    end);
    repeat match goal with r : EqDecision _ |- _ => clear r end; clear go; abstract congruence.
Defined.

(** [x == y]: dictionaries compare without regard to the order of their items. *)
Fixpoint py_eq (v1 v2 : pyval) {struct v1} : bool :=
  match v1, v2 with
  | VStr s1, VStr s2 => s1 ==? s2
  | VInt z1, VInt z2 => z1 ==? z2
  | VList l1, VList l2 =>
      (fix go l1 l2 := match l1, l2 with
        | [], [] => true
        | x :: l1, y :: l2 => py_eq x y && go l1 l2
        | _, _ => false end) l1 l2
  | VDict d1, VDict d2 =>
      (length d1 ==? length d2) &&
      (fix go d1 := match d1 with
        | [] => true
        | (k, x) :: d1 =>
            match dict_get d2 k with Some y => py_eq x y | None => false end && go d1
        end) d1
  | _, _ => false
  end.

(** [x in l] for a list [l]. *)
Definition py_in (v : pyval) (l : list pyval) : bool := existsb (py_eq v) l.

(** [bool(x)] *)
Definition truthy (v : pyval) : bool :=
  match v with
  | VStr s => negb (s ==? "")
  | VInt z => negb (z ==? 0%Z)
  | VList l => negb (l ==? [])
  | VDict d => negb (d ==? [])
  end.

(** [x.__class__.__name__] *)
Definition class_name (v : pyval) : string :=
  match v with
  | VStr _ => "str"
  | VInt _ => "int"
  | VList _ => "list"
  | VDict _ => "dict"
  end.

Definition is_str (v : pyval) : bool := match v with VStr _ => true | _ => false end.
Definition is_int (v : pyval) : bool := match v with VInt _ => true | _ => false end.
Definition is_list (v : pyval) : bool := match v with VList _ => true | _ => false end.
Definition is_dict (v : pyval) : bool := match v with VDict _ => true | _ => false end.

(** Accessors: the value taken for a string, a list, a dictionary or a list of
    strings; a value of another type raises [TypeError], the exception its first
    misuse raises in Python. *)
Definition as_str (v : pyval) : result string :=
  match v with VStr s => Ok s | _ => Err (TypeError (class_name v)) end.
Definition as_list (v : pyval) : result (list pyval) :=
  match v with VList l => Ok l | _ => Err (TypeError (class_name v)) end.
Definition as_dict (v : pyval) : result pydict :=
  match v with VDict d => Ok d | _ => Err (TypeError (class_name v)) end.
Definition as_strs (v : pyval) : result (list string) :=
  l ← as_list v; map_result as_str l.

(** [d[k]] *)
Definition dict_index (d : pydict) (k : string) : result pyval :=
  match dict_get d k with Some v => Ok v | None => Err (KeyError k) end.

(** [d.get(k, default)] and [d.get(k, [])] taken for a list of strings. *)
Definition dict_get_default (d : pydict) (k : string) (v : pyval) : pyval :=
  default v (dict_get d k).
Definition get_strs (d : pydict) (k : string) : result (list string) :=
  as_strs (dict_get_default d k (VList [])).

Lemma py_eq_str s v : py_eq (VStr s) v = true ↔ v = VStr s.
Proof. destruct v; simpl; rewrite ?bool_decide_eq_true; naive_solver. Qed.

Lemma py_eq_int z v : py_eq (VInt z) v = true ↔ v = VInt z.
Proof. destruct v; simpl; rewrite ?bool_decide_eq_true; naive_solver. Qed.

Lemma py_in_str s l : py_in (VStr s) l = true ↔ VStr s ∈ l.
Proof.
  unfold py_in. rewrite existsb_exists. split.
  - intros (v&Hv&->%py_eq_str). by apply list_elem_of_In.
  - intros Hs. exists (VStr s). rewrite list_elem_of_In in Hs. by rewrite py_eq_str.
Qed.

Lemma py_in_int z l : py_in (VInt z) l = true ↔ VInt z ∈ l.
Proof.
  unfold py_in. rewrite existsb_exists. split.
  - intros (v&Hv&->%py_eq_int). by apply list_elem_of_In.
  - intros Hs. exists (VInt z). rewrite list_elem_of_In in Hs. by rewrite py_eq_int.
Qed.

Lemma as_strs_VStr l : as_strs (VList (VStr <$> l)) = Ok l.
Proof. apply map_result_Ok. induction l; simpl; constructor; auto. Qed.

Lemma as_strs_Ok v l : as_strs v = Ok l ↔ v = VList (VStr <$> l).
Proof.
  split; [|intros ->; apply as_strs_VStr].
  unfold as_strs. destruct v as [| |vs|]; simpl; try done. rewrite map_result_Ok. intros H.
  f_equal. induction H as [|x y vs l Hxy _ IH]; [done|].
  destruct x; simpl in *; simplify_eq. f_equal/=.
Qed.

Lemma as_str_terminates v : terminates (as_str v).
Proof. by destruct v. Qed.
Lemma as_list_terminates v : terminates (as_list v).
Proof. by destruct v. Qed.
Lemma as_dict_terminates v : terminates (as_dict v).
Proof. by destruct v. Qed.
Lemma dict_index_terminates d k : terminates (dict_index d k).
Proof. unfold dict_index. by destruct (dict_get d k). Qed.
#[export] Hint Resolve as_str_terminates as_list_terminates as_dict_terminates dict_index_terminates : terminates.
Lemma as_strs_terminates v : terminates (as_strs v).
Proof. unfold as_strs. solve_terminates. Qed.
#[export] Hint Resolve as_strs_terminates : terminates.
Lemma get_strs_terminates d k : terminates (get_strs d k).
Proof. unfold get_strs. solve_terminates. Qed.
#[export] Hint Resolve get_strs_terminates : terminates.
