(* ===== verification/PyNum.v ===== *)
(** * Numbers and values as text

    What Python's [int], [str], [repr] and the formats [%d] and [%04x] do with the values
    of a gyp file, and the round trips between numbers and their texts. *)
From S2P Require Import Prelude PyDict PyStr PyVal.
From Stdlib Require Import Ascii.

(** ** Reading numbers *)

(** The value of a character as a digit; letters count from ten. *)
Definition digit_of (c : ascii) : option Z :=
  let n := Z.of_nat (nat_of_ascii c) in
  if (48 <=? n)%Z && (n <=? 57)%Z then Some (n - 48)%Z
  else if (97 <=? n)%Z && (n <=? 122)%Z then Some (n - 87)%Z
  else if (65 <=? n)%Z && (n <=? 90)%Z then Some (n - 55)%Z
  else None.
Definition digit_in (base : Z) (c : ascii) : option Z :=
  d ← digit_of c; if (d <? base)%Z then Some d else None.

Definition add_digit (base : Z) (acc : option Z) (c : ascii) : option Z :=
  a ← acc; d ← digit_in base c; Some (a * base + d)%Z.
Definition number_of (base : Z) (l : list ascii) : option Z :=
  match l with [] => None | _ => foldl (add_digit base) (Some 0%Z) l end.

(** The digits after the sign: blanks are skipped there too, and base sixteen has a
    prefix of its own. *)
Definition read_unsigned (base : Z) (l : list ascii) : option Z :=
  match drop_while Ascii.is_space l with
  | "0"%char :: x :: l =>
      if (base ==? 16%Z) && (x in? ["x"; "X"]%char) then number_of base l else number_of base ("0"%char :: x :: l)
  | l => number_of base l
  end.
Definition read_int (base : Z) (l : list ascii) : option Z :=
  match strip Ascii.is_space l with
  | "-"%char :: l => Z.opp <$> read_unsigned base l
  | "+"%char :: l => read_unsigned base l
  | l => read_unsigned base l
  end.

(** ** Writing numbers *)

Definition hex_digits : list ascii :=
  ["0"; "1"; "2"; "3"; "4"; "5"; "6"; "7"; "8"; "9"; "a"; "b"; "c"; "d"; "e"; "f"]%char.
Definition hex_char (d : Z) : ascii := nth (Z.to_nat d) hex_digits "0"%char.

(** The hexadecimal digits of [n]; a number has at most as many of them as bits. *)
Fixpoint hex_go (fuel : nat) (n : Z) (acc : list ascii) : list ascii :=
  match fuel with
  | 0 => acc
  | S fuel =>
      let acc := hex_char (n mod 16) :: acc in
      if (n <? 16)%Z then acc else hex_go fuel (n / 16) acc
  end.
Definition hex_text (n : Z) : list ascii := hex_go (S (Z.to_nat (Z.log2 n))) n [].

(** [s.rjust(width, '0')] *)
Definition zero_fill (width : nat) (s : list ascii) : list ascii :=
  replicate (width - length s) "0"%char ++ s.

(** ['%0<width>x' % n]: the sign counts towards the width. *)
Definition format_hex (width : nat) (n : Z) : list ascii :=
  if (n <? 0)%Z then "-"%char :: zero_fill (width - 1) (hex_text (- n)) else zero_fill width (hex_text n).

(** ** Printing values *)

Definition backslash : ascii := "\".
Definition quote_of (s : list ascii) : ascii :=
  if ("'"%char in? s) && negb ("034"%char in? s) then "034"%char else "'"%char.
Definition repr_char (q c : ascii) : list ascii :=
  let n := Z.of_nat (nat_of_ascii c) in
  if (c ==? q) || (c ==? backslash) then [backslash; c]
  else if c ==? "009"%char then [backslash; "t"%char]
  else if c ==? "010"%char then [backslash; "n"%char]
  else if c ==? "013"%char then [backslash; "r"%char]
  else if (n <? 32)%Z || (127 <=? n)%Z then backslash :: "x"%char :: format_hex 2 n
  else [c].
Definition repr_str (s : string) : string :=
  let l := chars s in of_chars (quote_of l :: concat (repr_char (quote_of l) <$> l) ++ [quote_of l]).

(** [repr(v)] and [str(v)] *)
Fixpoint py_repr (v : pyval) : string :=
  match v with
  | VStr s => repr_str s
  | VInt z => str_of_int z
  | VList l => "[" +:+ str_join ", " (py_repr <$> l) +:+ "]"
  | VDict d => "{" +:+ str_join ", " ((λ p, repr_str p.1 +:+ ": " +:+ py_repr p.2) <$> d) +:+ "}"
  end.
Definition py_str (v : pyval) : string := match v with VStr s => s | v => py_repr v end.

(** [int(v)] and [int(v, base)] *)
Definition int_error (base : Z) (s : string) : exn :=
  ValueError ("invalid literal for int() with base " +:+ str_of_int base +:+ ": " +:+ repr_str s).
Definition int_of_str (base : Z) (s : string) : result Z :=
  match read_int base (chars s) with Some z => Ok z | None => Err (int_error base s) end.
Definition py_int (v : pyval) : result Z :=
  match v with
  | VInt z => Ok z
  | VStr s => int_of_str 10 s
  | v => Err (TypeError ("int() argument must be a string or a number, not '" +:+ class_name v +:+ "'"))
  end.
Definition py_int_base (v : pyval) (base : Z) : result Z :=
  match v with
  | VStr s => int_of_str base s
  | _ => Err (TypeError "int() can't convert non-string with explicit base")
  end.

Example repr_sample : py_repr (VList [VStr "it's"; VInt (-3); VDict [("a\", VStr "")]]) =
  "[" +:+ quoted "it's" +:+ ", -3, {'a\\': ''}]".
Proof. reflexivity. Qed.

(** * Theorems *)

Lemma drop_while_head {A} (P : A → bool) c l : P c = false → drop_while P (c :: l) = c :: l.
Proof. intros Hc. cbn. by rewrite Hc. Qed.

Lemma strip_inner {A} (P : A → bool) (l : list A) :
  (∀ c, head l = Some c → P c = false) → (∀ c, last l = Some c → P c = false) → strip P l = l.
Proof.
  intros Hh Hl. unfold strip, lstrip, rstrip.
  assert (drop_while P l = l) as -> by (destruct l; [done|apply drop_while_head; by apply Hh]).
  destruct l as [|c l _] using rev_ind; [done|]. rewrite reverse_snoc.
  rewrite drop_while_head by (apply Hl; by rewrite last_snoc). by rewrite reverse_cons, reverse_involutive.
Qed.

(** ** Numerals *)

(** [l] is a numeral of [n], which may begin with zeros. *)
Definition numeral_of (base : Z) (l : list ascii) (n : Z) : Prop :=
  l ≠ [] ∧ foldl (add_digit base) (Some 0%Z) l = Some n.

Lemma number_of_numeral base l n : numeral_of base l n → number_of base l = Some n.
Proof. intros [Hne Hl]. by destruct l. Qed.

Lemma numeral_one base c d : digit_in base c = Some d → numeral_of base [c] d.
Proof. intros Hc. split; [done|]. cbn. by rewrite Hc. Qed.

Lemma numeral_snoc base l n c d :
  numeral_of base l n → digit_in base c = Some d → numeral_of base (l ++ [c]) (n * base + d).
Proof. intros [Hne Hl] Hc. split; [by destruct l|]. rewrite foldl_app, Hl. cbn. by rewrite Hc. Qed.

Lemma numeral_zeros base k l n : (1 < base)%Z → numeral_of base l n → numeral_of base (replicate k "0"%char ++ l) n.
Proof.
  intros Hb [Hne Hl]. split; [by destruct k|].
  assert (Hz : digit_in base "0" = Some 0%Z).
  { unfold digit_in. change (digit_of "0") with (Some 0%Z). cbn [mbind option_bind].
    by rewrite (proj2 (Z.ltb_lt 0 base)) by lia. }
  induction k as [|k IH]; [done|]. cbn. by rewrite Hz.
Qed.

Lemma digit_in_hex d : (0 ≤ d < 16)%Z → digit_in 16 (hex_char d) = Some d.
Proof.
  intros Hd. assert (Hin : d ∈ [0; 1; 2; 3; 4; 5; 6; 7; 8; 9; 10; 11; 12; 13; 14; 15]%Z) by (rewrite !elem_of_cons; lia).
  repeat (apply elem_of_cons in Hin as [->|Hin]; [done|]). by apply elem_of_nil in Hin.
Qed.

Lemma digit_in_decimal n : (n < 10)%N → digit_in 10 (pretty_N_char n) = Some (Z.of_N n).
Proof.
  intros Hn. assert (Hin : n ∈ [0; 1; 2; 3; 4; 5; 6; 7; 8; 9]%N) by (rewrite !elem_of_cons; lia).
  repeat (apply elem_of_cons in Hin as [->|Hin]; [done|]). by apply elem_of_nil in Hin.
Qed.

Lemma hex_go_spec fuel n acc :
  (0 ≤ n)%Z → (n < 2 ^ Z.of_nat fuel)%Z → 0 < fuel → ∃ l, hex_go fuel n acc = l ++ acc ∧ numeral_of 16 l n.
Proof.
  revert n acc. induction fuel as [|fuel IH]; intros n acc H0 Hn Hf; [lia|]. cbn [hex_go].
  assert (Hd : (0 ≤ n mod 16 < 16)%Z) by (apply Z.mod_pos_bound; lia).
  destruct (n <? 16)%Z eqn:Hs.
  - apply Z.ltb_lt in Hs. exists [hex_char (n mod 16)]. split; [done|].
    rewrite <- (Z.mod_small n 16) at 2 by lia. apply numeral_one. by apply digit_in_hex.
  - apply Z.ltb_ge in Hs. rewrite Nat2Z.inj_succ, Z.pow_succ_r in Hn by lia.
    pose proof (Z.div_mod n 16). assert (fuel ≠ 0) by (intros ->; cbn in Hn; lia).
    destruct (IH (n / 16)%Z (hex_char (n mod 16) :: acc)) as (l&->&Hl).
    + apply Z.div_pos; lia.
    + apply Z.div_lt_upper_bound; lia.
    + lia.
    + exists (l ++ [hex_char (n mod 16)]). split; [by rewrite <- app_assoc|].
      replace n with (n / 16 * 16 + n mod 16)%Z at 2 by lia. apply numeral_snoc; [done|]. by apply digit_in_hex.
Qed.

Lemma hex_text_numeral n : (0 ≤ n)%Z → numeral_of 16 (hex_text n) n.
Proof.
  intros Hn. unfold hex_text. destruct (hex_go_spec (S (Z.to_nat (Z.log2 n))) n []) as (l&->&Hl); [done| |lia|].
  - rewrite Nat2Z.inj_succ, Z2Nat.id by apply Z.log2_nonneg. destruct (decide (n = 0%Z)) as [->|]; [done|].
    apply Z.log2_spec. lia.
  - by rewrite app_nil_r.
Qed.

Lemma pretty_go_spec n s : (0 < n)%N → ∃ l, chars (pretty_N_go n s) = l ++ chars s ∧ numeral_of 10 l (Z.of_N n).
Proof.
  revert s. induction n as [n IH] using (well_founded_induction N.lt_wf_0); intros s Hn.
  rewrite pretty_N_go_step by done. pose proof (N.div_mod n 10).
  assert (Hd : (n mod 10 < 10)%N) by (apply N.mod_lt; lia). pose proof (digit_in_decimal _ Hd) as Hc.
  destruct (decide (n / 10 = 0)%N) as [Hz|Hz].
  - rewrite Hz, pretty_N_go_0. exists [pretty_N_char (n mod 10)]. split; [done|].
    replace (Z.of_N n) with (Z.of_N (n mod 10)) by lia. by apply numeral_one.
  - destruct (IH (n / 10)%N) with (s := String (pretty_N_char (n mod 10)) s) as (l&->&Hl).
    + apply N.div_lt; lia.
    + lia.
    + exists (l ++ [pretty_N_char (n mod 10)]). split; [by rewrite <- app_assoc|].
      replace (Z.of_N n) with (Z.of_N (n / 10) * 10 + Z.of_N (n mod 10))%Z by lia. by apply numeral_snoc.
Qed.

Lemma decimal_numeral n : (0 ≤ n)%Z → numeral_of 10 (chars (str_of_int n)) n.
Proof.
  intros Hn. destruct n as [|p|p]; [by apply numeral_one| |lia]. unfold str_of_int, pretty, pretty_Z, pretty, pretty_positive, pretty, pretty_N.
  rewrite decide_False by lia. destruct (pretty_go_spec (Npos p) "") as (l&->&Hl); [lia|]. by rewrite app_nil_r.
Qed.

(** A numeral has neither blanks nor a sign nor a prefix. *)
Definition digit_char (base : Z) (c : ascii) : Prop := is_Some (digit_in base c).

Lemma numeral_digits base l n : numeral_of base l n → Forall (digit_char base) l.
Proof.
  intros [_ Hl]. revert Hl. generalize (Some 0%Z). induction l as [|c l IH]; intros acc Hl; constructor.
  - unfold digit_char. cbn in Hl. destruct (digit_in base c) eqn:Hc; [by eexists|].
    assert (Hn : foldl (add_digit base) None l = None) by (clear; by induction l).
    assert (add_digit base acc c = None) as Hnone by (unfold add_digit; destruct acc; cbn; by rewrite ?Hc).
    by rewrite Hnone, Hn in Hl.
  - cbn in Hl. by eapply IH.
Qed.

Lemma digit_char_plain base c :
  digit_char base c → Ascii.is_space c = false ∧ c ≠ "-"%char ∧ c ≠ "+"%char.
Proof.
  intros [d Hd]. split; [|split; by intros ->]. destruct (Ascii.is_space c) eqn:Hs; [|done].
  destruct c as [[] [] [] [] [] [] [] []]; done.
Qed.

Lemma digit_char_not_x base c : (base ≤ 16)%Z → digit_char base c → c ∉ ["x"; "X"]%char.
Proof.
  intros Hb [d Hd] Hin. unfold digit_in in Hd. rewrite !elem_of_cons in Hin.
  assert (digit_of c = Some 33%Z) as Hc by (destruct Hin as [->|[->|Hin%elem_of_nil]]; done).
  rewrite Hc in Hd. cbn [mbind option_bind] in Hd. by rewrite (proj2 (Z.ltb_ge 33 base)) in Hd by lia.
Qed.

Lemma strip_digits base l : Forall (digit_char base) l → strip Ascii.is_space l = l.
Proof.
  intros Hl. rewrite Forall_forall in Hl. apply strip_inner; intros c Hc; eapply digit_char_plain, Hl.
  - by apply head_Some_elem_of.
  - by apply last_Some_elem_of.
Qed.

Lemma strip_signed base c l :
  Ascii.is_space c = false → Forall (digit_char base) l → strip Ascii.is_space (c :: l) = c :: l.
Proof.
  intros Hc Hl. apply strip_inner; [by intros ? [= <-]|]. intros x Hx. destruct l as [|d l _] using rev_ind.
  - by injection Hx as <-.
  - rewrite app_comm_cons, last_snoc in Hx. injection Hx as <-. apply Forall_app in Hl as [_ Hd].
    rewrite Forall_singleton in Hd. by apply digit_char_plain in Hd as [? _].
Qed.

Lemma drop_digits base l : Forall (digit_char base) l → drop_while Ascii.is_space l = l.
Proof. intros Hl. destruct Hl as [|c l Hc _]; [done|]. apply drop_while_head. by apply digit_char_plain in Hc as [? _]. Qed.

Lemma read_unsigned_numeral base l n : (base ≤ 16)%Z → numeral_of base l n → read_unsigned base l = Some n.
Proof.
  intros Hb Hl. pose proof (numeral_digits _ _ _ Hl) as Hd. pose proof (number_of_numeral _ _ _ Hl) as Hn.
  unfold read_unsigned. rewrite (drop_digits _ _ Hd).
  destruct l as [|c [|x l]]; [done|by destruct c as [[] [] [] [] [] [] [] []]|].
  assert (Hx : (x in? ["x"; "X"]%char) = false).
  { apply bool_decide_eq_false_2. apply (digit_char_not_x base); [done|]. rewrite !Forall_cons in Hd. tauto. }
  rewrite Hx, andb_false_r. by destruct c as [[] [] [] [] [] [] [] []].
Qed.

Lemma read_unsigned_prefixed l n : numeral_of 16 l n → read_unsigned 16 ("0"%char :: "x"%char :: l) = Some n.
Proof. intros Hl. unfold read_unsigned. cbn. by apply number_of_numeral. Qed.

Lemma read_int_unsigned base l : strip Ascii.is_space l = l → head l ≠ Some "-"%char → head l ≠ Some "+"%char →
  read_int base l = read_unsigned base l.
Proof.
  intros Hs H1 H2. unfold read_int. rewrite Hs. destruct l as [|c l]; [done|].
  by destruct c as [[] [] [] [] [] [] [] []].
Qed.

(** Decimal numbers read back. *)
Lemma read_int_decimal z : read_int 10 (chars (str_of_int z)) = Some z.
Proof.
  assert (Hpos : ∀ n, (0 ≤ n)%Z → read_int 10 (chars (str_of_int n)) = Some n).
  { intros n Hn. pose proof (decimal_numeral n Hn) as Hl. pose proof (numeral_digits _ _ _ Hl) as Hd.
    rewrite read_int_unsigned.
    - by apply read_unsigned_numeral.
    - by eapply strip_digits.
    - intros Hh. destruct Hd as [|c l Hc _]; [done|]. injection Hh as ->. by apply digit_char_plain in Hc as (_&?&_).
    - intros Hh. destruct Hd as [|c l Hc _]; [done|]. injection Hh as ->. by apply digit_char_plain in Hc as (_&_&?). }
  destruct (decide (0 ≤ z)%Z) as [Hz|Hz]; [by apply Hpos|]. assert (Hz' : (0 ≤ - z)%Z) by lia.
  destruct z as [|p|p]; try lia. change (str_of_int (Zneg p)) with (String "-" (str_of_int (Zpos p))).
  pose proof (decimal_numeral (Zpos p) ltac:(lia)) as Hl.
  unfold read_int. change (chars (String "-" ?s)) with ("-"%char :: chars s).
  cbn [chars String.list_ascii_of_string].
  rewrite (strip_signed 10); [|done|by eapply numeral_digits]. by rewrite (read_unsigned_numeral 10 _ (Zpos p)).
Qed.

(** What ['0x%04x' % n] prints reads back, unless [n] is negative. *)
Lemma read_int_hex width n : (0 ≤ n)%Z → read_int 16 ("0"%char :: "x"%char :: format_hex width n) = Some n.
Proof.
  intros Hn. unfold format_hex. rewrite (proj2 (Z.ltb_ge n 0)) by lia.
  assert (Hl : numeral_of 16 (zero_fill width (hex_text n)) n) by (apply numeral_zeros; [lia|by apply hex_text_numeral]).
  rewrite read_int_unsigned; [by apply read_unsigned_prefixed| |done|done].
  apply strip_inner; [by intros c [= <-]|]. intros c Hc. apply (digit_char_plain 16).
  pose proof (numeral_digits _ _ _ Hl) as Hd. rewrite Forall_forall in Hd. apply Hd.
  destruct Hl as [Hne _]. destruct (zero_fill width (hex_text n)) as [|d l]; [done|]. rewrite !last_cons_cons in Hc.
  by apply last_Some_elem_of.
Qed.

Lemma read_int_hex_negative width n : (n < 0)%Z → read_int 16 ("0"%char :: "x"%char :: format_hex width n) = None.
Proof.
  intros Hn. unfold format_hex. rewrite (proj2 (Z.ltb_lt n 0)) by lia.
  assert (Hl : numeral_of 16 (zero_fill (width - 1) (hex_text (- n))) (- n))
    by (apply numeral_zeros; [lia|apply hex_text_numeral; lia]).
  pose proof (numeral_digits _ _ _ Hl) as Hd. destruct Hl as [Hne _].
  rewrite read_int_unsigned; [| |done|done].
  - unfold read_unsigned. cbn [drop_while Ascii.is_space]. cbn.
    assert (Hnone : ∀ l, foldl (add_digit 16) None l = None) by (intros l; by induction l). apply Hnone.
  - apply strip_inner; [by intros c [= <-]|]. intros c Hc. apply (digit_char_plain 16). rewrite Forall_forall in Hd.
    destruct (zero_fill _ _) as [|d l]; [done|]. rewrite !last_cons_cons in Hc. by apply Hd, last_Some_elem_of.
Qed.

Lemma py_int_str_of_int z : py_int (VStr (str_of_int z)) = Ok z.
Proof. unfold py_int, int_of_str. by rewrite read_int_decimal. Qed.

Lemma py_int_terminates v : terminates (py_int v).
Proof. destruct v; cbn; try done. unfold int_of_str. by destruct (read_int _ _). Qed.
#[export] Hint Resolve py_int_terminates : terminates.
