(* ===== verification/Common.v ===== *)
(** * Qualified target names and relative paths

    tools/gyp/pylib/gyp/common.py: the naming of targets
    ([ParseQualifiedTarget], [QualifiedTarget], [ResolveTarget], ...), path
    arithmetic ([RelativePath] and its variants) and the small list helpers.
    [memoize] caches pure functions and is the identity here. *)
From S2P Require Import Prelude PyDict PyStr PyPath.
From Stdlib Require Import Ascii.

(** ** What the operating system provides

    [os.path.realpath] returns an absolute path in normal form.  The instance
    below is its behaviour in a file system without symbolic links, for the
    working directory [cwd]. *)
Class RealPath := {
  realpath : text → text;
  realpath_normal : ∀ p, ∃ comps, Forall comp_ok comps ∧ realpath p = abs_path comps
}.

Definition abspath_comps (cwd p : text) : list text :=
  reverse (norm_comps true [] (lsplit slash (p_join cwd p))).

#[refine] Instance realpath_nolinks (cwd : text) : RealPath | 10 :=
  {| realpath p := abs_path (abspath_comps cwd p) |}.
Proof.
  intros p. exists (abspath_comps cwd p). split; [|done].
  apply Forall_reverse, norm_comps_wf; [done|]. apply lsplit_words_free.
Defined.

(** ** Qualified targets: [build_file:target#toolset] *)

Definition nonempty (s : string) : bool := negb (s ==? "").

(** [ParseQualifiedTarget(target)]: build file, target name, toolset. *)
Definition ParseQualifiedTarget (target : string) : option string * string * option string :=
  let '(build_file, target) :=
    match str_rsplit1 ":" target with
    | Some (b, t) => (Some b, t)
    | None => (None, target)
    end in
  let '(target, toolset) :=
    match str_rsplit1 "#" target with
    | Some (t, ts) => (t, Some ts)
    | None => (target, None)
    end in
  (build_file, target, toolset).

Definition BuildFile (fully_qualified_target : string) : option string :=
  (ParseQualifiedTarget fully_qualified_target).1.1.

Definition QualifiedTarget (build_file target : string) (toolset : option string) : string :=
  let fully_qualified := build_file +:+ ":" +:+ target in
  match toolset with
  | Some ts => if nonempty ts then fully_qualified +:+ "#" +:+ ts else fully_qualified
  | None => fully_qualified
  end.

Definition FindQualifiedTargets (target : string) (qualified_list : list string) : list string :=
  filter (λ t, (ParseQualifiedTarget t).1.2 = target) qualified_list.

Definition BuildFileTargets (target_list : list string) (build_file : string) : list string :=
  filter (λ p, BuildFile p = Some build_file) target_list.

(** ** Relative paths *)
Section paths.
Context `{RealPath}.

(** [RelativePath(path, relative_to)]; on POSIX every path has the same, empty,
    drive, so the Windows test never returns early. *)
Definition RelativePath (path relative_to : text) : text :=
  let path := realpath path in
  let relative_to := realpath relative_to in
  let path_split := lsplit slash path in
  let relative_to_split := lsplit slash relative_to in
  let prefix_len := length (common_prefix path_split relative_to_split) in
  let relative_split :=
    replicate (length relative_to_split - prefix_len) dotdot ++ drop prefix_len path_split in
  match relative_split with
  | [] => []
  | c :: cs => p_join_list c cs
  end.

Definition InvertRelativePath (path : text) (toplevel_dir : option text) : text :=
  if path ==? [] then path
  else
    let toplevel_dir := default dot toplevel_dir in
    RelativePath toplevel_dir (p_join toplevel_dir path).

Definition FixIfRelativePath (path relative_to : text) : text :=
  if p_isabs path then path else RelativePath path relative_to.

(** [ResolveTarget(build_file, target, toolset)] *)
Definition ResolveTarget (build_file : option string) (target : string) (toolset : option string) :
    option string * string * option string :=
  let '(parsed_build_file, target, parsed_toolset) := ParseQualifiedTarget target in
  let build_file :=
    match parsed_build_file with
    | Some pb =>
        if nonempty pb then
          match build_file with
          | Some b =>
              if nonempty b then
                let b := p_normpath (p_join (p_dirname (chars b)) (chars pb)) in
                Some (of_chars (if p_isabs b then b else RelativePath b dot))
              else Some pb
          | None => Some pb
          end
        else build_file
    | None => build_file
    end in
  let toolset :=
    match parsed_toolset with
    | Some ts => if nonempty ts then Some ts else toolset
    | None => toolset
    end in
  (build_file, target, toolset).
End paths.

Definition UnrelativePath (path relative_to : text) : text :=
  p_normpath (p_join (p_dirname relative_to) path).

(** ** Lists and environment *)

(** [GetEnvironFallback(var_list, default)] with the environment given. *)
Fixpoint GetEnvironFallback (environ : list (string * string)) (var_list : list string)
    (dflt : string) : string :=
  match var_list with
  | [] => dflt
  | var :: var_list =>
      match dict_get environ var with
      | Some v => v
      | None => GetEnvironFallback environ var_list dflt
      end
  end.

(** [uniquer(seq, idfun)]: the loop body, on the dictionary [seen] and the list
    [result], and the loop. *)
Definition uniquer_step {A} (idfun : A → string) (st : list (string * nat) * list A) (item : A) :
    list (string * nat) * list A :=
  let '(seen, result) := st in
  let marker := idfun item in
  if dict_mem seen marker then (seen, result)
  else ((dict_set seen marker 1), (result ++ [item])).

Definition uniquer {A} (idfun : A → string) (seq : list A) : list A :=
  (foldl (uniquer_step idfun) ([], []) seq).2.

(** [GetFlavor(params)] for the value of ['flavor'] in [params], if any, and
    [sys.platform]. *)
Definition GetFlavor (params_flavor : option string) (platform : string) : string :=
  let flavors := [("cygwin", "win"); ("win32", "win"); ("darwin", "mac")] in
  match params_flavor with
  | Some f => f
  | None =>
      match dict_get flavors platform with
      | Some f => f
      | None =>
          if str_startswith "sunos" platform then "solaris"
          else if str_startswith "freebsd" platform then "freebsd"
          else if str_startswith "openbsd" platform then "openbsd"
          else if str_startswith "aix" platform then "aix"
          else "linux"
      end
  end.

(** [ExceptionAppend(e, msg)] on the tuple [e.args]. *)
Definition ExceptionAppend (args : list string) (msg : string) : list string :=
  match args with
  | [] => [msg]
  | [a] => [a +:+ " " +:+ msg]
  | a :: rest => (a +:+ " " +:+ msg) :: rest
  end.

(** * Theorems *)

(** ** Naming *)

(** A name is built from parts that can be told apart again: no colon in the
    target or the toolset, no hash sign in the toolset, and no hash sign in the
    target when no toolset follows it. *)
Record qualifiable (target : string) (toolset : option string) : Prop := {
  q_target : ":"%char ∉ chars target;
  q_toolset : ∀ ts, toolset = Some ts →
    (ts ≠ "") ∧ (":"%char ∉ chars ts) ∧ ("#"%char ∉ chars ts);
  q_none : toolset = None → "#"%char ∉ chars target
}.

Lemma append_assoc (a b c : string) : (a +:+ b) +:+ c = a +:+ b +:+ c.
Proof. apply (inj chars). by rewrite !chars_app, app_assoc. Qed.

Lemma nonempty_true s : nonempty s = true ↔ s ≠ "".
Proof. unfold nonempty. by rewrite negb_true_iff, bool_decide_eq_false. Qed.

Lemma chars_cons c s : chars (String c s) = c :: chars s.
Proof. done. Qed.

Lemma parse_qualified build_file target toolset :
  qualifiable target toolset →
  ParseQualifiedTarget (QualifiedTarget build_file target toolset)
    = (Some build_file, target, toolset).
Proof.
  intros [Ht Hts Hn]. unfold ParseQualifiedTarget, QualifiedTarget. destruct toolset as [ts|].
  - destruct (Hts ts eq_refl) as (Hne&Hc&Hh). rewrite (proj2 (nonempty_true ts)) by done.
    assert (str_rsplit1 ":" ((build_file +:+ ":" +:+ target) +:+ "#" +:+ ts)
            = Some (build_file, target +:+ "#" +:+ ts)) as ->.
    { apply str_rsplit1_Some. split; [by rewrite append_assoc|].
      rewrite !chars_app. set_solver. }
    assert (str_rsplit1 "#" (target +:+ "#" +:+ ts) = Some (target, ts)) as ->; [|done].
    by apply str_rsplit1_Some.
  - assert (str_rsplit1 ":" (build_file +:+ ":" +:+ target) = Some (build_file, target)) as ->.
    { by apply str_rsplit1_Some. }
    by rewrite (proj2 (str_rsplit1_None "#" target)) by auto.
Qed.

Lemma BuildFile_QualifiedTarget build_file target toolset :
  qualifiable target toolset → BuildFile (QualifiedTarget build_file target toolset) = Some build_file.
Proof. intros Hq. unfold BuildFile. by rewrite parse_qualified. Qed.

(** ** Paths *)
Section path_theorems.
Context `{RealPath}.

(** The components after the empty one with which the split of an absolute
    path begins. *)
Definition split_tail (comps : list text) : list text := if comps ==? [] then [[]] else comps.

Lemma lsplit_abs_path comps : Forall comp_ok comps → lsplit slash (abs_path comps) = [] :: split_tail comps.
Proof.
  intros Hc. unfold split_tail. case_bool_decide; subst; [done|]. by apply lsplit_abs.
Qed.

Lemma split_tail_free comps : Forall comp_ok comps → Forall (λ c, slash ∉ c) (split_tail comps).
Proof.
  intros Hc. unfold split_tail. case_bool_decide; [repeat constructor; set_solver|].
  eapply Forall_impl; [done|]. by intros ? (?&?&?&?).
Qed.

(** Joining components that are not empty and hold no slash. *)
Definition path_comp (c : text) : Prop := c ≠ [] ∧ slash ∉ c.

Definition slashed (cs : list text) : text := mjoin (cons slash <$> cs).

Lemma p_join_comp a x :
  a ≠ [] → last a ≠ Some slash → slash ∉ x → p_join a x = a ++ slash :: x.
Proof.
  intros Ha Hl Hx. unfold p_join. rewrite !bool_decide_eq_false_2 by done.
  destruct x as [|c x]; [done|]. simpl. rewrite bool_decide_eq_false_2; [done|].
  intros <-. apply Hx. by left.
Qed.

Lemma last_comp a x : path_comp x → last (a ++ slash :: x) ≠ Some slash.
Proof.
  intros [Hne Hx].
  destruct x as [|y x _] using rev_ind; [done|].
  rewrite app_comm_cons, app_assoc, last_snoc. intros [= ->]. apply Hx. set_solver.
Qed.

Lemma p_join_list_comps a cs :
  a ≠ [] → last a ≠ Some slash → Forall path_comp cs → p_join_list a cs = a ++ slashed cs.
Proof.
  intros Ha Hl Hcs. revert a Ha Hl. induction Hcs as [|x cs Hx Hcs IH]; intros a Ha Hl.
  - simpl. by rewrite app_nil_r.
  - unfold p_join_list in *. simpl. rewrite p_join_comp by (done || apply Hx).
    rewrite IH; [|by destruct a|by apply last_comp]. by rewrite <- app_assoc.
Qed.

Lemma lsplit_slashed c cs :
  slash ∉ c → Forall (λ c, slash ∉ c) cs → lsplit slash (c ++ slashed cs) = c :: cs.
Proof.
  intros Hc Hcs; revert c Hc. induction Hcs as [|x cs Hx Hcs IH]; intros c Hc; unfold slashed in *; simpl.
  - rewrite app_nil_r. by apply lsplit_free.
  - rewrite lsplit_app by done. by rewrite IH.
Qed.

(** The components of a relative path: [..] steps, kept components, and
    possibly one empty component at the end. *)
Lemma p_join_list_rel c cs e :
  Forall path_comp (c :: cs) → e = [] ∨ e = [[]] →
  lsplit slash (p_join_list c (cs ++ e)) = c :: cs ++ e.
Proof.
  intros [[Hne Hc] Hcs]%Forall_cons He.
  assert (Hl : last c ≠ Some slash).
  { destruct c as [|y c _] using rev_ind; [done|]. rewrite last_snoc. intros [= ->]. set_solver. }
  assert (Hfree : Forall (λ c, slash ∉ c) cs) by (eapply Forall_impl; [done|]; by intros ? []).
  unfold p_join_list. rewrite foldl_app. fold (p_join_list c cs).
  rewrite (p_join_list_comps c cs Hne Hl Hcs). destruct He as [->| ->]; simpl.
  - rewrite app_nil_r. by apply lsplit_slashed.
  - assert (Hjoin : p_join (c ++ slashed cs) [] = c ++ slashed (cs ++ [[]])).
    { unfold slashed. rewrite fmap_app, join_app. simpl. rewrite app_assoc.
      apply p_join_comp; [by destruct c; simplify_eq/=| |set_solver].
      destruct cs as [|x cs _] using rev_ind; simpl; [by rewrite app_nil_r|].
      apply Forall_app in Hcs as [_ [Hx _]%Forall_cons].
      rewrite fmap_app, join_app. simpl. rewrite app_nil_r, app_assoc. by apply last_comp. }
    rewrite Hjoin. apply lsplit_slashed; [done|]. apply Forall_app; split; [done|].
    repeat constructor. set_solver.
Qed.

Lemma lsplit_head_noslash (rel c : text) cs :
  lsplit slash rel = c :: cs → c ≠ [] → lstarts [slash] rel = false.
Proof.
  destruct rel as [|x rel]; [done|]. simpl. case_decide as Hx; intros ? Hc; simplify_eq.
  rewrite bool_decide_eq_false_2; [done|]. congruence.
Qed.

Lemma lstarts_app_comp c p (q : text) : path_comp c → lstarts [slash] ((c ++ p) ++ q) = false.
Proof.
  intros [Hne Hc]. destruct c as [|x c]; [done|]. simpl.
  rewrite bool_decide_eq_false_2; [done|]. intros <-. apply Hc. by left.
Qed.

Lemma initial_slashes_one p : lstarts [slash] p = false → initial_slashes (slash :: p) = [slash].
Proof.
  unfold initial_slashes. destruct p as [|x p]; simpl; [done|].
  rewrite andb_true_r. intros ->. done.
Qed.

Lemma ljoin_slashed c cs : ljoin [slash] (c :: cs) = c ++ slashed cs.
Proof.
  revert c; induction cs as [|x l IH]; intros c; [simpl; by rewrite app_nil_r|].
  rewrite ljoin_cons by done. by rewrite IH.
Qed.

Lemma comp_ok_path_comp c : comp_ok c → path_comp c.
Proof. by intros (?&_&_&?). Qed.

Lemma last_abs_path comps : Forall comp_ok comps → comps ≠ [] → last (abs_path comps) ≠ Some slash.
Proof.
  intros Hc Hne. destruct comps as [|c cs _] using rev_ind; [done|]. unfold abs_path.
  apply Forall_app in Hc as [_ [Hc _]%Forall_cons].
  destruct cs as [|x l]; [apply (last_comp []); by apply comp_ok_path_comp|].
  simpl app. rewrite ljoin_slashed. unfold slashed. rewrite fmap_app, join_app. simpl.
  rewrite app_nil_r, app_assoc, app_comm_cons. by apply last_comp, comp_ok_path_comp.
Qed.

Lemma lsplit_slashed_rest c cs rel :
  slash ∉ c → Forall (λ c, slash ∉ c) cs →
  lsplit slash ((c ++ slashed cs) ++ slash :: rel) = c :: cs ++ lsplit slash rel.
Proof.
  intros Hc Hcs; revert c Hc. induction Hcs as [|x l Hx Hl IH]; intros c Hc.
  - unfold slashed; simpl. rewrite app_nil_r. by apply lsplit_app.
  - change (slashed (x :: l)) with ((slash :: x) ++ slashed l).
    rewrite <- !app_assoc. simpl. rewrite lsplit_app by done. f_equal.
    rewrite <- (IH x Hx). by rewrite <- app_assoc.
Qed.

(** Joining a relative path to a normal absolute one, and its components. *)
Lemma p_join_abs comps rel :
  Forall comp_ok comps → lstarts [slash] rel = false →
  ∃ q, p_join (abs_path comps) rel = slash :: q ∧ lstarts [slash] q = false ∧
    norm_comps true [] (lsplit slash (slash :: q))
      = norm_comps true (reverse comps) (lsplit slash rel).
Proof.
  intros Hc Hrel. unfold p_join. rewrite Hrel. destruct (decide (comps = [])) as [->|Hne].
  - exists rel. split_and!; done.
  - exists (ljoin [slash] comps ++ slash :: rel).
    rewrite !bool_decide_eq_false_2 by (done || by apply last_abs_path).
    destruct comps as [|c cs]; [done|]. rewrite ljoin_slashed.
    assert (Hfree : Forall (λ c, slash ∉ c) (c :: cs))
      by (eapply Forall_impl; [done|]; by intros ? (?&?&?&?)).
    apply Forall_cons in Hfree as [Hcf Hcsf]. split_and!.
    + unfold abs_path. by rewrite ljoin_slashed.
    + apply Forall_cons in Hc as [Hc _]. by apply lstarts_app_comp, comp_ok_path_comp.
    + assert (Hsplit : lsplit slash (slash :: (c ++ slashed cs) ++ slash :: rel)
                = [] :: (c :: cs) ++ lsplit slash rel).
      { etrans; [apply (lsplit_app slash []); set_solver|].
        f_equal. by apply lsplit_slashed_rest. }
      rewrite Hsplit.
      change (norm_comps true [] ((c :: cs) ++ lsplit slash rel)
              = norm_comps true (reverse (c :: cs)) (lsplit slash rel)).
      by rewrite (norm_comps_app true [] (c :: cs)), (norm_comps_ok true [] (c :: cs)), app_nil_r.
Qed.

(** Normalising a relative path joined to a normal absolute one. *)
Lemma p_normpath_join comps rel :
  Forall comp_ok comps → lstarts [slash] rel = false →
  p_normpath (p_join (abs_path comps) rel)
    = abs_path (reverse (norm_comps true (reverse comps) (lsplit slash rel))).
Proof.
  intros Hc Hrel. destruct (p_join_abs comps rel Hc Hrel) as (q&->&Hq&<-).
  apply p_normpath_abs; [done|by apply initial_slashes_one].
Qed.

(** [split_tail] determines its path, and its components are joinable. *)
Lemma split_tail_cases comps :
  Forall comp_ok comps →
  (comps = [] ∧ split_tail comps = [[]]) ∨ (comps ≠ [] ∧ split_tail comps = comps).
Proof. unfold split_tail. case_bool_decide; auto. Qed.

(** What RelativePath returns, as components: [n] steps up, then [down]. *)
Definition up_down (n : nat) (down : list text) : text :=
  match replicate n dotdot ++ down with [] => [] | c :: cs => p_join_list c cs end.

Lemma dotdot_comp : path_comp dotdot.
Proof. split; [done|]. by refine (bool_decide_unpack (slash ∉ dotdot) _). Qed.

(** The components of the text [up_down] builds. *)
Lemma lsplit_up_down n down :
  (Forall comp_ok down ∨ (down = [[]] ∧ 0 < n)) → replicate n dotdot ++ down ≠ [] →
  lsplit slash (up_down n down) = replicate n dotdot ++ down
  ∧ lstarts [slash] (up_down n down) = false.
Proof.
  intros Hd Hne. unfold up_down.
  assert (Hrep : Forall path_comp (replicate n dotdot)).
  { apply Forall_replicate, dotdot_comp. }
  assert (∃ c cs e, replicate n dotdot ++ down = c :: cs ++ e ∧ Forall path_comp (c :: cs)
            ∧ (e = [] ∨ e = [[]])) as (c&cs&e&->&Hf&He).
  { destruct Hd as [Hd|[-> Hn]].
    - assert (Hall : Forall path_comp (replicate n dotdot ++ down)).
      { apply Forall_app; split; [done|]. eapply Forall_impl; [done|]. apply comp_ok_path_comp. }
      destruct (replicate n dotdot ++ down) as [|c cs]; [done|].
      exists c, cs, []. rewrite app_nil_r. auto.
    - destruct n as [|n]; [lia|]. exists dotdot, (replicate n dotdot), [[]]. auto. }
  pose proof (p_join_list_rel c cs e Hf He) as Hsplit. split; [done|].
  apply lsplit_head_noslash with c (cs ++ e); [done|]. by apply Forall_cons in Hf as [[? _] _].
Qed.

Lemma RelativePath_up_down path relative_to P R :
  realpath path = abs_path P → realpath relative_to = abs_path R →
  Forall comp_ok P → Forall comp_ok R →
  ∃ C up down, split_tail R = C ++ up ∧ split_tail P = C ++ down
    ∧ RelativePath path relative_to = up_down (length up) down.
Proof.
  intros Hp Hr HP HR. unfold RelativePath. rewrite Hp, Hr, !lsplit_abs_path by done.
  destruct (common_prefix_split (split_tail P) (split_tail R)) as (down&up&HdP&HdR&_).
  exists (common_prefix (split_tail P) (split_tail R)), up, down.
  split; [done|]. split; [done|]. unfold up_down.
  cbn [common_prefix]. rewrite decide_True by done.
  remember (common_prefix (split_tail P) (split_tail R)) as C eqn:HC.
  rewrite HdP, HdR. cbn [length drop Nat.sub].
  rewrite length_app, Nat.add_comm, Nat.add_sub, drop_app_length. done.
Qed.

(** The steps up undo what [relative_to] has below the common prefix, and the
    steps down add what [path] has there. *)
Lemma up_down_comps P R C up down :
  Forall comp_ok P → Forall comp_ok R →
  split_tail R = C ++ up → split_tail P = C ++ down →
  replicate (length up) dotdot ++ down ≠ [] →
  (Forall comp_ok down ∨ (down = [[]] ∧ 0 < length up))
  ∧ reverse (norm_comps true (drop (length up) (reverse R)) down) = P.
Proof.
  intros HP HR HdR HdP Hne.
  assert (Hsingle : ∀ (c c' : list text), [[]] = c ++ c' → (c = [] ∧ c' = [[]]) ∨ (c = [[]] ∧ c' = [])).
  { intros [|x [|y c]] c' Heq; simplify_eq/=; auto. }
  destruct (split_tail_cases P HP) as [[-> HtP]|[HnP HtP]],
    (split_tail_cases R HR) as [[-> HtR]|[HnR HtR]];
    rewrite HtP in HdP; rewrite HtR in HdR.
  - destruct (Hsingle _ _ HdP) as [[-> ->]|[-> ->]], (Hsingle _ _ HdR) as [[? ->]|[? ->]];
      simplify_eq; try done. simpl. auto with lia.
  - destruct (Hsingle _ _ HdP) as [[-> ->]|[-> ->]].
    + simpl in HdR; subst up. split; [destruct R; [done|simpl; auto with lia]|].
      by rewrite drop_ge by (by rewrite length_reverse).
    + subst R. by inversion HR as [|? ? [? _]].
  - destruct (Hsingle _ _ HdR) as [[-> ->]|[-> ->]].
    + simpl in HdP; subst down. split; [by left|]. simpl.
      rewrite norm_comps_ok, app_nil_r by done. apply reverse_involutive.
    + subst P. by inversion HP as [|? ? [? _]].
  - subst P R. apply Forall_app in HP as [HC Hd]. split; [by left|].
    rewrite reverse_app, drop_app_length' by (by rewrite length_reverse).
    rewrite norm_comps_ok, reverse_app, !reverse_involutive by done. done.
Qed.

(** Following RelativePath(path, relative_to) from relative_to leads to path. *)
Lemma relative_path_normal path relative_to :
  p_normpath (p_join (realpath relative_to) (RelativePath path relative_to)) = realpath path.
Proof.
  destruct (realpath_normal path) as (P&HP&Hp), (realpath_normal relative_to) as (R&HR&Hr).
  destruct (RelativePath_up_down _ _ P R Hp Hr HP HR) as (C&up&down&HdR&HdP&->).
  rewrite Hp, Hr. destruct (decide (replicate (length up) dotdot ++ down = [])) as [Hnil|Hne].
  - apply app_nil in Hnil as [Hu ->]. destruct up; [|done]. unfold up_down; simpl.
    rewrite p_normpath_join by done. simpl. rewrite reverse_involutive. f_equal.
    rewrite app_nil_r in *. destruct (split_tail_cases P HP) as [[-> HtP]|[HnP HtP]],
      (split_tail_cases R HR) as [[-> HtR]|[HnR HtR]]; try congruence.
    + rewrite HtP, <- HdR, HtR in HdP. subst R. by inversion HR as [|? ? [? _]].
    + rewrite HtR, <- HdP, HtP in HdR. subst P. by inversion HP as [|? ? [? _]].
  - destruct (up_down_comps P R C up down HP HR HdR HdP Hne) as [Hd Hfin].
    destruct (lsplit_up_down (length up) down Hd Hne) as [Hsplit Hstart].
    rewrite p_normpath_join, Hsplit, norm_comps_app by done.
    rewrite norm_comps_pop by (by apply Forall_reverse). by rewrite Hfin.
Qed.
End path_theorems.

(** ** Removing duplicates *)
Section uniquer.
Context {A : Type} (idfun : A → string).
Implicit Types (l seq : list A) (x : A).

(** [x] occurs in [seq] with no earlier item of the same marker. *)
Definition first_with_marker seq x : Prop :=
  ∃ l1 l2, seq = l1 ++ x :: l2 ∧ idfun x ∉ idfun <$> l1.

(** The loop on a prefix: [seen] holds the markers of the prefix. *)
Lemma uniquer_inv seq :
  let '(seen, result) := foldl (uniquer_step idfun) ([], []) seq in
  (∀ m, m ∈ dict_keys seen ↔ m ∈ idfun <$> seq)
  ∧ (∀ x, x ∈ result ↔ first_with_marker seq x)
  ∧ NoDup (idfun <$> result) ∧ result `sublist_of` seq.
Proof.
  induction seq as [|y seq IH] using rev_ind; simpl.
  - split_and!; [set_solver| |constructor|done]. intros x. split; [set_solver|].
    by intros ([]&l2&?&_).
  - rewrite foldl_snoc. destruct (foldl (uniquer_step idfun) ([], []) seq) as [seen result].
    destruct IH as (Hs&Hr&Hn&Hsub). unfold uniquer_step.
    assert (Hfirst : ∀ x, first_with_marker (seq ++ [y]) x ↔
              first_with_marker seq x ∨ (x = y ∧ idfun y ∉ idfun <$> seq)).
    { intros x. split.
      - intros (l1&l2&Heq&Hx). destruct l2 as [|z l2 _] using rev_ind.
        + apply app_inj_tail in Heq as [-> ->]. by right.
        + rewrite app_comm_cons, app_assoc in Heq. apply app_inj_tail in Heq as [-> _].
          left. by exists l1, l2.
      - intros [(l1&l2&->&Hx)|[-> Hx]]; [|by exists seq, []].
        exists l1, (l2 ++ [y]). by rewrite <- app_assoc. }
    destruct (dict_mem seen (idfun y)) eqn:Hm.
    + apply dict_mem_true, Hs in Hm. split_and!.
      * intros m. rewrite Hs, fmap_app. set_solver.
      * intros x. rewrite Hfirst, Hr. naive_solver.
      * done.
      * by apply sublist_inserts_r.
    + apply dict_mem_false in Hm. rewrite Hs in Hm. split_and!.
      * intros m. rewrite elem_of_dict_keys_set, Hs, fmap_app. set_solver.
      * intros x. rewrite elem_of_app, list_elem_of_singleton, Hfirst, Hr. naive_solver.
      * rewrite fmap_app. apply NoDup_app. split_and!; [done| |apply NoDup_singleton].
        intros m Hmr ->%list_elem_of_singleton. apply Hm.
        apply list_elem_of_fmap in Hmr as (z&->&Hz). apply list_elem_of_fmap. exists z.
        split; [done|]. apply Hr in Hz as (l1&l2&->&_). set_solver.
      * by apply sublist_app.
Qed.

(** uniquer keeps, in order, exactly the first item of each marker. *)
Lemma uniquer_result seq :
  uniquer idfun seq `sublist_of` seq
  ∧ NoDup (idfun <$> uniquer idfun seq)
  ∧ ∀ x, x ∈ uniquer idfun seq ↔ first_with_marker seq x.
Proof.
  pose proof (uniquer_inv seq) as Hinv. unfold uniquer.
  destruct (foldl (uniquer_step idfun) ([], []) seq) as [seen result]. naive_solver.
Qed.
End uniquer.

(** * Properties *)

(** Parsing a qualified name gives back the build file, target and toolset it
    was made from, whatever colons and hash signs the path of the build file
    holds, for the targets and toolsets that cannot be confused with them. *)
Theorem ParseQualifiedTarget_QualifiedTarget build_file target toolset :
  qualifiable target toolset →
  ParseQualifiedTarget (QualifiedTarget build_file target toolset)
    = (Some build_file, target, toolset).
Proof. apply parse_qualified. Qed.

Lemma ParseQualifiedTarget_QualifiedTarget_witness :
  ParseQualifiedTarget "C:\src#1\v8.gyp:d8#host" = (Some "C:\src#1\v8.gyp", "d8", Some "host").
Proof.
  apply (ParseQualifiedTarget_QualifiedTarget "C:\src#1\v8.gyp" "d8" (Some "host")).
  split; [| |discriminate].
  - by apply (bool_decide_unpack _).
  - intros ts Hts. injection Hts as <-. split; [done|]. split; by apply (bool_decide_unpack _).
Defined.

(** From the directory [relative_to], following RelativePath(path,
    relative_to) leads to [path], for every file system whose realpath returns
    absolute paths in normal form. *)
Theorem RelativePath_correct `{RealPath} path relative_to :
  p_normpath (p_join (realpath relative_to) (RelativePath path relative_to)) = realpath path.
Proof. apply relative_path_normal. Qed.

(** uniquer keeps, in order, exactly the first item of each marker. *)
Theorem uniquer_first_occurrences {A : Type} (idfun : A → string) (seq : list A) :
  uniquer idfun seq `sublist_of` seq
  ∧ NoDup (idfun <$> uniquer idfun seq)
  ∧ ∀ x, x ∈ uniquer idfun seq ↔ first_with_marker idfun seq x.
Proof. apply uniquer_result. Qed.
