(* ===== verification/DepGraph.v ===== *)
(** * The dependency graph

    [DependencyGraphNode] of tools/gyp/pylib/gyp/input.py: the graph gyp builds
    over targets and over .gyp files, its topological flattening, its cycle
    search and its transitive dependencies.  A node is named by its [ref] ([None]
    for the root node, which no other node shares), and the object graph is the
    map from names to the two edge lists of each node.  The lists of a node are
    read through the map, so two references to one node see the same lists. *)
From stdpp Require Import relations.
From S2P Require Import Prelude PySet Dfs.

Record dgnode (A : Type) := DGNode {
  dependencies : list (option A);
  dependents : list (option A)
}.
Arguments DGNode {A} dependencies dependents.
Arguments dependencies {A} d.
Arguments dependents {A} d.

Section graph.
Context {A : Type} `{Countable A} `{!SetPop (option A)}.
Implicit Types (g : gmap (option A) (dgnode A)) (m n d : option A).
Implicit Types (flat zeros : list (option A)).

Definition node_dependencies g n : list (option A) :=
  from_option dependencies [] (g !! n).
Definition node_dependents g n : list (option A) :=
  from_option dependents [] (g !! n).

(** The test [is_in_degree_zero] of FlattenToList's inner loop. *)
Definition is_in_degree_zero g flat m : bool :=
  forallb (λ d, d in? flat) (node_dependencies g m).

(** One iteration of the inner loop: a dependent whose dependencies are all in
    [flat_list] joins [in_degree_zeros]. *)
Definition add_ready g flat zeros m : list (option A) :=
  if is_in_degree_zero g flat m then set_add m zeros else zeros.

(** [while in_degree_zeros: ...] *)
Fixpoint flatten_loop (fuel : nat) g zeros flat : result (list (option A)) :=
  match fuel with
  | 0 => Err OutOfFuel
  | S fuel =>
      match set_pop zeros with
      | None => Ok flat
      | Some (node, zeros) =>
          let flat := flat ++ [node] in
          let zeros := foldl (add_ready g flat) zeros (node_dependents g node) in
          flatten_loop fuel g zeros flat
      end
  end.

(** [root_node.FlattenToList()]; the loop runs once per node of the graph and
    once more to find the set empty. *)
Definition FlattenToList g : result (list (option A)) :=
  flatten_loop (S (size g)) g (set_of (node_dependents g None)) [].

(** The graphs gyp builds: the two edge lists agree, the root depends on
    nothing, a node linked to the root has no other dependency, and every
    other node has a dependency, in the graph. *)
Record graph_wf g : Prop := {
  wf_edges : ∀ m n, m ∈ node_dependents g n ↔ n ∈ node_dependencies g m;
  wf_root : node_dependencies g None = [];
  wf_root_only : ∀ m d, None ∈ node_dependencies g m → d ∈ node_dependencies g m → d = None;
  wf_nonempty : ∀ m, m ∈ dom g → m ≠ None → node_dependencies g m ≠ [];
  wf_closed : ∀ m d, d ∈ node_dependencies g m → d ∈ dom g
}.

(** [flat] lists nodes after all of their dependencies. *)
Definition ordered g flat : Prop :=
  ∀ l1 m l2, flat = l1 ++ m :: l2 → ∀ d, d ∈ node_dependencies g m → d = None ∨ d ∈ l1.

(** The invariant of the loop. *)
Record flatten_inv g zeros flat : Prop := {
  fi_nodup : NoDup (flat ++ zeros);
  fi_noroot : None ∉ flat ++ zeros;
  fi_ready : ∀ m d, m ∈ flat ++ zeros → d ∈ node_dependencies g m → d = None ∨ d ∈ flat;
  fi_roots : ∀ m, m ∈ node_dependents g None → m ∈ flat ++ zeros;
  fi_complete : ∀ m n, n ∈ flat → m ∈ node_dependents g n →
    node_dependencies g m ⊆ flat → m ∈ flat ++ zeros;
  fi_ordered : ordered g flat
}.

Lemma is_in_degree_zero_true g flat m :
  is_in_degree_zero g flat m = true ↔ node_dependencies g m ⊆ flat.
Proof.
  unfold is_in_degree_zero. rewrite forallb_forall. split.
  - intros Hall d Hd. apply list_elem_of_In, Hall in Hd. by apply bool_decide_eq_true in Hd.
  - intros Hsub d Hd. apply bool_decide_eq_true, Hsub. by apply list_elem_of_In.
Qed.

Lemma add_ready_spec g flat l zeros :
  (∀ y, y ∈ foldl (add_ready g flat) zeros l ↔
    y ∈ zeros ∨ (y ∈ l ∧ node_dependencies g y ⊆ flat)) ∧
  (NoDup zeros → NoDup (foldl (add_ready g flat) zeros l)).
Proof.
  revert zeros; induction l as [|m l IH]; intros zeros; simpl; [set_solver|].
  destruct (IH (add_ready g flat zeros m)) as [He Hn]. split.
  - intros y. rewrite He. unfold add_ready.
    destruct (is_in_degree_zero g flat m) eqn:Hz.
    + apply is_in_degree_zero_true in Hz. rewrite elem_of_set_add, elem_of_cons. naive_solver.
    + assert (¬ node_dependencies g m ⊆ flat).
      { rewrite <- is_in_degree_zero_true. congruence. }
      rewrite elem_of_cons. naive_solver.
  - intros Hz. apply Hn. unfold add_ready. case_match; auto with gyp.
Qed.

Lemma ordered_snoc g flat n :
  ordered g flat → (∀ d, d ∈ node_dependencies g n → d = None ∨ d ∈ flat) →
  ordered g (flat ++ [n]).
Proof.
  intros Ho Hn l1 m l2 Heq d Hd. destruct l2 as [|x l2 _] using rev_ind.
  - apply app_inj_tail in Heq as [<- <-]. auto.
  - rewrite app_comm_cons, app_assoc in Heq. apply app_inj_tail in Heq as [-> _].
    by eapply Ho.
Qed.

Lemma flatten_inv_step g zeros zeros' flat n :
  graph_wf g → flatten_inv g zeros flat → zeros ≡ₚ n :: zeros' →
  flatten_inv g (foldl (add_ready g (flat ++ [n])) zeros' (node_dependents g n)) (flat ++ [n]).
Proof.
  intros Hwf [Hnd Hnr Hr Hro Hc Ho] Hp.
  destruct (add_ready_spec g (flat ++ [n]) (node_dependents g n) zeros') as [He Hn].
  set (zeros2 := foldl _ _ _) in *.
  rewrite Hp in Hnd. apply NoDup_app in Hnd as (Hnf&Hdisj&[Hnz Hnz']%NoDup_cons).
  assert (Hmem : ∀ m, m ∈ flat ++ zeros ↔ m ∈ (flat ++ [n]) ++ zeros').
  { intros m. rewrite !elem_of_app, Hp. set_solver. }
  assert (Hready : ∀ d, d ∈ node_dependencies g n → d = None ∨ d ∈ flat).
  { intros d. apply Hr. rewrite Hmem. set_solver. }
  assert (Hn0 : n ≠ None) by (intros ->; apply Hnr; rewrite Hmem; set_solver).
  assert (Hnflat : n ∉ flat) by (intros ?; eapply Hdisj; [done|by left]).
  assert (Hnew : ∀ m, m ∈ node_dependents g n → m ∉ flat ++ [n]).
  { intros m Hm Hmf. apply (wf_edges g Hwf) in Hm.
    apply elem_of_app in Hmf as [Hmf| ->%list_elem_of_singleton].
    - destruct (Hr m n); set_solver.
    - destruct (Hready n); set_solver. }
  split.
  - apply NoDup_app. split_and!.
    + apply NoDup_app. split_and!; [done|set_solver|apply NoDup_singleton].
    + intros m Hm [Hz|[Hz _]]%He; [|by eapply Hnew].
      apply elem_of_app in Hm as [Hm| ->%list_elem_of_singleton]; [|done].
      eapply Hdisj; [done|by right].
    + auto.
  - rewrite elem_of_app, He. intros [Hf|[Hf|[Hf _]]]; [set_solver|set_solver|].
    apply (wf_edges g Hwf) in Hf. rewrite (wf_root g Hwf) in Hf. set_solver.
  - intros m d Hm Hd.
    assert (Hold : m ∈ flat ++ zeros → d = None ∨ d ∈ flat ++ [n]).
    { intros Hin. destruct (Hr m d Hin Hd); set_solver. }
    apply elem_of_app in Hm as [Hm|[Hm|[_ Hsub]]%He]; [apply Hold; set_solver..|right; auto].
  - intros m Hm. apply Hro, Hmem in Hm. set_solver.
  - intros m n' Hn' Hm Hsub. destruct (decide (m ∈ node_dependents g n)) as [Hmn|Hmn]; [set_solver|].
    assert (n ∉ node_dependencies g m) by (by rewrite <- (wf_edges g Hwf)).
    assert (node_dependencies g m ⊆ flat) by set_solver.
    assert (n' ∈ flat) by set_solver.
    assert (m ∈ flat ++ zeros) as Hin%Hmem by eauto. set_solver.
  - by apply ordered_snoc.
Qed.

Lemma flatten_inv_start g :
  graph_wf g → flatten_inv g (set_of (node_dependents g None)) [].
Proof.
  intros Hwf. split; simpl.
  - apply NoDup_set_of.
  - rewrite elem_of_set_of, (wf_edges g Hwf), (wf_root g Hwf). set_solver.
  - intros m d Hm Hd. apply elem_of_set_of, (wf_edges g Hwf) in Hm. left. by eapply wf_root_only.
  - intros m. by rewrite elem_of_set_of.
  - set_solver.
  - intros [] ???; discriminate.
Qed.

(** A node never appears before it is in the graph, so the loop is bounded. *)
Lemma flatten_inv_dom g zeros flat :
  graph_wf g → flatten_inv g zeros flat →
  (∀ m, m ∈ flat ++ zeros → m ∈ dom g) → length flat ≤ size g.
Proof.
  intros Hwf Hi Hd. rewrite <- size_dom.
  assert (NoDup flat) by (pose proof (fi_nodup _ _ _ Hi) as (?&_)%NoDup_app; done).
  rewrite <- (size_list_to_set (C:=gset (option A)) flat) by done.
  apply subseteq_size. intros m Hm%elem_of_list_to_set. set_solver.
Qed.

Definition depends g m d : Prop := d ∈ node_dependencies g m.

Lemma node_in_dom g m d : d ∈ node_dependencies g m → m ∈ dom g.
Proof.
  unfold node_dependencies. intros Hd. apply elem_of_dom.
  destruct (g !! m); simpl in *; [done|set_solver].
Qed.

Lemma flatten_loop_result fuel g zeros flat :
  graph_wf g → flatten_inv g zeros flat → (∀ m, m ∈ flat ++ zeros → m ∈ dom g) →
  size g < fuel + length flat →
  ∃ flat', flatten_loop fuel g zeros flat = Ok flat' ∧ flatten_inv g [] flat'
    ∧ (∀ m, m ∈ flat' → m ∈ dom g).
Proof.
  intros Hwf. revert zeros flat; induction fuel as [|fuel IH]; intros zeros flat Hi Hd Hf; simpl.
  { pose proof (flatten_inv_dom g zeros flat Hwf Hi Hd). lia. }
  destruct (set_pop zeros) as [[n zeros']|] eqn:Hpop.
  - apply set_pop_perm in Hpop.
    pose proof (flatten_inv_step g zeros zeros' flat n Hwf Hi Hpop) as Hi'.
    apply IH; [done| |rewrite length_app; simpl; lia].
    intros m. rewrite elem_of_app.
    destruct (add_ready_spec g (flat ++ [n]) (node_dependents g n) zeros') as [-> _].
    intros [Hm|[Hm|[Hm _]]].
    + apply Hd. rewrite Hpop. set_solver.
    + apply Hd. rewrite Hpop. set_solver.
    + apply (wf_edges g Hwf) in Hm. by eapply node_in_dom.
  - destruct zeros as [|x zeros]; [|destruct (set_pop_cons x zeros); congruence].
    exists flat. rewrite app_nil_r in Hd. by split_and!.
Qed.

Lemma ordered_app_inv g l1 l2 : ordered g (l1 ++ l2) → ordered g l1.
Proof. intros Ho la m lb -> d Hd. eapply (Ho la m (lb ++ l2)); [|done]. by rewrite <- app_assoc. Qed.

(** Everything an ordered list holds is well-founded in the dependency relation. *)
Lemma ordered_sn g flat m :
  node_dependencies g None = [] → ordered g flat → m ∈ flat → sn (depends g) m.
Proof.
  intros Hroot. revert m; induction flat as [|n flat IH] using rev_ind; [set_solver|].
  intros m Ho Hm. pose proof (λ m, IH m (ordered_app_inv _ _ _ Ho)) as Hsn.
  apply elem_of_app in Hm as [Hm| ->%list_elem_of_singleton]; [by apply Hsn|].
  constructor; intros d Hd. destruct (Ho flat n [] eq_refl d Hd) as [->|Hin]; [|eauto].
  constructor. intros d' Hd'. unfold flip, depends in Hd'. rewrite Hroot in Hd'. set_solver.
Qed.

Lemma flatten_inv_complete g flat m :
  graph_wf g → flatten_inv g [] flat → sn (depends g) m → m ∈ dom g → m ≠ None → m ∈ flat.
Proof.
  intros Hwf Hi. induction 1 as [m _ IH]. intros Hm Hnm.
  assert (Hfin : ∀ x, x ∈ flat ++ [] ↔ x ∈ flat) by (intros; by rewrite app_nil_r).
  destruct (decide (None ∈ node_dependencies g m)) as [Hroot|Hroot].
  - apply Hfin, (fi_roots _ _ _ Hi). by apply (wf_edges g Hwf).
  - assert (Hsub : node_dependencies g m ⊆ flat).
    { intros d Hd. apply IH; [done|by eapply wf_closed|congruence]. }
    destruct (node_dependencies g m) as [|n l] eqn:Hdeps; [by destruct (wf_nonempty g Hwf m)|].
    apply Hfin, (fi_complete _ _ _ Hi m n); [set_solver| |by rewrite Hdeps].
    apply (wf_edges g Hwf). rewrite Hdeps. by left.
Qed.

(** FlattenToList terminates, whatever elements the set pops choose; it lists
    each node once, after all of its dependencies, and lists exactly the nodes
    from which no dependency chain is infinite. *)
Lemma FlattenToList_result g :
  graph_wf g →
  ∃ flat, FlattenToList g = Ok flat ∧ NoDup flat ∧ ordered g flat
    ∧ ∀ m, m ∈ flat ↔ m ∈ dom g ∧ m ≠ None ∧ sn (depends g) m.
Proof.
  intros Hwf. pose proof (flatten_inv_start g Hwf) as Hi.
  destruct (flatten_loop_result (S (size g)) g _ _ Hwf Hi) as (flat&Hrun&Hi'&Hdom).
  - simpl. intros m Hm. rewrite elem_of_set_of in Hm. apply (wf_edges g Hwf) in Hm. by eapply node_in_dom.
  - simpl. lia.
  - exists flat. destruct (Hi') as [Hn Hr _ _ _ Ho]. rewrite app_nil_r in *.
    split_and!; [done|done|done|]. intros m. split.
    + intros Hm. split_and!; [auto|by intros ->|].
      by apply ordered_sn with flat; [apply wf_root|..].
    + intros (?&?&?). by apply flatten_inv_complete with g.
Qed.

(** ** Direct and deep dependencies *)

(** [DirectDependencies(dependencies)] *)
Definition DirectDependencies g n (acc : list A) : list A :=
  foldl (λ acc d, match d with
    | Some r => if r in? acc then acc else acc ++ [r]
    | None => acc
    end) acc (node_dependencies g n).

(** [DeepDependencies(dependencies)] *)
Fixpoint DeepDependencies (fuel : nat) g n (acc : list A) : result (list A) :=
  match fuel with
  | 0 => Err OutOfFuel
  | S fuel =>
      for_each (node_dependencies g n) acc (λ d acc,
        match d with
        | Some r => if r in? acc then Ok acc else DeepDependencies fuel g d (acc ++ [r])
        | None => Ok acc
        end)
  end.

(** The non-root dependencies of a named node. *)
Definition ref_succ g (r : A) : list A := omap id (node_dependencies g (Some r)).

Lemma elem_of_ref_succ g r s : s ∈ ref_succ g r ↔ Some s ∈ node_dependencies g (Some r).
Proof. unfold ref_succ. rewrite list_elem_of_omap. naive_solver. Qed.

(** The recursion of DeepDependencies is the generic depth-first collection. *)
Lemma DeepDependencies_visit fuel g n acc acc' :
  visit_all (ref_succ g) fuel (omap id (node_dependencies g n)) acc = Ok acc' →
  DeepDependencies (S fuel) g n acc = Ok acc'.
Proof.
  revert n acc acc'; induction fuel as [|fuel IH]; intros n acc acc';
    unfold visit_all; cbn [DeepDependencies];
    generalize (node_dependencies g n) as l; intros l; revert acc;
    induction l as [|[r|] l IHl]; intros acc Hv; simpl in *; try done; [auto|idtac|auto].
  apply bind_Ok in Hv as (acc1&Hr&Hv). case_bool_decide; inv_ok; [by apply IHl|].
  rewrite (IH (Some r) (acc ++ [r]) acc1) by done. simpl. auto.
Qed.

(** The refs of a graph, a universe closed under dependencies. *)
Definition refs g : list A := omap id (elements (dom g)).

Lemma elem_of_refs g r : r ∈ refs g ↔ Some r ∈ dom g.
Proof. unfold refs. rewrite list_elem_of_omap. setoid_rewrite elem_of_elements. naive_solver. Qed.

Lemma length_refs g : length (refs g) ≤ size g.
Proof.
  unfold refs. rewrite <- size_dom. unfold size at 1, set_size; simpl.
  generalize (elements (dom g)) as l. intros l.
  induction l as [|[r|] l IH]; cbn in *; lia.
Qed.

Lemma refs_closed g : graph_wf g → closed (ref_succ g) (refs g).
Proof. intros Hwf r s _ Hs%elem_of_ref_succ. by apply elem_of_refs, (wf_closed g Hwf (Some r)). Qed.

(** Chains of dependencies that end in a named node avoid the root. *)
Lemma depends_chain g n r :
  graph_wf g →
  tc (depends g) n (Some r) ↔
    ∃ x, Some x ∈ node_dependencies g n ∧ rtc (edge (ref_succ g)) x r.
Proof.
  intros Hwf. split.
  - intros Htc. remember (Some r) as m eqn:Hm. induction Htc as [n m Hnm|n m m' Hnm _ IH]; subst.
    + by exists r.
    + destruct (IH eq_refl) as (x&Hx&Hxr). destruct m as [y|].
      * exists y. split; [done|]. apply rtc_l with x; [|done]. by apply elem_of_ref_succ.
      * rewrite (wf_root g Hwf) in Hx. set_solver.
  - intros (x&Hx&Hxr). apply tc_rtc_r with (Some x); [by apply tc_once|].
    clear -Hxr. induction Hxr as [|x y z Hxy _ IH]; [done|].
    apply rtc_l with (Some y); [|done]. by apply elem_of_ref_succ in Hxy.
Qed.

(** DeepDependencies terminates, on cyclic graphs too; from an empty list it
    returns each transitive dependency exactly once, and nothing else. *)
Lemma DeepDependencies_result g n :
  graph_wf g →
  ∃ deps, DeepDependencies (S (S (size g))) g n [] = Ok deps ∧ NoDup deps
    ∧ ∀ r, r ∈ deps ↔ tc (depends g) n (Some r).
Proof.
  intros Hwf. pose proof (refs_closed g Hwf) as Hcl.
  destruct (visit_all_fuel (ref_succ g) (refs g) (S (size g)) (omap id (node_dependencies g n)) [])
    as [deps Hv]; [done| |pose proof (missing_le (refs g) []); pose proof (length_refs g); lia|].
  { intros r Hr. apply list_elem_of_omap in Hr as ([d|]&Hd&?); simplify_eq/=.
    by apply elem_of_refs, (wf_closed g Hwf n). }
  exists deps. split; [by apply DeepDependencies_visit|].
  apply visit_all_reachable in Hv as [Hnd Hmem]. split; [done|].
  intros r. rewrite Hmem, depends_chain by done. by setoid_rewrite list_elem_of_omap; naive_solver.
Qed.

(** ** Cycles *)

(** [for part in path: cycle.append(part); if part == node: break] *)
Fixpoint path_until n (path : list (option A)) : list (option A) :=
  match path with
  | [] => []
  | part :: path => part :: (if part ==? n then [] else path_until n path)
  end.

(** [self.FindCycles(path)]; a cycle is a tuple of nodes, and the order of
    [list(set(results))] is the order of discovery here. *)
Fixpoint find_cycles (fuel : nat) g self (path : list (option A)) :
    result (list (list (option A))) :=
  match fuel with
  | 0 => Err OutOfFuel
  | S fuel =>
      results ← for_each (node_dependents g self) [] (λ node results,
        cycles ← (if node in? path then Ok [node :: path_until node path]
                  else find_cycles fuel g node (node :: path));
        Ok (results ++ cycles));
      Ok (set_of results)
  end.

Definition FindCycles g self : result (list (list (option A))) :=
  find_cycles (S (size g)) g self [self].

(** One step from a node to the node that depends on it. *)
Definition dependent_step g m n : Prop := n ∈ node_dependents g m.

(** A cycle as FindCycles lists it: it starts and ends with the same node and
    each node is a dependent of the next one. *)
Definition is_cycle g (c : list (option A)) : Prop :=
  ∃ n mid, c = n :: mid ++ [n] ∧ Sorted (flip (dependent_step g)) c.

Lemma path_until_prefix g n path x :
  Sorted (flip (dependent_step g)) (x :: path) → n ∈ path →
  ∃ mid, path_until n path = mid ++ [n] ∧ Sorted (flip (dependent_step g)) (x :: mid ++ [n]).
Proof.
  revert x; induction path as [|y path IH]; intros x Hs Hn; [set_solver|].
  apply Sorted_inv in Hs as [Hs Hxy]. apply HdRel_inv in Hxy. simpl. case_bool_decide; subst.
  - exists []. simpl. repeat constructor. done.
  - destruct (IH y Hs) as (mid&->&Hm); [set_solver|]. exists (y :: mid). split; [done|].
    constructor; [done|]. by constructor.
Qed.

(** What one call returns, in terms of its recursive calls. *)
Definition cycles_through fuel g path node : result (list (list (option A))) :=
  if node in? path then Ok [node :: path_until node path]
  else find_cycles fuel g node (node :: path).

Lemma find_cycles_S fuel g self path results :
  find_cycles (S fuel) g self path = Ok results →
  (∀ c, c ∈ results ↔ ∃ node cs, node ∈ node_dependents g self
    ∧ cycles_through fuel g path node = Ok cs ∧ c ∈ cs)
  ∧ (∀ node, node ∈ node_dependents g self → ∃ cs, cycles_through fuel g path node = Ok cs).
Proof.
  cbn [find_cycles]. intros H1. apply bind_Ok in H1 as (r&Hr&H1). simplify_eq.
  apply (for_each_collect (cycles_through fuel g path)) in Hr as [He Hok]. split; [|done].
  intros c. rewrite elem_of_set_of, He. set_solver.
Qed.

(** Every cycle found is one, and goes through a node reachable from the start. *)
Lemma find_cycles_sound fuel g self path results c :
  Sorted (flip (dependent_step g)) (self :: path) → self ∈ self :: path →
  find_cycles fuel g self (self :: path) = Ok results → c ∈ results →
  is_cycle g c ∧ ∃ m, m ∈ c ∧ rtc (dependent_step g) self m.
Proof.
  revert self path results; induction fuel as [|fuel IH]; intros self path results Hs _ Hrun Hc;
    [done|].
  apply find_cycles_S in Hrun as [He _]. apply He in Hc as (node&cs&Hn&Hcs&Hc).
  unfold cycles_through in Hcs. case_bool_decide as Hin; simplify_eq.
  - apply list_elem_of_singleton in Hc as ->.
    assert (Hs' : Sorted (flip (dependent_step g)) (node :: self :: path)).
    { constructor; [done|]. by constructor. }
    destruct (path_until_prefix g node (self :: path) node Hs' Hin) as (mid&Hp&Hm).
    simpl in Hp. rewrite Hp. split.
    + by exists node, mid.
    + exists node. split; [by left|by apply rtc_once].
  - destruct (IH node (self :: path) cs) as [Hcy (m&Hm&Hr)]; [|by left|done..|].
    { constructor; [done|]. by constructor. }
    split; [done|]. exists m. split; [done|]. by apply rtc_l with node.
Qed.

(** A search that finds nothing has explored everything: no infinite chain of
    dependents leaves the start. *)
Lemma find_cycles_empty_sn fuel g self path :
  find_cycles fuel g self path = Ok [] → sn (dependent_step g) self.
Proof.
  revert self path; induction fuel as [|fuel IH]; intros self path Hrun; [done|].
  apply find_cycles_S in Hrun as [He Hok]. constructor. intros node Hn.
  destruct (Hok node Hn) as [cs Hcs].
  assert (Hempty : ∀ c, c ∉ cs).
  { intros c Hc. eapply not_elem_of_nil, He. by exists node, cs. }
  unfold cycles_through in Hcs. case_bool_decide; simplify_eq.
  - exfalso. by eapply Hempty; left.
  - apply IH with (node :: path). destruct cs as [|c cs]; [done|]. exfalso. by eapply Hempty; left.
Qed.

(** The path never repeats a node, so the recursion is at most as deep as the
    graph is large. *)
Lemma find_cycles_fuel fuel g self path :
  graph_wf g → NoDup path → (∀ m, m ∈ path → m ∈ dom g) → size g < fuel + length path →
  ∃ results, find_cycles fuel g self path = Ok results.
Proof.
  intros Hwf. revert self path; induction fuel as [|fuel IH]; intros self path Hnd Hdom Hf.
  - assert (length path ≤ size g); [|lia]. rewrite <- size_dom.
    rewrite <- (size_list_to_set (C:=gset (option A)) path) by done.
    apply subseteq_size. intros m Hm%elem_of_list_to_set. set_solver.
  - cbn [find_cycles].
    destruct (for_each_collect_ok (cycles_through fuel g path) (node_dependents g self) [])
      as [r Hr].
    + intros node Hn. unfold cycles_through. case_bool_decide; [by eexists|].
      apply IH; [by constructor| |simpl; lia].
      intros m [->|?]%elem_of_cons; [|auto]. apply (wf_edges g Hwf) in Hn. by eapply node_in_dom.
    + unfold cycles_through in Hr. rewrite Hr. by eexists.
Qed.

(** A listed cycle contradicts well-foundedness from any of its nodes. *)
Lemma is_cycle_tc g c m :
  is_cycle g c → m ∈ c → tc (dependent_step g) m m.
Proof.
  intros (n&mid&->&Hs) Hm.
  assert (Hgen : ∀ (l : list (option A)) x y, Sorted (flip (dependent_step g)) (x :: l) → y ∈ l →
            tc (dependent_step g) y x).
  { intros l. induction l as [|z l IH]; intros x y Hl Hy; [set_solver|].
    apply Sorted_inv in Hl as [Hl Hxz%HdRel_inv]. apply elem_of_cons in Hy as [->|Hy].
    - by apply tc_once.
    - apply tc_r with z; [by apply IH|done]. }
  assert (Htail : ∀ (l : list (option A)) y, Sorted (flip (dependent_step g)) (l ++ [n]) → y ∈ l →
            tc (dependent_step g) n y).
  { intros l y. induction l as [|z l IH]; intros Hl Hy; [set_solver|].
    apply elem_of_cons in Hy as [->|Hy]; [eapply Hgen; [exact Hl|set_solver]|].
    apply IH; [|done]. by apply Sorted_inv in Hl as []. }
  apply elem_of_cons in Hm as [->|[Hm| ->%list_elem_of_singleton]%elem_of_app].
  - eapply Hgen; [exact Hs|set_solver].
  - apply tc_trans with n; [eapply Hgen; [exact Hs|set_solver]|].
    apply (Htail mid); [|done]. by apply Sorted_inv in Hs as [].
  - eapply Hgen; [exact Hs|set_solver].
Qed.

Lemma sn_no_cycle (R : relation (option A)) m : sn R m → ¬ tc R m m.
Proof.
  induction 1 as [m _ IH]. intros Hc. inversion Hc as [|? y ? Hmy Hym]; subst.
  - by apply (IH m).
  - apply (IH y Hmy). by apply tc_r with m.
Qed.

(** FindCycles terminates; it lists only cycles; and it lists none exactly when
    no cycle can be reached from its node along dependents. *)
Lemma FindCycles_result g self :
  graph_wf g → self ∈ dom g →
  ∃ cycles, FindCycles g self = Ok cycles
    ∧ (∀ c, c ∈ cycles → is_cycle g c)
    ∧ (cycles = [] ↔ sn (dependent_step g) self).
Proof.
  intros Hwf Hself. destruct (find_cycles_fuel (S (size g)) g self [self]) as [cs Hcs];
    [done|apply NoDup_singleton|set_solver|simpl; lia|].
  exists cs. split; [done|].
  assert (Hsound : ∀ c, c ∈ cs → is_cycle g c ∧ ∃ m, m ∈ c ∧ rtc (dependent_step g) self m).
  { intros c Hc. eapply find_cycles_sound; [|by left|exact Hcs|done]. by repeat constructor. }
  split; [by intros c [? _]%Hsound|]. split.
  - intros ->. by eapply find_cycles_empty_sn.
  - intros Hsn. destruct cs as [|c cs]; [done|].
    destruct (Hsound c) as [Hc (m&Hm&Hr)]; [by left|].
    destruct (sn_no_cycle (dependent_step g) m); [by eapply sn_step_rtc|by eapply is_cycle_tc].
Qed.

(** ** Deciding well-formedness *)

(** [graph_wf], node by node. *)
Definition node_wf g m (n : dgnode A) : Prop :=
  Forall (λ d, d ∈ elements (dom g) ∧ m ∈ node_dependents g d
               ∧ (None ∈ dependencies n → d = None)) (dependencies n)
  ∧ Forall (λ d, m ∈ node_dependencies g d) (dependents n)
  ∧ (m = None → dependencies n = []) ∧ (m ≠ None → dependencies n ≠ []).

#[export] Instance node_wf_dec g m (nd : dgnode A) : Decision (node_wf g m nd).
Proof. unfold node_wf. apply _. Defined.

Lemma node_wf_graph g : map_Forall (node_wf g) g → graph_wf g.
Proof.
  intros Hall.
  assert (Hdeps : ∀ m d, d ∈ node_dependencies g m → d ∈ dom g ∧ m ∈ node_dependents g d
            ∧ (None ∈ node_dependencies g m → d = None) ∧ m ≠ None).
  { intros m d Hd. unfold node_dependencies in *. destruct (g !! m) as [n|] eqn:Hm; [|by apply elem_of_nil in Hd].
    simpl in *. destruct (Hall m n Hm) as (Hf&_&Hroot&_). rewrite Forall_forall in Hf.
    destruct (Hf d Hd) as (Hdom&?&?). rewrite elem_of_elements in Hdom. split_and!; [done..|].
    intros ->. rewrite Hroot in Hd by done. by apply elem_of_nil in Hd. }
  split.
  - intros m n. split; [|intros ?; by apply Hdeps]. intros Hn. unfold node_dependents in Hn.
    destruct (g !! n) as [d|] eqn:Hg; [|by apply elem_of_nil in Hn].
    destruct (Hall n d Hg) as (_&Hf&_). rewrite Forall_forall in Hf. by apply Hf.
  - destruct (node_dependencies g None) as [|d l] eqn:Hd; [done|].
    destruct (Hdeps None d) as (_&_&_&?); [rewrite Hd; by left|done].
  - intros m d Hroot Hd. by apply (Hdeps m d).
  - intros m [n Hm]%elem_of_dom Hne. unfold node_dependencies. rewrite Hm.
    destruct (Hall m n Hm) as (_&_&_&Hne'). by apply Hne'.
  - intros m d Hd. by apply (Hdeps m d).
Qed.
End graph.

(** * Properties *)

(** FlattenToList terminates on every graph gyp builds, for every order in
    which the set of ready nodes may be popped.  Its list holds each node once,
    after all of the node's dependencies, and holds exactly the nodes from which
    no chain of dependencies is infinite; so it misses a node only where a cycle
    holds it back. *)
Theorem FlattenToList_topological {A : Type} `{Countable A} `{!SetPop (option A)}
    (g : gmap (option A) (dgnode A)) :
  graph_wf g →
  ∃ flat, FlattenToList g = Ok flat ∧ NoDup flat ∧ ordered g flat
    ∧ ∀ m, m ∈ flat ↔ m ∈ dom g ∧ m ≠ None ∧ sn (depends g) m.
Proof. apply FlattenToList_result. Qed.

(** A graph with a diamond ([a] above [b] and [c], both above [d]) beside the
    cycle of [e] and [f]. *)
Definition sample_graph : gmap (option string) (dgnode string) :=
  {[ None := DGNode [] [Some "d"];
     Some "a" := DGNode [Some "b"; Some "c"] [];
     Some "b" := DGNode [Some "d"] [Some "a"];
     Some "c" := DGNode [Some "d"] [Some "a"];
     Some "d" := DGNode [None] [Some "b"; Some "c"; Some "e"];
     Some "e" := DGNode [Some "f"; Some "d"] [Some "f"];
     Some "f" := DGNode [Some "e"] [Some "e"] ]}.

Lemma sample_graph_wf : graph_wf sample_graph.
Proof.
  apply node_wf_graph. apply (bool_decide_unpack (map_Forall (node_wf sample_graph) sample_graph)).
  vm_compute. exact I.
Qed.

Example FlattenToList_sample :
  FlattenToList sample_graph = Ok [Some "d"; Some "b"; Some "c"; Some "a"].
Proof. vm_compute. reflexivity. Qed.

Lemma FlattenToList_topological_witness :
  graph_wf sample_graph ∧ ∃ flat, FlattenToList sample_graph = Ok flat ∧ NoDup flat
    ∧ ordered sample_graph flat
    ∧ ∀ m, m ∈ flat ↔ m ∈ dom sample_graph ∧ m ≠ None ∧ sn (depends sample_graph) m.
Proof. split; [apply sample_graph_wf|]. apply FlattenToList_topological, sample_graph_wf. Defined.

(** DeepDependencies terminates, on cyclic graphs too, and from an empty list
    returns each transitive dependency of its node exactly once and nothing
    else. *)
Theorem DeepDependencies_transitive {A : Type} `{Countable A}
    (g : gmap (option A) (dgnode A)) (n : option A) :
  graph_wf g →
  ∃ deps, DeepDependencies (S (S (size g))) g n [] = Ok deps ∧ NoDup deps
    ∧ ∀ r, r ∈ deps ↔ tc (depends g) n (Some r).
Proof. apply DeepDependencies_result. Qed.

Lemma DeepDependencies_transitive_witness :
  graph_wf sample_graph
  ∧ DeepDependencies (S (S (size sample_graph))) sample_graph (Some "e") [] = Ok ["f"; "e"; "d"]
  ∧ ∃ deps, DeepDependencies (S (S (size sample_graph))) sample_graph (Some "e") [] = Ok deps
    ∧ NoDup deps ∧ ∀ r, r ∈ deps ↔ tc (depends sample_graph) (Some "e") (Some r).
Proof.
  split; [apply sample_graph_wf|]. split; [vm_compute; reflexivity|].
  apply DeepDependencies_transitive, sample_graph_wf.
Defined.

(** C14: FindCycles terminates, lists only cycles of the graph, and lists none
    exactly when no cycle can be reached from its node along dependents. *)
Theorem FindCycles_sound_complete {A : Type} `{Countable A}
    (g : gmap (option A) (dgnode A)) (self : option A) :
  graph_wf g → self ∈ dom g →
  ∃ cycles, FindCycles g self = Ok cycles
    ∧ (∀ c, c ∈ cycles → is_cycle g c)
    ∧ (cycles = [] ↔ sn (dependent_step g) self).
Proof. apply FindCycles_result. Qed.

Lemma FindCycles_sound_complete_witness :
  graph_wf sample_graph ∧ None ∈ dom sample_graph
  ∧ FindCycles sample_graph None = Ok [[Some "e"; Some "f"; Some "e"]]
  ∧ ∃ cycles, FindCycles sample_graph None = Ok cycles
    ∧ (∀ c, c ∈ cycles → is_cycle sample_graph c)
    ∧ (cycles = [] ↔ sn (dependent_step sample_graph) None).
Proof.
  assert (Hroot : None ∈ dom sample_graph) by (apply elem_of_dom; vm_compute; by eexists).
  split; [apply sample_graph_wf|]. split; [done|]. split; [vm_compute; reflexivity|].
  apply FindCycles_sound_complete; [apply sample_graph_wf|done].
Defined.
