(* ===== verification/DepList.v ===== *)
(** * Building and checking dependency graphs

    [BuildDependencyList] and [VerifyNoGYPFileCircularDependencies] of
    tools/gyp/pylib/gyp/input.py: the graph over targets with its flattening, and
    the graph over .gyp files with its cycle report. *)
From stdpp Require Import relations.
From S2P Require Import Prelude PyDict PySet PyStr PyPath PyVal Dfs DepGraph Common.

(** ** Assigning to the edge lists of nodes *)
Section links.
Context {A : Type} `{Countable A}.
Implicit Types (g : gmap (option A) (dgnode A)) (m d : option A).

(** [DependencyGraphNode(ref)] *)
Definition new_node : dgnode A := DGNode [] [].

(** [m.dependencies.append(d)], [m.dependents.append(d)] and
    [m.dependencies = ds] *)
Definition append_dependency m d g :=
  alter (λ n, DGNode (dependencies n ++ [d]) (dependents n)) m g.
Definition append_dependent m d g :=
  alter (λ n, DGNode (dependencies n) (dependents n ++ [d])) m g.
Definition assign_dependencies m ds g :=
  alter (λ n, DGNode ds (dependents n)) m g.

(** The nodes of a graph before it has edges: the root and one per name. *)
Definition new_graph (names : list A) : gmap (option A) (dgnode A) :=
  <[None := new_node]> (foldl (λ g t, <[Some t := new_node]> g) ∅ names).

(** What holds of a graph while links are being added. *)
Record linked g : Prop := {
  li_edges : ∀ m n, m ∈ node_dependents g n ↔ n ∈ node_dependencies g m;
  li_root : node_dependencies g None = [];
  li_closed : ∀ m d, d ∈ node_dependencies g m → d ∈ dom g
}.

Lemma node_dependencies_append m d g x :
  m ∈ dom g →
  node_dependencies (append_dependency m d g) x =
    if decide (x = m) then node_dependencies g m ++ [d] else node_dependencies g x.
Proof.
  intros [n Hn]%elem_of_dom. unfold node_dependencies, append_dependency. case_decide; subst.
  - rewrite lookup_alter_eq, Hn. done.
  - by rewrite lookup_alter_ne.
Qed.

Lemma node_dependents_append_dependency m d g x :
  node_dependents (append_dependency m d g) x = node_dependents g x.
Proof.
  unfold node_dependents, append_dependency. destruct (decide (x = m)); subst.
  - rewrite lookup_alter_eq. by destruct (g !! m).
  - by rewrite lookup_alter_ne.
Qed.

Lemma node_dependents_append m d g x :
  m ∈ dom g →
  node_dependents (append_dependent m d g) x =
    if decide (x = m) then node_dependents g m ++ [d] else node_dependents g x.
Proof.
  intros [n Hn]%elem_of_dom. unfold node_dependents, append_dependent. case_decide; subst.
  - rewrite lookup_alter_eq, Hn. done.
  - by rewrite lookup_alter_ne.
Qed.

Lemma node_dependencies_append_dependent m d g x :
  node_dependencies (append_dependent m d g) x = node_dependencies g x.
Proof.
  unfold node_dependencies, append_dependent. destruct (decide (x = m)); subst.
  - rewrite lookup_alter_eq. by destruct (g !! m).
  - by rewrite lookup_alter_ne.
Qed.

Lemma dom_append_dependency m d g : dom (append_dependency m d g) = dom g.
Proof. apply dom_alter_L. Qed.
Lemma dom_append_dependent m d g : dom (append_dependent m d g) = dom g.
Proof. apply dom_alter_L. Qed.

(** [m.dependencies.append(d); d.dependents.append(m)] *)
Definition link m d g := append_dependent d m (append_dependency m d g).

Lemma dom_link m d g : dom (link m d g) = dom g.
Proof. unfold link. by rewrite dom_append_dependent, dom_append_dependency. Qed.

Lemma node_dependencies_link m d g x :
  m ∈ dom g →
  node_dependencies (link m d g) x =
    if decide (x = m) then node_dependencies g m ++ [d] else node_dependencies g x.
Proof. intros. unfold link. by rewrite node_dependencies_append_dependent, node_dependencies_append. Qed.

Lemma node_dependents_link m d g x :
  d ∈ dom g →
  node_dependents (link m d g) x =
    if decide (x = d) then node_dependents g d ++ [m] else node_dependents g x.
Proof.
  intros. unfold link. rewrite node_dependents_append by (by rewrite dom_append_dependency).
  by rewrite !node_dependents_append_dependency.
Qed.

Lemma linked_link m d g :
  linked g → m ∈ dom g → d ∈ dom g → m ≠ None → linked (link m d g).
Proof.
  intros [He Hr Hc] Hm Hd Hn. split.
  - intros x y. rewrite node_dependencies_link, node_dependents_link by done.
    pose proof (He x y). repeat case_decide; subst; rewrite ?elem_of_app, ?list_elem_of_singleton;
      naive_solver.
  - rewrite node_dependencies_link by done. by rewrite decide_False.
  - intros x y. rewrite node_dependencies_link, dom_link by done. case_decide; [|intros Hy; exact (Hc _ _ Hy)].
    subst. rewrite elem_of_app, list_elem_of_singleton. intros [Hy|Hy]; [by apply (Hc m)|by subst].
Qed.

Lemma new_graph_lookup names m :
  new_graph names !! m = if decide (m = None ∨ m ∈ Some <$> names) then Some new_node else None.
Proof.
  unfold new_graph. destruct m as [t|]; [|rewrite lookup_insert_eq; by rewrite decide_True by auto].
  rewrite lookup_insert_ne by done.
  assert (Hgen : ∀ g0 : gmap (option A) (dgnode A), foldl (λ g t, <[Some t := new_node]> g) g0 names !! Some t
    = if decide (t ∈ names) then Some new_node else g0 !! Some t).
  { induction names as [|x names IH]; intros g0; cbn [foldl].
    - by rewrite decide_False by apply not_elem_of_nil.
    - rewrite IH. destruct (decide (t ∈ names)).
      + by rewrite decide_True by (by right).
      + destruct (decide (x = t)) as [->|Hne].
        * rewrite lookup_insert_eq. by rewrite decide_True by (by left).
        * rewrite lookup_insert_ne by congruence. rewrite decide_False; [done|].
          rewrite elem_of_cons. naive_solver. }
  rewrite Hgen, lookup_empty. apply decide_ext. rewrite list_elem_of_fmap. naive_solver.
Qed.

Lemma new_graph_deps names m : node_dependencies (new_graph names) m = [].
Proof. unfold node_dependencies. rewrite new_graph_lookup. by case_decide. Qed.
Lemma new_graph_dependents names m : node_dependents (new_graph names) m = [].
Proof. unfold node_dependents. rewrite new_graph_lookup. by case_decide. Qed.
Lemma new_graph_dom names m : m ∈ dom (new_graph names) ↔ m = None ∨ m ∈ Some <$> names.
Proof. rewrite elem_of_dom, new_graph_lookup. case_decide; split; naive_solver. Qed.

Lemma new_graph_linked names : linked (new_graph names).
Proof.
  split; intros; rewrite ?new_graph_deps, ?new_graph_dependents in *; set_solver.
Qed.

(** [g'] is [g] with the edges [E] added, both lists of each node kept in step. *)
Record adds g g' (E : relation (option A)) : Prop := {
  ad_linked : linked g';
  ad_dom : dom g' = dom g;
  ad_edges : ∀ x y, y ∈ node_dependencies g' x ↔ y ∈ node_dependencies g x ∨ E x y
}.

Lemma adds_refl g : linked g → adds g g (λ _ _, False).
Proof. split; naive_solver. Qed.

Lemma adds_trans g g1 g2 E1 E2 :
  adds g g1 E1 → adds g1 g2 E2 → adds g g2 (λ x y, E1 x y ∨ E2 x y).
Proof.
  intros [_ Hd1 He1] [Hl Hd2 He2]. split; [done|congruence|].
  intros x y. rewrite He2, He1. tauto.
Qed.

Lemma adds_ext g g' E E' : (∀ x y, E x y ↔ E' x y) → adds g g' E → adds g g' E'.
Proof. intros HE [Hl Hd He]. split; [done..|]. intros x y. rewrite He, HE. done. Qed.

Lemma adds_link m d g :
  linked g → m ∈ dom g → d ∈ dom g → m ≠ None → adds g (link m d g) (λ x y, x = m ∧ y = d).
Proof.
  intros Hl Hm Hd Hn. split; [by apply linked_link|apply dom_link|].
  intros x y. rewrite node_dependencies_link by done.
  case_decide; subst; rewrite ?elem_of_app, ?list_elem_of_singleton; naive_solver.
Qed.

(** A node without dependencies: linked to the root by assignment. *)
Definition link_root m g := append_dependent None m (assign_dependencies m [None] g).

Lemma link_root_link m g : node_dependencies g m = [] → link_root m g = link m None g.
Proof.
  intros Hm. unfold link_root, link. f_equal. unfold assign_dependencies, append_dependency.
  apply alter_ext. intros n Hn. unfold node_dependencies in Hm. rewrite Hn in Hm. simpl in Hm.
  by rewrite Hm.
Qed.

(** A loop that adds the edges [E x] for each item, or fails on a bad one. *)
Lemma for_each_adds {B} (l : list B) g (body : B → gmap (option A) (dgnode A) → result _)
    (E : B → relation (option A)) (bad : B → exn → Prop) :
  linked g →
  (∀ l1 x l2 g', l = l1 ++ x :: l2 → adds g g' (λ a b, ∃ y, y ∈ l1 ∧ E y a b) →
    match body x g' with
    | Ok g'' => adds g' g'' (E x) ∧ ∀ e, ¬ bad x e
    | Err e => bad x e
    end) →
  match for_each l g body with
  | Ok g' => adds g g' (λ a b, ∃ x, x ∈ l ∧ E x a b) ∧ ∀ x e, x ∈ l → ¬ bad x e
  | Err e => ∃ x, x ∈ l ∧ bad x e
  end.
Proof.
  intros Hl. induction l as [|x l IH] using rev_ind; intros Hbody.
  { split; [|set_solver]. eapply adds_ext; [|by apply adds_refl]. set_solver. }
  rewrite for_each_app. 
  assert (IH' : match for_each l g body with
    | Ok g' => adds g g' (λ a b, ∃ x, x ∈ l ∧ E x a b) ∧ ∀ x e, x ∈ l → ¬ bad x e
    | Err e => ∃ x, x ∈ l ∧ bad x e end).
  { apply IH. intros l1 y l2 g' -> Had. apply (Hbody l1 y (l2 ++ [x])); [|done].
    by rewrite <- app_assoc. }
  clear IH.
  destruct (for_each l g body) as [g1|e] eqn:Hrun; simpl; [|set_solver].
  destruct IH' as [Had Hgood]. specialize (Hbody l x [] g1 eq_refl Had).
  destruct (body x g1) as [g2|e]; simpl; [|set_solver].
  destruct Hbody as [Had2 Hx]. split; [|set_solver].
  eapply adds_ext; [|by eapply adds_trans]. set_solver.
Qed.

(** Deciding acyclicity: a finite graph has a cycle or no infinite chain. *)
Lemma cycle_or_sn g :
  graph_wf g →
  (∃ r, tc (depends g) (Some r) (Some r)) ∨ ∀ m, sn (depends g) m.
Proof.
  intros Hwf.
  assert (Hdec : ∀ r, Decision (tc (depends g) (Some r) (Some r))).
  { intros r. destruct (DeepDependencies (S (S (size g))) g (Some r) []) as [deps|e] eqn:Hd.
    - destruct (decide (r ∈ deps)); [left|right];
        destruct (DeepDependencies_result g (Some r) Hwf) as (deps'&Hd'&_&He);
        rewrite <- He; congruence.
    - exfalso. destruct (DeepDependencies_result g (Some r) Hwf) as (?&?&_). congruence. }
  destruct (decide (Exists (λ r, tc (depends g) (Some r) (Some r)) (refs g))) as [Hc|Hc].
  { apply Exists_exists in Hc as (r&_&Hr). left. by exists r. }
  right. intros m. apply tc_finite_sn.
  - intros [r|] Hr; [|by inversion Hr as [? ? Hd|? ? ? Hd]; unfold depends in Hd;
      rewrite (wf_root g Hwf) in Hd; apply elem_of_nil in Hd].
    apply Hc, Exists_exists. exists r. split; [|done]. apply elem_of_refs.
    by inversion Hr as [? ? Hd|? ? ? Hd]; eapply node_in_dom.
  - exists (elements (dom g)). intros d Hd. apply elem_of_elements.
    induction Hd as [x y Hd|x y z _ _ IH]; [by eapply wf_closed|done].
Qed.
End links.

(** ** The operations *)
Section operations.
Context `{!SetPop (option string)} `{!SetPop (option (option string))}.

(** [spec.get('dependencies')], taken for a list of strings unless it is false. *)
Definition spec_dependencies (spec : pydict) : result (list string) :=
  match dict_get spec "dependencies" with
  | Some v => if truthy v then as_strs v else Ok []
  | None => Ok []
  end.

(** One iteration of the loop over a target's dependencies. *)
Definition link_dependency (target dependency : string) (g : gmap (option string) (dgnode string)) :=
  if Some dependency in? elements (dom g) then Ok (link (Some target) (Some dependency) g)
  else Err (GypError ("Dependency '" +:+ dependency +:+ "' not found while "
                      +:+ "trying to load target " +:+ target)).

(** One iteration of the loop over the targets. *)
Definition link_target (item : string * pydict) (g : gmap (option string) (dgnode string)) :=
  let '(target, spec) := item in
  dependencies ← spec_dependencies spec;
  match dependencies with
  | [] => Ok (link_root (Some target) g)
  | _ => for_each dependencies g (link_dependency target)
  end.

(** [' '.join(set(a) ^ set(b))] *)
Definition symmetric_difference (a b : list string) : list string :=
  filter (λ x, x ∉ b) a ++ filter (λ x, x ∉ a) b.

Definition BuildDependencyList (targets : list (string * pydict)) :
    result (gmap (option string) (dgnode string) * list string) :=
  dependency_nodes ← for_each targets (new_graph (dict_keys targets)) link_target;
  flat ← FlattenToList dependency_nodes;
  let flat_list := omap id flat in
  _ ← raise_if (negb (length flat_list ==? length targets))
        (CircularException
          ("Some targets not reachable, cycle in dependency graph detected: "
           +:+ str_join " " (symmetric_difference flat_list (dict_keys targets))));
  Ok (dependency_nodes, flat_list).

(** One iteration of the inner loop of VerifyNoGYPFileCircularDependencies.  A
    node is named by the value of BuildFile, which is not None for a qualified
    target. *)
Definition link_build_file (build_file : option string) (dependency : string)
    (g : gmap (option (option string)) (dgnode (option string))) :=
  let dependency_build_file := BuildFile dependency in
  if dependency_build_file ==? build_file then Ok g
  else if Some dependency_build_file in? elements (dom g) then
    if Some dependency_build_file in? node_dependencies g (Some build_file) then Ok g
    else Ok (link (Some build_file) (Some dependency_build_file) g)
  else Err (GypError ("Dependancy '" +:+ default "None" dependency_build_file +:+ "' not found")).

(** [Files that have no dependencies are treated as dependent on root_node.] *)
Definition link_file_root (build_file : option string)
    (g : gmap (option (option string)) (dgnode (option string))) :=
  if node_dependencies g (Some build_file) ==? [] then link (Some build_file) None g else g.

(** [os.path.commonprefix(l)], by characters *)
Definition commonprefix (l : list (list Ascii.ascii)) : list Ascii.ascii :=
  match l with [] => [] | x :: l => foldl common_prefix x l end.

(** The text of one cycle; [None] where the assertion fails. *)
Definition simplified_path (prefix : list Ascii.ascii) (ref : option (option string)) : result string :=
  match ref with
  | Some (Some file) =>
      _ ← raise_if (negb (lstarts prefix (chars file))) AssertionError;
      Ok (of_chars (drop (length prefix) (chars file)))
  | _ => Err (AttributeError "startswith")
  end.
Definition cycle_text (prefix : list Ascii.ascii) (cycle : list (option (option string))) : result string :=
  simplified_paths ← map_result (simplified_path prefix) cycle;
  Ok ("Cycle: " +:+ str_join " -> " simplified_paths).

(** The graph over the .gyp files. *)
Definition build_files (targets : list (string * pydict)) : list (option string) :=
  set_of (BuildFile <$> dict_keys targets).
Definition gyp_file_graph (targets : list (string * pydict)) :
    result (gmap (option (option string)) (dgnode (option string))) :=
  g ← for_each targets (new_graph (build_files targets)) (λ '(target, spec) g,
        dependencies ← get_strs spec "dependencies";
        for_each dependencies g (link_build_file (BuildFile target)));
  Ok (foldl (λ g b, link_file_root b g) g (build_files targets)).

Definition VerifyNoGYPFileCircularDependencies (targets : list (string * pydict)) : result unit :=
  g ← gyp_file_graph targets;
  flat_list ← FlattenToList g;
  if length flat_list ==? length (build_files targets) then Ok tt
  else
    let prefix := commonprefix (chars <$> omap id (build_files targets)) in
    cycles ← FindCycles g None;
    texts ← map_result (cycle_text prefix) cycles;
    Err (CircularException ("Cycles in .gyp file dependency graph detected:" +:+ newline
                            +:+ str_join newline texts)).
End operations.

(** * Theorems *)

Section build.
Context `{!SetPop (option string)}.
Implicit Types (targets : list (string * pydict)) (g : gmap (option string) (dgnode string)).

(** Target [t] names [d] among its dependencies. *)
Definition requires targets (t d : string) : Prop :=
  ∃ spec deps, (t, spec) ∈ targets ∧ spec_dependencies spec = Ok deps ∧ d ∈ deps.

(** The dependencies of every target are a list of strings, absent, or false. *)
Definition dependencies_typed targets : Prop :=
  ∀ t spec, (t, spec) ∈ targets → is_ok (spec_dependencies spec) = true.

(** The edges of one target: to its dependencies, or to the root. *)
Definition target_edges (item : string * pydict) (x y : option string) : Prop :=
  x = Some item.1 ∧ ∃ deps, spec_dependencies item.2 = Ok deps ∧
    if (deps ==? []) then y = None else y ∈ Some <$> deps.

Lemma link_dependency_adds t deps g :
  linked g → Some t ∈ dom g →
  match for_each deps g (link_dependency t) with
  | Ok g' => adds g g' (λ x y, x = Some t ∧ y ∈ Some <$> deps) ∧ ∀ d, d ∈ deps → Some d ∈ dom g
  | Err e => ∃ d, d ∈ deps ∧ (Some d ∉ dom g) ∧ ∃ msg, e = GypError msg
  end.
Proof.
  intros Hl Ht.
  pose proof (for_each_adds deps g (link_dependency t) (λ d x y, x = Some t ∧ y = Some d)
    (λ d e, (Some d ∉ dom g) ∧ ∃ msg, e = GypError msg) Hl) as Hloop.
  destruct (for_each deps g (link_dependency t)) as [g'|e]; [|apply Hloop; clear Hloop];
    [destruct Hloop as [Had Hd]; [|split]|];
    try (intros l1 d l2 g1 -> [Hl1 Hdom1 _]; unfold link_dependency; case_bool_decide as Hin;
      rewrite elem_of_elements, Hdom1 in Hin;
      [split; [apply adds_link; by rewrite ?Hdom1|naive_solver]|by eauto]).
  - eapply adds_ext; [|exact Had]. intros x y. rewrite list_elem_of_fmap. naive_solver.
  - intros d Hin. destruct (decide (Some d ∈ dom g)) as [|Hn]; [done|].
    destruct (Hd d (GypError "") Hin). eauto.
Qed.

(** What makes a target's iteration fail. *)
Definition missing_dependency g (item : string * pydict) (e : exn) : Prop :=
  (∃ d deps, spec_dependencies item.2 = Ok deps ∧ d ∈ deps ∧ Some d ∉ dom g)
  ∧ ∃ msg, e = GypError msg.

Lemma link_target_adds g0 g t spec :
  linked g → dom g = dom g0 → Some t ∈ dom g → None ∈ dom g → node_dependencies g (Some t) = [] →
  is_ok (spec_dependencies spec) = true →
  match link_target (t, spec) g with
  | Ok g' => adds g g' (target_edges (t, spec)) ∧ ∀ e, ¬ missing_dependency g0 (t, spec) e
  | Err e => missing_dependency g0 (t, spec) e
  end.
Proof.
  intros Hl Hd Ht Hroot Hnone Hty. unfold link_target, missing_dependency, target_edges; simpl.
  destruct (spec_dependencies spec) as [[|d deps]|]; simpl in Hty |- *; [| |done].
  - rewrite link_root_link by done. split; [|by intros e ((?&?&[= <-]&?%elem_of_nil&_)&_)].
    eapply adds_ext; [|by apply adds_link]. intros x y. cbn beta. naive_solver.
  - pose proof (link_dependency_adds t (d :: deps) g Hl Ht) as Hloop. simpl in Hloop |- *.
    rewrite <- Hd. destruct (_ ≫= _) as [g'|e].
    + destruct Hloop as [Had Hin]. split; [|naive_solver].
      eapply adds_ext; [|exact Had]. intros x y. naive_solver.
    + destruct Hloop as (d'&?&?&?). split; [|done]. by exists d', (d :: deps).
Qed.

Lemma dict_keys_app {K V} (l1 l2 : list (K * V)) : dict_keys (l1 ++ l2) = dict_keys l1 ++ dict_keys l2.
Proof. apply fmap_app. Qed.

Lemma link_targets_adds targets :
  NoDup (dict_keys targets) → dependencies_typed targets →
  match for_each targets (new_graph (dict_keys targets)) link_target with
  | Ok g => adds (new_graph (dict_keys targets)) g (λ x y, ∃ item, item ∈ targets ∧ target_edges item x y)
      ∧ ∀ t d, requires targets t d → d ∈ dict_keys targets
  | Err e => (∃ t d, requires targets t d ∧ d ∉ dict_keys targets) ∧ ∃ msg, e = GypError msg
  end.
Proof.
  intros Hnd Hty. set (g0 := new_graph (dict_keys targets)).
  assert (Hdom : ∀ d, Some d ∈ dom g0 ↔ d ∈ dict_keys targets).
  { intros d. unfold g0. rewrite new_graph_dom, list_elem_of_fmap. naive_solver. }
  pose proof (for_each_adds targets g0 link_target target_edges (missing_dependency g0)
    (new_graph_linked _)) as Hloop.
  lapply Hloop; clear Hloop.
  - destruct (for_each targets g0 link_target) as [g|e].
    + intros [Had Hgood]. split; [done|]. intros t d (spec&deps&Hin&Hdeps&Hd).
      rewrite <- Hdom. destruct (decide (Some d ∈ dom g0)) as [|Hn]; [done|].
      destruct (Hgood (t, spec) (GypError "") Hin). split; [|by eexists]. by exists d, deps.
    + intros ([t spec]&Hin&(d&deps&Hdeps&Hd&Hn)&msg). split; [|done].
      exists t, d. rewrite <- Hdom. split; [by exists spec, deps|done].
  - intros l1 [t spec] l2 g -> [Hl Hdg He].
    rewrite dict_keys_app in Hnd. apply NoDup_app in Hnd as (_&Hdisj&_).
    assert (Ht : Some t ∈ dom g).
    { rewrite Hdg, Hdom, dict_keys_app. apply elem_of_app. right. by left. }
    apply link_target_adds; [done..| | |].
    + rewrite Hdg. apply new_graph_dom. by left.
    + destruct (node_dependencies g (Some t)) as [|y l] eqn:Hy; [done|].
      assert (y ∈ node_dependencies g (Some t)) as Hin by (rewrite Hy; by left).
      apply He in Hin as [Hin|([t' sp]&Hin&Heq&_)].
      * unfold g0 in Hin. rewrite new_graph_deps in Hin. by apply elem_of_nil in Hin.
      * simplify_eq/=. exfalso. apply (Hdisj t'); [|by left].
        apply list_elem_of_fmap. by exists (t', sp).
    + apply (Hty t). apply elem_of_app. right. by left.
Qed.

(** The graph [g] has exactly the edges the targets ask for. *)
Definition graph_of targets g : Prop :=
  dom g = dom (new_graph (dict_keys targets))
  ∧ ∀ x y, y ∈ node_dependencies g x ↔ ∃ item, item ∈ targets ∧ target_edges item x y.

Lemma graph_of_wf targets g :
  dependencies_typed targets → linked g → graph_of targets g → NoDup (dict_keys targets) → graph_wf g.
Proof.
  intros Hty [He Hr Hc] [Hd Hg] Hnd. split; [done|done| | |done].
  - intros m d Hm Hin. apply Hg in Hm as ([t spec]&Hi&->&deps&Hdeps&Hy).
    apply Hg in Hin as ([t' spec']&Hi'&[= <-]&deps'&Hdeps'&Hy'). simpl in *.
    apply (dict_In_get _ _ _ Hnd) in Hi, Hi'. rewrite Hi in Hi'. simplify_eq.
    rewrite Hdeps in Hdeps'. simplify_eq. case_bool_decide; [done|].
    by apply list_elem_of_fmap in Hy as (?&?&?).
  - intros [t|] Hm Hn; [|done].
    rewrite Hd, new_graph_dom, list_elem_of_fmap in Hm. destruct Hm as [?|(t'&[= <-]&Ht)]; [done|].
    apply list_elem_of_fmap in Ht as ([t' spec]&->&Hin). simpl in *.
    pose proof (Hty _ _ Hin) as Hok. destruct (spec_dependencies spec) as [deps|] eqn:Hdeps; [|done].
    intros Hnil.
    assert (∃ y, y ∈ node_dependencies g (Some t')) as [y Hy]; [|rewrite Hnil in Hy; by apply elem_of_nil in Hy].
    destruct deps as [|d deps].
    + exists None. apply Hg. exists (t', spec). split; [done|]. split; [done|]. by exists [].
    + exists (Some d). apply Hg. exists (t', spec). split; [done|]. split; [done|].
      exists (d :: deps). split; [done|]. by left.
Qed.

Lemma graph_requires targets g t d :
  graph_of targets g → Some d ∈ node_dependencies g (Some t) ↔ requires targets t d.
Proof.
  intros [_ Hg]. rewrite Hg. unfold requires, target_edges. split.
  - intros ([t' spec]&Hin&[= <-]&deps&Hdeps&Hd). exists spec, deps. split; [done|split; [done|]].
    case_bool_decide; [done|]. apply list_elem_of_fmap in Hd as (?&[= <-]&?). done.
  - intros (spec&deps&Hin&Hdeps&Hd). exists (t, spec). split; [done|split; [done|]].
    exists deps. split; [done|]. rewrite bool_decide_eq_false_2 by (by intros ->; apply elem_of_nil in Hd).
    apply list_elem_of_fmap. eauto.
Qed.

Lemma graph_tc_requires targets g t d :
  graph_wf g → graph_of targets g → tc (depends g) (Some t) (Some d) ↔ tc (requires targets) t d.
Proof.
  intros Hwf Hg. split.
  - intros Htc. remember (Some t) as m eqn:Hm. remember (Some d) as n eqn:Hn. revert t Hm.
    induction Htc as [m n Hmn|m x n Hmx Htc IH]; intros t ->; subst.
    + apply tc_once. by eapply graph_requires.
    + destruct x as [x|].
      * apply tc_l with x; [by eapply graph_requires|by apply IH].
      * exfalso. inversion Htc as [? ? Hd|? ? ? Hd]; subst; unfold depends in Hd;
          rewrite (wf_root g Hwf) in Hd; by apply elem_of_nil in Hd.
  - induction 1; [apply tc_once|eapply tc_l; [|done]]; by eapply graph_requires.
Qed.

Lemma omap_Some_id {B} (l : list (option B)) : None ∉ l → Some <$> omap id l = l.
Proof.
  induction l as [|[x|] l IH]; intros Hl; [done| |by destruct Hl; left].
  cbn. f_equal. apply IH. by intros ?; apply Hl; right.
Qed.

(** BuildDependencyList, on every outcome. *)
Lemma BuildDependencyList_result targets :
  NoDup (dict_keys targets) → dependencies_typed targets →
  match BuildDependencyList targets with
  | Ok (g, flat) =>
      (∀ t d, requires targets t d → d ∈ dict_keys targets) ∧ (∀ t, ¬ tc (requires targets) t t)
      ∧ flat ≡ₚ dict_keys targets
      ∧ (∀ l1 t l2 d, flat = l1 ++ t :: l2 → requires targets t d → d ∈ l1)
      ∧ graph_wf g ∧ graph_of targets g
  | Err (GypError _) => ∃ t d, requires targets t d ∧ d ∉ dict_keys targets
  | Err (CircularException _) =>
      (∀ t d, requires targets t d → d ∈ dict_keys targets) ∧ ∃ t, tc (requires targets) t t
  | Err _ => False
  end.
Proof.
  intros Hnd Hty. unfold BuildDependencyList. pose proof (link_targets_adds targets Hnd Hty) as Hlink.
  destruct (for_each targets _ link_target) as [g|e]; cbn [mbind result_bind];
    [|by destruct Hlink as [? [msg ->]]].
  destruct Hlink as [[Hl Hdom He] Hall].
  assert (Hg : graph_of targets g).
  { split; [done|]. intros x y. rewrite He, new_graph_deps, elem_of_nil. tauto. }
  assert (Hwf : graph_wf g) by (by eapply graph_of_wf).
  destruct (FlattenToList_result g Hwf) as (flat&->&Hfn&Ho&Hf). cbn [mbind result_bind].
  assert (Hflat : Some <$> omap id flat = flat).
  { apply omap_Some_id. by intros (_&?&_)%Hf. }
  generalize dependent (omap id flat). intros l Hflat.
  assert (Hl' : ∀ t, t ∈ l ↔ t ∈ dict_keys targets ∧ sn (depends g) (Some t)).
  { intros t. transitivity (Some t ∈ flat); [rewrite <- Hflat, list_elem_of_fmap; naive_solver|].
    rewrite Hf, Hdom, new_graph_dom, list_elem_of_fmap. naive_solver. }
  assert (Hln : NoDup l) by (rewrite <- Hflat in Hfn; by apply NoDup_fmap_1 in Hfn).
  assert (Hlen : length targets = length (dict_keys targets)) by (symmetry; apply length_fmap).
  case_bool_decide as Heq; cbn [negb raise_if mbind result_bind].
  - assert (Hperm : l ≡ₚ dict_keys targets).
    { apply submseteq_length_Permutation; [|lia].
      apply NoDup_submseteq; [done|]. by intros t [? _]%Hl'. }
    split_and!; [done| |done| |done..].
    + intros t Htc. assert (t ∈ l) as [_ Hsn]%Hl'.
      { rewrite Hperm. apply graph_tc_requires with (g:=g) in Htc; [|done..].
        inversion Htc as [? ? Hd|? ? ? Hd]; subst; apply node_in_dom in Hd;
          rewrite Hdom, new_graph_dom, list_elem_of_fmap in Hd; naive_solver. }
      apply (sn_no_cycle _ _ Hsn). by apply graph_tc_requires with targets.
    + intros l1 t l2 d Hsplit Hd. rewrite Hsplit, fmap_app in Hflat. cbn in Hflat.
      destruct (Ho (Some <$> l1) (Some t) (Some <$> l2) (eq_sym Hflat) (Some d)) as [?|Hin]; [|done|].
      * by apply graph_requires with targets.
      * apply list_elem_of_fmap in Hin as (?&[= ->]&?). done.
  - split; [done|]. destruct (cycle_or_sn g Hwf) as [[r Hr]|Hsn].
    + exists r. by apply graph_tc_requires with g.
    + destruct Heq. rewrite Hlen. apply Permutation_length, NoDup_Permutation; [done..|].
      intros t. rewrite Hl'. naive_solver.
Qed.
End build.

Section verify.
Context `{!SetPop (option (option string))}.
Implicit Types (targets : list (string * pydict)).
Implicit Types (g : gmap (option (option string)) (dgnode (option string))) (b d : option string).

(** A target of file [b] depends on a target of another file [d]. *)
Definition file_requires targets b d : Prop :=
  ∃ t spec deps dep, (t, spec) ∈ targets ∧ BuildFile t = b
    ∧ get_strs spec "dependencies" = Ok deps ∧ dep ∈ deps ∧ BuildFile dep = d ∧ d ≠ b.

(** What the phase before has established: lists of qualified names. *)
Record qualified_targets targets : Prop := {
  qt_typed : ∀ t spec, (t, spec) ∈ targets → is_ok (get_strs spec "dependencies") = true;
  qt_names : ∀ t spec, (t, spec) ∈ targets → BuildFile t ≠ None
}.

Definition file_edges (item : string * pydict) (x y : option (option string)) : Prop :=
  ∃ deps dep, get_strs item.2 "dependencies" = Ok deps ∧ dep ∈ deps
    ∧ x = Some (BuildFile item.1) ∧ y = Some (BuildFile dep) ∧ BuildFile dep ≠ BuildFile item.1.

Lemma link_build_file_adds b deps g :
  linked g → Some b ∈ dom g →
  match for_each deps g (link_build_file b) with
  | Ok g' => adds g g' (λ x y, ∃ dep, dep ∈ deps ∧ x = Some b ∧ y = Some (BuildFile dep) ∧ BuildFile dep ≠ b)
      ∧ ∀ dep, dep ∈ deps → BuildFile dep ≠ b → Some (BuildFile dep) ∈ dom g
  | Err e => ∃ dep, dep ∈ deps ∧ (BuildFile dep ≠ b ∧ Some (BuildFile dep) ∉ dom g) ∧ ∃ msg, e = GypError msg
  end.
Proof.
  intros Hl Hb.
  pose proof (for_each_adds deps g (link_build_file b)
    (λ dep x y, x = Some b ∧ y = Some (BuildFile dep) ∧ BuildFile dep ≠ b)
    (λ dep e, (BuildFile dep ≠ b ∧ Some (BuildFile dep) ∉ dom g) ∧ ∃ msg, e = GypError msg) Hl) as Hloop.
  lapply Hloop; clear Hloop.
  - destruct (for_each deps g (link_build_file b)) as [g'|e]; [|naive_solver].
    intros [Had Hgood]. split; [done|]. intros dep Hin Hne.
    destruct (decide (Some (BuildFile dep) ∈ dom g)) as [|Hn]; [done|].
    destruct (Hgood dep (GypError "") Hin). eauto.
  - intros l1 dep l2 g' -> [Hl' Hdom' He]. unfold link_build_file.
    case_bool_decide; [split; [|naive_solver]; eapply adds_ext; [|by apply adds_refl]; naive_solver|].
    case_bool_decide as Hin; rewrite elem_of_elements, Hdom' in Hin; [|by eauto].
    cbn beta iota; case_bool_decide; (split; [|naive_solver]).
    + split; [done..|]. naive_solver.
    + eapply adds_ext; [|apply adds_link; rewrite ?Hdom'; done]. naive_solver.
Qed.

Lemma build_files_elem targets b : b ∈ build_files targets ↔ ∃ t spec, (t, spec) ∈ targets ∧ BuildFile t = b.
Proof.
  unfold build_files, dict_keys. rewrite elem_of_set_of, list_elem_of_fmap. setoid_rewrite list_elem_of_fmap.
  split; [intros (t&->&[t' spec]&->&?)|intros (t&spec&?&<-)]; [by eauto|].
  exists t. split; [done|]. by exists (t, spec).
Qed.

Lemma new_graph_files targets b : Some b ∈ dom (new_graph (build_files targets)) ↔ b ∈ build_files targets.
Proof. rewrite new_graph_dom, list_elem_of_fmap. naive_solver. Qed.

Lemma link_files_adds targets :
  qualified_targets targets →
  match for_each targets (new_graph (build_files targets)) (λ '(target, spec) g,
        dependencies ← get_strs spec "dependencies";
        for_each dependencies g (link_build_file (BuildFile target))) with
  | Ok g => adds (new_graph (build_files targets)) g (λ x y, ∃ item, item ∈ targets ∧ file_edges item x y)
      ∧ ∀ b d, file_requires targets b d → d ∈ build_files targets
  | Err e => (∃ b d, file_requires targets b d ∧ d ∉ build_files targets) ∧ ∃ msg, e = GypError msg
  end.
Proof.
  intros [Hty _].
  set (g0 := new_graph (build_files targets)). set (body := λ '(target, spec) g, _).
  pose (bad' := λ (item : string * pydict) e, (∃ deps dep, get_strs item.2 "dependencies" = Ok deps ∧ dep ∈ deps
       ∧ BuildFile dep ≠ BuildFile item.1 ∧ Some (BuildFile dep) ∉ dom g0) ∧ ∃ msg, e = GypError msg).
  pose proof (for_each_adds targets g0 body file_edges bad' (new_graph_linked _)) as Hloop.
  lapply Hloop; clear Hloop.
  - destruct (for_each targets g0 body) as [g|e].
    + intros [Had Hgood]. split; [done|]. intros b d (t&spec&deps&dep&Hin&<-&Hdeps&Hdep&<-&Hne).
      rewrite <- new_graph_files. destruct (decide (Some (BuildFile dep) ∈ dom g0)) as [|Hn]; [done|].
      destruct (Hgood (t, spec) (GypError "") Hin). split; [|by eexists]. by exists deps, dep.
    + intros ([t spec]&Hin&(deps&dep&Hdeps&Hdep&Hne&Hn)&msg). split; [|done].
      exists (BuildFile t), (BuildFile dep). rewrite <- new_graph_files.
      split; [|done]. by exists t, spec, deps, dep.
  - intros l1 [t spec] l2 g' Heq [Hl Hdg _]. unfold body, bad', file_edges; simpl.
    assert (Hin : (t, spec) ∈ targets) by (rewrite Heq; apply elem_of_app; right; by left).
    pose proof (Hty t spec Hin) as Hok. destruct (get_strs spec "dependencies") as [deps|]; [|done].
    cbn [mbind result_bind].
    pose proof (link_build_file_adds (BuildFile t) deps g' Hl) as Hstep. lapply Hstep; clear Hstep.
    + rewrite <- Hdg. destruct (for_each deps g' _) as [g''|e].
      * intros [Had Hgood]. split; [|naive_solver]. eapply adds_ext; [|exact Had]. naive_solver.
      * intros (dep&?&[??]&?). split; [|done]. by exists deps, dep.
    + rewrite Hdg. apply new_graph_files, build_files_elem. by eauto.
Qed.

Lemma link_file_roots_adds l g :
  linked g → NoDup l → (∀ b, b ∈ l → Some b ∈ dom g) → None ∈ dom g →
  adds g (foldl (λ g b, link_file_root b g) g l)
    (λ x y, ∃ b, b ∈ l ∧ x = Some b ∧ y = None ∧ node_dependencies g (Some b) = []).
Proof.
  intros Hl Hnd Hdom Hroot.
  pose proof (for_each_adds l g (λ b g, Ok (link_file_root b g))
    (λ b x y, x = Some b ∧ y = None ∧ node_dependencies g (Some b) = []) (λ _ _, False) Hl) as Hloop.
  rewrite for_each_pure in Hloop. apply Hloop. clear Hloop.
  intros l1 b l2 g' -> [Hl' Hd' He']. split; [|naive_solver].
  apply NoDup_app in Hnd as (_&Hdisj&_).
  assert (Hsame : ∀ y, y ∈ node_dependencies g' (Some b) ↔ y ∈ node_dependencies g (Some b)).
  { intros y. rewrite He'. split; [|by left]. intros [?|(b'&Hb'&[= <-]&_)]; [done|].
    exfalso. eapply Hdisj; [done|by left]. }
  assert (Hnil : node_dependencies g' (Some b) = [] ↔ node_dependencies g (Some b) = []).
  { split; intros Hn; apply elem_of_nil_inv; intros y Hy; apply Hsame in Hy; rewrite Hn in Hy;
      by apply elem_of_nil in Hy. }
  unfold link_file_root. case_bool_decide as Hc.
  - eapply adds_ext; [|apply adds_link; rewrite ?Hd'; [done|apply Hdom; set_solver|done|done]].
    intros x y. rewrite <- Hnil. naive_solver.
  - eapply adds_ext; [|by apply adds_refl]. intros x y. rewrite <- Hnil. naive_solver.
Qed.

(** The finished graph: an edge per requirement between files, and the root
    below the files that require nothing. *)
Definition file_graph_of targets g : Prop :=
  dom g = dom (new_graph (build_files targets))
  ∧ ∀ x y, y ∈ node_dependencies g x ↔
      (∃ b d, x = Some b ∧ y = Some d ∧ file_requires targets b d)
      ∨ (∃ b, b ∈ build_files targets ∧ x = Some b ∧ y = None ∧ ∀ d, ¬ file_requires targets b d).

Lemma file_edges_requires targets x y :
  (∃ item, item ∈ targets ∧ file_edges item x y) ↔
  ∃ b d, x = Some b ∧ y = Some d ∧ file_requires targets b d.
Proof.
  split.
  - intros ([t spec]&Hin&deps&dep&Hdeps&Hdep&->&->&Hne). eexists _, _. split_and!; [done..|].
    by exists t, spec, deps, dep.
  - intros (b&d&->&->&t&spec&deps&dep&Hin&<-&Hdeps&Hdep&<-&Hne).
    exists (t, spec). split; [done|]. by exists deps, dep.
Qed.

Lemma gyp_file_graph_result targets :
  qualified_targets targets →
  match gyp_file_graph targets with
  | Ok g => linked g ∧ file_graph_of targets g ∧ ∀ b d, file_requires targets b d → d ∈ build_files targets
  | Err e => (∃ b d, file_requires targets b d ∧ d ∉ build_files targets) ∧ ∃ msg, e = GypError msg
  end.
Proof.
  intros Hq. unfold gyp_file_graph. pose proof (link_files_adds targets Hq) as Hlink.
  destruct (for_each targets _ _) as [g|e]; cbn [mbind result_bind]; [|done].
  destruct Hlink as [[Hl Hd He] Hall].
  assert (Hedges : ∀ x y, y ∈ node_dependencies g x ↔
            ∃ b d, x = Some b ∧ y = Some d ∧ file_requires targets b d).
  { intros x y. rewrite He, new_graph_deps, elem_of_nil, file_edges_requires. tauto. }
  destruct (link_file_roots_adds (build_files targets) g) as [Hl' Hd' He'].
  - done.
  - apply NoDup_set_of.
  - intros b Hb. rewrite Hd. by apply new_graph_files.
  - rewrite Hd. apply new_graph_dom. by left.
  - split_and!; [done| |done]. split; [congruence|].
    intros x y. rewrite He', Hedges. apply or_iff_compat_l, exist_proper; intros b.
    do 3 apply and_iff_compat_l. split; intros Hn.
    + intros d Hr. assert (Some d ∈ node_dependencies g (Some b)) as Hin by (apply Hedges; eauto).
      rewrite Hn in Hin. by apply elem_of_nil in Hin.
    + apply elem_of_nil_inv. intros z (b'&d&[= <-]&->&Hr)%Hedges. by apply (Hn d).
Qed.

Lemma file_graph_wf targets g : linked g → file_graph_of targets g → graph_wf g.
Proof.
  intros [He Hr Hc] [Hd Hg]. split; [done|done| | |done].
  - intros m d Hm Hin. apply Hg in Hm as [(b&d'&->&?&_)|(b&_&->&_&Hno)]; [done|].
    apply Hg in Hin as [(b'&d'&[= <-]&->&Hreq)|(_&_&_&->&_)]; [|done]. by destruct (Hno d').
  - intros [b|] Hm Hn; [|done]. intros Hnil. pose proof (new_graph_files targets b) as Hb.
    rewrite <- Hd in Hb. apply Hb in Hm.
    assert (Hno : ∀ y, y ∉ node_dependencies g (Some b)) by (rewrite Hnil; intros y; apply not_elem_of_nil).
    apply (Hno None), Hg. right. exists b. split_and!; [done..|].
    intros d Hreq. apply (Hno (Some d)), Hg. left. eauto.
Qed.

Lemma file_graph_tc targets g b d :
  graph_wf g → file_graph_of targets g → tc (depends g) (Some b) (Some d) ↔ tc (file_requires targets) b d.
Proof.
  intros Hwf [_ Hg].
  assert (Hreq : ∀ b d, depends g (Some b) (Some d) ↔ file_requires targets b d).
  { intros b' d'. unfold depends. rewrite Hg. naive_solver. }
  split.
  - intros Htc. remember (Some b) as m eqn:Hm. remember (Some d) as n eqn:Hn. revert b Hm.
    induction Htc as [m n Hmn|m x n Hmx Htc IH]; intros b ->; subst.
    + apply tc_once. by apply Hreq.
    + destruct x as [x|]; [apply tc_l with x; [by apply Hreq|by apply IH]|].
      exfalso. inversion Htc as [? ? Hd|? ? ? Hd]; subst; unfold depends in Hd;
        rewrite (wf_root g Hwf) in Hd; by apply elem_of_nil in Hd.
  - induction 1; [apply tc_once|eapply tc_l; [|done]]; by apply Hreq.
Qed.

Lemma commonprefix_start l x : x ∈ l → lstarts (commonprefix l) x = true.
Proof.
  assert (Hfold : ∀ (l : list text) (c : text), lstarts (foldl common_prefix c l) c = true
            ∧ ∀ x, x ∈ l → lstarts (foldl common_prefix c l) x = true).
  { clear. assert (Hcp : ∀ a b : text, lstarts (common_prefix a b) a = true ∧ lstarts (common_prefix a b) b = true).
    { intros a b. rewrite !lstarts_spec.
      destruct (common_prefix_split a b) as (a'&b'&Ha&Hb&_). eauto. }
    assert (Htr : ∀ a b c : list Ascii.ascii, lstarts a b = true → lstarts b c = true → lstarts a c = true).
    { intros a b c. rewrite !lstarts_spec. intros [s ->] [s' ->]. exists (s ++ s'). by rewrite app_assoc. }
    intros l. induction l as [|y l IH]; intros c; cbn [foldl].
    - split; [|set_solver]. apply lstarts_spec. exists []. by rewrite app_nil_r.
    - destruct (IH (common_prefix c y)) as [Hc Hx], (Hcp c y) as [Hc1 Hy1]. split; [by eapply Htr|].
      intros x [->|Hin]%elem_of_cons; [by eapply Htr|by apply Hx]. }
  destruct l as [|c l]; [by intros ?%elem_of_nil|]. intros Hx. simpl.
  destruct (Hfold l c) as [? Hl]. apply elem_of_cons in Hx as [->|Hx]; auto.
Qed.

(** Every node of a cycle is a .gyp file of the graph. *)
Lemma is_cycle_files targets g c m :
  graph_wf g → file_graph_of targets g → is_cycle g c → m ∈ c →
  ∃ b, m = Some b ∧ b ∈ build_files targets.
Proof.
  intros Hwf [Hd Hg] Hc Hm. pose proof (is_cycle_tc g c m Hc Hm) as Htc.
  assert (Hlast : ∀ u v, tc (dependent_step g) u v → ∃ x, dependent_step g x v).
  { induction 1; eauto. }
  destruct (Hlast m m Htc) as [y Hy]. apply (wf_edges g Hwf) in Hy.
  pose proof Hy as Hdom. apply node_in_dom in Hdom. rewrite Hd in Hdom.
  destruct m as [b|]; [|rewrite (wf_root g Hwf) in Hy; by apply elem_of_nil in Hy].
  exists b. by rewrite new_graph_files in Hdom.
Qed.

(** VerifyNoGYPFileCircularDependencies, on every outcome. *)
Lemma VerifyNoGYPFile_result targets :
  qualified_targets targets →
  match VerifyNoGYPFileCircularDependencies targets with
  | Ok _ => (∀ b d, file_requires targets b d → d ∈ build_files targets)
            ∧ ∀ b, ¬ tc (file_requires targets) b b
  | Err (GypError _) => ∃ b d, file_requires targets b d ∧ d ∉ build_files targets
  | Err (CircularException _) =>
      (∀ b d, file_requires targets b d → d ∈ build_files targets) ∧ ∃ b, tc (file_requires targets) b b
  | Err _ => False
  end.
Proof.
  intros Hq. unfold VerifyNoGYPFileCircularDependencies. pose proof (gyp_file_graph_result targets Hq) as Hres.
  destruct (gyp_file_graph targets) as [g|e]; cbn [mbind result_bind]; [|by destruct Hres as [? [msg ->]]].
  destruct Hres as (Hl&Hg&Hall). pose proof (file_graph_wf _ _ Hl Hg) as Hwf.
  assert (Hdom : ∀ b, Some b ∈ dom g ↔ b ∈ build_files targets).
  { intros b. destruct Hg as [-> _]. apply new_graph_files. }
  destruct (FlattenToList_result g Hwf) as (flat&->&Hfn&_&Hf). cbn [mbind result_bind].
  assert (Hperm : length flat = length (build_files targets) ↔ ∀ b, b ∈ build_files targets → sn (depends g) (Some b)).
  { assert (Hsub : flat ⊆+ Some <$> build_files targets).
    { apply NoDup_submseteq; [done|]. intros [b|] (Hb&?&_)%Hf; [|done].
      apply list_elem_of_fmap. exists b. split; [done|]. by apply Hdom. }
    split.
    - intros Hlen b Hb. apply submseteq_length_Permutation in Hsub; [|by rewrite length_fmap, Hlen].
      apply Hf. rewrite Hsub. apply list_elem_of_fmap. eauto.
    - intros Hsn. rewrite <- (length_fmap Some (build_files targets)). apply Permutation_length, NoDup_Permutation; [done| |].
      + apply (NoDup_fmap_2 Some), NoDup_set_of.
      + intros m. rewrite Hf, list_elem_of_fmap. destruct m as [b|]; [|naive_solver].
        rewrite Hdom. naive_solver. }
  case_bool_decide as Hlen.
  - split; [done|]. intros b Htc. pose proof Htc as Hb. apply file_graph_tc with (g:=g) in Htc; [|done..].
    apply (sn_no_cycle (depends g) (Some b)); [|done]. apply Hperm; [done|]. apply Hdom.
    by inversion Htc as [? ? Hd|? ? ? Hd]; apply node_in_dom in Hd.
  - destruct (FindCycles_result g None Hwf) as (cycles&->&Hcy&_).
    { destruct Hg as [-> _]. apply new_graph_dom. by left. }
    cbn [mbind result_bind]. set (prefix := commonprefix _).
    assert (Htexts : ∀ c, c ∈ cycles → ∃ text, cycle_text prefix c = Ok text).
    { intros c Hc. unfold cycle_text. destruct (map_result_total (simplified_path prefix) c) as [ps ->];
        [|by eexists]. intros m Hm. destruct (is_cycle_files _ _ _ _ Hwf Hg (Hcy c Hc) Hm) as (b&->&Hb).
      unfold simplified_path. destruct b as [file|].
      - unfold prefix. rewrite (commonprefix_start _ (chars file)); [by eexists|].
        apply list_elem_of_fmap. exists file. split; [done|]. apply list_elem_of_omap. by exists (Some file).
      - apply build_files_elem in Hb as (t&spec&Hin&Hnone). by destruct (qt_names _ Hq _ _ Hin). }
    destruct (map_result_total (cycle_text prefix) cycles Htexts) as [texts ->].
    cbn [mbind result_bind]. split; [done|]. destruct (cycle_or_sn g Hwf) as [[r Hr]|Hsn].
    + exists r. by apply file_graph_tc with g.
    + destruct Hlen. by apply Hperm.
Qed.
End verify.

(** * Properties *)

(** C6: BuildDependencyList decides well-formedness of the targets and sorts them.
    It always returns or raises one of its two errors: it returns exactly when
    every dependency is a target and no target depends on itself through others,
    and then the list is a permutation of the targets in which each target
    follows all of its dependencies; it raises GypError only for a dependency
    that is no target, and CircularException only for a real cycle. *)
Theorem BuildDependencyList_correct `{!SetPop (option string)} (targets : list (string * pydict)) :
  NoDup (dict_keys targets) → dependencies_typed targets →
  match BuildDependencyList targets with
  | Ok (g, flat) =>
      (∀ t d, requires targets t d → d ∈ dict_keys targets) ∧ (∀ t, ¬ tc (requires targets) t t)
      ∧ flat ≡ₚ dict_keys targets
      ∧ (∀ l1 t l2 d, flat = l1 ++ t :: l2 → requires targets t d → d ∈ l1)
      ∧ graph_wf g ∧ graph_of targets g
  | Err (GypError _) => ∃ t d, requires targets t d ∧ d ∉ dict_keys targets
  | Err (CircularException _) =>
      (∀ t d, requires targets t d → d ∈ dict_keys targets) ∧ ∃ t, tc (requires targets) t t
  | Err _ => False
  end.
Proof. apply BuildDependencyList_result. Qed.

(** Targets of two files: [a] needs [b] and [c], which need [d]. *)
Definition sample_targets : list (string * pydict) :=
  [ ("x.gyp:a#target", [("dependencies", VList [VStr "x.gyp:b#target"; VStr "y.gyp:c#target"])]);
    ("x.gyp:b#target", [("dependencies", VList [VStr "y.gyp:d#target"])]);
    ("y.gyp:c#target", [("dependencies", VList [VStr "y.gyp:d#target"])]);
    ("y.gyp:d#target", [("type", VStr "static_library")]) ].

Lemma sample_targets_ok : NoDup (dict_keys sample_targets) ∧ dependencies_typed sample_targets.
Proof.
  split; [by apply (bool_decide_unpack _)|]. intros t spec Hin.
  assert (Forall (λ p, is_ok (spec_dependencies p.2) = true) sample_targets) as Hall
    by (by apply (bool_decide_unpack _)).
  rewrite Forall_forall in Hall. apply (Hall _ Hin).
Qed.

Lemma BuildDependencyList_correct_witness :
  snd <$> BuildDependencyList sample_targets
    = Ok ["y.gyp:d#target"; "x.gyp:b#target"; "y.gyp:c#target"; "x.gyp:a#target"]
  ∧ ∃ g flat, BuildDependencyList sample_targets = Ok (g, flat) ∧ flat ≡ₚ dict_keys sample_targets.
Proof.
  pose proof (BuildDependencyList_correct sample_targets (proj1 sample_targets_ok)
                (proj2 sample_targets_ok)) as Hc.
  assert (Hrun : snd <$> BuildDependencyList sample_targets
    = Ok ["y.gyp:d#target"; "x.gyp:b#target"; "y.gyp:c#target"; "x.gyp:a#target"])
    by (vm_compute; reflexivity).
  split; [exact Hrun|].
  destruct (BuildDependencyList sample_targets) as [[g flat]|e]; [|discriminate Hrun].
  exists g, flat. split; [reflexivity|]. apply Hc.
Defined.

(** C13: VerifyNoGYPFileCircularDependencies accepts exactly the sets of targets
    whose .gyp files do not depend on each other in a circle, and raises
    CircularException for a circle, however the targets are spread over the
    files.  The search for the cycles to report always ends. *)
Theorem VerifyNoGYPFileCircularDependencies_correct `{!SetPop (option (option string))}
    (targets : list (string * pydict)) :
  qualified_targets targets →
  match VerifyNoGYPFileCircularDependencies targets with
  | Ok _ => (∀ b d, file_requires targets b d → d ∈ build_files targets)
            ∧ ∀ b, ¬ tc (file_requires targets) b b
  | Err (GypError _) => ∃ b d, file_requires targets b d ∧ d ∉ build_files targets
  | Err (CircularException _) =>
      (∀ b d, file_requires targets b d → d ∈ build_files targets) ∧ ∃ b, tc (file_requires targets) b b
  | Err _ => False
  end.
Proof. apply VerifyNoGYPFile_result. Qed.

(** Two targets of different files that need each other. *)
Definition circular_targets : list (string * pydict) :=
  [ ("x.gyp:a#target", [("dependencies", VList [VStr "y.gyp:b#target"])]);
    ("y.gyp:b#target", [("dependencies", VList [VStr "x.gyp:c#target"])]);
    ("x.gyp:c#target", []) ].

Lemma circular_targets_ok : qualified_targets circular_targets.
Proof.
  assert (Forall (λ p, is_ok (get_strs p.2 "dependencies") = true ∧ BuildFile p.1 ≠ None) circular_targets) as Hall
    by (by apply (bool_decide_unpack _)).
  rewrite Forall_forall in Hall. split; intros t spec Hin; apply (Hall _ Hin).
Qed.

Lemma VerifyNoGYPFileCircularDependencies_correct_witness :
  ∃ b, tc (file_requires circular_targets) b b.
Proof.
  pose proof (VerifyNoGYPFileCircularDependencies_correct circular_targets circular_targets_ok) as Hc.
  assert (Hrun : VerifyNoGYPFileCircularDependencies circular_targets
    = Err (CircularException ("Cycles in .gyp file dependency graph detected:" +:+ newline)))
    by (vm_compute; reflexivity).
  rewrite Hrun in Hc. apply Hc.
Defined.

(** The cycle of these targets cannot be reached from the root, and the message
    names none. *)
Theorem circular_targets_message :
  VerifyNoGYPFileCircularDependencies circular_targets
    = Err (CircularException ("Cycles in .gyp file dependency graph detected:" +:+ newline)).
Proof. vm_compute. reflexivity. Qed.
