(* ===== verification/Merge.v ===== *)
(** * Merging dictionaries and lists

    The merge algebra of tools/gyp/pylib/gyp/input.py: [IsPathSection],
    [MakePathRelative], [MergeLists] and [MergeDicts], and the globals a generator
    sets.  [merge] is the pair of mutually recursive functions MergeDicts and
    MergeLists, by recursion on the value merged in; [MergeDicts_eq] and
    [MergeLists_eq] unfold it into the loops of the source.

    A merge updates its target in place and makes copies of what it takes from
    the other side, so a pure update of the target says the same. *)
From S2P Require Import Prelude PyDict PyStr PyPath PyVal Common.
From Stdlib Require Import Ascii.

(** ** Globals *)

Definition linkable_types : list string := ["executable"; "shared_library"; "loadable_module"].
Definition dependency_sections : list string := ["dependencies"; "export_dependent_settings"].
Definition base_path_sections : list string :=
  ["destination"; "files"; "include_dirs"; "inputs"; "libraries"; "outputs"; "sources"].
Definition base_non_configuration_keys : list string :=
  ["actions"; "configurations"; "copies"; "default_configuration"; "dependencies";
   "dependencies_original"; "libraries"; "postbuilds"; "product_dir"; "product_extension";
   "product_name"; "product_prefix"; "rules"; "run_as"; "sources";
   "standalone_static_library"; "suppress_wildcard"; "target_name"; "toolset"; "toolsets";
   "type"; "variables"].
Definition invalid_configuration_keys : list string :=
  ["actions"; "all_dependent_settings"; "configurations"; "dependencies";
   "direct_dependent_settings"; "libraries"; "link_settings"; "sources";
   "standalone_static_library"; "target_name"; "type"].

(** The module globals that depend on the generator. *)
Class Globals := {
  path_sections : list string;
  non_configuration_keys : list string;
  multiple_toolsets : bool
}.

(** [SetGeneratorGlobals(generator_input_info)] on the values it takes from the
    generator. *)
Definition SetGeneratorGlobals (info_path_sections info_non_configuration_keys : list string)
    (supports_multiple_toolsets : bool) : Globals := {|
  path_sections := base_path_sections ++ info_path_sections;
  non_configuration_keys := base_non_configuration_keys ++ info_non_configuration_keys;
  multiple_toolsets := supports_multiple_toolsets
|}.

(** ** Paths *)

(** [is_path_section_match_re.search(section)], for the expression
    [_(dir|file|path)s?$]; the dollar sign matches at the end and before a final
    newline. *)
Definition path_section_suffixes : list string :=
  ["_dir"; "_file"; "_path"; "_dirs"; "_files"; "_paths"].
Definition is_path_section_match_re (section : string) : bool :=
  existsb (λ suffix, str_endswith suffix section || str_endswith (suffix +:+ newline) section)
    path_section_suffixes.

Section merge.
Context `{Globals} `{RealPath}.

(** [IsPathSection(section)]; the loop drops the trailing characters [=+?!]. *)
Definition IsPathSection (section : string) : bool :=
  let section := of_chars (rstrip (λ c, c in? ["="; "+"; "?"; "!"]%char) (chars section)) in
  (section in? path_sections) || is_path_section_match_re section.

(** [exception_re.match(item)], for the expression [[-/$<>^]] after at most one
    quote. *)
Definition exception_char (c : ascii) : bool := c in? ["-"; "/"; "$"; "<"; ">"; "^"]%char.
Definition exception_re (item : string) : bool :=
  match chars item with
  | [] => false
  | c :: l =>
      exception_char c
      || ((c in? ["034"; "'"]%char) && match l with c :: _ => exception_char c | [] => false end)
  end.

(** [MakePathRelative(to_file, fro_file, item)]; [item[-1]] raises for the empty
    string. *)
Definition MakePathRelative (to_file fro_file item : string) : result string :=
  if (to_file ==? fro_file) || exception_re item then Ok item
  else
    let ret := p_normpath (p_join (RelativePath (p_dirname (chars fro_file)) (p_dirname (chars to_file)))
                             (chars item)) in
    let ret := (λ c : ascii, if c ==? "\"%char then slash else c) <$> ret in
    match str_last item with
    | None => Err IndexError
    | Some c => Ok (of_chars (if c ==? slash then ret ++ [slash] else ret))
    end.

(** The same on a string or integer: matching an integer is a TypeError. *)
Definition make_path_relative (to_file fro_file : string) (item : pyval) : result pyval :=
  match item with
  | VStr s => VStr <$> MakePathRelative to_file fro_file s
  | _ => if to_file ==? fro_file then Ok item else Err (TypeError "expected string or buffer")
  end.

(** ** MergeLists *)

(** The locals of MergeLists: the list merged into, the set of its hashable
    items, and the index at which the next item is prepended. *)
Record merge_lists_state := MLState {
  ml_to : list pyval;
  ml_hashable_to_set : list pyval;
  ml_prepend_index : nat
}.

Definition is_hashable (v : pyval) : bool := is_str v || is_int v.
Definition is_in_set_or_list (x : pyval) (s l : list pyval) : bool :=
  if is_hashable x then py_in x s else py_in x l.

Definition merge_lists_start (to : list pyval) : merge_lists_state :=
  MLState to (filter (λ x, is_hashable x = true) to) 0.

(** [while to_item in to: to.remove(to_item)] *)
Definition remove_all (x : pyval) (l : list pyval) : list pyval :=
  filter (λ y, py_eq x y = false) l.

(** The item to add and whether it is a singleton; [merge_item] merges the item
    into the value it is given. *)
Definition merge_to_item (to_file fro_file : string) (is_paths : bool) (item : pyval)
    (merge_item : pyval → bool → bool → result pyval) : result (pyval * bool) :=
  match item with
  | VStr s =>
      to_item ← (if is_paths then make_path_relative to_file fro_file item else Ok item);
      Ok (to_item, negb (str_startswith "-" s))
  | VInt _ =>
      to_item ← (if is_paths then make_path_relative to_file fro_file item else Ok item);
      Ok (to_item, true)
  | VDict _ => to_item ← merge_item (VDict []) false true; Ok (to_item, false)
  | VList _ => to_item ← merge_item (VList []) false true; Ok (to_item, false)
  end.

(** What one iteration does with the item. *)
Definition merge_add (append : bool) (to_item : pyval) (singleton : bool) (st : merge_lists_state) :
    merge_lists_state :=
  let '(MLState to hashable_to_set prepend_index) := st in
  let hashable_to_set' := if is_hashable to_item then hashable_to_set ++ [to_item] else hashable_to_set in
  if append then
    if negb singleton || negb (is_in_set_or_list to_item hashable_to_set to)
    then MLState (to ++ [to_item]) hashable_to_set' prepend_index
    else st
  else
    let to := if singleton then remove_all to_item to else to in
    MLState (take prepend_index to ++ to_item :: drop prepend_index to) hashable_to_set' (S prepend_index).

Definition merge_list_item (to_file fro_file : string) (is_paths append : bool) (item : pyval)
    (merge_item : pyval → bool → bool → result pyval) (st : merge_lists_state) : result merge_lists_state :=
  '(to_item, singleton) ← merge_to_item to_file fro_file is_paths item merge_item;
  Ok (merge_add append to_item singleton st).

(** ** MergeDicts *)

Definition is_scalar (v : pyval) : bool := is_str v || is_int v.

(** The check of an existing key: [bad_merge]. *)
Definition bad_merge (v old : pyval) : bool :=
  if is_scalar v then negb (is_scalar old) else negb (class_name v ==? class_name old).

Definition bad_merge_error (v old : pyval) (key : string) : exn :=
  TypeError ("Attempt to merge dict value of type " +:+ class_name v +:+ " into incompatible type "
             +:+ class_name old +:+ " for key " +:+ key).

(** The list policy named by the last character of the key: the key of the list
    and the keys it cannot be combined with. *)
Definition list_policy (k : string) (ext : ascii) : string * list string :=
  if (ext ==? "="%char) then let b := str_init k in (b, [b; b +:+ "?"])
  else if (ext ==? "+"%char) then let b := str_init k in (b, [b +:+ "="; b +:+ "?"])
  else if (ext ==? "?"%char) then let b := str_init k in (b, [b; b +:+ "="; b +:+ "+"])
  else (k, [k +:+ "="; k +:+ "?"]).

(** The branch of MergeDicts for a list. *)
Definition merge_dict_list (k : string) (v : pyval) (fro : pydict)
    (merge_v : pyval → bool → bool → result pyval) (to : pydict) : result pydict :=
  match str_last k with
  | None => Err IndexError
  | Some ext =>
      let '(list_base, lists_incompatible) := list_policy k ext in
      let append := negb (ext ==? "+"%char) in
      let to := if (ext ==? "="%char) then dict_set to list_base (VList []) else to in
      _ ← for_each lists_incompatible tt (λ list_incompatible _,
            raise_if (dict_mem fro list_incompatible)
              (GypError ("Incompatible list policies " +:+ k +:+ " and " +:+ list_incompatible)));
      match dict_get to list_base with
      | Some old =>
          if (ext ==? "?"%char) then Ok to
          else if is_list old
          then l ← merge_v old (IsPathSection list_base) append; Ok (dict_set to list_base l)
          else Err (bad_merge_error v old (list_base +:+ "(" +:+ k +:+ ")"))
      | None =>
          l ← merge_v (VList []) (IsPathSection list_base) append; Ok (dict_set to list_base l)
      end
  end.

(** One iteration of MergeDicts. *)
Definition merge_dict_item (to_file fro_file : string) (fro : pydict) (k : string) (v : pyval)
    (merge_v : pyval → bool → bool → result pyval) (to : pydict) : result pydict :=
  _ ← match dict_get to k with
      | Some old => raise_if (bad_merge v old) (bad_merge_error v old k)
      | None => Ok tt
      end;
  match v with
  | VStr _ | VInt _ =>
      x ← (if IsPathSection k then make_path_relative to_file fro_file v else Ok v);
      Ok (dict_set to k x)
  | VDict _ =>
      x ← merge_v (default (VDict []) (dict_get to k)) false true;
      Ok (dict_set to k x)
  | VList _ => merge_dict_list k v fro merge_v to
  end.

(** [merge fro to is_paths append] is MergeDicts on dictionaries and MergeLists
    on lists. *)
Fixpoint merge (to_file fro_file : string) (fro to : pyval) (is_paths append : bool) {struct fro} : result pyval :=
  match fro with
  | VDict d =>
      to ← as_dict to;
      to ← (fix go items to := match items with
        | [] => Ok to
        | (k, v) :: items =>
            to ← merge_dict_item to_file fro_file d k v (merge to_file fro_file v) to; go items to
        end) d to;
      Ok (VDict to)
  | VList l =>
      to ← as_list to;
      st ← (fix go items st := match items with
        | [] => Ok st
        | item :: items =>
            st ← merge_list_item to_file fro_file is_paths append item (merge to_file fro_file item) st;
            go items st
        end) l (merge_lists_start to);
      Ok (VList (ml_to st))
  | _ => Err (TypeError (class_name fro))
  end.

(** [MergeDicts(to, fro, to_file, fro_file)] *)
Definition MergeDicts (to fro : pydict) (to_file fro_file : string) : result pydict :=
  v ← merge to_file fro_file (VDict fro) (VDict to) false true; as_dict v.

(** [MergeLists(to, fro, to_file, fro_file, is_paths, append)] *)
Definition MergeLists (to fro : list pyval) (to_file fro_file : string) (is_paths append : bool) :
    result (list pyval) :=
  v ← merge to_file fro_file (VList fro) (VList to) is_paths append; as_list v.

Lemma MergeDicts_eq to fro to_file fro_file :
  MergeDicts to fro to_file fro_file =
    for_each fro to (λ '(k, v) to, merge_dict_item to_file fro_file fro k v (merge to_file fro_file v) to).
Proof.
  unfold MergeDicts. cbn [merge as_dict mbind result_bind].
  assert (Hgo : ∀ items to, (fix go items to := match items with
      | [] => Ok to
      | (k, v) :: items =>
          to ← merge_dict_item to_file fro_file fro k v (merge to_file fro_file v) to; go items to
      end) items to =
    for_each items to (λ '(k, v) to, merge_dict_item to_file fro_file fro k v (merge to_file fro_file v) to)).
  { intros items. induction items as [|[k v] items IH]; intros d; [done|].
    cbn [for_each]. destruct (merge_dict_item _ _ _ _ _ _ _); [apply IH|done]. }
  rewrite Hgo. by destruct (for_each _ _ _).
Qed.

Lemma MergeLists_eq to fro to_file fro_file is_paths append :
  MergeLists to fro to_file fro_file is_paths append =
    ml_to <$> for_each fro (merge_lists_start to) (λ item st,
      merge_list_item to_file fro_file is_paths append item (merge to_file fro_file item) st).
Proof.
  unfold MergeLists. cbn [merge as_list mbind result_bind].
  assert (Hgo : ∀ items st, (fix go items st := match items with
      | [] => Ok st
      | item :: items =>
          st ← merge_list_item to_file fro_file is_paths append item (merge to_file fro_file item) st;
          go items st
      end) items st =
    for_each items st (λ item st,
      merge_list_item to_file fro_file is_paths append item (merge to_file fro_file item) st)).
  { intros items. induction items as [|item items IH]; intros st; [done|].
    cbn [for_each]. destruct (merge_list_item _ _ _ _ _ _ _); [apply IH|done]. }
  rewrite Hgo. by destruct (for_each _ _ _).
Qed.
End merge.

(** * Theorems on lists *)

(** A value that can occur only once in a merged list. *)
Definition is_singleton (v : pyval) : bool :=
  match v with VStr s => negb (str_startswith "-" s) | VInt _ => true | _ => false end.

(** How often [x] occurs in [l]. *)
Definition occurrences (x : pyval) (l : list pyval) : nat := length (filter (eq x) l).

Lemma py_in_scalar x l : is_scalar x = true → py_in x l = true ↔ x ∈ l.
Proof. destruct x; intros; try done; [apply py_in_str|apply py_in_int]. Qed.

Lemma py_eq_scalar x y : is_scalar x = true → py_eq x y = true ↔ y = x.
Proof. destruct x; intros; try done; [apply py_eq_str|apply py_eq_int]. Qed.

Lemma occurrences_cons x y l : occurrences x (y :: l) = (if decide (x = y) then 1 else 0) + occurrences x l.
Proof. unfold occurrences. rewrite filter_cons. by case_decide. Qed.

Lemma occurrences_app x l1 l2 : occurrences x (l1 ++ l2) = occurrences x l1 + occurrences x l2.
Proof. unfold occurrences. by rewrite filter_app, length_app. Qed.

Lemma occurrences_zero x l : occurrences x l = 0 ↔ x ∉ l.
Proof.
  unfold occurrences. rewrite length_zero_iff_nil. split.
  - intros Hn Hx. eapply filter_nil_not_elem_of; eauto.
  - intros Hx. apply elem_of_nil_inv. intros y [-> ?]%list_elem_of_filter. done.
Qed.

Section merge_lists.
Context `{Globals} `{RealPath}.
Implicit Types (st : merge_lists_state) (to fro : list pyval) (x : pyval).

(** The set is a copy of the hashable items of the list. *)
Definition mirrors st : Prop :=
  ∀ x, is_hashable x = true → x ∈ ml_hashable_to_set st ↔ x ∈ ml_to st.

Lemma mirrors_start to : mirrors (merge_lists_start to).
Proof. intros x Hx. simpl. rewrite list_elem_of_filter. naive_solver. Qed.

Lemma mirrors_add append x singleton st :
  (singleton = true → is_scalar x = true) → mirrors st → mirrors (merge_add append x singleton st).
Proof.
  destruct st as [to s i]. intros Hsc Hm y Hy. specialize (Hm y Hy). simpl in Hm. unfold merge_add.
  assert (Hset : y ∈ (if is_hashable x then s ++ [x] else s) ↔ y = x ∨ y ∈ s).
  { destruct (is_hashable x) eqn:Hx; [rewrite elem_of_app, list_elem_of_singleton; tauto|].
    split; [by right|]. intros [->|]; [congruence|done]. }
  destruct append.
  - destruct (negb singleton || _); cbn [ml_to ml_hashable_to_set]; [|done]. rewrite Hset, elem_of_app, list_elem_of_singleton. tauto.
  - cbn [ml_to ml_hashable_to_set]. rewrite Hset.
    set (to' := if singleton then remove_all x to else to).
    assert (Hto : y = x ∨ y ∈ to ↔ y = x ∨ y ∈ to').
    { subst to'. destruct singleton; [|done]. unfold remove_all. rewrite list_elem_of_filter.
      destruct (decide (y = x)) as [->|Hne]; [tauto|].
      destruct (py_eq x y) eqn:Heq; [|tauto]. apply py_eq_scalar in Heq; [done|by apply Hsc]. }
    rewrite Hm, Hto. rewrite <- (take_drop i to') at 1. rewrite !elem_of_app, elem_of_cons. tauto.
Qed.

(** Without paths to fix, a merge of scalars only moves them. *)
Lemma MergeLists_scalars to fro to_file fro_file is_paths append :
  Forall (λ x, is_scalar x = true) fro → (is_paths = false ∨ to_file = fro_file) →
  MergeLists to fro to_file fro_file is_paths append =
    Ok (ml_to (foldl (λ st x, merge_add append x (is_singleton x) st) (merge_lists_start to) fro)).
Proof.
  intros Hsc Hp. rewrite MergeLists_eq. generalize (merge_lists_start to) as st.
  induction Hsc as [|x fro Hx _ IH]; intros st; [done|]. cbn [for_each foldl]. rewrite <- IH. f_equal.
  unfold merge_list_item.
  assert (merge_to_item to_file fro_file is_paths x (merge to_file fro_file x) = Ok (x, is_singleton x)) as ->;
    [|done].
  assert (Hpath : make_path_relative to_file fro_file x = Ok x ∨ is_paths = false).
  { destruct Hp as [->| ->]; [by right|]. left. unfold make_path_relative, MakePathRelative.
    rewrite bool_decide_eq_true_2 by done. by destruct x. }
  destruct x; simpl in Hx; try done; simpl; (destruct Hpath as [Hpath| ->]; [|done]);
    simpl in Hpath; (destruct is_paths; [by rewrite Hpath|done]).
Qed.

(** Appending: what one item adds. *)
Lemma merge_append_item x st :
  mirrors st → is_scalar x = true →
  ml_to (merge_add true x (is_singleton x) st) =
    if is_singleton x && py_in x (ml_to st) then ml_to st else ml_to st ++ [x].
Proof.
  destruct st as [to s i]. intros Hm Hx. unfold merge_add, is_in_set_or_list.
  assert (Hh : is_hashable x = true) by done. rewrite Hh.
  assert (py_in x s = py_in x to) as ->.
  { apply eq_true_iff_eq. rewrite !py_in_scalar by done. by apply Hm. }
  rewrite <- negb_andb. simpl. by destruct (_ && _).
Qed.

Lemma merge_append_result fro st :
  mirrors st → Forall (λ x, is_scalar x = true) fro →
  ∃ new, ml_to (foldl (λ st x, merge_add true x (is_singleton x) st) st fro) = ml_to st ++ new
    ∧ new `sublist_of` fro
    ∧ ∀ x, is_scalar x = true → occurrences x (ml_to st ++ new) =
        if is_singleton x
        then (if decide (x ∈ ml_to st) then occurrences x (ml_to st) else if decide (x ∈ fro) then 1 else 0)
        else occurrences x (ml_to st) + occurrences x fro.
Proof.
  intros Hm Hsc. revert st Hm; induction Hsc as [|y fro Hy _ IH]; intros st Hm; cbn [foldl].
  { exists []. split_and!; [by rewrite app_nil_r|done|]. intros x Hx. rewrite app_nil_r.
    destruct (is_singleton x); [|change (occurrences x []) with 0; lia].
    case_decide; [done|]. rewrite decide_False by apply not_elem_of_nil. by apply occurrences_zero. }
  destruct (IH (merge_add true y (is_singleton y) st)) as (new&->&Hsub&Hocc).
  { apply mirrors_add; [|done]. by destruct y. }
  clear IH. rewrite merge_append_item in * by done.
  destruct (is_singleton y && py_in y (ml_to st)) eqn:Hin.
  - exists new. split_and!; [done|by apply sublist_cons|]. intros x Hx. rewrite Hocc by done.
    apply andb_true_iff in Hin as [Hs Hin]. apply py_in_scalar in Hin; [|done].
    rewrite occurrences_cons. destruct (is_singleton x) eqn:Hsx.
    + destruct (decide (x ∈ ml_to st)); [done|]. apply decide_ext. rewrite elem_of_cons. naive_solver.
    + rewrite decide_False by congruence. done.
  - exists (y :: new). rewrite <- app_assoc in *. split_and!; [done|by apply sublist_skip|].
    intros x Hx. simpl in Hocc. rewrite Hocc by done. rewrite occurrences_app, !occurrences_cons.
    change (occurrences x []) with 0. destruct (is_singleton x) eqn:Hsx; [|lia].
    apply andb_false_iff in Hin.
    assert (Hy' : x = y → y ∉ ml_to st).
    { intros ->. destruct Hin as [Hin|Hin]; [congruence|]. rewrite <- py_in_scalar by done. congruence. }
    destruct (decide (x = y)) as [->|Hne].
    + assert (y ∉ ml_to st) as Hno by auto.
      rewrite (decide_True (P:=y ∈ ml_to st ++ [y])) by (apply elem_of_app; right; by left).
      rewrite (decide_False (P:=y ∈ ml_to st)) by done.
      rewrite (decide_True (P:=y ∈ y :: fro)) by (by left).
      rewrite (proj2 (occurrences_zero _ _) Hno). lia.
    + assert (x ∈ ml_to st ++ [y] ↔ x ∈ ml_to st) as Heq by set_solver.
      assert (x ∈ y :: fro ↔ x ∈ fro) as Heq' by set_solver.
      destruct (decide (x ∈ ml_to st)), (decide (x ∈ ml_to st ++ [y])); try tauto; [lia|].
      destruct (decide (x ∈ fro)), (decide (x ∈ y :: fro)); tauto || lia.
Qed.

Lemma remove_all_free x l : is_scalar x = true → x ∉ l → remove_all x l = l.
Proof.
  intros Hx Hl. unfold remove_all. apply list_filter_all. intros y Hy.
  destruct (py_eq x y) eqn:He; [|done]. apply py_eq_scalar in He as ->; done.
Qed.

Lemma remove_all_filter x l : is_scalar x = true → remove_all x l = filter (λ y, y ≠ x) l.
Proof.
  intros Hx. unfold remove_all. apply list_filter_iff. intros y.
  rewrite <- not_true_iff_false, py_eq_scalar by done. done.
Qed.

Lemma merge_prepend_result fro done_ rest s :
  Forall (λ x, is_scalar x = true) fro →
  NoDup (filter (λ x, is_singleton x = true) fro) →
  (∀ x, x ∈ done_ → is_singleton x = true → x ∉ fro) →
  ml_to (foldl (λ st x, merge_add false x (is_singleton x) st) (MLState (done_ ++ rest) s (length done_)) fro)
  = done_ ++ fro ++ filter (λ y, ¬ (is_singleton y = true ∧ y ∈ fro)) rest.
Proof.
  intros Hsc. revert done_ rest s; induction Hsc as [|x fro Hx _ IH]; intros done_ rest s Hnd Hdone; simpl.
  { f_equal. symmetry. apply list_filter_all. intros y _ [_ ?%elem_of_nil]. done. }
  rewrite filter_cons in Hnd.
  set (rest' := if is_singleton x then remove_all x rest else rest).
  assert (Hrem : (if is_singleton x then remove_all x (done_ ++ rest) else done_ ++ rest) = done_ ++ rest').
  { subst rest'. destruct (is_singleton x) eqn:Hs; [|done].
    rewrite !remove_all_filter, filter_app by done. f_equal. apply list_filter_all.
    intros y Hy ->. by apply (Hdone x); [..|by left]. }
  rewrite Hrem, take_app_length, drop_app_length.
  replace (done_ ++ x :: rest') with ((done_ ++ [x]) ++ rest') by (by rewrite <- app_assoc).
  replace (S (length done_)) with (length (done_ ++ [x])) by (rewrite length_app; simpl; lia).
  rewrite IH.
  - rewrite <- !app_assoc. simpl. do 3 f_equal. subst rest'. destruct (is_singleton x) eqn:Hs.
    + rewrite remove_all_filter, list_filter_filter by done. apply list_filter_iff.
      intros y. rewrite elem_of_cons. naive_solver.
    + apply list_filter_iff. intros y. rewrite elem_of_cons.
      split; intros Hn [Hy Hin]; apply Hn; (split; [done|]); [|by right].
      destruct Hin as [->|?]; [congruence|done].
  - destruct (decide (is_singleton x = true)); [by apply NoDup_cons in Hnd as []|done].
  - intros y [Hy| ->%list_elem_of_singleton]%elem_of_app Hs Hin.
    + apply (Hdone y); [done..|by right].
    + rewrite decide_True in Hnd by done. apply NoDup_cons in Hnd as [Hn _]. apply Hn.
      by apply list_elem_of_filter.
Qed.
End merge_lists.

(** * Theorems on dictionaries *)

(** A key that names no list policy. *)
Definition plain_key (k : string) : bool :=
  match str_last k with
  | Some c => negb (c in? ["="; "+"; "?"]%char)
  | None => false
  end.

Lemma str_last_snoc s c : str_last (s +:+ String c "") = Some c.
Proof. unfold str_last. rewrite chars_app. by apply last_snoc. Qed.

Section merge_dicts.
Context `{Globals} `{RealPath}.
Implicit Types (to fro : pydict) (k : string) (v x : pyval).

(** What becomes of one key: the value [v] merged into the value there was. *)
Definition value_merge (to_file fro_file : string) k v (old : option pyval) : result pyval :=
  _ ← match old with
      | Some o => raise_if (bad_merge v o) (bad_merge_error v o k)
      | None => Ok tt
      end;
  match v with
  | VStr _ | VInt _ => if IsPathSection k then make_path_relative to_file fro_file v else Ok v
  | VDict _ => merge to_file fro_file v (default (VDict []) old) false true
  | VList _ => merge to_file fro_file v (default (VList []) old) (IsPathSection k) true
  end.

Definition plain_dict fro : bool := forallb plain_key (dict_keys fro).

Lemma plain_dict_key fro k : plain_dict fro = true → k ∈ dict_keys fro → plain_key k = true.
Proof. unfold plain_dict. rewrite forallb_forall. intros Hp Hk. apply Hp. by apply list_elem_of_In. Qed.

Lemma plain_dict_suffix fro k c :
  plain_dict fro = true → c ∈ ["="; "+"; "?"]%char → dict_mem fro (k +:+ String c "") = false.
Proof.
  intros Hp Hc. apply dict_mem_false. intros Hk. apply (plain_dict_key _ _ Hp) in Hk.
  unfold plain_key in Hk. rewrite str_last_snoc in Hk. by rewrite bool_decide_eq_true_2 in Hk.
Qed.

Lemma merge_dict_item_plain to_file fro_file fro k v to :
  plain_dict fro = true → plain_key k = true →
  merge_dict_item to_file fro_file fro k v (merge to_file fro_file v) to =
    dict_set to k <$> value_merge to_file fro_file k v (dict_get to k).
Proof.
  intros Hfro Hk. unfold merge_dict_item, value_merge.
  destruct (match dict_get to k with Some _ => _ | None => _ end) as [[]|e] eqn:Hbad; cbn [mbind result_bind]; [|done].
  destruct v as [s|z|l|d]; [by destruct (if IsPathSection k then _ else _)..| |by destruct (merge _ _ _ _ _ _)].
  unfold merge_dict_list. unfold plain_key in Hk. destruct (str_last k) as [c|]; [|done].
  assert (c ≠ "="%char ∧ c ≠ "+"%char ∧ c ≠ "?"%char) as (?&?&?).
  { split_and!; intros ->; by vm_compute in Hk. }
  unfold list_policy. rewrite !(bool_decide_eq_false_2 (c = _)) by done.
  cbn [for_each mbind result_bind negb].
  rewrite !(plain_dict_suffix fro k) by (done || set_solver). cbn [raise_if mbind result_bind].
  destruct (dict_get to k) as [old|]; cbn [default].
  - assert (is_list old = true) as ->; [|by destruct (merge _ _ _ _ _ _)].
    simpl in Hbad. unfold bad_merge in Hbad. simpl in Hbad.
    destruct old; simpl in *; done.
  - by destruct (merge _ _ _ _ _ _).
Qed.

(** A merge of plain keys goes key by key: in whatever order the dictionary is
    iterated, each key ends with its own value merged into the one that was
    there, and other keys keep theirs. *)
Lemma MergeDicts_plain to fro to_file fro_file :
  dict_wf fro → plain_dict fro = true →
  match MergeDicts to fro to_file fro_file with
  | Ok to' => ∀ k, match dict_get fro k with
      | None => dict_get to' k = dict_get to k
      | Some v => ∃ x, value_merge to_file fro_file k v (dict_get to k) = Ok x ∧ dict_get to' k = Some x
      end
  | Err e => ∃ k v, (k, v) ∈ fro ∧ value_merge to_file fro_file k v (dict_get to k) = Err e
  end.
Proof.
  intros Hwf Hp. rewrite MergeDicts_eq.
  assert (Hgen : ∀ items to, dict_wf items → (∀ k, k ∈ dict_keys items → plain_key k = true) →
    match for_each items to (λ '(k, v) to, merge_dict_item to_file fro_file fro k v (merge to_file fro_file v) to) with
    | Ok to' => ∀ k, match dict_get items k with
        | None => dict_get to' k = dict_get to k
        | Some v => ∃ x, value_merge to_file fro_file k v (dict_get to k) = Ok x ∧ dict_get to' k = Some x
        end
    | Err e => ∃ k v, (k, v) ∈ items ∧ value_merge to_file fro_file k v (dict_get to k) = Err e
    end).
  { clear to. intros items. induction items as [|[k v] items IH]; intros to Hw Hk; [done|].
    apply NoDup_cons in Hw as [Hnew Hw]. cbn [for_each].
    rewrite merge_dict_item_plain by (done || apply Hk; by left).
    destruct (value_merge _ _ k v _) as [x|e] eqn:Hx; cbn [fmap result_fmap mbind result_bind].
    - specialize (IH (dict_set to k x) Hw (λ k' Hk', Hk k' (list_elem_of_further _ _ _ Hk'))).
      destruct (for_each items _ _) as [to'|e].
      + intros k'. cbn [dict_get]. specialize (IH k'). case_decide as Heq; subst.
        * exists x. split; [done|]. rewrite (proj2 (dict_get_None items k')) in IH by done.
          by rewrite IH, dict_get_set_eq.
        * by rewrite dict_get_set_ne in IH by done.
      + destruct IH as (k'&v'&Hin&He). exists k', v'. split; [by right|].
        rewrite dict_get_set_ne in He; [done|]. intros ->. apply Hnew.
        apply list_elem_of_fmap. by exists (k', v').
    - exists k, v. split; [by left|done]. }
  apply Hgen; [done|]. intros k. by apply plain_dict_key.
Qed.
End merge_dicts.

(** * Copies *)

(** A value in the form a merge leaves it in: the keys are distinct and plain, and
    no list repeats an item that may occur only once. *)
Fixpoint normal (v : pyval) : bool :=
  match v with
  | VStr _ | VInt _ => true
  | VList l =>
      bool_decide (NoDup (filter (λ x, is_singleton x = true) l)) && forallb normal l
  | VDict d =>
      bool_decide (NoDup (dict_keys d)) && plain_dict d && forallb (λ p, normal p.2) d
  end.

Section copies.
Context `{Globals} `{RealPath}.
Implicit Types (v x : pyval).

Lemma make_path_relative_same f v : make_path_relative f f v = Ok v.
Proof.
  unfold make_path_relative, MakePathRelative. rewrite bool_decide_eq_true_2 by done. by destruct v.
Qed.

(** The empty value of the same class. *)
Definition empty_of v : pyval :=
  match v with VDict _ => VDict [] | VList _ => VList [] | _ => v end.

Lemma merge_list_item_copy f is_paths v st :
  (is_scalar v = false → ∀ b, merge f f v (empty_of v) b true = Ok v) →
  merge_list_item f f is_paths true v (merge f f v) st = Ok (merge_add true v (is_singleton v) st).
Proof.
  intros Hcopy. unfold merge_list_item.
  assert (merge_to_item f f is_paths v (merge f f v) = Ok (v, is_singleton v)) as ->; [|done].
  destruct v as [s|z|l|d]; cbn [merge_to_item is_singleton].
  - destruct is_paths; [rewrite make_path_relative_same|]; done.
  - destruct is_paths; [rewrite make_path_relative_same|]; done.
  - cbn [empty_of] in Hcopy. by rewrite Hcopy.
  - cbn [empty_of] in Hcopy. by rewrite Hcopy.
Qed.

Lemma merge_append_fresh x (st : merge_lists_state) :
  mirrors st → (is_singleton x = true → x ∉ ml_to st) →
  ml_to (merge_add true x (is_singleton x) st) = ml_to st ++ [x].
Proof.
  intros Hm Hx. destruct (is_scalar x) eqn:Hsc.
  - rewrite merge_append_item by done. destruct (is_singleton x); [|done].
    destruct (py_in x (ml_to st)) eqn:Hin; [|done]. apply py_in_scalar in Hin; [|done]. by destruct Hx.
  - destruct st, x; simpl in *; done.
Qed.

Lemma merge_list_copy f l st is_paths :
  Forall (λ v, is_scalar v = false → ∀ b, merge f f v (empty_of v) b true = Ok v) l →
  mirrors st → NoDup (filter (λ x, is_singleton x = true) (ml_to st ++ l)) →
  ml_to <$> for_each l st (λ item st, merge_list_item f f is_paths true item (merge f f item) st)
    = Ok (ml_to st ++ l).
Proof.
  intros Hl. revert st; induction Hl as [|x l Hx _ IH]; intros st Hm Hnd; cbn [for_each].
  { by rewrite app_nil_r. }
  rewrite merge_list_item_copy by done. cbn [mbind result_bind].
  assert (Hfresh : ml_to (merge_add true x (is_singleton x) st) = ml_to st ++ [x]).
  { apply merge_append_fresh; [done|]. intros Hs Hin. rewrite filter_app, filter_cons_True in Hnd by done.
    apply NoDup_app in Hnd as (_&Hd&_). apply (Hd x); [by apply list_elem_of_filter|by left]. }
  rewrite IH.
  - by rewrite Hfresh, <- app_assoc.
  - apply mirrors_add; [by destruct x|done].
  - by rewrite Hfresh, <- app_assoc.
Qed.

Lemma merge_dict_copy f fro items to :
  plain_dict fro = true → plain_dict items = true →
  Forall (λ p, is_scalar p.2 = false → ∀ b, merge f f p.2 (empty_of p.2) b true = Ok p.2) items →
  dict_wf (to ++ items) →
  for_each items to (λ '(k, v) to, merge_dict_item f f fro k v (merge f f v) to) = Ok (to ++ items).
Proof.
  intros Hfro. revert to; induction items as [|[k v] items IH]; intros to Hp Hc Hwf.
  { by rewrite app_nil_r. }
  inversion Hc as [|? ? Hv Hc']; subst. simpl in Hv.
  unfold plain_dict in Hp. cbn in Hp. apply andb_true_iff in Hp as [Hk Hp].
  assert (Hnew : k ∉ dict_keys to).
  { intros Hin. unfold dict_wf, dict_keys in Hwf. rewrite fmap_app in Hwf.
    apply NoDup_app in Hwf as (_&Hd&_). apply (Hd k); [done|by left]. }
  cbn [for_each]. rewrite merge_dict_item_plain by done. apply dict_get_None in Hnew as Hget.
  assert (value_merge f f k v (dict_get to k) = Ok v) as ->.
  { rewrite Hget. unfold value_merge. cbn [mbind result_bind default].
    destruct v as [s|z|l|d]; [by destruct (IsPathSection k); rewrite ?make_path_relative_same..| |].
    - by apply Hv.
    - by apply Hv. }
  cbn [fmap result_fmap mbind result_bind]. rewrite dict_set_new by done. rewrite IH; [by rewrite <- app_assoc|done..|].
  by rewrite <- app_assoc.
Qed.

(** Merging a normal value into the empty one copies it. *)
Lemma merge_copy f v :
  normal v = true → is_scalar v = false → ∀ is_paths, merge f f v (empty_of v) is_paths true = Ok v.
Proof.
  induction v as [s|z|l IH|d IH] using pyval_ind; intros Hn Hs b; [done..| |]; cbn [normal] in Hn;
    repeat (apply andb_true_iff in Hn as [Hn ?]).
  - pose proof (MergeLists_eq [] l f f b true) as Heq. unfold MergeLists in Heq. cbn [empty_of] in *.
    rewrite (merge_list_copy f l (merge_lists_start []) b) in Heq.
    + destruct (merge f f (VList l) (VList []) b true) as [v|]; [|done].
      destruct v; simpl in Heq; by simplify_eq.
    + rewrite Forall_forall in IH |- *. intros x Hx. apply IH; [done|].
      match goal with Hf : forallb _ _ = true |- _ =>
        rewrite forallb_forall in Hf; by apply (Hf x), list_elem_of_In end.
    + apply mirrors_start.
    + by apply bool_decide_eq_true in Hn.
  - pose proof (MergeDicts_eq [] d f f) as Heq. unfold MergeDicts in Heq. cbn [empty_of] in *.
    rewrite (merge_dict_copy f d d []) in Heq; [|done..| |].
    + change (merge f f (VDict d) (VDict []) b true) with (merge f f (VDict d) (VDict []) false true).
      destruct (merge f f (VDict d) (VDict []) false true) as [v|]; [|done].
      destruct v; simpl in Heq; by simplify_eq.
    + rewrite Forall_forall in IH |- *. intros x Hx. apply IH; [done|].
      match goal with Hf : forallb _ _ = true |- _ =>
        rewrite forallb_forall in Hf; by apply (Hf x), list_elem_of_In end.
    + by apply bool_decide_eq_true in Hn.
Qed.
End copies.

(** * Termination *)

Section termination.
Context `{Globals} `{RealPath}.

Lemma MakePathRelative_terminates to_file fro_file item : terminates (MakePathRelative to_file fro_file item).
Proof. unfold MakePathRelative. solve_terminates. Qed.

Lemma make_path_relative_terminates to_file fro_file v : terminates (make_path_relative to_file fro_file v).
Proof. unfold make_path_relative. solve_terminates. apply MakePathRelative_terminates. Qed.

Lemma merge_dict_item_terminates to_file fro_file fro k v merge_v to :
  (∀ o b c, terminates (merge_v o b c)) →
  terminates (merge_dict_item to_file fro_file fro k v merge_v to).
Proof.
  intros Hv. pose proof make_path_relative_terminates. unfold merge_dict_item, merge_dict_list.
  solve_terminates.
Qed.

Lemma merge_list_item_terminates to_file fro_file is_paths append v merge_v st :
  (∀ o b c, terminates (merge_v o b c)) →
  terminates (merge_list_item to_file fro_file is_paths append v merge_v st).
Proof.
  intros Hv. pose proof make_path_relative_terminates. unfold merge_list_item, merge_to_item.
  solve_terminates.
Qed.

Lemma merge_terminates to_file fro_file v o b c : terminates (merge to_file fro_file v o b c).
Proof.
  revert o b c. induction v as [s|z|l IH|d IH] using pyval_ind; intros o b c; [done..| |].
  - destruct o as [| |to|]; try done. pose proof (MergeLists_eq to l to_file fro_file b c) as Heq.
    unfold MergeLists in Heq. intros Herr. rewrite Herr in Heq. cbn [mbind result_bind] in Heq.
    revert Heq. apply not_eq_sym, terminates_fmap, terminates_for_each. intros x st Hx.
    apply merge_list_item_terminates. rewrite Forall_forall in IH. by apply IH.
  - destruct o as [| | |to]; try done. pose proof (MergeDicts_eq to d to_file fro_file) as Heq.
    unfold MergeDicts in Heq. intros Herr.
    change (merge to_file fro_file (VDict d) (VDict to) b c)
      with (merge to_file fro_file (VDict d) (VDict to) false true) in Herr.
    rewrite Herr in Heq. cbn [mbind result_bind] in Heq. revert Heq.
    apply not_eq_sym, terminates_for_each. intros [k x] st Hx. apply merge_dict_item_terminates.
    rewrite Forall_forall in IH. by apply (IH (k, x)).
Qed.

Lemma MergeDicts_terminates to fro to_file fro_file : terminates (MergeDicts to fro to_file fro_file).
Proof. unfold MergeDicts. pose proof merge_terminates. solve_terminates. Qed.
End termination.

#[export] Hint Resolve MergeDicts_terminates : terminates.

(** * Properties *)

(** Appending a list of strings and integers leaves the target as a prefix and
    adds items in their order.  An item that may occur only once (any but a string
    that begins with a dash) is added exactly when the target lacks it, and once
    however often it comes; every other item is added each time. *)
Theorem MergeLists_append `{Globals} `{RealPath} (to fro : list pyval) to_file fro_file is_paths :
  Forall (λ x, is_scalar x = true) fro → (is_paths = false ∨ to_file = fro_file) →
  ∃ new, MergeLists to fro to_file fro_file is_paths true = Ok (to ++ new)
    ∧ new `sublist_of` fro
    ∧ ∀ x, is_scalar x = true → occurrences x (to ++ new) =
        if is_singleton x
        then (if decide (x ∈ to) then occurrences x to else if decide (x ∈ fro) then 1 else 0)
        else occurrences x to + occurrences x fro.
Proof.
  intros Hsc Hp. destruct (merge_append_result fro (merge_lists_start to)) as (new&Heq&Hsub&Hocc);
    [apply mirrors_start|done|].
  exists new. rewrite MergeLists_scalars by done. by rewrite Heq.
Qed.

(** No generator keys, and the working directory [/w]. *)
Definition sample_globals : Globals := SetGeneratorGlobals [] [] true.
Definition sample_realpath : RealPath := realpath_nolinks (chars "/w").

Lemma MergeLists_append_witness :
  @MergeLists sample_globals sample_realpath [VStr "-I"; VStr "a"; VInt 1] [VStr "b"; VStr "-I"; VStr "a"; VStr "b"]
    "x.gyp" "x.gyp" true true = Ok [VStr "-I"; VStr "a"; VInt 1; VStr "b"; VStr "-I"]
  ∧ ∃ new, @MergeLists sample_globals sample_realpath [VStr "-I"; VStr "a"; VInt 1]
      [VStr "b"; VStr "-I"; VStr "a"; VStr "b"] "x.gyp" "x.gyp" true true
      = Ok ([VStr "-I"; VStr "a"; VInt 1] ++ new) ∧ new `sublist_of` [VStr "b"; VStr "-I"; VStr "a"; VStr "b"].
Proof.
  split; [vm_compute; reflexivity|].
  destruct (@MergeLists_append sample_globals sample_realpath [VStr "-I"; VStr "a"; VInt 1]
    [VStr "b"; VStr "-I"; VStr "a"; VStr "b"] "x.gyp" "x.gyp" true) as (new&Heq&Hsub&_).
  - repeat constructor.
  - right. reflexivity.
  - exists new. split; assumption.
Defined.

(** Prepending puts the new items before the others in their own order, and
    an item that may occur only once moves to its new place; the others are
    left where they were.  The new items must not repeat such an item
    ([MergeLists_prepend_displaces] shows what happens then). *)
Theorem MergeLists_prepend `{Globals} `{RealPath} (to fro : list pyval) to_file fro_file is_paths :
  Forall (λ x, is_scalar x = true) fro → (is_paths = false ∨ to_file = fro_file) →
  NoDup (filter (λ x, is_singleton x = true) fro) →
  MergeLists to fro to_file fro_file is_paths false
    = Ok (fro ++ filter (λ y, ¬ (is_singleton y = true ∧ y ∈ fro)) to).
Proof.
  intros Hsc Hp Hnd. rewrite MergeLists_scalars by done. f_equal. unfold merge_lists_start.
  rewrite (merge_prepend_result fro [] to) by (done || by intros ? ?%elem_of_nil). done.
Qed.

Lemma MergeLists_prepend_witness :
  @MergeLists sample_globals sample_realpath [VStr "a"; VStr "-l"; VStr "b"] [VStr "b"; VStr "-l"; VStr "c"]
    "x.gyp" "x.gyp" false false = Ok [VStr "b"; VStr "-l"; VStr "c"; VStr "a"; VStr "-l"].
Proof.
  rewrite (@MergeLists_prepend sample_globals sample_realpath [VStr "a"; VStr "-l"; VStr "b"]
    [VStr "b"; VStr "-l"; VStr "c"]).
  - vm_compute. reflexivity.
  - repeat constructor.
  - left. reflexivity.
  - by apply (bool_decide_unpack _).
Defined.

(** Prepending an item twice: the index is not moved back when the first copy is
    removed, so the second lands after an item of the target. *)
Example MergeLists_prepend_displaces :
  @MergeLists sample_globals sample_realpath [VStr "a"; VStr "b"] [VStr "x"; VStr "x"] "x.gyp" "x.gyp" false false
    = Ok [VStr "a"; VStr "x"; VStr "b"].
Proof. vm_compute. reflexivity. Qed.

(** C15: a merge of dictionaries without list policies goes key by key, so its
    result is the same for every order in which the dictionary may be iterated:
    each key of [fro] ends with its value merged into the old one, other keys
    keep theirs, and the merge fails only where the value of some key cannot be
    merged into the old one. *)
Theorem MergeDicts_pointwise `{Globals} `{RealPath} (to fro : pydict) to_file fro_file :
  dict_wf fro → plain_dict fro = true →
  match MergeDicts to fro to_file fro_file with
  | Ok to' => ∀ k, match dict_get fro k with
      | None => dict_get to' k = dict_get to k
      | Some v => ∃ x, value_merge to_file fro_file k v (dict_get to k) = Ok x ∧ dict_get to' k = Some x
      end
  | Err e => ∃ k v, (k, v) ∈ fro ∧ value_merge to_file fro_file k v (dict_get to k) = Err e
  end.
Proof. apply MergeDicts_plain. Qed.

Definition sample_to : pydict :=
  [("sources", VList [VStr "a.c"]); ("type", VStr "executable"); ("variables", VDict [("x", VInt 1)])].
Definition sample_fro : pydict :=
  [("variables", VDict [("y", VStr "2")]); ("sources", VList [VStr "b.c"; VStr "$(OUT)/c.c"]); ("type", VStr "none")].

Lemma MergeDicts_pointwise_witness :
  @MergeDicts sample_globals sample_realpath sample_to sample_fro "p/x.gyp" "q/y.gypi" = Ok
    [("sources", VList [VStr "a.c"; VStr "../q/b.c"; VStr "$(OUT)/c.c"]); ("type", VStr "none");
     ("variables", VDict [("x", VInt 1); ("y", VStr "2")])]
  ∧ @value_merge sample_globals sample_realpath "p/x.gyp" "q/y.gypi" "type" (VStr "none")
      (Some (VStr "executable")) = Ok (VStr "none").
Proof.
  assert (Hrun : @MergeDicts sample_globals sample_realpath sample_to sample_fro "p/x.gyp" "q/y.gypi" = Ok
    [("sources", VList [VStr "a.c"; VStr "../q/b.c"; VStr "$(OUT)/c.c"]); ("type", VStr "none");
     ("variables", VDict [("x", VInt 1); ("y", VStr "2")])]) by (vm_compute; reflexivity).
  split; [exact Hrun|].
  pose proof (@MergeDicts_pointwise sample_globals sample_realpath sample_to sample_fro "p/x.gyp" "q/y.gypi") as Hm.
  rewrite Hrun in Hm. destruct (Hm ltac:(by apply (bool_decide_unpack _)) eq_refl "type") as (x&Hx&Heq).
  injection Heq as <-. exact Hx.
Defined.

(** merging into an empty dictionary, within one file, makes a faithful copy
    of every value in normal form, at every depth. *)
Theorem MergeDicts_copy `{Globals} `{RealPath} (f : string) (d : pydict) :
  normal (VDict d) = true → MergeDicts [] d f f = Ok d.
Proof. intros Hn. unfold MergeDicts. rewrite (merge_copy f (VDict d) Hn eq_refl false). done. Qed.

Lemma MergeDicts_copy_witness :
  @MergeDicts sample_globals sample_realpath [] sample_fro "x.gyp" "x.gyp" = Ok sample_fro.
Proof. apply MergeDicts_copy. vm_compute. reflexivity. Defined.
