(* ===== verification/Config.v ===== *)
(** * Configurations

    [MergeConfigWithInheritance] and [SetUpConfigurations] of
    tools/gyp/pylib/gyp/input.py: the configurations of a target, each a copy of
    the target's own settings with the configuration and those it inherits from
    merged in. *)
From stdpp Require Import relations.
From S2P Require Import Prelude PyDict PyStr PyPath PyVal Common Merge.
From Stdlib Require Import Ascii.

Section config.
Context `{Globals} `{RealPath}.
Implicit Types (target_dict configs d : pydict) (configuration : string) (visited : list string).

(** [target_dict['configurations']] and [target_dict['configurations'][c]] *)
Definition configurations_of target_dict : result pydict :=
  v ← dict_index target_dict "configurations"; as_dict v.
Definition configuration_of configs configuration : result pydict :=
  v ← dict_index configs configuration; as_dict v.

(** [MergeConfigWithInheritance(new_configuration_dict, build_file, target_dict,
    configuration, visited)], returning the updated dictionary.  Both file
    arguments of its merge are [build_file]. *)
Fixpoint MergeConfigWithInheritance (fuel : nat) (new_configuration_dict : pydict) (build_file : string)
    target_dict configuration visited : result pydict :=
  match fuel with
  | 0 => Err OutOfFuel
  | S fuel =>
      if configuration in? visited then Ok new_configuration_dict
      else
        configs ← configurations_of target_dict;
        configuration_dict ← configuration_of configs configuration;
        parents ← get_strs configuration_dict "inherit_from";
        new ← for_each parents new_configuration_dict (λ parent new,
                MergeConfigWithInheritance fuel new build_file target_dict parent (visited ++ [configuration]));
        new ← MergeDicts new configuration_dict build_file build_file;
        Ok (dict_del new "abstract")
  end.

Definition key_suffixes : list ascii := ["="; "+"; "?"; "!"; "/"]%char.

(** The key without one of the suffixes a key may have. *)
Definition key_base (key : string) : string :=
  match str_last key with
  | Some key_ext => if key_ext in? key_suffixes then str_init key else key
  | None => key
  end.

(** [d.get('abstract')], as a truth value. *)
Definition is_abstract d : bool :=
  match dict_get d "abstract" with Some v => truthy v | None => false end.

(** [sorted(l)[0]] *)
Definition smallest (l : list string) : result string :=
  match l with
  | [] => Err IndexError
  | x :: l => Ok (foldl (λ m y, if str_lt y m then y else m) x l)
  end.

(** The names of the configurations that are not abstract. *)
Definition concrete_configurations configs : result (list string) :=
  names ← map_result (λ '(name, v), d ← as_dict v; Ok (if is_abstract d then [] else [name])) configs;
  Ok (concat names).

(** The defaults: a configuration, and which one is the default. *)
Definition provide_configurations target_dict : result pydict :=
  let target_dict :=
    if dict_mem target_dict "configurations" then target_dict
    else dict_set target_dict "configurations" (VDict [("Default", VDict [])]) in
  if dict_mem target_dict "default_configuration" then Ok target_dict
  else
    configs ← configurations_of target_dict;
    concrete ← concrete_configurations configs;
    name ← smallest concrete;
    Ok (dict_set target_dict "default_configuration" (VStr name)).

(** One iteration of the loop that builds the configurations. *)
Definition set_up_configuration (build_file : string) configuration target_dict : result pydict :=
  configs ← configurations_of target_dict;
  old_configuration_dict ← configuration_of configs configuration;
  if is_abstract old_configuration_dict then Ok target_dict
  else
    let new := filter (λ p, key_base p.1 ∉ non_configuration_keys) target_dict in
    new ← MergeConfigWithInheritance (S (S (length configs))) new build_file target_dict configuration [];
    Ok (dict_set target_dict "configurations" (VDict (dict_set configs configuration (VDict new)))).

(** One iteration of the loop that drops the abstract ones. *)
Definition drop_abstract configuration target_dict : result pydict :=
  configs ← configurations_of target_dict;
  old_configuration_dict ← configuration_of configs configuration;
  if is_abstract old_configuration_dict
  then Ok (dict_set target_dict "configurations" (VDict (dict_del configs configuration)))
  else Ok target_dict.

(** The check for keys that do not belong in a configuration. *)
Definition check_configuration (target configuration : string) (v : pyval) : result unit :=
  configuration_dict ← as_dict v;
  for_each (dict_keys configuration_dict) tt (λ key _,
    raise_if (key in? invalid_configuration_keys)
      (GypError (key +:+ " not allowed in the " +:+ configuration +:+ " configuration, found in target "
                 +:+ target))).

(** [SetUpConfigurations(target, target_dict)], returning the updated target. *)
Definition SetUpConfigurations (target : string) target_dict : result pydict :=
  let build_file := default "None" (BuildFile target) in
  target_dict ← provide_configurations target_dict;
  configs ← configurations_of target_dict;
  target_dict ← for_each (dict_keys configs) target_dict (set_up_configuration build_file);
  configs ← configurations_of target_dict;
  target_dict ← for_each (dict_keys configs) target_dict drop_abstract;
  let target_dict := filter (λ p, key_base p.1 ∈ non_configuration_keys) target_dict in
  configs ← configurations_of target_dict;
  _ ← for_each configs tt (λ '(configuration, v) _, check_configuration target configuration v);
  Ok target_dict.

(** * Theorems *)

(** ** Inheritance *)

(** What one configuration contributes. *)
Definition merge_one (build_file : string) configs configuration (new : pydict) : result pydict :=
  configuration_dict ← configuration_of configs configuration;
  new ← MergeDicts new configuration_dict build_file build_file;
  Ok (dict_del new "abstract").

(** [p] is a parent of [c]. *)
Definition inherits configs (c p : string) : Prop :=
  ∃ d parents, dict_get configs c = Some (VDict d) ∧ get_strs d "inherit_from" = Ok parents ∧ p ∈ parents.

(** Every configuration is a dictionary that inherits from configurations. *)
Definition configs_wf configs : Prop :=
  ∀ c v, dict_get configs c = Some v → ∃ d parents, v = VDict d
    ∧ get_strs d "inherit_from" = Ok parents ∧ ∀ p, p ∈ parents → p ∈ dict_keys configs.

(** The order of the merges of one call: for a configuration on the path from the
    start, none; for another, its ancestors, and itself last. *)
Record merge_order configs configuration visited (order : list string) : Prop := {
  mo_visited : configuration ∈ visited → order = [];
  mo_last : configuration ∉ visited → last order = Some configuration;
  mo_reach : ∀ c, c ∈ order → rtc (inherits configs) configuration c;
  mo_parents : ∀ l1 c l2 p, order = l1 ++ c :: l2 → inherits configs c p → p ∈ l1 ∨ rtc (inherits configs) p c
}.

Lemma MergeConfig_order fuel configs target_dict build_file configuration visited :
  configurations_of target_dict = Ok configs → configs_wf configs → configuration ∈ dict_keys configs →
  NoDup visited → visited ⊆ dict_keys configs → length configs < fuel + length visited →
  (∀ v, v ∈ visited → rtc (inherits configs) v configuration) →
  ∃ order, merge_order configs configuration visited order ∧ ∀ new,
    MergeConfigWithInheritance fuel new build_file target_dict configuration visited
    = for_each order new (merge_one build_file configs).
Proof.
  intros Hconfigs Hwf. revert configuration visited. induction fuel as [|fuel IH];
    intros c visited Hc Hnd Hincl Hfuel Hpath.
  { apply (NoDup_submseteq visited (dict_keys configs)) in Hincl; [|done].
    apply submseteq_length in Hincl. unfold dict_keys in Hincl. rewrite length_fmap in Hincl. simpl in Hfuel. lia. }
  cbn [MergeConfigWithInheritance]. case_bool_decide as Hvis.
  { exists []. split; [|done]. split; [done|done|by intros ? ?%elem_of_nil|].
    intros [] ????; discriminate. }
  rewrite Hconfigs. cbn [mbind result_bind].
  destruct (dict_get configs c) as [v|] eqn:Hv; [|by apply dict_get_None in Hv].
  destruct (Hwf c v Hv) as (d&parents&->&Hparents&Hin).
  assert (Hone : configuration_of configs c = Ok d) by (unfold configuration_of, dict_index; by rewrite Hv).
  rewrite Hone. cbn [mbind result_bind]. rewrite Hparents. cbn [mbind result_bind].
  assert (Hinh : ∀ p, p ∈ parents → inherits configs c p) by (intros p Hp; by exists d, parents).
  (* the parents, one after the other *)
  assert (Hloop : ∀ ps, ps ⊆ parents → ∃ order,
    (∀ x, x ∈ order → ∃ p, p ∈ ps ∧ rtc (inherits configs) p x)
    ∧ (∀ p, p ∈ ps → p ∈ order ∨ rtc (inherits configs) p c)
    ∧ (∀ l1 x l2 p, order = l1 ++ x :: l2 → inherits configs x p → p ∈ l1 ∨ rtc (inherits configs) p x)
    ∧ ∀ new, for_each ps new (λ parent new,
          MergeConfigWithInheritance fuel new build_file target_dict parent (visited ++ [c]))
        = for_each order new (merge_one build_file configs)).
  { intros ps. induction ps as [|p ps IHps] using rev_ind; intros Hps.
    { exists []. split_and!; [by intros ? ?%elem_of_nil..| |done]. intros [] ????; discriminate. }
    destruct IHps as (order&Hreach&Hcover&Hpar&Hrun); [set_solver|].
    assert (Hp : p ∈ parents) by set_solver.
    destruct (IH p (visited ++ [c])) as (o&[Hov Hol Hor Hop]&Horun).
    { by apply Hin. }
    { apply NoDup_app. split_and!; [done|set_solver|apply NoDup_singleton]. }
    { intros y [Hy| ->%list_elem_of_singleton]%elem_of_app; [by apply Hincl|done]. }
    { rewrite length_app. simpl. lia. }
    { intros y [Hy| ->%list_elem_of_singleton]%elem_of_app.
      - apply rtc_r with c; [by apply Hpath|by apply Hinh].
      - apply rtc_once. by apply Hinh. }
    exists (order ++ o). split_and!.
    - intros x [Hx|Hx]%elem_of_app; [set_solver|]. exists p. split; [set_solver|by apply Hor].
    - intros q [Hq| ->%list_elem_of_singleton]%elem_of_app.
      + destruct (Hcover q Hq); [left; set_solver|by right].
      + destruct (decide (p ∈ visited ++ [c])) as [Hpv|Hpv].
        * right. apply elem_of_app in Hpv as [Hpv| ->%list_elem_of_singleton]; [by apply Hpath|done].
        * left. apply elem_of_app. right. apply Hol, last_Some in Hpv as [o' ->]. set_solver.
    - intros l1 x l2 q Heq Hq. apply app_eq_app in Heq as (l&[[-> Heq]|[-> Heq]]).
      + destruct l as [|y l]; simplify_eq/=.
        * destruct (Hop [] x l2 q) as [?%elem_of_nil|?]; [done..|by right].
        * by eapply Hpar.
      + destruct (Hop l x l2 q) as [?|?]; [done..|left; set_solver|by right].
    - intros new. rewrite for_each_app, Hrun, for_each_app.
      destruct (for_each order new _); [|done]. cbn [mbind result_bind for_each]. rewrite Horun.
      by destruct (for_each o _ _). }
  destruct (Hloop parents) as (order&Hreach&Hcover&Hpar&Hrun); [done|].
  exists (order ++ [c]). split; [split|].
  - done.
  - intros _. apply last_snoc.
  - intros x [Hx| ->%list_elem_of_singleton]%elem_of_app; [|done].
    destruct (Hreach x Hx) as (p&Hp&?). apply rtc_l with p; [by apply Hinh|done].
  - intros l1 x l2 q Heq Hq. destruct l2 as [|y l2 _] using rev_ind.
    + apply app_inj_tail in Heq as [-> ->]. apply Hcover.
      destruct Hq as (d'&ps'&Hd'&Hps'&Hq).
      rewrite Hv in Hd'. injection Hd' as <-. rewrite Hparents in Hps'. by injection Hps' as <-.
    + rewrite app_comm_cons, app_assoc in Heq. apply app_inj_tail in Heq as [-> _]. by eapply Hpar.
  - intros new. rewrite for_each_app, Hrun. destruct (for_each order new _); [|done].
    cbn [mbind result_bind for_each]. unfold merge_one. rewrite Hone. cbn [mbind result_bind].
    by destruct (MergeDicts _ _ _ _).
Qed.

Lemma MergeConfig_result configs target_dict build_file c :
  configurations_of target_dict = Ok configs → configs_wf configs → c ∈ dict_keys configs →
  ∃ order,
    (∀ new, MergeConfigWithInheritance (S (S (length configs))) new build_file target_dict c []
            = for_each order new (merge_one build_file configs))
    ∧ last order = Some c ∧ (∀ x, x ∈ order → rtc (inherits configs) c x)
    ∧ ((∀ x, ¬ tc (inherits configs) x x) →
       (∀ x, rtc (inherits configs) c x → x ∈ order)
       ∧ ∀ l1 x l2 p, order = l1 ++ x :: l2 → inherits configs x p → p ∈ l1).
Proof.
  intros Hconfigs Hwf Hc.
  destruct (MergeConfig_order (S (S (length configs))) configs target_dict build_file c [])
    as (order&[_ Hl Hr Hp]&Hrun); [done..|apply NoDup_nil_2|by intros ? ?%elem_of_nil|simpl; lia|by intros ? ?%elem_of_nil|].
  exists order. split_and!; [done|by apply Hl, not_elem_of_nil|done|]. intros Hac.
  assert (Hpar : ∀ l1 x l2 p, order = l1 ++ x :: l2 → inherits configs x p → p ∈ l1).
  { intros l1 x l2 p Heq Hx. destruct (Hp l1 x l2 p Heq Hx) as [|Hback]; [done|].
    destruct (Hac x). by apply tc_l_rtc with p || (apply tc_rtc_r with p; [by apply tc_once|done]). }
  split; [|done].
  assert (Hclosed : ∀ x y, rtc (inherits configs) x y → x ∈ order → y ∈ order).
  { induction 1 as [|x y z Hxy _ IH]; [done|]. intros Hin. apply IH.
    apply list_elem_of_split in Hin as (l1&l2&Hsplit). rewrite Hsplit. apply elem_of_app. left.
    by apply (Hpar l1 x l2). }
  intros x Hx. apply (Hclosed c x Hx). specialize (Hl (not_elem_of_nil c)). apply last_Some in Hl as [o ->].
  apply elem_of_app. right. by left.
Qed.

(** ** The target after SetUpConfigurations *)

Lemma for_each_unit {A} (l : list A) (body : A → unit → result unit) u :
  for_each l tt body = Ok u → ∀ x, x ∈ l → body x tt = Ok tt.
Proof.
  induction l as [|y l IH]; intros Hrun x Hx; [by apply elem_of_nil in Hx|]. cbn [for_each] in Hrun.
  apply bind_Ok in Hrun as ([]&Hy&Hrun). apply elem_of_cons in Hx as [->|Hx]; [done|by apply IH].
Qed.

Lemma configurations_of_set target_dict configs :
  configurations_of (dict_set target_dict "configurations" (VDict configs)) = Ok configs.
Proof. unfold configurations_of, dict_index. by rewrite dict_get_set_eq. Qed.

(** Dropping the abstract configurations, one by one. *)
Lemma drop_abstract_result names target_dict configs target_dict' :
  configurations_of target_dict = Ok configs →
  for_each names target_dict drop_abstract = Ok target_dict' →
  ∃ configs', configurations_of target_dict' = Ok configs'
    ∧ (∀ c v, dict_get configs' c = Some v → dict_get configs c = Some v)
    ∧ (∀ c d, c ∈ names → dict_get configs' c = Some (VDict d) → is_abstract d = false)
    ∧ (∀ c d, dict_get configs c = Some (VDict d) → is_abstract d = false → dict_get configs' c = Some (VDict d))
    ∧ ∀ k, k ≠ "configurations" → dict_get target_dict' k = dict_get target_dict k.
Proof.
  revert target_dict configs. induction names as [|n names IH]; intros td configs Hconfigs Hrun; cbn [for_each] in Hrun.
  { injection Hrun as <-. exists configs. split_and!; [done..| |done|done]. by intros ? ? ?%elem_of_nil. }
  apply bind_Ok in Hrun as (td1&Hone&Hrun). unfold drop_abstract in Hone. rewrite Hconfigs in Hone.
  cbn [mbind result_bind] in Hone. unfold configuration_of, dict_index in Hone.
  destruct (dict_get configs n) as [v|] eqn:Hn; cbn [mbind result_bind] in Hone; [|done].
  destruct v as [| | |d]; try done. cbn [as_dict mbind result_bind] in Hone.
  destruct (is_abstract d) eqn:Ha; injection Hone as <-.
  - destruct (IH _ _ (configurations_of_set td (dict_del configs n)) Hrun) as (configs'&Hc'&Hsub&Hna&Hkeep&Hframe).
    exists configs'. split_and!; [done|..].
    + intros c v Hv. apply Hsub in Hv. rewrite dict_get_del in Hv. by case_decide.
    + intros c d' [->|Hc]%elem_of_cons Hd'; [|by apply (Hna c)].
      apply Hsub in Hd'. by rewrite dict_get_del_eq in Hd'.
    + intros c d' Hd' Ha'. apply Hkeep; [|done]. rewrite dict_get_del.
      destruct (decide (n = c)) as [->|]; [congruence|done].
    + intros k Hk. rewrite Hframe by done. by apply dict_get_set_ne.
  - destruct (IH _ _ Hconfigs Hrun) as (configs'&Hc'&Hsub&Hna&Hkeep&Hframe).
    exists configs'. split_and!; [done|done| |done|done].
    intros c d' [->|Hc]%elem_of_cons Hd'; [|by apply (Hna c)]. apply Hsub in Hd'. by simplify_eq.
Qed.

(** What SetUpConfigurations establishes. *)
Record configured (target_dict : pydict) : Prop := {
  cf_configs : ∃ configs, configurations_of target_dict = Ok configs
    ∧ ∀ c v, dict_get configs c = Some v → ∃ d, v = VDict d ∧ is_abstract d = false
        ∧ ∀ k, k ∈ dict_keys d → k ∉ invalid_configuration_keys;
  cf_keys : ∀ k, k ∈ dict_keys target_dict → key_base k ∈ non_configuration_keys
}.

Lemma dict_get_filter {V} (P : string → Prop) `{∀ k, Decision (P k)} (d : list (string * V)) k :
  P k → dict_get (filter (λ p, P p.1) d) k = dict_get d k.
Proof.
  intros Hk. induction d as [|[k' v] d IH]; [done|]. rewrite filter_cons. simpl.
  destruct (decide (k' = k)) as [->|Hne].
  - rewrite decide_True by done. simpl. by rewrite decide_True.
  - case_decide; simpl; [by rewrite decide_False|done].
Qed.

Lemma SetUpConfigurations_configured target target_dict target_dict' :
  "configurations" ∈ non_configuration_keys →
  SetUpConfigurations target target_dict = Ok target_dict' → configured target_dict'.
Proof.
  intros Hkey Hrun. unfold SetUpConfigurations in Hrun.
  apply bind_Ok in Hrun as (td1&_&Hrun). apply bind_Ok in Hrun as (configs1&_&Hrun).
  apply bind_Ok in Hrun as (td2&_&Hrun). apply bind_Ok in Hrun as (configs2&Hc2&Hrun).
  apply bind_Ok in Hrun as (td3&Hdrop&Hrun). apply bind_Ok in Hrun as (configs4&Hc4&Hrun).
  apply bind_Ok in Hrun as ([]&Hcheck&Hrun). injection Hrun as <-.
  destruct (drop_abstract_result _ _ _ _ Hc2 Hdrop) as (configs3&Hc3&Hsub&Hna&_&_).
  assert (configs4 = configs3) as ->.
  { unfold configurations_of, dict_index in Hc3, Hc4.
    pose proof (dict_get_filter (λ k, key_base k ∈ non_configuration_keys) td3 "configurations" Hkey) as Hf.
    cbn beta in Hf. rewrite Hf in Hc4. congruence. }
  split.
  - exists configs3. split; [done|]. intros c v Hv.
    assert (Hin : (c, v) ∈ configs3) by (by apply dict_get_In).
    apply (for_each_unit _ _ _ Hcheck) in Hin. simpl in Hin. unfold check_configuration in Hin.
    apply bind_Ok in Hin as (d&Hd&Hkeys). destruct v as [| | |d']; try done. injection Hd as <-.
    exists d'. split; [done|]. split.
    + apply (Hna c); [|done]. apply dict_get_is_Some. apply Hsub in Hv. by eexists.
    + intros k Hk. apply (for_each_unit _ _ _ Hkeys) in Hk. apply raise_if_Ok in Hk.
      by apply bool_decide_eq_false in Hk.
  - intros k Hk. apply list_elem_of_fmap in Hk as ([k' v]&->&Hin).
    by apply list_elem_of_filter in Hin as [? _].
Qed.

(** ** Termination *)

Lemma configurations_of_terminates target_dict : terminates (configurations_of target_dict).
Proof. unfold configurations_of. solve_terminates. Qed.
Lemma configuration_of_terminates configs c : terminates (configuration_of configs c).
Proof. unfold configuration_of. solve_terminates. Qed.

(** The path of configurations being merged never repeats one, so the recursion
    is at most as deep as there are configurations, whatever they inherit. *)
Lemma MergeConfig_terminates fuel new build_file target_dict configs c visited :
  configurations_of target_dict = Ok configs →
  NoDup visited → visited ⊆ dict_keys configs → length configs < fuel + length visited →
  terminates (MergeConfigWithInheritance fuel new build_file target_dict c visited).
Proof.
  intros Hconfigs. revert new c visited. induction fuel as [|fuel IH]; intros new c visited Hnd Hincl Hfuel.
  { apply (NoDup_submseteq visited (dict_keys configs)) in Hincl; [|done].
    apply submseteq_length in Hincl. unfold dict_keys in Hincl. rewrite length_fmap in Hincl. simpl in Hfuel. lia. }
  cbn [MergeConfigWithInheritance]. case_bool_decide as Hvis; [done|]. rewrite Hconfigs. cbn [mbind result_bind].
  apply terminates_bind; [apply configuration_of_terminates|]. intros d Hd.
  assert (Hc : c ∈ dict_keys configs).
  { apply dict_get_is_Some. unfold configuration_of, dict_index in Hd. by destruct (dict_get configs c). }
  apply terminates_bind; [auto with terminates|]. intros parents _.
  apply terminates_bind; [|intros; solve_terminates].
  apply terminates_for_each. intros p new' _. apply IH.
  - apply NoDup_app. split_and!; [done|set_solver|apply NoDup_singleton].
  - intros y [Hy| ->%list_elem_of_singleton]%elem_of_app; [by apply Hincl|done].
  - rewrite length_app. simpl. lia.
Qed.

Lemma SetUpConfigurations_terminates target target_dict : terminates (SetUpConfigurations target target_dict).
Proof.
  pose proof configurations_of_terminates. pose proof configuration_of_terminates.
  unfold SetUpConfigurations. apply terminates_bind.
  { unfold provide_configurations, concrete_configurations, smallest. solve_terminates. }
  intros td1 _. apply terminates_bind; [solve_terminates|]. intros configs1 _. apply terminates_bind.
  { apply terminates_for_each. intros c td _. unfold set_up_configuration. apply terminates_bind; [auto|].
    intros configs Hconfigs. apply terminates_bind; [auto|]. intros d _.
    destruct (is_abstract d); [done|]. apply terminates_bind; [|done].
    eapply MergeConfig_terminates; [done|apply NoDup_nil_2|by intros ? ?%elem_of_nil|simpl; lia]. }
  intros td2 _. unfold drop_abstract, check_configuration. solve_terminates.
Qed.
End config.

(** * Properties *)

(** C16: MergeConfigWithInheritance merges a configuration after its ancestors: its
    effect is that of merging the configurations of a list, one after the other,
    which ends with the configuration itself and holds only configurations it
    inherits from; without circles of inheritance the list holds all of them, each
    after its own parents.  Circles do not stop the recursion from ending. *)
Theorem MergeConfigWithInheritance_ancestors_first `{Globals} `{RealPath}
    (configs target_dict : pydict) (build_file c : string) :
  configurations_of target_dict = Ok configs → configs_wf configs → c ∈ dict_keys configs →
  ∃ order,
    (∀ new, MergeConfigWithInheritance (S (S (length configs))) new build_file target_dict c []
            = for_each order new (merge_one build_file configs))
    ∧ last order = Some c ∧ (∀ x, x ∈ order → rtc (inherits configs) c x)
    ∧ ((∀ x, ¬ tc (inherits configs) x x) →
       (∀ x, rtc (inherits configs) c x → x ∈ order)
       ∧ ∀ l1 x l2 p, order = l1 ++ x :: l2 → inherits configs x p → p ∈ l1).
Proof. apply MergeConfig_result. Qed.

(** A target with two configurations that inherit from an abstract one. *)
Definition sample_configs : pydict :=
  [("Base", VDict [("abstract", VInt 1); ("defines", VList [VStr "B"])]);
   ("Debug", VDict [("inherit_from", VList [VStr "Base"]); ("defines", VList [VStr "D"])]);
   ("Release", VDict [("inherit_from", VList [VStr "Base"]); ("cflags", VList [VStr "-O2"])])].
Definition sample_target : pydict :=
  [("target_name", VStr "t"); ("cflags", VList [VStr "-g"]); ("sources", VList [VStr "a.c"]);
   ("configurations", VDict sample_configs)].

Lemma sample_configs_wf : configs_wf sample_configs.
Proof.
  intros c v Hv. apply dict_get_In in Hv.
  assert (Hall : Forall (λ p, ∃ d parents, p.2 = VDict d ∧ get_strs d "inherit_from" = Ok parents
            ∧ ∀ q, q ∈ parents → q ∈ dict_keys sample_configs) sample_configs).
  { repeat constructor; eexists _, _; (split; [reflexivity|]); (split; [reflexivity|]); intros q Hq;
      repeat (apply elem_of_cons in Hq as [->|Hq]; [by apply (bool_decide_unpack _)|]);
      by apply elem_of_nil in Hq. }
  rewrite Forall_forall in Hall. apply (Hall (c, v) Hv).
Qed.

Lemma MergeConfigWithInheritance_ancestors_first_witness :
  configurations_of sample_target = Ok sample_configs
  ∧ ∃ order, (∀ new, @MergeConfigWithInheritance sample_globals sample_realpath 5 new "x.gyp" sample_target "Debug" []
                = for_each order new (@merge_one sample_globals sample_realpath "x.gyp" sample_configs))
      ∧ last order = Some "Debug".
Proof.
  split; [reflexivity|].
  destruct (@MergeConfigWithInheritance_ancestors_first sample_globals sample_realpath sample_configs sample_target
    "x.gyp" "Debug") as (order&Hrun&Hlast&_).
  - reflexivity.
  - exact sample_configs_wf.
  - by apply (bool_decide_unpack _).
  - exists order. split; assumption.
Defined.

(** C17: SetUpConfigurations always ends, and where it returns the target holds
    only keys that belong to targets, its configurations are dictionaries, none
    of them abstract, and none holds a key that is invalid in a configuration. *)
Theorem SetUpConfigurations_sound `{Globals} `{RealPath} (target : string) (target_dict : pydict) :
  "configurations" ∈ non_configuration_keys →
  terminates (SetUpConfigurations target target_dict)
  ∧ ∀ target_dict', SetUpConfigurations target target_dict = Ok target_dict' → configured target_dict'.
Proof.
  intros Hkey. split; [apply SetUpConfigurations_terminates|].
  intros td'. by apply SetUpConfigurations_configured.
Qed.

Lemma SetUpConfigurations_sound_witness :
  @SetUpConfigurations sample_globals sample_realpath "x.gyp:t#target" sample_target = Ok
    [("target_name", VStr "t"); ("sources", VList [VStr "a.c"]);
     ("configurations", VDict
       [("Debug", VDict [("cflags", VList [VStr "-g"]); ("defines", VList [VStr "B"; VStr "D"]);
                         ("inherit_from", VList [VStr "Base"])]);
        ("Release", VDict [("cflags", VList [VStr "-g"; VStr "-O2"]); ("defines", VList [VStr "B"]);
                           ("inherit_from", VList [VStr "Base"])])]);
     ("default_configuration", VStr "Debug")]
  ∧ ∃ target_dict, @SetUpConfigurations sample_globals sample_realpath "x.gyp:t#target" sample_target = Ok target_dict
      ∧ @configured sample_globals target_dict.
Proof.
  split; [vm_compute; reflexivity|].
  destruct (@SetUpConfigurations_sound sample_globals sample_realpath "x.gyp:t#target" sample_target) as [_ Hs].
  - by apply (bool_decide_unpack _).
  - eexists. split; [|apply Hs]; vm_compute; reflexivity.
Defined.
