(* ===== verification/Filters.v ===== *)
(** * List filters

    [ProcessListFiltersInDict] and [ProcessListFiltersInList] of
    tools/gyp/pylib/gyp/input.py: exclusion lists ([sources!]) and regular
    expression filters ([sources/]) applied to the lists they name.

    A compiled pattern is a function from strings to truth values; the compiler
    [re_compile] (Python's [re.compile], [None] for a malformed pattern) is a
    parameter, and the theorems hold for any. *)
From S2P Require Import Prelude PyDict PyStr PyVal.
From Stdlib Require Import Ascii.

(** [for x in v], as the list of the values [x] takes. *)
Definition iter_items (v : pyval) : result (list pyval) :=
  match v with
  | VList l => Ok l
  | VStr s => Ok ((λ c, VStr (String c "")) <$> chars s)
  | VDict d => Ok (VStr <$> dict_keys d)
  | VInt _ => Err (TypeError "int")
  end.

Section filters.
Context (re_compile : string → option (string → bool)).
Implicit Types (name key list_key : string) (the_dict : pydict) (the_list : list pyval).

(** ** Collecting the lists *)

Definition is_operation (c : ascii) : bool := c in? ["!"; "/"]%char.

(** One iteration of the first loop, on [lists] and [del_lists]. *)
Definition collect_list name the_dict (item : string * pyval) (st : list string * list string) :
    result (list string * list string) :=
  let '(key, value) := item in
  let '(lists, del_lists) := st in
  match str_last key with
  | None => Err IndexError
  | Some operation =>
      if negb (is_operation operation) then Ok st
      else if negb (is_list value) then
        Err (ValueError (name +:+ " key " +:+ key +:+ " must be list, not " +:+ class_name value))
      else
        let list_key := str_init key in
        match dict_get the_dict list_key with
        | None => Ok (lists, del_lists ++ [key])
        | Some value =>
            if is_list value then Ok (if list_key in? lists then lists else lists ++ [list_key], del_lists)
            else Err (ValueError (name +:+ " key " +:+ list_key +:+ " must be list, not "
                       +:+ class_name value +:+ " when applying "
                       +:+ (if (operation ==? "!"%char) then "exclusion" else "regex")))
        end
  end.

(** ** The actions on the items of a list *)

(** The loop over the items for one excluded value. *)
Definition exclude_item the_list (list_actions : list Z) (item : pyval) : list Z :=
  zip_with (λ x a, if py_eq item x then 0%Z else a) the_list list_actions.

(** The loop over the items for one pattern. *)
Definition apply_pattern (search : string → bool) (action_value : Z) the_list (list_actions : list Z) :
    result (list Z) :=
  map_result (λ '(list_item, a),
    if (a =? action_value)%Z then Ok a
    else s ← as_str list_item; Ok (if search s then action_value else a)) (zip the_list list_actions).

(** One iteration of the loop over the regular expression filters. *)
Definition apply_regex_item name regex_key the_list (regex_item : pyval) (list_actions : list Z) :
    result (list Z) :=
  parts ← iter_items regex_item;
  match parts with
  | [action; pattern] =>
      pattern ← as_str pattern;
      match re_compile pattern with
      | None => Err (ValueError pattern)
      | Some search =>
          action ← as_str action;
          if action ==? "exclude" then apply_pattern search 0 the_list list_actions
          else if action ==? "include" then apply_pattern search 1 the_list list_actions
          else Err (ValueError ("Unrecognized action " +:+ action +:+ " in " +:+ name +:+ " key " +:+ regex_key))
      end
  | _ => Err (ValueError "unpack")
  end.

(** The loop that takes the excluded items out, from the last index down. *)
Fixpoint take_excluded (n : nat) (list_actions : list Z) the_list (excluded_list : list pyval) :
    list pyval * list pyval :=
  match n with
  | 0 => (the_list, excluded_list)
  | S index =>
      match list_actions !! index, the_list !! index with
      | Some 0%Z, Some x => take_excluded index list_actions (delete index the_list) (x :: excluded_list)
      | _, _ => take_excluded index list_actions the_list excluded_list
      end
  end.

(** One iteration of the loop over [lists]. *)
Definition filter_list name list_key the_dict : result pydict :=
  v ← dict_index the_dict list_key;
  the_list ← as_list v;
  let list_actions := replicate (length the_list) (-1)%Z in
  let exclude_key := list_key +:+ "!" in
  '(list_actions, the_dict) ← match dict_get the_dict exclude_key with
    | Some v => items ← iter_items v; Ok (foldl (exclude_item the_list) list_actions items, dict_del the_dict exclude_key)
    | None => Ok (list_actions, the_dict)
    end;
  let regex_key := list_key +:+ "/" in
  '(list_actions, the_dict) ← match dict_get the_dict regex_key with
    | Some v =>
        items ← iter_items v;
        list_actions ← for_each items list_actions (apply_regex_item name regex_key the_list);
        Ok (list_actions, dict_del the_dict regex_key)
    | None => Ok (list_actions, the_dict)
    end;
  let excluded_key := list_key +:+ "_excluded" in
  _ ← raise_if (dict_mem the_dict excluded_key)
        (GypError (name +:+ " key " +:+ excluded_key +:+ " must not be present prior "
                   +:+ " to applying exclusion/regex filters for " +:+ list_key));
  let '(the_list, excluded_list) := take_excluded (length list_actions) list_actions the_list [] in
  let the_dict := dict_set the_dict list_key (VList the_list) in
  Ok (if excluded_list ==? [] then the_dict else dict_set the_dict excluded_key (VList excluded_list)).

(** The lists of one dictionary, before the recursion. *)
Definition filter_lists name the_dict : result pydict :=
  '(lists, del_lists) ← for_each the_dict ([], []) (collect_list name the_dict);
  let the_dict := foldl dict_del the_dict del_lists in
  for_each lists the_dict (filter_list name).

(** ProcessListFiltersInDict on dictionaries and ProcessListFiltersInList on
    lists; other values are left alone. *)
Fixpoint process_list_filters (fuel : nat) name (v : pyval) : result pyval :=
  match fuel with
  | 0 => Err OutOfFuel
  | S fuel =>
      match v with
      | VDict the_dict =>
          the_dict ← filter_lists name the_dict;
          the_dict ← map_result (λ '(key, value),
            value ← process_list_filters fuel key value; Ok (key, value)) the_dict;
          Ok (VDict the_dict)
      | VList the_list => VList <$> map_result (process_list_filters fuel name) the_list
      | _ => Ok v
      end
  end.

(** How deep a value is. *)
Fixpoint depth (v : pyval) : nat :=
  match v with
  | VStr _ | VInt _ => 0
  | VList l => S (list_max (depth <$> l))
  | VDict d => S (list_max ((λ p, depth p.2) <$> d))
  end.

Definition ProcessListFiltersInDict name the_dict : result pydict :=
  v ← process_list_filters (S (depth (VDict the_dict))) name (VDict the_dict); as_dict v.

(** * Theorems *)

(** ** One list *)

(** The action a pattern list comes to for one item. *)
Definition verdict_step (item : string) (a : Z) (filter : Z * (string → bool)) : Z :=
  if filter.2 item then filter.1 else a.
Definition verdict (excludes : list pyval) (filters : list (Z * (string → bool))) (item : string) : Z :=
  foldl (verdict_step item) (if py_in (VStr item) excludes then 0 else -1)%Z filters.

(** The filter a regex item stands for. *)
Definition parse_filter (v : pyval) : option (Z * (string → bool)) :=
  match v with
  | VList [VStr action; VStr pattern] =>
      search ← re_compile pattern;
      if action ==? "exclude" then Some (0%Z, search)
      else if action ==? "include" then Some (1%Z, search) else None
  | _ => None
  end.

Lemma exclude_items_actions items (l : list string) acts :
  length acts = length l →
  foldl (exclude_item (VStr <$> l)) acts items
  = zip_with (λ x a, if py_in (VStr x) items then 0%Z else a) l acts.
Proof.
  revert acts. induction items as [|i items IH]; intros acts Hlen; cbn [foldl].
  - clear -Hlen. revert acts Hlen. induction l as [|x l IH]; intros [|a acts] Hlen; simplify_eq/=; [done|].
    f_equal. by apply IH.
  - rewrite IH.
    + unfold exclude_item. clear -Hlen. revert acts Hlen.
      induction l as [|x l IH]; intros [|a acts] Hlen; simplify_eq/=; [done|].
      rewrite IH by done. f_equal. unfold py_in. cbn [existsb].
      destruct (existsb _ items); [by rewrite orb_true_r|]. rewrite orb_false_r.
      assert (py_eq i (VStr x) = py_eq (VStr x) i) as ->; [|done].
      apply eq_true_iff_eq. rewrite py_eq_str. destruct i; simpl; try naive_solver.
      rewrite bool_decide_eq_true. naive_solver.
    + unfold exclude_item. rewrite length_zip_with, length_fmap. lia.
Qed.

Lemma apply_pattern_actions search av (l : list string) acts :
  length acts = length l →
  apply_pattern search av (VStr <$> l) acts = Ok (zip_with (λ x a, if search x then av else a) l acts).
Proof.
  unfold apply_pattern. revert acts. induction l as [|x l IH]; intros [|a acts] Hlen; simplify_eq/=; [done|].
  rewrite IH by done. destruct (Z.eqb_spec a av); simpl; [|done]. subst. by destruct (search x).
Qed.

Lemma regex_items_actions name regex_key items filters (l : list string) acts :
  Forall2 (λ v f, parse_filter v = Some f) items filters → length acts = length l →
  for_each items acts (apply_regex_item name regex_key (VStr <$> l))
  = Ok (zip_with (λ x a, foldl (verdict_step x) a filters) l acts).
Proof.
  intros Hf. revert acts. induction Hf as [|v f items filters Hv _ IH]; intros acts Hlen; cbn [for_each foldl].
  { f_equal. clear -Hlen. revert acts Hlen. induction l as [|x l IH]; intros [|a acts] Hlen; simplify_eq/=; [done|].
    f_equal. by apply IH. }
  assert (apply_regex_item name regex_key (VStr <$> l) v acts
          = Ok (zip_with (λ x a, verdict_step x a f) l acts)) as ->.
  { unfold parse_filter in Hv. destruct v as [| |[|[action| | |] [|[pattern| | |] []]]|]; try done.
    unfold apply_regex_item. cbn [iter_items mbind result_bind as_str].
    destruct (re_compile pattern) as [search|]; simpl in Hv |- *; [|done].
    repeat case_bool_decide; simplify_eq; by apply apply_pattern_actions. }
  cbn [mbind result_bind]. rewrite IH by (rewrite length_zip_with; lia). f_equal.
  clear -Hlen. revert acts Hlen. induction l as [|x l IH]; intros [|a acts] Hlen; simplify_eq/=; [done|].
  f_equal. by apply IH.
Qed.

Lemma take_excluded_split n acts (l : list pyval) tail excluded :
  n ≤ length l → length acts = length l →
  take_excluded n acts (take n l ++ tail) excluded
  = ((filter (λ p, p.2 ≠ 0%Z) (zip (take n l) (take n acts))).*1 ++ tail,
     (filter (λ p, p.2 = 0%Z) (zip (take n l) (take n acts))).*1 ++ excluded).
Proof.
  intros Hn Hlen. revert tail excluded. induction n as [|n IH]; intros tail excluded; [done|].
  destruct (lookup_lt_is_Some_2 l n) as [x Hx]; [lia|].
  destruct (lookup_lt_is_Some_2 acts n) as [a Ha]; [lia|].
  cbn [take_excluded]. rewrite Ha.
  rewrite (take_S_r l n x Hx), (take_S_r acts n a Ha), <- app_assoc. cbn [app].
  assert (Hl : length (take n l) = n) by (rewrite length_take; lia).
  rewrite lookup_app_r, Hl, Nat.sub_diag by lia. cbn [lookup list_lookup].
  rewrite zip_with_app by (rewrite !length_take; lia). cbn [zip_with].
  rewrite !filter_app, !fmap_app. specialize (IH ltac:(lia)).
  assert (a = 0%Z ∨ a ≠ 0%Z) as [->|Ha0] by lia.
  - rewrite <- Hl at 2. rewrite delete_middle. rewrite IH.
    rewrite (filter_cons_False _ (x, 0%Z)), (filter_cons_True _ (x, 0%Z)) by (simpl; lia).
    rewrite !filter_nil, app_nil_r, <- app_assoc. done.
  - assert (match a with 0%Z => take_excluded n acts (delete n (take n l ++ x :: tail)) (x :: excluded)
                    | _ => take_excluded n acts (take n l ++ x :: tail) excluded end
            = take_excluded n acts (take n l ++ x :: tail) excluded) as -> by (by destruct a).
    rewrite IH.
    rewrite (filter_cons_True _ (x, a)), (filter_cons_False _ (x, a)) by (simpl; lia).
    rewrite !filter_nil, app_nil_r, <- app_assoc. done.
Qed.

(** The list under a key, if there is one. *)
Definition list_at the_dict key : list pyval :=
  match dict_get the_dict key with Some (VList l) => l | _ => [] end.

(** A dictionary whose list [list_key] holds the strings [l] and whose filters for
    it are well formed. *)
Record filterable the_dict list_key (l : list string) (filters : list (Z * (string → bool))) : Prop := {
  fb_list : dict_get the_dict list_key = Some (VList (VStr <$> l));
  fb_exclude : ∀ v, dict_get the_dict (list_key +:+ "!") = Some v → is_list v = true;
  fb_regex : ∀ v, dict_get the_dict (list_key +:+ "/") = Some v → is_list v = true;
  fb_filters : Forall2 (λ v f, parse_filter v = Some f) (list_at the_dict (list_key +:+ "/")) filters;
  fb_excluded : dict_get the_dict (list_key +:+ "_excluded") = None
}.

Definition verdict_at the_dict list_key filters : string → Z :=
  verdict (list_at the_dict (list_key +:+ "!")) filters.

Lemma suffix_inj list_key s1 s2 : list_key +:+ s1 = list_key +:+ s2 → s1 = s2.
Proof. intros Heq. apply (f_equal chars) in Heq. rewrite !chars_app in Heq. by apply app_inv_head, (inj chars) in Heq. Qed.
Lemma suffix_self list_key s : s ≠ "" → list_key +:+ s ≠ list_key.
Proof.
  intros Hs Heq. apply (f_equal chars) in Heq. rewrite chars_app in Heq.
  rewrite <- (app_nil_r (chars list_key)) in Heq at 2. apply app_inv_head in Heq.
  by destruct s.
Qed.

Lemma take_excluded_all (l : list string) (f : string → Z) :
  take_excluded (length (f <$> l)) (f <$> l) (VStr <$> l) []
  = (VStr <$> filter (λ x, f x ≠ 0%Z) l, VStr <$> filter (λ x, f x = 0%Z) l).
Proof.
  pose proof (take_excluded_split (length l) (f <$> l) (VStr <$> l) [] []) as Hsplit.
  rewrite !length_fmap in *. rewrite !app_nil_r in Hsplit.
  rewrite !(take_ge (VStr <$> l)), !(take_ge (f <$> l)) in Hsplit by (by rewrite length_fmap).
  rewrite Hsplit by done. f_equal; clear Hsplit.
  - induction l as [|x l IH]; [done|]. cbn [fmap list_fmap zip_with]. rewrite !filter_cons. simpl.
    repeat case_decide; simpl; try done; by f_equal.
  - induction l as [|x l IH]; [done|]. cbn [fmap list_fmap zip_with]. rewrite !filter_cons. simpl.
    repeat case_decide; simpl; try done; by f_equal.
Qed.

Lemma zip_with_replicate {A B C} (f : A → B → C) (l : list A) (b : B) :
  zip_with f l (replicate (length l) b) = (λ x, f x b) <$> l.
Proof. induction l; simpl; f_equal; done. Qed.

Lemma zip_with_fmap_self {A B C} (f : A → B → C) (g : A → B) (l : list A) :
  zip_with f l (g <$> l) = (λ x, f x (g x)) <$> l.
Proof. induction l; simpl; f_equal; done. Qed.

(** The filters keep the items whose verdict is not to exclude, and list the
    others apart. *)
Lemma filter_list_result name the_dict list_key l filters :
  filterable the_dict list_key l filters →
  ∃ the_dict', filter_list name list_key the_dict = Ok the_dict'
    ∧ ∀ key, dict_get the_dict' key =
        if decide (key = list_key)
        then Some (VList (VStr <$> filter (λ x, verdict_at the_dict list_key filters x ≠ 0%Z) l))
        else if decide (key = list_key +:+ "_excluded")
        then (let excluded := filter (λ x, verdict_at the_dict list_key filters x = 0%Z) l in
              if decide (excluded = []) then None else Some (VList (VStr <$> excluded)))
        else if decide (key ∈ [list_key +:+ "!"; list_key +:+ "/"]) then None
        else dict_get the_dict key.
Proof.
  intros [Hl Hex Hre Hf Hnone]. unfold filter_list, dict_index. rewrite Hl. cbn [mbind result_bind as_list].
  rewrite length_fmap. set (acts0 := replicate (length l) (-1)%Z).
  set (excludes := list_at the_dict (list_key +:+ "!")).
  set (d1 := dict_del the_dict (list_key +:+ "!")).
  assert (Hd1 : ∀ key, dict_get d1 key = if decide (key = list_key +:+ "!") then None else dict_get the_dict key).
  { intros key. unfold d1. rewrite dict_get_del. by repeat case_decide. }
  assert (∃ d1', match dict_get the_dict (list_key +:+ "!") with
    | Some v => items ← iter_items v; Ok (foldl (exclude_item (VStr <$> l)) acts0 items, d1)
    | None => Ok (acts0, the_dict)
    end = Ok ((λ x, if py_in (VStr x) excludes then 0 else -1)%Z <$> l, d1')
    ∧ ∀ key, dict_get d1' key = dict_get d1 key) as (d1'&->&Hd1').
  { unfold excludes, list_at. destruct (dict_get the_dict (list_key +:+ "!")) as [v|] eqn:Hv.
    - specialize (Hex v eq_refl). destruct v as [| |items|]; try done. cbn [iter_items mbind result_bind].
      exists d1. split; [|done]. do 2 f_equal. rewrite exclude_items_actions by apply length_replicate.
      by apply zip_with_replicate.
    - exists the_dict. split.
      + do 2 f_equal. unfold acts0. clear. induction l; simpl; f_equal; done.
      + intros key. rewrite Hd1. by case_decide; subst. }
  cbn [mbind result_bind].
  set (d2 := dict_del d1' (list_key +:+ "/")).
  assert (Hregex : dict_get d1' (list_key +:+ "/") = dict_get the_dict (list_key +:+ "/")).
  { rewrite Hd1', Hd1, decide_False; [done|]. by intros ?%suffix_inj. }
  rewrite Hregex.
  assert (∃ d2', match dict_get the_dict (list_key +:+ "/") with
    | Some v => items ← iter_items v;
        list_actions ← for_each items ((λ x, if py_in (VStr x) excludes then 0 else -1)%Z <$> l)
          (apply_regex_item name (list_key +:+ "/") (VStr <$> l));
        Ok (list_actions, d2)
    | None => Ok ((λ x, if py_in (VStr x) excludes then 0 else -1)%Z <$> l, d1')
    end = Ok (verdict excludes filters <$> l, d2')
    ∧ ∀ key, dict_get d2' key = dict_get d2 key) as (d2'&->&Hd2').
  { unfold list_at in Hf. destruct (dict_get the_dict (list_key +:+ "/")) as [v|] eqn:Hv.
    - specialize (Hre v eq_refl). destruct v as [| |items|]; try done. cbn [iter_items mbind result_bind].
      rewrite (regex_items_actions _ _ _ filters) by (done || by rewrite length_fmap). cbn [mbind result_bind].
      exists d2. split; [|done]. do 2 f_equal. by rewrite zip_with_fmap_self.
    - apply Forall2_nil_inv_l in Hf as ->. exists d1'. split; [done|]. intros key. unfold d2.
      rewrite dict_get_del. case_decide; subst; [|done]. by rewrite Hregex. }
  cbn [mbind result_bind].
  assert (Hd2 : ∀ key, dict_get d2' key =
            if decide (key ∈ [list_key +:+ "!"; list_key +:+ "/"]) then None else dict_get the_dict key).
  { intros key. rewrite Hd2'. unfold d2. rewrite dict_get_del, Hd1', Hd1.
    destruct (decide (key ∈ _)) as [Hin|Hin].
    - apply elem_of_cons in Hin as [->|Hin]; [by repeat case_decide|].
      apply list_elem_of_singleton in Hin as ->. by rewrite decide_True.
    - rewrite !decide_False; [done|intros ->; apply Hin; by left|intros <-; apply Hin; right; by left]. }
  assert (Hmem : dict_mem d2' (list_key +:+ "_excluded") = false).
  { apply dict_mem_false, dict_get_None. rewrite Hd2. by case_decide. }
  rewrite Hmem. cbn [raise_if mbind result_bind].
  fold (verdict_at the_dict list_key filters) in *. rewrite take_excluded_all.
  change (verdict_at the_dict list_key filters) with (verdict excludes filters).
  eexists. split; [reflexivity|]. intros key.
  set (kept := filter (λ x, verdict excludes filters x ≠ 0%Z) l).
  set (out := filter (λ x, verdict excludes filters x = 0%Z) l). cbv zeta.
  assert (Hout : bool_decide (VStr <$> out = []) = bool_decide (out = [])).
  { apply bool_decide_ext. by destruct out. }
  rewrite Hout. clear Hout.
  destruct (decide (key = list_key)) as [->|Hk].
  - case_bool_decide; rewrite ?(dict_get_set_ne _ (list_key +:+ "_excluded")) by (by apply suffix_self);
      by rewrite dict_get_set_eq.
  - destruct (decide (key = list_key +:+ "_excluded")) as [->|Hk'].
    + case_bool_decide.
      * rewrite decide_True by done. rewrite dict_get_set_ne by (by apply not_eq_sym, suffix_self).
        rewrite Hd2. by case_decide.
      * rewrite decide_False by done. by rewrite dict_get_set_eq.
    + case_bool_decide; rewrite ?(dict_get_set_ne _ (list_key +:+ "_excluded")) by done;
        rewrite dict_get_set_ne by done; apply Hd2.
Qed.

(** ** Every level *)

Definition op_key key : bool :=
  match str_last key with Some c => is_operation c | None => false end.

(** No key, at any depth, names a filter. *)
Fixpoint clean (v : pyval) : bool :=
  match v with
  | VStr _ | VInt _ => true
  | VList l => forallb clean l
  | VDict d => forallb (λ p, negb (op_key p.1) && clean p.2) d
  end.

Lemma take_excluded_subset n acts the_list excluded :
  (take_excluded n acts the_list excluded).1 ⊆ the_list
  ∧ (take_excluded n acts the_list excluded).2 ⊆ the_list ++ excluded.
Proof.
  revert the_list excluded. induction n as [|n IH]; intros the_list excluded; cbn [take_excluded].
  { split; [done|]. simpl. set_solver. }
  destruct (acts !! n) as [[| |]|]; try apply IH.
  destruct (the_list !! n) as [x|] eqn:Hx; [|apply IH].
  destruct (IH (delete n the_list) (x :: excluded)) as [H1 H2].
  pose proof (delete_Permutation the_list n x Hx) as Hp.
  assert (delete n the_list ⊆ the_list) by (intros y Hy; rewrite Hp; by right).
  assert (x ∈ the_list) by (by eapply list_elem_of_lookup_2).
  split; set_solver.
Qed.

Lemma dict_set_item {V} (d : list (string * V)) k v key x :
  (key, x) ∈ dict_set d k v → (key, x) ∈ d ∨ (key = k ∧ x = v).
Proof.
  induction d as [|[k' v'] d IH]; simpl.
  - intros ->%list_elem_of_singleton%pair_equal_spec || (intros Hin; apply list_elem_of_singleton in Hin; naive_solver).
  - case_decide; subst; rewrite !elem_of_cons; naive_solver.
Qed.

(** What one list's filtering can do to a dictionary. *)
Lemma filter_list_items name list_key the_dict the_dict' :
  filter_list name list_key the_dict = Ok the_dict' →
  ∃ l, dict_get the_dict list_key = Some (VList l)
    ∧ (∀ key x, (key, x) ∈ the_dict' → (key, x) ∈ the_dict
         ∨ ((key = list_key ∨ key = list_key +:+ "_excluded") ∧ ∃ sub, x = VList sub ∧ sub ⊆ l))
    ∧ (list_key +:+ "!" ∉ dict_keys the_dict') ∧ (list_key +:+ "/" ∉ dict_keys the_dict').
Proof.
  unfold filter_list, dict_index. intros Hrun.
  destruct (dict_get the_dict list_key) as [v|]; [|done]. cbn [mbind result_bind] in Hrun.
  apply bind_Ok in Hrun as (l&Hl&Hrun). destruct v as [| |l0|]; try done. injection Hl as <-. exists l0.
  split; [done|].
  apply bind_Ok in Hrun as ([acts1 d1]&Hstep1&Hrun).
  assert ((∀ p, p ∈ d1 → p ∈ the_dict) ∧ (list_key +:+ "!" ∉ dict_keys d1)) as [Hsub1 Hno1].
  { destruct (dict_get the_dict (list_key +:+ "!")) as [v|] eqn:Hv.
    - apply bind_Ok in Hstep1 as (items&_&[= <- <-]). split.
      + intros p Hp. by apply list_elem_of_filter in Hp as [_ ?].
      + rewrite elem_of_dict_keys_del. naive_solver.
    - injection Hstep1 as <- <-. split; [done|by apply dict_get_None]. }
  apply bind_Ok in Hrun as ([acts2 d2]&Hstep2&Hrun).
  assert ((∀ p, p ∈ d2 → p ∈ d1) ∧ (list_key +:+ "/" ∉ dict_keys d2)) as [Hsub2 Hno2].
  { destruct (dict_get d1 (list_key +:+ "/")) as [v|] eqn:Hv.
    - apply bind_Ok in Hstep2 as (items&_&Hstep2). apply bind_Ok in Hstep2 as (acts&_&[= <- <-]). split.
      + intros p Hp. by apply list_elem_of_filter in Hp as [_ ?].
      + rewrite elem_of_dict_keys_del. naive_solver.
    - injection Hstep2 as <- <-. split; [done|by apply dict_get_None]. }
  clear Hstep1 Hstep2. apply bind_Ok in Hrun as ([]&_&Hrun).
  assert (Hno1' : list_key +:+ "!" ∉ dict_keys d2).
  { intros Hin. apply Hno1. apply list_elem_of_fmap in Hin as (p&->&Hp). apply list_elem_of_fmap. eauto. }
  destruct (take_excluded_subset (length acts2) acts2 l0 []) as [Hkept Hout].
  destruct (take_excluded (length acts2) acts2 l0 []) as [kept out]. rewrite app_nil_r in Hout. simpl in *.
  injection Hrun as <-. split.
  - intros key x Hin. case_bool_decide.
    + apply dict_set_item in Hin as [Hin|[-> ->]]; [left; auto|right; eauto].
    + apply dict_set_item in Hin as [Hin|[-> ->]]; [|right; eauto].
      apply dict_set_item in Hin as [Hin|[-> ->]]; [left; auto|right; eauto].
  - assert (Hne : ∀ s, s ≠ "" → s ≠ "_excluded" → list_key +:+ s ∉ dict_keys d2 →
      list_key +:+ s ∉ dict_keys (if out ==? [] then dict_set d2 list_key (VList kept)
        else dict_set (dict_set d2 list_key (VList kept)) (list_key +:+ "_excluded") (VList out))).
    { intros s Hs Hs' Hn. case_bool_decide; rewrite !elem_of_dict_keys_set.
      - intros [?|?]; [by apply (suffix_self list_key s)|done].
      - intros [?|[?|?]]; [by eapply Hs', suffix_inj|by apply (suffix_self list_key s)|done]. }
    split; by apply Hne.
Qed.

Lemma op_key_excluded list_key : op_key (list_key +:+ "_excluded") = false.
Proof. unfold op_key, str_last. rewrite chars_app. simpl. rewrite last_app. by vm_compute. Qed.

(** After the loops, no key of the dictionary names a filter. *)
Lemma filter_lists_keys name the_dict the_dict' :
  filter_lists name the_dict = Ok the_dict' → ∀ key, key ∈ dict_keys the_dict' → op_key key = false.
Proof.
  unfold filter_lists. intros Hrun. apply bind_Ok in Hrun as ([lists dels]&Hcollect&Hrun).
  assert (Hcov : ∀ key, key ∈ dict_keys the_dict → op_key key = true →
            key ∈ dels ∨ ∃ k, k ∈ lists ∧ (key = k +:+ "!" ∨ key = k +:+ "/")).
  { assert (Hgen : ∀ items st st', for_each items st (collect_list name the_dict) = Ok st' →
      st.1 ⊆ st'.1 ∧ st.2 ⊆ st'.2 ∧ ∀ key, key ∈ dict_keys items → op_key key = true →
        key ∈ st'.2 ∨ ∃ k, k ∈ st'.1 ∧ (key = k +:+ "!" ∨ key = k +:+ "/")).
    { intros items. induction items as [|[key v] items IH]; intros st st' Hfor; cbn [for_each] in Hfor.
      { injection Hfor as <-. split_and!; [done..|]. by intros ? ?%elem_of_nil. }
      apply bind_Ok in Hfor as (st1&Hstep&Hfor). apply IH in Hfor as (Hs1&Hs2&Hcov).
      destruct st as [lists0 dels0]. unfold collect_list in Hstep.
      destruct (str_last key) as [op|] eqn:Hlast; [|done].
      assert (lists0 ⊆ st1.1 ∧ dels0 ⊆ st1.2 ∧ (is_operation op = true →
                key ∈ st1.2 ∨ str_init key ∈ st1.1)) as (Hl&Hd&Hk).
      { destruct (is_operation op) eqn:Hop; cbn [negb] in Hstep; [|by injection Hstep as <-].
        destruct (is_list v); cbn [negb] in Hstep; [|done].
        destruct (dict_get the_dict (str_init key)) as [old|].
        - destruct (is_list old); [|done]. injection Hstep as <-. simpl. case_bool_decide; [by auto|].
          split_and!; [set_solver|done|]. right. set_solver.
        - injection Hstep as <-. simpl. split_and!; [done|set_solver|]. left. set_solver. }
      split_and!; [set_solver..|]. intros key' Hin Hop. apply elem_of_cons in Hin as [->|Hin]; [|by apply Hcov].
      unfold op_key in Hop. cbn [fst] in Hop. rewrite Hlast in Hop. destruct (Hk Hop) as [?|?]; [left; set_solver|].
      right. exists (str_init key). split; [set_solver|]. apply str_init_last in Hlast.
      unfold is_operation in Hop. apply bool_decide_eq_true in Hop. cbn [fst].
      apply elem_of_cons in Hop as [->| ->%list_elem_of_singleton]; auto. }
    apply Hgen in Hcollect as (_&_&?). done. }
  assert (Hdel : ∀ l (d : pydict) key, key ∈ dict_keys (foldl dict_del d l) → key ∈ dict_keys d ∧ key ∉ l).
  { clear. intros l. induction l as [|x l IH]; intros d key Hin; cbn [foldl] in Hin.
    - split; [done|apply not_elem_of_nil].
    - apply IH in Hin as [Hin ?]. apply elem_of_dict_keys_del in Hin as [??]. split; [done|]. set_solver. }
  assert (Hloop : ∀ ls d d', for_each ls d (filter_list name) = Ok d' →
    ∀ key, op_key key = true → key ∈ dict_keys d' →
      key ∈ dict_keys d ∧ ∀ k, k ∈ ls → key ≠ k +:+ "!" ∧ key ≠ k +:+ "/").
  { clear. intros ls. induction ls as [|k ls IH]; intros d d' Hfor key Hop Hkey; cbn [for_each] in Hfor.
    { injection Hfor as <-. split; [done|]. by intros ? ?%elem_of_nil. }
    apply bind_Ok in Hfor as (d1&Hstep&Hfor). destruct (IH _ _ Hfor key Hop Hkey) as [Hin Hrest].
    apply filter_list_items in Hstep as (l&Hl&Hitems&Hno1&Hno2).
    assert (Hd : key ∈ dict_keys d).
    { apply list_elem_of_fmap in Hin as ([key' x]&->&Hin). apply Hitems in Hin as [Hin|([->| ->]&_)].
      - apply list_elem_of_fmap. by exists (key', x).
      - apply dict_get_is_Some. by eexists.
      - simpl in Hop. by rewrite op_key_excluded in Hop. }
    split; [done|]. intros k' [->|Hk']%elem_of_cons; [|by apply Hrest]. by split; intros ->. }
  intros key Hkey. destruct (op_key key) eqn:Hop; [|done].
  destruct (Hloop _ _ _ Hrun key Hop Hkey) as [Hin Hnot]. apply Hdel in Hin as [Hin Hdels].
  destruct (Hcov key Hin Hop) as [?|(k&Hk&Heq)]; [done|]. destruct (Hnot k Hk). naive_solver.
Qed.

Lemma process_list_filters_clean fuel name v v' :
  process_list_filters fuel name v = Ok v' → clean v' = true.
Proof.
  revert name v v'. induction fuel as [|fuel IH]; intros name v v' Hrun; [done|].
  cbn [process_list_filters] in Hrun. destruct v as [s|z|l|d]; [by injection Hrun as <-..| |].
  - apply fmap_Ok in Hrun as (l'&Hl&->). cbn [clean]. apply forallb_forall. intros x Hx.
    apply list_elem_of_In in Hx. apply map_result_Ok in Hl.
    apply list_elem_of_lookup in Hx as [i Hi].
    eapply Forall2_lookup_r in Hl as (y&_&Hy); [|exact Hi]. by eapply IH.
  - apply bind_Ok in Hrun as (d1&Hf&Hrun). apply bind_Ok in Hrun as (d2&Hm&Hrun). injection Hrun as <-.
    cbn [clean]. apply forallb_forall. intros [k x] Hx. apply list_elem_of_In in Hx.
    apply map_result_Ok in Hm. apply list_elem_of_lookup in Hx as [i Hi].
    eapply Forall2_lookup_r in Hm as ([k' y]&Hi'&Hy); [|exact Hi].
    apply bind_Ok in Hy as (x'&Hx'&[= -> ->]). apply IH in Hx'. simpl. rewrite Hx', andb_true_r, negb_true_iff.
    apply (filter_lists_keys name d d1 Hf). apply list_elem_of_fmap. exists (k, y).
    split; [done|]. by eapply list_elem_of_lookup_2.
Qed.

(** ** Termination *)

Lemma filter_lists_terminates name the_dict : terminates (filter_lists name the_dict).
Proof.
  assert (∀ v, terminates (iter_items v)) by (by intros []).
  unfold filter_lists, collect_list, filter_list, apply_regex_item, apply_pattern. solve_terminates.
Qed.

Lemma list_max_elem l n : n ∈ l → n ≤ list_max l.
Proof. intros Hn. pose proof (proj1 (list_max_le l (list_max l)) (le_n _)) as Hall. rewrite List.Forall_forall in Hall. apply Hall. by apply list_elem_of_In. Qed.

Lemma depth_list x l : x ∈ l → depth x < depth (VList l).
Proof. intros Hx. cbn [depth]. apply Nat.lt_succ_r, list_max_elem, list_elem_of_fmap. eauto. Qed.
Lemma depth_dict k x (d : pydict) : (k, x) ∈ d → depth x < depth (VDict d).
Proof. intros Hx. cbn [depth]. apply Nat.lt_succ_r, list_max_elem, list_elem_of_fmap. by exists (k, x). Qed.
Lemma depth_sublist sub l : sub ⊆ l → depth (VList sub) ≤ depth (VList l).
Proof.
  intros Hsub. cbn [depth]. apply le_n_S, list_max_le, List.Forall_forall. intros n Hn.
  apply list_elem_of_In, list_elem_of_fmap in Hn as (x&->&Hx). apply list_max_elem, list_elem_of_fmap. eauto.
Qed.

Lemma filter_lists_depth name the_dict the_dict' :
  filter_lists name the_dict = Ok the_dict' →
  ∀ k x, (k, x) ∈ the_dict' → depth x < depth (VDict the_dict).
Proof.
  unfold filter_lists. intros Hrun. apply bind_Ok in Hrun as ([lists dels]&_&Hrun).
  assert (Hdel : ∀ l (d : pydict) p, p ∈ foldl dict_del d l → p ∈ d).
  { clear. intros l. induction l as [|x l IH]; intros d p Hp; [done|]. apply IH in Hp.
    by apply list_elem_of_filter in Hp as [_ ?]. }
  pose (P := λ d : pydict, ∀ k x, (k, x) ∈ d → depth x < depth (VDict the_dict)).
  change (P the_dict'). eapply (for_each_inv P); [| |exact Hrun].
  - intros k x Hin%Hdel. by eapply depth_dict.
  - intros list_key d d' _ HP Hstep. apply filter_list_items in Hstep as (l&Hl&Hitems&_).
    intros k x [Hin|(_&sub&->&Hsub)]%Hitems; [by eapply HP|].
    apply dict_get_In, HP in Hl. pose proof (depth_sublist _ _ Hsub). lia.
Qed.

Lemma process_list_filters_terminates fuel name v :
  depth v < fuel → terminates (process_list_filters fuel name v).
Proof.
  revert name v. induction fuel as [|fuel IH]; intros name v Hd; [lia|]. cbn [process_list_filters].
  destruct v as [s|z|l|d]; [done..| |].
  - apply terminates_fmap, terminates_map_result. intros x Hx. apply IH. pose proof (depth_list _ _ Hx). lia.
  - apply terminates_bind; [apply filter_lists_terminates|]. intros d' Hd'.
    apply terminates_bind; [|done]. apply terminates_map_result. intros [k x] Hx.
    apply terminates_bind; [|done]. apply IH. pose proof (filter_lists_depth _ _ _ Hd' _ _ Hx). lia.
Qed.
End filters.

(** * Properties *)

(** The filters of a list are applied as documented: an item of the list is
    excluded when the last thing said about it is to exclude it (the exclusion
    list first, then the patterns in order, each overriding those before); the
    items kept and the items excluded stay in order, in the list and in its
    [_excluded] list, the filters themselves are gone, and no other key changes. *)
Theorem filter_list_correct re_compile name the_dict list_key l filters :
  filterable re_compile the_dict list_key l filters →
  ∃ the_dict', filter_list re_compile name list_key the_dict = Ok the_dict'
    ∧ ∀ key, dict_get the_dict' key =
        if decide (key = list_key)
        then Some (VList (VStr <$> filter (λ x, verdict_at the_dict list_key filters x ≠ 0%Z) l))
        else if decide (key = list_key +:+ "_excluded")
        then (let excluded := filter (λ x, verdict_at the_dict list_key filters x = 0%Z) l in
              if decide (excluded = []) then None else Some (VList (VStr <$> excluded)))
        else if decide (key ∈ [list_key +:+ "!"; list_key +:+ "/"]) then None
        else dict_get the_dict key.
Proof. apply filter_list_result. Qed.

(** Patterns that are searched for as they stand. *)
Definition plain_patterns (pattern : string) : option (string → bool) :=
  Some (λ s, bool_decide (is_Some (lfind (chars pattern) (chars s)))).

Definition sample_filters : pydict :=
  [("sources", VList [VStr "a_mac.cc"; VStr "a.cc"; VStr "b_win.cc"; VStr "c.cc"]);
   ("sources!", VList [VStr "c.cc"]);
   ("sources/", VList [VList [VStr "exclude"; VStr "_"]; VList [VStr "include"; VStr "_mac"]])].

Lemma filter_list_correct_witness :
  filter_list plain_patterns "t" "sources" sample_filters = Ok
    [("sources", VList [VStr "a_mac.cc"; VStr "a.cc"]);
     ("sources_excluded", VList [VStr "b_win.cc"; VStr "c.cc"])]
  ∧ ∃ the_dict', filter_list plain_patterns "t" "sources" sample_filters = Ok the_dict'
      ∧ dict_get the_dict' "sources!" = None.
Proof.
  split; [vm_compute; reflexivity|].
  destruct (filter_list_correct plain_patterns "t" sample_filters "sources"
    ["a_mac.cc"; "a.cc"; "b_win.cc"; "c.cc"]
    [(0%Z, λ s, bool_decide (is_Some (lfind (chars "_") (chars s))));
     (1%Z, λ s, bool_decide (is_Some (lfind (chars "_mac") (chars s))))]) as (d&Hd&Hget).
  - split; [reflexivity| | | |reflexivity].
    + intros v Hv. injection Hv as <-. reflexivity.
    + intros v Hv. injection Hv as <-. reflexivity.
    + repeat constructor.
  - exists d. split; [exact Hd|]. rewrite Hget. reflexivity.
Defined.

(** ProcessListFiltersInDict always ends, and where it returns no key at any
    depth of the result names a filter. *)
Theorem ProcessListFilters_clean re_compile fuel name v :
  depth v < fuel →
  terminates (process_list_filters re_compile fuel name v)
  ∧ ∀ v', process_list_filters re_compile fuel name v = Ok v' → clean v' = true.
Proof.
  intros Hd. split; [by apply process_list_filters_terminates|]. intros v'. apply process_list_filters_clean.
Qed.

Lemma ProcessListFilters_clean_witness :
  ∃ v', process_list_filters plain_patterns 4 "t" (VDict sample_filters) = Ok v' ∧ clean v' = true.
Proof.
  destruct (ProcessListFilters_clean plain_patterns 4 "t" (VDict sample_filters)) as [_ Hc].
  - vm_compute. lia.
  - eexists. split; [|apply Hc]; vm_compute; reflexivity.
Defined.
