(* ===== verification/Validate.v ===== *)
(** * Validation of targets

    The [Validate...InTarget] functions of tools/gyp/pylib/gyp/input.py, which run
    on finished targets, and [TurnIntIntoStrInDict], which runs last.  A validator
    returns or raises; ValidateRulesInTarget also adds the sources of each rule
    to it. *)
From S2P Require Import Prelude PyDict PyStr PyPath PyVal PyNum.
From Stdlib Require Import Ascii.

(** [%s] of [d.get(k)]. *)
Definition display (v : option pyval) : string :=
  match v with None => "None" | Some v => py_str v end.

(** [d.get(k)] as a truth value. *)
Definition get_true (d : pydict) (k : string) : bool :=
  match dict_get d k with Some v => truthy v | None => false end.

Definition VALID_TARGET_TYPES : list string :=
  ["executable"; "loadable_module"; "static_library"; "shared_library"; "none"].

(** [v in l], for a list of strings. *)
Definition opt_in (v : option pyval) (l : list string) : bool :=
  match v with Some (VStr s) => s in? l | _ => false end.

Definition ValidateTargetType (target : string) (target_dict : pydict) : result unit :=
  let target_type := dict_get target_dict "type" in
  _ ← raise_if (negb (opt_in target_type VALID_TARGET_TYPES))
        (GypError ("Target " +:+ target +:+ " has an invalid target type '" +:+ display target_type
          +:+ "'.  Must be one of " +:+ str_join "/" VALID_TARGET_TYPES +:+ "."));
  raise_if (get_true target_dict "standalone_static_library" && negb (opt_in target_type ["static_library"]))
    (GypError ("Target " +:+ target +:+ " has type " +:+ display target_type
       +:+ " but standalone_static_library flag is only valid for static_library type.")).

(** ** Sources *)

Definition compiled_extensions : list string :=
  [".c"; ".cc"; ".cpp"; ".cxx"; ".m"; ".mm"; ".s"; ".S"].

(** The key under which a source is counted, if it is compiled. *)
Definition source_basename (source : string) : option string :=
  let '(name, ext) := p_splitext (chars source) in
  if of_chars ext in? compiled_extensions then Some (of_chars (p_basename name)) else None.

(** [basenames.setdefault(basename, []).append(source)] *)
Definition add_basename (basenames : list (string * list string)) (source : string) :
    list (string * list string) :=
  match source_basename source with
  | Some basename =>
      dict_set basenames basename (default [] (dict_get basenames basename) ++ [source])
  | None => basenames
  end.

Definition ValidateSourcesInTarget (target : string) (target_dict : pydict) (build_file : string) : result unit :=
  if negb (opt_in (dict_get target_dict "type") ["static_library"; "shared_library"]) then Ok tt
  else
    sources ← get_strs target_dict "sources";
    let basenames := foldl add_basename [] sources in
    let error := concat ((λ '(basename, files),
      if 1 <? length files then ["  " +:+ basename +:+ ": " +:+ str_join " " files +:+ newline] else []) <$> basenames) in
    raise_if (negb (error ==? [])) (GypError "Duplicate basenames in sources section, see list above").

(** ** Rules *)

(** [if s.startswith('.'): s = s[1:]] *)
Definition strip_dot (s : string) : string :=
  match s with String "."%char s' => s' | _ => s end.

Definition source_extension (source : string) : string :=
  strip_dot (of_chars (p_splitext (chars source)).2).

(** The state of the loop over the rules: the names seen, the extensions seen with
    the rule of each, and the rules after their update. *)
Record rules_state := RulesState {
  rs_names : list string;
  rs_extensions : list (string * string);
  rs_rules : list pyval
}.

Definition validate_rule (target : string) (target_dict : pydict) (extra_sources_for_rules : list string)
    (v : pyval) (st : rules_state) : result rules_state :=
  rule ← as_dict v;
  rule_name ← (v ← dict_index rule "rule_name"; as_str v);
  _ ← raise_if (rule_name in? rs_names st)
        (GypError ("rule " +:+ rule_name +:+ " exists in duplicate, target " +:+ target));
  rule_extension ← (v ← dict_index rule "extension"; as_str v);
  let rule_extension := strip_dot rule_extension in
  _ ← match dict_get (rs_extensions st) rule_extension with
      | Some other => Err (GypError ("extension " +:+ rule_extension +:+ " associated with multiple rules, target "
                            +:+ target +:+ " rules " +:+ other +:+ " and " +:+ rule_name))
      | None => Ok tt
      end;
  _ ← raise_if (dict_mem rule "rule_sources")
        (GypError ("rule_sources must not exist in input, target " +:+ target +:+ " rule " +:+ rule_name));
  sources ← map_result (get_strs target_dict) ("sources" :: extra_sources_for_rules);
  let rule_sources := filter (λ source, source_extension source = rule_extension) (concat sources) in
  let rule := if rule_sources ==? [] then rule
              else dict_set rule "rule_sources" (VList (VStr <$> rule_sources)) in
  Ok (RulesState (rs_names st ++ [rule_name]) (dict_set (rs_extensions st) rule_extension rule_name)
        (rs_rules st ++ [VDict rule])).

(** [ValidateRulesInTarget(target, target_dict, extra_sources_for_rules)], returning
    the updated target. *)
Definition ValidateRulesInTarget (target : string) (target_dict : pydict)
    (extra_sources_for_rules : list string) : result pydict :=
  match dict_get target_dict "rules" with
  | None => Ok target_dict
  | Some v =>
      rules ← as_list v;
      st ← for_each rules (RulesState [] [] []) (validate_rule target target_dict extra_sources_for_rules);
      Ok (dict_set target_dict "rules" (VList (rs_rules st)))
  end.

(** ** run_as and actions *)

Definition run_as_error (target_name : option pyval) (build_file text : string) : exn :=
  GypError ("The 'run_as' in target " +:+ display target_name +:+ " from file " +:+ build_file +:+ text).

Definition ValidateRunAsInTarget (target : string) (target_dict : pydict) (build_file : string) : result unit :=
  let target_name := dict_get target_dict "target_name" in
  match dict_get target_dict "run_as" with
  | None => Ok tt
  | Some v =>
      if negb (truthy v) then Ok tt
      else
        match v with
        | VDict run_as =>
            match dict_get run_as "action" with
            | None => Err (run_as_error target_name build_file " must have an 'action' section.")
            | Some action =>
                _ ← raise_if (negb (truthy action))
                      (run_as_error target_name build_file " must have an 'action' section.");
                _ ← raise_if (negb (is_list action))
                      (GypError ("The 'action' for 'run_as' in target " +:+ display target_name +:+ " from file "
                        +:+ build_file +:+ " must be a list."));
                _ ← match dict_get run_as "working_directory" with
                    | Some d => raise_if (truthy d && negb (is_str d))
                        (GypError ("The 'working_directory' for 'run_as' in target " +:+ display target_name
                          +:+ " in file " +:+ build_file +:+ " should be a string."))
                    | None => Ok tt
                    end;
                match dict_get run_as "environment" with
                | Some e => raise_if (truthy e && negb (is_dict e))
                    (GypError ("The 'environment' for 'run_as' in target " +:+ display target_name
                      +:+ " in file " +:+ build_file +:+ " should be a dictionary."))
                | None => Ok tt
                end
            end
        | _ => Err (run_as_error target_name build_file " should be a dictionary.")
        end
  end.

(** [v[0]], for a string or a list that is not empty. *)
Definition first_item (v : pyval) : result pyval :=
  match v with
  | VStr (String c _) => Ok (VStr (String c ""))
  | VList (x :: _) => Ok x
  | VDict _ => Err (KeyError "0")
  | VInt _ => Err (TypeError "int")
  | _ => Err IndexError
  end.

Definition validate_action (target_name : option pyval) (v : pyval) : result unit :=
  action ← as_dict v;
  _ ← raise_if (negb (get_true action "action_name"))
        (GypError ("Anonymous action in target " +:+ display target_name
           +:+ ".  An action must have an 'action_name' field."));
  _ ← raise_if (negb (dict_mem action "inputs"))
        (GypError ("Action in target " +:+ display target_name +:+ " has no inputs."));
  match dict_get action "action" with
  | None => Ok tt
  | Some action_command =>
      if truthy action_command then
        first ← first_item action_command;
        raise_if (negb (truthy first))
          (GypError ("Empty action as command in target " +:+ display target_name +:+ "."))
      else Ok tt
  end.

Definition ValidateActionsInTarget (target : string) (target_dict : pydict) (build_file : string) : result unit :=
  actions ← as_list (dict_get_default target_dict "actions" (VList []));
  for_each actions tt (λ action _, validate_action (dict_get target_dict "target_name") action).

(** ** Integers *)

(** TurnIntIntoStrInDict on dictionaries and TurnIntIntoStrInList on lists: every
    integer in the value becomes a string.  Keys are strings already. *)
Fixpoint TurnIntIntoStr (v : pyval) : pyval :=
  match v with
  | VStr s => VStr s
  | VInt z => VStr (str_of_int z)
  | VList l => VList (TurnIntIntoStr <$> l)
  | VDict d => VDict ((λ p, (p.1, TurnIntIntoStr p.2)) <$> d)
  end.

(** * Theorems *)

(** ** Sources *)

Lemma add_basename_count basenames source b :
  length (default [] (dict_get (add_basename basenames source) b)) =
    length (default [] (dict_get basenames b)) + (if decide (source_basename source = Some b) then 1 else 0).
Proof.
  unfold add_basename. destruct (source_basename source) as [b'|]; [|simpl; lia].
  rewrite dict_get_set. destruct (decide (b' = b)) as [->|Hne].
  - rewrite decide_True by done. simpl. rewrite length_app. simpl. lia.
  - rewrite decide_False by congruence. lia.
Qed.

Lemma add_basenames_count sources basenames b :
  length (default [] (dict_get (foldl add_basename basenames sources) b)) =
    length (default [] (dict_get basenames b)) + length (filter (λ s, source_basename s = Some b) sources).
Proof.
  revert basenames. induction sources as [|s sources IH]; intros basenames; cbn [foldl]; [simpl; lia|].
  rewrite IH, add_basename_count, filter_cons. case_decide; simpl; lia.
Qed.

Lemma add_basenames_wf sources basenames :
  dict_wf basenames → dict_wf (foldl add_basename basenames sources).
Proof.
  revert basenames. induction sources as [|s sources IH]; intros basenames Hwf; cbn [foldl]; [done|].
  apply IH. unfold add_basename. destruct (source_basename s); auto with gyp.
Qed.

(** Two compiled sources of a list, at different places, with one base name. *)
Definition colliding_sources (sources : list string) : Prop :=
  ∃ i j s1 s2 b, i < j ∧ sources !! i = Some s1 ∧ sources !! j = Some s2
    ∧ source_basename s1 = Some b ∧ source_basename s2 = Some b.

Lemma filter_two {A} (P : A → Prop) `{∀ x, Decision (P x)} (l : list A) :
  1 < length (filter P l) ↔ ∃ i j x y, i < j ∧ l !! i = Some x ∧ l !! j = Some y ∧ P x ∧ P y.
Proof.
  induction l as [|z l IH].
  { split; [simpl; lia|]. intros (i&j&x&y&_&Hi&_). by rewrite lookup_nil in Hi. }
  rewrite filter_cons. case_decide as Hz.
  - simpl. assert (1 < S (length (filter P l)) ↔ filter P l ≠ []) as ->.
    { destruct (filter P l); simpl; split; intros; try done; lia. }
    split.
    + intros Hne. destruct (filter P l) as [|y l'] eqn:Hf; [done|].
      assert (y ∈ filter P l) as Hy by (rewrite Hf; by left).
      apply list_elem_of_filter in Hy as [Py Hy]. apply list_elem_of_lookup in Hy as [j Hj].
      exists 0, (S j), z, y. split_and!; [lia|done..].
    + intros (i&j&x&y&Hij&Hi&Hj&Px&Py) Hnil. destruct j as [|j]; [lia|].
      apply (filter_nil_not_elem_of P l y) in Hnil; [|done]. apply Hnil. by eapply list_elem_of_lookup_2.
  - rewrite IH. split.
    + intros (i&j&x&y&Hij&Hi&Hj&Px&Py). exists (S i), (S j), x, y. split_and!; [lia|done..].
    + intros (i&j&x&y&Hij&Hi&Hj&Px&Py). destruct i as [|i]; [by simplify_eq/=|].
      destruct j as [|j]; [lia|]. exists i, j, x, y. split_and!; [lia|done..].
Qed.

Lemma ValidateSources_result target target_dict build_file sources :
  opt_in (dict_get target_dict "type") ["static_library"; "shared_library"] = true →
  get_strs target_dict "sources" = Ok sources →
  (ValidateSourcesInTarget target target_dict build_file = Ok tt ∧ ¬ colliding_sources sources)
  ∨ ((∃ msg, ValidateSourcesInTarget target target_dict build_file = Err (GypError msg))
     ∧ colliding_sources sources).
Proof.
  intros Hty Hs. unfold ValidateSourcesInTarget. rewrite Hty, Hs. cbn [negb mbind result_bind].
  set (basenames := foldl add_basename [] sources). set (error := concat _).
  assert (Herr : error ≠ [] ↔ colliding_sources sources).
  { assert (Hpos : colliding_sources sources ↔ ∃ b, 1 < length (default [] (dict_get basenames b))).
    { subst basenames. setoid_rewrite add_basenames_count. simpl. setoid_rewrite filter_two.
      unfold colliding_sources. naive_solver. }
    rewrite Hpos. split.
    - intros Hne. assert (∃ x, x ∈ error) as [x Hx].
      { clearbody error. destruct error as [|x ?]; [done|]. exists x. by left. }
      subst error.
      apply elem_of_concat in Hx as (l'&Hx&Hl).
      apply list_elem_of_fmap in Hl as ([b files]&->&Hin). exists b.
      apply dict_In_get in Hin; [|apply add_basenames_wf, NoDup_nil_2]. rewrite Hin. simpl.
      destruct (1 <? length files) eqn:Hlt; [by apply Nat.ltb_lt in Hlt|by apply elem_of_nil in Hx].
    - intros [b Hb] Hnil. subst error. destruct (dict_get basenames b) as [files|] eqn:Hg; [|simpl in Hb; lia].
      apply dict_get_In in Hg. simpl in Hb.
      assert (Hin : ("  " +:+ b +:+ ": " +:+ str_join " " files +:+ newline) ∈
                    concat ((λ '(basename, files), if 1 <? length files
                      then ["  " +:+ basename +:+ ": " +:+ str_join " " files +:+ newline] else []) <$> basenames)).
      { apply elem_of_concat. eexists. split; [|apply list_elem_of_fmap; exists (b, files); split; [reflexivity|done]].
        simpl. apply Nat.ltb_lt in Hb. rewrite Hb. by left. }
      rewrite Hnil in Hin. by apply elem_of_nil in Hin. }
  case_bool_decide as Hb; cbn [negb raise_if].
  - left. split; [done|]. intros Hc%Herr. done.
  - right. split; [by eexists|by apply Herr].
Qed.

(** ** Rules *)

(** What holds of the rules seen so far. *)
Record rules_inv (target_dict : pydict) (extra : list string) (done_ : list pyval) (st : rules_state) : Prop := {
  ri_names : NoDup (rs_names st);
  ri_extensions : dict_wf (rs_extensions st);
  ri_rules : Forall2 (λ v v', ∃ rule name ext sources,
      v = VDict rule ∧ dict_get rule "rule_name" = Some (VStr name) ∧ name ∈ rs_names st
      ∧ dict_get rule "extension" = Some (VStr ext) ∧ strip_dot ext ∈ dict_keys (rs_extensions st)
      ∧ map_result (get_strs target_dict) ("sources" :: extra) = Ok sources
      ∧ (let found := filter (λ s, source_extension s = strip_dot ext) (concat sources) in
         dict_get rule "rule_sources" = None
         ∧ v' = VDict (if found ==? [] then rule else dict_set rule "rule_sources" (VList (VStr <$> found)))))
    done_ (rs_rules st);
  ri_lengths : length (rs_names st) = length done_ ∧ length (rs_extensions st) = length done_
}.

Lemma rules_inv_step target target_dict extra done_ v st st' :
  rules_inv target_dict extra done_ st → validate_rule target target_dict extra v st = Ok st' →
  rules_inv target_dict extra (done_ ++ [v]) st'.
Proof.
  intros [Hn He Hr [Hl1 Hl2]] Hstep. unfold validate_rule in Hstep.
  apply bind_Ok in Hstep as (rule&Hrule&Hstep). apply bind_Ok in Hstep as (name&Hname&Hstep).
  apply bind_Ok in Hstep as ([]&Hdup&Hstep). apply bind_Ok in Hstep as (ext&Hext&Hstep).
  apply bind_Ok in Hstep as ([]&Hdupe&Hstep). apply bind_Ok in Hstep as ([]&Hno&Hstep).
  apply bind_Ok in Hstep as (sources&Hsources&Hstep). injection Hstep as <-.
  apply raise_if_Ok in Hdup, Hno. apply bool_decide_eq_false in Hdup. apply dict_mem_false, dict_get_None in Hno.
  assert (Hnew : strip_dot ext ∉ dict_keys (rs_extensions st)).
  { apply dict_get_None. by destruct (dict_get (rs_extensions st) (strip_dot ext)). }
  destruct v as [| | |d]; try done. injection Hrule as <-. unfold dict_index in Hname, Hext.
  destruct (dict_get d "rule_name") as [[s| | |]|] eqn:Hgn; try done. injection Hname as ->.
  destruct (dict_get d "extension") as [[s| | |]|] eqn:Hge; try done. injection Hext as ->.
  split; simpl.
  - apply NoDup_app. split_and!; [done| |apply NoDup_singleton]. by intros x Hx ->%list_elem_of_singleton.
  - by apply dict_set_wf.
  - apply Forall2_app.
    + eapply Forall2_impl; [exact Hr|]. intros w w' (r&n&e&ss&?&?&?&?&?&?&?). exists r, n, e, ss.
      rewrite elem_of_app, elem_of_dict_keys_set. naive_solver.
    + constructor; [|done]. exists d, name, ext, sources.
      rewrite elem_of_app, elem_of_dict_keys_set, list_elem_of_singleton. naive_solver.
  - rewrite (dict_set_new _ _ _ Hnew), !length_app. simpl. lia.
Qed.

Lemma ValidateRules_inv target target_dict extra rules st :
  for_each rules (RulesState [] [] []) (validate_rule target target_dict extra) = Ok st →
  rules_inv target_dict extra rules st.
Proof.
  intros Hrun.
  assert (Hgen : ∀ l pre st0, rules_inv target_dict extra pre st0 →
    for_each l st0 (validate_rule target target_dict extra) = Ok st → rules_inv target_dict extra (pre ++ l) st).
  { intros l. induction l as [|v l IH]; intros pre st0 Hinv Hfor; cbn [for_each] in Hfor.
    - injection Hfor as <-. by rewrite app_nil_r.
    - apply bind_Ok in Hfor as (st1&Hstep&Hfor). eapply rules_inv_step in Hstep; [|done].
      apply (IH _ _ Hstep) in Hfor. by rewrite <- app_assoc in Hfor. }
  apply (Hgen rules [] (RulesState [] [] [])); [|done]. split; simpl; [apply NoDup_nil_2..|constructor|done].
Qed.

(** ** Integers *)

(** No integer is left in a value. *)
Fixpoint no_ints (v : pyval) : bool :=
  match v with
  | VStr _ => true
  | VInt _ => false
  | VList l => forallb no_ints l
  | VDict d => forallb (λ p, no_ints p.2) d
  end.

Lemma TurnIntIntoStr_no_ints v : no_ints (TurnIntIntoStr v) = true.
Proof.
  induction v as [s|z|l IH|d IH] using pyval_ind; simpl; [done..| |];
    apply forallb_forall; intros x Hx; apply list_elem_of_In, list_elem_of_fmap in Hx as (y&->&Hy);
    rewrite Forall_forall in IH; by apply IH.
Qed.

Lemma TurnIntIntoStr_id v : no_ints v = true → TurnIntIntoStr v = v.
Proof.
  induction v as [s|z|l IH|d IH] using pyval_ind; simpl; intros Hn; [done..| |]; f_equal;
    rewrite Forall_forall in IH; rewrite forallb_forall in Hn.
  - rewrite <- (list_fmap_id l) at 2. apply list_fmap_ext. intros i x Hx. apply list_elem_of_lookup_2 in Hx.
    apply IH; [done|]. by apply Hn, list_elem_of_In.
  - rewrite <- (list_fmap_id d) at 2. apply list_fmap_ext. intros i [k x] Hx. apply list_elem_of_lookup_2 in Hx.
    simpl. f_equal. apply (IH (k, x)); [done|]. by apply (Hn (k, x)), list_elem_of_In.
Qed.

(** * Properties *)

(** For a library whose sources are a list of strings,
    ValidateSourcesInTarget raises exactly when two of the sources, at different
    places of the list, are compiled and have the same base name, and then it
    raises GypError. *)
Theorem ValidateSourcesInTarget_duplicates target target_dict build_file sources :
  opt_in (dict_get target_dict "type") ["static_library"; "shared_library"] = true →
  get_strs target_dict "sources" = Ok sources →
  (ValidateSourcesInTarget target target_dict build_file = Ok tt ∧ ¬ colliding_sources sources)
  ∨ ((∃ msg, ValidateSourcesInTarget target target_dict build_file = Err (GypError msg))
     ∧ colliding_sources sources).
Proof. apply ValidateSources_result. Qed.

Definition sample_library : pydict :=
  [("type", VStr "static_library");
   ("sources", VList [VStr "x/a.cc"; VStr "a.h"; VStr "b.c"; VStr "y/a.mm"])].

Lemma ValidateSourcesInTarget_duplicates_witness :
  opt_in (dict_get sample_library "type") ["static_library"; "shared_library"] = true
  ∧ colliding_sources ["x/a.cc"; "a.h"; "b.c"; "y/a.mm"].
Proof.
  split; [reflexivity|].
  destruct (ValidateSourcesInTarget_duplicates "t" sample_library "x.gyp" ["x/a.cc"; "a.h"; "b.c"; "y/a.mm"])
    as [[Hok _]|[_ Hc]]; [reflexivity|reflexivity| |exact Hc].
  vm_compute in Hok. discriminate.
Defined.

(** Where ValidateRulesInTarget returns, the names of the rules are distinct,
    as are their extensions, and each rule has become the rule with its
    [rule_sources]: the sources, of all the lists to scan, in order, that have
    the rule's extension, or no such key where there are none. *)
Theorem ValidateRulesInTarget_sources target target_dict extra rules target_dict' :
  dict_get target_dict "rules" = Some (VList rules) →
  ValidateRulesInTarget target target_dict extra = Ok target_dict' →
  ∃ st, target_dict' = dict_set target_dict "rules" (VList (rs_rules st))
    ∧ rules_inv target_dict extra rules st.
Proof.
  intros Hrules Hrun. unfold ValidateRulesInTarget in Hrun. rewrite Hrules in Hrun.
  cbn [as_list mbind result_bind] in Hrun. apply bind_Ok in Hrun as (st&Hfor&[= <-]).
  exists st. split; [done|]. by eapply ValidateRules_inv.
Qed.

Definition sample_rules : pydict :=
  [("sources", VList [VStr "a.idl"; VStr "b.cc"; VStr "c.idl"]);
   ("rules", VList [VDict [("rule_name", VStr "idl"); ("extension", VStr ".idl")];
                    VDict [("rule_name", VStr "asm"); ("extension", VStr "asm")]])].

Lemma ValidateRulesInTarget_sources_witness :
  ∃ st, dict_set sample_rules "rules" (VList (rs_rules st)) =
      [("sources", VList [VStr "a.idl"; VStr "b.cc"; VStr "c.idl"]);
       ("rules", VList [VDict [("rule_name", VStr "idl"); ("extension", VStr ".idl");
                               ("rule_sources", VList [VStr "a.idl"; VStr "c.idl"])];
                        VDict [("rule_name", VStr "asm"); ("extension", VStr "asm")]])]
    ∧ NoDup (rs_names st).
Proof.
  destruct (ValidateRulesInTarget_sources "t" sample_rules []
    [VDict [("rule_name", VStr "idl"); ("extension", VStr ".idl")];
     VDict [("rule_name", VStr "asm"); ("extension", VStr "asm")]]
    [("sources", VList [VStr "a.idl"; VStr "b.cc"; VStr "c.idl"]);
     ("rules", VList [VDict [("rule_name", VStr "idl"); ("extension", VStr ".idl");
                             ("rule_sources", VList [VStr "a.idl"; VStr "c.idl"])];
                      VDict [("rule_name", VStr "asm"); ("extension", VStr "asm")]])]) as (st&Heq&Hinv).
  - reflexivity.
  - vm_compute. reflexivity.
  - exists st. split; [symmetry; exact Heq|apply Hinv].
Defined.

(** after TurnIntIntoStr no integer is left at any depth, and a value without
    integers does not change; so doing it twice is doing it once. *)
Theorem TurnIntIntoStr_normalises v :
  no_ints (TurnIntIntoStr v) = true ∧ (no_ints v = true → TurnIntIntoStr v = v)
  ∧ TurnIntIntoStr (TurnIntIntoStr v) = TurnIntIntoStr v.
Proof.
  split; [apply TurnIntIntoStr_no_ints|]. split; [apply TurnIntIntoStr_id|].
  apply TurnIntIntoStr_id, TurnIntIntoStr_no_ints.
Qed.
