(* ===== verification/Targets.v ===== *)
(** * Targets and their dependency lists

    The passes of tools/gyp/pylib/gyp/input.py that turn loaded build files into a
    dictionary of targets and bring the dependency lists into their final form:
    [BuildTargetsDict], [QualifyDependencies], [RemoveSelfDependencies],
    [ExpandWildcardDependencies], [RemoveDuplicateDependencies],
    [PruneUnwantedTargets] and [VerifyNoCollidingTargets].

    The dictionaries of the targets are shared between the dictionary of targets
    and the data of the build files.  The passes change the dependency lists
    through the former and read only names, toolsets and suppress_wildcard from
    the latter, so the model keeps the two apart. *)
From stdpp Require Import relations.
From S2P Require Import Prelude PyDict PySet PyStr PyPath PyVal PyNum Common Merge Dfs DepGraph DepList.
From Stdlib Require Import Ascii.

(** The [data] of a run: the names of the .gyp files, and the contents of all
    loaded files. *)
Record build_data := BuildData {
  target_build_files : list string;
  build_file_dicts : list (string * pydict)
}.

Definition build_file_dict (data : build_data) (build_file : string) : result pydict :=
  match dict_get (build_file_dicts data) build_file with
  | Some d => Ok d
  | None => Err (KeyError build_file)
  end.

(** [d[k]], taken for a string. *)
Definition index_str (d : pydict) (k : string) : result string := v ← dict_index d k; as_str v.

(** The qualified name of a target dictionary of [build_file]. *)
Definition qualified_name (build_file : string) (target : pydict) : result string :=
  target_name ← index_str target "target_name";
  toolset ← index_str target "toolset";
  Ok (QualifiedTarget build_file target_name (Some toolset)).

(** One iteration of the inner loop of BuildTargetsDict. *)
Definition add_target (build_file : string) (v : pyval) (targets : list (string * pydict)) :
    result (list (string * pydict)) :=
  target ← as_dict v;
  target_name ← qualified_name build_file target;
  _ ← raise_if (dict_mem targets target_name) (GypError ("Duplicate target definitions for " +:+ target_name));
  Ok (dict_set targets target_name target).

Definition BuildTargetsDict (data : build_data) : result (list (string * pydict)) :=
  for_each (target_build_files data) [] (λ build_file targets,
    d ← build_file_dict data build_file;
    l ← as_list (dict_get_default d "targets" (VList []));
    for_each l targets (add_target build_file)).

(** ** Qualifying the names *)
Section qualify.
Context `{Globals} `{RealPath}.

(** [dep + op for dep in dependency_sections for op in ('', '!', '/')] *)
Definition all_dependency_sections : list string :=
  concat ((λ dep, (λ op, dep +:+ op) <$> [""; "!"; "/"]) <$> dependency_sections).

(** The qualified form of one dependency. *)
Definition qualify_dependency (target_build_file : option string) (toolset dependency : string) : result string :=
  let '(dep_file, dep_target, dep_toolset) := ResolveTarget target_build_file dependency (Some toolset) in
  let dep_toolset := if multiple_toolsets then dep_toolset else Some toolset in
  match dep_file with
  | Some dep_file => Ok (QualifiedTarget dep_file dep_target dep_toolset)
  | None => Err (TypeError "NoneType")
  end.

(** One iteration over a dependency list; the list is updated in place. *)
Definition qualify_at (target : string) (target_build_file : option string) (toolset dependency_key : string)
    (index : nat) (target_dict : pydict) : result pydict :=
  dependencies ← as_list (dict_get_default target_dict dependency_key (VList []));
  match dependencies !! index with
  | None => Err IndexError
  | Some v =>
      dependency ← as_str v;
      dependency ← qualify_dependency target_build_file toolset dependency;
      let target_dict := dict_set target_dict dependency_key (VList (<[index := VStr dependency]> dependencies)) in
      if dependency_key ==? "dependencies" then Ok target_dict
      else
        all ← (v ← dict_index target_dict "dependencies"; as_list v);
        _ ← raise_if (negb (py_in (VStr dependency) all))
              (GypError ("Found " +:+ dependency +:+ " in " +:+ dependency_key +:+ " of " +:+ target
                 +:+ ", but not in dependencies"));
        Ok target_dict
  end.

Definition qualify_section (target : string) (target_build_file : option string) (toolset dependency_key : string)
    (target_dict : pydict) : result pydict :=
  dependencies ← as_list (dict_get_default target_dict dependency_key (VList []));
  for_each (seq 0 (length dependencies)) target_dict
    (qualify_at target target_build_file toolset dependency_key).

Definition qualify_target (target : string) (target_dict : pydict) : result pydict :=
  let target_build_file := BuildFile target in
  toolset ← index_str target_dict "toolset";
  for_each all_dependency_sections target_dict (qualify_section target target_build_file toolset).

(** A pass that updates each target by itself. *)
Definition update_targets (f : string → pydict → result pydict) (targets : list (string * pydict)) :
    result (list (string * pydict)) :=
  map_result (λ '(target, target_dict), target_dict ← f target target_dict; Ok (target, target_dict)) targets.

Definition QualifyDependencies (targets : list (string * pydict)) : result (list (string * pydict)) :=
  update_targets qualify_target targets.
End qualify.

(** ** Wildcards *)

(** The targets of [build_file] that a wildcard stands for. *)
Definition wildcard_target (dependency_build_file dependency_target : string) (dependency_toolset : option string)
    (v : pyval) : result (list string) :=
  target ← as_dict v;
  suppress ← py_int (dict_get_default target "suppress_wildcard" (VInt 0));
  if negb (suppress =? 0)%Z then Ok []
  else
    dependency_target_name ← index_str target "target_name";
    if negb (dependency_target ==? "*") && negb (dependency_target ==? dependency_target_name) then Ok []
    else
      dependency_target_toolset ← index_str target "toolset";
      if negb (dependency_toolset ==? Some "*") && negb (dependency_toolset ==? Some dependency_target_toolset)
      then Ok []
      else Ok [QualifiedTarget dependency_build_file dependency_target_name (Some dependency_target_toolset)].

Definition is_wildcard (dependency : string) : bool :=
  let '(_, dependency_target, dependency_toolset) := ParseQualifiedTarget dependency in
  (dependency_target ==? "*") || (dependency_toolset ==? Some "*").

(** What is inserted for a wildcard. *)
Definition wildcard_expansion (data : build_data) (target dependency_key : string)
    (target_build_file : option string) (dependency : string) : result (list string) :=
  let '(dependency_build_file, dependency_target, dependency_toolset) := ParseQualifiedTarget dependency in
  _ ← raise_if (dependency_build_file ==? target_build_file)
        (GypError ("Found wildcard in " +:+ dependency_key +:+ " of " +:+ target +:+ " referring to same build file"));
  match dependency_build_file with
  | None => Err (KeyError "None")
  | Some dependency_build_file =>
      d ← build_file_dict data dependency_build_file;
      dependency_target_dicts ← (v ← dict_index d "targets"; as_list v);
      names ← map_result (wildcard_target dependency_build_file dependency_target dependency_toolset)
                dependency_target_dicts;
      Ok (concat names)
  end.

(** [dependencies.insert(index, x)] for each [x], counting [index] up. *)
Fixpoint insert_all (index : nat) (names dependencies : list string) : list string :=
  match names with
  | [] => dependencies
  | x :: names => insert_all (S index) names (take index dependencies ++ x :: drop index dependencies)
  end.

(** The [while] loop over one list; a wildcard at [index] is deleted, its
    expansion inserted there, and the loop goes on behind it. *)
Fixpoint expand_loop (fuel : nat) (data : build_data) (target dependency_key : string)
    (target_build_file : option string) (index : nat) (dependencies : list string) : result (list string) :=
  match fuel with
  | 0 => Err OutOfFuel
  | S fuel =>
      match dependencies !! index with
      | None => Ok dependencies
      | Some dependency =>
          if negb (is_wildcard dependency)
          then expand_loop fuel data target dependency_key target_build_file (S index) dependencies
          else
            names ← wildcard_expansion data target dependency_key target_build_file dependency;
            let dependencies := insert_all index names (delete index dependencies) in
            expand_loop fuel data target dependency_key target_build_file (index + length names) dependencies
      end
  end.

Definition expand_section (data : build_data) (target : string) (target_build_file : option string)
    (dependency_key : string) (target_dict : pydict) : result pydict :=
  match dict_get target_dict dependency_key with
  | None => Ok target_dict
  | Some v =>
      dependencies ← as_strs v;
      dependencies ← expand_loop (S (length dependencies)) data target dependency_key target_build_file 0 dependencies;
      Ok (dict_set target_dict dependency_key (VList (VStr <$> dependencies)))
  end.

Definition ExpandWildcardDependencies (targets : list (string * pydict)) (data : build_data) :
    result (list (string * pydict)) :=
  update_targets (λ target target_dict,
    _ ← dict_index target_dict "toolset";
    for_each dependency_sections target_dict (expand_section data target (BuildFile target))) targets.

(** ** Duplicates and self-dependencies *)

(** [Unify(l)] *)
Definition unify_step (st : list (string * string) * list string) (e : string) :=
  let '(seen, out) := st in
  if dict_mem seen e then st
  else let '(x, seen) := dict_setdefault seen e e in (seen, out ++ [x]).
Definition Unify (l : list string) : list string := (foldl unify_step ([], []) l).2.

Definition RemoveDuplicateDependencies (targets : list (string * pydict)) : result (list (string * pydict)) :=
  update_targets (λ target target_dict,
    for_each dependency_sections target_dict (λ dependency_key target_dict,
      dependencies ← get_strs target_dict dependency_key;
      Ok (if dependencies ==? [] then target_dict
          else dict_set target_dict dependency_key (VList (VStr <$> Unify dependencies))))) targets.

(** [Filter(l, item)]; [setdefault] returns the element itself. *)
Definition Filter (l : list string) (item : string) : list string := filter (λ e, e ≠ item) l.

(** [targets[t].get('variables', {}).get('prune_self_dependency', 0)] *)
Definition prunes_itself (target_dict : pydict) : result bool :=
  variables ← as_dict (dict_get_default target_dict "variables" (VDict []));
  Ok (truthy (dict_get_default variables "prune_self_dependency" (VInt 0))).

Definition RemoveSelfDependencies (targets : list (string * pydict)) : result (list (string * pydict)) :=
  update_targets (λ target_name target_dict,
    for_each dependency_sections target_dict (λ dependency_key target_dict,
      dependencies ← get_strs target_dict dependency_key;
      for_each dependencies target_dict (λ t target_dict,
        if t ==? target_name then
          (prune ← prunes_itself target_dict;
           Ok (if (prune : bool)
               then dict_set target_dict dependency_key (VList (VStr <$> Filter dependencies target_name))
               else target_dict))
        else Ok target_dict))) targets.

(** ** Pruning *)
(** The targets that a root target names. *)
Definition root_targets_of (flat_list : list string) (root_targets : list string) : result (list string) :=
  names ← map_result (λ target,
    let target := str_strip target in
    let qualified_targets := FindQualifiedTargets target flat_list in
    _ ← raise_if (qualified_targets ==? []) (GypError ("Could not find target " +:+ target));
    Ok qualified_targets) root_targets;
  Ok (concat names).

(** [targets[target]] *)
Definition target_of (targets : list (string * pydict)) (target : string) : result pydict :=
  match dict_get targets target with Some d => Ok d | None => Err (KeyError target) end.

(** One iteration of the loop that collects [wanted_targets]. *)
Definition want_target (targets : list (string * pydict)) (dependency_nodes : gmap (option string) (dgnode string))
    (target : string) (wanted_targets : list (string * pydict)) : result (list (string * pydict)) :=
  d ← target_of targets target;
  let wanted_targets := dict_set wanted_targets target d in
  dependencies ← DeepDependencies (S (S (size dependency_nodes))) dependency_nodes (Some target) [];
  for_each dependencies wanted_targets (λ dependency wanted_targets,
    d ← target_of targets dependency; Ok (dict_set wanted_targets dependency d)).

(** The targets of one build file that are wanted. *)
Definition prune_build_file (wanted_targets : list (string * pydict)) (build_file : string) (data : build_data) :
    result build_data :=
  d ← build_file_dict data build_file;
  match dict_get d "targets" with
  | None => Ok data
  | Some v =>
      l ← as_list v;
      new_targets ← map_result (λ v, target ← as_dict v; name ← qualified_name build_file target;
        Ok (if dict_mem wanted_targets name then [v] else [])) l;
      Ok (BuildData (target_build_files data)
            (dict_set (build_file_dicts data) build_file (dict_set d "targets" (VList (concat new_targets)))))
  end.

Definition PruneUnwantedTargets (targets : list (string * pydict)) (flat_list : list string)
    (dependency_nodes : gmap (option string) (dgnode string)) (root_targets : list string) (data : build_data) :
    result (list (string * pydict) * list string * build_data) :=
  qualified_root_targets ← root_targets_of flat_list root_targets;
  wanted_targets ← for_each qualified_root_targets [] (want_target targets dependency_nodes);
  let wanted_flat_list := filter (λ t, dict_mem wanted_targets t = true) flat_list in
  data ← for_each (target_build_files data) data (prune_build_file wanted_targets);
  Ok (wanted_targets, wanted_flat_list, data).
(** ** Collisions *)

(** The directory, the file and the name of a target. *)
Definition target_location (target : string) : result (string * string * string) :=
  match str_rsplit1 ":" target with
  | None => Err (ValueError "unpack")
  | Some (path, name) =>
      let '(subdir, gyp) := p_split (chars path) in
      Ok (of_chars (if subdir ==? [] then dot else subdir), of_chars gyp, name)
  end.

Definition verify_target (target : string) (used : list (string * string)) : result (list (string * string)) :=
  '(subdir, gyp, name) ← target_location target;
  let key := subdir +:+ ":" +:+ name in
  match dict_get used key with
  | Some other => Err (GypError ("Duplicate target name " +:+ quoted name +:+ " in directory " +:+ quoted subdir
      +:+ " used both in " +:+ quoted gyp +:+ " and " +:+ quoted other +:+ "."))
  | None => Ok (dict_set used key gyp)
  end.

Definition VerifyNoCollidingTargets (targets : list string) : result unit :=
  _ ← for_each targets [] verify_target; Ok tt.

(** * Theorems *)

(** ** Targets of a run *)

Lemma add_target_result build_file v targets targets' :
  dict_wf targets → add_target build_file v targets = Ok targets' →
  ∃ d name, v = VDict d ∧ qualified_name build_file d = Ok name
    ∧ targets' = targets ++ [(name, d)] ∧ dict_wf targets'.
Proof.
  intros Hwf Hrun. unfold add_target in Hrun. apply bind_Ok in Hrun as (d&Hd&Hrun).
  apply bind_Ok in Hrun as (name&Hname&Hrun). apply bind_Ok in Hrun as ([]&Hnew&[= <-]).
  destruct v as [| | |d']; try done. injection Hd as ->.
  apply raise_if_Ok, dict_mem_false in Hnew. exists d, name.
  rewrite dict_set_new by done. split_and!; [done..|]. rewrite <- dict_set_new by done. auto with gyp.
Qed.

(** The targets of the files, in order, each with its qualified name. *)
Definition listed_targets (data : build_data) : result (list (string * pydict)) :=
  ls ← map_result (λ build_file,
    d ← build_file_dict data build_file;
    l ← as_list (dict_get_default d "targets" (VList []));
    map_result (λ v, d ← as_dict v; name ← qualified_name build_file d; Ok (name, d)) l) (target_build_files data);
  Ok (concat ls).

Lemma BuildTargetsDict_result data targets :
  BuildTargetsDict data = Ok targets → listed_targets data = Ok targets ∧ dict_wf targets.
Proof.
  unfold BuildTargetsDict, listed_targets.
  assert (Hinner : ∀ build_file l targets targets', dict_wf targets →
    for_each l targets (add_target build_file) = Ok targets' →
    ∃ new, map_result (λ v, d ← as_dict v; name ← qualified_name build_file d; Ok (name, d)) l = Ok new
      ∧ targets' = targets ++ new ∧ dict_wf targets').
  { intros b l. induction l as [|v l IH]; intros ts ts' Hwf Hrun; cbn [for_each] in Hrun.
    - injection Hrun as <-. exists []. by rewrite app_nil_r.
    - apply bind_Ok in Hrun as (ts1&Hstep&Hrun).
      apply add_target_result in Hstep as (d&name&->&Hname&->&Hwf1); [|done].
      apply IH in Hrun as (new&Hnew&->&Hwf'); [|done]. exists ((name, d) :: new).
      cbn [map_result as_dict mbind result_bind]. rewrite Hname. cbn [mbind result_bind]. rewrite Hnew.
      split_and!; [done|by rewrite <- app_assoc|done]. }
  assert (Houter : ∀ files ts ts', dict_wf ts →
    for_each files ts (λ build_file targets, d ← build_file_dict data build_file;
      l ← as_list (dict_get_default d "targets" (VList [])); for_each l targets (add_target build_file)) = Ok ts' →
    ∃ ls, map_result (λ build_file, d ← build_file_dict data build_file;
        l ← as_list (dict_get_default d "targets" (VList []));
        map_result (λ v, d ← as_dict v; name ← qualified_name build_file d; Ok (name, d)) l) files = Ok ls
      ∧ ts' = ts ++ concat ls ∧ dict_wf ts').
  { intros files. induction files as [|b files IH]; intros ts ts' Hwf Hrun; cbn [for_each] in Hrun.
    - injection Hrun as <-. exists []. by rewrite app_nil_r.
    - apply bind_Ok in Hrun as (ts1&Hstep&Hrun). apply bind_Ok in Hstep as (d&Hd&Hstep).
      apply bind_Ok in Hstep as (l&Hl&Hstep). apply Hinner in Hstep as (new&Hnew&->&Hwf1); [|done].
      apply IH in Hrun as (ls&Hls&->&Hwf'); [|done]. exists (new :: ls). cbn [map_result].
      rewrite Hd. cbn [mbind result_bind]. rewrite Hl. cbn [mbind result_bind]. rewrite Hnew. cbn [mbind result_bind].
      rewrite Hls. cbn [concat]. split_and!; [done|by rewrite <- app_assoc|done]. }
  intros Hrun. apply Houter in Hrun as (ls&Hls&->&Hwf); [|apply NoDup_nil_2]. by rewrite Hls.
Qed.

(** ** Wildcards *)

(** What one dependency is replaced with. *)
Definition expand_one (data : build_data) (target dependency_key : string)
    (target_build_file : option string) (dependency : string) : result (list string) :=
  if is_wildcard dependency then wildcard_expansion data target dependency_key target_build_file dependency
  else Ok [dependency].

Lemma insert_all_middle names l1 l2 : insert_all (length l1) names (l1 ++ l2) = l1 ++ names ++ l2.
Proof.
  revert l1. induction names as [|x names IH]; intros l1; [done|]. cbn [insert_all].
  rewrite take_app_length, drop_app_length. specialize (IH (l1 ++ [x])).
  rewrite length_app, Nat.add_1_r, <- !app_assoc in IH. exact IH.
Qed.

Lemma expand_loop_result fuel data target key target_build_file before rest :
  length rest < fuel →
  expand_loop fuel data target key target_build_file (length before) (before ++ rest)
  = ((λ names, before ++ concat names) <$> map_result (expand_one data target key target_build_file) rest).
Proof.
  revert before rest. induction fuel as [|fuel IH]; intros before rest Hf; [lia|]. cbn [expand_loop].
  destruct rest as [|d rest].
  { rewrite lookup_ge_None_2 by (rewrite app_nil_r; lia). simpl. by rewrite !app_nil_r. }
  rewrite lookup_app_r, Nat.sub_diag by lia. cbn [lookup list_lookup map_result]. simpl in Hf.
  destruct (is_wildcard d) eqn:Hw; cbn [negb].
  - assert (expand_one data target key target_build_file d
            = wildcard_expansion data target key target_build_file d) as -> by (unfold expand_one; by rewrite Hw).
    destruct (wildcard_expansion _ _ _ _ d) as [names|e]; cbn [mbind result_bind]; [|done].
    rewrite delete_middle, insert_all_middle.
    replace (length before + length names) with (length (before ++ names)) by (rewrite length_app; lia).
    rewrite app_assoc, IH by lia. destruct (map_result _ rest); simpl; [|done]. by rewrite <- app_assoc.
  - replace (S (length before)) with (length (before ++ [d])) by (rewrite length_app; simpl; lia).
    replace (before ++ d :: rest) with ((before ++ [d]) ++ rest) by (by rewrite <- app_assoc).
    assert (expand_one data target key target_build_file d = Ok [d]) as -> by (unfold expand_one; by rewrite Hw).
    rewrite IH by lia. cbn [mbind result_bind]. destruct (map_result _ rest); simpl; [|done].
    by rewrite <- app_assoc.
Qed.

(** ** Duplicates *)

(** Unify is uniquer with the element as its own marker. *)
Lemma Unify_uniquer l : Unify l = uniquer (λ e, e) l.
Proof.
  unfold Unify, uniquer.
  assert (Hgen : ∀ seen1 seen2 out, dict_keys seen1 = dict_keys seen2 →
    (foldl unify_step (seen1, out) l).2 = (foldl (uniquer_step (λ e, e)) (seen2, out) l).2);
    [|by apply Hgen].
  induction l as [|e l IH]; intros s1 s2 out Hk; [done|]. cbn [foldl].
  assert (Hmem : dict_mem s1 e = dict_mem s2 e).
  { apply eq_true_iff_eq. by rewrite !dict_mem_true, Hk. }
  assert (Hu : unify_step (s1, out) e = if dict_mem s2 e then (s1, out) else (dict_set s1 e e, out ++ [e])).
  { unfold unify_step. rewrite Hmem. destruct (dict_mem s2 e) eqn:Hm; [done|]. unfold dict_setdefault.
    apply dict_mem_false in Hm. rewrite <- Hk in Hm. by apply dict_get_None in Hm as ->. }
  rewrite Hu. unfold uniquer_step at 2. destruct (dict_mem s2 e); [by apply IH|]. apply IH.
  by rewrite !dict_keys_set, Hk.
Qed.

(** ** Pruning *)

(** The wanted targets: the roots and everything they depend on. *)
Definition wanted (g : gmap (option string) (dgnode string)) (roots : list string) (t : string) : Prop :=
  ∃ r, r ∈ roots ∧ (t = r ∨ tc (depends g) (Some r) (Some t)).

(** [acc] is the part of [targets] with the keys in [P]. *)
Definition part_of (targets acc : list (string * pydict)) (P : string → Prop) : Prop :=
  dict_wf acc ∧ (∀ t, t ∈ dict_keys acc ↔ P t) ∧ ∀ t, P t → dict_get acc t = dict_get targets t ∧ is_Some (dict_get targets t).

Lemma part_of_set targets acc P t d :
  part_of targets acc P → dict_get targets t = Some d →
  part_of targets (dict_set acc t d) (λ x, x = t ∨ P x).
Proof.
  intros (Hwf&Hk&Hg) Hd. split_and!; [by apply dict_set_wf|intros x; rewrite elem_of_dict_keys_set, Hk; done|].
  intros x Hx. destruct (decide (t = x)) as [->|Hne].
  - rewrite dict_get_set_eq, Hd. split; [done|by eexists].
  - rewrite dict_get_set_ne by done. destruct Hx as [->|Hx]; [done|by apply Hg].
Qed.

Lemma part_of_ext targets acc P Q : (∀ t, P t ↔ Q t) → part_of targets acc P → part_of targets acc Q.
Proof. intros HPQ (Hwf&Hk&Hg). split_and!; [done|intros t; by rewrite Hk|intros t Ht; apply Hg; by apply HPQ]. Qed.

Lemma target_of_Ok targets t d : target_of targets t = Ok d ↔ dict_get targets t = Some d.
Proof. unfold target_of. destruct (dict_get targets t); naive_solver. Qed.

Lemma want_target_result targets g t acc acc' P :
  graph_wf g → part_of targets acc P → want_target targets g t acc = Ok acc' →
  part_of targets acc' (λ x, P x ∨ x = t ∨ tc (depends g) (Some t) (Some x)).
Proof.
  intros Hwf Hp Hrun. unfold want_target in Hrun. apply bind_Ok in Hrun as (d&Hd%target_of_Ok&Hrun).
  destruct (DeepDependencies_result g (Some t) Hwf) as (deps&Hdeps&_&He). rewrite Hdeps in Hrun.
  cbn [mbind result_bind] in Hrun. apply (part_of_set _ _ _ t d) in Hp; [|done].
  assert (Hloop : ∀ l a Q, part_of targets a Q →
    for_each l a (λ dependency wanted, d ← target_of targets dependency; Ok (dict_set wanted dependency d)) = Ok acc' →
    part_of targets acc' (λ x, x ∈ l ∨ Q x)).
  { intros l. induction l as [|x l IH]; intros a Q Ha Hfor; cbn [for_each] in Hfor.
    - injection Hfor as <-. eapply part_of_ext; [|exact Ha]. intros y. rewrite elem_of_nil. tauto.
    - apply bind_Ok in Hfor as (a1&Hstep&Hfor). apply bind_Ok in Hstep as (dx&Hdx%target_of_Ok&[= <-]).
      eapply part_of_ext; [|exact (IH _ _ (part_of_set _ _ _ x dx Ha Hdx) Hfor)].
      intros y. cbn beta. rewrite elem_of_cons. tauto. }
  eapply part_of_ext; [|by eapply Hloop]. intros x. cbn beta. rewrite He. tauto.
Qed.

Lemma Prune_result targets flat g root_targets data wanted_targets wanted_flat data' :
  graph_wf g → PruneUnwantedTargets targets flat g root_targets data = Ok (wanted_targets, wanted_flat, data') →
  ∃ roots, root_targets_of flat root_targets = Ok roots
    ∧ part_of targets wanted_targets (wanted g roots)
    ∧ wanted_flat `sublist_of` flat ∧ ∀ t, t ∈ wanted_flat ↔ t ∈ flat ∧ wanted g roots t.
Proof.
  intros Hwf Hrun. unfold PruneUnwantedTargets in Hrun. apply bind_Ok in Hrun as (roots&Hroots&Hrun).
  apply bind_Ok in Hrun as (w&Hw&Hrun). apply bind_Ok in Hrun as (dt&_&[= <- <- <-]).
  exists roots. split; [done|].
  assert (Hloop : ∀ l a Q, part_of targets a Q → for_each l a (want_target targets g) = Ok w →
    part_of targets w (λ x, Q x ∨ wanted g l x)).
  { intros l. induction l as [|r l IH]; intros a Q Ha Hfor; cbn [for_each] in Hfor.
    - injection Hfor as <-. eapply part_of_ext; [|exact Ha]. intros y. unfold wanted. split; [by left|].
      intros [?|(?&?%elem_of_nil&_)]; done.
    - apply bind_Ok in Hfor as (a1&Hstep&Hfor). eapply want_target_result in Hstep; [|done..].
      eapply part_of_ext; [|by eapply IH]. intros y. cbn beta. unfold wanted. setoid_rewrite elem_of_cons.
      naive_solver. }
  assert (Hpart : part_of targets w (wanted g roots)).
  { eapply part_of_ext; [|eapply (Hloop roots [] (λ _, False)); [|exact Hw]]; [intros t; cbn beta; tauto|].
    split_and!; [apply NoDup_nil_2|intros t; simpl; by rewrite elem_of_nil|done]. }
  split; [done|]. split; [apply sublist_filter|]. intros t. rewrite list_elem_of_filter, dict_mem_true.
  destruct Hpart as (_&Hk&_). rewrite Hk. tauto.
Qed.

(** ** Collisions *)

(** Two targets collide: one directory, one name. *)
Definition collides (t1 t2 : string) : Prop :=
  ∃ subdir gyp1 gyp2 name, target_location t1 = Ok (subdir, gyp1, name) ∧ target_location t2 = Ok (subdir, gyp2, name).

Lemma collision_key_inj subdir1 name1 subdir2 name2 :
  (":"%char ∉ chars name1) → (":"%char ∉ chars name2) →
  subdir1 +:+ ":" +:+ name1 = subdir2 +:+ ":" +:+ name2 → subdir1 = subdir2 ∧ name1 = name2.
Proof.
  intros H1 H2 Heq.
  assert (str_rsplit1 ":" (subdir1 +:+ ":" +:+ name1) = Some (subdir1, name1)) as Hs1 by (by apply str_rsplit1_Some).
  assert (str_rsplit1 ":" (subdir2 +:+ ":" +:+ name2) = Some (subdir2, name2)) as Hs2 by (by apply str_rsplit1_Some).
  rewrite Heq, Hs2 in Hs1. by simplify_eq.
Qed.

Lemma target_location_name t subdir gyp name :
  target_location t = Ok (subdir, gyp, name) → ":"%char ∉ chars name.
Proof.
  unfold target_location. destruct (str_rsplit1 ":" t) as [[path nm]|] eqn:Hs; [|done].
  destruct (p_split (chars path)) as [sd gy]. intros [= _ _ <-]. by apply str_rsplit1_Some in Hs as [_ ?].
Qed.

Lemma VerifyNoColliding_result targets :
  (∀ t, t ∈ targets → ":"%char ∈ chars t) →
  match VerifyNoCollidingTargets targets with
  | Ok _ => ∀ i j t1 t2, i < j → targets !! i = Some t1 → targets !! j = Some t2 → ¬ collides t1 t2
  | Err (GypError _) => ∃ i j t1 t2, i < j ∧ targets !! i = Some t1 ∧ targets !! j = Some t2 ∧ collides t1 t2
  | Err _ => False
  end.
Proof.
  intros Hcolon. unfold VerifyNoCollidingTargets.
  assert (Hloc : ∀ t, t ∈ targets → ∃ s g n, target_location t = Ok (s, g, n)).
  { intros t Ht. unfold target_location. destruct (str_rsplit1 ":" t) as [[path nm]|] eqn:Hs.
    - destruct (p_split (chars path)). eauto.
    - apply str_rsplit1_None in Hs. by apply Hcolon in Ht. }
  assert (Hgen : ∀ l done_ used, targets = done_ ++ l →
    (∀ key, key ∈ dict_keys used ↔ ∃ t s g n, t ∈ done_ ∧ target_location t = Ok (s, g, n) ∧ key = s +:+ ":" +:+ n) →
    (∀ i j t1 t2, i < j → done_ !! i = Some t1 → done_ !! j = Some t2 → ¬ collides t1 t2) →
    match for_each l used verify_target with
    | Ok _ => ∀ i j t1 t2, i < j → targets !! i = Some t1 → targets !! j = Some t2 → ¬ collides t1 t2
    | Err (GypError _) => ∃ i j t1 t2, i < j ∧ targets !! i = Some t1 ∧ targets !! j = Some t2 ∧ collides t1 t2
    | Err _ => False
    end).
  { intros l. induction l as [|t l IH]; intros done_ used Heq Hused Hno; cbn [for_each].
    { rewrite app_nil_r in Heq. by subst. }
    destruct (Hloc t) as (s&g&n&Hl); [rewrite Heq; apply elem_of_app; right; by left|].
    destruct (verify_target t used) as [used'|e] eqn:Hv; unfold verify_target in Hv; rewrite Hl in Hv;
      cbn [mbind result_bind] in Hv |- *;
      destruct (dict_get used (s +:+ ":" +:+ n)) as [other|] eqn:Hg; try done; injection Hv as <-.
    - apply (IH (done_ ++ [t])); [by rewrite <- app_assoc| |].
      + intros key. rewrite elem_of_dict_keys_set, Hused. setoid_rewrite elem_of_app.
        setoid_rewrite list_elem_of_singleton. split.
        * intros [->|(t'&s'&g'&n'&?&?&?)]; [exists t, s, g, n; auto|exists t', s', g', n'; auto].
        * intros (t'&s'&g'&n'&[?| ->]&Hl'&->); [right; eauto 10|left; congruence].
      + intros i j t1 t2 Hij Hi Hj Hc.
        destruct (decide (j < length done_)) as [Hlt|Hge].
        * rewrite lookup_app_l in Hj by done. rewrite lookup_app_l in Hi by lia. exact (Hno _ _ _ _ Hij Hi Hj Hc).
        * rewrite lookup_app_r in Hj by lia. apply list_lookup_singleton_Some in Hj as [Hj ->].
          rewrite lookup_app_l in Hi by lia. destruct Hc as (s'&g1&g2&n'&Hc1&Hc2).
          apply list_elem_of_lookup_2 in Hi. apply dict_get_None in Hg. apply Hg, Hused.
          exists t1, s', g1, n'. split_and!; [done..|]. congruence.
    - assert (is_Some (dict_get used (s +:+ ":" +:+ n))) as Hin by (by eexists).
      apply dict_get_is_Some, Hused in Hin as (t'&s'&g'&n'&Hin&Hl'&Hkey).
      apply collision_key_inj in Hkey as [-> ->]; [|by eapply target_location_name..].
      apply list_elem_of_lookup in Hin as [i Hi]. exists i, (length done_), t', t. subst targets.
      pose proof (lookup_lt_Some _ _ _ Hi) as Hlt. split_and!; [done|by rewrite lookup_app_l| |].
      + by rewrite lookup_app_r, Nat.sub_diag.
      + by exists s', g', g, n'. }
  specialize (Hgen targets [] [] eq_refl).
  destruct (for_each targets [] verify_target) as [used|e]; cbn [mbind result_bind]; apply Hgen;
    try (by intros ????? Hi; rewrite lookup_nil in Hi);
    (intros key; simpl; rewrite elem_of_nil; split; [done|]; by intros (?&?&?&?&?%elem_of_nil&_)).
Qed.

(** * Properties *)

(** Where BuildTargetsDict returns, its dictionary lists every target of every
    .gyp file, in order, under its qualified name, and no name twice. *)
Theorem BuildTargetsDict_complete data targets :
  BuildTargetsDict data = Ok targets → listed_targets data = Ok targets ∧ dict_wf targets.
Proof. apply BuildTargetsDict_result. Qed.

Definition sample_data : build_data := BuildData ["x.gyp"; "y.gyp"]
  [("x.gyp", [("targets", VList [VDict [("target_name", VStr "a"); ("toolset", VStr "target");
                ("dependencies", VList [VStr "y.gyp:*#target"])]])]);
   ("y.gyp", [("targets", VList [VDict [("target_name", VStr "b"); ("toolset", VStr "target")];
                VDict [("target_name", VStr "c"); ("toolset", VStr "target"); ("suppress_wildcard", VStr "1")];
                VDict [("target_name", VStr "d"); ("toolset", VStr "host")];
                VDict [("target_name", VStr "e"); ("toolset", VStr "target")]])])].

Lemma BuildTargetsDict_complete_witness :
  ∃ targets, BuildTargetsDict sample_data = Ok targets
    ∧ dict_keys targets = ["x.gyp:a#target"; "y.gyp:b#target"; "y.gyp:c#target"; "y.gyp:d#host"; "y.gyp:e#target"]
    ∧ dict_wf targets.
Proof.
  eexists. split; [vm_compute; reflexivity|]. split; [reflexivity|].
  apply (BuildTargetsDict_complete sample_data). vm_compute. reflexivity.
Defined.

(** The loop of ExpandWildcardDependencies, which deletes from and inserts into
    the list it walks, ends after as many steps as the list has items, and its
    result (or its exception) is that of replacing each wildcard of the original
    list by its expansion and nothing else; what an expansion inserts is not
    examined again. *)
Theorem ExpandWildcard_replaces data target key target_build_file dependencies :
  expand_loop (S (length dependencies)) data target key target_build_file 0 dependencies
  = ((λ names, concat names) <$> map_result (expand_one data target key target_build_file) dependencies).
Proof.
  pose proof (expand_loop_result (S (length dependencies)) data target key target_build_file [] dependencies) as H.
  simpl in H. apply H. lia.
Qed.

Example ExpandWildcard_sample :
  expand_loop 4 sample_data "x.gyp:a#target" "dependencies" (Some "x.gyp") 0
    ["z.gyp:z#target"; "y.gyp:*#target"; "z.gyp:y#target"]
  = Ok ["z.gyp:z#target"; "y.gyp:b#target"; "y.gyp:e#target"; "z.gyp:y#target"].
Proof. vm_compute. reflexivity. Qed.

(** PruneUnwantedTargets keeps exactly the root targets and what they depend
    on, directly or not: the dictionary it returns has those targets, each with
    its own contents, and the flat list is the old one without the others. *)
Theorem PruneUnwantedTargets_closure targets flat g root_targets data wanted_targets wanted_flat data' :
  graph_wf g → PruneUnwantedTargets targets flat g root_targets data = Ok (wanted_targets, wanted_flat, data') →
  ∃ roots, root_targets_of flat root_targets = Ok roots
    ∧ part_of targets wanted_targets (wanted g roots)
    ∧ wanted_flat `sublist_of` flat ∧ ∀ t, t ∈ wanted_flat ↔ t ∈ flat ∧ wanted g roots t.
Proof. apply Prune_result. Qed.

Definition prune_targets : list (string * pydict) :=
  (λ t, (t, [])) <$> ["a"; "b"; "c"; "d"; "e"; "f"].

Lemma PruneUnwantedTargets_closure_witness :
  ∃ wanted_targets data', PruneUnwantedTargets prune_targets ["d"; "b"; "c"; "a"; "f"; "e"] sample_graph [" b "]
      (BuildData [] []) = Ok (wanted_targets, ["d"; "b"], data')
    ∧ ∃ roots, root_targets_of ["d"; "b"; "c"; "a"; "f"; "e"] [" b "] = Ok roots
        ∧ ∀ t, t ∈ ["d"; "b"] ↔ t ∈ ["d"; "b"; "c"; "a"; "f"; "e"] ∧ wanted sample_graph roots t.
Proof.
  eexists _, _. split; [vm_compute; reflexivity|].
  destruct (PruneUnwantedTargets_closure prune_targets ["d"; "b"; "c"; "a"; "f"; "e"] sample_graph [" b "]
    (BuildData [] []) [("b", []); ("d", [])] ["d"; "b"] (BuildData [] []) sample_graph_wf) as (roots&Hr&_&_&Hw).
  - vm_compute. reflexivity.
  - exists roots. split; assumption.
Defined.

(** VerifyNoCollidingTargets accepts a list of targets exactly when no two of
    them, at different places, have one name in one directory, and otherwise
    raises GypError. *)
Theorem VerifyNoCollidingTargets_correct targets :
  (∀ t, t ∈ targets → ":"%char ∈ chars t) →
  match VerifyNoCollidingTargets targets with
  | Ok _ => ∀ i j t1 t2, i < j → targets !! i = Some t1 → targets !! j = Some t2 → ¬ collides t1 t2
  | Err (GypError _) => ∃ i j t1 t2, i < j ∧ targets !! i = Some t1 ∧ targets !! j = Some t2 ∧ collides t1 t2
  | Err _ => False
  end.
Proof. apply VerifyNoColliding_result. Qed.

Lemma VerifyNoCollidingTargets_correct_witness :
  collides "p/x.gyp:a#target" "p/y.gyp:a#target".
Proof.
  pose proof (VerifyNoCollidingTargets_correct ["p/x.gyp:a#target"; "p/y.gyp:a#target"]) as Hc.
  lapply Hc; clear Hc.
  - destruct (VerifyNoCollidingTargets ["p/x.gyp:a#target"; "p/y.gyp:a#target"]) as [u|e] eqn:Hrun;
      [vm_compute in Hrun; discriminate|].
    assert (∃ msg, e = GypError msg) as [msg ->].
    { vm_compute in Hrun. injection Hrun as <-. eexists. reflexivity. }
    intros (i&j&t1&t2&Hij&Hi&Hj&Hcol). destruct j as [|[|j]]; [lia| |discriminate].
    destruct i as [|i]; [|lia]. injection Hi as <-. injection Hj as <-. exact Hcol.
  - intros t Ht. apply elem_of_cons in Ht as [->|Ht]; [by apply (bool_decide_unpack _)|].
    apply list_elem_of_singleton in Ht as ->. by apply (bool_decide_unpack _).
Defined.
