(* ===== verification/LinkDeps.v ===== *)
(** * Settings and link dependencies

    The parts of [DependencyGraphNode] of tools/gyp/pylib/gyp/input.py that read the
    targets ([_AddImportedDependencies], [_LinkDependenciesInternal] and what is
    built from them), the two passes that use them ([DoDependentSettings],
    [AdjustStaticLibraryDependencies]), and [DeepDependencyTargets] and
    [AllTargets] of common.py, which walk the same graph through the target
    dictionaries. *)
From stdpp Require Import relations.
From S2P Require Import Prelude PyDict PySet PyStr PyPath PyVal Common Merge Dfs DepGraph DepList Validate Targets.
From Stdlib Require Import Ascii.

Section link.
Context `{Globals} `{RealPath}.
Implicit Types (targets : list (string * pydict)) (nodes : gmap (option string) (dgnode string)).
Implicit Types (deps : list string).

(** ** Imported dependencies *)

(** [dependency_dict.get('export_dependent_settings', [])] of a dependency. *)
Definition exports_of targets (dependency : string) : result (list string) :=
  d ← target_of targets dependency; get_strs d "export_dependent_settings".

(** The inner loop: each import that is missing is inserted at
    [index + add_index]. *)
Definition add_import (index : nat) (st : nat * list string) (imported_dependency : string) : nat * list string :=
  let '(add_index, deps) := st in
  if imported_dependency in? deps then st
  else (S add_index, take (index + add_index) deps ++ imported_dependency :: drop (index + add_index) deps).

Fixpoint add_imported (fuel : nat) targets (index : nat) deps : result (list string) :=
  match fuel with
  | 0 => Err OutOfFuel
  | S fuel =>
      match deps !! index with
      | None => Ok deps
      | Some dependency =>
          imports ← exports_of targets dependency;
          add_imported fuel targets (S index) (foldl (add_import index) (1, deps) imports).2
      end
  end.

(** [_AddImportedDependencies(targets, dependencies)]; one step per dependency,
    and each dependency is a target of its own. *)
Definition AddImportedDependencies targets deps : result (list string) :=
  add_imported (S (S (length targets + length deps))) targets 0 deps.

Definition DirectAndImportedDependencies targets nodes (node : option string) deps : result (list string) :=
  AddImportedDependencies targets (DirectDependencies nodes node deps).

(** ** Link dependencies *)

Definition target_type_is (d : pydict) (types : list string) : bool := opt_in (dict_get d "type") types.

(** [target_type == 'none' and not targets[...].get('dependencies_traverse', True)] *)
Definition not_traversed (d : pydict) : bool :=
  target_type_is d ["none"] && negb (truthy (dict_get_default d "dependencies_traverse" (VInt 1))).

Fixpoint LinkDependenciesInternal (fuel : nat) targets nodes (include_shared_libraries : bool)
    (node : option string) deps (initial : bool) : result (list string) :=
  match fuel with
  | 0 => Err OutOfFuel
  | S fuel =>
      match node with
      | None => Ok deps
      | Some ref =>
          d ← target_of targets ref;
          _ ← raise_if (negb (dict_mem d "target_name")) (GypError "Missing 'target_name' field in target.");
          _ ← raise_if (negb (dict_mem d "type"))
                (GypError ("Missing 'type' field in target " +:+ display (dict_get d "target_name")));
          let is_linkable := target_type_is d linkable_types in
          if initial && negb is_linkable then Ok deps
          else if not_traversed d then Ok (if ref in? deps then deps else deps ++ [ref])
          else if negb initial && target_type_is d ["executable"; "loadable_module"] then Ok deps
          else if negb initial && target_type_is d ["shared_library"] && negb include_shared_libraries then Ok deps
          else if ref in? deps then Ok deps
          else
            let deps := deps ++ [ref] in
            if initial || negb is_linkable
            then for_each (node_dependencies nodes node) deps (λ dependency deps,
                   LinkDependenciesInternal fuel targets nodes include_shared_libraries dependency deps false)
            else Ok deps
      end
  end.

(** The recursion is at most as deep as there are nodes, and one more for the last
    test. *)
Definition link_fuel nodes : nat := S (S (S (size nodes))).

Definition DependenciesForLinkSettings targets nodes (ref : string) : result (list string) :=
  d ← target_of targets ref;
  let include_shared_libraries :=
    truthy (dict_get_default d "allow_sharedlib_linksettings_propagation" (VInt 1)) in
  LinkDependenciesInternal (link_fuel nodes) targets nodes include_shared_libraries (Some ref) [] true.

Definition DependenciesToLinkAgainst targets nodes (ref : string) : result (list string) :=
  LinkDependenciesInternal (link_fuel nodes) targets nodes true (Some ref) [] true.

(** ** The passes *)

Definition settings_dependencies (key : string) targets nodes (target : string) : result (list string) :=
  if key ==? "all_dependent_settings" then DeepDependencies (S (S (size nodes))) nodes (Some target) []
  else if key ==? "direct_dependent_settings" then DirectAndImportedDependencies targets nodes (Some target) []
  else if key ==? "link_settings" then DependenciesForLinkSettings targets nodes target
  else Err (GypError ("DoDependentSettings doesn't know how to determine dependencies for " +:+ key)).

(** One iteration of the inner loop: the settings of the dependency are merged into
    the target. *)
Definition merge_settings (key target dependency : string) targets : result (list (string * pydict)) :=
  dependency_dict ← target_of targets dependency;
  match dict_get dependency_dict key with
  | None => Ok targets
  | Some v =>
      settings ← as_dict v;
      target_dict ← target_of targets target;
      target_dict ← MergeDicts target_dict settings (default "None" (BuildFile target))
                      (default "None" (BuildFile dependency));
      Ok (dict_set targets target target_dict)
  end.

Definition do_target_settings (key : string) nodes (target : string) targets : result (list (string * pydict)) :=
  _ ← target_of targets target;
  deps ← settings_dependencies key targets nodes target;
  for_each deps targets (merge_settings key target).

Definition DoDependentSettings (key : string) (flat_list : list string) targets nodes :
    result (list (string * pydict)) :=
  for_each flat_list targets (do_target_settings key nodes).

(** Is the dependency removed from a static library?  [kept] are the dependencies
    the target lists itself. *)
Definition removed_from_static targets (own : list pyval) (dependency : string) : result bool :=
  d ← target_of targets dependency;
  _ ← dict_index d "type";
  Ok ((target_type_is d ["static_library"] && negb (get_true d "hard_dependency"))
      || (negb (target_type_is d ["static_library"]) && negb (py_in (VStr dependency) own))).

(** The [while] loop that removes them. *)
Fixpoint remove_loop (fuel : nat) targets (own : list pyval) (index : nat) deps : result (list string) :=
  match fuel with
  | 0 => Err OutOfFuel
  | S fuel =>
      match deps !! index with
      | None => Ok deps
      | Some dependency =>
          removed ← removed_from_static targets own dependency;
          if (removed : bool) then remove_loop fuel targets own index (delete index deps)
          else remove_loop fuel targets own (S index) deps
      end
  end.

Definition adjust_static_library targets nodes (target : string) (target_dict : pydict) : result pydict :=
  match dict_get target_dict "dependencies" with
  | None => Ok target_dict
  | Some v =>
      own ← as_list v;
      let target_dict := dict_set target_dict "dependencies_original" (VList own) in
      let targets := dict_set targets target target_dict in
      deps ← DirectAndImportedDependencies targets nodes (Some target) [];
      deps ← remove_loop (S (length deps)) targets own 0 deps;
      Ok (if deps ==? [] then dict_del target_dict "dependencies"
          else dict_set target_dict "dependencies" (VList (VStr <$> deps)))
  end.

(** One iteration of the loop over the link dependencies. *)
Definition add_link_dependency (target dependency : string) (target_dict : pydict) : result pydict :=
  if dependency ==? target then Ok target_dict
  else
    own ← as_list (dict_get_default target_dict "dependencies" (VList []));
    Ok (dict_set target_dict "dependencies"
          (VList (if py_in (VStr dependency) own then own else own ++ [VStr dependency]))).

Definition adjust_linkable (flat_list : list string) targets nodes (sort_dependencies : bool) (target : string)
    (target_dict : pydict) : result pydict :=
  link_dependencies ← DependenciesToLinkAgainst targets nodes target;
  target_dict ← for_each link_dependencies target_dict (add_link_dependency target);
  match dict_get target_dict "dependencies" with
  | Some v =>
      if sort_dependencies then
        own ← as_list v;
        Ok (dict_set target_dict "dependencies"
              (VList (VStr <$> filter (λ dep, py_in (VStr dep) own = true) (reverse flat_list))))
      else Ok target_dict
  | None => Ok target_dict
  end.

Definition adjust_target (flat_list : list string) nodes (sort_dependencies : bool) (target : string) targets :
    result (list (string * pydict)) :=
  target_dict ← target_of targets target;
  _ ← dict_index target_dict "type";
  target_dict ←
    (if target_type_is target_dict ["static_library"] then adjust_static_library targets nodes target target_dict
     else if target_type_is target_dict linkable_types
     then adjust_linkable flat_list targets nodes sort_dependencies target target_dict
     else Ok target_dict);
  Ok (dict_set targets target target_dict).

Definition AdjustStaticLibraryDependencies (flat_list : list string) targets nodes (sort_dependencies : bool) :
    result (list (string * pydict)) :=
  for_each flat_list targets (adjust_target flat_list nodes sort_dependencies).
End link.

(** ** Walking the target dictionaries *)
Section deep_targets.
Context `{!SetPop string}.
Implicit Types (target_dicts : list (string * pydict)).

(** [spec.get('dependencies', [])] and [spec.get('dependencies_original', [])] *)
Definition spec_children target_dicts (r : string) : result (list string) :=
  spec ← target_of target_dicts r;
  deps ← get_strs spec "dependencies";
  originals ← get_strs spec "dependencies_original";
  Ok (deps ++ originals).

(** [pending.update(set(l))] *)
Definition set_update (l s : list string) : list string := foldl (λ s x, set_add x s) s l.

Fixpoint deep_targets (fuel : nat) target_dicts (pending collected : list string) : result (list string) :=
  match fuel with
  | 0 => Err OutOfFuel
  | S fuel =>
      match set_pop pending with
      | None => Ok collected
      | Some (r, pending) =>
          if r in? collected then deep_targets fuel target_dicts pending collected
          else
            children ← spec_children target_dicts r;
            deep_targets fuel target_dicts (set_update children pending) (set_add r collected)
      end
  end.

(** Every dictionary adds its children to the pending set once at most. *)
Definition deep_fuel target_dicts (roots : list string) : nat :=
  S (length roots + length (concat ((λ p, match get_strs p.2 "dependencies", get_strs p.2 "dependencies_original" with
    | Ok a, Ok b => a ++ b | _, _ => [] end) <$> target_dicts))).

Definition DeepDependencyTargets target_dicts (roots : list string) : result (list string) :=
  collected ← deep_targets (deep_fuel target_dicts roots) target_dicts (set_of roots) [];
  Ok (filter (λ t, t ∉ roots) collected).

Definition AllTargets (target_list : list string) target_dicts (build_file : string) : result (list string) :=
  let bftargets := BuildFileTargets target_list build_file in
  deptargets ← DeepDependencyTargets target_dicts bftargets;
  Ok (bftargets ++ deptargets).
End deep_targets.

(** * Theorems *)

(** ** Imported dependencies *)
Section imported_theorems.
Implicit Types (targets : list (string * pydict)) (deps : list string).

(** [x] passes on its dependency [y]. *)
Definition exports targets (x y : string) : Prop :=
  ∃ imports, exports_of targets x = Ok imports ∧ y ∈ imports.

Lemma add_imports_result index imports a deps x :
  deps !! index = Some x → 1 ≤ a → NoDup deps →
  let deps' := (foldl (add_import index) (a, deps) imports).2 in
  NoDup deps' ∧ take (S index) deps' = take (S index) deps ∧ ∀ y, y ∈ deps' ↔ y ∈ deps ∨ y ∈ imports.
Proof.
  revert a deps. induction imports as [|i imports IH]; intros a deps Hx Ha Hnd; cbn [foldl].
  { simpl. split_and!; [done..|]. intros y. rewrite elem_of_nil. tauto. }
  pose proof (lookup_lt_Some _ _ _ Hx) as Hlt.
  destruct (decide (i ∈ deps)) as [Hin|Hin].
  - assert (add_import index (a, deps) i = (a, deps)) as -> by (unfold add_import; by rewrite bool_decide_eq_true_2).
    destruct (IH a deps Hx Ha Hnd) as (H1&H2&H3). split_and!; [done..|]. intros y. rewrite H3, elem_of_cons. naive_solver.
  - set (deps1 := take (index + a) deps ++ i :: drop (index + a) deps).
    assert (add_import index (a, deps) i = (S a, deps1)) as -> by (unfold add_import; by rewrite bool_decide_eq_false_2).
    assert (Hp : deps1 ≡ₚ i :: deps).
    { unfold deps1. rewrite <- Permutation_middle, take_drop. done. }
    assert (Htake : take (S index) deps1 = take (S index) deps).
    { unfold deps1. rewrite take_app_le by (rewrite length_take; lia). rewrite take_take. f_equal. lia. }
    destruct (IH (S a) deps1) as (H1&H2&H3).
    + rewrite <- (take_drop (S index) deps1), Htake, lookup_app_l by (rewrite length_take; lia).
      by rewrite lookup_take_lt by lia.
    + lia.
    + rewrite Hp. by constructor.
    + split_and!; [done|congruence|]. intros y. rewrite H3, Hp, !elem_of_cons. tauto.
Qed.

Lemma add_imported_result fuel targets index deps init :
  NoDup deps → index ≤ length deps → init ⊆ deps →
  (∀ y, y ∈ deps → ∃ x, x ∈ init ∧ rtc (exports targets) x y) →
  (∀ x y, x ∈ take index deps → exports targets x y → y ∈ deps) →
  (∀ x, x ∈ take index deps → x ∈ dict_keys targets) →
  length targets < fuel + index →
  match add_imported fuel targets index deps with
  | Ok deps' => NoDup deps' ∧ ∀ y, y ∈ deps' ↔ ∃ x, x ∈ init ∧ rtc (exports targets) x y
  | Err e => e ≠ OutOfFuel
  end.
Proof.
  revert index deps. induction fuel as [|fuel IH]; intros index deps Hnd Hlen Hinit Hreach Hclosed Hkeys Hf.
  { assert (length (take index deps) ≤ length (dict_keys targets)).
    { apply submseteq_length, NoDup_submseteq; [|done]. by eapply sublist_NoDup, sublist_take. }
    rewrite length_take in *. unfold dict_keys in *. rewrite length_fmap in *. lia. }
  cbn [add_imported]. destruct (deps !! index) as [x|] eqn:Hx.
  - destruct (exports_of targets x) as [imports|e] eqn:Hex; cbn [mbind result_bind].
    + destruct (add_imports_result index imports 1 deps x Hx (le_n _) Hnd) as (Hnd'&Htake&He).
      set (deps' := (foldl (add_import index) (1, deps) imports).2) in *.
      pose proof (lookup_lt_Some _ _ _ Hx) as Hlt.
      assert (Hx' : x ∈ deps) by (by eapply list_elem_of_lookup_2).
      apply IH; [done| |set_solver| | | |lia].
      * apply (f_equal length) in Htake. rewrite !length_take in Htake. lia.
      * intros y [Hy|Hy]%He; [by apply Hreach|]. destruct (Hreach x Hx') as (z&Hz&Hzx).
        exists z. split; [done|]. apply rtc_r with x; [done|]. by exists imports.
      * intros y z Hy Hyz. rewrite Htake, (take_S_r _ _ _ Hx), elem_of_app, list_elem_of_singleton in Hy.
        apply He. destruct Hy as [Hy| ->]; [left; by eapply Hclosed|].
        destruct Hyz as (imports'&Hi&Hz). right. congruence.
      * intros y Hy. rewrite Htake, (take_S_r _ _ _ Hx), elem_of_app, list_elem_of_singleton in Hy.
        destruct Hy as [Hy| ->]; [by apply Hkeys|]. apply dict_get_is_Some. unfold exports_of, target_of in Hex.
        destruct (dict_get targets x); [by eexists|done].
    + unfold exports_of in Hex. apply bind_Err in Hex as [Hex|(d&_&Hex)].
      * unfold target_of in Hex. destruct (dict_get targets x); naive_solver.
      * intros ->. by apply (get_strs_terminates d "export_dependent_settings").
  - split; [done|]. intros y. split; [by apply Hreach|]. intros (x&Hxi&Hxy). apply Hinit in Hxi.
    apply lookup_ge_None in Hx. rewrite take_ge in Hclosed by lia.
    induction Hxy as [|a b c Hab _ IHc]; [done|]. apply IHc. by eapply Hclosed.
Qed.

(** The direct dependencies of a node, each once. *)
Lemma DirectDependencies_result nodes (n : option string) :
  NoDup (DirectDependencies nodes n [])
  ∧ ∀ r, r ∈ DirectDependencies nodes n [] ↔ Some r ∈ node_dependencies nodes n.
Proof.
  unfold DirectDependencies.
  assert (Hgen : ∀ (l : list (option string)) (acc : list string), NoDup acc →
    let acc' := foldl (λ acc d, match d with Some r => if r in? acc then acc else acc ++ [r] | None => acc end) acc l in
    NoDup acc' ∧ ∀ r, r ∈ acc' ↔ r ∈ acc ∨ Some r ∈ l).
  { intros l. induction l as [|[r|] l IH]; intros acc Hnd; cbn [foldl].
    - simpl. split; [done|]. intros r. rewrite elem_of_nil. tauto.
    - case_bool_decide as Hin.
      + destruct (IH acc Hnd) as [? He]. split; [done|]. intros r'. rewrite He, elem_of_cons. naive_solver.
      + destruct (IH (acc ++ [r])) as [? He].
        { apply NoDup_app. split_and!; [done| |apply NoDup_singleton]. by intros x Hx ->%list_elem_of_singleton. }
        split; [done|]. intros r'. rewrite He, elem_of_app, list_elem_of_singleton, elem_of_cons. naive_solver.
    - destruct (IH acc Hnd) as [? He]. split; [done|]. intros r. rewrite He, elem_of_cons. naive_solver. }
  destruct (Hgen (node_dependencies nodes n) []) as [? He]; [apply NoDup_nil_2|]. split; [done|].
  intros r. rewrite He, elem_of_nil. tauto.
Qed.

Lemma DirectAndImported_result targets nodes n :
  match DirectAndImportedDependencies targets nodes n [] with
  | Ok deps => NoDup deps ∧ ∀ y, y ∈ deps ↔
      ∃ x, Some x ∈ node_dependencies nodes n ∧ rtc (exports targets) x y
  | Err e => e ≠ OutOfFuel
  end.
Proof.
  destruct (DirectDependencies_result nodes n) as [Hnd He].
  unfold DirectAndImportedDependencies, AddImportedDependencies.
  pose proof (add_imported_result (S (S (length targets + length (DirectDependencies nodes n [])))) targets 0
    (DirectDependencies nodes n []) (DirectDependencies nodes n []) Hnd) as Hres.
  destruct (add_imported _ _ _ _) as [deps|e].
  - destruct Hres as [? Hy]; [lia|done|intros y Hy; by exists y|by intros x y ?%elem_of_nil|by intros x ?%elem_of_nil|lia|].
    split; [done|]. intros y. rewrite Hy. setoid_rewrite He. done.
  - apply Hres; [lia|done|intros y Hy; by exists y|by intros x y ?%elem_of_nil|by intros x ?%elem_of_nil|lia].
Qed.
End imported_theorems.

(** ** Link dependencies *)
Section link_theorems.
Context (targets : list (string * pydict)) (nodes : gmap (option string) (dgnode string)).
Context (include_shared_libraries : bool).
Implicit Types (x y ref : string) (deps : list string).

(** Every node of the graph is a target with a name and a type. *)
Definition link_typed : Prop :=
  ∀ ref, Some ref ∈ dom nodes →
    ∃ d, dict_get targets ref = Some d ∧ dict_mem d "target_name" = true ∧ dict_mem d "type" = true.

Definition has_type ref (types : list string) : bool :=
  match dict_get targets ref with Some d => target_type_is d types | None => false end.
Definition untraversed ref : bool :=
  match dict_get targets ref with Some d => not_traversed d | None => false end.

(** A dependency that is linked into its dependents, as far as its type goes. *)
Definition linkable_dependency ref : bool :=
  untraversed ref
  || (negb (has_type ref ["executable"; "loadable_module"])
      && negb (has_type ref ["shared_library"] && negb include_shared_libraries)).

(** The dependencies that are looked at behind a dependency: none behind a target
    that is linked itself. *)
Definition link_succ ref : list string :=
  if negb (has_type ref linkable_types) && negb (untraversed ref)
  then filter (λ y, linkable_dependency y = true) (omap id (node_dependencies nodes (Some ref)))
  else [].

Lemma link_succ_expands ref :
  negb (has_type ref linkable_types) && negb (untraversed ref) = true →
  link_succ ref = filter (λ y, linkable_dependency y = true) (omap id (node_dependencies nodes (Some ref))).
Proof. unfold link_succ. by intros ->. Qed.
Lemma link_succ_stops ref :
  negb (has_type ref linkable_types) && negb (untraversed ref) = false → link_succ ref = [].
Proof. unfold link_succ. by intros ->. Qed.

Lemma linkable_not_untraversed ref : has_type ref linkable_types = true → untraversed ref = false.
Proof.
  unfold has_type, untraversed, not_traversed, target_type_is. destruct (dict_get targets ref) as [d|]; [|done].
  destruct (dict_get d "type") as [[s| | |]|]; try done. simpl. intros Hin%bool_decide_eq_true.
  rewrite bool_decide_eq_false_2; [done|]. intros ->%list_elem_of_singleton. by apply (bool_decide_unpack _) in Hin || vm_compute in Hin; set_solver.
Qed.

(** What one call does with a dependency that is no target of its own. *)
Lemma link_step fuel ref deps :
  graph_wf nodes → link_typed → Some ref ∈ dom nodes →
  LinkDependenciesInternal (S fuel) targets nodes include_shared_libraries (Some ref) deps false =
    if linkable_dependency ref && negb (ref in? deps)
    then (if negb (has_type ref linkable_types) && negb (untraversed ref)
          then for_each (node_dependencies nodes (Some ref)) (deps ++ [ref]) (λ d deps,
                 LinkDependenciesInternal fuel targets nodes include_shared_libraries d deps false)
          else Ok (deps ++ [ref]))
    else Ok deps.
Proof.
  intros Hwf Hty Hdom. destruct (Hty ref Hdom) as (d&Hd&Hname&Htype). cbn [LinkDependenciesInternal].
  unfold target_of, linkable_dependency, has_type, untraversed. rewrite Hd. cbn [mbind result_bind].
  rewrite Hname, Htype. cbn [negb raise_if mbind result_bind andb orb].
  destruct (not_traversed d) eqn:Hn.
  { rewrite !andb_false_r. cbn [orb andb]. by destruct (ref in? deps). }
  cbn [orb]. rewrite andb_true_r.
  destruct (target_type_is d ["executable"; "loadable_module"]); [done|].
  destruct (target_type_is d ["shared_library"]), include_shared_libraries; cbn [negb andb]; try done;
    destruct (ref in? deps); try done; by destruct (target_type_is d linkable_types).
Qed.

Lemma link_visit fuel ref deps deps' :
  graph_wf nodes → link_typed → Some ref ∈ dom nodes → linkable_dependency ref = true →
  visit link_succ fuel ref deps = Ok deps' →
  LinkDependenciesInternal (S fuel) targets nodes include_shared_libraries (Some ref) deps false = Ok deps'.
Proof.
  intros Hwf Hty. revert ref deps deps'. induction fuel as [|fuel IH]; intros ref deps deps' Hdom Hl Hv; [done|].
  rewrite link_step by done. rewrite Hl. cbn [visit andb] in Hv |- *. case_bool_decide; [done|]. cbn [negb].
  destruct (negb (has_type ref linkable_types) && negb (untraversed ref)) eqn:Hexp.
  2: { rewrite link_succ_stops in Hv by done. done. }
  rewrite link_succ_expands in Hv by done.
  assert (Hsub : ∀ m, m ∈ node_dependencies nodes (Some ref) → m ∈ dom nodes) by (intros m; by apply wf_closed).
  revert Hv Hsub. generalize (deps ++ [ref]) as a.
  induction (node_dependencies nodes (Some ref)) as [|[y|] l IHl]; intros a Hv Hsub.
  - done.
  - cbn [for_each]. cbn [omap list_omap id] in Hv. rewrite filter_cons in Hv.
    assert (Hy : Some y ∈ dom nodes) by (apply Hsub; by left).
    destruct (decide (linkable_dependency y = true)) as [Hly|Hly].
    + cbn [for_each] in Hv. apply bind_Ok in Hv as (a1&Ha1&Hv).
      rewrite (IH y a a1) by done. cbn [mbind result_bind]. apply IHl; [done|].
      intros z Hz. apply Hsub. by right.
    + rewrite link_step by done. apply not_true_iff_false in Hly. rewrite Hly. cbn [andb mbind result_bind].
      apply IHl; [done|]. intros z Hz. apply Hsub. by right.
  - cbn [for_each LinkDependenciesInternal mbind result_bind]. apply IHl; [done|].
    intros z Hz. apply Hsub. by right.
Qed.

(** The link dependencies of a target that is linked: itself, and what can be
    reached through dependencies that are not. *)
Lemma LinkDependencies_result ref :
  graph_wf nodes → link_typed → Some ref ∈ dom nodes → has_type ref linkable_types = true →
  ∃ deps, LinkDependenciesInternal (link_fuel nodes) targets nodes include_shared_libraries (Some ref) [] true = Ok deps
    ∧ NoDup deps
    ∧ ∀ x, x ∈ deps ↔ x = ref ∨ ∃ s, Some s ∈ node_dependencies nodes (Some ref)
        ∧ linkable_dependency s = true ∧ rtc (edge link_succ) s x.
Proof.
  intros Hwf Hty Hdom Hlink. destruct (Hty ref Hdom) as (d&Hd&Hname&Htype).
  set (start := filter (λ y, linkable_dependency y = true) (omap id (node_dependencies nodes (Some ref)))).
  assert (Hstart : ∀ s, s ∈ start ↔ linkable_dependency s = true ∧ Some s ∈ node_dependencies nodes (Some ref)).
  { intros s. unfold start. rewrite list_elem_of_filter, list_elem_of_omap. naive_solver. }
  assert (Hclosed : closed link_succ (refs nodes)).
  { intros x y Hx Hy. unfold link_succ in Hy. destruct (negb _ && negb _); [|by apply elem_of_nil in Hy].
    apply list_elem_of_filter in Hy as [_ Hy]. apply list_elem_of_omap in Hy as ([z|]&Hz&?); simplify_eq/=.
    apply elem_of_refs. by eapply wf_closed. }
  destruct (visit_all_fuel link_succ (refs nodes) (S (size nodes)) start [ref]) as [deps Hv].
  { done. }
  { intros s [_ Hs]%Hstart. apply elem_of_refs. by eapply wf_closed. }
  { pose proof (missing_le (refs nodes) [ref]). pose proof (length_refs nodes). lia. }
  exists deps. split; [|].
  - unfold link_fuel. remember (S (S (size nodes))) as fuel eqn:Hfuel.
    cbn [LinkDependenciesInternal]. unfold target_of at 1. rewrite Hd. cbn [mbind result_bind].
    rewrite Hname, Htype. cbn [negb raise_if mbind result_bind andb].
    pose proof (linkable_not_untraversed ref Hlink) as Hun. unfold has_type in Hlink. unfold untraversed in Hun.
    rewrite Hd in Hlink, Hun. rewrite Hlink, Hun. cbn [negb andb]. cbn [app orb].
    rewrite bool_decide_eq_false_2 by apply not_elem_of_nil.
    subst fuel.
    assert (Hsub : ∀ m, m ∈ node_dependencies nodes (Some ref) → m ∈ dom nodes) by (intros m; by apply wf_closed).
    revert Hv Hsub. unfold visit_all, start. clear start Hstart. generalize [ref] as a.
    induction (node_dependencies nodes (Some ref)) as [|[y|] l IHl]; intros a Hv Hsub.
    + done.
    + cbn [for_each]. cbn [omap list_omap id] in Hv. rewrite filter_cons in Hv.
      assert (Hy : Some y ∈ dom nodes) by (apply Hsub; by left).
      destruct (decide (linkable_dependency y = true)) as [Hly|Hly].
      * cbn [for_each] in Hv. apply bind_Ok in Hv as (a1&Ha1&Hv).
        rewrite (link_visit (S (size nodes)) y a a1) by done. cbn [mbind result_bind]. apply IHl; [done|].
        intros z Hz. apply Hsub. by right.
      * rewrite link_step by done. apply not_true_iff_false in Hly. rewrite Hly. cbn [andb mbind result_bind].
        apply IHl; [done|]. intros z Hz. apply Hsub. by right.
    + cbn [for_each]. apply IHl; [done|]. intros z Hz. apply Hsub. by right.
  - apply visit_all_collected in Hv as [(new&->&Hnd&Hr&Hc) Hs]. split; [apply Hnd, NoDup_singleton|].
    assert (Hroot : ∀ y, ¬ edge link_succ ref y).
    { intros y Hy. unfold edge, link_succ in Hy. rewrite Hlink in Hy. by apply elem_of_nil in Hy. }
    assert (Hgen : ∀ u v, rtc (edge link_succ) u v → u ∈ [ref] ++ new → v ∈ [ref] ++ new).
    { clear -Hc Hroot. induction 1 as [|u w v Huw _ IHu]; [done|].
      intros [->%list_elem_of_singleton|Hu]%elem_of_app; [by destruct (Hroot w)|]. apply IHu. by eapply Hc. }
    intros x. split.
    + intros [->%list_elem_of_singleton|Hx]%elem_of_app; [by left|]. right.
      destruct (Hr x Hx) as (s&[??]%Hstart&?). eauto.
    + intros [->|(s&Hsd&Hsl&Hsx)]; [by left|]. apply (Hgen s x Hsx), Hs, Hstart. done.
Qed.

(** Whatever the targets are like, the list only grows. *)
Lemma LinkDependencies_grows fuel node deps initial deps' :
  LinkDependenciesInternal fuel targets nodes include_shared_libraries node deps initial = Ok deps' → deps ⊆ deps'.
Proof.
  revert node deps initial deps'. induction fuel as [|fuel IH]; intros node deps initial deps' Hrun; [done|].
  cbn [LinkDependenciesInternal] in Hrun. destruct node as [ref|]; [|by injection Hrun as <-].
  apply bind_Ok in Hrun as (d&_&Hrun). apply bind_Ok in Hrun as ([]&_&Hrun). apply bind_Ok in Hrun as ([]&_&Hrun).
  assert (Hsnoc : deps ⊆ deps ++ [ref]) by (intros x ?; apply elem_of_app; by left).
  destruct (initial && _); [by injection Hrun as <-|].
  destruct (not_traversed d); [injection Hrun as <-; by case_bool_decide|].
  destruct (negb initial && _); [by injection Hrun as <-|]. destruct (negb initial && _ && _); [by injection Hrun as <-|].
  case_bool_decide; [by injection Hrun as <-|]. destruct (initial || _); [|by injection Hrun as <-].
  eapply (for_each_inv (λ acc, deps ⊆ acc)); [done| |exact Hrun]. intros x s s' _ Hs Hstep. apply IH in Hstep. by etransitivity.
Qed.

(** The recursion ends on every graph. *)
Lemma LinkDependencies_visit_terminates fuel node deps initial :
  graph_wf nodes → (node = None ∨ node ∈ dom nodes) → missing (refs nodes) deps < fuel →
  terminates (LinkDependenciesInternal fuel targets nodes include_shared_libraries node deps initial).
Proof.
  intros Hwf. revert node deps initial. induction fuel as [|fuel IH]; intros node deps initial Hdom Hf; [lia|].
  cbn [LinkDependenciesInternal]. destruct node as [ref|]; [|done].
  destruct Hdom as [?|Hdom]; [done|]. apply terminates_bind; [unfold target_of; by destruct (dict_get targets ref)|].
  intros d _. apply terminates_bind; [by apply terminates_raise_if|]. intros [] _.
  apply terminates_bind; [by apply terminates_raise_if|]. intros [] _.
  destruct (initial && _); [done|]. destruct (not_traversed d); [done|]. destruct (negb initial && _); [done|].
  destruct (negb initial && _ && _); [done|]. case_bool_decide as Hin; [done|]. destruct (initial || _); [|done].
  assert (Hlt : missing (refs nodes) (deps ++ [ref]) < fuel).
  { pose proof (missing_lt link_succ (refs nodes) deps ref (proj2 (elem_of_refs nodes ref) Hdom) Hin). lia. }
  apply (terminates_for_each_inv (λ acc, deps ++ [ref] ⊆ acc)); [done| |].
  - intros x acc Hx Hacc. apply IH; [right; by eapply wf_closed|].
    pose proof (missing_mono link_succ (refs nodes) _ _ Hacc). lia.
  - intros x acc acc' _ Hacc Hstep%LinkDependencies_grows. by etransitivity.
Qed.

Lemma LinkDependencies_terminates ref :
  graph_wf nodes →
  terminates (LinkDependenciesInternal (link_fuel nodes) targets nodes include_shared_libraries (Some ref) [] true).
Proof.
  intros Hwf. unfold link_fuel. destruct (decide (Some ref ∈ dom nodes)) as [Hdom|Hdom].
  - apply LinkDependencies_visit_terminates; [done|by right|]. pose proof (missing_le (refs nodes) []).
    pose proof (length_refs nodes). lia.
  - cbn [LinkDependenciesInternal]. assert (node_dependencies nodes (Some ref) = []) as ->.
    { unfold node_dependencies. by rewrite (not_elem_of_dom_1 _ _ Hdom). }
    apply terminates_bind; [unfold target_of; by destruct (dict_get targets ref)|]. intros d _. cbn [for_each].
    solve_terminates.
Qed.
End link_theorems.

(** ** Static libraries *)
Section static_theorems.
Implicit Types (targets : list (string * pydict)) (d : pydict) (deps : list string).

Lemma removed_from_static_terminates targets own x : terminates (removed_from_static targets own x).
Proof. unfold removed_from_static, target_of. solve_terminates. Qed.

Lemma remove_loop_terminates fuel targets own index deps :
  index ≤ length deps → length deps < fuel + index → terminates (remove_loop fuel targets own index deps).
Proof.
  revert index deps. induction fuel as [|fuel IH]; intros index deps Hle Hf; [lia|]. cbn [remove_loop].
  destruct (deps !! index) as [x|] eqn:Hx; [|done]. apply lookup_lt_Some in Hx as Hlt.
  apply terminates_bind; [apply removed_from_static_terminates|]. intros [] _; apply IH; try lia.
  all: rewrite length_delete by (by eexists); lia.
Qed.

Lemma remove_loop_result fuel targets own before rest deps' :
  length rest < fuel →
  remove_loop fuel targets own (length before) (before ++ rest) = Ok deps' →
  ∃ kept, deps' = before ++ kept ∧ kept `sublist_of` rest
    ∧ ∀ x, x ∈ kept ↔ x ∈ rest ∧ removed_from_static targets own x = Ok false.
Proof.
  revert before rest. induction fuel as [|fuel IH]; intros before rest Hf Hrun; [lia|]. cbn [remove_loop] in Hrun.
  destruct rest as [|x rest].
  { rewrite lookup_ge_None_2 in Hrun by (rewrite app_nil_r; lia). injection Hrun as <-.
    exists []. split_and!; [done..|]. intros x. rewrite elem_of_nil. tauto. }
  rewrite lookup_app_r, Nat.sub_diag in Hrun by lia. cbn [lookup list_lookup] in Hrun. simpl in Hf.
  apply bind_Ok in Hrun as (removed&Hrem&Hrun). destruct removed.
  - rewrite delete_middle in Hrun. apply IH in Hrun as (kept&->&Hsub&Hk); [|lia].
    exists kept. split_and!; [done|by apply sublist_cons|]. intros y. rewrite Hk, elem_of_cons.
    split; [naive_solver|]. intros [[->|?] Hy]; [congruence|done].
  - replace (S (length before)) with (length (before ++ [x])) in Hrun by (rewrite length_app; simpl; lia).
    replace (before ++ x :: rest) with ((before ++ [x]) ++ rest) in Hrun by (by rewrite <- app_assoc).
    apply IH in Hrun as (kept&->&Hsub&Hk); [|lia]. exists (x :: kept). rewrite <- app_assoc.
    split_and!; [done|by apply sublist_skip|]. intros y. rewrite !elem_of_cons, Hk.
    split; [|naive_solver]. intros [->|[??]]; auto.
Qed.

(** A static library that no dependent has to wait for. *)
Definition soft_static targets (t : string) : Prop :=
  ∃ d, dict_get targets t = Some d ∧ target_type_is d ["static_library"] = true
    ∧ get_true d "hard_dependency" = false.

(** Two dictionaries that differ in the dependency lists only. *)
Definition same_settings d d' : Prop :=
  ∀ k, k ∉ ["dependencies"; "dependencies_original"] → dict_get d' k = dict_get d k.

Lemma same_settings_set d k v :
  k ∈ ["dependencies"; "dependencies_original"] → same_settings d (dict_set d k v).
Proof. intros Hk k' Hk'. apply dict_get_set_ne. by intros ->. Qed.
Lemma same_settings_del d k :
  k ∈ ["dependencies"; "dependencies_original"] → same_settings d (dict_del d k).
Proof. intros Hk k' Hk'. apply dict_get_del_ne. by intros ->. Qed.
Lemma same_settings_trans d1 d2 d3 : same_settings d1 d2 → same_settings d2 d3 → same_settings d1 d3.
Proof. intros H1 H2 k Hk. by rewrite H2, H1. Qed.

(** The same targets with the same settings. *)
Definition same_targets targets targets' : Prop :=
  ∀ t, match dict_get targets t, dict_get targets' t with
       | Some d, Some d' => same_settings d d'
       | None, None => True
       | _, _ => False
       end.

Lemma same_targets_refl targets : same_targets targets targets.
Proof. intros t. by destruct (dict_get targets t). Qed.
Lemma same_targets_trans ts1 ts2 ts3 : same_targets ts1 ts2 → same_targets ts2 ts3 → same_targets ts1 ts3.
Proof.
  intros H1 H2 t. specialize (H1 t). specialize (H2 t).
  destruct (dict_get ts1 t), (dict_get ts2 t), (dict_get ts3 t); try done. by eapply same_settings_trans.
Qed.
Lemma same_targets_set targets t d d' :
  dict_get targets t = Some d → same_settings d d' → same_targets targets (dict_set targets t d').
Proof.
  intros Hd Hs t'. destruct (decide (t = t')) as [->|Hne].
  - by rewrite Hd, dict_get_set_eq.
  - rewrite dict_get_set_ne by done. by destruct (dict_get targets t').
Qed.

Lemma same_settings_type d d' types : same_settings d d' → target_type_is d' types = target_type_is d types.
Proof.
  intros Hs. unfold target_type_is. by rewrite Hs by (by apply (bool_decide_unpack _)).
Qed.
Lemma soft_static_same targets targets' t : same_targets targets targets' → soft_static targets' t ↔ soft_static targets t.
Proof.
  intros Hs. specialize (Hs t). unfold soft_static.
  destruct (dict_get targets t) as [d|], (dict_get targets' t) as [d'|]; try done.
  assert (target_type_is d' ["static_library"] = target_type_is d ["static_library"]) by (by apply same_settings_type).
  assert (get_true d' "hard_dependency" = get_true d "hard_dependency").
  { unfold get_true. by rewrite Hs by (by apply (bool_decide_unpack _)). }
  naive_solver.
Qed.

(** The dependencies of a static library, once adjusted. *)
Definition static_adjusted targets d : Prop :=
  target_type_is d ["static_library"] = true → ∀ v, dict_get d "dependencies" = Some v →
  ∃ deps, v = VList (VStr <$> deps) ∧ deps ≠ [] ∧ ∀ dep, dep ∈ deps → ¬ soft_static targets dep.

Lemma adjust_static_library_result targets nodes t d d' :
  dict_get targets t = Some d → adjust_static_library targets nodes t d = Ok d' →
  same_settings d d' ∧ static_adjusted targets d'.
Proof.
  intros Hd Hrun. unfold adjust_static_library in Hrun.
  destruct (dict_get d "dependencies") as [v|] eqn:Hv.
  2: { injection Hrun as <-. split; [done|]. intros _ v Hv'. congruence. }
  apply bind_Ok in Hrun as (own&Hown&Hrun). set (d1 := dict_set d "dependencies_original" _) in Hrun.
  apply bind_Ok in Hrun as (deps0&Hdeps0&Hrun). apply bind_Ok in Hrun as (deps&Hdeps&[= <-]).
  assert (Hs1 : same_settings d d1) by (apply same_settings_set; right; by left).
  apply (remove_loop_result _ _ _ []) in Hdeps as (kept&->&_&Hk); [|lia]. cbn [app].
  split.
  - eapply same_settings_trans; [exact Hs1|].
    case_bool_decide; [apply same_settings_del|apply same_settings_set]; by left.
  - intros _ v' Hv'. case_bool_decide as Hnil; [by rewrite dict_get_del_eq in Hv'|].
    rewrite dict_get_set_eq in Hv'. injection Hv' as <-. exists kept. split_and!; [done..|].
    intros dep [_ Hdep]%Hk Hsoft.
    assert (Hsame : same_targets targets (dict_set targets t d1)) by (by eapply same_targets_set).
    apply (soft_static_same _ _ _ Hsame) in Hsoft as (dd&Hdd&Htype&Hhard).
    unfold removed_from_static, target_of in Hdep. rewrite Hdd in Hdep. cbn [mbind result_bind] in Hdep.
    apply bind_Ok in Hdep as (ty&_&Hdep). rewrite Htype, Hhard in Hdep. simpl in Hdep. done.
Qed.

Lemma adjust_linkable_settings flat targets nodes sort t d d' :
  adjust_linkable flat targets nodes sort t d = Ok d' → same_settings d d'.
Proof.
  unfold adjust_linkable. intros Hrun. apply bind_Ok in Hrun as (links&_&Hrun).
  apply bind_Ok in Hrun as (d1&Hloop&Hrun).
  assert (Hs1 : same_settings d d1).
  { eapply (for_each_inv (same_settings d)); [| |exact Hloop]; [done|]. clear.
    intros dep d1 d2 _ Hs Hstep. unfold add_link_dependency in Hstep. case_bool_decide; [by injection Hstep as <-|].
    apply bind_Ok in Hstep as (own&_&[= <-]). eapply same_settings_trans; [exact Hs|].
    apply same_settings_set. by left. }
  destruct (dict_get d1 "dependencies") as [v|]; [|by injection Hrun as <-].
  destruct sort; [|by injection Hrun as <-]. apply bind_Ok in Hrun as (own&_&[= <-]).
  eapply same_settings_trans; [exact Hs1|]. apply same_settings_set. by left.
Qed.

Lemma adjust_target_result flat nodes sort t targets targets' :
  adjust_target flat nodes sort t targets = Ok targets' →
  same_targets targets targets' ∧ (∀ t', t' ≠ t → dict_get targets' t' = dict_get targets t')
  ∧ ∀ d', dict_get targets' t = Some d' → static_adjusted targets d'.
Proof.
  unfold adjust_target. intros Hrun. apply bind_Ok in Hrun as (d&Hd%target_of_Ok&Hrun).
  apply bind_Ok in Hrun as (ty&_&Hrun). apply bind_Ok in Hrun as (d'&Hstep&[= <-]).
  assert (same_settings d d' ∧ static_adjusted targets d') as [Hs Ha].
  { destruct (target_type_is d ["static_library"]) eqn:Hty; [by eapply adjust_static_library_result|].
    assert (Hs : same_settings d d').
    { destruct (target_type_is d linkable_types); [by eapply adjust_linkable_settings|by injection Hstep as <-]. }
    split; [done|]. intros Hstatic. rewrite (same_settings_type d d') in Hstatic by done; congruence. }
  split; [by eapply same_targets_set|]. split; [intros; by apply dict_get_set_ne|].
  intros d0 Hd0. rewrite dict_get_set_eq in Hd0. by injection Hd0 as <-.
Qed.

Lemma adjust_targets_result all flat targets nodes sort targets' :
  NoDup flat → for_each flat targets (adjust_target all nodes sort) = Ok targets' →
  same_targets targets targets'
  ∧ ∀ t d', t ∈ flat → dict_get targets' t = Some d' → static_adjusted targets' d'.
Proof.
  revert targets. induction flat as [|t flat IH]; intros targets Hnd Hrun; cbn [for_each] in Hrun.
  { injection Hrun as <-. split; [apply same_targets_refl|]. by intros ? ? ?%elem_of_nil. }
  apply NoDup_cons in Hnd as [Ht Hnd]. apply bind_Ok in Hrun as (targets1&Hstep&Hrun).
  apply adjust_target_result in Hstep as (Hs&Hframe&Ha).
  pose proof (IH _ Hnd Hrun) as [Hs' Hrest].
  assert (Hsame : same_targets targets targets') by (by eapply same_targets_trans).
  split; [done|]. intros t' d' [->|Hin]%elem_of_cons Hd'; [|by eapply Hrest].
  assert (Hd1 : dict_get targets1 t = Some d').
  { rewrite <- Hd'. clear -Hrun Ht. revert targets1 Hrun. induction flat as [|x flat IH]; intros ts Hrun; cbn [for_each] in Hrun.
    - by injection Hrun as <-.
    - apply bind_Ok in Hrun as (ts1&Hstep&Hrun). apply adjust_target_result in Hstep as (_&Hframe&_).
      rewrite <- (Hframe t); [|intros ->; apply Ht; by left]. apply IH; [|done].
      intros Hin. apply Ht. by right. }
  intros Hty v Hv. destruct (Ha d' Hd1 Hty v Hv) as (deps&->&Hne&Hsoft). exists deps. split_and!; [done..|].
  intros dep Hdep Hx. apply (Hsoft dep Hdep). by apply (soft_static_same targets targets').
Qed.
End static_theorems.

(** ** Walking the target dictionaries *)
Section deep_theorems.
Context `{!SetPop string}.
Implicit Types (target_dicts : list (string * pydict)) (pending collected roots : list string).

Definition children_of (d : pydict) : list string :=
  match get_strs d "dependencies", get_strs d "dependencies_original" with
  | Ok a, Ok b => a ++ b
  | _, _ => []
  end.

(** The children that the dictionaries outside [collected] can still add. *)
Definition remaining target_dicts collected : nat :=
  length (concat ((λ p, children_of p.2) <$> filter (λ p, p.1 ∉ collected) target_dicts)).

Definition child target_dicts (x y : string) : Prop :=
  ∃ l, spec_children target_dicts x = Ok l ∧ y ∈ l.

Lemma remaining_cons p target_dicts collected :
  remaining (p :: target_dicts) collected =
    (if decide (p.1 ∉ collected) then length (children_of p.2) else 0) + remaining target_dicts collected.
Proof. unfold remaining. rewrite filter_cons. case_decide; [|done]. cbn. by rewrite length_app. Qed.

Lemma remaining_mono target_dicts collected r :
  remaining target_dicts (set_add r collected) ≤ remaining target_dicts collected.
Proof.
  induction target_dicts as [|p l IH]; [done|]. rewrite !remaining_cons, !(decide_ext (p.1 ∉ set_add r collected)
    (¬ (p.1 = r ∨ p.1 ∈ collected))) by (by rewrite elem_of_set_add). repeat case_decide; lia || tauto.
Qed.

Lemma remaining_add target_dicts collected r l :
  r ∉ collected → spec_children target_dicts r = Ok l →
  length l + remaining target_dicts (set_add r collected) ≤ remaining target_dicts collected.
Proof.
  intros Hr Hl. unfold spec_children, target_of in Hl.
  destruct (dict_get target_dicts r) as [d|] eqn:Hd; [|done]. cbn [mbind result_bind] in Hl.
  assert (Hlen : length l = length (children_of d)).
  { unfold children_of. apply bind_Ok in Hl as (a&Ha&Hl). apply bind_Ok in Hl as (b&Hb&[= <-]). by rewrite Ha, Hb. }
  clear Hl. induction target_dicts as [|[k d'] ts IH]; [done|]. cbn [dict_get] in Hd. rewrite !remaining_cons. simpl.
  pose proof (remaining_mono ts collected r).
  destruct (decide (k = r)) as [->|Hne].
  - injection Hd as ->. rewrite decide_False by (intros Hn; apply Hn, elem_of_set_add; by left).
    rewrite decide_True by done. lia.
  - specialize (IH Hd). destruct (decide (k ∉ collected)) as [Hk|Hk].
    + rewrite decide_True by (rewrite elem_of_set_add; tauto). lia.
    + rewrite decide_False by (rewrite elem_of_set_add; tauto). lia.
Qed.

Lemma set_update_result l s :
  length (set_update l s) ≤ length l + length s ∧ ∀ y, y ∈ set_update l s ↔ y ∈ s ∨ y ∈ l.
Proof.
  unfold set_update. revert s. induction l as [|x l IH]; intros s; cbn [foldl].
  { split; [simpl; lia|]. intros y. rewrite elem_of_nil. tauto. }
  destruct (IH (set_add x s)) as [Hlen He]. split.
  - etrans; [exact Hlen|]. unfold set_add. case_bool_decide; simpl; rewrite ?length_app; simpl; lia.
  - intros y. rewrite He, elem_of_set_add, elem_of_cons. tauto.
Qed.

Lemma deep_targets_result fuel target_dicts pending collected roots :
  length pending + remaining target_dicts collected < fuel →
  NoDup collected → roots ⊆ collected ++ pending →
  (∀ x, x ∈ collected ++ pending → ∃ r, r ∈ roots ∧ rtc (child target_dicts) r x) →
  (∀ x y, x ∈ collected → child target_dicts x y → y ∈ collected ++ pending) →
  match deep_targets fuel target_dicts pending collected with
  | Ok l => NoDup l ∧ ∀ x, x ∈ l ↔ ∃ r, r ∈ roots ∧ rtc (child target_dicts) r x
  | Err e => e ≠ OutOfFuel
  end.
Proof.
  revert pending collected. induction fuel as [|fuel IH]; intros pending collected Hf Hnd Hroots Hreach Hclosed; [lia|].
  cbn [deep_targets]. destruct (set_pop pending) as [[r pending']|] eqn:Hpop.
  - apply set_pop_perm in Hpop. pose proof (Permutation_length Hpop) as Hlen. simpl in Hlen.
    assert (Hmem : ∀ x, x ∈ pending ↔ x = r ∨ x ∈ pending') by (intros x; by rewrite Hpop, elem_of_cons).
    case_bool_decide as Hin.
    + apply IH; [lia|done|set_solver|set_solver|]. intros x y Hx Hxy. specialize (Hclosed x y Hx Hxy). set_solver.
    + destruct (spec_children target_dicts r) as [l|e] eqn:Hl; cbn [mbind result_bind].
      * destruct (set_update_result l pending') as [Hul Hue].
        assert (Hadd : ∀ x, x ∈ set_add r collected ↔ x = r ∨ x ∈ collected) by (intros; apply elem_of_set_add).
        apply IH.
        -- pose proof (remaining_add target_dicts collected r l Hin Hl). lia.
        -- by apply NoDup_set_add.
        -- intros x Hx%Hroots. rewrite elem_of_app, Hadd, Hue. rewrite elem_of_app, Hmem in Hx. tauto.
        -- intros x. rewrite elem_of_app, Hadd, Hue. setoid_rewrite elem_of_app in Hreach. setoid_rewrite Hmem in Hreach.
           intros [Hx|[Hx|Hx]]; [apply Hreach; tauto|apply Hreach; tauto|].
           destruct (Hreach r) as (r0&Hr0&Hr0r); [tauto|]. exists r0. split; [done|].
           apply rtc_r with r; [done|]. by exists l.
        -- intros x y. rewrite Hadd, elem_of_app, Hadd, Hue. intros [->|Hx] Hxy.
           ++ destruct Hxy as (l'&Hl'&Hy). right. right. congruence.
           ++ specialize (Hclosed x y Hx Hxy). rewrite elem_of_app, Hmem in Hclosed. tauto.
      * unfold spec_children in Hl. apply bind_Err in Hl as [Hl|(d&_&Hl)].
        { unfold target_of in Hl. destruct (dict_get target_dicts r); naive_solver. }
        intros ->. revert Hl. change (terminates (deps ← get_strs d "dependencies";
          originals ← get_strs d "dependencies_original"; Ok (deps ++ originals))). solve_terminates.
  - destruct pending as [|x pending]; [|destruct (set_pop_cons x pending); congruence].
    rewrite app_nil_r in *. split; [done|]. intros x. split; [apply Hreach|]. intros (r&Hr&Hrx). apply Hroots in Hr.
    induction Hrx as [|a b c Hab _ IHc]; [done|]. apply IHc. by apply (Hclosed a b).
Qed.

(** DeepDependencyTargets always ends, whatever elements the set pops choose, and
    returns what can be reached from the roots, less the roots. *)
Lemma DeepDependencyTargets_result target_dicts roots :
  match DeepDependencyTargets target_dicts roots with
  | Ok l => NoDup l ∧ ∀ x, x ∈ l ↔ (x ∉ roots) ∧ ∃ r, r ∈ roots ∧ rtc (child target_dicts) r x
  | Err e => e ≠ OutOfFuel
  end.
Proof.
  unfold DeepDependencyTargets.
  pose proof (deep_targets_result (deep_fuel target_dicts roots) target_dicts (set_of roots) [] roots) as Hres.
  destruct (deep_targets _ _ _ _) as [l|e]; cbn [mbind result_bind].
  - destruct Hres as [Hnd He].
    + unfold deep_fuel, remaining. rewrite list_filter_all by (intros; apply not_elem_of_nil).
      assert (length (set_of roots) ≤ length roots); [|unfold children_of; lia].
      apply submseteq_length, NoDup_submseteq; [apply NoDup_set_of|]. intros x. by rewrite elem_of_set_of.
    + apply NoDup_nil_2.
    + intros x. simpl. by rewrite elem_of_set_of.
    + intros x. simpl. rewrite elem_of_set_of. intros Hx. by exists x.
    + by intros x y ?%elem_of_nil.
    + split; [by apply NoDup_filter|]. intros x. rewrite list_elem_of_filter, He. done.
  - apply Hres.
    + unfold deep_fuel, remaining. rewrite list_filter_all by (intros; apply not_elem_of_nil).
      assert (length (set_of roots) ≤ length roots); [|unfold children_of; lia].
      apply submseteq_length, NoDup_submseteq; [apply NoDup_set_of|]. intros x. by rewrite elem_of_set_of.
    + apply NoDup_nil_2.
    + intros x. simpl. by rewrite elem_of_set_of.
    + intros x. simpl. rewrite elem_of_set_of. intros Hx. by exists x.
    + by intros x y ?%elem_of_nil.
Qed.
End deep_theorems.

(** * Properties *)

(** The link dependencies of a target that is linked are computed without
    running out of steps, on cyclic graphs too, and are: the target, and every
    dependency reached through dependencies that are not linked themselves, by
    way of types that are linked into their dependents, each once. *)
Theorem LinkDependencies_reachable targets nodes include_shared_libraries ref :
  graph_wf nodes → link_typed targets nodes → Some ref ∈ dom nodes → has_type targets ref linkable_types = true →
  ∃ deps, LinkDependenciesInternal (link_fuel nodes) targets nodes include_shared_libraries (Some ref) [] true = Ok deps
    ∧ NoDup deps
    ∧ ∀ x, x ∈ deps ↔ x = ref ∨ ∃ s, Some s ∈ node_dependencies nodes (Some ref)
        ∧ linkable_dependency targets include_shared_libraries s = true
        ∧ rtc (edge (link_succ targets nodes include_shared_libraries)) s x.
Proof. apply LinkDependencies_result. Qed.

(** The executable [a] above the static library [b] and the shared library [c],
    both above the static library [d]; [e] and [f] on a cycle. *)
Definition link_sample : list (string * pydict) :=
  [("a", [("target_name", VStr "a"); ("type", VStr "executable")]);
   ("b", [("target_name", VStr "b"); ("type", VStr "static_library"); ("dependencies", VList [VStr "d"])]);
   ("c", [("target_name", VStr "c"); ("type", VStr "shared_library")]);
   ("d", [("target_name", VStr "d"); ("type", VStr "static_library")]);
   ("e", [("target_name", VStr "e"); ("type", VStr "static_library")]);
   ("f", [("target_name", VStr "f"); ("type", VStr "none")])].

Lemma link_sample_typed : link_typed link_sample sample_graph.
Proof.
  intros ref Hdom. apply elem_of_elements in Hdom.
  assert (Hall : Forall (λ n, match n with
    | Some r => match dict_get link_sample r with
        | Some d => dict_mem d "target_name" = true ∧ dict_mem d "type" = true
        | None => False end
    | None => True end) (elements (dom sample_graph))).
  { vm_compute. repeat constructor. }
  rewrite Forall_forall in Hall. specialize (Hall _ Hdom). cbn beta iota in Hall.
  destruct (dict_get link_sample ref) as [d|]; [|done]. exists d. tauto.
Qed.

Lemma LinkDependencies_reachable_witness :
  LinkDependenciesInternal (link_fuel sample_graph) link_sample sample_graph true (Some "a") [] true = Ok ["a"; "b"; "d"; "c"]
  ∧ ∃ deps, LinkDependenciesInternal (link_fuel sample_graph) link_sample sample_graph true (Some "a") [] true = Ok deps
      ∧ NoDup deps.
Proof.
  split; [vm_compute; reflexivity|].
  destruct (LinkDependencies_reachable link_sample sample_graph true "a") as (deps&Hrun&Hnd&_).
  - exact sample_graph_wf.
  - exact link_sample_typed.
  - apply elem_of_dom. vm_compute. by eexists.
  - reflexivity.
  - exists deps. split; assumption.
Defined.

(** DirectAndImportedDependencies ends on every graph and returns, each once,
    exactly the direct dependencies and what can be reached from them by
    exported settings. *)
Theorem DirectAndImportedDependencies_closure targets nodes n :
  match DirectAndImportedDependencies targets nodes n [] with
  | Ok deps => NoDup deps ∧ ∀ y, y ∈ deps ↔
      ∃ x, Some x ∈ node_dependencies nodes n ∧ rtc (exports targets) x y
  | Err e => e ≠ OutOfFuel
  end.
Proof. apply DirectAndImported_result. Qed.

(** C18: AdjustStaticLibraryDependencies changes nothing but dependency lists, and
    afterwards no static library of the list depends on a static library that is
    no hard dependency, nor has an empty dependency list. *)
Theorem AdjustStaticLibraryDependencies_hard flat targets nodes sort targets' :
  NoDup flat → AdjustStaticLibraryDependencies flat targets nodes sort = Ok targets' →
  same_targets targets targets'
  ∧ ∀ t d', t ∈ flat → dict_get targets' t = Some d' → static_adjusted targets' d'.
Proof. apply adjust_targets_result. Qed.

Lemma AdjustStaticLibraryDependencies_hard_witness :
  ∃ targets', AdjustStaticLibraryDependencies ["d"; "b"; "c"; "a"] link_sample sample_graph true = Ok targets'
    ∧ dict_get targets' "b" = Some [("target_name", VStr "b"); ("type", VStr "static_library");
                                    ("dependencies_original", VList [VStr "d"])]
    ∧ static_adjusted targets' [("target_name", VStr "b"); ("type", VStr "static_library");
                                ("dependencies_original", VList [VStr "d"])].
Proof.
  eexists. split; [vm_compute; reflexivity|]. split; [reflexivity|].
  eapply (AdjustStaticLibraryDependencies_hard ["d"; "b"; "c"; "a"] link_sample sample_graph true).
  - by apply (bool_decide_unpack _).
  - vm_compute. reflexivity.
  - right. left.
  - reflexivity.
Defined.
