(* ===== verification/TopSort.v ===== *)
(** * Topological sorting

    [TopologicallySorted] of tools/gyp/pylib/gyp/common.py, the depth-first sort
    the generators use for variables.  [get_edges] is the caller's function, and
    memoizing it changes nothing. *)
From stdpp Require Import relations.
From S2P Require Import Prelude PyStr Dfs.

Section topsort.
Context (get_edges : string → list string).
Implicit Types (node x y : string) (graph U : list string).

(** The sets and the list that [Visit] closes over. *)
Record sort_state := SortState {
  visited : list string;
  visiting : list string;
  ordered_nodes : list string
}.
Implicit Types (st : sort_state).

Fixpoint Visit (fuel : nat) node st : result sort_state :=
  match fuel with
  | 0 => Err OutOfFuel
  | S fuel =>
      if node in? visiting st then Err (CycleError (visiting st))
      else if node in? visited st then Ok st
      else
        st ← for_each (get_edges node)
               (SortState (node :: visited st) (node :: visiting st) (ordered_nodes st)) (Visit fuel);
        Ok (SortState (visited st) (filter (λ x, x ≠ node) (visiting st)) (node :: ordered_nodes st))
  end.

Definition TopologicallySorted (fuel : nat) graph : result (list string) :=
  st ← for_each (str_sorted graph) (SortState [] [] []) (Visit fuel); Ok (ordered_nodes st).

(** * Theorems *)

Definition step x y : Prop := y ∈ get_edges x.

(** Each node comes before the nodes it has edges to. *)
Definition sorted_from l : Prop := ∀ l1 x l2 y, l = l1 ++ x :: l2 → step x y → y ∈ l2.

(** The state while nodes are being visited: the visited nodes are those being
    visited and those already ordered. *)
Record sort_inv st : Prop := {
  si_visited : ∀ x, x ∈ visited st ↔ x ∈ visiting st ∨ x ∈ ordered_nodes st;
  si_nodup : NoDup (visiting st ++ ordered_nodes st);
  si_sorted : sorted_from (ordered_nodes st)
}.

(** What one call has done, when it returns. *)
Record visited_from (roots : list string) st st' : Prop := {
  vf_inv : sort_inv st';
  vf_visiting : visiting st' = visiting st;
  vf_ordered : ∃ new, ordered_nodes st' = new ++ ordered_nodes st
    ∧ ∀ x, x ∈ new → ∃ r, r ∈ roots ∧ rtc step r x;
  vf_roots : ∀ r, r ∈ roots → r ∈ ordered_nodes st'
}.

Lemma visited_from_cons x l st st1 st2 :
  visited_from [x] st st1 → visited_from l st1 st2 → visited_from (x :: l) st st2.
Proof.
  intros [_ Hv1 (n1&Ho1&Hr1) Hx] [Hi Hv2 (n2&Ho2&Hr2) Hl]. split; [done|congruence| |].
  - exists (n2 ++ n1). rewrite Ho2, Ho1, app_assoc. split; [done|]. set_solver.
  - intros r [->|Hr]%elem_of_cons; [|by apply Hl]. rewrite Ho2. apply elem_of_app. right. apply Hx. by left.
Qed.

Lemma sorted_from_cons node l : sorted_from l → (∀ y, step node y → y ∈ l) → sorted_from (node :: l).
Proof.
  intros Hs Hn [|z l1] x l2 y Heq Hxy; simplify_eq/=; [by apply Hn|]. by eapply Hs.
Qed.

Definition universe U : Prop := ∀ x y, x ∈ U → step x y → y ∈ U.

(** Visit, on every outcome: [path] are the nodes being visited, each leading to
    the node. *)
Lemma Visit_result fuel U node st :
  universe U → node ∈ U → visiting st ⊆ U → sort_inv st →
  (∀ v, v ∈ visiting st → tc step v node) → length U < fuel + length (visiting st) →
  match Visit fuel node st with
  | Ok st' => visited_from [node] st st'
  | Err (CycleError nodes) => ∃ n, n ∈ nodes ∧ tc step n n
  | Err _ => False
  end.
Proof.
  intros HU. revert node st. induction fuel as [|fuel IH]; intros node st Hn Hincl Hinv Hpath Hf.
  { destruct Hinv as [_ Hnd _]. apply NoDup_app in Hnd as (Hnd&_&_).
    apply (NoDup_submseteq _ U), submseteq_length in Hnd; [lia|done]. }
  cbn [Visit]. case_bool_decide as Hvg; [by exists node; auto|]. case_bool_decide as Hvd.
  { split; [done|done|by exists []; split; [|set_solver]|]. intros r ->%list_elem_of_singleton.
    by destruct (proj1 (si_visited _ Hinv node) Hvd). }
  assert (Hno : node ∉ ordered_nodes st).
  { intros Ho. apply Hvd, (si_visited _ Hinv). by right. }
  set (st0 := SortState (node :: visited st) (node :: visiting st) (ordered_nodes st)).
  assert (Hinv0 : sort_inv st0).
  { destruct Hinv as [Hv Hnd Hs]. split; [| |done].
    - intros x. simpl. rewrite !elem_of_cons, Hv. tauto.
    - simpl. constructor; [|done]. rewrite elem_of_app. tauto. }
  assert (Hloop : ∀ l s, l ⊆ get_edges node → sort_inv s → visiting s = node :: visiting st →
    match for_each l s (Visit fuel) with
    | Ok s' => visited_from l s s'
    | Err (CycleError nodes) => ∃ n, n ∈ nodes ∧ tc step n n
    | Err _ => False
    end).
  { intros l. induction l as [|y l IHl]; intros s Hl Hs Hvs; cbn [for_each].
    - split; [done|done|exists []; split; [done|set_solver]|set_solver].
    - assert (Hy : step node y) by (apply Hl; by left).
      assert (Hcall := IH y s). lapply Hcall; [clear Hcall; intros Hcall|by eapply HU].
      destruct (Visit fuel y s) as [s1|e]; cbn [mbind result_bind].
      + assert (Hv1 : visited_from [y] s s1).
        { apply Hcall; [rewrite Hvs; set_solver|done| |rewrite Hvs; simpl; lia].
          rewrite Hvs. intros v [->|Hv]%elem_of_cons; [by apply tc_once|]. apply tc_r with node; [by apply Hpath|done]. }
        specialize (IHl s1). lapply IHl; [clear IHl; intros IHl|set_solver].
        specialize (IHl (vf_inv _ _ _ Hv1)). rewrite (vf_visiting _ _ _ Hv1) in IHl. specialize (IHl Hvs).
        destruct (for_each l s1 (Visit fuel)); [by eapply visited_from_cons|done].
      + apply Hcall; [rewrite Hvs; set_solver|done| |rewrite Hvs; simpl; lia].
        rewrite Hvs. intros v [->|Hv]%elem_of_cons; [by apply tc_once|]. apply tc_r with node; [by apply Hpath|done]. }
  specialize (Hloop (get_edges node) st0 (reflexivity _) Hinv0 eq_refl).
  destruct (for_each (get_edges node) st0 (Visit fuel)) as [st1|e]; cbn [mbind result_bind]; [|done].
  destruct Hloop as [[Hv1 Hnd1 Hs1] Hvis (new&Ho&Hr) Hroots]. simpl in Hvis, Ho.
  rewrite Hvis in Hnd1. simpl in Hnd1. apply NoDup_cons in Hnd1 as [Hn1 Hnd1]. rewrite elem_of_app in Hn1.
  assert (Hfilter : filter (λ x, x ≠ node) (visiting st1) = visiting st).
  { rewrite Hvis, filter_cons_False by tauto. apply list_filter_all. by intros x Hx ->. }
  split; simpl.
  - split; simpl.
    + intros x. rewrite Hfilter, Hv1, Hvis, !elem_of_cons. tauto.
    + rewrite Hfilter, <- Permutation_middle. constructor; [rewrite elem_of_app; tauto|done].
    + by apply sorted_from_cons.
  - done.
  - exists (node :: new). rewrite Ho. split; [done|]. intros x [->|Hx]%elem_of_cons.
    + exists node. split; [by left|done].
    + destruct (Hr x Hx) as (y&Hy&Hyx). exists node. split; [by left|]. by apply rtc_l with y.
  - intros r ->%list_elem_of_singleton. by left.
Qed.

Lemma TopologicallySorted_result fuel U graph :
  universe U → graph ⊆ U → length U < fuel →
  match TopologicallySorted fuel graph with
  | Ok l => NoDup l ∧ (∀ x, x ∈ l ↔ ∃ n, n ∈ graph ∧ rtc step n x) ∧ sorted_from l
  | Err (CycleError nodes) => ∃ n, n ∈ nodes ∧ tc step n n
  | Err _ => False
  end.
Proof.
  intros HU Hgraph Hf. unfold TopologicallySorted.
  assert (Hloop : ∀ l s, l ⊆ U → sort_inv s → visiting s = [] →
    match for_each l s (Visit fuel) with
    | Ok s' => visited_from l s s'
    | Err (CycleError nodes) => ∃ n, n ∈ nodes ∧ tc step n n
    | Err _ => False
    end).
  { intros l. induction l as [|y l IHl]; intros s Hl Hs Hvs; cbn [for_each].
    - split; [done|done|exists []; split; [done|set_solver]|set_solver].
    - pose proof (Visit_result fuel U y s HU) as Hcall. rewrite Hvs in Hcall.
      destruct (Visit fuel y s) as [s1|e]; cbn [mbind result_bind].
      + assert (Hv1 : visited_from [y] s s1).
        { apply Hcall; [set_solver|set_solver|done|by intros ? ?%elem_of_nil|simpl; lia]. }
        specialize (IHl s1). lapply IHl; [clear IHl; intros IHl|set_solver].
        specialize (IHl (vf_inv _ _ _ Hv1)). rewrite (vf_visiting _ _ _ Hv1) in IHl. specialize (IHl Hvs).
        destruct (for_each l s1 (Visit fuel)); [by eapply visited_from_cons|done].
      + apply Hcall; [set_solver|set_solver|done|by intros ? ?%elem_of_nil|simpl; lia]. }
  assert (Hperm : ∀ x, x ∈ str_sorted graph ↔ x ∈ graph) by (intros x; by rewrite str_sorted_Permutation).
  specialize (Hloop (str_sorted graph) (SortState [] [] [])).
  destruct (for_each (str_sorted graph) _ (Visit fuel)) as [st|e]; cbn [mbind result_bind].
  - destruct Hloop as [[Hv Hnd Hs] Hvis (new&Ho&Hr) Hroots].
    + intros x. rewrite Hperm. apply Hgraph.
    + split; simpl; [set_solver|apply NoDup_nil_2|]. by intros [].
    + done.
    + simpl in Hvis, Ho. rewrite Hvis in Hnd. rewrite app_nil_r in Ho. split_and!; [done| |done].
      intros x. split.
      * rewrite Ho. intros (n&Hn&?)%Hr. exists n. by rewrite <- Hperm.
      * intros (n&Hn&Hnx). apply Hperm, Hroots in Hn. induction Hnx as [|a b c Hab _ IHx]; [done|].
        apply IHx. apply list_elem_of_split in Hn as (l1&l2&Heq). rewrite Heq. apply elem_of_app. right. right.
        by eapply Hs.
  - apply Hloop; [intros x; rewrite Hperm; apply Hgraph| |done]. split; simpl; [set_solver|apply NoDup_nil_2|].
    by intros [].
Qed.
End topsort.

(** * Properties *)

(** TopologicallySorted ends on every finite graph.  It returns the nodes
    reachable from those it is given, each once and before every node it has an
    edge to, or raises CycleError with a set of nodes one of which is on a
    cycle. *)
Theorem TopologicallySorted_correct get_edges fuel U graph :
  universe get_edges U → graph ⊆ U → length U < fuel →
  match TopologicallySorted get_edges fuel graph with
  | Ok l => NoDup l ∧ (∀ x, x ∈ l ↔ ∃ n, n ∈ graph ∧ rtc (step get_edges) n x) ∧ sorted_from get_edges l
  | Err (CycleError nodes) => ∃ n, n ∈ nodes ∧ tc (step get_edges) n n
  | Err _ => False
  end.
Proof. apply TopologicallySorted_result. Qed.

(** The graph of the documentation of the function. *)
Definition sample_edges (node : string) : list string :=
  if node ==? "a" then ["b"; "c"] else if node ==? "c" then ["b"] else [].

Lemma TopologicallySorted_correct_witness :
  TopologicallySorted sample_edges 4 ["c"; "b"; "a"] = Ok ["a"; "c"; "b"]
  ∧ sorted_from sample_edges ["a"; "c"; "b"].
Proof.
  assert (Hrun : TopologicallySorted sample_edges 4 ["c"; "b"; "a"] = Ok ["a"; "c"; "b"]) by (vm_compute; reflexivity).
  split; [exact Hrun|].
  pose proof (TopologicallySorted_correct sample_edges 4 ["a"; "b"; "c"] ["c"; "b"; "a"]) as Hc.
  rewrite Hrun in Hc. apply Hc.
  - intros x y _ Hxy. unfold step, sample_edges in Hxy.
    repeat case_bool_decide; repeat (apply elem_of_cons in Hxy as [->|Hxy]; [by apply (bool_decide_unpack _)|]);
      by apply elem_of_nil in Hxy.
  - intros x Hx. repeat (apply elem_of_cons in Hx as [->|Hx]; [by apply (bool_decide_unpack _)|]). by apply elem_of_nil in Hx.
  - simpl. lia.
Defined.
