(* ===== verification/Shell.v ===== *)
(** * Shell arguments

    [EncodePOSIXShellArgument] and [EncodePOSIXShellList] of
    tools/gyp/pylib/gyp/common.py, against the rules by which a POSIX shell splits
    a command line into words and removes quotes (IEEE 1003.1 XCU 2.2, which the
    source refers to). *)
From S2P Require Import Prelude PyStr PyPath.
From Stdlib Require Import Ascii.

(** [_quote.search(argument)]: one of these characters, or nothing at all. *)
Definition quote_chars : list ascii :=
  ["009"; "010"; " "; "#"; "$"; "%"; "&"; "'"; "("; ")"; "*"; ";"; "<"; "="; ">"; "?"; "["; "{"; "|"; "}"; "~"]%char.
Definition quote_search (argument : text) : bool :=
  existsb (λ c, c in? quote_chars) argument || (argument ==? []).

(** [re.sub(_escape, r'\\\1', argument)] *)
Definition escape_chars : list ascii := ["034"; "\"; "`"]%char.
Definition escape_char (c : ascii) : text := if c in? escape_chars then ["\"%char; c] else [c].
Definition escape_sub (argument : text) : text := concat (escape_char <$> argument).

Definition EncodePOSIXShellArgument (argument : text) : text :=
  let quote : text := if quote_search argument then ["034"%char] else [] in
  quote ++ escape_sub argument ++ quote.

Definition EncodePOSIXShellList (arguments : list text) : text :=
  ljoin [" "%char] (EncodePOSIXShellArgument <$> arguments).

(** ** The shell *)

(** Between words, inside a word, or inside double or single quotes. *)
Inductive sh_mode := Between | InWord | InQuotes | InSingle.

Definition sh_blank (c : ascii) : bool := c in? [" "; "009"]%char.

(** The characters that outside of quotes are, or may be, something other than
    themselves; the words of a line that has one are not determined here.  An equals sign is itself
    among the arguments of a command, which is what the lines are. *)
Definition sh_special (c : ascii) : bool :=
  c in? ["010"; "#"; "$"; "%"; "&"; "("; ")"; "*"; ";"; "<"; ">"; "?"; "["; "`"; "{"; "|"; "}"; "~"]%char.

(** The words of a line; [word] is the part read of the current one. *)
Fixpoint sh_words (mode : sh_mode) (word line : text) : option (list text) :=
  match line with
  | [] =>
      match mode with Between => Some [] | InWord => Some [word] | _ => None end
  | c :: line =>
      match mode with
      | InQuotes =>
          if (c ==? "034"%char) then sh_words InWord word line
          else if (c ==? "\"%char) then
            match line with
            | [] => None
            | c' :: line' =>
                if (c' ==? "010"%char) then sh_words InQuotes word line'
                else if c' in? ["$"; "`"; "034"; "\"]%char then sh_words InQuotes (word ++ [c']) line'
                else sh_words InQuotes (word ++ [c]) line
            end
          else if c in? ["$"; "`"]%char then None
          else sh_words InQuotes (word ++ [c]) line
      | InSingle => if (c ==? "'"%char) then sh_words InWord word line else sh_words InSingle (word ++ [c]) line
      | _ =>
          if sh_blank c then
            match mode with InWord => (λ words, word :: words) <$> sh_words Between [] line
            | _ => sh_words Between [] line end
          else if (c ==? "034"%char) then sh_words InQuotes word line
          else if (c ==? "'"%char) then sh_words InSingle word line
          else if (c ==? "\"%char) then
            match line with
            | [] => None
            | c' :: line' =>
                if (c' ==? "010"%char) then sh_words mode word line' else sh_words InWord (word ++ [c']) line'
            end
          else if sh_special c then None
          else sh_words InWord (word ++ [c]) line
      end
  end.

(** * Theorems *)

Lemma sh_words_quoted argument word line :
  "$"%char ∉ argument →
  sh_words InQuotes word (escape_sub argument ++ "034"%char :: line) = sh_words InWord (word ++ argument) line.
Proof.
  revert word. induction argument as [|c l IH]; intros word Hd.
  { cbn. by rewrite app_nil_r. }
  apply not_elem_of_cons in Hd as [Hc Hd].
  replace (word ++ c :: l) with ((word ++ [c]) ++ l) by (by rewrite <- app_assoc). rewrite <- IH by done.
  unfold escape_sub. cbn [fmap list_fmap concat]. rewrite <- app_assoc. unfold escape_char at 1.
  destruct (decide (c ∈ escape_chars)) as [Hin|Hin].
  - rewrite bool_decide_eq_true_2 by done. cbn [app].
    unfold escape_chars in Hin. repeat (apply elem_of_cons in Hin as [->|Hin]; [reflexivity|]). by apply elem_of_nil in Hin.
  - rewrite bool_decide_eq_false_2 by done. cbn [app sh_words].
    rewrite (bool_decide_eq_false_2 (c = "034"%char)) by (intros ->; by apply Hin, (bool_decide_unpack _)).
    rewrite (bool_decide_eq_false_2 (c = "\"%char)) by (intros ->; by apply Hin, (bool_decide_unpack _)).
    rewrite bool_decide_eq_false_2; [done|]. intros Hin'.
    apply elem_of_cons in Hin' as [->|Hin']; [done|]. apply list_elem_of_singleton in Hin' as ->.
    by apply Hin, (bool_decide_unpack _).
Qed.

(** A character that needs no quotes. *)
Definition plain_char (c : ascii) : Prop := c ∉ quote_chars.

Lemma plain_char_escaped mode c word line :
  plain_char c → (mode = Between ∨ mode = InWord) →
  sh_words mode word (escape_char c ++ line) = sh_words InWord (word ++ [c]) line.
Proof.
  intros Hp Hm. unfold escape_char. destruct (decide (c ∈ escape_chars)) as [Hin|Hin].
  - rewrite bool_decide_eq_true_2 by done. cbn [app].
    unfold escape_chars in Hin. destruct Hm as [->| ->];
      (repeat (apply elem_of_cons in Hin as [->|Hin]; [reflexivity|]); by apply elem_of_nil in Hin).
  - rewrite bool_decide_eq_false_2 by done. cbn [app].
    assert (Hblank : sh_blank c = false).
    { apply bool_decide_eq_false. intros Hb. apply Hp.
      repeat (apply elem_of_cons in Hb as [->|Hb]; [by apply (bool_decide_unpack _)|]). by apply elem_of_nil in Hb. }
    assert (Hspecial : sh_special c = false).
    { apply bool_decide_eq_false. intros Hb.
      repeat (apply elem_of_cons in Hb as [->|Hb];
        [first [by apply Hp, (bool_decide_unpack _)|by apply Hin, (bool_decide_unpack _)]|]). by apply elem_of_nil in Hb. }
    assert (c ≠ "034"%char ∧ c ≠ "\"%char) as [H1 H2].
    { split; intros ->; by apply Hin, (bool_decide_unpack _). }
    assert (c ≠ "'"%char) as H3 by (intros ->; by apply Hp, (bool_decide_unpack _)).
    destruct Hm as [->| ->]; cbn [sh_words]; rewrite Hblank, Hspecial, !bool_decide_eq_false_2 by done; done.
Qed.

Lemma sh_words_plain argument word line :
  Forall plain_char argument →
  sh_words InWord word (escape_sub argument ++ line) = sh_words InWord (word ++ argument) line.
Proof.
  intros Hp. revert word. induction Hp as [|c l Hc _ IH]; intros word; [by rewrite app_nil_r|].
  unfold escape_sub. cbn [fmap list_fmap concat]. rewrite <- app_assoc, plain_char_escaped by auto.
  fold (escape_sub l). by rewrite IH, <- app_assoc.
Qed.

Lemma quote_search_false argument :
  quote_search argument = false → argument ≠ [] ∧ Forall plain_char argument.
Proof.
  unfold quote_search. rewrite orb_false_iff. intros [Hq Hne%bool_decide_eq_false]. split; [done|].
  apply Forall_forall. intros c Hc Hin. apply not_true_iff_false in Hq. apply Hq, existsb_exists.
  exists c. split; [by apply list_elem_of_In|]. by apply bool_decide_eq_true.
Qed.

(** One encoded argument is one word, whatever follows it. *)
Lemma sh_words_argument argument line :
  "$"%char ∉ argument →
  sh_words Between [] (EncodePOSIXShellArgument argument ++ line) = sh_words InWord argument line.
Proof.
  intros Hd. unfold EncodePOSIXShellArgument. destruct (quote_search argument) eqn:Hq.
  - rewrite <- !app_assoc. cbn [app]. cbn [sh_words].
    change (sh_blank "034"%char) with false. cbn iota.
    rewrite bool_decide_eq_true_2 by done. by rewrite sh_words_quoted.
  - apply quote_search_false in Hq as [Hne Hp]. cbn [app]. rewrite app_nil_r.
    destruct Hp as [|c l Hc Hp]; [done|]. unfold escape_sub. cbn [fmap list_fmap concat].
    rewrite <- app_assoc, plain_char_escaped by auto. fold (escape_sub l). by rewrite sh_words_plain.
Qed.

Lemma sh_words_list arguments :
  Forall (λ a, "$"%char ∉ a) arguments → sh_words Between [] (EncodePOSIXShellList arguments) = Some arguments.
Proof.
  intros Ha. unfold EncodePOSIXShellList. induction Ha as [|a l Hd Hl IH]; [done|].
  destruct l as [|b l].
  - cbn [fmap list_fmap ljoin]. rewrite <- (app_nil_r (EncodePOSIXShellArgument a)). by rewrite sh_words_argument.
  - cbn [fmap list_fmap]. cbn [fmap list_fmap] in IH. rewrite ljoin_cons by done. cbn [app].
    rewrite sh_words_argument by done. cbn [sh_words]. change (sh_blank " "%char) with true. cbn iota.
    by rewrite IH.
Qed.

(** * Properties *)

(** A shell reads the encoded form of a list of arguments back as the same
    arguments: whatever blanks, quotes, backslashes, newlines and special
    characters they hold, empty ones among them, so long as no dollar sign asks
    for an expansion. *)
Theorem EncodePOSIXShellList_roundtrip arguments :
  Forall (λ a, "$"%char ∉ a) arguments → sh_words Between [] (EncodePOSIXShellList arguments) = Some arguments.
Proof. apply sh_words_list. Qed.

Lemma EncodePOSIXShellList_roundtrip_witness :
  sh_words Between [] (EncodePOSIXShellList [chars "a b"; []; chars "it's \`x`"; chars "-DX=1"])
  = Some [chars "a b"; []; chars "it's \`x`"; chars "-DX=1"].
Proof. apply EncodePOSIXShellList_roundtrip. by apply (bool_decide_unpack _). Defined.
