(* ===== verification/NinjaSyntax.v ===== *)
(** * Writing ninja files

    tools/gyp/pylib/gyp/ninja_syntax.py: the [Writer], which appends lines to a
    file and wraps those that are too wide.  A method of the model returns the
    text it writes; [textwrap.wrap], which breaks the text of comments into
    lines, is a parameter. *)
From S2P Require Import Prelude PyStr PyPath.
From Stdlib Require Import Ascii.

Definition nl : ascii := "010".
Definition space : ascii := " ".
Definition dollar : ascii := "$".

Definition escape_path (word : text) : text :=
  lreplace [":"%char] (chars "$:") (lreplace [space] (chars "$ ") (lreplace (chars "$ ") (chars "$$ ") word)).

(** [escape(string)] *)
Definition escape (s : text) : result text :=
  _ ← raise_if (nl in? s) AssertionError; Ok (lreplace [dollar] [dollar; dollar] s).

(** A value given to [variable]: a string or a list of strings; [None] is the
    absent value. *)
Inductive ninja_value := NStr (s : text) | NList (l : list text).

Definition as_list (input : option ninja_value) : list text :=
  match input with None => [] | Some (NList l) => l | Some (NStr s) => [s] end.

(** ** Finding a place to break a line *)

(** A string index as Python reads it: negative ones count from the end. *)
Definition py_index (len : nat) (i : Z) : nat :=
  if (i <? 0)%Z then Z.to_nat (i + Z.of_nat len) else Nat.min (Z.to_nat i) len.

Fixpoint first_index (c : ascii) (l : text) : option nat :=
  match l with
  | [] => None
  | x :: l => if decide (x = c) then Some 0 else S <$> first_index c l
  end.
Fixpoint last_index (c : ascii) (l : text) : option nat :=
  match l with
  | [] => None
  | x :: l =>
      match last_index c l with
      | Some k => Some (S k)
      | None => if decide (x = c) then Some 0 else None
      end
  end.

(** [s.rfind(' ', 0, i)] and [s.find(' ', i)] *)
Definition rfind_space (s : text) (i : Z) : option nat := last_index space (take (py_index (length s) i) s).
Definition find_space (s : text) (i : Z) : option nat :=
  let start := py_index (length s) i in (λ k, start + k) <$> first_index space (drop start s).

(** The loop of [_count_dollars_before_index], from [dollar_index] down; the
    character at index 0 is not looked at. *)
Fixpoint count_dollars (s : text) (dollar_index : nat) : nat :=
  match dollar_index with
  | 0 => 0
  | S n => if s !! dollar_index ==? Some dollar then S (count_dollars s n) else 0
  end.
Definition count_dollars_before_index (s : text) (i : nat) : nat :=
  match i with 0 => 0 | S n => count_dollars s n end.

(** The two search loops of [_line]. *)
Fixpoint rfind_loop (fuel : nat) (s : text) (i : Z) : result (option nat) :=
  match fuel with
  | 0 => Err OutOfFuel
  | S fuel =>
      match rfind_space s i with
      | None => Ok None
      | Some k => if Nat.even (count_dollars_before_index s k) then Ok (Some k) else rfind_loop fuel s (Z.of_nat k)
      end
  end.
Fixpoint find_loop (fuel : nat) (s : text) (i : Z) : result (option nat) :=
  match fuel with
  | 0 => Err OutOfFuel
  | S fuel =>
      match find_space s i with
      | None => Ok None
      | Some k => if Nat.even (count_dollars_before_index s k) then Ok (Some k) else find_loop fuel s (Z.of_nat k + 1)
      end
  end.

(** The place at which a line that is too wide is broken. *)
Definition break_point (width : Z) (leading_space s : text) : result (option nat) :=
  let available_space := (width - Z.of_nat (length leading_space) - 2)%Z in
  found ← rfind_loop (S (S (length s))) s available_space;
  match found with
  | Some k => Ok (Some k)
  | None => find_loop (S (S (length s))) s available_space
  end.

Definition indentation (n : nat) : text := replicate (2 * n) space.

Fixpoint line_loop (fuel : nat) (width : Z) (indent : nat) (leading_space s : text) : result text :=
  match fuel with
  | 0 => Err OutOfFuel
  | S fuel =>
      if (Z.of_nat (length leading_space + length s) <=? width)%Z then Ok (leading_space ++ s ++ [nl])
      else
        point ← break_point width leading_space s;
        match point with
        | None => Ok (leading_space ++ s ++ [nl])
        | Some k =>
            rest ← line_loop fuel width indent (indentation (indent + 2)) (drop (S k) s);
            Ok (leading_space ++ take k s ++ [space; dollar; nl] ++ rest)
        end
  end.

(** [_line(text, indent)] *)
Definition line (width : Z) (s : text) (indent : nat) : result text :=
  line_loop (S (length s)) width indent (indentation indent) s.

(** ** The methods *)
Section writer.
Context (wrap : text → Z → list text) (width : Z).

(** Writes one after the other. *)
Definition writes (l : list (result text)) : result text :=
  ls ← map_result (λ m, m) l; Ok (concat ls).

Definition newline_ : result text := Ok [nl].

Definition comment (s : text) : result text :=
  Ok (concat ((λ l, chars "# " ++ l ++ [nl]) <$> wrap s (width - 2))).

Definition variable (key : text) (value : option ninja_value) (indent : nat) : result text :=
  match value with
  | None => Ok []
  | Some (NStr value) => line width (key ++ chars " = " ++ value) indent
  | Some (NList value) => line width (key ++ chars " = " ++ ljoin [space] (filter (λ v, v ≠ []) value)) indent
  end.

Definition pool (name depth : text) : result text :=
  writes [line width (chars "pool " ++ name) 0; variable (chars "depth") (Some (NStr depth)) 1].

(** [if x: self.variable(key, x, indent=1)] *)
Definition optional_variable (key : string) (value : option ninja_value) : result text :=
  match value with
  | None | Some (NStr []) | Some (NList []) => Ok []
  | Some v => variable (chars key) (Some v) 1
  end.
Definition flag_variable (key : string) (b : bool) : result text :=
  if b then variable (chars key) (Some (NStr (chars "1"))) 1 else Ok [].

Definition rule (name : text) (command description depfile : option ninja_value) (generator : bool)
    (pool_ : option ninja_value) (restat : bool) (rspfile rspfile_content deps : option ninja_value) : result text :=
  writes [line width (chars "rule " ++ name) 0; variable (chars "command") command 1;
    optional_variable "description" description; optional_variable "depfile" depfile;
    flag_variable "generator" generator; optional_variable "pool" pool_; flag_variable "restat" restat;
    optional_variable "rspfile" rspfile; optional_variable "rspfile_content" rspfile_content;
    optional_variable "deps" deps].

Definition build (outputs : option ninja_value) (rule_ : text) (inputs implicit order_only : option ninja_value)
    (variables : list (text * option ninja_value)) : result (text * list text) :=
  let outputs := as_list outputs in
  let out_outputs := escape_path <$> outputs in
  let all_inputs := escape_path <$> as_list inputs in
  let with_group (bar : string) (group : option ninja_value) (all : list text) : list text :=
    match group with
    | None | Some (NStr []) | Some (NList []) => all
    | Some _ => all ++ [chars bar] ++ (escape_path <$> as_list group)
    end in
  let all_inputs := with_group "||" order_only (with_group "|" implicit all_inputs) in
  out ← writes (line width (chars "build " ++ ljoin [space] out_outputs ++ chars ": "
                            ++ ljoin [space] (rule_ :: all_inputs)) 0
                :: ((λ '(key, val), variable key val 1) <$> variables));
  Ok (out, outputs).

Definition include (path : text) : result text := line width (chars "include " ++ path) 0.
Definition subninja (path : text) : result text := line width (chars "subninja " ++ path) 0.
Definition default_ (paths : option ninja_value) : result text :=
  line width (chars "default " ++ ljoin [space] (as_list paths)) 0.
End writer.

(** ** Reading *)

(** How ninja joins lines: a dollar sign keeps the next character, and one before a
    newline continues the line, without the blanks the next one begins with. *)
Fixpoint unwrap (skip : bool) (l : text) : text :=
  match l with
  | [] => []
  | c :: l' =>
      if skip && (c ==? space) then unwrap true l'
      else if c ==? dollar then
        match l' with
        | [] => [c]
        | c' :: l'' => if c' ==? nl then unwrap true l'' else c :: c' :: unwrap false l''
        end
      else c :: unwrap false l'
  end.

(** * Theorems *)

Lemma first_index_spec c l k : first_index c l = Some k → l !! k = Some c.
Proof.
  revert k. induction l as [|x l IH]; intros k Hk; [done|]. simpl in Hk. case_decide; [by simplify_eq|].
  destruct (first_index c l) as [k'|]; [|done]. simplify_eq/=. by apply IH.
Qed.
Lemma last_index_spec c l k : last_index c l = Some k → l !! k = Some c.
Proof.
  revert k. induction l as [|x l IH]; intros k Hk; [done|]. simpl in Hk.
  destruct (last_index c l) as [k'|]; [simplify_eq/=; by apply IH|]. case_decide; by simplify_eq.
Qed.

Lemma rfind_space_spec s i k : rfind_space s i = Some k → s !! k = Some space ∧ k < py_index (length s) i.
Proof.
  intros Hk. apply last_index_spec in Hk. apply lookup_take_Some in Hk as [??]. done.
Qed.
Lemma find_space_spec s i k : find_space s i = Some k → s !! k = Some space ∧ py_index (length s) i ≤ k.
Proof.
  unfold find_space. intros Hk. apply fmap_Some in Hk as (k'&Hk'&->). apply first_index_spec in Hk'.
  rewrite lookup_drop in Hk'. split; [done|lia].
Qed.

(** The searches end, and find a space. *)
Lemma rfind_loop_result fuel s i :
  py_index (length s) i < fuel →
  ∃ found, rfind_loop fuel s i = Ok found ∧ ∀ k, found = Some k → s !! k = Some space.
Proof.
  revert i. induction fuel as [|fuel IH]; intros i Hf; [lia|]. cbn [rfind_loop].
  destruct (rfind_space s i) as [k|] eqn:Hk; [|by exists None].
  apply rfind_space_spec in Hk as [Hk Hlt]. destruct (Nat.even _); [exists (Some k); naive_solver|].
  apply IH. pose proof (lookup_lt_Some _ _ _ Hk). unfold py_index in *. destruct (Z.of_nat k <? 0)%Z eqn:Hz; lia.
Qed.
Lemma find_loop_result fuel s i :
  length s < fuel + py_index (length s) i →
  ∃ found, find_loop fuel s i = Ok found ∧ ∀ k, found = Some k → s !! k = Some space.
Proof.
  revert i. induction fuel as [|fuel IH]; intros i Hf.
  { exfalso. unfold py_index in Hf. destruct (i <? 0)%Z eqn:Hz; lia. }
  cbn [find_loop]. destruct (find_space s i) as [k|] eqn:Hk; [|by exists None].
  apply find_space_spec in Hk as [Hk Hle]. destruct (Nat.even _); [exists (Some k); naive_solver|].
  apply IH. pose proof (lookup_lt_Some _ _ _ Hk).
  assert (py_index (length s) (Z.of_nat k + 1) = S k); [|lia].
  unfold py_index. destruct (Z.of_nat k + 1 <? 0)%Z eqn:Hz; lia.
Qed.

Lemma break_point_result width leading_space s :
  ∃ found, break_point width leading_space s = Ok found ∧ ∀ k, found = Some k → s !! k = Some space.
Proof.
  unfold break_point. set (i := (width - _ - 2)%Z).
  assert (Hi : py_index (length s) i ≤ length s).
  { unfold py_index. destruct (i <? 0)%Z eqn:Hz; lia. }
  destruct (rfind_loop_result (S (S (length s))) s i) as ([k|]&->&Hk); [lia| |]; cbn [mbind result_bind].
  - by exists (Some k).
  - apply find_loop_result. lia.
Qed.

(** A text of words separated by single spaces: no space is last or is followed by
    another. *)
Definition single_spaced (s : text) : Prop :=
  ∀ i, s !! i = Some space → ∃ c, s !! S i = Some c ∧ c ≠ space.

Lemma unwrap_skip n l : unwrap true (replicate n space ++ l) = unwrap true l.
Proof. induction n as [|n IH]; [done|]. cbn [replicate app unwrap]. by rewrite bool_decide_eq_true_2. Qed.

Lemma unwrap_noskip l : head l ≠ Some space → unwrap true l = unwrap false l.
Proof. destruct l as [|c l]; [done|]. intros Hc. simpl in Hc. cbn [unwrap]. rewrite bool_decide_eq_false_2 by congruence. done. Qed.

Lemma unwrap_spaces n l : unwrap false (replicate n space ++ l) = replicate n space ++ unwrap false l.
Proof. induction n as [|n IH]; [done|]. cbn [replicate app unwrap andb]. rewrite bool_decide_eq_false_2 by done. by rewrite IH. Qed.

(** A piece of a line before a break. *)
Lemma unwrap_break t l :
  nl ∉ t → unwrap false (t ++ [space; dollar; nl] ++ l) = t ++ space :: unwrap true l.
Proof.
  assert (Hgen : ∀ n t, length t ≤ n → nl ∉ t → unwrap false (t ++ [space; dollar; nl] ++ l) = t ++ space :: unwrap true l).
  { intros n. clear t. induction n as [|n IH]; intros t Hlen Hnl; [by destruct t; [|simpl in Hlen; lia]|].
    destruct t as [|c t]; [done|]. apply not_elem_of_cons in Hnl as [Hc Hnl]. cbn [app unwrap andb].
    destruct (decide (c = dollar)) as [->|Hd].
    - rewrite bool_decide_eq_true_2 by done. destruct t as [|c' t]; [done|]. cbn [app].
      apply not_elem_of_cons in Hnl as [Hc' Hnl]. rewrite bool_decide_eq_false_2 by done.
      do 2 f_equal. apply IH; [simpl in *; lia|done].
    - rewrite bool_decide_eq_false_2 by done. f_equal. apply IH; [simpl in *; lia|done]. }
  by apply (Hgen (length t)).
Qed.

(** The last piece. *)
Lemma unwrap_last t : nl ∉ t → last t ≠ Some dollar → unwrap false (t ++ [nl]) = t ++ [nl].
Proof.
  assert (Hgen : ∀ n t, length t ≤ n → nl ∉ t → last t ≠ Some dollar → unwrap false (t ++ [nl]) = t ++ [nl]).
  { intros n. clear t. induction n as [|n IH]; intros t Hlen Hnl Hlast; [by destruct t; [|simpl in Hlen; lia]|].
    destruct t as [|c t]; [done|]. apply not_elem_of_cons in Hnl as [Hc Hnl]. cbn [app unwrap andb].
    destruct (decide (c = dollar)) as [->|Hd].
    - rewrite bool_decide_eq_true_2 by done. destruct t as [|c' t]; [done|]. cbn [app].
      apply not_elem_of_cons in Hnl as [Hc' Hnl]. rewrite bool_decide_eq_false_2 by done.
      do 2 f_equal. apply IH; [simpl in *; lia|done|]. destruct t; [done|]. by rewrite !last_cons_cons in Hlast.
    - rewrite bool_decide_eq_false_2 by done. f_equal. apply IH; [simpl in *; lia|done|].
      destruct t; [done|]. by rewrite last_cons_cons in Hlast. }
  by apply (Hgen (length t)).
Qed.

Lemma line_loop_result fuel width indent n s :
  length s < fuel → nl ∉ s → single_spaced s → last s ≠ Some dollar →
  ∃ out, line_loop fuel width indent (replicate n space) s = Ok (replicate n space ++ out)
    ∧ unwrap false out = s ++ [nl] ∧ (head s ≠ Some space → head out ≠ Some space).
Proof.
  revert n s. induction fuel as [|fuel IH]; intros n s Hf Hnl Hsp Hlast; [lia|]. cbn [line_loop].
  assert (Hdone : ∃ out, Ok (replicate n space ++ s ++ [nl]) = Ok (replicate n space ++ out)
    ∧ unwrap false out = s ++ [nl] ∧ (head s ≠ Some space → head out ≠ Some space)).
  { exists (s ++ [nl]). split_and!; [done|by apply unwrap_last|]. by destruct s. }
  destruct (_ <=? _)%Z; [done|].
  destruct (break_point_result width (replicate n space) s) as ([k|]&->&Hk); cbn [mbind result_bind]; [|done].
  specialize (Hk k eq_refl). pose proof (lookup_lt_Some _ _ _ Hk) as Hlt.
  pose proof (take_drop_middle s k space Hk) as Hsplit.
  destruct (Hsp k Hk) as (c&Hc&Hne).
  destruct (IH (2 * (indent + 2)) (drop (S k) s)) as (rest&Hrest&Hun&Hhead).
  - rewrite length_drop. lia.
  - intros Hin. apply Hnl. rewrite <- Hsplit. apply elem_of_app. right. by right.
  - intros i Hi. rewrite lookup_drop in Hi. apply Hsp in Hi as (c'&Hc'&?). exists c'.
    rewrite lookup_drop. split; [|done]. by replace (S k + S i) with (S (S k + i)) by lia.
  - rewrite <- Hsplit in Hlast. rewrite last_app in Hlast.
    destruct (drop (S k) s) as [|x l] eqn:Hd; [done|]. rewrite last_cons_cons in Hlast. by destruct (last (x :: l)).
  - unfold indentation. rewrite Hrest. cbn [mbind result_bind].
    exists (take k s ++ [space; dollar; nl] ++ replicate (2 * (indent + 2)) space ++ rest).
    split_and!; [done| |].
    + rewrite unwrap_break.
      * rewrite unwrap_skip, unwrap_noskip, Hun.
        -- by rewrite <- Hsplit at 3; rewrite <- app_assoc.
        -- apply Hhead. rewrite <- (Nat.add_0_r (S k)) in Hc. rewrite <- lookup_drop in Hc.
           destruct (drop (S k) s); [done|]. simpl in *. congruence.
      * intros Hin. apply Hnl. rewrite <- Hsplit. apply elem_of_app. by left.
    + intros Hs. destruct k as [|k]; [|by destruct s]. destruct s; [done|]. simpl in *. congruence.
Qed.

Lemma line_result width s indent :
  nl ∉ s → single_spaced s → last s ≠ Some dollar →
  ∃ out, line width s indent = Ok out ∧ unwrap false out = indentation indent ++ s ++ [nl].
Proof.
  intros Hnl Hsp Hlast. unfold line, indentation.
  destruct (line_loop_result (S (length s)) width indent (2 * indent) s) as (out&->&Hun&_); [lia|done..|].
  eexists. split; [done|]. by rewrite unwrap_spaces, Hun.
Qed.

(** * Properties *)


