(* ===== verification/TargetSpec.v ===== *)
(** * Targets as the generators read them

    The parts of the dictionary of a target that the generators of makefiles and ninja
    files (tools/gyp/pylib/gyp/generator/make.py and ninja.py) look up, and what both of them use of texts and sets. *)
From S2P Require Import Prelude PyDict PyStr PyPath.
From Stdlib Require Import Ascii.

(** [' '.join(s)] of a set: CPython lists the elements in an order of its own. *)
Class SetOrder := {
  set_order : list text → list text;
  set_order_perm : ∀ s, set_order s ≡ₚ s
}.

#[refine] Instance set_order_inserted : SetOrder | 10 := {| set_order s := s |}.
Proof. done. Defined.

Abbreviation words := (ljoin [" "%char]).
Definition contains (p s : text) : bool := bool_decide (is_Some (lfind p s)).
Definition ends_with (e s : text) : bool := lstarts (reverse e) (reverse s).

(** The parts of a target; [int(.. .get('process_outputs_as_sources', False))] is the flag. *)
Record gyp_action := {
  action_name : text; action_inputs : list text; action_outputs : list text; action_as_sources : bool;
  action_command : list text; action_message : option text
}.
Record gyp_rule := {
  rule_name : text; rule_sources : list text; rule_inputs : list text; rule_outputs : list text; rule_as_sources : bool;
  rule_action : option (list text); rule_message : option text
}.
Record gyp_copy := { copy_destination : text; copy_files : list text }.
Record config := {
  defines : list text; cflags : list text; cflags_c : list text; cflags_cc : list text; include_dirs : list text;
  ldflags : list text; library_dirs : list text
}.
(** A target; keys that may be absent are options, absent lists that are read with an empty default are empty. *)
Record spec := {
  target_name : text; type : string; spec_toolset : text;
  spec_actions : option (list gyp_action); spec_rules : option (list gyp_rule); spec_copies : option (list gyp_copy);
  sources : list text; dependencies : list string; libraries : list text; configurations : list (string * config);
  standalone_static_library : bool; product_prefix : option text; product_name : option text;
  product_extension : option text; product_dir : option text
}.
