(* ===== verification/MakeQuote.v ===== *)
(** * Quoting for make

    The functions of tools/gyp/pylib/gyp/generator/make.py that escape text for the
    makefiles: [EscapeShellArgument], [EscapeMakeVariableExpansion], [EscapeCppDefine],
    [QuoteIfNecessary], [QuoteSpaces], [StringToMakefileVariable], and [WriteList] and
    [WriteMakeRule] of [MakefileWriter]; and how GNU make reads what they write
    (the chapters on continuation lines, on comments, on variables and on rules of its manual), so that the
    two can be compared. *)
From stdpp Require Import relations.
From S2P Require Import Prelude PyStr PyPath Shell.
From Stdlib Require Import Ascii.

Definition nl : ascii := "010".
Definition tab : ascii := "009".
Definition backslash : ascii := "\".
Definition single_quote : ascii := "'".
Definition double_quote : ascii := "034".

(** ** Quoting *)

(** ["'" + s.replace("'", "'\\''") + "'"] *)
Definition EscapeShellArgument (s : text) : text :=
  [single_quote] ++ lreplace [single_quote] [single_quote; backslash; single_quote; single_quote] s ++ [single_quote].

Definition EscapeMakeVariableExpansion (s : text) : text := lreplace ["$"%char] ["$"%char; "$"%char] s.

Definition EscapeCppDefine (s : text) : text :=
  lreplace ["#"%char] [backslash; "#"%char] (EscapeMakeVariableExpansion (EscapeShellArgument s)).

Definition QuoteIfNecessary (string : text) : text :=
  if double_quote in? string
  then [double_quote] ++ lreplace [double_quote] [backslash; double_quote] string ++ [double_quote]
  else string.

Definition StringToMakefileVariable (string : text) : text := only_word_chars string.

Definition QuoteSpaces (s quote : text) : text := lreplace [" "%char] quote s.
Definition quoted_space : text := [backslash; " "%char].

(** ** Writing lists and rules *)

(** [self.WriteLn(text)] *)
Definition WriteLn (line : text) : text := line ++ [nl].

(** [WriteList(value_list, variable, prefix, quoter)] *)
Definition WriteList (value_list : list text) (variable prefix : text) (quoter : text → text) : text :=
  let values : text :=
    if value_list ==? [] then []
    else [" "%char; backslash; nl; tab] ++ ljoin [" "%char; backslash; nl; tab] ((λ l, quoter (prefix ++ l)) <$> value_list) in
  variable ++ chars " :=" ++ values ++ [nl; nl].

(** [WriteMakeRule(outputs, inputs, actions, comment, order_only, force, phony)]: the
    lines; the first output of a rule that is not order only is [outputs[0]]. *)
Definition WriteMakeRule (outputs inputs actions : list text) (comment : option text) (order_only force phony : bool) :
    result (list text) :=
  let outputs := (λ o, QuoteSpaces o quoted_space) <$> outputs in
  let inputs := (λ i, QuoteSpaces i quoted_space) <$> inputs in
  let force_append : text := if force then chars " FORCE_DO_CMD" else [] in
  first ← (match outputs with
           | output :: _ => Ok output
           | [] => if order_only && (actions ==? []) then Ok [] else Err IndexError
           end);
  let pick_output := if order_only then ljoin [" "%char] outputs else first in
  Ok ((match default [] comment with [] => [] | comment => [chars "# " ++ comment] end)
      ++ (if phony then [chars ".PHONY: " ++ ljoin [" "%char] outputs] else [])
      ++ (if actions ==? [] then [] else [first ++ chars ": TOOLSET := $(TOOLSET)"])
      ++ [pick_output ++ chars ": " ++ (if order_only then chars "| " else []) ++ ljoin [" "%char] inputs ++ force_append]
      ++ ((λ action, tab :: action) <$> actions)
      ++ (if negb order_only && (1 <? length outputs)
          then [ljoin [" "%char] (tail outputs) ++ chars ": " ++ first; ljoin [" "%char] (tail outputs) ++ chars ": ;"]
          else [])
      ++ [[]]).

(** ** What make reads *)

Definition is_blank (c : ascii) : bool := c in? [" "%char; tab].

(** A logical line: a backslash before the end of a line, unless it is escaped itself, joins the next line, and
    the two with the blanks around them become one blank.  [acc] is what has been
    read, backwards. *)
Fixpoint collapse (skip : bool) (acc s : text) : text :=
  match s with
  | [] => reverse acc
  | c :: r =>
      if skip && is_blank c then collapse true acc r
      else if c ==? backslash then
        match r with
        | [] => reverse (backslash :: acc)
        | c' :: r' =>
            if c' ==? nl then collapse true (" "%char :: drop_while is_blank acc) r'
            else if c' ==? backslash then collapse false (backslash :: backslash :: acc) r'
            else collapse false (backslash :: acc) r
        end
      else if c ==? nl then reverse acc
      else collapse false (c :: acc) r
  end.

(** Comments: a number sign starts one unless an odd number of backslashes is before it, half of
    which are left; [k] backslashes have been read. *)
Fixpoint uncomment (k : nat) (s : text) : text :=
  match s with
  | [] => replicate k backslash
  | c :: r =>
      if c ==? backslash then uncomment (S k) r
      else if (c ==? "#"%char) then
        if Nat.odd k then replicate (k `div` 2) backslash ++ "#"%char :: uncomment 0 r else replicate (k `div` 2) backslash
      else replicate k backslash ++ c :: uncomment 0 r
  end.

(** The value of a text without references to variables. *)
Fixpoint make_expand (s : text) : option text :=
  match s with
  | [] => Some []
  | c :: r =>
      if (c ==? "$"%char) then
        match r with
        | c' :: r' => if (c' ==? "$"%char) then cons "$"%char <$> make_expand r' else None
        | [] => None
        end
      else cons c <$> make_expand r
  end.

(** An assignment [name := value] that is expanded at once. *)
Definition make_assignment (s : text) : option (text * text) :=
  let '(name, rest) := span (λ c, negb (c ==? ":"%char)) (uncomment 0 (collapse false [] s)) in
  match rest with
  | a :: b :: value =>
      if (a ==? ":"%char) && (b ==? "="%char) then
        value ← make_expand (lstrip is_blank value); Some (strip is_blank name, value)
      else None
  | _ => None
  end.

(** The words of a line, in which a backslash before a blank makes it part of the word. *)
Fixpoint make_words (word s : text) : list text :=
  let last := if word ==? [] then [] else [word] in
  match s with
  | [] => last
  | c :: r =>
      if c ==? backslash then
        match r with
        | c' :: r' => if (c' ==? " "%char) then make_words (word ++ [c']) r' else make_words (word ++ [c]) r
        | [] => [word ++ [c]]
        end
      else if is_blank c then last ++ make_words [] r
      else make_words (word ++ [c]) r
  end.

(** A rule: what is made, what has to be there, what has to be there first, and the commands. *)
Record make_rule := { targets : list text; prerequisites : list text; order_only_prerequisites : list text; recipe : list text }.

(** What follows the colon of a rule. *)
Definition read_head (names : list text) (rest : text) : make_rule :=
  let '(needed, command) := span (λ c, negb (c ==? ";"%char)) rest in
  let '(normal, first) := span (λ c, negb (c ==? "|"%char)) needed in
  {| targets := names; prerequisites := make_words [] normal; order_only_prerequisites := make_words [] (tail first);
     recipe := match command with _ :: command => [command] | [] => [] end |}.

(** One more line.  The rules read before it are backwards, the current one first; a line that
    starts with a tab is a command of the current rule, and assignments to variables for one
    target are left out. *)
Definition read_line (line : text) (rules : list make_rule) : list make_rule :=
  match line with
  | [] => rules
  | c :: cmd =>
      if (c ==? "#"%char) then rules
      else if c ==? tab then
        match rules with
        | r :: rules => {| targets := targets r; prerequisites := prerequisites r;
                           order_only_prerequisites := order_only_prerequisites r; recipe := recipe r ++ [cmd] |} :: rules
        | [] => []
        end
      else
        let '(names, rest) := span (λ c, negb (c ==? ":"%char)) line in
        if "="%char in? rest then rules else read_head (make_words [] names) (tail rest) :: rules
  end.
Definition read_rules (lines : list text) : list make_rule := reverse (foldl (λ rules line, read_line line rules) [] lines).

(** * Theorems *)

(** ** The shell *)

Lemma sh_words_single word s line :
  sh_words InSingle word
    (lreplace [single_quote] [single_quote; backslash; single_quote; single_quote] s ++ single_quote :: line)
  = sh_words InWord (word ++ s) line.
Proof.
  rewrite lreplace_single. revert word. induction s as [|c s IH]; intros word.
  { cbn. by rewrite app_nil_r. }
  cbn [fmap list_fmap concat]. rewrite <- app_assoc. case_decide as Hc.
  - subst c. cbn [app]. transitivity (sh_words InSingle (word ++ [single_quote]) (concat
      ((λ x, if decide (x = single_quote) then [single_quote; backslash; single_quote; single_quote] else [x]) <$> s)
      ++ single_quote :: line)); [reflexivity|]. rewrite IH. by rewrite <- app_assoc.
  - cbn [app sh_words]. rewrite bool_decide_eq_false_2 by done. rewrite IH. by rewrite <- app_assoc.
Qed.

(** An escaped argument is one word, or part of one, whatever it contains. *)
Lemma sh_words_escaped mode word s line :
  (mode = Between ∨ mode = InWord) →
  sh_words mode word (EscapeShellArgument s ++ line) = sh_words InWord (word ++ s) line.
Proof.
  intros Hm. unfold EscapeShellArgument. rewrite <- !app_assoc. cbn [app].
  rewrite <- sh_words_single. by destruct Hm as [->| ->].
Qed.

Lemma sh_words_escaped_list l :
  sh_words Between [] (concat ((λ s, " "%char :: EscapeShellArgument s) <$> l)) = Some l.
Proof.
  assert (Hword : ∀ word, sh_words InWord word (concat ((λ s, " "%char :: EscapeShellArgument s) <$> l)) = Some (word :: l)).
  { induction l as [|s l IH]; intros word; [done|]. cbn [fmap list_fmap concat app sh_words].
    change (sh_blank " "%char) with true. cbn iota. rewrite sh_words_escaped by auto. by rewrite IH. }
  destruct l as [|s l]; [done|]. specialize (Hword []). cbn [fmap list_fmap concat app sh_words] in *.
  change (sh_blank " "%char) with true in *. cbn iota in *.
  destruct (sh_words Between [] _); [|done]. by injection Hword as ->.
Qed.

(** ** The characters of an escaped define *)

(** A number sign of the text has no backslash before it; [after] says whether the
    text comes after one. *)
Fixpoint hash_ok (after : bool) (s : text) : bool :=
  match s with
  | [] => true
  | c :: r => negb (after && (c ==? "#"%char)) && hash_ok (c ==? backslash) r
  end.

Local Definition dollar_char (c : ascii) : text := if decide (c = "$"%char) then ["$"%char; "$"%char] else [c].
Local Definition cpp_char (c : ascii) : text :=
  if decide (c = "$"%char) then ["$"%char; "$"%char] else if decide (c = "#"%char) then [backslash; "#"%char] else [c].

Lemma EscapeCppDefine_chars s : EscapeCppDefine s = concat (cpp_char <$> EscapeShellArgument s).
Proof.
  unfold EscapeCppDefine, EscapeMakeVariableExpansion. generalize (EscapeShellArgument s) as t. clear s.
  intros t. rewrite !lreplace_single. induction t as [|c t IH]; [done|].
  cbn [fmap list_fmap concat]. rewrite fmap_app, concat_app, IH. f_equal. unfold cpp_char.
  destruct (decide (c = "$"%char)) as [->|Hd]; [done|]. cbn [fmap list_fmap concat]. by rewrite app_nil_r.
Qed.

Local Definition words_text (l : list text) : text := concat ((λ s, " "%char :: EscapeShellArgument s) <$> l).

Lemma EscapeCppDefine_words l :
  concat ((λ s, " "%char :: EscapeCppDefine s) <$> l) = concat (cpp_char <$> words_text l).
Proof.
  induction l as [|s l IH]; [done|].
  transitivity (" "%char :: concat (cpp_char <$> (EscapeShellArgument s ++ words_text l))); [|reflexivity].
  rewrite fmap_app, concat_app, <- IH, <- EscapeCppDefine_chars. done.
Qed.

Lemma hash_ok_escape b s rest :
  hash_ok b s = true → hash_ok false rest = true →
  hash_ok b (lreplace [single_quote] [single_quote; backslash; single_quote; single_quote] s ++ single_quote :: rest) = true.
Proof.
  intros Hs Hr. rewrite lreplace_single. revert b Hs. induction s as [|c s IH]; intros b Hs.
  { cbn [fmap list_fmap concat app hash_ok]. change (single_quote ==? "#"%char) with false.
    change (single_quote ==? backslash) with false. rewrite Hr. by destruct b. }
  cbn [hash_ok] in Hs. apply andb_true_iff in Hs as [Hc Hs]. cbn [fmap list_fmap concat]. rewrite <- app_assoc.
  specialize (IH _ Hs). destruct (decide (c = single_quote)) as [->|Hq].
  - cbn [app]. transitivity (negb (b && false) && hash_ok false (concat
      ((λ x, if decide (x = single_quote) then [single_quote; backslash; single_quote; single_quote] else [x]) <$> s)
      ++ single_quote :: rest)); [reflexivity|]. rewrite andb_false_r. exact IH.
  - cbn [app hash_ok]. by rewrite Hc, IH.
Qed.

Lemma hash_ok_words l : Forall (λ s, hash_ok false s = true) l → hash_ok false (words_text l) = true.
Proof.
  induction 1 as [|s l Hs Hl IH]; [done|]. unfold words_text in *. cbn [fmap list_fmap concat].
  unfold EscapeShellArgument. rewrite <- app_comm_cons, <- !app_assoc. cbn [app].
  transitivity (hash_ok false (lreplace [single_quote] [single_quote; backslash; single_quote; single_quote] s
    ++ single_quote :: concat ((λ s0, " "%char :: EscapeShellArgument s0) <$> l))); [reflexivity|].
  by apply hash_ok_escape.
Qed.

(** ** make reads the text back *)

Lemma uncomment_cpp k s :
  hash_ok (0 <? k) s = true → uncomment k (concat (cpp_char <$> s)) = replicate k backslash ++ concat (dollar_char <$> s).
Proof.
  revert k. induction s as [|c s IH]; intros k Hs.
  { cbn. by rewrite app_nil_r. }
  cbn [hash_ok] in Hs. apply andb_true_iff in Hs as [Hc Hs]. cbn [fmap list_fmap concat].
  unfold cpp_char at 1, dollar_char at 1. destruct (decide (c = "$"%char)) as [->|Hd].
  - cbn [app uncomment]. rewrite !bool_decide_eq_false_2 by done. by rewrite (IH 0 Hs).
  - destruct (decide (c = "#"%char)) as [->|Hh].
    + destruct k as [|k]; [|done]. cbn [app uncomment]. rewrite bool_decide_eq_true_2 by done.
      rewrite bool_decide_eq_false_2 by done. rewrite bool_decide_eq_true_2 by done. cbn. by rewrite (IH 0 Hs).
    + cbn [app uncomment]. destruct (decide (c = backslash)) as [->|Hb].
      * rewrite bool_decide_eq_true_2 by done. rewrite (IH (S k) Hs), replicate_S_end, <- app_assoc. done.
      * rewrite !bool_decide_eq_false_2 by done. rewrite bool_decide_eq_false_2 in Hs by done. by rewrite (IH 0 Hs).
Qed.

Lemma make_expand_dollar s : make_expand (concat (dollar_char <$> s)) = Some s.
Proof.
  induction s as [|c s IH]; [done|]. cbn [fmap list_fmap concat]. unfold dollar_char at 1.
  case_decide as Hd.
  - subst c. cbn [app make_expand]. rewrite !bool_decide_eq_true_2 by done. by rewrite IH.
  - cbn [app make_expand]. rewrite bool_decide_eq_false_2 by done. by rewrite IH.
Qed.

(** Text without an end of line, that does not end in a backslash, is copied. *)
Lemma collapse_text acc t c rest :
  nl ∉ t → c ≠ nl → c ≠ backslash →
  collapse false acc (t ++ c :: rest) = collapse false (c :: reverse t ++ acc) rest.
Proof.
  intros Ht Hc Hb. remember (length t) as n eqn:Hn. revert acc t Ht Hn.
  induction n as [n IH] using lt_wf_ind. intros acc t Ht Hn.
  destruct t as [|x t]; [cbn; by rewrite !bool_decide_eq_false_2 by done|].
  apply not_elem_of_cons in Ht as [Hx Ht]. rewrite reverse_cons, <- app_assoc. cbn [app collapse andb].
  destruct (decide (x = backslash)) as [->|Hxb].
  - rewrite bool_decide_eq_true_2 by done. destruct t as [|y t].
    + cbn [app reverse]. rewrite !bool_decide_eq_false_2 by done. cbn. by rewrite !bool_decide_eq_false_2 by done.
    + apply not_elem_of_cons in Ht as [Hy Ht]. cbn [app]. rewrite (bool_decide_eq_false_2 (y = nl)) by done.
      destruct (decide (y = backslash)) as [->|Hyb].
      * rewrite bool_decide_eq_true_2 by done. rewrite (IH (length t)) by (cbn in *; auto with lia).
        by rewrite reverse_cons, <- app_assoc.
      * rewrite bool_decide_eq_false_2 by done.
        rewrite (app_comm_cons t), (IH (length (y :: t))); [done|cbn in *; lia|by apply not_elem_of_cons|done].
  - rewrite !bool_decide_eq_false_2 by done. rewrite (IH (length t)) by (cbn in *; auto with lia). done.
Qed.

(** ** Lists *)

Local Definition line_break : text := [" "%char; backslash; nl; tab].
Local Definition one_line_quoted (q : text) : Prop := ∃ t, q = single_quote :: t ++ [single_quote] ∧ nl ∉ t.

Lemma ljoin_concat sep (l : list text) : l ≠ [] → sep ++ ljoin sep l = concat ((λ w, sep ++ w) <$> l).
Proof.
  induction l as [|w l IH]; [done|]. intros _. destruct l as [|v l].
  - cbn. by rewrite app_nil_r.
  - rewrite ljoin_cons, fmap_cons by done. cbn [concat]. rewrite <- IH by done. by rewrite <- app_assoc.
Qed.

Lemma collapse_break acc q rest :
  (∀ c, head acc = Some c → is_blank c = false) → one_line_quoted q →
  collapse false acc (line_break ++ q ++ rest) = collapse false (reverse (" "%char :: q) ++ acc) rest.
Proof.
  intros Hacc (t & -> & Ht). cbn [app line_break]. rewrite <- app_assoc. cbn [app].
  assert (Hdrop : drop_while is_blank acc = acc) by (destruct acc as [|c acc]; [done|]; cbn; by rewrite (Hacc c eq_refl)).
  transitivity (collapse false (single_quote :: " "%char :: drop_while is_blank acc) (t ++ single_quote :: rest)); [reflexivity|].
  rewrite Hdrop, collapse_text by done. f_equal. rewrite !reverse_cons, reverse_app. cbn. by rewrite <- !app_assoc.
Qed.

Lemma collapse_list acc qs :
  (∀ c, head acc = Some c → is_blank c = false) → Forall one_line_quoted qs →
  collapse false acc (concat ((λ q, line_break ++ q) <$> qs) ++ [nl; nl]) = reverse acc ++ concat ((λ q, " "%char :: q) <$> qs).
Proof.
  intros Hacc Hqs. revert acc Hacc. induction Hqs as [|q qs Hq Hqs IH]; intros acc Hacc.
  { cbn. by rewrite app_nil_r. }
  rewrite !fmap_cons. cbn [concat]. rewrite <- !app_assoc, collapse_break by done. rewrite IH.
  - rewrite reverse_app, reverse_involutive, <- app_assoc. done.
  - destruct Hq as (t & -> & _). intros c. rewrite !reverse_cons, reverse_app. cbn. by intros [= <-].
Qed.

Lemma EscapeCppDefine_one_line s : nl ∉ s → one_line_quoted (EscapeCppDefine s).
Proof.
  intros Hs. rewrite EscapeCppDefine_chars. unfold EscapeShellArgument. rewrite !fmap_app, !concat_app.
  eexists. split; [reflexivity|]. rewrite lreplace_single. induction s as [|c s IH]; [apply not_elem_of_nil|].
  apply not_elem_of_cons in Hs as [Hc Hs]. cbn [fmap list_fmap concat]. rewrite fmap_app, concat_app.
  apply not_elem_of_app. split; [|by apply IH]. destruct (decide (c = single_quote)) as [->|Hq].
  - intros Hin. cbn in Hin. repeat (apply elem_of_cons in Hin as [Hin|Hin]; [discriminate Hin|]). by apply elem_of_nil in Hin.
  - cbn [fmap list_fmap concat]. rewrite app_nil_r. unfold cpp_char.
    repeat case_decide; rewrite ?not_elem_of_cons; repeat split; try done; by apply not_elem_of_nil.
Qed.

Lemma WriteList_text ds variable prefix quoter :
  WriteList ds variable prefix quoter
  = variable ++ chars " :=" ++ concat ((λ q, line_break ++ q) <$> ((λ l, quoter (prefix ++ l)) <$> ds)) ++ [nl; nl].
Proof.
  unfold WriteList. destruct (decide (ds = [])) as [->|Hne]; [done|].
  rewrite bool_decide_eq_false_2 by done. do 2 f_equal. f_equal.
  rewrite (ljoin_concat line_break); [done|]. intros ?%fmap_nil_inv. done.
Qed.

Lemma sh_words_lstrip s : sh_words Between [] (lstrip is_blank s) = sh_words Between [] s.
Proof.
  unfold lstrip. induction s as [|c s IH]; [done|]. cbn [drop_while]. destruct (is_blank c) eqn:Hc; [|done].
  rewrite IH. cbn [sh_words]. unfold is_blank in Hc. change (sh_blank c = true) in Hc. by rewrite Hc.
Qed.

Lemma lstrip_dollar s : lstrip is_blank (concat (dollar_char <$> s)) = concat (dollar_char <$> lstrip is_blank s).
Proof.
  unfold lstrip. induction s as [|c s IH]; [done|]. rewrite fmap_cons. cbn [concat drop_while].
  destruct (is_blank c) eqn:Hc.
  - rewrite <- IH. unfold dollar_char at 1. rewrite decide_False by (by intros ->). cbn. by rewrite Hc.
  - rewrite fmap_cons. cbn [concat]. unfold dollar_char at 1 3. case_decide as Hd; cbn [app drop_while]; [done|].
    by rewrite Hc.
Qed.

(** ** The names of the variables *)

Lemma word_char_ne c c' : is_word_char c = true → is_word_char c' = false → c ≠ c'.
Proof. intros H1 H2 ->. by rewrite H1 in H2. Qed.

Lemma drop_while_word s : Forall (λ c, is_word_char c = true) s → drop_while is_blank s = s.
Proof.
  destruct 1 as [|c s Hc]; [done|]. cbn [drop_while]. replace (is_blank c) with false; [done|].
  symmetry. apply bool_decide_eq_false. intros [Hb|Hb]%elem_of_cons; [by subst|]. apply list_elem_of_singleton in Hb. by subst.
Qed.

Lemma strip_word_blank s : Forall (λ c, is_word_char c = true) s → strip is_blank (s ++ [" "%char]) = s.
Proof.
  intros Hs. unfold strip, lstrip, rstrip. destruct s as [|c s]; [done|].
  assert (Hl : drop_while is_blank ((c :: s) ++ [" "%char]) = (c :: s) ++ [" "%char]).
  { pose proof (drop_while_word [c]) as Hd. inversion Hs; subst. specialize (Hd (Forall_cons_2 _ _ _ H1 (Forall_nil_2 _))).
    cbn [drop_while app] in *. by destruct (is_blank c). }
  rewrite Hl, reverse_app. cbn [reverse app drop_while]. change (is_blank " "%char) with true. cbn iota.
  transitivity (reverse (drop_while is_blank (reverse (c :: s)))); [reflexivity|].
  rewrite drop_while_word by (by apply Forall_reverse). apply reverse_involutive.
Qed.

Lemma hash_ok_word b s rest :
  Forall (λ c, is_word_char c = true) s → (∀ b, hash_ok b rest = true) → hash_ok b (s ++ rest) = true.
Proof.
  intros Hs Hr. revert b. induction Hs as [|c s Hc Hs IH]; intros b; [done|]. cbn [app hash_ok]. rewrite IH.
  rewrite bool_decide_eq_false_2 by (by apply (word_char_ne c)). by destruct b.
Qed.

Lemma chars_word (f : ascii → text) s :
  Forall (λ c, is_word_char c = true) s → (∀ c, c ≠ "$"%char → c ≠ "#"%char → f c = [c]) → concat (f <$> s) = s.
Proof.
  intros Hs Hf. induction Hs as [|c s Hc Hs IH]; [done|]. rewrite fmap_cons. cbn [concat].
  rewrite Hf, IH by (by apply (word_char_ne c)). done.
Qed.

Lemma chars_assignment (f : ascii → text) variable w :
  Forall (λ c, is_word_char c = true) variable → (∀ c, c ≠ "$"%char → c ≠ "#"%char → f c = [c]) →
  concat (f <$> (variable ++ (chars " :=") ++ w)) = variable ++ chars " :=" ++ concat (f <$> w).
Proof.
  intros Hv Hf. rewrite !fmap_app, !concat_app, chars_word by done. f_equal. cbn. by rewrite !Hf by done.
Qed.

(** What make reads of the list of defines. *)
Lemma make_assignment_defines ds variable :
  Forall (λ c, is_word_char c = true) variable → Forall (λ d, (nl ∉ d) ∧ hash_ok false d = true) ds →
  make_assignment (WriteList ds variable [] EscapeCppDefine) = Some (variable, lstrip is_blank (words_text ds)).
Proof.
  intros Hv Hds. unfold make_assignment. rewrite WriteList_text.
  assert (Hw : hash_ok false (words_text ds) = true).
  { apply hash_ok_words. eapply Forall_impl; [exact Hds|]. by intros d [_ ?]. }
  assert (Hc : collapse false [] (variable ++ chars " :=" ++
      concat ((λ q, line_break ++ q) <$> ((λ l, EscapeCppDefine ([] ++ l)) <$> ds)) ++ [nl; nl])
    = concat (cpp_char <$> (variable ++ chars " :=" ++ words_text ds))).
  { rewrite chars_assignment; [|done|by intros c ??; unfold cpp_char; rewrite !decide_False].
    change (chars " :=") with (chars " :" ++ ["="%char]). rewrite <- !app_assoc, (app_assoc variable).
    cbn [app]. rewrite collapse_text; [|..|done|done]; cycle 1.
    { intros [Hin|Hin]%elem_of_app; [|by apply (bool_decide_pack _) in Hin].
      by apply (proj1 (Forall_forall _ _) Hv) in Hin. }
    rewrite collapse_list.
    - rewrite reverse_cons, app_nil_r, reverse_involutive, <- EscapeCppDefine_words, <- list_fmap_compose, <- !app_assoc.
      done.
    - by intros c [= <-].
    - apply Forall_fmap. eapply Forall_impl; [exact Hds|]. intros d [Hd _]. by apply EscapeCppDefine_one_line. }
  rewrite Hc, uncomment_cpp.
  - cbn [replicate app]. rewrite chars_assignment; [|done|by intros c ??; unfold dollar_char; rewrite !decide_False].
    change (chars " :=") with ([" "%char] ++ (chars ":=")). rewrite <- (app_assoc [" "%char]), (app_assoc variable).
    rewrite span_all; [|..].
    + transitivity (value ← make_expand (lstrip is_blank (concat (dollar_char <$> words_text ds)));
        Some (strip is_blank (variable ++ [" "%char]), value)); [reflexivity|].
      rewrite lstrip_dollar, make_expand_dollar. cbn. by rewrite strip_word_blank.
    + apply forallb_forall. intros c [Hin|Hin]%list_elem_of_In%elem_of_app.
      * apply (proj1 (Forall_forall _ _) Hv) in Hin. rewrite bool_decide_eq_false_2; [done|]. by apply (word_char_ne c).
      * by apply list_elem_of_singleton in Hin as ->.
    + by intros c [= <-].
  - apply hash_ok_word; [done|]. intros b. cbn. rewrite andb_false_r. exact Hw.
Qed.

(** ** Rules *)

(** The names of files that can be written to a rule: without the characters that make
    reads in a special way; blanks are quoted. *)
Definition special_in_rules : list ascii := [backslash; ":"; ";"; "="; "|"; "#"; tab; nl]%char.
Definition name_ok (name : text) : Prop := name ≠ [] ∧ Forall (λ c, c ∉ special_in_rules) name.

Lemma make_words_quoted name word rest :
  Forall (λ c, c ∉ special_in_rules) name →
  make_words word (QuoteSpaces name quoted_space ++ rest) = make_words (word ++ name) rest.
Proof.
  unfold QuoteSpaces. rewrite lreplace_single. intros Hname. revert word.
  induction Hname as [|c name Hc Hname IH]; intros word; [by rewrite app_nil_r|].
  cbn [fmap list_fmap concat]. rewrite <- app_assoc. destruct (decide (c = " "%char)) as [->|Hb].
  - cbn [app quoted_space make_words]. rewrite !bool_decide_eq_true_2 by done. by rewrite IH, <- app_assoc.
  - cbn [app make_words]. assert (Hbl : is_blank c = false).
    { apply bool_decide_eq_false. intros [?|Ht]%elem_of_cons; [done|]. apply list_elem_of_singleton in Ht as ->.
      apply Hc. by apply (bool_decide_unpack _). }
    rewrite Hbl, bool_decide_eq_false_2; [by rewrite IH, <- app_assoc|]. intros ->. apply Hc. by left.
Qed.

Abbreviation quote_names := (fmap (λ o, QuoteSpaces o quoted_space)).

Lemma make_words_names names rest :
  Forall name_ok names → (rest = [] ∨ ∃ c r, rest = c :: r ∧ is_blank c = true) →
  make_words [] (ljoin [" "%char] (quote_names names) ++ rest) = names ++ make_words [] rest.
Proof.
  intros Hn Hrest. induction Hn as [|n names [Hne Hok] Hn IH]; [done|].
  assert (Hend : make_words n rest = n :: make_words [] rest).
  { destruct Hrest as [->|(c & r & -> & Hc)].
    - cbn. by rewrite bool_decide_eq_false_2.
    - cbn [make_words]. rewrite Hc. rewrite (bool_decide_eq_false_2 (c = backslash)) by (by intros ->).
      by rewrite (bool_decide_eq_false_2 (n = [])). }
  destruct names as [|n' names].
  - cbn [fmap list_fmap ljoin]. by rewrite make_words_quoted.
  - rewrite fmap_cons, ljoin_cons by done. rewrite <- !app_assoc, make_words_quoted by done. cbn [app].
    cbn [make_words]. change (is_blank " "%char) with true. cbn iota.
    rewrite (bool_decide_eq_false_2 (n = [])) by done. cbn [app]. by rewrite IH.
Qed.

(** The characters of a list of names. *)
Lemma names_chars names (P : ascii → Prop) :
  Forall name_ok names → P " "%char → P backslash → (∀ c, c ∉ special_in_rules → P c) →
  Forall P (ljoin [" "%char] (quote_names names)).
Proof.
  intros Hn Hb Hs Hok.
  assert (Hq : Forall (Forall P) (quote_names names)).
  { apply Forall_fmap. eapply Forall_impl; [exact Hn|]. intros n [_ Hc]. unfold compose, QuoteSpaces. rewrite lreplace_single.
    induction Hc as [|c n Hc _ IH]; [done|]. cbn [fmap list_fmap concat]. apply Forall_app. split; [|done].
    case_decide; repeat constructor; auto. }
  clear Hn. induction Hq as [|q qs Hq Hqs IH]; [done|]. destruct qs as [|q' qs]; [done|].
  rewrite ljoin_cons by done. apply Forall_app. split; [done|]. by constructor.
Qed.

Lemma span_until (c : ascii) (a b : text) : c ∉ a → span (λ x, negb (x ==? c)) (a ++ c :: b) = (a, c :: b).
Proof.
  intros Ha. apply span_all.
  - apply forallb_forall. intros x Hx%list_elem_of_In. rewrite bool_decide_eq_false_2; [done|]. by intros ->.
  - intros x [= <-]. by rewrite bool_decide_eq_true_2.
Qed.
Lemma span_none (c : ascii) (a : text) : c ∉ a → span (λ x, negb (x ==? c)) a = (a, []).
Proof.
  intros Ha. rewrite <- (app_nil_r a) at 1. apply span_all; [|done].
  apply forallb_forall. intros x Hx%list_elem_of_In. rewrite bool_decide_eq_false_2; [done|]. by intros ->.
Qed.

Lemma names_without names c :
  Forall name_ok names → c ∈ special_in_rules → c ≠ backslash → c ∉ ljoin [" "%char] (quote_names names).
Proof.
  intros Hn Hc Hb Hin.
  assert (Hall : Forall (λ x, x ≠ c) (ljoin [" "%char] (quote_names names))).
  { apply names_chars; [done| |done|by intros x Hx ->]. intros <-. by apply (bool_decide_pack _) in Hc. }
  by apply (proj1 (Forall_forall _ _) Hall c).
Qed.

(** The line of a rule, or of an assignment for its targets. *)
Lemma read_line_names names rest rules :
  Forall name_ok names → names ≠ [] →
  read_line (ljoin [" "%char] (quote_names names) ++ ":"%char :: rest) rules
  = if "="%char in? rest then rules else read_head names rest :: rules.
Proof.
  intros Hn Hne. assert (Hcolon := names_without names ":"%char Hn ltac:(by apply (bool_decide_unpack _)) ltac:(done)).
  assert (Hhash := names_without names "#"%char Hn ltac:(by apply (bool_decide_unpack _)) ltac:(done)).
  assert (Htab := names_without names tab Hn ltac:(by apply (bool_decide_unpack _)) ltac:(done)).
  pose proof (make_words_names names [] Hn (or_introl eq_refl)) as Hwords. rewrite !app_nil_r in Hwords.
  destruct (ljoin [" "%char] (quote_names names)) as [|c l] eqn:Hl; [by rewrite <- Hwords in Hne|].
  apply not_elem_of_cons in Hhash as [Hhash _], Htab as [Htab _]. cbn [app]. unfold read_line at 1.
  rewrite !bool_decide_eq_false_2 by done. rewrite (app_comm_cons l), span_until by done. cbn [tail]. rewrite Hwords.
  destruct (decide ("="%char ∈ rest)) as [Hin|Hin].
  - rewrite !bool_decide_eq_true_2; [done|done|by right].
  - rewrite !bool_decide_eq_false_2; [done|done|]. by intros [?|?]%elem_of_cons.
Qed.

Definition force_input (force : bool) : list text := if force then [chars "FORCE_DO_CMD"] else [].
Definition force_text (force : bool) : text := if force then chars " FORCE_DO_CMD" else [].

Lemma make_words_inputs ins force :
  Forall name_ok ins → make_words [] (" "%char :: ljoin [" "%char] (quote_names ins) ++ force_text force) = ins ++ force_input force.
Proof.
  intros Hi. cbn [make_words]. change (is_blank " "%char) with true. cbn [app].
  rewrite (bool_decide_eq_false_2 (" "%char = backslash)) by done. rewrite bool_decide_eq_true_2 by done. cbn [app].
  rewrite make_words_names; [|done|destruct force; [right; by eexists _, _|by left]]. by destruct force.
Qed.

Lemma inputs_without ins force c :
  Forall name_ok ins → c ∈ special_in_rules → c ≠ backslash →
  c ∉ " "%char :: ljoin [" "%char] (quote_names ins) ++ force_text force.
Proof.
  intros Hi Hc Hb. assert (Hf : c ≠ " "%char ∧ c ∉ force_text force).
  { split; [intros ->; by apply (bool_decide_pack _) in Hc|]. destruct force; [|apply not_elem_of_nil].
    intros Hf. assert (Hall : Forall (λ x, x ∉ special_in_rules) (chars " FORCE_DO_CMD")) by (by apply (bool_decide_unpack _)).
    by apply (proj1 (Forall_forall _ _) Hall c). }
  destruct Hf as [Hf1 Hf2]. apply not_elem_of_cons. split; [done|]. apply not_elem_of_app. split; [by apply names_without|done].
Qed.

Lemma read_head_normal names ins force :
  Forall name_ok ins →
  read_head names (" "%char :: ljoin [" "%char] (quote_names ins) ++ force_text force)
  = {| targets := names; prerequisites := ins ++ force_input force; order_only_prerequisites := []; recipe := [] |}.
Proof.
  intros Hi. unfold read_head. rewrite !span_none by (apply inputs_without; [done|by apply (bool_decide_unpack _)|done]).
  by rewrite make_words_inputs.
Qed.

Lemma read_head_order_only names ins force :
  Forall name_ok ins →
  read_head names (" "%char :: "|"%char :: " "%char :: ljoin [" "%char] (quote_names ins) ++ force_text force)
  = {| targets := names; prerequisites := []; order_only_prerequisites := ins ++ force_input force; recipe := [] |}.
Proof.
  intros Hi. unfold read_head.
  assert (H1 := inputs_without ins force ";"%char Hi ltac:(by apply (bool_decide_unpack _)) ltac:(done)).
  rewrite span_none by (apply not_elem_of_cons; split; [done|]; by apply not_elem_of_cons).
  pose proof (span_until "|"%char [" "%char] (" "%char :: ljoin [" "%char] (quote_names ins) ++ force_text force)
    ltac:(by apply (bool_decide_unpack _))) as Hs. cbn [app] in Hs. rewrite Hs. cbn [tail]. by rewrite make_words_inputs.
Qed.

Lemma read_actions acts r rules :
  foldl (λ rules line, read_line line rules) (r :: rules) ((λ a, tab :: a) <$> acts)
  = {| targets := targets r; prerequisites := prerequisites r; order_only_prerequisites := order_only_prerequisites r;
       recipe := recipe r ++ acts |} :: rules.
Proof.
  revert r. induction acts as [|a acts IH]; intros r.
  - cbn. rewrite app_nil_r. by destruct r.
  - cbn [fmap list_fmap foldl]. transitivity (foldl (λ rules line, read_line line rules)
      ({| targets := targets r; prerequisites := prerequisites r; order_only_prerequisites := order_only_prerequisites r;
          recipe := recipe r ++ [a] |} :: rules) ((λ a, tab :: a) <$> acts)); [reflexivity|].
    rewrite IH. cbn. by rewrite <- app_assoc.
Qed.

(** The rules that [WriteMakeRule] stands for. *)
Definition rules_of (outs ins acts : list text) (order_only force phony : bool) : list make_rule :=
  (if phony then [{| targets := [chars ".PHONY"]; prerequisites := outs; order_only_prerequisites := []; recipe := [] |}] else [])
  ++ (if order_only
      then [{| targets := outs; prerequisites := []; order_only_prerequisites := ins ++ force_input force; recipe := acts |}]
      else [{| targets := take 1 outs; prerequisites := ins ++ force_input force; order_only_prerequisites := []; recipe := acts |}]
           ++ (if 1 <? length outs
               then [{| targets := tail outs; prerequisites := take 1 outs; order_only_prerequisites := []; recipe := [] |};
                     {| targets := tail outs; prerequisites := []; order_only_prerequisites := []; recipe := [[]] |}]
               else [])).

Abbreviation read_lines := (foldl (λ rules line, read_line line rules)).

Lemma read_main_rule outs ins acts force rules :
  Forall name_ok outs → outs ≠ [] → Forall name_ok ins →
  read_lines rules ((ljoin [" "%char] (quote_names outs) ++ chars ": " ++ [] ++ ljoin [" "%char] (quote_names ins) ++ force_text force)
                    :: ((λ a, tab :: a) <$> acts))
  = {| targets := outs; prerequisites := ins ++ force_input force; order_only_prerequisites := []; recipe := acts |} :: rules.
Proof.
  intros Ho Hne Hi. cbn [foldl chars app String.list_ascii_of_string]. rewrite read_line_names by done.
  rewrite bool_decide_eq_false_2 by (apply inputs_without; [done|by apply (bool_decide_unpack _)|done]).
  rewrite read_head_normal by done. apply read_actions.
Qed.

Lemma read_order_rule outs ins acts force rules :
  Forall name_ok outs → outs ≠ [] → Forall name_ok ins →
  read_lines rules ((ljoin [" "%char] (quote_names outs) ++ chars ": " ++ chars "| " ++ ljoin [" "%char] (quote_names ins) ++ force_text force)
                    :: ((λ a, tab :: a) <$> acts))
  = {| targets := outs; prerequisites := []; order_only_prerequisites := ins ++ force_input force; recipe := acts |} :: rules.
Proof.
  intros Ho Hne Hi. cbn [foldl chars app String.list_ascii_of_string]. rewrite read_line_names by done.
  assert (H1 := inputs_without ins force "="%char Hi ltac:(by apply (bool_decide_unpack _)) ltac:(done)).
  rewrite bool_decide_eq_false_2 by (apply not_elem_of_cons; split; [done|]; by apply not_elem_of_cons).
  rewrite read_head_order_only by done. apply read_actions.
Qed.

Lemma read_extra_rules o outs rules :
  name_ok o → Forall name_ok outs → outs ≠ [] →
  read_lines rules [ljoin [" "%char] (quote_names outs) ++ chars ": " ++ QuoteSpaces o quoted_space;
                    ljoin [" "%char] (quote_names outs) ++ chars ": ;"]
  = [{| targets := outs; prerequisites := []; order_only_prerequisites := []; recipe := [[]] |};
     {| targets := outs; prerequisites := [o]; order_only_prerequisites := []; recipe := [] |}] ++ rules.
Proof.
  intros Ho Hos Hne. cbn [foldl chars app String.list_ascii_of_string]. rewrite !read_line_names by done.
  pose proof (inputs_without [o] false "="%char (proj2 (Forall_singleton _ _) Ho) ltac:(by apply (bool_decide_unpack _)) ltac:(done)) as Heq.
  cbn [fmap list_fmap ljoin force_text] in Heq. rewrite app_nil_r in Heq. rewrite (bool_decide_eq_false_2 _ Heq).
  pose proof (read_head_normal outs [o] false (proj2 (Forall_singleton _ _) Ho)) as Hhead.
  cbn [fmap list_fmap ljoin force_text] in Hhead. rewrite app_nil_r in Hhead. rewrite Hhead. reflexivity.
Qed.

Lemma read_phony outs rules :
  Forall name_ok outs →
  read_lines rules [chars ".PHONY: " ++ ljoin [" "%char] (quote_names outs)]
  = {| targets := [chars ".PHONY"]; prerequisites := outs; order_only_prerequisites := []; recipe := [] |} :: rules.
Proof.
  intros Ho.
  assert (Hp : Forall name_ok [chars ".PHONY"]).
  { constructor; [|done]. split; [done|]. by apply (bool_decide_unpack _). }
  pose proof (read_main_rule [chars ".PHONY"] outs [] false rules Hp ltac:(done) Ho) as Hr.
  cbn [force_text force_input] in Hr. rewrite !app_nil_r in Hr. rewrite <- Hr. reflexivity.
Qed.

Lemma read_lines_app rules l1 l2 : read_lines rules (l1 ++ l2) = read_lines (read_lines rules l1) l2.
Proof. apply foldl_app. Qed.

(** Lines that are no rules are passed over. *)
Lemma read_comment comment rules :
  read_lines rules (match default [] comment with [] => [] | comment => [chars "# " ++ comment] end) = rules.
Proof. by destruct comment as [[|c comment]|]. Qed.

Lemma read_toolset o acts rules :
  name_ok o → read_lines rules (if acts ==? ([] : list text) then [] else [QuoteSpaces o quoted_space ++ chars ": TOOLSET := $(TOOLSET)"]) = rules.
Proof.
  intros Ho. destruct (acts ==? []); [done|].
  pose proof (read_line_names [o] (chars " TOOLSET := $(TOOLSET)") rules (proj2 (Forall_singleton _ _) Ho) ltac:(done)) as Hr.
  cbn [foldl]. etrans; [exact Hr|]. reflexivity.
Qed.

(** The rule itself, and the rules for the outputs after the first. *)
Definition main_rules (o : text) (outs ins acts : list text) (order_only force : bool) : list make_rule :=
  if order_only
  then [{| targets := o :: outs; prerequisites := []; order_only_prerequisites := ins ++ force_input force; recipe := acts |}]
  else [{| targets := [o]; prerequisites := ins ++ force_input force; order_only_prerequisites := []; recipe := acts |}]
       ++ (if 1 <? length (o :: outs)
           then [{| targets := outs; prerequisites := [o]; order_only_prerequisites := []; recipe := [] |};
                 {| targets := outs; prerequisites := []; order_only_prerequisites := []; recipe := [[]] |}]
           else []).

Lemma read_main_rules o outs ins acts (order_only force : bool) rules :
  name_ok o → Forall name_ok outs → Forall name_ok ins →
  read_lines rules
    ([(if order_only then ljoin [" "%char] (quote_names (o :: outs)) else QuoteSpaces o quoted_space) ++ chars ": "
      ++ (if order_only then chars "| " else []) ++ ljoin [" "%char] (quote_names ins) ++ force_text force]
     ++ ((λ a, tab :: a) <$> acts)
     ++ (if negb order_only && (1 <? length (quote_names (o :: outs)))
         then [ljoin [" "%char] (quote_names outs) ++ chars ": " ++ QuoteSpaces o quoted_space; ljoin [" "%char] (quote_names outs) ++ chars ": ;"]
         else [])
     ++ [[]])
  = reverse (main_rules o outs ins acts order_only force) ++ rules.
Proof.
  intros Ho Hos Hi. rewrite app_assoc, read_lines_app. cbn [app]. unfold main_rules.
  destruct order_only; cbn [negb andb].
  - rewrite read_order_rule by (done || by constructor). done.
  - rewrite (read_main_rule [o]) by (done || by constructor). rewrite read_lines_app, length_fmap.
    destruct (1 <? length (o :: outs)) eqn:Hlen; [|done].
    rewrite read_extra_rules; [done|done|done|]. intros ->. done.
Qed.

Lemma WriteMakeRule_read outs ins acts comment order_only force phony :
  outs ≠ [] → Forall name_ok outs → Forall name_ok ins →
  ∃ lines, WriteMakeRule outs ins acts comment order_only force phony = Ok lines
    ∧ read_rules lines = rules_of outs ins acts order_only force phony.
Proof.
  intros Hne Ho Hi. destruct outs as [|o outs]; [done|]. inversion Ho as [|? ? Ho1 Hos]; subst.
  eexists. split; [reflexivity|]. unfold read_rules. rewrite read_lines_app, read_comment, read_lines_app.
  assert (Hp : read_lines [] (if phony then [chars ".PHONY: " ++ ljoin [" "%char] (quote_names (o :: outs))] else [])
    = if phony then [{| targets := [chars ".PHONY"]; prerequisites := o :: outs; order_only_prerequisites := []; recipe := [] |}] else []).
  { destruct phony; [|done]. by apply (read_phony (o :: outs)). }
  rewrite Hp, read_lines_app, read_toolset by done.
  pose proof (read_main_rules o outs ins acts order_only force) as Hm. cbn [fmap list_fmap] in *. rewrite Hm by done.
  rewrite reverse_app, reverse_involutive. unfold rules_of, main_rules. cbn [take tail]. by destruct phony.
Qed.

(** * Properties *)



(** [t] is made after [d]. *)
Definition made_after (rules : list make_rule) (t d : text) : Prop :=
  ∃ r, r ∈ rules ∧ t ∈ targets r ∧ d ∈ prerequisites r ++ order_only_prerequisites r.

(** C26: a rule with several outputs runs its commands once.  make reads what [WriteMakeRule]
    writes, whatever blanks the names have, as rules by which every output is made after every input; unless
    the rule is order only, one rule has the commands, its target is the first output alone, and
    the other outputs are made after that one, with an empty command. *)
Theorem WriteMakeRule_rules outs ins acts comment order_only force phony :
  outs ≠ [] → Forall name_ok outs → Forall name_ok ins →
  ∃ lines, WriteMakeRule outs ins acts comment order_only force phony = Ok lines
    ∧ (∀ o i, o ∈ outs → i ∈ ins → rtc (made_after (read_rules lines)) o i)
    ∧ (order_only = false →
       (∃ r, r ∈ read_rules lines ∧ targets r = take 1 outs ∧ recipe r = acts ∧ prerequisites r = ins ++ force_input force)
       ∧ ∀ r, r ∈ read_rules lines → recipe r ≠ [] → recipe r ≠ [[]] → targets r = take 1 outs ∧ recipe r = acts).
Proof.
  intros Hne Ho Hi. destruct (WriteMakeRule_read outs ins acts comment order_only force phony Hne Ho Hi) as (lines & Hw & Hr).
  exists lines. rewrite Hr. split; [done|]. clear Hw Hr Ho Hi. destruct outs as [|o outs]; [done|]. unfold rules_of. cbn [take tail]. split.
  - intros x i Hx Hin. destruct order_only.
    + apply rtc_once. eexists. split; [apply elem_of_app; right; by left|]. split; [done|]. cbn. apply elem_of_app. by left.
    + assert (Hfirst : ∀ l1 l2, made_after (l1 ++ ([{| targets := [o]; prerequisites := ins ++ force_input force;
        order_only_prerequisites := []; recipe := acts |}] ++ l2)) o i).
      { intros l1 l2. eexists. split; [apply elem_of_app; right; by left|]. split; [by left|]. cbn.
        rewrite app_nil_r. apply elem_of_app. by left. }
      apply elem_of_cons in Hx as [->|Hx]; [by apply rtc_once|]. eapply rtc_l; [|by apply rtc_once].
      destruct outs as [|o' outs]; [by apply elem_of_nil in Hx|].
      eexists. split; [apply elem_of_app; right; apply elem_of_app; right; by left|]. split; [done|]. by left.
  - intros ->. split; [eexists; split; [apply elem_of_app; right; by left|done]|].
    intros r Hr H1 H2. apply elem_of_app in Hr as [Hr|Hr].
    + destruct phony; [|by apply elem_of_nil in Hr]. by apply list_elem_of_singleton in Hr as ->.
    + apply elem_of_cons in Hr as [->|Hr]; [done|]. destruct (1 <? length (o :: outs)); [|by apply elem_of_nil in Hr].
      apply elem_of_cons in Hr as [->|Hr]; [done|]. by apply list_elem_of_singleton in Hr as ->.
Qed.

Lemma WriteMakeRule_rules_witness :
  ∃ lines, WriteMakeRule [chars "$(obj)/a b.c"; chars "a.h"] [chars "gen.py"] [chars "run"] None false true false = Ok lines
    ∧ rtc (made_after (read_rules lines)) (chars "a.h") (chars "gen.py").
Proof.
  destruct (WriteMakeRule_rules [chars "$(obj)/a b.c"; chars "a.h"] [chars "gen.py"] [chars "run"] None false true false)
    as (lines & Hw & Hn & _); [done|by apply (bool_decide_unpack _); vm_compute|by apply (bool_decide_unpack _); vm_compute|].
  exists lines. split; [exact Hw|]. apply Hn; [right; by left|by left].
Defined.

(** A define with a backslash before a number sign is cut off: make takes the backslash that
    [EscapeCppDefine] adds together with the one that is there. *)
Example backslash_hash_cut :
  make_assignment (WriteList [chars "A=\#1"] (chars "DEFS") (chars "-D") EscapeCppDefine) = Some (chars "DEFS", chars "'-DA=\").
Proof. reflexivity. Qed.
