(* ===== verification/MakeWriter.v ===== *)
(** * The writer of makefiles

    [MakefileWriter] of tools/gyp/pylib/gyp/generator/make.py, which writes the makefile of
    one target, and the loop of [GenerateOutput] that runs it over all targets.  The
    flavor is any but mac: there the settings of Xcode are [None], so their environment is empty, no
    variable is expanded, and there are no bundles, prefix headers or postbuilds.

    What is written to [self.fp] is a list of statements: the rules as they are passed to [WriteMakeRule],
    and all other text. *)
From S2P Require Import Prelude PyDict PyStr PyPath PySet Common Shell TargetSpec MakeQuote.
From Stdlib Require Import Ascii.

(** ** Data *)

(** A rule of the makefile, as the arguments of [WriteMakeRule]. *)
Record rule := {
  outputs : list text; inputs : list text; actions : list text; comment : option text;
  order_only : bool; force : bool; phony : bool
}.
Inductive statement := Rule (r : rule) | Text (t : text).

(** The attributes of a [MakefileWriter] that [Write] sets first, and the global [srcdir_prefix]. *)
Record writer := {
  flavor : string; srcdir_prefix : text; qualified_target : string; path : text; target : text; wtype : string; toolset : text
}.

(** What the parts of [Write] add to: the file and the lists. *)
Record writing := { fp : list statement; extra_sources : list text; extra_outputs : list text }.

Definition put (l : list statement) (s : writing) : writing :=
  {| fp := fp s ++ l; extra_sources := extra_sources s; extra_outputs := extra_outputs s |}.
Definition add_sources (l : list text) (s : writing) : writing :=
  {| fp := fp s; extra_sources := extra_sources s ++ l; extra_outputs := extra_outputs s |}.
Definition add_output (o : text) (s : writing) : writing :=
  {| fp := fp s; extra_sources := extra_sources s; extra_outputs := extra_outputs s ++ [o] |}.

(** ** Files *)
Definition COMPILABLE_EXTENSIONS : list (text * text) :=
  [(chars ".c", chars "cc"); (chars ".cc", chars "cxx"); (chars ".cpp", chars "cxx"); (chars ".cxx", chars "cxx");
   (chars ".s", chars "cc"); (chars ".S", chars "cc")].
Definition Compilable (filename : text) : bool := existsb (λ e, ends_with e.1 filename) COMPILABLE_EXTENSIONS.
Definition Linkable (filename : text) : bool := ends_with (chars ".o") filename.
Definition Target (filename : text) : text := (p_splitext filename).1 ++ chars ".o".

(** ** Paths *)
Section writer.
Context `{SetOrder} (w : writer).

Definition Sourceify (p : text) : text :=
  if contains (chars "$(") p then p else if p_isabs p then p else srcdir_prefix w ++ p.

Definition Absolutify (p : text) : text :=
  if contains (chars "$(") p then rstrip (λ c, c ==? slash) p else p_normpath (p_join (path w) p).

Definition Objectify (p : text) : text :=
  let p := if contains (chars "$(") p
           then lreplace (chars "$(obj)/") (chars "$(obj)." ++ toolset w ++ chars "/$(TARGET)/") p else p in
  if contains (chars "$(obj)") p then p else chars "$(obj)." ++ toolset w ++ chars "/$(TARGET)/" ++ p.

(** [template % {'INPUT_ROOT': .., 'INPUT_DIRNAME': ..}]; [skip] characters are still to be dropped.  A
    conversion other than [%(INPUT_ROOT)s], [%(INPUT_DIRNAME)s] and [%%] is an error. *)
Fixpoint format (root dirname : text) (skip : nat) (template : text) : result text :=
  match template with
  | [] => Ok []
  | c :: r =>
      match skip with
      | S skip => format root dirname skip r
      | 0 =>
          if (c ==? "%"%char) then
            if lstarts (chars "(INPUT_ROOT)s") r then s ← format root dirname 13 r; Ok (root ++ s)
            else if lstarts (chars "(INPUT_DIRNAME)s") r then s ← format root dirname 16 r; Ok (dirname ++ s)
            else if lstarts (chars "%") r then s ← format root dirname 1 r; Ok (c :: s)
            else Err (ValueError "unsupported format character")
          else s ← format root dirname 0 r; Ok (c :: s)
      end
  end.

Definition ExpandInputRoot (template expansion dirname : text) : result text :=
  if negb (contains (chars "%(INPUT_ROOT)s") template) && negb (contains (chars "%(INPUT_DIRNAME)s") template)
  then Ok template else format expansion dirname 0 template.

(** ** Writing rules *)

Definition Ln (line : text) : statement := Text (WriteLn line).

(** [WriteMakeRule] raises what it raises before it writes. *)
Definition MakeRule (r : rule) : result (list statement) :=
  _ ← WriteMakeRule (outputs r) (inputs r) (actions r) (comment r) (order_only r) (force r) (phony r); Ok [Rule r].

Definition SPACE_REPLACEMENT : text := chars "?".

(** [WriteDoCmd(outputs, inputs, command, part_of_all, comment)], without postbuilds. *)
Definition WriteDoCmd (outs ins : list text) (command : text) (note : option text) : result (list statement) :=
  rule ← MakeRule {| outputs := outs; inputs := ins; actions := [chars "$(call do_cmd," ++ command ++ chars ")"];
    comment := note; order_only := false; force := true; phony := false |};
  Ok (rule ++ [Ln (chars "all_deps += " ++ words ((λ o, QuoteSpaces o SPACE_REPLACEMENT) <$> outs))]).

Definition order_rule (outs ins : list text) (note : text) : result (list statement) :=
  MakeRule {| outputs := outs; inputs := ins; actions := []; comment := Some note; order_only := true; force := false; phony := false |}.
Definition alias_rule (outs ins : list text) (note : text) : result (list statement) :=
  MakeRule {| outputs := outs; inputs := ins; actions := []; comment := Some note; order_only := false; force := false; phony := true |}.

Definition no_space (s : text) : bool := negb (" "%char in? s).
Definition assert (b : bool) : result unit := raise_if (negb b) AssertionError.

(** [outputs[0]] *)
Definition first_of (l : list text) : result text := match l with x :: _ => Ok x | [] => Err IndexError end.

(** ** Actions *)

Definition hardcode_target (s : text) : text := lreplace (chars "$(TARGET)") (target w) s.
Definition cd_action : text :=
  hardcode_target (chars "cd " ++ Sourceify (if path w ==? [] then dot else path w) ++ chars "; ").
Definition library_path : text :=
  chars "LD_LIBRARY_PATH=$(builddir)/lib.host:$(builddir)/lib.target:$$LD_LIBRARY_PATH; export LD_LIBRARY_PATH; ".
(** The directories of the outputs, as a set. *)
Definition output_dirs (outs : list text) : list text := set_of (filter (λ d, d ≠ []) (p_dirname <$> outs)).
Definition mkdir (dirs : list text) : text :=
  if dirs ==? [] then [] else chars "mkdir -p " ++ words (set_order dirs) ++ chars "; ".

Definition write_action (action : gyp_action) (s : writing) : result writing :=
  let name := StringToMakefileVariable (chars (qualified_target w) ++ chars "_" ++ action_name action) in
  let dirs := output_dirs (action_outputs action) in
  let s := if action_as_sources action then add_sources (action_outputs action) s else s in
  let command := hardcode_target (mkdir dirs ++ EncodePOSIXShellList (action_command action)) in
  let outs := Absolutify <$> action_outputs action in
  output ← first_of outs;
  _ ← assert (forallb no_space (action_inputs action));
  _ ← assert (forallb no_space outs);
  do_cmd ← WriteDoCmd outs (Sourceify <$> (Absolutify <$> action_inputs action)) name None;
  let outputs_variable := chars "action_" ++ name ++ chars "_outputs" in
  Ok (add_output (chars "$(" ++ outputs_variable ++ chars ")")
    (put ([Ln (chars "### Rules for action " ++ [double_quote] ++ action_name action ++ [double_quote] ++ chars ":");
           Ln (chars "quiet_cmd_" ++ name ++ chars " = ACTION " ++ default name (action_message action) ++ chars " $@");
           Ln (chars "cmd_" ++ name ++ chars " = " ++ library_path ++ cd_action ++ command);
           Ln [];
           Ln (QuoteSpaces output quoted_space ++ chars ": obj := $(abs_obj)");
           Ln (QuoteSpaces output quoted_space ++ chars ": builddir := $(abs_builddir)")]
          ++ do_cmd
          ++ [Ln (outputs_variable ++ chars " := " ++ words outs); Ln []]) s)).

Definition WriteActions (acts : list gyp_action) (s : writing) : result writing :=
  s ← for_each acts s write_action; Ok (put [Ln []] s).

(** ** Rules *)

(** The length of what [\$\([^ ]* \$<\)] matches at the start of a text. *)
Definition spaced_variable (s : text) : option nat :=
  if lstarts (chars "$(") s then
    let '(name, rest) := span (λ c, negb (c ==? " "%char)) (drop 2 s) in
    if lstarts (chars " $<)") rest then Some (2 + length name + 4) else None
  else None.
Fixpoint drop_spaced_variables (skip : nat) (s : text) : text :=
  match s with
  | [] => []
  | c :: r =>
      match skip with
      | S skip => drop_spaced_variables skip r
      | 0 => match spaced_variable s with
             | Some n => drop_spaced_variables (pred n) r
             | None => c :: drop_spaced_variables 0 r
             end
      end
  end.

Definition write_rule_source (rule : gyp_rule) (name : text) (rule_source : text) (st : nat * list text * writing) :
    result (nat * list text * writing) :=
  let '(count, all_outputs, s) := st in
  let numbered := name ++ chars "_" ++ chars (str_of_int (Z.of_nat count)) in
  let '(dirname, basename) := p_split rule_source in
  let root := (p_splitext basename).1 in
  outs ← map_result (λ out, ExpandInputRoot out root dirname) (rule_outputs rule);
  let dirs := output_dirs outs in
  let s := if rule_as_sources rule then add_sources outs s else s in
  let ins := Sourceify <$> (Absolutify <$> (rule_source :: rule_inputs rule)) in
  let acts := (chars "$(call do_cmd," ++ numbered ++ chars ")")
              :: (if name ==? chars "resources_grit" then [chars "@touch --no-create $@"] else []) in
  let outs := Absolutify <$> outs in
  output ← first_of outs;
  make_rule ← MakeRule {| outputs := outs; inputs := ins ++ [chars "FORCE_DO_CMD"]; actions := acts; comment := None;
                          order_only := false; force := false; phony := false |};
  _ ← assert (forallb (λ o, no_space (drop_spaced_variables 0 o)) outs);
  action ← (match rule_action rule with Some action => Ok action | None => Err (KeyError "action") end);
  action ← map_result (λ ac, ExpandInputRoot ac root dirname) action;
  Ok (S count, all_outputs ++ outs,
      put ([Ln (output ++ chars ": obj := $(abs_obj)"); Ln (output ++ chars ": builddir := $(abs_builddir)")]
           ++ make_rule
           ++ [Ln (chars "all_deps += " ++ words outs);
               Ln (chars "cmd_" ++ numbered ++ chars " = " ++ library_path ++ cd_action ++ hardcode_target (mkdir dirs)
                   ++ hardcode_target (EncodePOSIXShellList action));
               Ln (chars "quiet_cmd_" ++ numbered ++ chars " = RULE " ++ numbered ++ chars " $@");
               Ln []]) s).

Definition write_rule (rule : gyp_rule) (s : writing) : result writing :=
  let name := StringToMakefileVariable (chars (qualified_target w) ++ chars "_" ++ rule_name rule) in
  '(_, all_outputs, s) ← for_each (rule_sources rule) (0, [], put [Ln (chars "### Generated for rule " ++ name ++ chars ":")] s)
                           (write_rule_source rule name);
  let outputs_variable := chars "rule_" ++ name ++ chars "_outputs" in
  Ok (add_output (chars "$(" ++ outputs_variable ++ chars ")")
    (put [Text (WriteList all_outputs outputs_variable [] QuoteIfNecessary);
          Ln (chars "### Finished generating for rule: " ++ name); Ln []] s)).

Definition WriteRules (rules : list gyp_rule) (s : writing) : result writing :=
  s ← for_each rules s write_rule; Ok (put [Ln (chars "### Finished generating for all rules"); Ln []] s).

(** ** Copies *)

Definition write_copy (destination p : text) (st : list text * writing) : result (list text * writing) :=
  let '(outs, s) := st in
  let p := Sourceify (Absolutify p) in
  let output := Sourceify (Absolutify (p_join destination (p_basename p))) in
  do_cmd ← WriteDoCmd [output] [p] (chars "copy") None;
  Ok (outs ++ [output], put do_cmd s).

Definition WriteCopies (copies : list gyp_copy) (s : writing) : result writing :=
  let variable := StringToMakefileVariable (chars (qualified_target w) ++ chars "_copies") in
  '(outs, s) ← for_each copies ([], put [Ln (chars "### Generated for copy rule.")] s)
                 (λ copy st, for_each (copy_files copy) st (write_copy (copy_destination copy)));
  Ok (add_output (chars "$(" ++ variable ++ chars ")")
    (put [Ln (variable ++ chars " = " ++ words ((λ o, QuoteSpaces o quoted_space) <$> outs)); Ln []] s)).

(** ** Sources *)

Definition List_ (l : list text) (variable : text) : statement := Text (WriteList l variable [] QuoteIfNecessary).

Definition write_config (configname : string) (c : config) : list statement :=
  let variable (prefix : text) := prefix ++ chars configname in
  [Text (WriteList (defines c) (variable (chars "DEFS_")) (chars "-D") EscapeCppDefine);
   Ln (chars "# Flags passed to all source files."); List_ (cflags c) (variable (chars "CFLAGS_"));
   Ln (chars "# Flags passed to only C files."); List_ (cflags_c c) (variable (chars "CFLAGS_C_"));
   Ln (chars "# Flags passed to only C++ files."); List_ (cflags_cc c) (variable (chars "CFLAGS_CC_"));
   Text (WriteList (Sourceify <$> (Absolutify <$> include_dirs c)) (variable (chars "INCS_")) (chars "-I") QuoteIfNecessary)].

(** [for configname in sorted(configs.keys())] *)
Definition for_configs (configs : list (string * config)) (f : string → config → list statement) : list statement :=
  concat (omap (λ name, f name <$> dict_get configs name) (str_sorted (dict_keys configs))).

Definition quoted_title : text := [double_quote] ++ chars "Target-specific Variable Values" ++ [double_quote].
Definition OBJS : text := chars "$(OBJS)".
Definition order_only_on_objs (deps : list text) (note : text) : result (list statement) :=
  if deps ==? [] then Ok [] else order_rule [OBJS] deps note.

(** What is written, and what is appended to [extra_link_deps]. *)
Definition WriteSources (configs : list (string * config)) (deps srcs extra_outs : list text) :
    result (list statement * list text) :=
  let compilable := filter (λ s, Compilable s = true) srcs in
  let objs := Objectify <$> (Absolutify <$> (Target <$> compilable)) in
  _ ← assert (forallb no_space objs);
  on_deps ← order_only_on_objs deps (chars "Make sure our dependencies are built before any of us.");
  on_outputs ← order_only_on_objs extra_outs (chars "Make sure our actions/rules run before any of us.");
  Ok (for_configs configs write_config
      ++ [List_ objs (chars "OBJS"); Ln (chars "# Add to the list of files we specially track dependencies for.");
          Ln (chars "all_deps += $(OBJS)"); Ln []]
      ++ on_deps ++ on_outputs
      ++ (if objs ==? [] then [] else
           [Ln (chars "# CFLAGS et al overrides must be target-local." ++ [nl]
                ++ chars "# See " ++ quoted_title ++ chars " in the GNU Make manual.");
            Ln (chars "$(OBJS): TOOLSET := $(TOOLSET)");
            Ln (chars "$(OBJS): GYP_CFLAGS := $(DEFS_$(BUILDTYPE)) $(INCS_$(BUILDTYPE))  $(CFLAGS_$(BUILDTYPE)) $(CFLAGS_C_$(BUILDTYPE))");
            Ln (chars "$(OBJS): GYP_CXXFLAGS := $(DEFS_$(BUILDTYPE)) $(INCS_$(BUILDTYPE))  $(CFLAGS_$(BUILDTYPE)) $(CFLAGS_CC_$(BUILDTYPE))")])
      ++ [Ln []],
      (if objs ==? [] then [] else [OBJS]) ++ filter (λ s, Linkable s = true) srcs).

(** The suffix rules that [__init__] prepares: for the source directory, for the object directory of the toolset, and for that of all. *)
Definition suffix_rule (dir : text) (ext cmd : text) : text :=
  chars "$(obj).$(TOOLSET)/$(TARGET)/%.o: " ++ dir ++ chars "/%" ++ ext ++ chars " FORCE_DO_CMD" ++ [nl; tab]
  ++ chars "@$(call do_cmd," ++ cmd ++ chars ",1)" ++ [nl].
Definition suffix_rules (dir : text) (extensions : list text) : list statement :=
  omap (λ ext, (λ cmd, Ln (suffix_rule dir ext cmd)) <$> dict_get COMPILABLE_EXTENSIONS ext) extensions.

(** The rest of the branch for sources in [Write]. *)
Definition write_suffix_rules (all_sources : list text) : list statement :=
  let srcs := filter (λ s, Compilable s = true) all_sources in
  if srcs ==? [] then [] else
    let extensions := set_order (set_of ((λ s, (p_splitext s).2) <$> srcs)) in
    [Ln (chars "# Suffix rules, putting all outputs into $(obj)." ++ [nl])]
    ++ suffix_rules (chars "$(srcdir)") extensions
    ++ [Ln (chars "# Try building from generated source, too." ++ [nl])]
    ++ suffix_rules (chars "$(obj).$(TOOLSET)") extensions
    ++ suffix_rules (chars "$(obj)") extensions
    ++ [Ln (chars "# End of this set of suffix rules")].
End writer.

(** ** The output of a target *)
Section target.
Context `{SetOrder} (w : writer) (spec : spec).

Definition quoted_all : text := [double_quote] ++ chars "all" ++ [double_quote].
Definition strip_lib (t : text) : text := if take 3 t ==? chars "lib" then drop 3 t else t.

(** [ComputeOutputBasename]; for a type that is not known it prints an error and goes on. *)
Definition ComputeOutputBasename : text :=
  let '(prefix, name, ext) :=
    if wtype w ==? "static_library" then (chars "lib", strip_lib (target_name spec), chars ".a")
    else if wtype w in? ["loadable_module"; "shared_library"] then (chars "lib", strip_lib (target_name spec), chars ".so")
    else if wtype w ==? "none" then ([], target_name spec ++ chars ".stamp", [])
    else ([], target_name spec, []) in
  default prefix (product_prefix spec) ++ default name (product_name spec)
  ++ match default [] (product_extension spec) with [] => ext | product_ext => "."%char :: product_ext end.

Definition ComputeOutput : text :=
  let p := if wtype w ==? "executable" then chars "$(builddir)" else p_join (chars "$(obj)." ++ toolset w) (path w) in
  p_join (default p (product_dir spec)) ComputeOutputBasename.

Definition INSTALLABLE_TARGETS : list string := ["executable"; "loadable_module"; "shared_library"].
Definition installable : bool := standalone_static_library spec || (wtype w in? INSTALLABLE_TARGETS).
Definition alias : text := if installable then p_basename ComputeOutput else ComputeOutput.

Definition InstallableTargetInstallPath : text :=
  if wtype w ==? "shared_library" then chars "$(builddir)/lib." ++ toolset w ++ chars "/" ++ alias
  else chars "$(builddir)/" ++ alias.
Definition install_path : text := if installable then InstallableTargetInstallPath else ComputeOutput.

(** ** Dependencies *)

(** The dictionaries [target_outputs] and [target_link_deps]. *)
Record globals := { target_outputs : list (string * text); target_link_deps : list (string * text) }.

Definition ComputeDeps (g : globals) : result (list text * list text) :=
  outs ← map_result (λ dep, match dict_get (target_outputs g) dep with Some o => Ok o | None => Err (KeyError dep) end)
           (dependencies spec);
  let link_deps := omap (dict_get (target_link_deps g)) (dependencies spec) in
  Ok (uniquer of_chars (filter (λ o, o ≠ []) outs ++ link_deps), uniquer of_chars link_deps).

(** ** The final target *)

Definition is_shared (dep : text) : bool := ends_with (chars ".so") dep || contains (chars ".so.") dep.
Definition write_ldflags (deps : list text) (configname : string) (c : config) : list statement :=
  let rpath := if existsb is_shared deps
               then [chars "-Wl,-rpath=\$$ORIGIN/lib." ++ toolset w ++ chars "/";
                     chars "-Wl,-rpath-link=\$(builddir)/lib." ++ toolset w ++ chars "/"] else [] in
  [List_ (ldflags c ++ rpath ++ ((λ d, chars "-L" ++ d) <$> library_dirs c)) (chars "LDFLAGS_" ++ chars configname)].

Definition write_link_variables (deps : list text) : list statement :=
  if wtype w ==? "none" then [] else
    for_configs (configurations spec) (write_ldflags deps)
    ++ [List_ (uniquer of_chars (libraries spec)) (chars "LIBS");
        Ln (QuoteSpaces ComputeOutput quoted_space ++ chars ": GYP_LDFLAGS := $(LDFLAGS_$(BUILDTYPE))");
        Ln (QuoteSpaces ComputeOutput quoted_space ++ chars ": LIBS := $(LIBS)")].

Definition WriteDependencyOnExtraOutputs (extra_outs : list text) : result (list statement) :=
  order_rule [ComputeOutput] extra_outs (chars "Build our special outputs first.").

Definition write_extra_outputs (deps extra_outs : list text) : result (list statement) :=
  if extra_outs ==? [] then Ok [] else
    before ← WriteDependencyOnExtraOutputs extra_outs;
    preserve ← order_rule extra_outs deps (chars "Preserve order dependency of special output on deps.");
    Ok (before ++ preserve).

Definition ld_inputs (link_deps : list text) : statement :=
  Ln (QuoteSpaces ComputeOutput quoted_space ++ chars ": LD_INPUTS := " ++ words ((λ d, QuoteSpaces d quoted_space) <$> link_deps)).
Definition on_android_host : bool := (toolset w ==? chars "host") && (flavor w ==? "android").

(** The command that builds the target.  For a type that is not known, the message of the
    warning uses a variable that does not exist. *)
Definition write_output (deps link_deps : list text) : result (list statement) :=
  if wtype w ==? "executable" then
    cmd ← WriteDoCmd [ComputeOutput] link_deps (if on_android_host then chars "link_host" else chars "link") None;
    Ok (ld_inputs link_deps :: cmd)
  else if wtype w ==? "static_library" then
    _ ← assert (forallb no_space link_deps);
    WriteDoCmd [ComputeOutput] link_deps
      (if negb (flavor w in? ["mac"; "openbsd"; "win"]) && negb (standalone_static_library spec)
       then chars "alink_thin" else chars "alink") None
  else if wtype w ==? "shared_library" then
    cmd ← WriteDoCmd [ComputeOutput] link_deps (chars "solink") None;
    Ok (ld_inputs link_deps :: cmd)
  else if wtype w ==? "loadable_module" then
    _ ← assert (forallb no_space link_deps);
    WriteDoCmd [ComputeOutput] link_deps (if on_android_host then chars "solink_module_host" else chars "solink_module") None
  else if wtype w ==? "none" then WriteDoCmd [ComputeOutput] deps (chars "touch") None
  else Err (NameError "target").

(** The alias of a target that is not installed. *)
Definition write_alias (part_of_all : bool) : result (list statement) :=
  if negb (ComputeOutput ==? []) && negb (ComputeOutput ==? target w) && negb (wtype w in? INSTALLABLE_TARGETS) then
    rule ← alias_rule [target w] [ComputeOutput] (chars "Add target alias");
    all ← (if part_of_all then alias_rule [chars "all"] [target w] (chars "Add target alias to " ++ quoted_all ++ chars " target.") else Ok []);
    Ok (rule ++ all)
  else Ok [].

Definition file_desc : text :=
  if wtype w ==? "shared_library" then chars "shared library"
  else if wtype w ==? "static_library" then chars "static library" else chars "executable".

(** The rules for a target that is installed. *)
Definition write_install (part_of_all : bool) : result (list statement) :=
  if installable then
    rule ← alias_rule [target w] [InstallableTargetInstallPath] (chars "Add target alias");
    copy ← (if InstallableTargetInstallPath ==? ComputeOutput then Ok [] else
              WriteDoCmd [InstallableTargetInstallPath] [ComputeOutput] (chars "copy")
                (Some (chars "Copy this to the " ++ file_desc ++ chars " output path.")));
    let installable_deps :=
      ComputeOutput :: (if InstallableTargetInstallPath ==? ComputeOutput then [] else [InstallableTargetInstallPath]) in
    short ← (if negb (ComputeOutput ==? alias) && negb (alias ==? target w)
             then alias_rule [alias] installable_deps (chars "Short alias for building this " ++ file_desc ++ chars ".")
             else Ok []);
    all ← (if part_of_all
           then alias_rule [chars "all"] [InstallableTargetInstallPath]
                  (chars "Add " ++ file_desc ++ chars " to " ++ quoted_all ++ chars " target.")
           else Ok []);
    Ok (rule ++ copy ++ short ++ all)
  else Ok [].

Definition WriteTarget (deps link_deps extra_outs : list text) (part_of_all : bool) : result (list statement) :=
  extra ← write_extra_outputs deps extra_outs;
  output ← write_output deps link_deps;
  alias ← write_alias part_of_all;
  install ← write_install part_of_all;
  Ok ([Ln (chars "### Rules for final target.")] ++ extra ++ write_link_variables deps ++ output ++ alias ++ install).

(** ** Modules of the Android NDK *)

(** [CalculateVariables] for a flavor other than mac. *)
Definition CalculateVariables (default_variables : list (string * string)) (flavor : string) : list (string * string) :=
  let operating_system := if flavor ==? "android" then "linux" else flavor in
  foldl (λ d kv, (dict_setdefault d kv.1 kv.2).2) default_variables
    [("OS", operating_system); ("SHARED_LIB_SUFFIX", ".so"); ("SHARED_LIB_DIR", "$(builddir)/lib.$(TOOLSET)");
     ("LIB_DIR", "$(obj).$(TOOLSET)")].

(** One more file with the extension [ext]; the state is the counts and the most frequent one. *)
Definition count_cpp_ext (st : list (text * nat) * text) (filename : text) : list (text * nat) * text :=
  let '(cpp_ext, default_cpp_ext) := st in
  let ext := (p_splitext filename).2 in
  match dict_get cpp_ext ext with
  | None => st
  | Some n =>
      let cpp_ext := dict_set cpp_ext ext (S n) in
      (cpp_ext, if default 0 (dict_get cpp_ext default_cpp_ext) <? S n then ext else default_cpp_ext)
  end.
Definition default_cpp_extension (all_sources : list text) : text :=
  (foldl count_cpp_ext ([(chars ".cc", 0); (chars ".cpp", 0); (chars ".cxx", 0)], chars ".cpp") all_sources).2.

Definition DepsToModules (deps : list text) (prefix suffix : text) : list text :=
  omap (λ filepath,
    let filename := p_basename filepath in
    if lstarts prefix filename && ends_with suffix filename
    then Some (drop (length prefix) (take (length filename - length suffix) filename)) else None) deps.

Definition WriteAndroidNdkModuleRule (all_sources link_deps : list text) : list statement :=
  if negb (wtype w in? ["executable"; "shared_library"; "static_library"]) then [] else
    let shared_suffix := chars (default "" (dict_get (CalculateVariables [] "linux") "SHARED_LIB_SUFFIX")) in
    [Ln (chars "# Variable definitions for Android applications"); Ln (chars "include $(CLEAR_VARS)");
     Ln (chars "LOCAL_MODULE := " ++ target w);
     Ln (chars "LOCAL_CFLAGS := $(CFLAGS_$(BUILDTYPE)) $(DEFS_$(BUILDTYPE)) $(CFLAGS_C_$(BUILDTYPE)) $(INCS_$(BUILDTYPE))");
     Ln (chars "LOCAL_CPPFLAGS := $(CFLAGS_CC_$(BUILDTYPE))"); Ln (chars "LOCAL_C_INCLUDES :=");
     Ln (chars "LOCAL_LDLIBS := $(LDFLAGS_$(BUILDTYPE)) $(LIBS)");
     Ln (chars "LOCAL_CPP_EXTENSION := " ++ default_cpp_extension all_sources);
     List_ (Absolutify w <$> filter (λ s, Compilable s = true) all_sources) (chars "LOCAL_SRC_FILES");
     List_ (DepsToModules link_deps (chars "lib") shared_suffix) (chars "LOCAL_SHARED_LIBRARIES");
     List_ (DepsToModules link_deps (chars "lib") (chars ".a")) (chars "LOCAL_STATIC_LIBRARIES")]
    ++ (if wtype w ==? "executable" then [Ln (chars "include $(BUILD_EXECUTABLE)")]
        else if wtype w ==? "shared_library" then [Ln (chars "include $(BUILD_SHARED_LIBRARY)")]
        else [Ln (chars "include $(BUILD_STATIC_LIBRARY)")])
    ++ [Ln []].

(** ** The file of a target *)

Definition optionally {A} (o : option A) (f : A → writing → result writing) (s : writing) : result writing :=
  match o with Some x => f x s | None => Ok s end.

Definition write_sources (deps all_sources extra_outs : list text) : result (list statement * list text) :=
  if all_sources ==? [] then Ok ([], []) else
    '(srcs, extra_link_deps) ← WriteSources w (configurations spec) deps all_sources extra_outs;
    Ok (srcs ++ write_suffix_rules all_sources, extra_link_deps).

Definition header : statement := Text (chars "# This file is generated by gyp; do not edit." ++ [nl; nl]).

(** [Write(qualified_target, base_path, output_filename, spec, configs, part_of_all)] *)
Definition Write (android_ndk_version : bool) (g : globals) (part_of_all : bool) : result (list statement * globals) :=
  '(deps, link_deps) ← ComputeDeps g;
  let s := {| fp := [header; Ln (chars "TOOLSET := " ++ toolset w); Ln (chars "TARGET := " ++ target w)];
              extra_sources := []; extra_outputs := [] |} in
  s ← optionally (spec_actions spec) (WriteActions w) s;
  s ← optionally (spec_rules spec) (WriteRules w) s;
  s ← optionally (spec_copies spec) (WriteCopies w) s;
  let all_sources := sources spec ++ extra_sources s in
  '(srcs, extra_link_deps) ← write_sources deps all_sources (extra_outputs s);
  final ← WriteTarget deps (extra_link_deps ++ link_deps) (extra_outputs s) part_of_all;
  let g := {| target_outputs := dict_set (target_outputs g) (qualified_target w) install_path;
              target_link_deps := if wtype w in? ["static_library"; "shared_library"]
                                  then dict_set (target_link_deps g) (qualified_target w) ComputeOutput
                                  else target_link_deps g |} in
  Ok (fp s ++ srcs ++ final ++ (if android_ndk_version then WriteAndroidNdkModuleRule all_sources link_deps else []), g).
End target.

(** ** All targets *)
Section generate.
Context `{SetOrder} `{RealPath}.

(** The options and flags that [GenerateOutput] uses; [output_dir] is the flag with its default. *)
Record options := {
  depth : text; generator_output : option text; toplevel_dir : text; suffix : text; output_dir : text;
  home_dot_gyp : option text; cwd : text; makefile_flavor : string; ndk : bool
}.
Variable opts : options.

(** [CalculateMakefilePath(build_file, base_name)]: [base_path] and [output_file]. *)
Definition CalculateMakefilePath (build_file base_name : text) : text * text :=
  let base_path := RelativePath (p_dirname build_file) (depth opts) in
  let output_file :=
    match default [] (generator_output opts) with
    | [] => p_join_list (depth opts) [base_path; base_name]
    | output => p_join_list (depth opts) [output; base_path; base_name]
    end in
  (RelativePath (p_dirname build_file) (toplevel_dir opts), output_file).

Definition root_makefile_path : text :=
  let makefile_name := chars "Makefile" ++ suffix opts in
  match default [] (generator_output opts) with
  | [] => p_join (toplevel_dir opts) makefile_name
  | output => p_join_list (toplevel_dir opts) [output; makefile_name]
  end.

Definition global_srcdir_prefix : text :=
  match default [] (generator_output opts) with [] => [] | _ => chars "$(srcdir)/" end.

(** The first default configuration of a target that is not [Default]. *)
Fixpoint default_configuration (configurations : list text) : text :=
  match configurations with
  | [] => chars "Default"
  | c :: r => if c ==? chars "Default" then default_configuration r else if c ==? [] then chars "Default" else c
  end.

(** The makefile text for [make_global_settings]: first the wrappers, then the settings. *)
Definition wrapper_suffix : text := chars "_wrapper".
Definition add_wrapper (wrappers : list (text * text)) (kv : text * text) : list (text * text) :=
  if ends_with wrapper_suffix kv.1
  then dict_set wrappers (take (length kv.1 - length wrapper_suffix) kv.1) (chars "$(abspath " ++ kv.2 ++ chars ")")
  else wrappers.
Definition first_char (value : text) : result ascii := match value with c :: _ => Ok c | [] => Err IndexError end.
Definition write_global_setting (environ : list (text * text)) (kv : text * text) (st : list (text * text) * text) :
    result (list (text * text) * text) :=
  let '(wrappers, settings) := st in
  let '(key, value) := kv in
  if contains wrapper_suffix (span (λ c, negb (c ==? nl)) key).1 then Ok st else
    first ← first_char value;
    let value := if (first ==? "$"%char) then value else chars "$(abspath " ++ value ++ chars ")" in
    let '(wrappers, value) :=
      match default [] (dict_get wrappers key) with
      | [] => (wrappers, value)
      | wrapper => (dict_del wrappers key, wrapper ++ " "%char :: value)
      end in
    if key in? [chars "CC"; chars "CC.host"; chars "CXX"; chars "CXX.host"] then
      let value := default value (dict_get environ (lreplace (chars ".") (chars "_") key)) in
      Ok (wrappers, settings
          ++ WriteLn (chars "ifneq (,$(filter $(origin " ++ key ++ chars "), undefined default))")
          ++ WriteLn (chars "  " ++ key ++ chars " = " ++ value) ++ WriteLn (chars "endif"))
    else Ok (wrappers, settings ++ WriteLn (key ++ chars " ?= " ++ value)).
Definition make_global_settings (flock_command : text) (environ array : list (text * text)) : result text :=
  let wrappers := foldl add_wrapper [(chars "LINK", flock_command ++ chars " $(builddir)/linker.lock")] array in
  '(_, settings) ← for_each array (wrappers, []) (write_global_setting environ);
  Ok settings.

(** What the loop over the targets changes: the files with their names, the global
    dictionaries, and the sets of build files and of files the root makefile includes. *)
Record generated := { files : list (text * list statement); global : globals; build_files : list text; include_list : list text }.

(** The name of one included file, for the rule that regenerates the makefiles. *)
Definition included_name (build_file included_file : text) : text :=
  let relative_include_file := RelativePath (UnrelativePath included_file build_file) (toplevel_dir opts) in
  let abs_include_file := p_normpath (p_join (cwd opts) relative_include_file) in
  match default [] (home_dot_gyp opts) with
  | [] => relative_include_file
  | home => if lstarts home abs_include_file then abs_include_file else relative_include_file
  end.

Definition writer_of (qualified : string) (base_path : text) (s : spec) : writer :=
  {| flavor := makefile_flavor opts; srcdir_prefix := global_srcdir_prefix; qualified_target := qualified; path := base_path;
     target := target_name s; wtype := type s; toolset := spec_toolset s |}.

Definition generate_target (included_files : text → list text) (target_dicts : list (string * spec)) (needed_targets : list string)
    (qualified : string) (g : generated) : result generated :=
  let '(build_file, target, toolset) := ParseQualifiedTarget qualified in
  let build_file := chars (default "" build_file) in
  let '(base_path, output_file) :=
    CalculateMakefilePath build_file (chars target ++ "."%char :: chars (default "" toolset) ++ suffix opts ++ chars ".mk") in
  match dict_get target_dicts qualified with
  | None => Err (KeyError qualified)
  | Some s =>
      '(file, gl) ← Write (writer_of qualified base_path s) s (ndk opts) (global g) (qualified in? needed_targets);
      Ok {| files := files g ++ [(output_file, file)]; global := gl;
            build_files := foldl (λ l f, set_add (included_name build_file f) l)
                             (set_add (RelativePath build_file (toplevel_dir opts)) (build_files g)) (included_files build_file);
            include_list := set_add (RelativePath output_file (p_dirname root_makefile_path)) (include_list g) |}
  end.

Definition generate_targets (included_files : text → list text) (target_dicts : list (string * spec)) (needed_targets target_list : list string) :
    result generated :=
  for_each target_list {| files := []; global := {| target_outputs := []; target_link_deps := [] |}; build_files := []; include_list := [] |}
    (generate_target included_files target_dicts needed_targets).

(** The lines that include the files, in the order of their names. *)
Definition include_file_text (include_file : text) : text :=
  chars "ifeq ($(strip $(foreach prefix,$(NO_LOAD),\" ++ [nl] ++ chars "    $(findstring $(join ^,$(prefix)),\" ++ [nl]
  ++ chars "                 $(join ^," ++ include_file ++ chars ")))),)" ++ [nl]
  ++ chars "  include " ++ include_file ++ [nl] ++ chars "endif" ++ [nl].
Definition root_includes (g : generated) : text :=
  [nl] ++ concat (include_file_text <$> (chars <$> str_sorted (of_chars <$> include_list g))) ++ [nl].

(** [WriteSubMake(output_filename, makefile_path, targets, build_dir)]: the text. *)
Definition WriteSubMake (output_filename makefile_path : text) (targets : list text) (build_dir : text) : text :=
  chars "# This file is generated by gyp; do not edit." ++ [nl; nl]
  ++ WriteLn (chars "export builddir_name ?= " ++ p_join (p_dirname output_filename) build_dir)
  ++ WriteLn (chars ".PHONY: all") ++ WriteLn (chars "all:")
  ++ WriteLn (tab :: chars "$(MAKE)" ++ (if makefile_path ==? [] then [] else chars " -C " ++ makefile_path) ++ " "%char :: words targets).

(** The makefile of one build file that has targets to build. *)
Definition sub_makefile (target_dicts : list (string * spec)) (needed_targets target_list : list string) (build_file : text) :
    option (text * text) :=
  let build_file := p_join (RelativePath (depth opts) (cwd opts)) build_file in
  let gyp_targets := omap (λ t, target_name <$> dict_get target_dicts t)
    (filter (λ t, lstarts build_file (chars t) = true ∧ t ∈ needed_targets) target_list) in
  if gyp_targets ==? [] then None else
    let output_file := (CalculateMakefilePath build_file ((p_splitext (p_basename build_file)).1 ++ chars ".Makefile")).2 in
    Some (output_file, WriteSubMake output_file (RelativePath (p_dirname root_makefile_path) (p_dirname output_file)) gyp_targets (output_dir opts)).
End generate.

(** * Theorems *)

(** ** What the rules of a file say *)

Definition rule_needs (r : rule) (t d : text) : Prop :=
  if order_only r then t ∈ outputs r ∧ d ∈ inputs r
  else (head (outputs r) = Some t ∧ d ∈ inputs r) ∨ (t ∈ tail (outputs r) ∧ head (outputs r) = Some d).

(** [t] is made after [d]. *)
Definition needs (file : list statement) (t d : text) : Prop := ∃ r, Rule r ∈ file ∧ rule_needs r t d.

(** A rule of the file has the commands [cmds] to make [t]. *)
Definition built_by (file : list statement) (t : text) (cmds : list text) : Prop :=
  ∃ r, Rule r ∈ file ∧ t ∈ outputs r ∧ order_only r = false ∧ phony r = false ∧ actions r = cmds.

Lemma needs_incl f f' t d : f ⊆ f' → needs f t d → needs f' t d.
Proof. intros Hf (r & Hr & Hn). exists r. by split; [apply Hf|]. Qed.

Lemma built_by_incl f f' t cmds : f ⊆ f' → built_by f t cmds → built_by f' t cmds.
Proof. intros Hf (r & Hr & Hn). exists r. by split; [apply Hf|]. Qed.

Definition reaches (file : list statement) : text → text → Prop := rtc (needs file).
Lemma reaches_incl f f' t d : f ⊆ f' → reaches f t d → reaches f' t d.
Proof. intros Hf. apply rtc_subrel. intros x y. by apply needs_incl. Qed.

Lemma MakeRule_Ok r l : MakeRule r = Ok l → l = [Rule r].
Proof. unfold MakeRule. by intros (_ & _ & [= <-])%bind_Ok. Qed.

Definition do_cmd_rule (outs ins : list text) (command : text) (note : option text) : rule :=
  {| outputs := outs; inputs := ins; actions := [chars "$(call do_cmd," ++ command ++ chars ")"];
     comment := note; order_only := false; force := true; phony := false |}.

Lemma WriteDoCmd_Ok outs ins command note l :
  WriteDoCmd outs ins command note = Ok l → ∃ line, l = [Rule (do_cmd_rule outs ins command note); line].
Proof. unfold WriteDoCmd. intros (r & ->%MakeRule_Ok & [= <-])%bind_Ok. by eexists. Qed.

Lemma assert_Ok b u : assert b = Ok u → b = true.
Proof. unfold assert, raise_if. by destruct b. Qed.

(** Takes apart a run that returned. *)
Ltac run_ok H :=
  repeat match type of H with
  | (_ ≫= _) = Ok _ => let x := fresh "x" in let Hx := fresh "Hx" in apply bind_Ok in H as (x & Hx & H);
      try match type of x with prod _ _ => destruct x as [? ?] end
  end.

(** ** What the parts of a file add *)

Definition grows (s s' : writing) : Prop := fp s ⊆ fp s' ∧ extra_outputs s ⊆ extra_outputs s' ∧ extra_sources s ⊆ extra_sources s'.
#[local] Instance grows_preorder : PreOrder grows.
Proof. split; [done|]. intros s1 s2 s3 (?&?&?) (?&?&?). unfold grows. split_and!; by etrans. Qed.

Lemma grows_put l s : grows s (put l s).
Proof. split_and!; [|done|done]. cbn. intros x. rewrite elem_of_app. by left. Qed.
Lemma grows_add_sources l s : grows s (add_sources l s).
Proof. split_and!; [done|done|]. cbn. intros x. rewrite elem_of_app. by left. Qed.
Lemma grows_add_output o s : grows s (add_output o s).
Proof. split_and!; [done| |done]. cbn. intros x. rewrite elem_of_app. by left. Qed.

(** A loop that only adds has done for every item what its body does, as long as what is
    added later does not undo it. *)
Lemma for_each_grows {A S} (R : S → S → Prop) `{!PreOrder R} (P : A → S → Prop) (l : list A) s s' (body : A → S → result S) :
  (∀ x s s', x ∈ l → body x s = Ok s' → R s s' ∧ P x s') → (∀ x s s', R s s' → P x s → P x s') →
  for_each l s body = Ok s' → R s s' ∧ ∀ x, x ∈ l → P x s'.
Proof.
  intros Hbody HP. revert s. induction l as [|x l IH]; cbn; intros s H.
  { injection H as <-. split; [done|]. by intros x ?%elem_of_nil. }
  apply bind_Ok in H as (s1 & H1 & H). apply Hbody in H1 as [HR H1]; [|by left].
  apply IH in H as [HR' Hl]; [|intros y ???; apply Hbody; by right]. split; [by etrans|].
  intros y [->|Hy]%elem_of_cons; [by eapply HP|auto].
Qed.

Lemma rule_reaches r file t d :
  Rule r ∈ file → order_only r = false → t ∈ outputs r → d ∈ inputs r → reaches file t d.
Proof.
  intros Hr Ho Ht Hd. destruct (outputs r) as [|o os] eqn:Hos; [by apply elem_of_nil in Ht|].
  assert (Hhead : reaches file o d).
  { apply rtc_once. exists r. split; [done|]. unfold rule_needs. rewrite Ho, Hos. by left. }
  apply elem_of_cons in Ht as [->|Ht]; [done|]. eapply rtc_l; [|exact Hhead].
  exists r. split; [done|]. unfold rule_needs. rewrite Ho, Hos. by right.
Qed.

Section parts.
Context `{SetOrder} (w : writer).
Implicit Types (s : writing).

Definition action_variable (a : gyp_action) : text :=
  chars "action_" ++ StringToMakefileVariable (chars (qualified_target w) ++ chars "_" ++ action_name a) ++ chars "_outputs".
Definition rule_variable (r : gyp_rule) : text :=
  chars "rule_" ++ StringToMakefileVariable (chars (qualified_target w) ++ chars "_" ++ rule_name r) ++ chars "_outputs".
Definition copies_variable : text := StringToMakefileVariable (chars (qualified_target w) ++ chars "_copies").
Definition reference (variable : text) : text := chars "$(" ++ variable ++ chars ")".

(** [o] is made by commands, after [i]. *)
Definition made_from (file : list statement) (o i : text) : Prop :=
  (∃ cmds, cmds ≠ [] ∧ built_by file o cmds) ∧ reaches file o i.

Lemma made_from_incl f f' o i : f ⊆ f' → made_from f o i → made_from f' o i.
Proof.
  intros Hf [(cmds & Hc & Hb) Hr]. split; [|by eapply reaches_incl].
  exists cmds. split; [done|]. by eapply built_by_incl.
Qed.

Lemma rule_made_from r file o i :
  Rule r ∈ file → order_only r = false → phony r = false → actions r ≠ [] → o ∈ outputs r → i ∈ inputs r → made_from file o i.
Proof.
  intros Hr Ho Hp Ha Hout Hin. split; [|by eapply rule_reaches].
  exists (actions r). split; [done|]. by exists r.
Qed.

(** What is to be true of an action, of a rule and of the copies once they are written. *)
Definition action_done (a : gyp_action) s : Prop :=
  reference (action_variable a) ∈ extra_outputs s
  ∧ (action_as_sources a = true → action_outputs a ⊆ extra_sources s)
  ∧ ∀ o i, o ∈ action_outputs a → i ∈ action_inputs a → made_from (fp s) (Absolutify w o) (Sourceify w (Absolutify w i)).
Definition rule_source_done (r : gyp_rule) (source : text) s : Prop :=
  ∃ outs, map_result (λ out, ExpandInputRoot out (p_splitext (p_basename source)).1 (p_dirname source)) (rule_outputs r) = Ok outs
  ∧ (rule_as_sources r = true → outs ⊆ extra_sources s)
  ∧ ∀ o i, o ∈ outs → i ∈ source :: rule_inputs r → made_from (fp s) (Absolutify w o) (Sourceify w (Absolutify w i)).
Definition rule_done (r : gyp_rule) s : Prop :=
  reference (rule_variable r) ∈ extra_outputs s ∧ ∀ source, source ∈ rule_sources r → rule_source_done r source s.
Definition copy_done (c : gyp_copy) s : Prop :=
  ∀ p, p ∈ copy_files c →
    made_from (fp s) (Sourceify w (Absolutify w (p_join (copy_destination c) (p_basename (Sourceify w (Absolutify w p))))))
      (Sourceify w (Absolutify w p)).

Lemma action_done_grows a s s' : grows s s' → action_done a s → action_done a s'.
Proof.
  intros (Hf & Ho & Hs) (H1 & H2 & H3). split_and!; [by apply Ho|by intros ?; etrans; [apply H2|]|].
  intros o i ??. eapply made_from_incl; [done|auto].
Qed.
Lemma rule_source_done_grows r p s s' : grows s s' → rule_source_done r p s → rule_source_done r p s'.
Proof.
  intros (Hf & Ho & Hs) (outs & H1 & H2 & H3). exists outs. split_and!; [done|by intros ?; etrans; [apply H2|]|].
  intros o i ??. eapply made_from_incl; [done|auto].
Qed.
Lemma rule_done_grows r s s' : grows s s' → rule_done r s → rule_done r s'.
Proof. intros Hg (H1 & H2). split; [by apply Hg|]. intros p Hp. eapply rule_source_done_grows; [done|auto]. Qed.
Lemma copy_done_grows c s s' : grows s s' → copy_done c s → copy_done c s'.
Proof. intros Hg Hc p Hp. eapply made_from_incl; [apply Hg|auto]. Qed.

Lemma write_action_done a s s' : write_action w a s = Ok s' → grows s s' ∧ action_done a s'.
Proof.
  intros H1. unfold write_action in H1. run_ok H1. apply WriteDoCmd_Ok in Hx2 as [line ->]. apply Ok_inj in H1 as <-.
  split.
  - etrans; [|apply grows_add_output]. etrans; [|apply grows_put].
    destruct (action_as_sources a); [apply grows_add_sources|done].
  - split_and!.
    + cbn. apply elem_of_app. right. apply list_elem_of_singleton. unfold reference, action_variable.
      by rewrite <- !app_assoc.
    + intros Has. cbn. rewrite Has. cbn. intros o ?. apply elem_of_app. by right.
    + intros o i Ho Hi. eapply rule_made_from.
      * cbn [fp add_output put]. rewrite !elem_of_app. right. right. left. apply elem_of_cons. by left.
      * done.
      * done.
      * done.
      * cbn. apply list_elem_of_fmap. eauto.
      * cbn. apply list_elem_of_fmap. eexists. split; [done|]. apply list_elem_of_fmap. eauto.
Qed.

Lemma WriteActions_done acts s s' : WriteActions w acts s = Ok s' → grows s s' ∧ ∀ a, a ∈ acts → action_done a s'.
Proof.
  intros H1. unfold WriteActions in H1. run_ok H1. injection H1 as <-.
  apply (for_each_grows grows action_done) in Hx as [Hg Hd].
  - split; [by etrans; [|apply grows_put]|]. intros a Ha. eapply action_done_grows; [apply grows_put|auto].
  - intros a s1 s2 _. apply write_action_done.
  - intros a s1 s2. apply action_done_grows.
Qed.

Lemma write_rule_source_done r source st st' :
  write_rule_source w r (StringToMakefileVariable (chars (qualified_target w) ++ chars "_" ++ rule_name r)) source st = Ok st' →
  grows st.2 st'.2 ∧ rule_source_done r source st'.2.
Proof.
  destruct st as [[count all] s], st' as [[count' all'] s']. intros H1. unfold write_rule_source in H1.
  destruct (p_split source) as [dirname basename] eqn:Hsplit. run_ok H1. apply MakeRule_Ok in Hx1 as ->.
  apply Ok_inj, (f_equal snd) in H1. cbn [snd] in *. subst s'. split.
  - etrans; [|apply grows_put]. destruct (rule_as_sources r); [apply grows_add_sources|done].
  - exists x. unfold p_basename, p_dirname. rewrite Hsplit. cbn [fst snd]. split_and!; [done| |].
    + intros Has. cbn [extra_sources put]. rewrite Has. cbn. intros o ?. apply elem_of_app. by right.
    + intros o i Ho Hi. eapply rule_made_from.
      * cbn [fp put]. rewrite !elem_of_app. right. right. left. apply elem_of_cons. by left.
      * done.
      * done.
      * done.
      * cbn. apply list_elem_of_fmap. eauto.
      * cbn [inputs]. apply elem_of_app. left. apply list_elem_of_fmap. eexists. split; [done|]. apply list_elem_of_fmap. eauto.
Qed.

#[local] Instance grows_snd_preorder {A} : PreOrder (λ st st' : A * writing, grows st.2 st'.2).
Proof. split; [done|]. intros s1 s2 s3. apply transitivity. Qed.

Lemma write_rule_done r s s' : write_rule w r s = Ok s' → grows s s' ∧ rule_done r s'.
Proof.
  intros H1. unfold write_rule in H1. apply bind_Ok in H1 as ([[count outs] s2] & Hloop & H1). apply Ok_inj in H1 as <-.
  apply (for_each_grows (λ st st', grows st.2 st'.2) (λ p st, rule_source_done r p st.2)) in Hloop as [Hg Hd].
  - cbn in Hg, Hd. assert (Hall : grows s2 (add_output (reference (rule_variable r)) (put [Text (WriteList outs (rule_variable r) [] QuoteIfNecessary);
      Ln (chars "### Finished generating for rule: " ++ StringToMakefileVariable (chars (qualified_target w) ++ chars "_" ++ rule_name r)); Ln []] s2))).
    { etrans; [apply grows_put|apply grows_add_output]. }
    split; [etrans; [apply grows_put|etrans; [exact Hg|exact Hall]]|]. split.
    + cbn [extra_outputs add_output put]. apply elem_of_app. right. by apply list_elem_of_singleton.
    + intros p Hp. eapply rule_source_done_grows; [exact Hall|auto].
  - intros p st st' _. apply write_rule_source_done.
  - intros p st st'. apply rule_source_done_grows.
Qed.

Lemma WriteRules_done rules s s' : WriteRules w rules s = Ok s' → grows s s' ∧ ∀ r, r ∈ rules → rule_done r s'.
Proof.
  intros H1. unfold WriteRules in H1. run_ok H1. apply Ok_inj in H1 as <-.
  apply (for_each_grows grows rule_done) in Hx as [Hg Hd].
  - split; [by etrans; [|apply grows_put]|]. intros r Hr. eapply rule_done_grows; [apply grows_put|auto].
  - intros r s1 s2 _. apply write_rule_done.
  - intros r s1 s2. apply rule_done_grows.
Qed.

Lemma write_copy_done destination p st st' :
  write_copy w destination p st = Ok st' →
  grows st.2 st'.2 ∧ made_from (fp st'.2) (Sourceify w (Absolutify w (p_join destination (p_basename (Sourceify w (Absolutify w p))))))
                       (Sourceify w (Absolutify w p)).
Proof.
  destruct st as [outs s], st' as [outs' s']. intros H1. unfold write_copy in H1. run_ok H1.
  apply WriteDoCmd_Ok in Hx as [line ->]. apply Ok_inj, (f_equal snd) in H1. cbn [snd] in *. subst s'. split; [apply grows_put|].
  eapply rule_made_from; [cbn [fp put]; rewrite elem_of_app; right; apply elem_of_cons; by left|done|done|done|cbn..];
    by apply list_elem_of_singleton.
Qed.

Lemma WriteCopies_done copies s s' :
  WriteCopies w copies s = Ok s' → grows s s' ∧ reference copies_variable ∈ extra_outputs s' ∧ ∀ c, c ∈ copies → copy_done c s'.
Proof.
  intros H1. unfold WriteCopies in H1. apply bind_Ok in H1 as ([outs s2] & Hloop & H1). apply Ok_inj in H1 as <-.
  apply (for_each_grows (λ st st', grows st.2 st'.2) (λ c st, copy_done c st.2)) in Hloop as [Hg Hd].
  - cbn in Hg, Hd. split_and!.
    + etrans; [apply grows_put|]. etrans; [exact Hg|]. etrans; [apply grows_put|apply grows_add_output].
    + cbn [extra_outputs add_output put]. apply elem_of_app. right. by apply list_elem_of_singleton.
    + intros c Hc. eapply copy_done_grows; [etrans; [apply grows_put|apply grows_add_output]|auto].
  - intros c st st' _ Hc.
    apply (for_each_grows (λ st st', grows st.2 st'.2) (λ p st, made_from (fp st.2)
      (Sourceify w (Absolutify w (p_join (copy_destination c) (p_basename (Sourceify w (Absolutify w p)))))) (Sourceify w (Absolutify w p)))) in Hc.
    + exact Hc.
    + intros p sa sb _. apply write_copy_done.
    + intros p sa sb [Hf _]. by apply made_from_incl.
  - intros c st st'. apply copy_done_grows.
Qed.
End parts.

Section target_theorems.
Context `{SetOrder} (w : writer) (spec : spec).
Implicit Types (l file : list statement).

Lemma rule_needs_first r file t d :
  Rule r ∈ file → order_only r = false → head (outputs r) = Some t → d ∈ inputs r → needs file t d.
Proof. intros Hr Ho Ht Hd. exists r. split; [done|]. unfold rule_needs. rewrite Ho. by left. Qed.

Lemma order_rule_Ok outs ins note l :
  order_rule outs ins note = Ok l → ∀ t d, t ∈ outs → d ∈ ins → needs l t d.
Proof.
  intros ->%MakeRule_Ok t d Ht Hd. eexists. split; [by left|]. by split.
Qed.

Lemma alias_rule_Ok t ins note l : alias_rule [t] ins note = Ok l → ∀ d, d ∈ ins → needs l t d.
Proof. intros ->%MakeRule_Ok d Hd. eapply rule_needs_first; [by left|done..]. Qed.

(** A command makes its only output, and after all of its inputs. *)
Lemma WriteDoCmd_makes o ins command note l :
  WriteDoCmd [o] ins command note = Ok l →
  (∃ cmds, cmds ≠ [] ∧ built_by l o cmds) ∧ ∀ d, d ∈ ins → needs l o d.
Proof.
  intros [line ->]%WriteDoCmd_Ok. split.
  - eexists. split; [|exists (do_cmd_rule [o] ins command note)]; [|split_and!; [by left|by left|done..]]; done.
  - intros d Hd. eapply rule_needs_first; [by left|done..].
Qed.

Lemma write_extra_outputs_Ok deps extra l :
  write_extra_outputs w spec deps extra = Ok l → ∀ e, e ∈ extra →
  needs l (ComputeOutput w spec) e ∧ ∀ d, d ∈ deps → needs l e d.
Proof.
  unfold write_extra_outputs. case_bool_decide as He; [subst; intros _ e Hin; by apply elem_of_nil in Hin|].
  intros H1 e Hin. run_ok H1. apply Ok_inj in H1 as <-. split.
  - eapply needs_incl, order_rule_Ok; [|exact Hx|by left|exact Hin]. intros y ?. apply elem_of_app. by left.
  - intros d Hd. eapply needs_incl, order_rule_Ok; [|exact Hx0|exact Hin|exact Hd]. intros y ?. apply elem_of_app. by right.
Qed.

Lemma needs_cons l st t d : needs l t d → needs (st :: l) t d.
Proof. apply needs_incl. intros y ?. by right. Qed.
Lemma built_by_cons l st t cmds : built_by l t cmds → built_by (st :: l) t cmds.
Proof. apply built_by_incl. intros y ?. by right. Qed.

Lemma write_output_Ok deps link_deps l :
  write_output w spec deps link_deps = Ok l →
  (∃ cmds, cmds ≠ [] ∧ built_by l (ComputeOutput w spec) cmds)
  ∧ ∀ d, d ∈ (if wtype w ==? "none" then deps else link_deps) → needs l (ComputeOutput w spec) d.
Proof.
  unfold write_output. intros H1.
  assert (Hcons : ∀ st o ins command note l, WriteDoCmd [o] ins command note = Ok l →
    (∃ cmds, cmds ≠ [] ∧ built_by (st :: l) o cmds) ∧ ∀ d, d ∈ ins → needs (st :: l) o d).
  { intros st o ins command note l' [(cmds & Hc & Hb) Hn]%WriteDoCmd_makes. split.
    - exists cmds. split; [done|]. by apply built_by_cons.
    - intros d Hd. by apply needs_cons, Hn. }
  destruct (decide (wtype w = "none")) as [Hnone|Hnone].
  { rewrite !(bool_decide_eq_true_2 (wtype w = "none")) in * by done.
    rewrite !bool_decide_eq_false_2 in H1 by (by rewrite Hnone). by apply WriteDoCmd_makes in H1. }
  rewrite (bool_decide_eq_false_2 (wtype w = "none")) in * by done.
  destruct (wtype w ==? "executable"); [run_ok H1; apply Ok_inj in H1 as <-; by eapply Hcons|].
  destruct (wtype w ==? "static_library"); [run_ok H1; by apply WriteDoCmd_makes in H1|].
  destruct (wtype w ==? "shared_library"); [run_ok H1; apply Ok_inj in H1 as <-; by eapply Hcons|].
  destruct (wtype w ==? "loadable_module"); [run_ok H1; by apply WriteDoCmd_makes in H1|done].
Qed.

Lemma write_alias_Ok part_of_all l :
  write_alias w spec part_of_all = Ok l →
  ComputeOutput w spec ≠ [] → ComputeOutput w spec ≠ target w → wtype w ∉ INSTALLABLE_TARGETS →
  needs l (target w) (ComputeOutput w spec) ∧ (part_of_all = true → needs l (chars "all") (target w)).
Proof.
  unfold write_alias. intros H1 Hne Hnt Hni. rewrite !bool_decide_eq_false_2 in H1 by done. cbn [negb andb] in H1.
  run_ok H1. apply Ok_inj in H1 as <-. split.
  - eapply needs_incl, alias_rule_Ok; [|exact Hx|by left]. intros y ?. apply elem_of_app. by left.
  - intros ->. eapply needs_incl, alias_rule_Ok; [|exact Hx0|by left]. intros y ?. apply elem_of_app. by right.
Qed.

Lemma write_install_Ok part_of_all l :
  write_install w spec part_of_all = Ok l → installable w spec = true →
  let install_path := InstallableTargetInstallPath w spec in
  needs l (target w) install_path
  ∧ (install_path ≠ ComputeOutput w spec →
     (∃ cmds, cmds ≠ [] ∧ built_by l install_path cmds) ∧ needs l install_path (ComputeOutput w spec))
  ∧ (part_of_all = true → needs l (chars "all") install_path).
Proof.
  intros H1 Hi install_path. unfold write_install in H1. fold install_path in H1. rewrite Hi in H1. run_ok H1. apply Ok_inj in H1 as <-. split_and!.
  - apply (needs_incl x); [intros y; rewrite !elem_of_app; auto|]. eapply alias_rule_Ok; [exact Hx|by left].
  - intros Hne. rewrite bool_decide_eq_false_2 in Hx0 by done. apply WriteDoCmd_makes in Hx0 as [(cmds & Hc & Hb) Hn].
    assert (x0 ⊆ x ++ x0 ++ x1 ++ x2) by (intros y; rewrite !elem_of_app; auto). split.
    + exists cmds. split; [done|]. by eapply built_by_incl.
    + eapply needs_incl; [done|]. apply Hn. by left.
  - intros ->. apply (needs_incl x2); [intros y; rewrite !elem_of_app; auto|]. eapply alias_rule_Ok; [exact Hx2|by left].
Qed.

Lemma WriteSources_Ok configs deps srcs extra l link :
  WriteSources w configs deps srcs extra = Ok (l, link) →
  (∀ d, d ∈ deps ++ extra → needs l OBJS d) ∧ ((∃ s, s ∈ srcs ∧ Compilable s = true) → OBJS ∈ link).
Proof.
  intros H1. unfold WriteSources in H1. run_ok H1. apply Ok_inj in H1. split.
  - assert (Hin : ∀ deps note l', order_only_on_objs deps note = Ok l' → ∀ d, d ∈ deps → needs l' OBJS d).
    { intros deps' note l'. unfold order_only_on_objs.
      destruct (decide (deps' = [])) as [->|Hd]; [by intros _ d ?%elem_of_nil|]. rewrite bool_decide_eq_false_2 by done.
      intros Ho d. eapply order_rule_Ok; [exact Ho|by left]. }
    apply (f_equal fst) in H1. cbn [fst] in H1. subst l. intros d [Hd|Hd]%elem_of_app.
    + eapply (needs_incl x0); [intros y; rewrite !elem_of_app; auto|]. by eapply Hin.
    + eapply (needs_incl x1); [intros y; rewrite !elem_of_app; auto 6|]. by eapply Hin.
  - intros (s & Hs & Hc). apply (f_equal snd) in H1. cbn [snd] in H1. subst link. apply elem_of_app. left.
    rewrite bool_decide_eq_false_2; [by left|]. intros Hnil.
    assert (Hf : s ∈ filter (λ s, Compilable s = true) srcs) by (by apply list_elem_of_filter).
    destruct (filter _ srcs); [by apply elem_of_nil in Hf|done].
Qed.
End target_theorems.

(** What every part of a target has been turned into. *)
Definition parts_done `{SetOrder} (w : writer) (sp : spec) (s : writing) : Prop :=
  (∀ acts a, spec_actions sp = Some acts → a ∈ acts → action_done w a s)
  ∧ (∀ rules r, spec_rules sp = Some rules → r ∈ rules → rule_done w r s)
  ∧ (∀ copies c, spec_copies sp = Some copies → c ∈ copies → reference (copies_variable w) ∈ extra_outputs s ∧ copy_done w c s).

Lemma parts_Ok `{SetOrder} (w : writer) (sp : spec) s0 s1 s2 s3 :
  optionally (spec_actions sp) (WriteActions w) s0 = Ok s1 → optionally (spec_rules sp) (WriteRules w) s1 = Ok s2 →
  optionally (spec_copies sp) (WriteCopies w) s2 = Ok s3 → parts_done w sp s3.
Proof.
  intros Ha Hr Hc.
  assert (H3 : grows s2 s3 ∧ ∀ copies c, spec_copies sp = Some copies → c ∈ copies →
    reference (copies_variable w) ∈ extra_outputs s3 ∧ copy_done w c s3).
  { destruct (spec_copies sp) as [copies|]; cbn in Hc; [|injection Hc as <-; by split].
    apply WriteCopies_done in Hc as (Hg & Hv & Hd). split; [done|]. intros ?? [= ->] Hin. auto. }
  assert (H2 : grows s1 s2 ∧ ∀ rules r, spec_rules sp = Some rules → r ∈ rules → rule_done w r s2).
  { destruct (spec_rules sp) as [rules|]; cbn in Hr; [|injection Hr as <-; by split].
    apply WriteRules_done in Hr as [Hg Hd]. split; [done|]. intros ?? [= ->] Hin. auto. }
  assert (H1 : ∀ acts a, spec_actions sp = Some acts → a ∈ acts → action_done w a s1).
  { destruct (spec_actions sp) as [acts|]; cbn in Ha; [|done].
    apply WriteActions_done in Ha as [Hg Hd]. intros ?? [= ->] Hin. auto. }
  destruct H3 as [Hg3 H3], H2 as [Hg2 H2]. split_and!; [|..|done].
  - intros acts a Hs Hin. eapply action_done_grows; [etrans; [exact Hg2|exact Hg3]|eauto].
  - intros rules r Hs Hin. eapply rule_done_grows; [exact Hg3|eauto].
Qed.

Section write_theorems.
Context `{SetOrder} (w : writer) (sp : spec).

(** The run of [Write] in its parts. *)
Lemma Write_parts ndk g part_of_all file g' :
  Write w sp ndk g part_of_all = Ok (file, g') →
  ∃ deps link_deps s extra_link_deps final, ComputeDeps sp g = Ok (deps, link_deps) ∧ parts_done w sp s ∧ fp s ⊆ file
  ∧ (∃ srcs, write_sources w sp deps (sources sp ++ extra_sources s) (extra_outputs s) = Ok (srcs, extra_link_deps) ∧ srcs ⊆ file)
  ∧ WriteTarget w sp deps (extra_link_deps ++ link_deps) (extra_outputs s) part_of_all = Ok final ∧ final ⊆ file
  ∧ g' = {| target_outputs := dict_set (target_outputs g) (qualified_target w) (install_path w sp);
            target_link_deps := if wtype w in? ["static_library"; "shared_library"]
                                then dict_set (target_link_deps g) (qualified_target w) (ComputeOutput w sp) else target_link_deps g |}.
Proof.
  intros H1. unfold Write in H1. apply bind_Ok in H1 as ([deps link_deps] & Hdeps & H1).
  apply bind_Ok in H1 as (s1 & Ha & H1). apply bind_Ok in H1 as (s2 & Hr & H1). apply bind_Ok in H1 as (s3 & Hc & H1).
  apply bind_Ok in H1 as ([srcs link] & Hs & H1). apply bind_Ok in H1 as (final & Hf & H1). apply Ok_inj in H1.
  injection H1 as <- <-. exists deps, link_deps, s3, link, final. split_and!; [done|by eapply parts_Ok|..].
  - intros y. rewrite !elem_of_app. auto.
  - exists srcs. split; [done|]. intros y. rewrite !elem_of_app. auto.
  - done.
  - intros y. rewrite !elem_of_app. auto.
  - done.
Qed.

Lemma WriteTarget_parts deps link_deps extra part_of_all final :
  WriteTarget w sp deps link_deps extra part_of_all = Ok final →
  ∃ extras output alias install, write_extra_outputs w sp deps extra = Ok extras ∧ write_output w sp deps link_deps = Ok output
  ∧ write_alias w sp part_of_all = Ok alias ∧ write_install w sp part_of_all = Ok install
  ∧ extras ⊆ final ∧ output ⊆ final ∧ alias ⊆ final ∧ install ⊆ final.
Proof.
  intros H1. unfold WriteTarget in H1. run_ok H1. apply Ok_inj in H1 as <-.
  exists x, x0, x1, x2. split_and!; try done; intros y; rewrite !elem_of_app; auto 6.
Qed.

(** The path that is recorded for other targets is made by commands, after the output. *)
Lemma Write_installs deps link_deps extra part_of_all final :
  WriteTarget w sp deps link_deps extra part_of_all = Ok final →
  (∃ cmds, cmds ≠ [] ∧ built_by final (install_path w sp) cmds)
  ∧ reaches final (install_path w sp) (ComputeOutput w sp).
Proof.
  intros (extras & output & alias & install & _ & Hout & _ & Hin & _ & Ho & _ & Hi)%WriteTarget_parts.
  apply write_output_Ok in Hout as [(cmds & Hc & Hb) _].
  assert (Hdone : (∃ cmds, cmds ≠ [] ∧ built_by final (ComputeOutput w sp) cmds)).
  { exists cmds. split; [done|]. exact (built_by_incl _ _ _ _ Ho Hb). }
  unfold install_path. destruct (installable w sp) eqn:Hinst; [|done].
  destruct (decide (InstallableTargetInstallPath w sp = ComputeOutput w sp)) as [->|Hne]; [done|].
  apply write_install_Ok in Hin as (_ & Hcopy & _); [|done]. destruct (Hcopy Hne) as [(cmds' & Hc' & Hb') Hn]. split.
  - exists cmds'. split; [done|]. exact (built_by_incl _ _ _ _ Hi Hb').
  - apply rtc_once. exact (needs_incl _ _ _ _ Hi Hn).
Qed.

(** The name of the target, and [all] if it is part of that, lead to the recorded path. *)
Lemma Write_aliases deps link_deps extra part_of_all final :
  WriteTarget w sp deps link_deps extra part_of_all = Ok final →
  installable w sp = true ∨ (ComputeOutput w sp ≠ [] ∧ ComputeOutput w sp ≠ target w) →
  reaches final (target w) (install_path w sp) ∧ (part_of_all = true → reaches final (chars "all") (install_path w sp)).
Proof.
  intros (extras & output & alias & install & _ & _ & Hal & Hin & _ & _ & Ha & Hi)%WriteTarget_parts Hcase.
  unfold install_path. destruct (installable w sp) eqn:Hinst.
  - apply write_install_Ok in Hin as (Ht & _ & Hall); [|done]. split.
    + apply rtc_once. exact (needs_incl _ _ _ _ Hi Ht).
    + intros Hp. apply rtc_once. eapply needs_incl; [exact Hi|auto].
  - destruct Hcase as [?|[Hne Hnt]]; [done|]. apply write_alias_Ok in Hal as [Ht Hall]; [|done|done|].
    + split; [apply rtc_once; exact (needs_incl _ _ _ _ Ha Ht)|]. intros Hp.
      eapply rtc_l; [exact (needs_incl _ _ _ _ Ha (Hall Hp))|]. apply rtc_once. exact (needs_incl _ _ _ _ Ha Ht).
    + unfold installable in Hinst. apply orb_false_iff in Hinst as [_ Hinst]. by apply bool_decide_eq_false in Hinst.
Qed.

(** The order of the parts of a target. *)
Lemma Write_ordered deps link_deps extra part_of_all final :
  WriteTarget w sp deps link_deps extra part_of_all = Ok final →
  (∀ e, e ∈ extra → needs final (ComputeOutput w sp) e ∧ ∀ d, d ∈ deps → needs final e d)
  ∧ ∀ d, d ∈ (if wtype w ==? "none" then deps else link_deps) → needs final (ComputeOutput w sp) d.
Proof.
  intros (extras & output & alias & install & Hex & Hout & _ & _ & He & Ho & _ & _)%WriteTarget_parts. split.
  - intros e Hin. destruct (write_extra_outputs_Ok _ _ _ _ _ Hex e Hin) as [Hn Hd].
    split; [exact (needs_incl _ _ _ _ He Hn)|]. intros d ?. eapply needs_incl; [exact He|auto].
  - apply write_output_Ok in Hout as [_ Hn]. intros d ?. eapply needs_incl; [exact Ho|auto].
Qed.
End write_theorems.

(** What [Write] returns. *)
Lemma Write_result `{SetOrder} (w : writer) (sp : spec) ndk g part_of_all file g' :
  Write w sp ndk g part_of_all = Ok (file, g') →
  ∃ deps link_deps s, ComputeDeps sp g = Ok (deps, link_deps)
  ∧ dict_get (target_outputs g') (qualified_target w) = Some (install_path w sp)
  ∧ (∃ cmds, cmds ≠ [] ∧ built_by file (install_path w sp) cmds)
  ∧ reaches file (install_path w sp) (ComputeOutput w sp)
  ∧ (installable w sp = true ∨ (ComputeOutput w sp ≠ [] ∧ ComputeOutput w sp ≠ target w) →
     reaches file (target w) (install_path w sp) ∧ (part_of_all = true → reaches file (chars "all") (install_path w sp)))
  ∧ parts_done w sp s ∧ fp s ⊆ file
  ∧ (∀ e, e ∈ extra_outputs s → needs file (ComputeOutput w sp) e ∧ ∀ d, d ∈ deps → needs file e d)
  ∧ ((∃ src, src ∈ sources sp ++ extra_sources s ∧ Compilable src = true) →
     (∀ d, d ∈ deps ++ extra_outputs s → needs file OBJS d) ∧ (wtype w ≠ "none" → needs file (ComputeOutput w sp) OBJS))
  ∧ (wtype w = "none" → ∀ d, d ∈ deps → needs file (ComputeOutput w sp) d).
Proof.
  intros (deps & link_deps & s & link & final & Hdeps & Hparts & Hfp & (srcs & Hsrcs & Hsf) & Hfinal & Hff & ->)%Write_parts.
  exists deps, link_deps, s. pose proof (Write_installs _ _ _ _ _ _ _ Hfinal) as [(cmds & Hc & Hb) Hreach].
  pose proof (Write_ordered _ _ _ _ _ _ _ Hfinal) as [He Hn]. split_and!; try done.
  - cbn. apply dict_get_set_eq.
  - exists cmds. split; [done|]. exact (built_by_incl _ _ _ _ Hff Hb).
  - exact (reaches_incl _ _ _ _ Hff Hreach).
  - intros Hcase. destruct (Write_aliases _ _ _ _ _ _ _ Hfinal Hcase) as [Ht Hall].
    split; [exact (reaches_incl _ _ _ _ Hff Ht)|]. intros Hp. eapply reaches_incl; [exact Hff|auto].
  - intros e Hin. destruct (He e Hin) as [H1 H2]. split; [exact (needs_incl _ _ _ _ Hff H1)|]. intros d ?. eapply needs_incl; [exact Hff|auto].
  - intros (src & Hin & Hcomp). unfold write_sources in Hsrcs. rewrite bool_decide_eq_false_2 in Hsrcs; last first.
    { intros Hnil. rewrite Hnil in Hin. by apply elem_of_nil in Hin. }
    apply bind_Ok in Hsrcs as ([l link'] & Hsrcs & Heq). apply Ok_inj in Heq. injection Heq as <- <-.
    apply WriteSources_Ok in Hsrcs as [Hobjs Hlink]. split.
    + intros d ?. eapply needs_incl; [|by apply Hobjs]. intros y ?. apply Hsf, elem_of_app. by left.
    + intros Hnone. eapply needs_incl; [exact Hff|]. apply Hn. rewrite bool_decide_eq_false_2 by done.
      apply elem_of_app. left. apply Hlink. eauto.
  - intros Hnone d Hd. eapply needs_incl; [exact Hff|]. apply Hn. by rewrite bool_decide_eq_true_2.
Qed.

(** ** All targets *)

Lemma uniquer_in (l : list text) x : x ∈ l → x ∈ uniquer of_chars l.
Proof.
  intros (l1 & l2 & -> & Hx)%list_elem_of_split_l. apply uniquer_result. exists l1, l2. split; [done|].
  intros (y & Hy & Hin)%list_elem_of_fmap. apply of_chars_inj in Hy as ->. done.
Qed.

Lemma ComputeDeps_in sp g deps link_deps d o :
  ComputeDeps sp g = Ok (deps, link_deps) → d ∈ dependencies sp → dict_get (target_outputs g) d = Some o → o ≠ [] → o ∈ deps.
Proof.
  intros H1 Hd Ho Hne. unfold ComputeDeps in H1. run_ok H1. apply Ok_inj in H1. injection H1 as <- _.
  apply uniquer_in. apply elem_of_app. left. apply list_elem_of_filter. split; [done|].
  apply map_result_Ok in Hx. apply list_elem_of_lookup in Hd as [i Hi].
  destruct (Forall2_lookup_l _ _ _ _ _ Hx Hi) as (o' & Ho' & Heq). rewrite Ho in Heq. injection Heq as ->.
  by eapply list_elem_of_lookup_2.
Qed.

Lemma ComputeDeps_total sp g :
  (∀ d, d ∈ dependencies sp → is_Some (dict_get (target_outputs g) d)) → ∃ r, ComputeDeps sp g = Ok r.
Proof.
  intros Hd. unfold ComputeDeps. destruct (map_result_total (λ dep, match dict_get (target_outputs g) dep with
    Some o => Ok o | None => Err (KeyError dep) end) (dependencies sp)) as [outs ->]; [|by eexists].
  intros d Hin. destruct (Hd d Hin) as [o ->]. by eexists.
Qed.

Section generate_theorems.
Context `{SetOrder} `{RealPath} (opts : options) (included_files : text → list text) (target_dicts : list (string * spec)) (needed : list string).
Implicit Types (g : generated).

Definition recorded g (t : string) (o : text) : Prop := dict_get (target_outputs (global g)) t = Some o.

(** One of the files has a rule with commands for [o]. *)
Definition installed g (o : text) : Prop :=
  ∃ name file cmds, (name, file) ∈ files g ∧ cmds ≠ [] ∧ built_by file o cmds.

(** In the file of a target, its output or its objects wait for [o]. *)
Definition waits_for (file : list statement) (w : writer) (sp : spec) (o : text) : Prop :=
  (type sp = "none" → needs file (ComputeOutput w sp) o)
  ∧ ((∃ src, src ∈ sources sp ∧ Compilable src = true) →
     needs file OBJS o ∧ (type sp ≠ "none" → needs file (ComputeOutput w sp) OBJS)).

(** Everything a target depends on comes before it. *)
Definition after_dependencies (l : list string) : Prop :=
  ∀ pre t post sp d, l = pre ++ t :: post → dict_get target_dicts t = Some sp → d ∈ dependencies sp → d ∈ pre.

(** The file of the target makes the path that is recorded for it, and waits for what is recorded for
    its dependencies. *)
Definition target_done g (t : string) : Prop :=
  ∃ sp base_path name file, dict_get target_dicts t = Some sp ∧ (name, file) ∈ files g
  ∧ recorded g t (install_path (writer_of opts t base_path sp) sp)
  ∧ (∃ cmds, cmds ≠ [] ∧ built_by file (install_path (writer_of opts t base_path sp) sp) cmds)
  ∧ ∀ d o, d ∈ dependencies sp → recorded g d o → o ≠ [] → waits_for file (writer_of opts t base_path sp) sp o.

Abbreviation start := {| files := []; global := {| target_outputs := []; target_link_deps := [] |}; build_files := []; include_list := [] |}.
Abbreviation step := (generate_target opts included_files target_dicts needed).

Lemma generate_target_Ok g g' t :
  step t g = Ok g' → ∃ sp base_path name file, dict_get target_dicts t = Some sp ∧ files g' = files g ++ [(name, file)]
  ∧ target_outputs (global g') = dict_set (target_outputs (global g)) t (install_path (writer_of opts t base_path sp) sp)
  ∧ (∃ cmds, cmds ≠ [] ∧ built_by file (install_path (writer_of opts t base_path sp) sp) cmds)
  ∧ ∀ d o, d ∈ dependencies sp → recorded g d o → o ≠ [] → waits_for file (writer_of opts t base_path sp) sp o.
Proof.
  unfold generate_target. destruct (ParseQualifiedTarget t) as [[build_file tgt] ts].
  destruct (CalculateMakefilePath _ _ _) as [base_path output_file]. intros H1.
  destruct (dict_get target_dicts t) as [sp|] eqn:Hsp; [|done]. apply bind_Ok in H1 as ([file gl] & Hw & H1).
  apply Ok_inj in H1 as <-. exists sp, base_path, output_file, file.
  apply Write_parts in Hw as Hglobals.
  destruct Hglobals as (?&?&?&?&?&_&_&_&_&_&_&Hgl).
  apply Write_result in Hw as (deps & link_deps & s & Hdeps & _ & Hbuilt & _ & _ & _ & _ & _ & Hobjs & Hnone).
  split_and!; [done|done|by rewrite Hgl|done|].
  intros d o Hd Ho Hne. assert (Hin : o ∈ deps) by (by eapply ComputeDeps_in). split; [intros; by apply Hnone|].
  intros (src & Hsrc & Hc). destruct Hobjs as [Hon Hlink]; [|split; [apply Hon, elem_of_app; by left|done]].
  exists src. split; [|done]. apply elem_of_app. by left.
Qed.

Lemma target_done_step g g' t t' :
  step t' g = Ok g' → t ≠ t' → (∀ sp d, dict_get target_dicts t = Some sp → d ∈ dependencies sp → d ≠ t') →
  target_done g t → target_done g' t.
Proof.
  intros Hstep Hne Hdeps (sp & bp & name & file & Hsp & Hf & Hr & Hb & Hw).
  apply generate_target_Ok in Hstep as (sp' & bp' & name' & file' & _ & Hf' & Ht' & _).
  exists sp, bp, name, file. unfold recorded in *. split_and!; [done| | |done|].
  - rewrite Hf'. apply elem_of_app. by left.
  - by rewrite Ht', dict_get_set_ne.
  - intros d o Hd Ho. apply (Hw d); [done|]. rewrite Ht' in Ho.
    rewrite dict_get_set_ne in Ho; [done|]. intros Hx. by apply (Hdeps sp d Hsp Hd).
Qed.

Lemma generate_prefix pre g :
  NoDup pre → after_dependencies pre → for_each pre start step = Ok g →
  (∀ t, t ∈ pre → target_done g t) ∧ ∀ t, is_Some (dict_get (target_outputs (global g)) t) → t ∈ pre.
Proof.
  revert g. induction pre as [|t pre IH] using rev_ind; intros g Hnd Hord Hrun.
  { injection Hrun as <-. split; [by intros t ?%elem_of_nil|]. by intros t [? ?]. }
  rewrite for_each_app in Hrun. apply bind_Ok in Hrun as (g1 & Hrun & Hstep). cbn in Hstep.
  apply bind_Ok in Hstep as (g2 & Hstep & Heq). apply Ok_inj in Heq as ->.
  apply NoDup_app in Hnd as (Hnd & Hnotin & _).
  assert (Hord' : after_dependencies pre).
  { intros p x q sp d -> Hsp Hd. refine (Hord p x (q ++ [t]) sp d _ Hsp Hd). by rewrite <- app_assoc. }
  destruct (IH g1 Hnd Hord' Hrun) as [Hdone Hkeys].
  assert (Hsome : ∀ x, x ∈ pre → x ≠ t) by (intros x Hx ->; apply (Hnotin t Hx); by left).
  split.
  - intros x [Hx| ->%list_elem_of_singleton]%elem_of_app.
    + eapply target_done_step; [exact Hstep|auto| |auto]. intros sp d Hsp Hd ->.
      apply list_elem_of_split in Hx as (p & q & ->). pose proof (Hord' p x q sp t eq_refl Hsp Hd) as Hin.
      apply (Hnotin t); [|by left]. apply elem_of_app. by left.
    + apply generate_target_Ok in Hstep as (sp & bp & name & file & Hsp & Hf & Ht & Hb & Hw).
      exists sp, bp, name, file. unfold recorded. split_and!; [done| | |done|].
      * rewrite Hf. apply elem_of_app. right. by left.
      * by rewrite Ht, dict_get_set_eq.
      * intros d o Hd Ho. apply (Hw d); [done|]. rewrite Ht in Ho. rewrite dict_get_set_ne in Ho; [done|].
        apply not_eq_sym, Hsome. exact (Hord pre t [] sp d eq_refl Hsp Hd).
  - apply generate_target_Ok in Hstep as (sp & bp & name & file & _ & _ & Ht & _). intros x. rewrite Ht.
    destruct (decide (x = t)) as [->|Hne]; [intros _; apply elem_of_app; right; by left|].
    rewrite dict_get_set_ne by done. intros Hx. apply elem_of_app. left. auto.
Qed.

Lemma target_done_installed g t : target_done g t → ∃ o, recorded g t o ∧ installed g o.
Proof.
  intros (sp & bp & name & file & _ & Hf & Hr & (cmds & Hc & Hb) & _). eexists. split; [exact Hr|].
  by exists name, file, cmds.
Qed.

Lemma after_dependencies_prefix pre post : after_dependencies (pre ++ post) → after_dependencies pre.
Proof. intros Hord p x q sp d -> Hsp Hd. refine (Hord p x (q ++ post) sp d _ Hsp Hd). by rewrite <- app_assoc. Qed.

(** The loop never misses the output of a dependency. *)
Lemma generate_progress pre t post g sp :
  NoDup (pre ++ t :: post) → after_dependencies (pre ++ t :: post) →
  for_each pre start step = Ok g → dict_get target_dicts t = Some sp → ∃ r, ComputeDeps sp (global g) = Ok r.
Proof.
  intros Hnd Hord Hrun Hsp. apply NoDup_app in Hnd as (Hnd & _ & _).
  destruct (generate_prefix pre g Hnd (after_dependencies_prefix _ _ Hord) Hrun) as [Hdone _].
  apply ComputeDeps_total. intros d Hd. pose proof (Hord pre t post sp d eq_refl Hsp Hd) as Hin.
  destruct (target_done_installed g d (Hdone d Hin)) as (o & Ho & _). by exists o.
Qed.
End generate_theorems.
(** * Properties *)

(** C5: the makefile of a target puts its parts in order.  If [Write] returns, then the path it records
    for the target is the target of a rule with commands and is made after the output; the name of the target,
    and [all] if the target is part of that, lead to it.  Every output of every action, of every rule for every
    of its sources, and every copied file has commands and is made after its inputs; the output of the target waits
    for all of them, and they for the dependencies; and so do the objects of the
    target, which the output waits for in turn unless the target has no output of its own ([none]), where the output itself waits
    for the dependencies. *)
Theorem Write_correct `{SetOrder} (w : writer) (sp : spec) ndk g part_of_all file g' :
  Write w sp ndk g part_of_all = Ok (file, g') →
  ∃ deps link_deps s, ComputeDeps sp g = Ok (deps, link_deps)
  ∧ dict_get (target_outputs g') (qualified_target w) = Some (install_path w sp)
  ∧ (∃ cmds, cmds ≠ [] ∧ built_by file (install_path w sp) cmds)
  ∧ reaches file (install_path w sp) (ComputeOutput w sp)
  ∧ (installable w sp = true ∨ (ComputeOutput w sp ≠ [] ∧ ComputeOutput w sp ≠ target w) →
     reaches file (target w) (install_path w sp) ∧ (part_of_all = true → reaches file (chars "all") (install_path w sp)))
  ∧ parts_done w sp s ∧ fp s ⊆ file
  ∧ (∀ e, e ∈ extra_outputs s → needs file (ComputeOutput w sp) e ∧ ∀ d, d ∈ deps → needs file e d)
  ∧ ((∃ src, src ∈ sources sp ++ extra_sources s ∧ Compilable src = true) →
     (∀ d, d ∈ deps ++ extra_outputs s → needs file OBJS d) ∧ (wtype w ≠ "none" → needs file (ComputeOutput w sp) OBJS))
  ∧ (wtype w = "none" → ∀ d, d ∈ deps → needs file (ComputeOutput w sp) d).
Proof. apply Write_result. Qed.

Definition example_config : config :=
  {| defines := [chars "A=1"]; cflags := []; cflags_c := []; cflags_cc := []; include_dirs := [chars "include"]; ldflags := []; library_dirs := [] |}.
Definition example_lib : spec :=
  {| target_name := chars "a"; type := "static_library"; spec_toolset := chars "target";
     spec_actions := Some [{| action_name := chars "gen"; action_inputs := [chars "gen.py"]; action_outputs := [chars "$(obj)/gen/g.c"];
       action_as_sources := true; action_command := [chars "python"; chars "gen.py"]; action_message := None |}];
     spec_rules := None; spec_copies := None; sources := [chars "a.cc"]; dependencies := []; libraries := [];
     configurations := [("Debug", example_config)]; standalone_static_library := false; product_prefix := None;
     product_name := None; product_extension := None; product_dir := None |}.
Definition example_program : spec :=
  {| target_name := chars "b"; type := "executable"; spec_toolset := chars "target"; spec_actions := None; spec_rules := None;
     spec_copies := None; sources := [chars "b.cc"]; dependencies := ["x.gyp:a#target"]; libraries := [chars "-lm"];
     configurations := [("Debug", example_config)]; standalone_static_library := false; product_prefix := None;
     product_name := None; product_extension := None; product_dir := None |}.
Definition example_writer : writer :=
  {| flavor := "linux"; srcdir_prefix := []; qualified_target := "x.gyp:b#target"; path := []; target := chars "b";
     wtype := "executable"; toolset := chars "target" |}.
Definition example_globals : globals :=
  {| target_outputs := [("x.gyp:a#target", chars "$(obj).target/liba.a")]; target_link_deps := [("x.gyp:a#target", chars "$(obj).target/liba.a")] |}.
Abbreviation example_run := (Write example_writer example_program false example_globals true).

Lemma example_runs : ∃ file g, example_run = Ok (file, g) ∧ installable example_writer example_program = true.
Proof.
  assert (Hok : is_ok example_run = true) by (vm_compute; reflexivity).
  destruct example_run as [[file g]|e]; [|done]. by exists file, g.
Qed.

Lemma Write_correct_witness : ∃ file g, example_run = Ok (file, g) ∧ reaches file (chars "all") (chars "$(builddir)/b").
Proof.
  destruct example_runs as (file & g & Hrun & Hinst). exists file, g. split; [exact Hrun|].
  destruct (Write_correct _ _ _ _ _ _ _ Hrun) as (deps & link_deps & s & _ & _ & _ & _ & Hall & _).
  destruct (Hall (or_introl Hinst)) as [_ Ha]. exact (Ha eq_refl).
Defined.


Definition example_options : options :=
  {| depth := chars "."; generator_output := None; toplevel_dir := chars "."; suffix := []; output_dir := chars "out";
     home_dot_gyp := None; cwd := chars "/src"; makefile_flavor := "linux"; ndk := false |}.
Definition example_dicts : list (string * spec) := [("x.gyp:a#target", example_lib); ("x.gyp:b#target", example_program)].
#[local] Instance example_paths : RealPath | 5 := realpath_nolinks (chars "/src").
Abbreviation example_generation :=
  (generate_targets example_options (λ _, [chars "x.gyp"]) example_dicts ["x.gyp:b#target"] ["x.gyp:a#target"; "x.gyp:b#target"]).

Lemma example_generates : ∃ g, example_generation = Ok g.
Proof.
  assert (Hok : is_ok example_generation = true) by (vm_compute; reflexivity).
  destruct example_generation as [g|e]; [|done]. by exists g.
Qed.

Lemma example_order : after_dependencies example_dicts ["x.gyp:a#target"; "x.gyp:b#target"].
Proof.
  intros pre t post sp d Hl Hsp Hd. destruct pre as [|p1 pre].
  - injection Hl as <- _. injection Hsp as <-. by apply elem_of_nil in Hd.
  - injection Hl as <- Hl. destruct pre as [|p2 pre]; [|by destruct pre].
    injection Hl as <- _. injection Hsp as <-. exact Hd.
Qed.

