(* ===== verification/NinjaQuote.v ===== *)
(** * Quoting for ninja, for shells and for response files

    [QuoteShellArgument] and [Define] of tools/gyp/pylib/gyp/generator/ninja.py and
    [QuoteForRspFile] of tools/gyp/pylib/gyp/msvs_emulation.py, with how ninja expands a
    value, how a batch file reads percent signs and how CommandLineToArgvW splits a
    command line (its documentation, which the source refers to). *)
From S2P Require Import Prelude PyStr PyPath Shell NinjaSyntax.
From Stdlib Require Import Ascii.

Definition backslash : ascii := "\".
Definition single_quote : ascii := "'".
Definition double_quote : ascii := "034".
Definition percent : ascii := "%".

(** ** Response files *)

(** The substitution by [windows_quoter_regex]: backslashes before a quote are doubled and one more is put
    before the quote; [k] backslashes have been read that may be part of a match. *)
Fixpoint windows_quoter (k : nat) (arg : text) : text :=
  match arg with
  | [] => replicate k backslash
  | c :: r =>
      if c ==? backslash then windows_quoter (S k) r
      else if c ==? double_quote then replicate (2 * k) backslash ++ [backslash; double_quote] ++ windows_quoter 0 r
      else replicate k backslash ++ c :: windows_quoter 0 r
  end.

Definition QuoteForRspFile (arg : text) : text :=
  [double_quote] ++ lreplace [percent] [percent; percent] (windows_quoter 0 arg) ++ [double_quote].

(** ** Shells *)

(** [re.match(r'^[a-zA-Z0-9_=.\\/-]+$', arg)]: the dollar sign also matches before an end of
    line at the end. *)
Definition common_char (c : ascii) : bool :=
  let n := nat_of_ascii c in
  ((97 <=? n) && (n <=? 122)) || ((65 <=? n) && (n <=? 90)) || ((48 <=? n) && (n <=? 57))
  || (c in? ["_"; "="; "."; "\"; "/"; "-"]%char).
Definition needs_no_quotes (arg : text) : bool :=
  let arg := if last arg ==? Some nl then take (pred (length arg)) arg else arg in
  negb (arg ==? []) && forallb common_char arg.

Definition QuoteShellArgument (arg : text) (flavor : string) : text :=
  if needs_no_quotes arg then arg
  else if flavor ==? "win" then QuoteForRspFile arg
  else [single_quote] ++ lreplace [single_quote] [single_quote; double_quote; single_quote; double_quote; single_quote] arg
       ++ [single_quote].

(** ['\\%03o' % ord('#')] is backslash, zero, four, three. *)
Definition Define (d : text) (flavor : string) : result text :=
  let d := if flavor ==? "win" then lreplace ["#"%char] (chars "\043") d else d in
  escaped ← escape (chars "-D" ++ d);
  Ok (QuoteShellArgument escaped flavor).

(** ** The readers *)

(** The value of a text without references to variables, as ninja expands it. *)
Fixpoint ninja_expand (s : text) : option text :=
  match s with
  | [] => Some []
  | c :: r =>
      if c ==? dollar then
        match r with
        | c' :: r' => if c' ==? dollar then cons dollar <$> ninja_expand r' else None
        | [] => None
        end
      else cons c <$> ninja_expand r
  end.

(** What a batch file makes of percent signs: two stand for one, other ones are references. *)
Fixpoint batch_expand (s : text) : option text :=
  match s with
  | [] => Some []
  | c :: r =>
      if c ==? percent then
        match r with
        | c' :: r' => if c' ==? percent then cons percent <$> batch_expand r' else None
        | [] => None
        end
      else cons c <$> batch_expand r
  end.

(** CommandLineToArgvW: blanks outside of quotes end a word; backslashes count only before
    a quote, where two stand for one and one that is left over makes the quote literal. [word] is the word
    that is being read, if one is, and [k] backslashes have been read. *)
Fixpoint argv_words (quoted : bool) (k : nat) (word : option text) (s : text) : list text :=
  let flush (n : nat) : option text := if n =? 0 then word else Some (default [] word ++ replicate n backslash) in
  match s with
  | [] => match flush k with Some w => [w] | None => [] end
  | c :: r =>
      if c ==? backslash then argv_words quoted (S k) word r
      else if c ==? double_quote then
        if Nat.odd k then argv_words quoted 0 (Some (default [] (flush (k `div` 2)) ++ [c])) r
        else argv_words (negb quoted) 0 (Some (default [] (flush (k `div` 2)))) r
      else if negb quoted && sh_blank c then
        match flush k with Some w => w :: argv_words quoted 0 None r | None => argv_words quoted 0 None r end
      else argv_words quoted 0 (Some (default [] (flush k) ++ [c])) r
  end.

(** * Theorems *)

Lemma flush_default k w : default [] (if k =? 0 then Some w else Some (default [] (Some w) ++ replicate k backslash)) = w ++ replicate k backslash.
Proof. destruct k; cbn; [by rewrite app_nil_r|done]. Qed.

(** Inside of quotes the text that was quoted is read back, up to the backslashes at its end. *)
Lemma argv_words_quoted k w arg rest :
  last arg ≠ Some backslash → (arg = [] → k = 0) →
  argv_words true 0 (Some w) (windows_quoter k arg ++ double_quote :: rest)
  = argv_words false 0 (Some (w ++ replicate k backslash ++ arg)) rest.
Proof.
  assert (Hrun : ∀ n m w s, argv_words true m (Some w) (replicate n backslash ++ s) = argv_words true (m + n) (Some w) s).
  { intros n. induction n as [|n IH]; intros m w' s; [by rewrite Nat.add_0_r|]. cbn [replicate app argv_words].
    rewrite bool_decide_eq_true_2 by done. rewrite IH. f_equal. lia. }
  revert k w. induction arg as [|c arg IH]; intros k w Hlast Hk.
  { rewrite Hk by done. cbn. by rewrite app_nil_r. }
  assert (Hlast' : last arg ≠ Some backslash) by (destruct arg; [done|exact Hlast]).
  cbn [windows_quoter]. destruct (decide (c = backslash)) as [->|Hb].
  - rewrite bool_decide_eq_true_2 by done. rewrite IH; [|done|].
    + rewrite replicate_S_end, <- app_assoc. done.
    + intros ->. done.
  - rewrite bool_decide_eq_false_2 by done. destruct (decide (c = double_quote)) as [->|Hq].
    + rewrite bool_decide_eq_true_2 by done. rewrite <- !app_assoc, Hrun. cbn [app Nat.add].
      cbn [argv_words]. rewrite bool_decide_eq_true_2 by done. rewrite bool_decide_eq_false_2 by done.
      rewrite bool_decide_eq_true_2 by done.
      replace (Nat.odd (S (2 * k))) with true by (by rewrite Nat.odd_succ, Nat.even_mul).
      replace (S (2 * k) `div` 2) with k by (apply Nat.div_unique with 1; lia).
      rewrite flush_default, IH by done. cbn [replicate app]. by rewrite <- !app_assoc.
    + rewrite bool_decide_eq_false_2 by done. rewrite <- app_assoc, Hrun. cbn [app argv_words Nat.add].
      rewrite !bool_decide_eq_false_2 by done. cbn [negb andb]. rewrite flush_default, IH by done.
      cbn [replicate app]. by rewrite <- !app_assoc.
Qed.

Lemma batch_expand_doubled s : batch_expand (lreplace [percent] [percent; percent] s) = Some s.
Proof.
  rewrite lreplace_single. induction s as [|c s IH]; [done|]. cbn [fmap list_fmap concat]. case_decide as Hc.
  - subst c. cbn [app batch_expand]. rewrite !bool_decide_eq_true_2 by done. by rewrite IH.
  - cbn [app batch_expand]. rewrite bool_decide_eq_false_2 by done. by rewrite IH.
Qed.

Lemma batch_expand_app s t e : batch_expand s = Some t → batch_expand (s ++ e) = (λ u, t ++ u) <$> batch_expand e.
Proof.
  revert t. induction s as [s IH] using (induction_ltof1 _ length); unfold ltof in IH. intros t Hs.
  destruct s as [|c s]; cbn in *.
  { injection Hs as <-. by destruct (batch_expand e). }
  destruct (c ==? percent).
  - destruct s as [|c' s]; [done|]. cbn. destruct (c' ==? percent); [|done].
    destruct (batch_expand s) as [u|] eqn:Hu; [|done]. injection Hs as <-. rewrite (IH s) with (t := u) by (cbn; auto with lia).
    by destruct (batch_expand e).
  - destruct (batch_expand s) as [u|] eqn:Hu; [|done]. injection Hs as <-. rewrite (IH s) with (t := u) by (cbn; auto with lia).
    by destruct (batch_expand e).
Qed.

(** Expanding one thing after the other, for the two expansions. *)
Lemma ninja_expand_app s t e : ninja_expand s = Some t → ninja_expand (s ++ e) = (λ u, t ++ u) <$> ninja_expand e.
Proof.
  revert t. induction s as [s IH] using (induction_ltof1 _ length); unfold ltof in IH. intros t Hs.
  destruct s as [|c s]; cbn in *.
  { injection Hs as <-. by destruct (ninja_expand e). }
  destruct (c ==? dollar).
  - destruct s as [|c' s]; [done|]. cbn. destruct (c' ==? dollar); [|done].
    destruct (ninja_expand s) as [u|] eqn:Hu; [|done]. injection Hs as <-. rewrite (IH s) with (t := u) by (cbn; auto with lia).
    by destruct (ninja_expand e).
  - destruct (ninja_expand s) as [u|] eqn:Hu; [|done]. injection Hs as <-. rewrite (IH s) with (t := u) by (cbn; auto with lia).
    by destruct (ninja_expand e).
Qed.

Lemma ninja_expand_plain s : dollar ∉ s → ninja_expand s = Some s.
Proof.
  induction s as [|c s IH]; [done|]. intros [Hc Hs]%not_elem_of_cons. cbn. rewrite bool_decide_eq_false_2 by done.
  by rewrite IH.
Qed.

(** ** The words of a response file *)

Lemma batch_rsp arg :
  batch_expand (QuoteForRspFile arg) = Some ([double_quote] ++ windows_quoter 0 arg ++ [double_quote]).
Proof.
  unfold QuoteForRspFile. rewrite (batch_expand_app [double_quote] [double_quote]) by done.
  rewrite (batch_expand_app _ _ _ (batch_expand_doubled _)). done.
Qed.

Lemma argv_rsp arg rest :
  last arg ≠ Some backslash →
  argv_words false 0 None (([double_quote] ++ windows_quoter 0 arg ++ [double_quote]) ++ rest) = argv_words false 0 (Some arg) rest.
Proof.
  intros Hl. rewrite <- !app_assoc. cbn [app argv_words]. rewrite bool_decide_eq_false_2 by done.
  rewrite bool_decide_eq_true_2 by done. cbn [Nat.odd negb]. by rewrite argv_words_quoted.
Qed.

Definition rsp_text (args : list text) : text := ljoin [space] (QuoteForRspFile <$> args).

Lemma rsp_list args :
  Forall (λ a, last a ≠ Some backslash) args →
  ∃ line, batch_expand (rsp_text args) = Some line ∧ argv_words false 0 None line = args.
Proof.
  unfold rsp_text. induction 1 as [|a args Ha Hargs IH]; [by exists []|]. destruct IH as (line & Hl & Hw).
  destruct args as [|a' args].
  - eexists. split; [apply batch_rsp|]. rewrite <- (app_nil_r (_ ++ _ ++ _)), argv_rsp by done. done.
  - rewrite fmap_cons, ljoin_cons by done. rewrite (batch_expand_app _ _ _ (batch_rsp a)).
    rewrite (batch_expand_app [space] [space]) by done. rewrite Hl. eexists. split; [reflexivity|].
    rewrite argv_rsp by done. cbn [app argv_words]. rewrite !bool_decide_eq_false_2 by done.
    change (sh_blank space) with true. cbn [negb andb Nat.eqb]. by rewrite Hw.
Qed.

(** ** The words of a shell *)

Definition quoted (arg : text) : text :=
  [single_quote] ++ lreplace [single_quote] [single_quote; double_quote; single_quote; double_quote; single_quote] arg ++ [single_quote].

Lemma sh_words_in_quotes word s rest :
  sh_words InSingle word
    (lreplace [single_quote] [single_quote; double_quote; single_quote; double_quote; single_quote] s ++ single_quote :: rest)
  = sh_words InWord (word ++ s) rest.
Proof.
  rewrite lreplace_single. revert word. induction s as [|c s IH]; intros word.
  { cbn. by rewrite app_nil_r. }
  cbn [fmap list_fmap concat]. rewrite <- app_assoc. destruct (decide (c = single_quote)) as [->|Hc].
  - cbn [app]. transitivity (sh_words InSingle (word ++ [single_quote]) (concat ((λ x, if decide (x = single_quote)
      then [single_quote; double_quote; single_quote; double_quote; single_quote] else [x]) <$> s) ++ single_quote :: rest));
      [reflexivity|]. rewrite IH. by rewrite <- app_assoc.
  - cbn [app sh_words]. rewrite bool_decide_eq_false_2 by done. rewrite IH. by rewrite <- app_assoc.
Qed.

(** A text that the shell reads as one word, or that is a part of one. *)
Definition reads_as (s arg : text) : Prop :=
  ∀ rest, sh_words Between [] (s ++ rest) = sh_words InWord arg rest.

Lemma quoted_reads arg : reads_as (quoted arg) arg.
Proof. intros rest. unfold quoted. rewrite <- !app_assoc. cbn [app].
  etrans; [|exact (sh_words_in_quotes [] arg rest)]. done.
Qed.

(** The characters that need no quotes, but for the backslash, are themselves. *)
Lemma common_char_itself c :
  common_char c = true → c ≠ backslash →
  sh_blank c = false ∧ sh_special c = false ∧ c ≠ double_quote ∧ c ≠ single_quote ∧ c ≠ dollar ∧ c ≠ nl.
Proof.
  assert (Hall : ∀ c, implb (common_char c && negb (c ==? backslash))
    (negb (sh_blank c) && negb (sh_special c) && negb (c in? [double_quote; single_quote; dollar; nl])) = true).
  { intros [[] [] [] [] [] [] [] []]; vm_compute; reflexivity. }
  intros Hc Hb. specialize (Hall c). rewrite Hc, (bool_decide_eq_false_2 (c = backslash)) in Hall by done.
  cbn [andb negb implb] in Hall. rewrite !andb_true_iff, !negb_true_iff, bool_decide_eq_false, !not_elem_of_cons in Hall. tauto.
Qed.

Lemma common_reads arg : Forall (λ c, common_char c = true ∧ c ≠ backslash) arg → arg ≠ [] → reads_as arg arg.
Proof.
  intros Hall Hne rest.
  assert (Hword : ∀ word s, Forall (λ c, common_char c = true ∧ c ≠ backslash) s →
    sh_words InWord word (s ++ rest) = sh_words InWord (word ++ s) rest).
  { intros word s Hs. revert word. induction Hs as [|c s [Hc Hb] _ IH]; intros word; [by rewrite app_nil_r|].
    destruct (common_char_itself c Hc Hb) as (H1&H2&H3&H4&_). cbn [app sh_words].
    rewrite H1, H2, !bool_decide_eq_false_2 by done. rewrite IH. by rewrite <- app_assoc. }
  destruct Hall as [|c s [Hc Hb] Hs]; [done|].
  destruct (common_char_itself c Hc Hb) as (H1&H2&H3&H4&_). cbn [app sh_words].
  rewrite H1, H2, !bool_decide_eq_false_2 by done. by rewrite Hword.
Qed.

(** The argument is not taken to need no quotes because of an end of line or with a backslash. *)
Definition quotable (arg : text) : Prop := needs_no_quotes arg = true → (backslash ∉ arg) ∧ (nl ∉ arg).

Lemma needs_no_quotes_common arg :
  needs_no_quotes arg = true → backslash ∉ arg → nl ∉ arg → arg ≠ [] ∧ Forall (λ c, common_char c = true ∧ c ≠ backslash) arg.
Proof.
  unfold needs_no_quotes. intros Hn Hb Hnl. rewrite (bool_decide_eq_false_2 (last arg = Some nl)) in Hn.
  2: { intros Hl. apply Hnl. apply last_Some in Hl as [l ->]. apply elem_of_app. right. by left. }
  apply andb_true_iff in Hn as [Hne Hc]. apply negb_true_iff, bool_decide_eq_false in Hne. split; [done|].
  apply Forall_forall. intros c Hin. split; [by apply (proj1 (forallb_forall _ _) Hc), list_elem_of_In|by intros ->].
Qed.

Lemma QuoteShellArgument_reads arg flavor : flavor ≠ "win" → quotable arg → reads_as (QuoteShellArgument arg flavor) arg.
Proof.
  intros Hf Hq. unfold QuoteShellArgument. destruct (needs_no_quotes arg) eqn:Hn.
  - destruct (Hq Hn) as [Hb Hnl]. destruct (needs_no_quotes_common arg Hn Hb Hnl) as [Hne Hc]. by apply common_reads.
  - rewrite bool_decide_eq_false_2 by done. apply quoted_reads.
Qed.

(** One argument after the other. *)
Lemma reads_list ls args : Forall2 reads_as ls args → sh_words Between [] (ljoin [space] ls) = Some args.
Proof.
  induction 1 as [|l arg ls args Hl Hls IH]; [done|]. destruct Hls as [|l' arg' ls args Hl' Hls].
  - cbn [ljoin]. rewrite <- (app_nil_r l), Hl. done.
  - rewrite ljoin_cons, Hl by done. cbn [app sh_words]. change (sh_blank space) with true. cbn iota. by rewrite IH.
Qed.

(** ** Defines *)

Lemma escape_chars_of s e : escape s = Ok e → (nl ∉ s) ∧ e = concat ((λ c, if decide (c = dollar) then [dollar; dollar] else [c]) <$> s).
Proof.
  unfold escape, raise_if. destruct (bool_decide_reflect (nl ∈ s)); [done|]. cbn. intros [= <-].
  split; [done|]. apply lreplace_single.
Qed.

Lemma ninja_expand_escaped s e : escape s = Ok e → ninja_expand e = Some s.
Proof.
  intros [_ ->]%escape_chars_of. induction s as [|c s IH]; [done|]. cbn [fmap list_fmap concat]. case_decide as Hc.
  - subst c. cbn [app ninja_expand]. rewrite !bool_decide_eq_true_2 by done. by rewrite IH.
  - cbn [app ninja_expand]. rewrite bool_decide_eq_false_2 by done. by rewrite IH.
Qed.

Lemma ninja_expand_quoted s e : escape s = Ok e → ninja_expand (quoted e) = Some (quoted s).
Proof.
  intros [_ ->]%escape_chars_of. unfold quoted. rewrite (ninja_expand_app [single_quote] [single_quote]) by done.
  rewrite !lreplace_single.
  assert (Hs : ninja_expand (concat ((λ x, if decide (x = single_quote) then [single_quote; double_quote; single_quote; double_quote; single_quote] else [x])
      <$> concat ((λ c, if decide (c = dollar) then [dollar; dollar] else [c]) <$> s)))
    = Some (concat ((λ x, if decide (x = single_quote) then [single_quote; double_quote; single_quote; double_quote; single_quote] else [x]) <$> s))).
  { induction s as [|c s IH]; [done|]. rewrite !fmap_cons. cbn [concat]. rewrite fmap_app, concat_app.
    destruct (decide (c = dollar)) as [->|Hd].
    - rewrite (ninja_expand_app _ [dollar]) by done. by rewrite IH.
    - destruct (decide (c = single_quote)) as [->|Hq].
      + rewrite (ninja_expand_app _ [single_quote; double_quote; single_quote; double_quote; single_quote]) by done. by rewrite IH.
      + rewrite (ninja_expand_app _ [c]); [by rewrite IH|]. cbn. rewrite decide_False by done. cbn.
        by rewrite bool_decide_eq_false_2. }
  rewrite (ninja_expand_app _ _ _ Hs). done.
Qed.

Lemma Define_reads d flavor :
  flavor ≠ "win" → nl ∉ d → quotable (chars "-D" ++ d) →
  ∃ t v, Define d flavor = Ok t ∧ ninja_expand t = Some v ∧ reads_as v (chars "-D" ++ d).
Proof.
  intros Hf Hnl Hq. set (s := chars "-D" ++ d). assert (Hs : nl ∉ s) by (apply not_elem_of_app; split; [by apply (bool_decide_unpack _)|done]).
  destruct (escape s) as [e|ex] eqn:He; [|unfold escape, raise_if in He; by rewrite bool_decide_eq_false_2 in He].
  assert (Hdef : Define d flavor = Ok (QuoteShellArgument e flavor)).
  { unfold Define. rewrite (bool_decide_eq_false_2 (flavor = "win")) by done. fold s. by rewrite He. }
  exists (QuoteShellArgument e flavor). cut (∃ v, ninja_expand (QuoteShellArgument e flavor) = Some v ∧ reads_as v s).
  { intros (v & Hv & Hr). by exists v. }
  clear Hdef. pose proof He as He'. apply escape_chars_of in He' as [_ He'].
  unfold QuoteShellArgument. destruct (needs_no_quotes e) eqn:Hn.
  - assert (Hdollar : dollar ∉ s).
    { intros Hin. assert (dollar ∈ e ∧ (nl ∉ e)) as [Hde Hne].
      { rewrite He'. split.
        - apply list_elem_of_In, in_concat. exists [dollar; dollar]. split; [|by left]. apply list_elem_of_In, list_elem_of_fmap.
          exists dollar. by rewrite decide_True.
        - intros (l & Hl%list_elem_of_In & Hx%list_elem_of_In)%list_elem_of_In%in_concat. apply list_elem_of_fmap in Hl as (c & -> & Hc).
          case_decide as Hcd; [by apply (bool_decide_pack _) in Hx|]. apply list_elem_of_singleton in Hx. by subst. }
      unfold needs_no_quotes in Hn. rewrite (bool_decide_eq_false_2 (last e = Some nl)) in Hn.
      2: { intros Hl. apply Hne. apply last_Some in Hl as [l ->]. apply elem_of_app. right. by left. }
      apply andb_true_iff in Hn as [_ Hc]. apply list_elem_of_In in Hde.
      apply (proj1 (forallb_forall _ _) Hc) in Hde. vm_compute in Hde. discriminate Hde. }
    assert (Hes : e = s).
    { rewrite He'. clear -Hdollar. induction s as [|c s IH]; [done|]. apply not_elem_of_cons in Hdollar as [Hc Hd].
      rewrite fmap_cons. cbn [concat]. rewrite decide_False by done. cbn. by rewrite IH. }
    exists s. rewrite Hes in *. split; [by apply ninja_expand_plain|].
    destruct (Hq Hn) as [Hb Hnl']. destruct (needs_no_quotes_common s Hn Hb Hnl') as [Hne Hc]. by apply common_reads.
  - exists (quoted s). rewrite bool_decide_eq_false_2 by done. split; [by apply ninja_expand_quoted|apply quoted_reads].
Qed.

Lemma defines_read ds flavor :
  flavor ≠ "win" → Forall (λ d, (nl ∉ d) ∧ quotable (chars "-D" ++ d)) ds →
  ∃ ts vs, map_result (λ d, Define d flavor) ds = Ok ts ∧ ninja_expand (ljoin [space] ts) = Some (ljoin [space] vs)
    ∧ Forall2 reads_as vs ((λ d, chars "-D" ++ d) <$> ds).
Proof.
  intros Hf Hds. induction Hds as [|d ds [Hnl Hq] Hds IH]; [by exists [], []|]. destruct IH as (ts & vs & Hts & Hexp & Hreads).
  destruct (Define_reads d flavor Hf Hnl Hq) as (t & v & Ht & Hv & Hr). exists (t :: ts), (v :: vs). cbn [map_result].
  rewrite Ht, Hts. split_and!; [done| |by constructor].
  assert (Hlen : ts = [] ↔ vs = []).
  { apply Forall2_length in Hreads. rewrite length_fmap in Hreads. apply map_result_Ok, Forall2_length in Hts.
    by rewrite <- !length_zero_iff_nil, <- Hts, Hreads. }
  destruct ts as [|t' ts], vs as [|v' vs]; try (by exfalso; naive_solver).
  - cbn [ljoin]. done.
  - rewrite !ljoin_cons by done. rewrite (ninja_expand_app _ _ _ Hv), (ninja_expand_app [space] [space]) by done. by rewrite Hexp.
Qed.

(** * Properties *)



(** A program for Windows that is started from a batch file gets the arguments back
    that [QuoteForRspFile] quoted: one for each, whatever blanks, quotes, percent signs
    and backslashes they have, so long as none ends in a backslash. *)
Theorem QuoteForRspFile_roundtrip args :
  Forall (λ a, last a ≠ Some backslash) args →
  ∃ line, batch_expand (ljoin [space] (QuoteForRspFile <$> args)) = Some line ∧ argv_words false 0 None line = args.
Proof. apply rsp_list. Qed.

Lemma QuoteForRspFile_roundtrip_witness :
  ∃ line, batch_expand (ljoin [space] (QuoteForRspFile <$> [chars "a b\\c"; []; [double_quote]; chars "100%\x"])) = Some line
    ∧ argv_words false 0 None line = [chars "a b\\c"; []; [double_quote]; chars "100%\x"].
Proof. apply QuoteForRspFile_roundtrip. by apply (bool_decide_unpack _). Defined.

(** An argument that ends in a backslash makes the closing quote literal, and takes in
    what follows. *)
Example trailing_backslash :
  argv_words false 0 None (ljoin [space] (QuoteForRspFile <$> [chars "C:\dir\"; chars "x y"]))
  = [chars "C:\dir" ++ [double_quote] ++ chars " x"; chars "y"].
Proof. reflexivity. Qed.

(** A backslash is among the characters that are thought to need no quotes: the shell
    takes it away. *)
Example backslash_lost :
  sh_words Between [] (QuoteShellArgument (chars "a\b") "linux") = Some [chars "ab"].
Proof. reflexivity. Qed.
