(* ===== verification/NinjaGen.v ===== *)
(** * The generator of ninja files

    [Target] and [NinjaWriter] of tools/gyp/pylib/gyp/generator/ninja.py, which write the ninja file of
    one target, and the loop of [GenerateOutputForConfig] that runs them over all targets.  The
    flavor is any but mac and win: there is no environment of Xcode or of Visual Studio, and there are no bundles,
    precompiled headers, manifests or response files.

    What is passed to the writer of ninja_syntax.py is a list of statements. *)
From stdpp Require Import relations.
From S2P Require Import Prelude PyDict PyStr PyPath PySet Common Shell NinjaSyntax NinjaQuote TargetSpec.
From Stdlib Require Import Ascii.

(** ** Statements *)

(** A call of [build]; groups that are absent are empty. *)
Record edge := {
  outs : list text; command : text; ins : list text; implicit : list text; order_only : list text; bindings : list (text * text)
}.
Inductive statement := Build (e : edge) | Bind (key value : text) | NewRule (name cmd description : text) | Newline.

(** ** Targets *)

(** The paths of one target; the members for bundles and for Windows are always [None]. *)
Record Target := {
  ttype : string; preaction_stamp : option text; precompile_stamp : option text; actions_stamp : option text; binary : option text
}.

(** [a or b], where the empty string counts as false. *)
Definition py_or (a b : option text) : option text := match a with Some (_ :: _) => a | _ => b end.
Definition truthy (a : option text) : option text := py_or a None.

Definition Linkable (t : Target) : bool := ttype t in? ["static_library"; "shared_library"].
Definition UsesToc (t : Target) : bool := ttype t in? ["shared_library"; "loadable_module"].
Definition FinalOutput (t : Target) : option text := py_or (binary t) (actions_stamp t).
Definition toc (path : text) : text := path ++ chars ".TOC".
Definition PreActionInput (t : Target) : result (option text) :=
  if UsesToc t then
    match FinalOutput t with
    | Some final => Ok (Some (toc final))
    | None => Err (TypeError "unsupported operand types")
    end
  else Ok (py_or (FinalOutput t) (preaction_stamp t)).
Definition PreCompileInput (t : Target) : option text := py_or (actions_stamp t) (precompile_stamp t).

(** ** Paths *)

(** The members of a [NinjaWriter] that its methods read. *)
Record writer := {
  qualified_target : text; base_dir : text; build_to_base : text; base_to_build : text;
  flavor : string; config_name : text; name : text; toolset : text; environ : list (text * text)
}.

Section writer.
Context `{SetOrder} (md5 : text → text) (w : writer).

Definition PRODUCT_DIR : text := chars "$!PRODUCT_DIR".
Definition INTERMEDIATE_DIR : text := chars "$!INTERMEDIATE_DIR".
Definition CONFIGURATION_NAME : text := chars "$|CONFIGURATION_NAME".

Definition obj_dir : text := if toolset w ==? chars "target" then chars "obj" else chars "obj." ++ toolset w.

(** The path [GypPathToUniqueOutput] computes for a path without special variables. *)
Definition unique_path (p : text) (qualified : bool) : text :=
  let '(path_dir, path_basename) := p_split p in
  let path_basename := if qualified then name w ++ "."%char :: path_basename else path_basename in
  p_normpath (p_join_list obj_dir [base_dir w; path_dir; path_basename]).

Definition ExpandSpecial (p : text) (product_dir : option text) : text :=
  let p := if contains PRODUCT_DIR p then
             match product_dir with
             | Some ((_ :: _) as dir) => lreplace PRODUCT_DIR dir p
             | _ => lreplace PRODUCT_DIR dot (lreplace (PRODUCT_DIR ++ chars "\") [] (lreplace (PRODUCT_DIR ++ chars "/") [] p))
             end
           else p in
  let p := if contains INTERMEDIATE_DIR p
           then lreplace INTERMEDIATE_DIR (p_join (default [] product_dir) (unique_path (chars "gen") true)) p else p in
  lreplace CONFIGURATION_NAME (config_name w) p.

Definition assert (b : bool) : result unit := raise_if (negb b) AssertionError.

Definition ExpandRuleVariables (p root dirname source ext basename : text) : text :=
  lreplace (chars "${name}") basename (lreplace (chars "${ext}") ext (lreplace (chars "${source}") source
    (lreplace (chars "${dirname}") dirname (lreplace (chars "${root}") root p)))).

Definition GypPathToNinja (p : text) : result text :=
  if lstarts (chars "$!") p then Ok (ExpandSpecial p None)
  else
    let p := if contains (chars "$|") p then ExpandSpecial p None else p in
    _ ← assert (negb (contains (chars "$") p));
    Ok (p_normpath (p_join (build_to_base w) p)).

Definition GypPathToUniqueOutput (p : text) (qualified : bool) : result text :=
  let p := ExpandSpecial p None in
  _ ← assert (negb (lstarts (chars "$") p));
  Ok (unique_path p qualified).

(** ** Collapsing dependencies *)

Definition optional_list (o : option text) : list text := match truthy o with Some p => [p] | None => [] end.

Definition stamp_edge (stamp : text) (targets : list text) : edge :=
  {| outs := [stamp]; command := chars "stamp"; ins := targets; implicit := []; order_only := []; bindings := [] |}.

(** [WriteCollapsedDependencies(name, targets)] *)
Definition WriteCollapsedDependencies (stamp_name : text) (targets : list text) : result (list statement * option text) :=
  _ ← assert (negb ([] in? targets));
  match targets with
  | [] => Ok ([], None)
  | [target] => Ok ([], Some target)
  | _ => stamp ← GypPathToUniqueOutput (stamp_name ++ chars ".stamp") true;
         Ok ([Build (stamp_edge stamp targets); Newline], Some stamp)
  end.

(** ** Rules for commands *)

Definition GenerateDescription (verb : text) (message : option text) (fallback : text) : text :=
  let verb := if toolset w ==? chars "target" then verb else verb ++ chars "(" ++ toolset w ++ chars ")" in
  match truthy message with
  | Some message => verb ++ " "%char :: ExpandSpecial message None
  | None => verb ++ " "%char :: name w ++ chars ": " ++ fallback
  end.

(** [re.sub(protect + r'\$', '_', description)] *)
Definition protected : list text := [chars "${root}"; chars "${dirname}"; chars "${source}"; chars "${ext}"; chars "${name}"].
Fixpoint drop_references (description : text) : text :=
  match description with
  | [] => []
  | c :: r => (if (c ==? dollar) && negb (existsb (λ v, lstarts v description) protected) then "_"%char else c) :: drop_references r
  end.

(** [WriteNewNinjaRule(name, args, description)]: the statements, the name of the rule and the expanded arguments. *)
Definition WriteNewNinjaRule (rule : text) (args : list text) (description : text) : list statement * text * list text :=
  let rule_name := name w ++ (if toolset w ==? chars "target" then "."%char :: toolset w else []) ++ "."%char :: rule in
  let rule_name := only_word_chars rule_name in
  let args := (λ arg, ExpandSpecial arg (Some (base_to_build w))) <$> args in
  let cmd := chars "cd " ++ build_to_base w ++ chars "; " ++ EncodePOSIXShellList args in
  ([NewRule rule_name cmd (drop_references description); Newline], rule_name, args).

(** ** Actions, rules and copies *)

(** What these add to: the statements, [extra_sources], and all outputs. *)
Record steps := { fp : list statement; extra_sources : list text; all_outputs : list text }.
Definition add_step (l : list statement) (srcs outputs : list text) (s : steps) : steps :=
  {| fp := fp s ++ l; extra_sources := extra_sources s ++ srcs; all_outputs := all_outputs s ++ outputs |}.

Definition write_action (prebuild : option text) (action : gyp_action) (s : steps) : result steps :=
  let rule := action_name action ++ "_"%char :: md5 (qualified_target w) in
  let '(stmts, rule_name, _) :=
    WriteNewNinjaRule rule (action_command action) (GenerateDescription (chars "ACTION") (action_message action) rule) in
  inputs ← map_result GypPathToNinja (action_inputs action);
  outputs ← map_result GypPathToNinja (action_outputs action);
  Ok (add_step (stmts ++ [Build {| outs := outputs; command := rule_name; ins := inputs; implicit := [];
                                   order_only := optional_list prebuild; bindings := [] |}; Newline])
        (if action_as_sources action then action_outputs action else []) outputs s).

Definition WriteActions (prebuild : option text) (acts : list gyp_action) (s : steps) : result steps :=
  for_each acts s (write_action prebuild).

(** The variables of a rule that are bound for a source, with [dirname] and [source] relative to the directory of the build file. *)
Definition special_locals : list text := [chars "source"; chars "root"; chars "dirname"; chars "ext"; chars "name"].
Definition needed_variables (args : list text) : list text :=
  set_of (chars "source" :: concat ((λ argument, filter (λ var, contains (chars "${" ++ var ++ chars "}") argument = true) special_locals) <$> args)).
Definition rule_binding (root dirname source ext basename : text) (var : text) : text * text :=
  (var,
   if var ==? chars "root" then root
   else if var ==? chars "dirname" then ExpandSpecial dirname (Some (base_to_build w))
   else if var ==? chars "source" then ExpandSpecial source (Some (base_to_build w))
   else if var ==? chars "ext" then ext else basename).

Definition write_rule_source (prebuild : option text) (rule : gyp_rule) (rule_name : text) (args : list text) (source : text) (s : steps) :
    result steps :=
  let source := p_normpath source in
  let '(dirname, basename) := p_split source in
  let '(root, ext) := p_splitext basename in
  let expand p := ExpandRuleVariables p root dirname source ext basename in
  let outputs := expand <$> rule_outputs rule in
  let srcs := if rule_as_sources rule then outputs else [] in
  inputs ← map_result GypPathToNinja (expand <$> rule_inputs rule);
  outputs ← map_result GypPathToNinja outputs;
  first ← (match outputs with o :: _ => Ok o | [] => Err IndexError end);
  input ← GypPathToNinja source;
  Ok (add_step [Build {| outs := outputs; command := rule_name; ins := [input]; implicit := inputs; order_only := optional_list prebuild;
                         bindings := (rule_binding root dirname source ext basename <$> set_order (needed_variables args))
                                     ++ [(chars "unique_name", md5 first)] |}] srcs outputs s).

Definition write_rule (prebuild : option text) (rule : gyp_rule) (s : steps) : result steps :=
  let rule_ := rule_name rule ++ "_"%char :: md5 (qualified_target w) in
  match rule_action rule, rule_sources rule with
  | None, [] => Ok s
  | None, _ => Err (KeyError "action")
  | Some args, sources =>
      let '(stmts, rule_name, args) :=
        WriteNewNinjaRule rule_ args (GenerateDescription (chars "RULE") (rule_message rule) (rule_ ++ chars " ${source}")) in
      for_each sources (add_step stmts [] [] s) (write_rule_source prebuild rule rule_name args)
  end.

Definition WriteRules (prebuild : option text) (rules : list gyp_rule) (s : steps) : result steps :=
  for_each rules s (write_rule prebuild).

Definition write_copy (prebuild : option text) (destination p : text) (s : steps) : result steps :=
  let p := p_normpath p in
  src ← GypPathToNinja p;
  dst ← GypPathToNinja (p_join destination (p_basename p));
  Ok (add_step [Build {| outs := [dst]; command := chars "copy"; ins := [src]; implicit := []; order_only := optional_list prebuild; bindings := [] |}]
        [] [dst] s).

Definition WriteCopies (prebuild : option text) (copies : list gyp_copy) (s : steps) : result steps :=
  for_each copies s (λ copy s, for_each (copy_files copy) s (write_copy prebuild (copy_destination copy))).

Definition optionally {A} (o : option A) (f : A → steps → result steps) (s : steps) : result steps :=
  match o with Some x => f x s | None => Ok s end.

(** The steps, and the path that stands for their outputs. *)
Definition WriteActionsRulesCopies (sp : spec) (prebuild : option text) : result (steps * option text) :=
  s ← optionally (spec_actions sp) (WriteActions prebuild) {| fp := []; extra_sources := []; all_outputs := [] |};
  s ← optionally (spec_rules sp) (WriteRules prebuild) s;
  s ← optionally (spec_copies sp) (WriteCopies prebuild) s;
  '(stmts, stamp) ← WriteCollapsedDependencies (chars "actions_rules_copies") (all_outputs s);
  Ok (add_step stmts [] [] s, stamp).

(** ** Sources *)

(** [s.split()] *)
Fixpoint split_spaces (word s : text) : list text :=
  let last := if word ==? [] then [] else [word] in
  match s with
  | [] => last
  | c :: r => if Ascii.is_space c then last ++ split_spaces [] r else split_spaces (word ++ [c]) r
  end.
(** [os.environ.get(var, '').split()] *)
Definition environ_flags (var : string) : list text := split_spaces [] (default [] (dict_get (environ w) (chars var))).

(** [WriteVariableList(var, values)] *)
Definition WriteVariableList (var : text) (values : list text) : statement := Bind var (words values).

(** The command that compiles a file with an extension, and whether it is C++. *)
Definition compiler (ext : text) : option (text * bool) :=
  if ext in? [chars ".cc"; chars ".cpp"; chars ".cxx"] then Some (chars "cxx", true)
  else if ext in? [chars ".c"; chars ".S"] then Some (chars "cc", false)
  else if ext ==? chars ".s" then Some (chars "cc_s", false)
  else None.

Definition obj_ext : text := chars ".o".

(** One source: the statements, the outputs and [uses_cpp]; other extensions are passed over. *)
Definition write_source (predepends : option text) (source : text) (st : list statement * list text * bool) :
    result (list statement * list text * bool) :=
  let '(stmts, outputs, uses_cpp) := st in
  let '(filename, ext) := p_splitext source in
  match compiler ext with
  | None => Ok st
  | Some (cmd, cpp) =>
      input ← GypPathToNinja source;
      output ← GypPathToUniqueOutput (filename ++ obj_ext) true;
      Ok (stmts ++ [Build {| outs := [output]; command := cmd; ins := [input]; implicit := [];
                             order_only := optional_list predepends; bindings := [] |}],
          outputs ++ [output], uses_cpp || cpp)
  end.

Definition host_variables : list statement :=
  if toolset w ==? chars "host"
  then [Bind (chars "ar") (chars "$ar_host"); Bind (chars "cc") (chars "$cc_host"); Bind (chars "cxx") (chars "$cxx_host");
        Bind (chars "ld") (chars "$ld_host"); Bind (chars "ldxx") (chars "$ldxx_host")]
  else [].

(** [WriteSources], with [WriteSourcesForArch]. *)
Definition WriteSources (c : config) (srcs : list text) (predepends : option text) : result (list statement * list text * bool) :=
  let env vars := if toolset w ==? chars "target" then concat (environ_flags <$> vars) else [] in
  let expand := fmap (λ f, ExpandSpecial f None) in
  defs ← map_result (λ d, Define d (flavor w)) (defines c);
  includes ← map_result GypPathToNinja (include_dirs c);
  '(stmts, outputs, uses_cpp) ← for_each srcs ([], [], false) (write_source predepends);
  Ok (host_variables
      ++ [WriteVariableList (chars "defines") defs;
          WriteVariableList (chars "includes") ((λ i, QuoteShellArgument (chars "-I" ++ i) (flavor w)) <$> includes);
          WriteVariableList (chars "cflags") (expand (cflags c));
          WriteVariableList (chars "cflags_c") (expand (env ["CPPFLAGS"; "CFLAGS"] ++ cflags_c c));
          WriteVariableList (chars "cflags_cc") (expand (env ["CPPFLAGS"; "CXXFLAGS"] ++ cflags_cc c)); Newline]
      ++ stmts ++ [Newline], outputs, uses_cpp).

(** ** Outputs *)

(** The variables of [CalculateVariables] that name files; the ones for executables are empty. *)
Definition shared_lib_suffix : text := chars ".so".
Definition default_prefix (ty : string) : text :=
  if ty in? ["loadable_module"; "shared_library"; "static_library"] then chars "lib" else [].
Definition default_extension (ty : string) : text :=
  if ty in? ["loadable_module"; "shared_library"] then shared_lib_suffix
  else if ty ==? "static_library" then chars ".a" else [].

Definition StripPrefix (arg prefix : text) : text := if lstarts prefix arg then drop (length prefix) arg else arg.

Definition ComputeOutputFileName (sp : spec) (ty : string) : result text :=
  let prefix := default (default_prefix ty) (product_prefix sp) in
  let extension := match truthy (product_extension sp) with Some e => "."%char :: e | None => default_extension ty end in
  let target := match product_name sp with
                | Some n => n
                | None => if prefix ==? chars "lib" then StripPrefix (target_name sp) (chars "lib") else target_name sp
                end in
  if ty in? ["static_library"; "loadable_module"; "shared_library"; "executable"] then Ok (prefix ++ target ++ extension)
  else if ty ==? "none" then Ok (target ++ chars ".stamp")
  else Err (RuntimeError "Unhandled output type").

Definition ComputeOutput (sp : spec) : result text :=
  filename ← ComputeOutputFileName sp (type sp);
  match product_dir sp with
  | Some dir => Ok (ExpandSpecial (p_join dir filename) None)
  | None =>
      if (type sp in? ["executable"; "loadable_module"]) || standalone_static_library sp then Ok filename
      else if type sp ==? "shared_library"
           then Ok (p_join (if toolset w ==? chars "target" then chars "lib" else p_join (chars "lib") (toolset w)) filename)
      else GypPathToUniqueOutput filename false
  end.

(** ** Linking *)

(** The files a link waits for: inputs, the sets of shared libraries and of implicit dependencies. *)
Record linking := { link_inputs : list text; extra_link_deps : list text; solibs : list text; implicit_deps : list text }.

(** [new_deps = [target.binary]]; a target that can be linked against has a binary. *)
Definition add_link_input (dep : text) (l : linking) : linking :=
  if dep in? extra_link_deps l then l
  else {| link_inputs := link_inputs l ++ [dep]; extra_link_deps := set_add dep (extra_link_deps l);
          solibs := solibs l; implicit_deps := implicit_deps l |}.
Definition add_solib (lib : text) (l : linking) : linking :=
  {| link_inputs := link_inputs l; extra_link_deps := extra_link_deps l; solibs := set_add lib (solibs l);
     implicit_deps := set_add (toc lib) (implicit_deps l) |}.
Definition add_implicit (path : text) (l : linking) : linking :=
  {| link_inputs := link_inputs l; extra_link_deps := extra_link_deps l; solibs := solibs l;
     implicit_deps := set_add path (implicit_deps l) |}.

(** A path that is [None] stops the run when it is written. *)
Definition path_of (o : option text) : result text :=
  match o with Some p => Ok p | None => Err (AttributeError "replace") end.

Definition link_dependency (target_outputs : list (string * Target)) (dep : string) (l : linking) : result linking :=
  match dict_get target_outputs dep with
  | None => Ok l
  | Some t =>
      l ← (if Linkable t then
             lib ← path_of (binary t);
             Ok (if UsesToc t then add_solib lib l else add_link_input lib l)
           else Ok l);
      if negb (Linkable t) || negb (FinalOutput t ==? binary t) then
        final ← path_of (FinalOutput t); Ok (add_implicit final l)
      else Ok l
  end.

Definition link_command (ty : string) : result text :=
  if ty ==? "executable" then Ok (chars "link")
  else if ty ==? "loadable_module" then Ok (chars "solink_module")
  else if ty ==? "shared_library" then Ok (chars "solink")
  else Err (KeyError ty).

(** [WriteLink], with [WriteLinkForArch]: the statements and the linked binary. *)
Definition WriteLink (target_outputs : list (string * Target)) (sp : spec) (c : config) (link_deps : list text) (uses_cpp : bool) :
    result (list statement * text) :=
  cmd ← link_command (type sp);
  l ← for_each (dependencies sp) {| link_inputs := link_deps; extra_link_deps := []; solibs := []; implicit_deps := [] |}
        (link_dependency target_outputs);
  output ← ComputeOutput sp;
  let rpath := chars "lib/" ++ (if toolset w ==? chars "target" then [] else toolset w) in
  let flags := environ_flags "LDFLAGS" ++ ldflags c
               ++ (if (type sp ==? "executable") && negb (solibs l ==? [])
                   then [chars "-Wl,-rpath=\$$ORIGIN/" ++ rpath; chars "-Wl,-rpath-link=" ++ rpath] else []) in
  dirs ← map_result GypPathToNinja (library_dirs c);
  let libs := uniquer of_chars ((λ l, ExpandSpecial l None) <$> libraries sp) in
  let is_shared := type sp in? ["loadable_module"; "shared_library"] in
  Ok ([WriteVariableList (chars "ldflags") (uniquer of_chars ((λ f, ExpandSpecial f None) <$> flags));
       WriteVariableList (chars "libs") (((λ d, QuoteShellArgument (chars "-L" ++ d) (flavor w)) <$> dirs) ++ libs);
       Build {| outs := if is_shared then [output; toc output] else [output]; command := cmd; ins := link_inputs l;
                implicit := set_order (implicit_deps l); order_only := [];
                bindings := (if uses_cpp then [(chars "ld", chars "$ldxx")] else [])
                  ++ (if is_shared then [(chars "soname", p_basename output); (chars "lib", EncodePOSIXShellArgument output)] else [])
                  ++ (if solibs l ==? [] then [] else [(chars "solibs", EncodePOSIXShellList (set_order (solibs l)))]) |}],
      output).

(** ** The final step *)

Definition with_binary (ty : string) (b : option text) (t : Target) : Target :=
  {| ttype := ty; preaction_stamp := preaction_stamp t; precompile_stamp := precompile_stamp t;
     actions_stamp := actions_stamp t; binary := b |}.

(** [WriteTarget(spec, config_name, config, link_deps, compile_deps)]: the statements and the target with its binary. *)
Definition WriteTarget (target_outputs : list (string * Target)) (sp : spec) (c : config) (link_deps : list text)
    (compile_deps : option text) (uses_cpp : bool) (t : Target) : result (list statement * Target) :=
  let extra := existsb (λ dep, match dict_get target_outputs dep with Some d => Linkable d | None => false end) (dependencies sp) in
  if (type sp ==? "none") || ((link_deps ==? []) && negb extra) then Ok ([], with_binary "none" compile_deps t)
  else if type sp ==? "static_library" then
    output ← ComputeOutput sp;
    let thin := negb (flavor w in? ["mac"; "openbsd"; "win"]) && negb (standalone_static_library sp) in
    Ok ([Build {| outs := [output]; command := if thin then chars "alink_thin" else chars "alink"; ins := link_deps; implicit := [];
                  order_only := optional_list compile_deps; bindings := [] |}], with_binary (ttype t) (Some output) t)
  else
    '(stmts, output) ← WriteLink target_outputs sp c link_deps uses_cpp;
    Ok (stmts, with_binary (ttype t) (Some output) t).

(** ** The file of a target *)

(** What [WriteSpec] writes and returns, with two of its variables: the outputs of the actions, rules and copies, and
    the objects. *)
Record written := { stmts : list statement; result_target : option Target; step_outputs : list text; objects : list text }.

(** The paths of the dependencies that a step waits for. *)
Definition dependency_paths (target_outputs : list (string * Target)) (path : Target → result (option text)) (deps : list string) :
    result (list text) :=
  paths ← map_result path (omap (M:=list) (dict_get target_outputs) deps);
  Ok (omap (M:=list) truthy paths).

Definition write_compiles (sp : spec) (c : config) (srcs : list text) (stamp : option text) : result (list statement * list text * bool * list text) :=
  if srcs ==? [] then Ok ([], [], false, []) else
    '(compile, objs, uses_cpp) ← WriteSources c srcs stamp;
    obj_outputs ← map_result GypPathToNinja (filter (λ f, ends_with obj_ext f = true) srcs);
    Ok (compile, objs, uses_cpp, objs ++ obj_outputs).

(** [WriteSpec(spec, config_name, generator_flags)] *)
Definition WriteSpec (target_outputs : list (string * Target)) (sp : spec) : result written :=
  match dict_get (configurations sp) (of_chars (config_name w)) with
  | None => Err (KeyError (of_chars (config_name w)))
  | Some c =>
      actions_paths ← dependency_paths target_outputs PreActionInput (dependencies sp);
      compile_paths ← dependency_paths target_outputs (λ t, Ok (PreCompileInput t)) (dependencies sp);
      '(before_actions, actions_depends) ← WriteCollapsedDependencies (chars "actions_depends") actions_paths;
      '(before_compiles, compile_depends) ← WriteCollapsedDependencies (chars "compile_depends") compile_paths;
      '(s, actions_stamp) ← WriteActionsRulesCopies sp actions_depends;
      let t := {| ttype := type sp; preaction_stamp := actions_depends; precompile_stamp := compile_depends;
                  actions_stamp := actions_stamp; binary := None |} in
      let srcs := extra_sources s ++ sources sp in
      '(compile, objs, uses_cpp, link_deps) ← write_compiles sp c srcs (py_or actions_stamp compile_depends);
      let compile_deps := py_or actions_stamp actions_depends in
      '(final, t) ← (if negb (link_deps ==? []) || bool_decide (is_Some (truthy compile_deps))
                     then WriteTarget target_outputs sp c link_deps compile_deps uses_cpp t else Ok ([], t));
      let file := before_actions ++ before_compiles ++ fp s ++ compile ++ final in
      match truthy (binary t) with
      | None => Ok {| stmts := file; result_target := None; step_outputs := all_outputs s; objects := objs |}
      | Some _ =>
          _ ← assert (bool_decide (is_Some (truthy (FinalOutput t))));
          Ok {| stmts := file; result_target := Some t; step_outputs := all_outputs s; objects := objs |}
      end
  end.
End writer.

(** ** All targets *)
Section generate.
Context `{SetOrder} `{RealPath} (md5 : text → text).

(** The options, the directory of the build and the configuration, and the environment. *)
Record options := { toplevel_dir : text; build_dir : text; gen_flavor : string; gen_config : text; gen_environ : list (text * text) }.
Variable opts : options.

(** [NinjaWriter.__init__] and the first assignments of [WriteSpec]. *)
Definition writer_of (qualified : string) (base : text) (sp : spec) : writer :=
  {| qualified_target := chars qualified; base_dir := base;
     build_to_base := p_join (InvertRelativePath (build_dir opts) (Some (toplevel_dir opts))) base;
     base_to_build := p_join (InvertRelativePath base (Some (toplevel_dir opts))) (build_dir opts);
     flavor := gen_flavor opts; config_name := gen_config opts; name := target_name sp; toolset := spec_toolset sp;
     environ := gen_environ opts |}.

(** What the loop changes: what was written for each target with the name of its file, and the dictionaries
    [target_outputs] and [target_short_names] and the set [all_outputs]. *)
Record generated := {
  targets : list (string * (text * written)); target_outputs : list (string * Target);
  target_short_names : list (text * list Target); final_outputs : list text
}.

Definition no_targets : generated := {| targets := []; target_outputs := []; target_short_names := []; final_outputs := [] |}.

Definition generate_target (target_dicts : list (string * spec)) (all_targets : list string) (qualified : string) (g : generated) :
    result generated :=
  let '(build_file, short, ts) := ParseQualifiedTarget qualified in
  match dict_get target_dicts qualified with
  | None => Err (KeyError qualified)
  | Some sp =>
      let build_file := RelativePath (chars (default "" build_file)) (toplevel_dir opts) in
      let base_path := p_dirname build_file in
      let ts := chars (default "" ts) in
      let obj := if ts ==? chars "target" then chars "obj" else chars "obj." ++ ts in
      let output_file := p_join_list obj [base_path; chars short ++ chars ".ninja"] in
      wr ← WriteSpec md5 (writer_of qualified base_path sp) (target_outputs g) sp;
      let g' := {| targets := targets g ++ [(qualified, (output_file, wr))]; target_outputs := target_outputs g;
                   target_short_names := target_short_names g; final_outputs := final_outputs g |} in
      match result_target wr with
      | None => Ok g'
      | Some t =>
          Ok {| targets := targets g';
                target_outputs := dict_set (target_outputs g) qualified t;
                target_short_names :=
                  if negb (Some (chars short) ==? FinalOutput t) && (spec_toolset sp ==? chars "target")
                  then dict_set (target_short_names g) (chars short) (default [] (dict_get (target_short_names g) (chars short)) ++ [t])
                  else target_short_names g;
                final_outputs := if qualified in? all_targets then foldr set_add (final_outputs g) (option_list (FinalOutput t)) else final_outputs g |}
      end
  end.

Definition generate_targets (target_dicts : list (string * spec)) (all_targets target_list : list string) : result generated :=
  for_each target_list no_targets (generate_target target_dicts all_targets).
End generate.

(** * Theorems *)

(** ** The order of the edges *)

(** [o] is made after [d]. *)
Definition needs (f : list statement) (o d : text) : Prop :=
  ∃ e, Build e ∈ f ∧ o ∈ outs e ∧ d ∈ ins e ++ implicit e ++ order_only e.
Definition after (f : list statement) : text → text → Prop := rtc (needs f).
#[local] Instance after_preorder f : PreOrder (after f).
Proof. apply _. Qed.

Lemma after_incl f f' o d : f ⊆ f' → after f o d → after f' o d.
Proof. intros Hf. apply rtc_subrel. intros x y (e & He & H1). exists e. by split; [apply Hf|]. Qed.

Lemma edge_after e f o d : Build e ∈ f → o ∈ outs e → d ∈ ins e ++ implicit e ++ order_only e → after f o d.
Proof. intros He Ho Hd. apply rtc_once. by exists e. Qed.

Lemma optional_list_elem o p : p ∈ optional_list o ↔ truthy o = Some p.
Proof.
  unfold optional_list. destruct (truthy o) as [q|]; [|by rewrite elem_of_nil].
  rewrite list_elem_of_singleton. naive_solver.
Qed.

Lemma py_or_truthy a b : truthy (py_or a b) = match truthy a with Some p => Some p | None => truthy b end.
Proof. by destruct a as [[|c p]|]. Qed.

Lemma truthy_Some o p : truthy o = Some p → o = Some p.
Proof. destruct o as [[|c q]|]; naive_solver. Qed.

Section writer_theorems.
Context `{SetOrder} (md5 : text → text) (w : writer).

Lemma unique_path_not_empty p qualified : unique_path w p qualified ≠ [].
Proof. unfold unique_path. destruct (p_split p). unfold p_normpath. repeat case_bool_decide; done. Qed.

(** What stands for several paths is made after each of them. *)
Lemma WriteCollapsedDependencies_Ok stamp_name paths l r :
  WriteCollapsedDependencies w stamp_name paths = Ok (l, r) →
  (paths = [] ↔ r = None) ∧ truthy r = r ∧ ∀ s p, r = Some s → p ∈ paths → after l s p.
Proof.
  unfold WriteCollapsedDependencies. intros (u & Hu & H1)%bind_Ok. unfold assert, raise_if in Hu.
  destruct (bool_decide_reflect ([] ∈ paths)) as [|Hne]; [done|]. destruct paths as [|p1 [|p2 paths]].
  - injection H1 as <- <-. split_and!; [done|done|]. by intros s p ? ?%elem_of_nil.
  - injection H1 as <- <-. split_and!; [done| |by intros s p [= <-] ->%list_elem_of_singleton].
    destruct p1; [|done]. destruct Hne. by left.
  - apply bind_Ok in H1 as (stamp & Hstamp & H1). injection H1 as <- <-. split_and!; [done| |].
    + unfold GypPathToUniqueOutput in Hstamp. apply bind_Ok in Hstamp as (_ & _ & Hstamp). apply Ok_inj in Hstamp as <-.
      destruct (unique_path _ _ _) eqn:Hp; [|done]. by apply unique_path_not_empty in Hp.
    + intros s p [= <-] Hp. eapply edge_after; [by left|by left|]. cbn [ins stamp_edge]. apply elem_of_app. by left.
Qed.

(** What is made after everything in [D] through one of the paths, is so through what stands for the paths. *)
Lemma collapsed_stands_for stamp_name paths l r f (D : text → Prop) :
  WriteCollapsedDependencies w stamp_name paths = Ok (l, r) → l ⊆ f →
  (∀ a, D a → ∃ p, p ∈ paths ∧ after f p a) → ∀ a, D a → ∃ p, truthy r = Some p ∧ after f p a.
Proof.
  intros (Hnone & Htruthy & Hafter)%WriteCollapsedDependencies_Ok Hl Hpaths a Ha. destruct (Hpaths a Ha) as (p & Hp & Hpa).
  destruct r as [x|]; [|by rewrite (proj2 Hnone eq_refl), elem_of_nil in Hp].
  exists x. split; [done|]. etrans; [|exact Hpa]. eapply after_incl; [exact Hl|]. by apply Hafter.
Qed.

(** ** Actions, rules and copies *)

(** Steps only add, and what they make waits for what is to be built before. *)
Definition waits (prebuild : option text) (s : steps) : Prop :=
  ∀ o p, o ∈ all_outputs s → truthy prebuild = Some p → after (fp s) o p.

Lemma waits_step prebuild s pre e post srcs :
  order_only e = optional_list prebuild → waits prebuild s →
  waits prebuild (add_step (pre ++ [Build e] ++ post) srcs (outs e) s).
Proof.
  intros He Hs o p [Ho|Ho]%elem_of_app Hp; cbn [fp add_step].
  - eapply after_incl, Hs; [|done|done]. intros x ?. apply elem_of_app. by left.
  - eapply edge_after; [rewrite !elem_of_app; right; right; left; by left|done|].
    rewrite !elem_of_app, He. right. right. by apply optional_list_elem.
Qed.

Lemma waits_silent prebuild s l srcs : waits prebuild s → waits prebuild (add_step l srcs [] s).
Proof.
  intros Hs o p Ho Hp. cbn in *. rewrite app_nil_r in Ho. eapply after_incl, Hs; [|done|done].
  intros x ?. apply elem_of_app. by left.
Qed.

Lemma write_action_waits prebuild a s s' : write_action md5 w prebuild a s = Ok s' → waits prebuild s → waits prebuild s'.
Proof.
  unfold write_action. destruct (WriteNewNinjaRule _ _ _ _) as [[l rule_name] args]. intros H1 Hs.
  apply bind_Ok in H1 as (inputs & _ & H1). apply bind_Ok in H1 as (outputs & _ & H1). apply Ok_inj in H1 as <-.
  refine (waits_step prebuild s l _ [Newline] _ _ Hs). done.
Qed.

Lemma write_rule_source_waits prebuild r rule_name args source s s' :
  write_rule_source md5 w prebuild r rule_name args source s = Ok s' → waits prebuild s → waits prebuild s'.
Proof.
  unfold write_rule_source. destruct (p_split _) as [dirname basename], (p_splitext basename) as [root ext]. intros H1 Hs.
  apply bind_Ok in H1 as (inputs & _ & H1). apply bind_Ok in H1 as (outputs & _ & H1). apply bind_Ok in H1 as (first & _ & H1).
  apply bind_Ok in H1 as (input & _ & H1). apply Ok_inj in H1 as <-.
  refine (waits_step prebuild s [] _ [] _ _ Hs). done.
Qed.

Lemma write_rule_waits prebuild r s s' : write_rule md5 w prebuild r s = Ok s' → waits prebuild s → waits prebuild s'.
Proof.
  unfold write_rule. intros H1 Hs.
  destruct (rule_action r) as [args|]; [|by destruct (rule_sources r); [injection H1 as <-|]].
  destruct (WriteNewNinjaRule _ _ _ _) as [[l rule_name] args']. eapply for_each_inv; [| |exact H1]; [by apply waits_silent|].
  intros source s1 s2 _ Hs1 Hrun. by eapply write_rule_source_waits.
Qed.

Lemma write_copy_waits prebuild destination p s s' :
  write_copy w prebuild destination p s = Ok s' → waits prebuild s → waits prebuild s'.
Proof.
  unfold write_copy. intros H1 Hs. apply bind_Ok in H1 as (src & _ & H1). apply bind_Ok in H1 as (dst & _ & H1).
  apply Ok_inj in H1 as <-. refine (waits_step prebuild s [] _ [] _ _ Hs). done.
Qed.

Lemma optionally_inv {A} (P : steps → Prop) (o : option A) f s s' :
  (∀ x s1 s2, f x s1 = Ok s2 → P s1 → P s2) → optionally o f s = Ok s' → P s → P s'.
Proof. destruct o as [x|]; cbn; [eauto|]. by intros _ [= <-]. Qed.

(** The steps wait for what is to be built before, and what stands for them for all of them. *)
Lemma WriteActionsRulesCopies_Ok sp prebuild s stamp :
  WriteActionsRulesCopies md5 w sp prebuild = Ok (s, stamp) →
  waits prebuild s ∧ (all_outputs s = [] ↔ stamp = None) ∧ truthy stamp = stamp
  ∧ ∀ x a, stamp = Some x → a ∈ all_outputs s → after (fp s) x a.
Proof.
  unfold WriteActionsRulesCopies. intros H1. apply bind_Ok in H1 as (s1 & H2 & H1). apply bind_Ok in H1 as (s2 & H3 & H1).
  apply bind_Ok in H1 as (s3 & H4 & H1). apply bind_Ok in H1 as ([l st] & H5 & H1). apply Ok_inj in H1. injection H1 as <- <-.
  assert (Hw : waits prebuild s3).
  { eapply optionally_inv, optionally_inv, optionally_inv; [|exact H4| |exact H3| |exact H2|].
    - intros copies sa sb Hc Hs. eapply for_each_inv; [exact Hs| |exact Hc]. intros c sc sd _ Hsc Hrun.
      eapply for_each_inv; [exact Hsc| |exact Hrun]. intros p se sf _ Hse Hp. by eapply write_copy_waits.
    - intros rules sa sb Hc Hs. eapply for_each_inv; [exact Hs| |exact Hc]. intros r sc sd _ Hsc Hrun. by eapply write_rule_waits.
    - intros acts sa sb Hc Hs. eapply for_each_inv; [exact Hs| |exact Hc]. intros a sc sd _ Hsc Hrun. by eapply write_action_waits.
    - by intros o p ?%elem_of_nil. }
  apply WriteCollapsedDependencies_Ok in H5 as (Hnone & Htruthy & Hafter). cbn [all_outputs add_step]. rewrite app_nil_r.
  split_and!; [by apply waits_silent|done|done|]. intros x a Hx Ha. eapply after_incl, Hafter; [|done|done].
  intros y ?. apply elem_of_app. by right.
Qed.

(** Likewise for the steps: what stands for them is made after their outputs and after what was to be built before. *)
Lemma steps_stand_for sp prebuild s stamp other f (D : text → Prop) :
  WriteActionsRulesCopies md5 w sp prebuild = Ok (s, stamp) → fp s ⊆ f →
  (∀ a, D a → ∃ p, truthy prebuild = Some p ∧ after f p a) → (∀ a, D a → ∃ p, truthy other = Some p ∧ after f p a) →
  ∀ a, a ∈ all_outputs s ∨ D a → ∃ p, truthy (py_or stamp other) = Some p ∧ after f p a.
Proof.
  intros (Hwaits & Hnone & Htruthy & Hafter)%WriteActionsRulesCopies_Ok Hf Hpre Hother a Ha. rewrite py_or_truthy, Htruthy.
  destruct stamp as [x|]; [|rewrite (proj2 Hnone eq_refl), elem_of_nil in Ha; destruct Ha as [[]|Ha]; by apply Hother].
  exists x. split; [done|]. destruct Ha as [Ha|Ha]; [eapply after_incl; [exact Hf|by apply Hafter]|].
  assert (∃ o, o ∈ all_outputs s) as [o Ho].
  { destruct (all_outputs s) as [|o os]; [by discriminate (proj1 Hnone eq_refl)|]. exists o. by left. }
  destruct (Hpre a Ha) as (p & Hp & Hpa). etrans; [|exact Hpa]. eapply after_incl; [exact Hf|].
  trans o; [by apply Hafter|by apply Hwaits].
Qed.

(** ** Sources *)

Lemma write_sources_wait predepends srcs st st' :
  for_each srcs st (write_source w predepends) = Ok st' →
  (∀ o p, o ∈ st.1.2 → truthy predepends = Some p → after st.1.1 o p) →
  ∀ o p, o ∈ st'.1.2 → truthy predepends = Some p → after st'.1.1 o p.
Proof.
  intros Hrun Hst.
  refine (for_each_inv (λ st, ∀ o p, o ∈ st.1.2 → truthy predepends = Some p → after st.1.1 o p) _ _ _ _ Hst _ Hrun). clear st st' Hst Hrun.
  intros source [[l outputs] cpp] [[l' outputs'] cpp'] _ Hst Hrun o p Ho Hp. cbn [fst snd] in *. unfold write_source in Hrun.
  destruct (p_splitext source) as [filename ext]. destruct (compiler ext) as [[cmd is_cpp]|]; [|injection Hrun as <- <- <-; eauto].
  apply bind_Ok in Hrun as (input & _ & Hrun). apply bind_Ok in Hrun as (output & _ & Hrun). injection Hrun as <- <- <-.
  apply elem_of_app in Ho as [Ho|Ho].
  - eapply after_incl, Hst; [|done|done]. intros x ?. apply elem_of_app. by left.
  - eapply edge_after; [apply elem_of_app; right; by left|exact Ho|]. rewrite !elem_of_app. right. right. by apply optional_list_elem.
Qed.

Lemma write_compiles_Ok sp c srcs stamp l objs cpp link_deps :
  write_compiles w sp c srcs stamp = Ok (l, objs, cpp, link_deps) →
  objs ⊆ link_deps ∧ ∀ o p, o ∈ objs → truthy stamp = Some p → after l o p.
Proof.
  unfold write_compiles. case_bool_decide; [intros [= <- <- <- <-]; split; [done|]; by intros o p ?%elem_of_nil|].
  intros H1. apply bind_Ok in H1 as ([[compile objs'] cpp'] & H2 & H1). apply bind_Ok in H1 as (obj_outputs & _ & H1).
  injection H1 as <- <- <- <-. split; [intros x ?; apply elem_of_app; by left|].
  unfold WriteSources in H2. apply bind_Ok in H2 as (defs & _ & H2). apply bind_Ok in H2 as (includes & _ & H2).
  apply bind_Ok in H2 as ([[sl so] sc] & Hloop & H2). apply Ok_inj in H2. injection H2 as <- <- <-.
  intros o p Ho Hp. eapply (after_incl sl); [intros x ?; repeat (rewrite elem_of_app || rewrite elem_of_cons); tauto|].
  eapply (write_sources_wait _ _ _ _ Hloop); [by intros ?? ?%elem_of_nil|done|done].
Qed.

(** ** The final step *)

(** The paths by which other targets know a target. *)
Definition known_by (t : Target) (b x : text) : Prop := x = b ∨ (UsesToc t = true ∧ x = toc b).

Definition link_has (l : linking) (x : text) : Prop := x ∈ link_inputs l ∨ x ∈ implicit_deps l.
Definition linking_ok (l : linking) : Prop := extra_link_deps l ⊆ link_inputs l.
Definition links (targets : list (string * Target)) (dep : string) (l : linking) : Prop :=
  ∀ t b, dict_get targets dep = Some t → truthy (binary t) = Some b → ∃ x, known_by t b x ∧ link_has l x.

Lemma add_link_input_Ok lib l :
  linking_ok l → linking_ok (add_link_input lib l) ∧ (∀ x, link_has l x → link_has (add_link_input lib l) x)
  ∧ lib ∈ link_inputs (add_link_input lib l).
Proof.
  intros Hok. unfold add_link_input. destruct (bool_decide_reflect (lib ∈ extra_link_deps l)) as [Hin|Hin].
  { split_and!; [done|done|by apply Hok]. }
  unfold link_has, linking_ok in *. cbn. split_and!.
  - intros x. rewrite elem_of_set_add, elem_of_app. intros [->|Hx]; [right; by left|left; by apply Hok].
  - intros x [?|?]; [|by right]. left. apply elem_of_app. by left.
  - apply elem_of_app. right. by left.
Qed.

Lemma link_dependency_Ok targets dep l l' :
  link_dependency targets dep l = Ok l' → linking_ok l →
  linking_ok l' ∧ (∀ x, link_has l x → link_has l' x) ∧ links targets dep l'.
Proof.
  unfold link_dependency, links. destruct (dict_get targets dep) as [t|]; [|by intros [= <-]].
  intros H1 Hok. apply bind_Ok in H1 as (l1 & H2 & H1).
  assert (Hadd : ∀ x l, link_has (add_implicit x l) x ∧ (∀ y, link_has l y → link_has (add_implicit x l) y)
      ∧ (linking_ok l → linking_ok (add_implicit x l))).
  { intros x l0. unfold link_has. cbn. split_and!; [right; rewrite elem_of_set_add; by left| |done].
    intros y [?|?]; [by left|]. right. rewrite elem_of_set_add. by right. }
  assert (Hl1 : linking_ok l1 ∧ (∀ x, link_has l x → link_has l1 x)
      ∧ (Linkable t = true → ∀ b, truthy (binary t) = Some b → ∃ x, known_by t b x ∧ link_has l1 x)).
  { destruct (Linkable t) eqn:Hlink; [|injection H2 as <-; by split_and!].
    apply bind_Ok in H2 as (lib & Hbin & H2). injection H2 as <-.
    assert (binary t = Some lib) as Hb by (destruct (binary t); [by injection Hbin as ->|done]).
    assert (Hlibs : ∀ b, truthy (binary t) = Some b → b = lib) by (intros b ?%truthy_Some; congruence).
    destruct (UsesToc t) eqn:Htoc.
    - unfold link_has, linking_ok in *. cbn. split_and!; [done| |].
      + intros x [?|?]; [by left|]. right. rewrite elem_of_set_add. by right.
      + intros _ b ->%Hlibs. exists (toc lib). split; [by right|]. right. rewrite elem_of_set_add. by left.
    - destruct (add_link_input_Ok lib l Hok) as (Hok1 & Hmono & Hlib). split_and!; [done|auto|].
      intros _ b ->%Hlibs. exists lib. split; [by left|]. by left. }
  destruct Hl1 as (Hok1 & Hmono & Hlinkable).
  destruct (negb (Linkable t) || negb (FinalOutput t ==? binary t)) eqn:Hfin.
  - apply bind_Ok in H1 as (final & Hfinal & H1). injection H1 as <-. destruct (Hadd final l1) as (Hhas & Hadd1 & Hadd2).
    split_and!; [auto|auto|]. intros t' b [= <-] Hb. exists final. split; [|done]. left.
    unfold FinalOutput in Hfinal. destruct (binary t) as [[|c bt]|]; try done. injection Hb as <-. by injection Hfinal as <-.
  - injection H1 as <-. split_and!; [done|done|]. apply orb_false_iff in Hfin as [Hlink _]. apply negb_false_iff in Hlink.
    intros t' b [= <-] Hb. by apply Hlinkable.
Qed.

Lemma link_dependencies_Ok targets deps l l' :
  for_each deps l (link_dependency targets) = Ok l' → linking_ok l →
  (∀ x, link_has l x → link_has l' x) ∧ ∀ dep, dep ∈ deps → links targets dep l'.
Proof.
  revert l. induction deps as [|dep deps IH]; intros l Hrun Hok; cbn in Hrun.
  { injection Hrun as <-. split; [done|]. by intros dep ?%elem_of_nil. }
  apply bind_Ok in Hrun as (l1 & H1 & Hrun). apply link_dependency_Ok in H1 as (Hok1 & Hm1 & Hd); [|done].
  destruct (IH _ Hrun Hok1) as [Hm Hds]. split; [auto|]. intros d [->|Hin]%elem_of_cons; [|auto].
  intros t b Ht Hb. destruct (Hd t b Ht Hb) as (x & Hx & Hhas). exists x. split; [done|auto].
Qed.

(** The binary, and the table of contents of a shared one, wait for all inputs and for what the dependencies are known by. *)
Lemma WriteLink_Ok targets sp c link_deps cpp l output t :
  WriteLink w targets sp c link_deps cpp = Ok (l, output) → ttype t = type sp →
  ComputeOutput w sp = Ok output ∧ ∀ x, known_by t output x →
    (∀ d, d ∈ link_deps → needs l x d)
    ∧ ∀ dep t' b, dep ∈ dependencies sp → dict_get targets dep = Some t' → truthy (binary t') = Some b →
        ∃ y, known_by t' b y ∧ needs l x y.
Proof.
  unfold WriteLink. intros H1 Ht. apply bind_Ok in H1 as (cmd & _ & H1). apply bind_Ok in H1 as (lk & Hloop & H1).
  apply bind_Ok in H1 as (out & Hout & H1). apply bind_Ok in H1 as (dirs & _ & H1). apply Ok_inj in H1. injection H1 as Hl ->.
  split; [done|]. intros x Hx.
  apply link_dependencies_Ok in Hloop as [Hmono Hdeps]; [|by intros ? ?%elem_of_nil].
  assert (Hneeds : ∀ y, link_has lk y → needs l x y).
  { intros y Hy. rewrite <- Hl. eexists. split; [right; right; by left|]. cbn [outs ins implicit order_only]. split.
    - destruct Hx as [->|[Htoc ->]]; [by destruct (type sp in? _); left|].
      unfold UsesToc in Htoc. rewrite Ht in Htoc. apply bool_decide_eq_true in Htoc.
      rewrite bool_decide_eq_true_2; [right; by left|]. set_solver.
    - rewrite !elem_of_app. destruct Hy as [Hy|Hy]; [by left|]. right. left. by rewrite set_order_perm. }
  split.
  - intros d Hd. apply Hneeds, Hmono. by left.
  - intros dep t' b Hdep Ht' Hb. destruct (Hdeps dep Hdep t' b Ht' Hb) as (y & Hy & Hhas). exists y. split; [done|auto].
Qed.

(** The final step keeps the stamps; what it records waits for the stamp, or is the linked binary. *)
Lemma WriteTarget_Ok targets sp c link_deps stamp cpp t l t' :
  WriteTarget w targets sp c link_deps stamp cpp t = Ok (l, t') → ttype t = type sp →
  PreCompileInput t' = PreCompileInput t
  ∧ (truthy (binary t') = None → truthy stamp = None ∨ ComputeOutput w sp = Ok [])
  ∧ ∀ b x, truthy (binary t') = Some b → known_by t' b x →
      (∀ p, truthy stamp = Some p → after l x p)
      ∨ (type sp ∉ ["none"; "static_library"]) ∧ (∀ d, d ∈ link_deps → after l x d)
        ∧ ∀ dep t'' b', dep ∈ dependencies sp → dict_get targets dep = Some t'' → truthy (binary t'') = Some b' →
            ∃ y, known_by t'' b' y ∧ after l x y.
Proof.
  unfold WriteTarget. intros H1 Ht. destruct ((type sp ==? "none") || _) eqn:Hnone.
  { injection H1 as <- <-. split_and!; [done|by left|]. cbn. intros b x Hb [->|[Htoc _]]; [|done].
    left. intros p Hp. replace p with b by congruence. done. }
  apply orb_false_iff in Hnone as [Hnone _]. apply bool_decide_eq_false in Hnone.
  destruct (decide (type sp = "static_library")) as [Hst|Hst]; [rewrite bool_decide_eq_true_2 in H1 by done|rewrite bool_decide_eq_false_2 in H1 by done].
  - apply bind_Ok in H1 as (output & Hout & H1). injection H1 as <- <-. split_and!; [done| |].
    + cbn. destruct output; [|done]. by right.
    + cbn [binary with_binary]. intros b x Hb%truthy_Some [->|[Htoc _]]; [|by unfold UsesToc in Htoc; cbn in Htoc; rewrite Ht, Hst in Htoc].
      injection Hb as <-. left. intros p Hp. eapply edge_after; [by left|by left|]. rewrite !elem_of_app. right. right. by apply optional_list_elem.
  - apply bind_Ok in H1 as ([stmts output] & Hlink & H1). injection H1 as <- <-.
    apply (WriteLink_Ok _ _ _ _ _ _ _ (with_binary (ttype t) (Some output) t)) in Hlink as [Hout Hlink]; [|done].
    split_and!; [done| |].
    + cbn. destruct output; [|done]. by right.
    + cbn [binary with_binary]. intros b x Hb%truthy_Some Hx. injection Hb as <-. right. destruct (Hlink x Hx) as [Hdeps Htargets].
      split_and!; [|intros d Hd; by apply rtc_once, Hdeps|].
      * by intros [?|[?|?%elem_of_nil]%elem_of_cons]%elem_of_cons.
      * intros dep t'' b' Hdep Ht'' Hb'. destruct (Htargets dep t'' b' Hdep Ht'' Hb') as (y & Hy & Hn). exists y. split; [done|by apply rtc_once].
Qed.

(** ** One target *)

(** What is recorded for a target stands for the paths in [A]: what waits for the target waits for them. *)
Definition stands_for (f : list statement) (t : Target) (A : text → Prop) : Prop :=
  is_Some (truthy (binary t))
  ∧ (∀ b x a, truthy (binary t) = Some b → known_by t b x → A a → after f x a)
  ∧ ∀ a, A a → ∃ p, truthy (PreCompileInput t) = Some p ∧ after f p a.
Definition recorded (f : list statement) (o : option Target) (A : text → Prop) : Prop :=
  match o with Some t => stands_for f t A | None => ∀ a, ¬ A a end.

Lemma PreActionInput_known t b q : PreActionInput t = Ok q → truthy (binary t) = Some b → ∃ x, truthy q = Some x ∧ known_by t b x.
Proof.
  unfold PreActionInput, known_by, FinalOutput. intros H1 Hb. pose proof (truthy_Some _ _ Hb) as Hb'. rewrite Hb' in H1, Hb.
  destruct b as [|c b]; [done|]. cbn [py_or] in H1. destruct (UsesToc t); injection H1 as <-; eexists; (split; [done|auto]).
Qed.

Lemma dependency_paths_Ok targets path deps paths dep t q p :
  dependency_paths targets path deps = Ok paths → dep ∈ deps → dict_get targets dep = Some t → path t = Ok q → truthy q = Some p → p ∈ paths.
Proof.
  unfold dependency_paths. intros (l & Hl & H1)%bind_Ok Hdep Ht Hq Hp. injection H1 as <-. apply list_elem_of_omap. exists q.
  split; [|done]. assert (t ∈ omap (dict_get targets) deps) as Hin by (apply list_elem_of_omap; by exists dep).
  apply map_result_Ok in Hl. apply list_elem_of_lookup in Hin as [i Hi]. destruct (Forall2_lookup_l _ _ _ _ _ Hl Hi) as (y & Hy & H1).
  rewrite Hq in H1. apply Ok_inj in H1 as ->. by eapply list_elem_of_lookup_2.
Qed.

(** A binary that nothing but a linker makes waits for the steps of its target only through an object. *)
Definition complete (sp : spec) (wr : written) : Prop :=
  type sp ∈ ["none"; "static_library"] ∨ step_outputs wr = [] ∨ objects wr ≠ [].

(** The final step, for a target whose steps and dependencies the stamp stands for. *)
Lemma WriteTarget_recorded targets sp c link_deps objs stamp cpp t l t' f (A B D : text → Prop) :
  WriteTarget w targets sp c link_deps stamp cpp t = Ok (l, t') → ttype t = type sp → l ⊆ f →
  (∀ a, A a ↔ B a ∨ D a) →
  (∀ a, A a → ∃ p, truthy stamp = Some p ∧ after f p a) → (∀ a, A a → ∃ p, truthy (PreCompileInput t) = Some p ∧ after f p a) →
  (∀ a, D a → ∃ dep t'' b', dep ∈ dependencies sp ∧ dict_get targets dep = Some t'' ∧ truthy (binary t'') = Some b'
     ∧ ∀ y, known_by t'' b' y → after f y a) →
  (∀ o a, o ∈ objs → A a → after f o a) → objs ⊆ link_deps →
  type sp ∈ ["none"; "static_library"] ∨ (∀ a, ¬ B a) ∨ objs ≠ [] → ComputeOutput w sp ≠ Ok [] →
  match truthy (binary t') with Some _ => stands_for f t' A | None => ∀ a, ¬ A a end.
Proof.
  intros H1 Ht Hl HA Hstamp Hcompile HD Hobjs Hlink Hcomplete Hout.
  apply WriteTarget_Ok in H1 as (Hpre & Hnone & Hwaits); [|done].
  destruct (truthy (binary t')) as [b|] eqn:Hb.
  2:{ intros a (p & Hp & _)%Hstamp. destruct (Hnone eq_refl); [congruence|done]. }
  split_and!; [by eexists| |by rewrite Hpre]. intros b' x a Hb' Hx Ha.
  rewrite Hb in Hb'. destruct (Hwaits _ _ Hb' Hx) as [Hs|(Hty & Hd & Hdeps)].
  - destruct (Hstamp a Ha) as (p & Hp & Hpa). etrans; [|exact Hpa]. eapply after_incl; [exact Hl|by apply Hs].
  - destruct objs as [|o objs].
    + apply HA in Ha as [HBa|HDa]; [destruct Hcomplete as [?|[HB|?]]; [done|by destruct (HB a)|done]|].
      destruct (HD a HDa) as (dep & t'' & b'' & Hdep & Ht'' & Hb'' & Hafter).
      destruct (Hdeps _ _ _ Hdep Ht'' Hb'') as (y & Hy & Hxy). etrans; [|by apply Hafter]. by eapply after_incl.
    + trans o; [|apply Hobjs; [by left|done]]. eapply after_incl; [exact Hl|]. apply Hd, Hlink. by left.
Qed.

(** The steps of a target, and what its dependencies stand for. *)
Definition inherited (S : string → text → Prop) (sp : spec) (a : text) : Prop := ∃ dep, dep ∈ dependencies sp ∧ S dep a.
Definition prerequisite (S : string → text → Prop) (sp : spec) (wr : written) (a : text) : Prop :=
  a ∈ step_outputs wr ∨ inherited S sp a.

(** The path that a dependency with something to wait for has recorded. *)
Lemma inherited_recorded targets sp f (S : string → text → Prop) a :
  (∀ dep, dep ∈ dependencies sp → recorded f (dict_get targets dep) (S dep)) → inherited S sp a →
  ∃ dep t b, dep ∈ dependencies sp ∧ dict_get targets dep = Some t ∧ truthy (binary t) = Some b
    ∧ (∀ y, known_by t b y → after f y a) ∧ ∃ p, truthy (PreCompileInput t) = Some p ∧ after f p a.
Proof.
  intros HS (dep & Hdep & Ha). specialize (HS dep Hdep). destruct (dict_get targets dep) as [t|] eqn:Ht; [|by destruct (HS a)].
  destruct HS as ([b Hb] & Hbinary & Hcompile). exists dep, t, b. split_and!; eauto.
Qed.

Lemma dependency_paths_run targets path deps paths dep t :
  dependency_paths targets path deps = Ok paths → dep ∈ deps → dict_get targets dep = Some t → ∃ q, path t = Ok q.
Proof.
  unfold dependency_paths. intros (l & Hl & _)%bind_Ok Hdep Ht. apply map_result_Ok in Hl.
  assert (t ∈ omap (dict_get targets) deps) as [i Hi]%list_elem_of_lookup by (apply list_elem_of_omap; by exists dep).
  destruct (Forall2_lookup_l _ _ _ _ _ Hl Hi) as (y & _ & H1). by exists y.
Qed.

(** The paths that stand for the dependencies before the actions and before the compiles. *)
Lemma actions_paths_wait targets sp f S paths a :
  dependency_paths targets PreActionInput (dependencies sp) = Ok paths →
  (∀ dep, dep ∈ dependencies sp → recorded f (dict_get targets dep) (S dep)) → inherited S sp a → ∃ p, p ∈ paths ∧ after f p a.
Proof.
  intros Hpaths HS Ha. destruct (inherited_recorded _ _ _ _ _ HS Ha) as (dep & t & b & Hdep & Ht & Hb & Hafter & _).
  destruct (dependency_paths_run _ _ _ _ _ _ Hpaths Hdep Ht) as [q Hq].
  destruct (PreActionInput_known t b q Hq Hb) as (x & Hx & Hknown). exists x. split; [|by apply Hafter].
  exact (dependency_paths_Ok _ _ _ _ _ _ _ _ Hpaths Hdep Ht Hq Hx).
Qed.
Lemma compile_paths_wait targets sp f S paths a :
  dependency_paths targets (λ t, Ok (PreCompileInput t)) (dependencies sp) = Ok paths →
  (∀ dep, dep ∈ dependencies sp → recorded f (dict_get targets dep) (S dep)) → inherited S sp a → ∃ p, p ∈ paths ∧ after f p a.
Proof.
  intros Hpaths HS Ha. destruct (inherited_recorded _ _ _ _ _ HS Ha) as (dep & t & b & Hdep & Ht & _ & _ & p & Hp & Hafter).
  exists p. split; [|done]. by eapply (dependency_paths_Ok _ _ _ _ _ _ _ _ Hpaths Hdep Ht).
Qed.

(** If what is recorded for the dependencies stands for [S], what is recorded for the target stands for its own steps and
    for [S], and its objects are made after both. *)
Lemma WriteSpec_Ok targets sp wr f (S : string → text → Prop) :
  WriteSpec md5 w targets sp = Ok wr → stmts wr ⊆ f → ComputeOutput w sp ≠ Ok [] → complete sp wr →
  (∀ dep, dep ∈ dependencies sp → recorded f (dict_get targets dep) (S dep)) →
  recorded f (result_target wr) (prerequisite S sp wr) ∧ ∀ o a, o ∈ objects wr → prerequisite S sp wr a → after f o a.
Proof.
  unfold WriteSpec, complete, prerequisite. intros H1 Hf Hout Hcomplete HS. destruct (dict_get (configurations sp) _) as [c|]; [|done].
  apply bind_Ok in H1 as (actions_paths & Hap & H1). apply bind_Ok in H1 as (compile_paths & Hcp & H1).
  apply bind_Ok in H1 as ([before_actions actions_depends] & Hba & H1). apply bind_Ok in H1 as ([before_compiles compile_depends] & Hbc & H1).
  apply bind_Ok in H1 as ([s actions_stamp] & Hs & H1). apply bind_Ok in H1 as ([[[compile objs] cpp] link_deps] & Hcompile & H1).
  apply bind_Ok in H1 as ([final t'] & Hfinal & H1).
  assert (stmts wr = before_actions ++ before_compiles ++ fp s ++ compile ++ final ∧ step_outputs wr = all_outputs s ∧ objects wr = objs
      ∧ result_target wr = (if truthy (binary t') is Some _ then Some t' else None)) as (Hstmts & Hsteps & Hobjects & Hresult).
  { destruct (truthy (binary t')); [apply bind_Ok in H1 as (_ & _ & H1)|]; by injection H1 as <-. }
  assert (before_actions ⊆ f ∧ before_compiles ⊆ f ∧ fp s ⊆ f ∧ compile ⊆ f ∧ final ⊆ f) as (Hf1 & Hf2 & Hf3 & Hf4 & Hf5).
  { rewrite Hstmts in Hf. split_and!; intros x Hx; apply Hf; rewrite !elem_of_app; tauto. }
  rewrite Hsteps, Hobjects in Hcomplete. rewrite Hsteps, Hobjects, Hresult. clear H1 Hstmts Hsteps Hobjects Hresult Hf wr.
  assert (Hpre : ∀ a, inherited S sp a → ∃ p, truthy actions_depends = Some p ∧ after f p a).
  { eapply collapsed_stands_for; [exact Hba|done|]. intros a Ha. by eapply actions_paths_wait. }
  assert (Hcom : ∀ a, inherited S sp a → ∃ p, truthy compile_depends = Some p ∧ after f p a).
  { eapply collapsed_stands_for; [exact Hbc|done|]. intros a Ha. by eapply compile_paths_wait. }
  pose proof (steps_stand_for _ _ _ _ _ _ _ Hs Hf3 Hpre Hpre) as Hstamp. pose proof (steps_stand_for _ _ _ _ _ _ _ Hs Hf3 Hpre Hcom) as Hstamp'.
  apply write_compiles_Ok in Hcompile as [Hlink Hobjs].
  assert (Hobjs' : ∀ o a, o ∈ objs → a ∈ all_outputs s ∨ inherited S sp a → after f o a).
  { intros o a Ho Ha. destruct (Hstamp' a Ha) as (p & Hp & Hpa). etrans; [|exact Hpa]. eapply after_incl; [exact Hf4|]. by apply Hobjs. }
  split; [|done]. destruct (negb (link_deps ==? []) || _) eqn:Hc in Hfinal.
  - apply (WriteTarget_recorded _ _ _ _ objs _ _ _ _ _ f (λ a, a ∈ all_outputs s ∨ inherited S sp a) (.∈ all_outputs s) (inherited S sp))
      in Hfinal; try done; [by destruct (truthy (binary t'))| |].
    + intros a Ha. destruct (inherited_recorded _ _ _ _ _ HS Ha) as (dep & t & b & ? & ? & ? & ? & _). by exists dep, t, b.
    + destruct Hcomplete as [?|[Hnil|?]]; [by left| |by right; right]. right. left. intros a Ha. rewrite Hnil in Ha. by apply elem_of_nil in Ha.
  - injection Hfinal as _ <-. intros a (p & Hp & _)%Hstamp. apply orb_false_iff in Hc as [_ Hc]. apply bool_decide_eq_false in Hc.
    destruct Hc. by eexists.
Qed.
End writer_theorems.

(** ** All targets *)
Section generate_theorems.
Context `{SetOrder} `{RealPath} (md5 : text → text) (opts : options) (target_dicts : list (string * spec)) (all_targets : list string).

Definition files (g : generated) : list statement := concat ((λ p, stmts p.2.2) <$> targets g).
Definition depends (q d : string) : Prop := ∃ sp, dict_get target_dicts q = Some sp ∧ d ∈ dependencies sp.
Definition writer_for (q : string) (sp : spec) : writer :=
  writer_of opts q (p_dirname (RelativePath (chars (default "" (ParseQualifiedTarget q).1.1)) (toplevel_dir opts))) sp.

(** The order in which the targets of [target_list] come: after what they depend on. *)
Definition dependencies_first (l : list string) : Prop :=
  NoDup l ∧ ∀ pre q post d, l = pre ++ q :: post → depends q d → d ∈ pre.

(** The outputs of the steps of a target and of all that it depends on, directly or not. *)
Definition steps_below (g : generated) (q : string) (a : text) : Prop :=
  ∃ d file wr, rtc depends q d ∧ (d, (file, wr)) ∈ targets g ∧ a ∈ step_outputs wr.

(** What the loop has done for a target, given the targets that were written. *)
Definition run_of (written_targets : list (string * (text * written))) (q : string) (wr : written) : Prop :=
  ∃ sp outputs, dict_get target_dicts q = Some sp ∧ WriteSpec md5 (writer_for q sp) outputs sp = Ok wr
    ∧ ∀ d, d ∈ dependencies sp → ∃ file wr', (d, (file, wr')) ∈ written_targets ∧ dict_get outputs d = result_target wr'.

Lemma generate_one_Ok q g g' :
  generate_target md5 opts target_dicts all_targets q g = Ok g' →
  ∃ sp file wr, dict_get target_dicts q = Some sp ∧ WriteSpec md5 (writer_for q sp) (target_outputs g) sp = Ok wr
    ∧ targets g' = targets g ++ [(q, (file, wr))]
    ∧ target_outputs g' = (if result_target wr is Some t then dict_set (target_outputs g) q t else target_outputs g).
Proof.
  unfold generate_target, writer_for. destruct (ParseQualifiedTarget q) as [[build_file short] ts]. cbn [fst].
  destruct (dict_get target_dicts q) as [sp|]; [|done]. intros (wr & Hwr & H1)%bind_Ok. eexists sp, _, wr. split; [done|]. split; [done|].
  destruct (result_target wr); injection H1 as <-; by split.
Qed.

Lemma generate_targets_Ok l g :
  generate_targets md5 opts target_dicts all_targets l = Ok g → dependencies_first l →
  (targets g).*1 = l ∧ (∀ q, q ∉ l → dict_get (target_outputs g) q = None)
  ∧ ∀ q file wr, (q, (file, wr)) ∈ targets g → dict_get (target_outputs g) q = result_target wr ∧ run_of (targets g) q wr.
Proof.
  unfold generate_targets. revert g. induction l as [|q l IH] using rev_ind; intros g Hrun [Hnodup Hfirst].
  { injection Hrun as <-. split_and!; [done|done|]. by intros q file wr ?%elem_of_nil. }
  rewrite for_each_app in Hrun. apply bind_Ok in Hrun as (g0 & Hrun & Hq). cbn [for_each] in Hq.
  apply bind_Ok in Hq as (g1 & Hq & Hg). apply Ok_inj in Hg as ->.
  apply NoDup_app in Hnodup as (Hnodup & Hq_new & _). destruct (IH _ Hrun) as (Hkeys & Hnew & Hold).
  { split; [done|]. intros pre q' post d -> Hd. apply (Hfirst pre q' (post ++ [q])); [by rewrite <- app_assoc|done]. }
  destruct (generate_one_Ok _ _ _ Hq) as (sp & file & wr & Hsp & Hwr & Htargets & Houtputs). rewrite Htargets.
  assert (Hql : q ∉ l) by (intros Hin; apply (Hq_new q Hin); by left).
  assert (Hother : ∀ q', q' ≠ q → dict_get (target_outputs g) q' = dict_get (target_outputs g0) q').
  { intros q' Hne. rewrite Houtputs. destruct (result_target wr); [by rewrite dict_get_set_ne|done]. }
  split_and!.
  - by rewrite fmap_app, Hkeys.
  - intros q' [Hq' Hne]%not_elem_of_app. rewrite Hother; [by apply Hnew|]. intros ->. apply Hne. by left.
  - intros q' file' wr' [Hin|Hin]%elem_of_app.
    + assert (q' ∈ l) by (rewrite <- Hkeys; apply list_elem_of_fmap; by exists (q', (file', wr'))).
      destruct (Hold q' file' wr' Hin) as [Hget (sp' & outputs & Hsp' & Hwr' & Hdeps)].
      split; [rewrite Hother; [done|by intros ->]|]. exists sp', outputs. split_and!; [done|done|]. intros d Hd.
      destruct (Hdeps d Hd) as (f & w & Hf & Hw). exists f, w. split; [|done]. apply elem_of_app. by left.
    + apply list_elem_of_singleton in Hin as [= -> -> ->]. split.
      { rewrite Houtputs. destruct (result_target wr); [by rewrite dict_get_set_eq|by apply Hnew]. }
      exists sp, (target_outputs g0). split_and!; [done|done|]. intros d Hd.
      assert (d ∈ (targets g0).*1) as ([d' [f wd]] & -> & Hin)%list_elem_of_fmap by (rewrite Hkeys; eapply Hfirst; [done|by exists sp]).
      exists f, wd. split; [apply elem_of_app; by left|]. by apply (Hold _ f).
Qed.

Lemma recorded_mono f o (A A' : text → Prop) : (∀ a, A' a → A a) → recorded f o A → recorded f o A'.
Proof.
  intros HA. destruct o as [t|]; [|by intros Hno a Ha%HA; apply (Hno a)].
  intros (Hb & Hbinary & Hcompile). split_and!; [done| |by eauto]. intros b x a Hx Hk Ha. by eapply Hbinary; eauto.
Qed.

Lemma target_unique l g q file wr file' wr' :
  (targets g).*1 = l → NoDup l → (q, (file, wr)) ∈ targets g → (q, (file', wr')) ∈ targets g → wr = wr'.
Proof.
  intros <- Hnodup H1 H2. apply (dict_In_get _ _ _ Hnodup) in H1, H2. congruence.
Qed.

(** What every file that is written needs: a name for its output, and objects where only they stand for its steps. *)
Definition well_specified (g : generated) : Prop :=
  ∀ q file wr sp, (q, (file, wr)) ∈ targets g → dict_get target_dicts q = Some sp →
    ComputeOutput (writer_for q sp) sp ≠ Ok [] ∧ complete sp wr.

Lemma generate_recorded l g :
  generate_targets md5 opts target_dicts all_targets l = Ok g → dependencies_first l → well_specified g →
  ∀ pre post, l = pre ++ post → ∀ q file wr, q ∈ pre → (q, (file, wr)) ∈ targets g →
    recorded (files g) (result_target wr) (steps_below g q) ∧ ∀ o a, o ∈ objects wr → steps_below g q a → after (files g) o a.
Proof.
  intros Hrun Hfirst Hspec. destruct (generate_targets_Ok _ _ Hrun Hfirst) as (Hkeys & _ & Hrun_of). pose proof (proj1 Hfirst) as Hnodup.
  induction pre as [|q pre IH] using rev_ind; intros post Hl q' file wr Hq' Hin; [by apply elem_of_nil in Hq'|].
  rewrite <- app_assoc in Hl. apply elem_of_app in Hq' as [Hq'| ->%list_elem_of_singleton]; [by apply (IH _ Hl q' file)|].
  destruct (Hrun_of _ _ _ Hin) as [_ (sp & outputs & Hsp & Hwr & Hdeps)]. destruct (Hspec _ _ _ _ Hin Hsp) as [Hout Hcomplete].
  assert (Hfiles : stmts wr ⊆ files g).
  { intros x Hx. apply elem_of_concat. exists (stmts wr). split; [done|]. apply list_elem_of_fmap. by exists (q, (file, wr)). }
  assert (Hbelow : ∀ a, steps_below g q a → prerequisite (steps_below g) sp wr a).
  { intros a (d & file' & wr' & Hd & Hin' & Ha). apply rtc_inv in Hd as [<-|(d' & (sp' & Hsp' & Hd') & Hd)].
    - left. by rewrite (target_unique l g q file wr file' wr').
    - right. exists d'. replace sp with sp' by congruence. split; [done|]. by exists d, file', wr'. }
  destruct (WriteSpec_Ok md5 _ _ _ _ (files g) (steps_below g) Hwr Hfiles Hout Hcomplete) as [Hrec Hobj].
  { intros d Hd. destruct (Hdeps d Hd) as (file' & wr' & Hin' & ->). apply (IH _ Hl d file' wr'); [|done].
    eapply Hfirst; [exact Hl|]. by exists sp. }
  split; [by eapply recorded_mono|]. intros o a Ho Ha%Hbelow. by apply Hobj.
Qed.

(** The same, as it is computed. *)
Definition well_specified_b (g : generated) : bool :=
  forallb (λ p, match dict_get target_dicts p.1 with
                | Some sp => match ComputeOutput (writer_for p.1 sp) sp with Ok [] => false | _ => true end
                             && ((type sp in? ["none"; "static_library"]) || (step_outputs p.2.2 ==? []) || negb (objects p.2.2 ==? []))
                | None => true
                end) (targets g).
Lemma well_specified_check g : well_specified_b g = true → well_specified g.
Proof.
  unfold well_specified_b. rewrite forallb_forall. intros Hall q file wr sp Hin Hsp. specialize (Hall (q, (file, wr))).
  cbn [fst snd] in Hall. rewrite Hsp in Hall. apply andb_true_iff in Hall as [Hout Hc]; [|by apply list_elem_of_In].
  split; [by intros Heq; rewrite Heq in Hout|]. apply orb_true_iff in Hc as [[Hc|Hc]%orb_true_iff|Hc].
  - left. by apply bool_decide_eq_true in Hc.
  - right. left. by apply bool_decide_eq_true in Hc.
  - right. right. apply negb_true_iff in Hc. by apply bool_decide_eq_false in Hc.
Qed.

End generate_theorems.

(** ** Examples *)

Definition sample_config : config :=
  {| defines := [chars "NDEBUG"]; cflags := []; cflags_c := []; cflags_cc := []; include_dirs := [chars "src"]; ldflags := []; library_dirs := [] |}.
Definition sample_target (n : string) (ty : string) (acts : option (list gyp_action)) (srcs : list string) (deps : list string) : spec :=
  {| target_name := chars n; type := ty; spec_toolset := chars "target"; spec_actions := acts; spec_rules := None; spec_copies := None;
     sources := chars <$> srcs; dependencies := deps; libraries := []; configurations := [("Default", sample_config)];
     standalone_static_library := false; product_prefix := None; product_name := None; product_extension := None; product_dir := None |}.
Definition sample_action (input output : string) : gyp_action :=
  {| action_name := chars "make"; action_inputs := [chars input]; action_outputs := [chars output]; action_as_sources := false;
     action_command := [chars "cp"; chars input; chars output]; action_message := None |}.
Definition sample_options : options :=
  {| toplevel_dir := chars "/src"; build_dir := chars "out/Default"; gen_flavor := "linux"; gen_config := chars "Default"; gen_environ := [] |}.
#[local] Instance sample_paths : RealPath | 5 := realpath_nolinks (chars "/src").

(** A generated header, a shared library whose sources include it, and a program that is linked with the library. *)
Definition sample_dicts : list (string * spec) :=
  [("x.gyp:header#target", sample_target "header" "none" (Some [sample_action "gen.in" "$!PRODUCT_DIR/gen.h"]) [] []);
   ("x.gyp:base#target", sample_target "base" "shared_library" None ["base.cc"] ["x.gyp:header#target"]);
   ("x.gyp:prog#target", sample_target "prog" "executable" None ["main.cc"] ["x.gyp:base#target"])].
Abbreviation sample_order := ["x.gyp:header#target"; "x.gyp:base#target"; "x.gyp:prog#target"].
Abbreviation sample_run := (generate_targets (λ s, s) sample_options sample_dicts ["x.gyp:prog#target"] sample_order).

Lemma sample_dependencies_first : dependencies_first sample_dicts sample_order.
Proof.
  split; [by apply (bool_decide_unpack _)|]. intros pre q post d Hl (sp & Hsp & Hd).
  do 3 (destruct pre as [|? pre]; injection Hl as <- Hl; [injection Hsp as <-; cbn [dependencies sample_target] in Hd; set_solver|]).
  by destruct pre.
Qed.

(** What the run writes: the step of the header and the object of the program. *)
Definition sample_fact (g : generated) : Prop :=
  match targets g with
  | [(h, (_, hw)); _; (p, (_, pw))] =>
      h = "x.gyp:header#target" ∧ step_outputs hw = [chars "gen.h"] ∧ p = "x.gyp:prog#target" ∧ objects pw = [chars "obj/prog.main.o"]
  | _ => False
  end.
Lemma sample_run_Ok : ∃ g, sample_run = Ok g ∧ well_specified sample_options sample_dicts g ∧ sample_fact g.
Proof.
  assert (H1 : match sample_run with Ok g => well_specified_b sample_options sample_dicts g | Err _ => false end = true) by (vm_compute; reflexivity).
  assert (H2 : match sample_run with Ok g => sample_fact g | Err _ => False end) by (vm_compute; tauto).
  destruct sample_run as [g|]; [|done]. exists g. split_and!; [done|by apply well_specified_check|done].
Qed.

Lemma sample_below g :
  sample_fact g → steps_below sample_dicts g "x.gyp:prog#target" (chars "gen.h")
  ∧ ∃ file wr, ("x.gyp:prog#target", (file, wr)) ∈ targets g ∧ objects wr = [chars "obj/prog.main.o"].
Proof.
  unfold sample_fact, steps_below. destruct (targets g) as [|[h [hf hw]] [|b [|[p [pf pw]] []]]]; try done.
  intros (-> & Hstep & -> & Hobj). split.
  - exists "x.gyp:header#target", hf, hw. split_and!; [|by left|rewrite Hstep; by left].
    apply (rtc_l _ _ "x.gyp:base#target"); [eexists; split; [vm_compute; reflexivity|by left]|].
    apply rtc_once. eexists. split; [vm_compute; reflexivity|by left].
  - exists pf, pw. split; [right; right; by left|done].
Qed.


(** A plug-in with an action and a dependency to link, but with no source to compile: nothing that its link waits for is made
    by the action, although the binary is what other targets take for its last output. *)
Definition sample_plugin : list (string * spec) :=
  [("x.gyp:base#target", sample_target "base" "static_library" None ["base.cc"] []);
   ("x.gyp:plug#target", sample_target "plug" "executable" (Some [sample_action "gen.in" "$!PRODUCT_DIR/gen.txt"]) [] ["x.gyp:base#target"])].
Definition edge_of (path : text) (f : list statement) : list edge :=
  omap (λ s, match s with Build e => if path in? outs e then Some e else None | _ => None end) f.
Example plugin_before_action :
  match generate_targets (λ s, s) sample_options sample_plugin [] ["x.gyp:base#target"; "x.gyp:plug#target"] with
  | Ok g => (λ e, (ins e, implicit e, order_only e)) <$> edge_of (chars "plug") (files g)
  | Err _ => []
  end = [([chars "obj/libbase.a"], [], [])].
Proof. vm_compute. reflexivity. Qed.
