(* ===== verification/NinjaMaster.v ===== *)
(** * The master ninja file

    [GenerateOutputForConfig] of tools/gyp/pylib/gyp/generator/ninja.py: the variables, the pool and the rules of the
    file build.ninja, the loop over the targets of NinjaGen.v with the files that are included, and the
    short names at the end; with [GetDefaultConcurrentLinks] and [CommandWithWrapper].  The flavor is any but mac and win. *)
From S2P Require Import Prelude PyDict PyStr PyNum PyPath PySet Common NinjaSyntax TargetSpec NinjaGen.
From Stdlib Require Import Ascii.

(** A call of the writer of the master file; [Plain] ones are those that are also made for targets. *)
Record rule_decl := {
  rule_id : text; rule_command : text; rule_description : text; rule_depfile : option text; rule_deps : option text;
  rule_restat : bool; rule_pool : option text
}.
Inductive master_statement :=
  Plain (s : statement) | Rule (r : rule_decl) | Pool (name : text) (depth : Z) | Subninja (path : text) | Comment (t : text) | Default (t : text).

(** ** Numbers of links *)

(** What [re.match] of the pattern of the total memory finds in a line of /proc/meminfo. *)
Definition mem_total (l : text) : option text :=
  if lstarts (chars "MemTotal:") l then
    let '(digits, r) := span (λ c, bool_decide (is_Some (digit_in 10 c))) (lstrip Ascii.is_space (drop 9 l)) in
    if lstarts (chars "kB") (lstrip Ascii.is_space r) then Some digits else None
  else None.

Fixpoint link_memory (meminfo : list text) : result Z :=
  match meminfo with
  | [] => Ok 1%Z
  | l :: meminfo =>
      match mem_total l with
      | Some digits => n ← int_of_str 10 (of_chars digits); Ok (Z.max 1 (n / (8 * 2 ^ 20)))
      | None => link_memory meminfo
      end
  end.

(** [GetDefaultConcurrentLinks()] for a platform, the lines of /proc/meminfo, and what sysctl says of the memory, if it
    says anything. *)
Definition GetDefaultConcurrentLinks (platform : string) (meminfo : list text) (memsize : option Z) : result Z :=
  if platform in? ["win32"; "cygwin"] then Ok 2%Z
  else if str_startswith "linux" platform then link_memory meminfo
  else if platform ==? "darwin" then Ok (match memsize with Some b => Z.max 1 (b / (4 * 2 ^ 30)) | None => 1%Z end)
  else Ok 1%Z.

(** ** Tools *)

(** [CommandWithWrapper(cmd, wrappers, prog)] *)
Definition CommandWithWrapper (cmd : string) (wrappers : list (text * text)) (prog : text) : text :=
  match default [] (dict_get wrappers (chars cmd)) with
  | [] => prog
  | wrapper => wrapper ++ " "%char :: prog
  end.

(** The tools that are set in the file: the variables of the function before it looks at the environment. *)
Record tools := {
  cc : text; cxx : text; cc_host : option text; cxx_host : option text;
  cc_host_global_setting : option text; cxx_host_global_setting : option text; wrappers : list (text * text)
}.

Definition default_tools : tools :=
  {| cc := chars "cc"; cxx := chars "c++"; cc_host := None; cxx_host := None;
     cc_host_global_setting := None; cxx_host_global_setting := None; wrappers := [] |}.

Definition wrapper_suffix : text := chars "_wrapper".

(** One entry of [make_global_settings]. *)
Definition read_setting (build_to_root : text) (t : tools) (setting : text * text) : tools :=
  let '(key, value) := setting in
  let path := p_join build_to_root value in
  let named k := key ==? chars k in
  {| cc := if named "CC" then path else cc t;
     cxx := if named "CXX" then path else cxx t;
     cc_host := if named "CC.host" then Some path else cc_host t;
     cxx_host := if named "CXX.host" then Some path else cxx_host t;
     cc_host_global_setting := if named "CC.host" then Some value else cc_host_global_setting t;
     cxx_host_global_setting := if named "CXX.host" then Some value else cxx_host_global_setting t;
     wrappers := if ends_with wrapper_suffix key
                 then dict_set (wrappers t) (take (length key - length wrapper_suffix) key) path else wrappers t |}.

(** [re.sub(r'\.HOST$', '.host', key_prefix)]: the end may be followed by a newline. *)
Definition host_key (key : text) : text :=
  let cut suffix := take (length key - length suffix) key in
  if ends_with (chars ".HOST") key then cut (chars ".HOST") ++ chars ".host"
  else if ends_with (chars ".HOST" ++ [nl]) key then cut (chars ".HOST" ++ [nl]) ++ chars ".host" ++ [nl]
  else key.

(** One variable of the environment. *)
Definition read_wrapper (build_to_root : text) (ws : list (text * text)) (var : text * text) : list (text * text) :=
  let '(key, value) := var in
  if ends_with wrapper_suffix (lower_char <$> key)
  then dict_set ws (host_key (take (length key - length wrapper_suffix) key)) (p_join build_to_root value) else ws.

Section master.
Context `{SetOrder} `{RealPath} (md5 : text → text) (opts : options).

Definition env_or (vars : list string) (dflt : text) : text :=
  chars (GetEnvironFallback ((λ p, (of_chars p.1, of_chars p.2)) <$> gen_environ opts) vars (of_chars dflt)).

Definition build_to_root : text := InvertRelativePath (build_dir opts) (Some (toplevel_dir opts)).
Definition read_settings (settings : list (text * text)) : tools := foldl (read_setting build_to_root) default_tools settings.
Definition all_wrappers (t : tools) : list (text * text) := foldl (read_wrapper build_to_root) (wrappers t) (gen_environ opts).

(** [generator_supports_multiple_toolsets] *)
Definition generator_supports_multiple_toolsets : bool :=
  existsb (λ v, bool_decide (is_Some (truthy (dict_get (gen_environ opts) (chars v)))))
    ["GYP_CROSSCOMPILE"; "AR_host"; "CC_host"; "CXX_host"; "AR_target"; "CC_target"; "CXX_target"].

(** The final values of [cc_host] and [cxx_host]: [var] is the variable of the environment, [reference] what a setting
    writes for the tool of the target. *)
Definition host_tool (var : string) (host setting : option text) (tool : text) (reference : text) : text :=
  let host := env_or [var] (default tool (truthy host)) in
  match truthy setting with
  | Some s => if contains reference host then lreplace reference tool s else host
  | None => host
  end.

Definition master_variables (t : tools) : list statement :=
  let wrap cmd prog := CommandWithWrapper cmd (all_wrappers t) prog in
  let cc_ := env_or ["CC_target"; "CC"] (cc t) in
  let cxx_ := env_or ["CXX_target"; "CXX"] (cxx t) in
  [Bind (chars "cc") (wrap "CC" cc_); Bind (chars "cxx") (wrap "CXX" cxx_);
   Bind (chars "ld") (wrap "LINK" (chars "$cc")); Bind (chars "ldxx") (wrap "LINK" (chars "$cxx"));
   Bind (chars "ar") (env_or ["AR_target"; "AR"] (chars "ar"))]
  ++ (if generator_supports_multiple_toolsets then
        [Bind (chars "ar_host") (env_or ["AR_host"] (chars "ar"));
         Bind (chars "cc_host") (wrap "CC.host" (host_tool "CC_host" (cc_host t) (cc_host_global_setting t) cc_ (chars "$(CC)")));
         Bind (chars "cxx_host") (wrap "CXX.host" (host_tool "CXX_host" (cxx_host t) (cxx_host_global_setting t) cxx_ (chars "$(CXX)")));
         Bind (chars "ld_host") (wrap "LINK" (chars "$cc_host")); Bind (chars "ldxx_host") (wrap "LINK" (chars "$cxx_host"))]
      else []).

(** ** Rules *)

Definition plain_rule (name command description : string) : rule_decl :=
  {| rule_id := chars name; rule_command := chars command; rule_description := chars description; rule_depfile := None; rule_deps := None;
     rule_restat := false; rule_pool := None |}.
Definition compile_rule (name command description : string) : rule_decl :=
  {| rule_id := chars name; rule_command := chars command; rule_description := chars description; rule_depfile := Some (chars "$out.d");
     rule_deps := Some (chars "gcc"); rule_restat := false; rule_pool := None |}.
Definition link_pool : text := chars "link_pool".
Definition link_rule (name command description : string) (restat : bool) : rule_decl :=
  {| rule_id := chars name; rule_command := chars command; rule_description := chars description; rule_depfile := None; rule_deps := None;
     rule_restat := restat; rule_pool := Some link_pool |}.

(** [mtime_preserving_solink_base] with its suffix. *)
Definition solink (suffix : string) : string :=
  let solink := "$ld -shared $ldflags -o $lib -Wl,-soname=$soname " +:+ suffix in
  let extract_toc := "{ readelf -d ${lib} | grep SONAME ; nm -gD -f p ${lib} | cut -f1-2 -d' '; }" in
  "if [ ! -e $lib -o ! -e ${lib}.TOC ]; then " +:+ solink +:+ " && " +:+ extract_toc +:+ " > ${lib}.TOC; else " +:+ solink +:+ " && "
  +:+ extract_toc +:+ " > ${lib}.tmp && if ! cmp -s ${lib}.tmp ${lib}.TOC; then mv ${lib}.tmp ${lib}.TOC ; fi; fi".

Definition master_rules : list rule_decl :=
  [compile_rule "cc" "$cc -MMD -MF $out.d $defines $includes $cflags $cflags_c $cflags_pch_c -c $in -o $out" "CC $out";
   plain_rule "cc_s" "$cc $defines $includes $cflags $cflags_c $cflags_pch_c -c $in -o $out" "CC $out";
   compile_rule "cxx" "$cxx -MMD -MF $out.d $defines $includes $cflags $cflags_cc $cflags_pch_cc -c $in -o $out" "CXX $out";
   plain_rule "alink" "rm -f $out && $ar rcs $out $in" "AR $out";
   plain_rule "alink_thin" "rm -f $out && $ar rcsT $out $in" "AR $out";
   link_rule "solink" (solink "-Wl,--whole-archive $in $solibs -Wl,--no-whole-archive $libs") "SOLINK $lib" true;
   link_rule "solink_module" (solink "-Wl,--start-group $in $solibs -Wl,--end-group $libs") "SOLINK(module) $lib" true;
   link_rule "link" "$ld $ldflags -o $out -Wl,--start-group $in $solibs -Wl,--end-group $libs" "LINK $out" false;
   plain_rule "stamp" "${postbuilds}touch $out" "STAMP $out";
   plain_rule "copy" "ln -f $in $out 2>/dev/null || (rm -rf $out && cp -af $in $out)" "COPY $in $out"].

(** ** The file *)

(** The files that are included: those with contents. *)
Definition subninjas (g : generated) : list text :=
  omap (λ p, if stmts p.2.2 ==? [] then None else Some p.2.1) (targets g).

Definition phony (o : text) (inputs : list text) : master_statement :=
  Plain (Build {| outs := [o]; command := chars "phony"; ins := inputs; implicit := []; order_only := []; bindings := [] |}).

(** The end of the file: the short names, [all] and the default target. *)
Definition master_end (default_target : text) (g : generated) : list master_statement :=
  (if target_short_names g ==? [] then [] else
     [Plain Newline; Comment (chars "Short names for targets.")] ++ ((λ p, phony p.1 (omap FinalOutput p.2)) <$> target_short_names g))
  ++ (if final_outputs g ==? [] then [] else
        [Plain Newline; phony (chars "all") (set_order (final_outputs g)); Default default_target]).

(** [make_global_settings] of the file of a target. *)
Definition settings_of (data : list (string * list (text * text))) (q : string) : result (list (text * text)) :=
  match (ParseQualifiedTarget q).1.1 with
  | Some build_file => match dict_get data build_file with Some s => Ok s | None => Err (KeyError build_file) end
  | None => Err (KeyError "None")
  end.

Definition generate_checked (data : list (string * list (text * text))) (settings : list (text * text)) (target_dicts : list (string * spec))
    (all_targets : list string) (q : string) (g : generated) : result generated :=
  s ← settings_of data q;
  _ ← assert (settings ==? s);
  generate_target md5 opts target_dicts all_targets q g.

Definition GenerateOutputForConfig (data : list (string * list (text * text))) (concurrent_links : result Z) (default_target : option text)
    (target_list : list string) (target_dicts : list (string * spec)) (all_targets : list string) : result (list master_statement * generated) :=
  first ← (match target_list with q :: _ => Ok q | [] => Err IndexError end);
  settings ← settings_of data first;
  depth ← concurrent_links;
  g ← for_each target_list no_targets (generate_checked data settings target_dicts all_targets);
  Ok ((Plain <$> master_variables (read_settings settings)) ++ [Plain Newline; Pool link_pool depth; Plain Newline]
      ++ (Rule <$> master_rules) ++ [Plain Newline] ++ (Subninja <$> subninjas g)
      ++ master_end (default (chars "all") default_target) g, g).
End master.

(** The text of a statement, as the writer of ninja_syntax.py puts it; [wrap] is [textwrap.wrap]. *)
Definition optional_value (o : option text) : option ninja_value := NStr <$> o.
Definition group (l : list text) : option ninja_value := if l ==? [] then None else Some (NList l).
Definition render (width : Z) (s : statement) : result text :=
  match s with
  | Build e =>
      '(t, _) ← build width (Some (NList (outs e))) (command e) (Some (NList (ins e))) (group (implicit e)) (group (order_only e))
                  ((λ b, (b.1, Some (NStr b.2))) <$> bindings e);
      Ok t
  | Bind key value => variable width key (Some (NStr value)) 0
  | NewRule name cmd description =>
      rule width name (Some (NStr cmd)) (Some (NStr description)) None false None true None None None
  | Newline => newline_
  end.
Definition render_master (wrap : text → Z → list text) (width : Z) (s : master_statement) : result text :=
  match s with
  | Plain s => render width s
  | Rule r => rule width (rule_id r) (Some (NStr (rule_command r))) (Some (NStr (rule_description r))) (optional_value (rule_depfile r)) false
                (optional_value (rule_pool r)) (rule_restat r) None None (optional_value (rule_deps r))
  | Pool name depth => pool width name (chars (str_of_int depth))
  | Subninja path => subninja width path
  | Comment t => comment wrap width t
  | Default t => default_ width (Some (NStr t))
  end.

(** * Theorems *)

(** ** Rules *)

(** The rules that statements declare. *)
Definition declared (l : list statement) : list text := omap (λ s, match s with NewRule n _ _ => Some n | _ => None end) l.

(** Every edge runs a rule that is known or declared before it. *)
Fixpoint rules_declared (known : list text) (l : list statement) : Prop :=
  match l with
  | [] => True
  | Build e :: l => command e ∈ known ∧ rules_declared known l
  | NewRule n _ _ :: l => rules_declared (n :: known) l
  | _ :: l => rules_declared known l
  end.

Lemma rules_declared_mono known known' l : known ⊆ known' → rules_declared known l → rules_declared known' l.
Proof.
  revert known known'. induction l as [|s l IH]; intros known known' Hk; cbn; [done|].
  destruct s; [intros [? ?]; split; [by apply Hk|by eapply IH]|by apply IH| |by apply IH].
  apply IH. intros x. rewrite !elem_of_cons. intros [?|?]; [by left|right; by apply Hk].
Qed.

Lemma rules_declared_app known l1 l2 :
  rules_declared known l1 → rules_declared (declared l1 ++ known) l2 → rules_declared known (l1 ++ l2).
Proof.
  revert known. induction l1 as [|s l1 IH]; intros known; [done|]. destruct s; cbn [app rules_declared declared omap list_omap].
  - intros [? ?] ?. split; [done|by apply IH].
  - by apply IH.
  - intros H1 H2. apply IH; [done|]. eapply rules_declared_mono; [|exact H2]. intros x. repeat (rewrite elem_of_app || rewrite elem_of_cons). tauto.
  - by apply IH.
Qed.
(** What uses known rules only can come anywhere. *)
Lemma rules_declared_append known l1 l2 : rules_declared known l1 → rules_declared known l2 → rules_declared known (l1 ++ l2).
Proof.
  intros H1 H2. apply rules_declared_app; [done|]. eapply rules_declared_mono; [|exact H2]. intros x Hx. apply elem_of_app. by right.
Qed.

Lemma declared_app l1 l2 : declared (l1 ++ l2) = declared l1 ++ declared l2.
Proof. apply omap_app. Qed.

Section master_theorems.
Context `{SetOrder} `{RealPath} (md5 : text → text) (w : writer).

Definition master_names : list text := rule_id <$> master_rules.

(** The rules of the target end with the digest of its name. *)
Definition signed (l : list statement) : Prop := ∀ n, n ∈ declared l → ∃ p, n = p ++ only_word_chars (md5 (qualified_target w)).
Definition steps_ok (l : list statement) : Prop := rules_declared master_names l ∧ signed l.

Lemma signed_app l1 l2 : signed l1 → signed l2 → signed (l1 ++ l2).
Proof. intros H1 H2 n. rewrite declared_app. intros [?|?]%elem_of_app; [by apply H1|by apply H2]. Qed.
Lemma signed_nothing l : declared l = [] → signed l.
Proof. intros Hl n. rewrite Hl. by intros ?%elem_of_nil. Qed.

Lemma only_word_chars_app a b : only_word_chars (a ++ b) = only_word_chars a ++ only_word_chars b.
Proof. unfold only_word_chars. apply fmap_app. Qed.

Lemma WriteNewNinjaRule_signed a args description stmts n args' :
  WriteNewNinjaRule w (a ++ "_"%char :: md5 (qualified_target w)) args description = (stmts, n, args') →
  (∃ c d, stmts = [NewRule n c d; Newline]) ∧ ∃ p, n = p ++ only_word_chars (md5 (qualified_target w)).
Proof.
  unfold WriteNewNinjaRule. intros [= <- <- <-]. split; [by do 2 eexists|].
  set (ts := if toolset w ==? chars "target" then "."%char :: toolset w else []). exists (only_word_chars (name w ++ ts ++ "."%char :: a ++ ["_"%char])).
  rewrite <- only_word_chars_app. f_equal. rewrite <- (app_assoc (name w)), <- (app_assoc ts). cbn. by rewrite <- app_assoc.
Qed.

Lemma steps_ok_plain l new : steps_ok l → rules_declared master_names new → declared new = [] → steps_ok (l ++ new).
Proof. intros [Hr Hs] Hnew Hd. split; [by apply rules_declared_append|apply signed_app; [done|by apply signed_nothing]]. Qed.

Lemma edge_declared (l : list statement) n e known : n ∈ declared l → command e = n → rules_declared (declared l ++ known) [Build e].
Proof. intros Hn He. cbn. split; [|done]. apply elem_of_app. left. by rewrite He. Qed.

Lemma write_action_ok prebuild a s s' : write_action md5 w prebuild a s = Ok s' → steps_ok (fp s) → steps_ok (fp s').
Proof.
  unfold write_action. destruct (WriteNewNinjaRule _ _ _ _) as [[stmts n] args] eqn:Hnew.
  apply WriteNewNinjaRule_signed in Hnew as [(c & d & ->) Hn]. intros H1 [Hr Hs].
  apply bind_Ok in H1 as (inputs & _ & H1). apply bind_Ok in H1 as (outputs & _ & H1). apply Ok_inj in H1 as <-. cbn [fp add_step]. split.
  - apply rules_declared_app; [done|]. cbn. split; [by left|done].
  - apply signed_app; [done|]. intros x [->|?%elem_of_nil]%elem_of_cons; done.
Qed.

Lemma write_rule_source_ok prebuild r n args source s s' :
  write_rule_source md5 w prebuild r n args source s = Ok s' → steps_ok (fp s) ∧ n ∈ declared (fp s) → steps_ok (fp s') ∧ n ∈ declared (fp s').
Proof.
  unfold write_rule_source. destruct (p_split _) as [dirname basename], (p_splitext basename) as [root ext]. intros H1 [[Hr Hs] Hn].
  apply bind_Ok in H1 as (inputs & _ & H1). apply bind_Ok in H1 as (outputs & _ & H1). apply bind_Ok in H1 as (first & _ & H1).
  apply bind_Ok in H1 as (input & _ & H1). apply Ok_inj in H1 as <-. cbn [fp add_step]. split; [split|].
  - apply rules_declared_app; [done|]. by eapply edge_declared.
  - apply signed_app; [done|by apply signed_nothing].
  - rewrite declared_app. apply elem_of_app. by left.
Qed.

Lemma write_rule_ok prebuild r s s' : write_rule md5 w prebuild r s = Ok s' → steps_ok (fp s) → steps_ok (fp s').
Proof.
  unfold write_rule. intros H1 Hs. destruct (rule_action r) as [args|]; [|by destruct (rule_sources r); [injection H1 as <-|]].
  destruct (WriteNewNinjaRule _ _ _ _) as [[stmts n] args'] eqn:Hnew. apply WriteNewNinjaRule_signed in Hnew as [(c & d & ->) Hn].
  refine (proj1 (for_each_inv (λ s, steps_ok (fp s) ∧ n ∈ declared (fp s)) _ _ _ _ _ _ H1)).
  - destruct Hs as [Hr Hs]. cbn [fp add_step]. split; [split|].
    + by apply rules_declared_append.
    + apply signed_app; [done|]. intros x [->|?%elem_of_nil]%elem_of_cons; done.
    + rewrite declared_app. apply elem_of_app. right. by left.
  - intros source s1 s2 _ Hs1 Hrun. by eapply write_rule_source_ok.
Qed.

Lemma write_copy_ok prebuild destination p s s' : write_copy w prebuild destination p s = Ok s' → steps_ok (fp s) → steps_ok (fp s').
Proof.
  unfold write_copy. intros H1 Hs. apply bind_Ok in H1 as (src & _ & H1). apply bind_Ok in H1 as (dst & _ & H1).
  apply Ok_inj in H1 as <-. apply steps_ok_plain; [done| |done]. cbn [rules_declared command]. split; [by apply (bool_decide_unpack _)|done].
Qed.

Lemma collapsed_ok stamp_name paths l r : WriteCollapsedDependencies w stamp_name paths = Ok (l, r) → rules_declared master_names l ∧ declared l = [].
Proof.
  unfold WriteCollapsedDependencies. intros (u & _ & H1)%bind_Ok. destruct paths as [|p1 [|p2 paths]]; [by injection H1 as <- <-..|].
  apply bind_Ok in H1 as (stamp & _ & H1). injection H1 as <- <-. cbn [rules_declared command stamp_edge].
  split_and!; [by apply (bool_decide_unpack _)|done|done].
Qed.

Lemma WriteActionsRulesCopies_ok sp prebuild s stamp : WriteActionsRulesCopies md5 w sp prebuild = Ok (s, stamp) → steps_ok (fp s).
Proof.
  unfold WriteActionsRulesCopies. intros H1. apply bind_Ok in H1 as (s1 & H2 & H1). apply bind_Ok in H1 as (s2 & H3 & H1).
  apply bind_Ok in H1 as (s3 & H4 & H1). apply bind_Ok in H1 as ([l st] & H5 & H1). apply Ok_inj in H1. injection H1 as <- <-.
  apply collapsed_ok in H5 as [Hl Hd]. apply steps_ok_plain; [|done|done].
  eapply (optionally_inv (λ s, steps_ok (fp s))), (optionally_inv (λ s, steps_ok (fp s))), (optionally_inv (λ s, steps_ok (fp s)));
    [|exact H4| |exact H3| |exact H2|].
  - intros copies sa sb Hc Hs. eapply (for_each_inv (λ s, steps_ok (fp s))); [exact Hs| |exact Hc]. intros c sc sd _ Hsc Hrun.
    eapply (for_each_inv (λ s, steps_ok (fp s))); [exact Hsc| |exact Hrun]. intros p se sf _ Hse Hp. by eapply write_copy_ok.
  - intros rules sa sb Hc Hs. eapply (for_each_inv (λ s, steps_ok (fp s))); [exact Hs| |exact Hc].
    intros r sc sd _ Hsc Hrun. by eapply write_rule_ok.
  - intros acts sa sb Hc Hs. eapply (for_each_inv (λ s, steps_ok (fp s))); [exact Hs| |exact Hc].
    intros a sc sd _ Hsc Hrun. by eapply write_action_ok.
  - split; [done|by apply signed_nothing].
Qed.

(** Statements that run only rules of the master file, and declare none. *)
Definition known_only (l : list statement) : Prop := rules_declared master_names l ∧ declared l = [].
Lemma known_only_app l1 l2 : known_only l1 → known_only l2 → known_only (l1 ++ l2).
Proof. intros [H1 D1] [H2 D2]. split; [by apply rules_declared_append|by rewrite declared_app, D1, D2]. Qed.
Lemma known_only_edge e : command e ∈ master_names → known_only [Build e].
Proof. by repeat split. Qed.
Lemma steps_ok_known l new : steps_ok l → known_only new → steps_ok (l ++ new).
Proof. intros Hl [? ?]. by apply steps_ok_plain. Qed.

Lemma compiler_known ext cmd cpp : compiler ext = Some (cmd, cpp) → cmd ∈ master_names.
Proof.
  unfold compiler. intros Hc. repeat (destruct (_ in? _) in Hc); repeat (destruct (_ ==? _) in Hc);
    first [discriminate|injection Hc as <- _; by apply (bool_decide_unpack _)].
Qed.

Lemma write_sources_ok predepends srcs st st' :
  for_each srcs st (write_source w predepends) = Ok st' → known_only st.1.1 → known_only st'.1.1.
Proof.
  intros Hrun Hst. refine (for_each_inv (λ st, known_only st.1.1) _ _ _ _ Hst _ Hrun). clear st st' Hst Hrun.
  intros source [[l outputs] cpp] [[l' outputs'] cpp'] _ Hst Hrun. cbn [fst] in *. unfold write_source in Hrun.
  destruct (p_splitext source) as [filename ext]. destruct (compiler ext) as [[cmd is_cpp]|] eqn:Hc; [|by injection Hrun as <- _ _].
  apply bind_Ok in Hrun as (input & _ & Hrun). apply bind_Ok in Hrun as (output & _ & Hrun). injection Hrun as <- _ _.
  apply known_only_app; [done|]. apply known_only_edge. by eapply compiler_known.
Qed.

Lemma write_compiles_ok sp c srcs stamp l objs cpp link_deps :
  write_compiles w sp c srcs stamp = Ok (l, objs, cpp, link_deps) → known_only l.
Proof.
  unfold write_compiles. case_bool_decide as Hsrcs; [by intros [= <- _ _ _]|].
  intros H1. apply bind_Ok in H1 as ([[compile objs'] cpp'] & H2 & H1). apply bind_Ok in H1 as (obj_outputs & _ & H1).
  injection H1 as <- _ _ _. unfold WriteSources in H2. apply bind_Ok in H2 as (defs & _ & H2). apply bind_Ok in H2 as (includes & _ & H2).
  apply bind_Ok in H2 as ([[sl so] sc] & Hloop & H2). apply Ok_inj in H2. injection H2 as <- _ _.
  apply known_only_app; [by unfold host_variables; destruct (toolset w ==? _)|]. apply (known_only_app [_; _; _; _; _; _]); [done|].
  apply known_only_app; [|done]. by apply (write_sources_ok _ _ _ _ Hloop).
Qed.

Lemma WriteTarget_known outputs sp c link_deps stamp cpp t l t' : WriteTarget w outputs sp c link_deps stamp cpp t = Ok (l, t') → known_only l.
Proof.
  unfold WriteTarget. destruct (_ || _); [by intros [= <- _]|]. destruct (type sp ==? "static_library").
  - intros (output & _ & H1)%bind_Ok. injection H1 as <- _. apply known_only_edge. cbn [command].
    destruct (_ && _); by apply (bool_decide_unpack _).
  - intros ([stmts output] & H1 & H2)%bind_Ok. injection H2 as <- _. unfold WriteLink in H1.
    apply bind_Ok in H1 as (cmd & Hcmd & H1). apply bind_Ok in H1 as (lk & _ & H1). apply bind_Ok in H1 as (out & _ & H1).
    apply bind_Ok in H1 as (dirs & _ & H1). apply Ok_inj in H1. injection H1 as <- _.
    apply (known_only_app [_; _]); [done|]. apply known_only_edge. cbn [command]. unfold link_command in Hcmd.
    repeat (destruct (_ ==? _) in Hcmd); first [discriminate|injection Hcmd as <-; by apply (bool_decide_unpack _)].
Qed.

(** The file of a target. *)
Lemma WriteSpec_rules outputs sp wr : WriteSpec md5 w outputs sp = Ok wr → steps_ok (stmts wr).
Proof.
  unfold WriteSpec. intros H1. destruct (dict_get (configurations sp) _) as [c|]; [|done].
  apply bind_Ok in H1 as (actions_paths & _ & H1). apply bind_Ok in H1 as (compile_paths & _ & H1).
  apply bind_Ok in H1 as ([before_actions actions_depends] & Hba & H1). apply bind_Ok in H1 as ([before_compiles compile_depends] & Hbc & H1).
  apply bind_Ok in H1 as ([s actions_stamp] & Hs & H1). apply bind_Ok in H1 as ([[[compile objs] cpp] link_deps] & Hcompile & H1).
  apply bind_Ok in H1 as ([final t'] & Hfinal & H1).
  assert (stmts wr = (before_actions ++ before_compiles) ++ fp s ++ compile ++ final) as ->.
  { rewrite <- app_assoc. destruct (truthy (binary t')); [apply bind_Ok in H1 as (_ & _ & H1)|]; by injection H1 as <-. }
  apply collapsed_ok in Hba, Hbc. apply write_compiles_ok in Hcompile. apply WriteActionsRulesCopies_ok in Hs as [Hr Hsigned].
  assert (Hf : known_only final).
  { destruct (negb (link_deps ==? []) || _) in Hfinal; [by apply WriteTarget_known in Hfinal|by injection Hfinal as <- _]. }
  assert (Hb : known_only (before_actions ++ before_compiles)) by by apply known_only_app.
  assert (Hc : known_only (compile ++ final)) by by apply known_only_app. split.
  - apply rules_declared_append; [apply Hb|]. apply rules_declared_append; [done|apply Hc].
  - apply signed_app; [apply signed_nothing, Hb|]. apply signed_app; [done|apply signed_nothing, Hc].
Qed.
End master_theorems.

Section config_theorems.
Context `{SetOrder} `{RealPath} (md5 : text → text) (opts : options) (data : list (string * list (text * text))).
Context (target_dicts : list (string * spec)) (all_targets : list string).

(** A run is one over the targets, which all have the same settings. *)
Lemma generate_checked_Ok settings l g g' :
  for_each l g (generate_checked md5 opts data settings target_dicts all_targets) = Ok g' →
  for_each l g (generate_target md5 opts target_dicts all_targets) = Ok g' ∧ ∀ q, q ∈ l → settings_of data q = Ok settings.
Proof.
  revert g. induction l as [|q l IH]; intros g Hrun; cbn [for_each] in *.
  { split; [done|]. by intros q ?%elem_of_nil. }
  apply bind_Ok in Hrun as (g1 & Hq & Hrun). unfold generate_checked in Hq at 1.
  apply bind_Ok in Hq as (s & Hs & Hq). apply bind_Ok in Hq as (u & Hu & Hq). rewrite Hq. cbn.
  destruct (IH _ Hrun) as [Hall Hset]. split; [done|]. intros x [->|Hx]%elem_of_cons; [|by apply Hset].
  unfold assert, raise_if in Hu. destruct (bool_decide_reflect (settings = s)) as [->|]; done.
Qed.

Lemma GenerateOutputForConfig_Ok links dflt l m g :
  GenerateOutputForConfig md5 opts data links dflt l target_dicts all_targets = Ok (m, g) →
  generate_targets md5 opts target_dicts all_targets l = Ok g
  ∧ ∃ settings depth, (∀ q, q ∈ l → settings_of data q = Ok settings) ∧ links = Ok depth
    ∧ m = (Plain <$> master_variables opts (read_settings opts settings)) ++ [Plain Newline; Pool link_pool depth; Plain Newline]
          ++ (Rule <$> master_rules) ++ [Plain Newline] ++ (Subninja <$> subninjas g) ++ master_end (default (chars "all") dflt) g.
Proof.
  unfold GenerateOutputForConfig. intros H1. apply bind_Ok in H1 as (first & _ & H1). apply bind_Ok in H1 as (settings & _ & H1).
  apply bind_Ok in H1 as (depth & Hdepth & H1). apply bind_Ok in H1 as (g' & Hrun & H1). apply Ok_inj in H1. injection H1 as <- <-.
  apply generate_checked_Ok in Hrun as [Hrun Hset]. split; [done|]. by exists settings, depth.
Qed.

Lemma generate_targets_written l g :
  generate_targets md5 opts target_dicts all_targets l = Ok g →
  ∀ q file wr, (q, (file, wr)) ∈ targets g → ∃ sp outputs, WriteSpec md5 (writer_for opts q sp) outputs sp = Ok wr.
Proof.
  unfold generate_targets. apply (for_each_inv (λ g, ∀ q file wr, (q, (file, wr)) ∈ targets g → ∃ sp outputs, WriteSpec md5 (writer_for opts q sp) outputs sp = Ok wr)).
  - by intros q file wr ?%elem_of_nil.
  - intros q g1 g2 _ Hg1 Hq q' file wr. destruct (generate_one_Ok _ _ _ _ _ _ _ Hq) as (sp & f & wr' & _ & Hwr & -> & _).
    intros [Hin|Hin]%elem_of_app; [by eapply Hg1|]. apply list_elem_of_singleton in Hin as [= -> -> ->]. by exists sp, (target_outputs g1).
Qed.

(** What ninja reads: the statements of the master file, with those of the files where they are included. *)
Definition expand_statement (g : generated) (s : master_statement) : list statement :=
  match s with
  | Plain s => [s]
  | Rule r => [NewRule (rule_id r) (rule_command r) (rule_description r)]
  | Subninja path => concat ((λ p, stmts p.2.2) <$> filter (λ p, p.2.1 = path) (targets g))
  | _ => []
  end.
Definition expand (g : generated) (m : list master_statement) : list statement := concat (expand_statement g <$> m).

Lemma expand_app g a b : expand g (a ++ b) = expand g a ++ expand g b.
Proof. unfold expand. by rewrite fmap_app, concat_app. Qed.

Lemma rules_declared_concat known ls : (∀ l, l ∈ ls → rules_declared known l) → rules_declared known (concat ls).
Proof.
  induction ls as [|l ls IH]; intros Hl; [done|]. cbn. apply rules_declared_append; [apply Hl; by left|]. apply IH. intros x ?. apply Hl. by right.
Qed.

Lemma expand_known g (m : list master_statement) known : (∀ s, s ∈ m → rules_declared known (expand_statement g s)) → rules_declared known (expand g m).
Proof. intros Hm. apply rules_declared_concat. intros l (s & -> & Hs)%list_elem_of_fmap. by apply Hm. Qed.

Lemma master_end_known g dflt known : chars "phony" ∈ known → rules_declared known (expand g (master_end dflt g)).
Proof.
  intros Hp. apply expand_known. intros s Hs. unfold master_end in Hs. apply elem_of_app in Hs as [Hs|Hs].
  - destruct (target_short_names g ==? []); [by apply elem_of_nil in Hs|]. apply elem_of_app in Hs as [Hs|(p & -> & _)%list_elem_of_fmap]; [|done].
    apply elem_of_cons in Hs as [->| ->%list_elem_of_singleton]; done.
  - destruct (final_outputs g ==? []); [by apply elem_of_nil in Hs|].
    apply elem_of_cons in Hs as [->|[->| ->%list_elem_of_singleton]%elem_of_cons]; done.
Qed.

(** C28: The files declare every rule they use.  In what ninja reads of the master file that is generated, with the files of the
    targets where they are included, every edge runs phony or a rule that was declared before it. *)
Theorem build_rules_declared links dflt l m g :
  GenerateOutputForConfig md5 opts data links dflt l target_dicts all_targets = Ok (m, g) →
  rules_declared [chars "phony"] (expand g m).
Proof.
  intros (Hrun & settings & depth & _ & _ & ->)%GenerateOutputForConfig_Ok. pose proof (generate_targets_written _ _ Hrun) as Hwritten.
  rewrite !expand_app. apply rules_declared_append.
  { apply expand_known. intros s (v & -> & Hv)%list_elem_of_fmap. unfold master_variables in Hv.
    destruct (generator_supports_multiple_toolsets opts); repeat (apply elem_of_cons in Hv as [->|Hv]; [done|]); by apply elem_of_nil in Hv. }
  apply rules_declared_append; [done|]. apply rules_declared_app; [done|]. apply rules_declared_append; [done|].
  apply rules_declared_append; [|apply master_end_known; by apply (bool_decide_unpack _)].
  apply expand_known. intros s (path & -> & _)%list_elem_of_fmap. apply rules_declared_concat.
  intros stmts ([q [file wr]] & -> & [_ Hin]%list_elem_of_filter)%list_elem_of_fmap. destruct (Hwritten _ _ _ Hin) as (sp & outputs & Hwr).
  eapply rules_declared_mono; [|apply (WriteSpec_rules _ _ _ _ _ Hwr)]. by apply (bool_decide_unpack _).
Qed.

(** Rules have one name space in ninja, and targets do not share rules: if the digests of the names of two targets are
    different words of the same length, no rule is declared in the files of both. *)
Theorem target_rules_distinct l g q1 file1 wr1 q2 file2 wr2 n :
  generate_targets md5 opts target_dicts all_targets l = Ok g →
  (q1, (file1, wr1)) ∈ targets g → (q2, (file2, wr2)) ∈ targets g →
  length (md5 (chars q1)) = length (md5 (chars q2)) →
  only_word_chars (md5 (chars q1)) ≠ only_word_chars (md5 (chars q2)) →
  n ∈ declared (stmts wr1) → n ∉ declared (stmts wr2).
Proof.
  intros Hrun H1 H2 Hlen Hne Hn1 Hn2. pose proof (generate_targets_written _ _ Hrun) as Hwritten.
  destruct (Hwritten _ _ _ H1) as (sp1 & o1 & [_ Hs1]%WriteSpec_rules). destruct (Hwritten _ _ _ H2) as (sp2 & o2 & [_ Hs2]%WriteSpec_rules).
  destruct (Hs1 n Hn1) as [p1 Hp1], (Hs2 n Hn2) as [p2 Hp2]. rewrite Hp1 in Hp2. apply app_inj_2 in Hp2 as [_ Heq].
  - by apply Hne.
  - unfold only_word_chars. by rewrite !length_fmap.
Qed.
End config_theorems.

(** ** Tools *)

(** The first of the choices that is there. *)
Fixpoint first_choice (l : list (option text)) (dflt : text) : text :=
  match l with [] => dflt | Some x :: _ => x | None :: l => first_choice l dflt end.

(** The value of the last setting with a key. *)
Definition last_setting (key : string) (settings : list (text * text)) : option text :=
  snd <$> last (filter (λ s, s.1 = chars key) settings).

Section tools_theorems.
Context `{RealPath} (opts : options).
Implicit Types (settings : list (text * text)).

Lemma last_setting_snoc key settings k v :
  last_setting key (settings ++ [(k, v)]) = if decide (k = chars key) then Some v else last_setting key settings.
Proof.
  unfold last_setting. rewrite filter_app, filter_cons. cbn [fst]. destruct (decide (k = chars key)); cbn; [by rewrite last_snoc|by rewrite app_nil_r].
Qed.

(** Each tool is the last one that is set. *)
Lemma read_settings_last settings :
  let t := read_settings opts settings in
  let path v := p_join (build_to_root opts) v in
  cc t = default (chars "cc") (path <$> last_setting "CC" settings)
  ∧ cxx t = default (chars "c++") (path <$> last_setting "CXX" settings)
  ∧ cc_host t = (path <$> last_setting "CC.host" settings) ∧ cxx_host t = (path <$> last_setting "CXX.host" settings)
  ∧ cc_host_global_setting t = last_setting "CC.host" settings ∧ cxx_host_global_setting t = last_setting "CXX.host" settings.
Proof.
  unfold read_settings. induction settings as [|[k v] settings IH] using rev_ind; [done|].
  rewrite foldl_app. cbn [foldl]. destruct IH as (H1 & H2 & H3 & H4 & H5 & H6).
  rewrite !last_setting_snoc. set (t := foldl _ _ _) in *.
  split_and!; (case_decide as Hk; [by cbn; rewrite (bool_decide_eq_true_2 _ Hk)|by cbn; rewrite (bool_decide_eq_false_2 _ Hk)]).
Qed.

Definition env (var : string) : option text := chars <$> dict_get ((λ p, (of_chars p.1, of_chars p.2)) <$> gen_environ opts) var.

Lemma env_or_choice vars dflt : env_or opts vars dflt = first_choice (env <$> vars) dflt.
Proof.
  unfold env_or, env. induction vars as [|v vars IH]; cbn; [by rewrite chars_of_chars|].
  by destruct (dict_get _ v).
Qed.

Lemma first_choice_app a b dflt : first_choice (a ++ b) dflt = first_choice a (first_choice b dflt).
Proof. induction a as [|[x|] a IH]; cbn; done. Qed.

(** The tool that variables of the environment name, or else the last setting with a key, or else [dflt]. *)
Definition choose_tool (vars : list string) (key : string) (settings : list (text * text)) (dflt : text) : text :=
  first_choice ((env <$> vars) ++ [truthy (p_join (build_to_root opts) <$> last_setting key settings)]) dflt.

Lemma choose_tool_env vars key settings dflt tool :
  tool = default dflt (truthy (p_join (build_to_root opts) <$> last_setting key settings)) → env_or opts vars tool = choose_tool vars key settings dflt.
Proof. intros ->. rewrite env_or_choice. unfold choose_tool. rewrite first_choice_app. by destruct (truthy _). Qed.

Lemma host_tool_plain var host setting tool reference r :
  env_or opts [var] (default tool (truthy host)) = r → contains reference r = false → host_tool opts var host setting tool reference = r.
Proof. intros Hr Hc. unfold host_tool. rewrite Hr, Hc. by destruct (truthy setting). Qed.

End tools_theorems.

(** ** Numbers of links *)

Lemma link_memory_positive meminfo n : link_memory meminfo = Ok n → (1 ≤ n)%Z.
Proof.
  induction meminfo as [|l meminfo IH]; cbn; [intros [= <-]; lia|]. destruct (mem_total l); [|done].
  intros (k & _ & Hk)%bind_Ok. injection Hk as <-. lia.
Qed.

(** At least one link may run at once. *)
Lemma concurrent_links_positive platform meminfo memsize n : GetDefaultConcurrentLinks platform meminfo memsize = Ok n → (1 ≤ n)%Z.
Proof.
  unfold GetDefaultConcurrentLinks. destruct (platform in? _); [intros [= <-]; lia|].
  destruct (str_startswith _ _); [by apply link_memory_positive|]. destruct (platform ==? _); [|intros [= <-]; lia].
  destruct memsize; intros [= <-]; lia.
Qed.

Lemma drop_while_app {A} (P : A → bool) s l : forallb P s = true → (∀ c, head l = Some c → P c = false) → drop_while P (s ++ l) = l.
Proof.
  induction s as [|c s IH]; cbn; intros Hs Hl; [destruct l as [|c l]; [done|]; apply drop_while_head; by apply Hl|].
  apply andb_true_iff in Hs as [-> Hs]. by apply IH.
Qed.

Lemma mem_total_numeral s1 ds s2 r n :
  forallb Ascii.is_space s1 = true → forallb Ascii.is_space s2 = true → numeral_of 10 ds n →
  mem_total (chars "MemTotal:" ++ s1 ++ ds ++ s2 ++ chars "kB" ++ r) = Some ds.
Proof.
  intros Hs1 Hs2 Hds. pose proof (numeral_digits _ _ _ Hds) as Hd. unfold mem_total. rewrite lstarts_app.
  change (drop 9 (chars "MemTotal:" ++ ?l)) with l. unfold lstrip. rewrite drop_while_app; [|done|].
  - rewrite span_all.
    + rewrite drop_while_app; [by rewrite lstarts_app|done|]. by intros c [= <-].
    + apply forallb_forall. intros c Hc%list_elem_of_In. rewrite Forall_forall in Hd. apply bool_decide_eq_true_2. by apply Hd.
    + intros c Hc. destruct s2 as [|x s2]; [by injection Hc as <-|]. injection Hc as <-. cbn in Hs2. apply andb_true_iff in Hs2 as [Hx _].
      apply bool_decide_eq_false_2. intros Hdig. apply (digit_char_plain 10) in Hdig as [Hplain _]. congruence.
  - intros c Hc. destruct ds as [|d ds]; [by destruct Hds|]. injection Hc as <-. rewrite Forall_cons in Hd. by destruct Hd as [(? & _ & _)%digit_char_plain _].
Qed.

(** On Linux, one link for every eight gigabytes of memory. *)
Lemma concurrent_links_linux platform pre s1 ds s2 r post memsize n :
  str_startswith "linux" platform = true → Forall (λ l, mem_total l = None) pre →
  forallb Ascii.is_space s1 = true → forallb Ascii.is_space s2 = true → numeral_of 10 ds n →
  GetDefaultConcurrentLinks platform (pre ++ (chars "MemTotal:" ++ s1 ++ ds ++ s2 ++ chars "kB" ++ r) :: post) memsize
  = Ok (Z.max 1 (n / (8 * 2 ^ 20))).
Proof.
  intros Hp Hpre Hs1 Hs2 Hds. unfold GetDefaultConcurrentLinks. rewrite Hp.
  destruct (bool_decide_reflect (platform ∈ ["win32"; "cygwin"])) as [Hin|_].
  { rewrite !elem_of_cons in Hin. by destruct Hin as [->|[->|?%elem_of_nil]]. }
  induction Hpre as [|l pre Hl _ IH]; cbn [app link_memory]; [|by rewrite Hl].
  rewrite (mem_total_numeral _ _ _ _ n) by done. unfold int_of_str. rewrite chars_of_chars.
  pose proof (numeral_digits _ _ _ Hds) as Hd. rewrite read_int_unsigned.
  - rewrite (read_unsigned_numeral _ _ n) by done. done.
  - by eapply strip_digits.
  - destruct ds as [|d ds]; [done|]. rewrite Forall_cons in Hd. intros [= ->]. by destruct Hd as [(_ & ? & _)%digit_char_plain _].
  - destruct ds as [|d ds]; [done|]. rewrite Forall_cons in Hd. intros [= ->]. by destruct Hd as [(_ & _ & ?)%digit_char_plain _].
Qed.

(** ** Examples *)

(** A toy digest: the first letter of the name of a target of the file x.gyp. *)
Definition sample_digest (s : text) : text := [default "0"%char (s !! 6)].
#[local] Instance sample_paths : RealPath | 5 := realpath_nolinks (chars "/src").
Abbreviation sample_build :=
  (GenerateOutputForConfig sample_digest sample_options [("x.gyp", [])] (GetDefaultConcurrentLinks "linux2" [chars "MemTotal:  16777216 kB"] None) None
     ["x.gyp:header#target"; "x.gyp:base#target"; "x.gyp:prog#target"] sample_dicts ["x.gyp:prog#target"]).

Lemma sample_builds : ∃ m g, sample_build = Ok (m, g)
  ∧ Pool link_pool 2 ∈ m ∧ Subninja (chars "obj/base.ninja") ∈ m ∧ phony (chars "all") [chars "prog"] ∈ m
  ∧ ∃ hf hw bf bw, ("x.gyp:header#target", (hf, hw)) ∈ targets g ∧ ("x.gyp:base#target", (bf, bw)) ∈ targets g
    ∧ declared (stmts hw) = [chars "header_target_make_h"].
Proof.
  assert (H1 : match sample_build with
               | Ok (m, g) => match targets g with
                              | [(h, (_, hw)); (b, _); _] =>
                                  h = "x.gyp:header#target" ∧ b = "x.gyp:base#target" ∧ declared (stmts hw) = [chars "header_target_make_h"]
                                  ∧ subninjas g = [chars "obj/header.ninja"; chars "obj/base.ninja"; chars "obj/prog.ninja"]
                                  ∧ final_outputs g = [chars "prog"]
                              | _ => False end
               | Err _ => False end) by (vm_compute; repeat split).
  destruct sample_build as [[m g]|] eqn:Hrun; [|done]. exists m, g. split; [done|].
  destruct (targets g) as [|[h [hf hw]] [|[b [bf bw]] [|p []]]] eqn:Htargets; try done. destruct H1 as (-> & -> & Hdecl & Hsub & Hall).
  apply GenerateOutputForConfig_Ok in Hrun as (_ & settings & depth & _ & Hdepth & ->). injection Hdepth as <-.
  split_and!.
  - rewrite !elem_of_app. right. left. right. by left.
  - rewrite !elem_of_app. do 4 right. left. rewrite Hsub. right. by left.
  - rewrite !elem_of_app. do 5 right. unfold master_end. rewrite Hall. apply elem_of_app. right. right. by left.
  - exists hf, hw, bf, bw. split_and!; [by left|right; by left|done].
Qed.

Lemma build_rules_declared_witness : ∃ m g, sample_build = Ok (m, g) ∧ rules_declared [chars "phony"] (expand g m).
Proof.
  destruct sample_builds as (m & g & Hrun & _). exists m, g. split; [exact Hrun|].
  exact (build_rules_declared _ _ _ _ _ _ _ _ m g Hrun).
Defined.

Lemma target_rules_distinct_witness :
  ∃ g bf bw, generate_targets sample_digest sample_options sample_dicts ["x.gyp:prog#target"]
      ["x.gyp:header#target"; "x.gyp:base#target"; "x.gyp:prog#target"] = Ok g
    ∧ ("x.gyp:base#target", (bf, bw)) ∈ targets g ∧ chars "header_target_make_h" ∉ declared (stmts bw).
Proof.
  destruct sample_builds as (m & g & Hrun & _ & _ & _ & hf & hw & bf & bw & Hh & Hb & Hdecl).
  apply GenerateOutputForConfig_Ok in Hrun as [Hrun _]. exists g, bf, bw. split; [exact Hrun|]. split; [exact Hb|].
  refine (target_rules_distinct _ _ _ _ _ g _ hf hw _ bf bw _ Hrun Hh Hb eq_refl _ _); [done|].
  rewrite Hdecl. by left.
Defined.

(** A project that sets its compiler, with a compiler of the host in the environment. *)
Definition cross_options : options :=
  {| toplevel_dir := chars "/src"; build_dir := chars "out/Default"; gen_flavor := "linux"; gen_config := chars "Default";
     gen_environ := [(chars "CC_host", chars "gcc"); (chars "CXX_wrapper", chars "ccache")] |}.

(** A compiler of the host in the environment that refers to the one of the target gives way to the setting. *)
Definition overriding_options : options :=
  {| toplevel_dir := chars "/src"; build_dir := chars "out/Default"; gen_flavor := "linux"; gen_config := chars "Default";
     gen_environ := [(chars "CC_host", chars "$(CC) -m32")] |}.
Example setting_over_environment :
  master_variables overriding_options (read_settings overriding_options [(chars "CC.host", chars "gcc-4.6")]) !! 6
  = Some (Bind (chars "cc_host") (chars "gcc-4.6")).
Proof. vm_compute. reflexivity. Qed.
