(* ===== verification/Refs.v ===== *)
(** * References to variables in the text of a gyp file

    The parts of variable expansion in tools/gyp/pylib/gyp/input.py that work on
    text alone: [FindEnclosingBracketGroup], [IsStrCanonicalInt], the three
    expressions [early_variable_re], [late_variable_re] and [latelate_variable_re],
    which differ in one character, and [shlex.split] of the Python library. *)
From S2P Require Import Prelude PyStr PyPath Shell.
From Stdlib Require Import Ascii.

(** ** FindEnclosingBracketGroup *)

Definition LBRACKETS : list ascii := ["{"; "["; "("]%char.
(** [BRACKETS[char]], for a closing bracket. *)
Definition BRACKETS (c : ascii) : option ascii :=
  if (c ==? "}"%char) then Some "{"%char
  else if (c ==? "]"%char) then Some "["%char
  else if (c ==? ")"%char) then Some "("%char else None.

(** The loop; the top of [stack] is its first element. *)
Fixpoint bracket_loop (stack : list ascii) (start : Z) (index : nat) (s : text) : Z * Z :=
  match s with
  | [] => (-1, -1)%Z
  | char :: s =>
      if char in? LBRACKETS then
        bracket_loop (char :: stack) (if (start =? -1)%Z then Z.of_nat index else start) (S index) s
      else
        match BRACKETS char with
        | Some opening =>
            match stack with
            | [] => (-1, -1)%Z
            | top :: stack =>
                if negb (top ==? opening) then (-1, -1)%Z
                else if stack ==? [] then (start, Z.of_nat index + 1)%Z
                else bracket_loop stack start (S index) s
            end
        | None => bracket_loop stack start (S index) s
        end
  end.
Definition FindEnclosingBracketGroup (input_str : text) : Z * Z := bracket_loop [] (-1)%Z 0 input_str.

(** ** Canonical integers *)

Definition is_digit (c : ascii) : bool := c in? ["0"; "1"; "2"; "3"; "4"; "5"; "6"; "7"; "8"; "9"]%char.

(** A match of [$]: the end, or a newline at the end. *)
Definition at_end (s : text) : bool := (s ==? []) || (s ==? ["010"%char]).

(** [canonical_int_re.match(string)]: a zero, or an optional minus sign and digits
    that do not begin with a zero; backtracking into the digits cannot help, for
    the end cannot follow before their last. *)
Definition IsStrCanonicalInt (string : text) : bool :=
  match string with
  | [] => false
  | c :: rest =>
      if (c ==? "0"%char) then at_end rest
      else
        match (if (c ==? "-"%char) then rest else string) with
        | [] => false
        | d :: rest => is_digit d && negb (d ==? "0"%char) && at_end (drop_while is_digit rest)
        end
  end.

(** [int(s)] for a canonical integer, perhaps with a newline. *)
Definition digit_value (c : ascii) : Z := Z.of_nat (nat_of_ascii c) - 48.
Definition digits_value (l : text) : Z := foldl (λ n c, n * 10 + digit_value c)%Z 0%Z l.
Definition int_of_text (s : text) : Z :=
  let s := strip Ascii.is_space s in
  match s with
  | c :: rest => if (c ==? "-"%char) then (- digits_value rest)%Z else digits_value s
  | [] => 0%Z
  end.

(** ** References *)

(** What a match of a variable expression says: the range of the group [replace],
    and the groups [type], [command_string] (empty when it takes no part) and
    [is_array]. *)
Record ref_match := RefMatch {
  replace_start : nat;
  replace_end : nat;
  ref_type : text;
  command_string : text;
  is_array : text
}.

Definition is_command_char (c : ascii) : bool :=
  let n := nat_of_ascii c in
  is_digit c || (c in? ["-"; "_"; "."]%char) || ((65 <=? n) && (n <=? 90)) || ((97 <=? n) && (n <=? 122)).

(** [(?:(?:!?@?)|\|)?]: the longest of its matches, for what has to follow cannot
    begin with what a shorter one leaves. *)
Definition type_suffix (s : text) : text * text :=
  match s with
  | c :: r =>
      if (c ==? "!"%char) then
        match r with
        | c' :: r' => if (c' ==? "@"%char) then ([c; c'], r') else ([c], r)
        | [] => ([c], r)
        end
      else if (c ==? "@"%char) || (c ==? "|"%char) then ([c], r)
      else ([], s)
  | [] => ([], s)
  end.

(** [(?P<content>.*?)(\]?)\)]: how far it is to the first closing parenthesis and
    past it, when no newline comes before. *)
Fixpoint content_length (s : text) : option nat :=
  match s with
  | [] => None
  | c :: s =>
      if (c ==? ")"%char) then Some 1
      else if (c ==? "010"%char) then None
      else S <$> content_length s
  end.

(** A match that begins at the head of [s]: its length and groups. *)
Definition match_here (symbol : ascii) (s : text) : option (nat * text * text * text) :=
  match s with
  | [] => None
  | c :: s1 =>
      if negb (c ==? symbol) then None
      else
        let '(suffix, s2) := type_suffix s1 in
        let '(command, s3) := span is_command_char s2 in
        match s3 with
        | [] => None
        | c' :: s4 =>
            if negb (c' ==? "("%char) then None
            else
              let '(blanks, s5) := span Ascii.is_space s4 in
              let '(bracket, s6) := match s5 with
                | b :: s6 => if (b ==? "["%char) then ([b], s6) else ([], s5)
                | [] => ([], s5)
                end in
              n ← content_length s6;
              Some (S (length suffix + length command + S (length blanks + length bracket)) + n,
                    symbol :: suffix, command, blanks ++ bracket)
        end
  end.

(** [variable_re.finditer(input_str)]: the matches from left to right, none
    overlapping; [skip] is what is left of the last one. *)
Fixpoint finditer_from (symbol : ascii) (skip pos : nat) (s : text) : list ref_match :=
  match s with
  | [] => []
  | c :: rest =>
      match skip with
      | S skip => finditer_from symbol skip (S pos) rest
      | 0 =>
          match match_here symbol s with
          | Some (n, type, command, array) =>
              RefMatch pos (pos + n) type command array :: finditer_from symbol (pred n) (S pos) rest
          | None => finditer_from symbol 0 (S pos) rest
          end
      end
  end.
Definition finditer (symbol : ascii) (s : text) : list ref_match := finditer_from symbol 0 0 s.

(** ** shlex.split *)

Inductive shlex_state := Blank | Word | Quote (q : ascii) | Escape (back : option ascii).

Definition shlex_space (c : ascii) : bool := c in? [" "; "009"; "013"; "010"]%char.
Definition shlex_quote (c : ascii) : bool := c in? ["'"; "034"]%char.

(** [shlex.split(s)]: POSIX mode, no comments; inside double quotes a backslash
    keeps only a quote or a backslash from its meaning. *)
Fixpoint shlex_split_from (st : shlex_state) (token : text) (s : text) : result (list text) :=
  match s with
  | [] =>
      match st with
      | Blank => Ok []
      | Word => Ok [token]
      | Quote _ => Err (ValueError "No closing quotation")
      | Escape _ => Err (ValueError "No escaped character")
      end
  | c :: s =>
      match st with
      | Blank | Word =>
          if shlex_space c then
            match st with Word => cons token <$> shlex_split_from Blank [] s | _ => shlex_split_from Blank [] s end
          else if shlex_quote c then shlex_split_from (Quote c) token s
          else if (c ==? "\"%char) then shlex_split_from (Escape None) token s
          else shlex_split_from Word (token ++ [c]) s
      | Quote q =>
          if c ==? q then shlex_split_from Word token s
          else if (c ==? "\"%char) && (q ==? "034"%char) then shlex_split_from (Escape (Some q)) token s
          else shlex_split_from (Quote q) (token ++ [c]) s
      | Escape None => shlex_split_from Word (token ++ [c]) s
      | Escape (Some q) =>
          let kept : text := if (c ==? "\"%char) || (c ==? q) then [] else ["\"%char] in
          shlex_split_from (Quote q) (token ++ kept ++ [c]) s
      end
  end.
Definition shlex_split (s : text) : result (list text) := shlex_split_from Blank [] s.

(** * Theorems *)

(** ** Brackets *)

Definition is_bracket (c : ascii) : bool := (c in? LBRACKETS) || bool_decide (is_Some (BRACKETS c)).

(** Texts in which every bracket has its partner. *)
Inductive balanced : text → Prop :=
  | balanced_nil : balanced []
  | balanced_char c s : is_bracket c = false → balanced s → balanced (c :: s)
  | balanced_group o c s1 s2 :
      o ∈ LBRACKETS → BRACKETS c = Some o → balanced s1 → balanced s2 → balanced (o :: s1 ++ c :: s2).

(** Texts that close the brackets of a stack, and end where the last is closed. *)
Inductive closes : list ascii → text → Prop :=
  | closes_last o c s : BRACKETS c = Some o → balanced s → closes [o] (s ++ [c])
  | closes_more o c s o' stack s' :
      BRACKETS c = Some o → balanced s → closes (o' :: stack) s' → closes (o :: o' :: stack) (s ++ c :: s').

Lemma is_bracket_false c : is_bracket c = false ↔ (c ∉ LBRACKETS) ∧ BRACKETS c = None.
Proof.
  unfold is_bracket. rewrite orb_false_iff, !bool_decide_eq_false. by rewrite <- eq_None_not_Some.
Qed.

Lemma opening_not_closing o : o ∈ LBRACKETS → BRACKETS o = None.
Proof.
  intros Ho. unfold LBRACKETS in Ho. repeat (apply elem_of_cons in Ho as [->|Ho]; [done|]). by apply elem_of_nil in Ho.
Qed.
Lemma closing_not_opening c o : BRACKETS c = Some o → c ∉ LBRACKETS.
Proof. intros Hc Hin. apply opening_not_closing in Hin. congruence. Qed.

Lemma bracket_loop_balanced body rest stack start i :
  balanced body → stack ≠ [] → start ≠ (-1)%Z →
  bracket_loop stack start i (body ++ rest) = bracket_loop stack start (i + length body) rest.
Proof.
  intros Hb. revert rest stack i. induction Hb as [|c s Hc _ IH|o c s1 s2 Ho Hc _ IH1 _ IH2]; intros rest stack i Hs Hst.
  - by rewrite Nat.add_0_r.
  - apply is_bracket_false in Hc as [Hl Hr]. cbn [app bracket_loop]. rewrite bool_decide_eq_false_2, Hr by done.
    rewrite IH by done. f_equal. simpl. lia.
  - cbn [app bracket_loop]. rewrite bool_decide_eq_true_2 by done. rewrite (proj2 (Z.eqb_neq _ _)) by done.
    rewrite <- app_assoc, IH1 by done. cbn [app bracket_loop].
    rewrite bool_decide_eq_false_2, Hc by by eapply closing_not_opening.
    rewrite bool_decide_eq_true_2 by done. cbn [negb]. rewrite bool_decide_eq_false_2 by done.
    rewrite IH2 by done. f_equal. simpl. rewrite length_app. simpl. lia.
Qed.

Lemma closes_cons_char c stack s : is_bracket c = false → closes stack s → closes stack (c :: s).
Proof.
  intros Hc [o c' b Hc' Hb|o c' b o' stack' s' Hc' Hb Hs].
  - apply (closes_last _ _ (c :: b)); [done|by constructor].
  - apply (closes_more _ _ (c :: b)); [done|by constructor|done].
Qed.

Lemma closes_cons_open o top stack s :
  o ∈ LBRACKETS → closes (o :: top :: stack) s → closes (top :: stack) (o :: s).
Proof.
  intros Ho Hs. inversion Hs as [|? c b ? ? s' Hc Hb Hs' Heq]; subst.
  inversion Hs' as [? c' b' Hc' Hb'|? c' b' o' stack' s'' Hc' Hb' Hs'']; subst.
  - replace (o :: b ++ c :: b' ++ [c']) with ((o :: b ++ c :: b') ++ [c']) by (simpl; by rewrite <- app_assoc).
    apply closes_last; [done|by constructor].
  - replace (o :: b ++ c :: b' ++ c' :: s'') with ((o :: b ++ c :: b') ++ c' :: s'') by (simpl; by rewrite <- app_assoc).
    apply closes_more; [done|by constructor|done].
Qed.

Lemma bracket_loop_closes stack start i s r :
  stack ≠ [] → start ≠ (-1)%Z → bracket_loop stack start i s = r → r ≠ (-1, -1)%Z →
  ∃ w post, s = w ++ post ∧ closes stack w ∧ r = (start, Z.of_nat (i + length w)).
Proof.
  intros Hs Hst Hr Hne. revert stack i Hs Hr. induction s as [|c s IH]; intros stack i Hs Hr; cbn [bracket_loop] in Hr; [congruence|].
  case_bool_decide as Ho.
  - rewrite (proj2 (Z.eqb_neq _ _)) in Hr by done. apply IH in Hr as (w&post&->&Hw&->); [|done].
    destruct stack as [|top stack]; [done|]. exists (c :: w), post. split_and!; [done|by apply closes_cons_open|].
    do 2 f_equal. simpl. lia.
  - destruct (BRACKETS c) as [o|] eqn:Hc.
    + destruct stack as [|top stack]; [done|]. case_bool_decide as Htop; [|simpl in Hr; congruence]. subst top.
      cbn [negb] in Hr. case_bool_decide as Hnil.
      * subst stack. exists [c], s. split_and!; [done|by apply (closes_last _ _ []); [|constructor]|].
        rewrite <- Hr. f_equal. simpl. lia.
      * apply IH in Hr as (w&post&->&Hw&->); [|done]. destruct stack as [|o' stack]; [done|].
        exists (c :: w), post. split_and!; [done|by apply (closes_more _ _ []); [|constructor|]|].
        do 2 f_equal. simpl. lia.
    + apply IH in Hr as (w&post&->&Hw&->); [|done]. exists (c :: w), post.
      split_and!; [done|apply closes_cons_char; [by apply is_bracket_false|done]|]. do 2 f_equal. simpl. lia.
Qed.

(** The text begins, after characters that are no brackets, with a bracket group. *)
Definition bracket_group (s : text) (a b : nat) : Prop :=
  ∃ pre o body c post, s = pre ++ o :: body ++ c :: post ∧ forallb (λ c, negb (is_bracket c)) pre = true
    ∧ o ∈ LBRACKETS ∧ BRACKETS c = Some o ∧ balanced body ∧ a = length pre ∧ b = length pre + length body + 2.

Lemma bracket_loop_prefix pre s i :
  forallb (λ c, negb (is_bracket c)) pre = true →
  bracket_loop [] (-1)%Z i (pre ++ s) = bracket_loop [] (-1)%Z (i + length pre) s.
Proof.
  revert i. induction pre as [|c pre IH]; intros i Hp; [by rewrite Nat.add_0_r|].
  cbn [forallb] in Hp. apply andb_true_iff in Hp as [Hc%negb_true_iff Hp]. apply is_bracket_false in Hc as [Hl Hr].
  cbn [app bracket_loop]. rewrite bool_decide_eq_false_2, Hr by done. rewrite IH by done. f_equal. simpl. lia.
Qed.

Lemma FindEnclosingBracketGroup_group s a b :
  bracket_group s a b → FindEnclosingBracketGroup s = (Z.of_nat a, Z.of_nat b).
Proof.
  intros (pre&o&body&c&post&->&Hp&Ho&Hc&Hb&->&->). unfold FindEnclosingBracketGroup.
  rewrite bracket_loop_prefix by done. cbn [bracket_loop]. rewrite bool_decide_eq_true_2 by done. cbn [Z.eqb Pos.eqb].
  rewrite bracket_loop_balanced by (done || lia). cbn [bracket_loop].
  rewrite bool_decide_eq_false_2, Hc by by eapply closing_not_opening.
  rewrite bool_decide_eq_true_2 by done. cbn [negb]. rewrite bool_decide_eq_true_2 by done. f_equal. lia.
Qed.

Lemma bracket_loop_find i s r :
  bracket_loop [] (-1)%Z i s = r → r ≠ (-1, -1)%Z →
  ∃ a b, bracket_group s a b ∧ r = (Z.of_nat (i + a), Z.of_nat (i + b)).
Proof.
  revert i. induction s as [|c s IH]; intros i Hr Hne; cbn [bracket_loop] in Hr; [congruence|].
  case_bool_decide as Ho.
  - cbn [Z.eqb Pos.eqb] in Hr. apply bracket_loop_closes in Hr as (w&post&->&Hw&->); [|done|lia|done].
    inversion Hw as [? c' b Hc Hb|]; subst. exists 0, (length b + 2). split.
    + exists [], c, b, c', post. rewrite <- app_assoc. done.
    + rewrite length_app. simpl. do 2 f_equal; lia.
  - destruct (BRACKETS c) as [o|] eqn:Hc; [congruence|].
    apply IH in Hr as (a&b&(pre&o&body&c'&post&->&Hp&?&?&?&->&->)&->); [|done].
    exists (S (length pre)), (S (length pre + length body + 2)). split.
    + exists (c :: pre), o, body, c', post. split_and!; try done. cbn [forallb]. rewrite Hp.
      by rewrite (proj2 (is_bracket_false c)).
    + do 2 f_equal; lia.
Qed.

Lemma FindEnclosingBracketGroup_result s :
  (∃ a b, bracket_group s a b ∧ FindEnclosingBracketGroup s = (Z.of_nat a, Z.of_nat b))
  ∨ FindEnclosingBracketGroup s = (-1, -1)%Z ∧ ∀ a b, ¬ bracket_group s a b.
Proof.
  destruct (decide (FindEnclosingBracketGroup s = (-1, -1)%Z)) as [Heq|Hne].
  - right. split; [done|]. intros a b Hg%FindEnclosingBracketGroup_group. rewrite Hg in Heq.
    injection Heq. lia.
  - left. by destruct (bracket_loop_find 0 s _ eq_refl Hne) as (a&b&?&?); exists a, b.
Qed.

(** ** Canonical integers *)

(** Digits that do not begin with a zero. *)
Definition numeral (l : text) : Prop := forallb is_digit l = true ∧ head l ≠ Some "0"%char.

Lemma digit_cases c : is_digit c = true → ∃ n, (n < 10)%N ∧ c = pretty_N_char n ∧ digit_value c = Z.of_N n.
Proof.
  intros Hc%bool_decide_eq_true.
  repeat (apply elem_of_cons in Hc as [->|Hc];
    [let rec go k := (first [exists k; split_and!; [lia|reflexivity|reflexivity]|go constr:(N.succ k)]) in
     first [exists 0%N; by split_and!|exists 1%N; by split_and!|exists 2%N; by split_and!|exists 3%N; by split_and!
           |exists 4%N; by split_and!|exists 5%N; by split_and!|exists 6%N; by split_and!|exists 7%N; by split_and!
           |exists 8%N; by split_and!|exists 9%N; by split_and!]|]).
  by apply elem_of_nil in Hc.
Qed.

Lemma pretty_char_digit n : (n < 10)%N →
  is_digit (pretty_N_char n) = true ∧ digit_value (pretty_N_char n) = Z.of_N n
  ∧ (pretty_N_char n = "0"%char ↔ n = 0%N).
Proof.
  intros Hn. assert (Hin : n ∈ [0; 1; 2; 3; 4; 5; 6; 7; 8; 9]%N).
  { rewrite !elem_of_cons. lia. }
  repeat (apply elem_of_cons in Hin as [->|Hin]; [by split_and!|]). by apply elem_of_nil in Hin.
Qed.

Lemma digits_value_app l1 l2 c : digits_value (l1 ++ l2 ++ [c]) = (digits_value (l1 ++ l2) * 10 + digit_value c)%Z.
Proof. unfold digits_value. by rewrite app_assoc, foldl_app. Qed.
Lemma digits_value_snoc l c : digits_value (l ++ [c]) = (digits_value l * 10 + digit_value c)%Z.
Proof. apply (digits_value_app [] l c). Qed.

Lemma numeral_snoc_inv l c : numeral (l ++ [c]) → numeral l ∧ is_digit c = true ∧ (l = [] → c ≠ "0"%char).
Proof.
  intros [Hd Hh]. rewrite forallb_app in Hd. apply andb_true_iff in Hd as [Hl Hc]. cbn in Hc.
  rewrite andb_true_r in Hc. split_and!; [|done|].
  - split; [done|]. by destruct l.
  - intros ->. cbn in Hh. congruence.
Qed.

Lemma numeral_positive l : numeral l → l ≠ [] → (0 < digits_value l)%Z.
Proof.
  induction l as [|c l IH] using rev_ind; intros Hn Hne; [done|].
  apply numeral_snoc_inv in Hn as (Hn&Hc&Hz). rewrite digits_value_snoc.
  apply digit_cases in Hc as (n&Hlt&->&->). destruct (decide (l = [])) as [->|Hl].
  - cbn. assert (n ≠ 0%N); [|lia]. intros ->. by apply Hz.
  - specialize (IH Hn Hl). lia.
Qed.

Lemma pretty_numeral l : numeral l → ∀ s, chars (pretty_N_go (Z.to_N (digits_value l)) s) = l ++ chars s.
Proof.
  induction l as [|c l IH] using rev_ind; intros Hn s; [done|].
  assert (Hpos := numeral_positive _ Hn ltac:(by destruct l)).
  apply numeral_snoc_inv in Hn as (Hn&Hc&_). rewrite digits_value_snoc in *.
  apply digit_cases in Hc as (n&Hlt&->&Hv). rewrite Hv in *.
  assert (Hge : (0 ≤ digits_value l)%Z).
  { destruct (decide (l = [])) as [->|Hl]; [done|]. apply Z.lt_le_incl. by apply numeral_positive. }
  rewrite pretty_N_go_step by lia.
  replace (Z.to_N (digits_value l * 10 + Z.of_N n) `div` 10)%N with (Z.to_N (digits_value l)).
  2: { apply (N.div_unique _ _ _ n); lia. }
  replace (Z.to_N (digits_value l * 10 + Z.of_N n) `mod` 10)%N with n.
  2: { apply (N.mod_unique _ _ (Z.to_N (digits_value l))); lia. }
  rewrite IH by done. rewrite <- app_assoc. done.
Qed.

Lemma numeral_of_N n : (0 < n)%N → ∃ l, numeral l ∧ l ≠ [] ∧ digits_value l = Z.of_N n.
Proof.
  induction (N.lt_wf_0 n) as [n _ IH]. intros Hn.
  destruct (pretty_char_digit (n mod 10)) as (Hd&Hv&Hz); [by apply N.mod_lt|].
  pose proof (N.div_mod n 10 ltac:(done)) as Hdm.
  destruct (decide (0 < n / 10)%N) as [Hlt|Hlt].
  - destruct (IH (n / 10)%N) as (l&[Hl Hh]&Hne&Hval); [by apply N.div_lt|done|].
    exists (l ++ [pretty_N_char (n mod 10)]). split_and!.
    + split; [rewrite forallb_app, Hl; cbn; by rewrite Hd|]. by destruct l.
    + by destruct l.
    + rewrite digits_value_snoc, Hval, Hv. lia.
  - revert Hd Hv Hz Hdm Hlt. generalize (n / 10)%N (n mod 10)%N. intros q r Hd Hv Hz Hdm Hlt.
    exists [pretty_N_char r]. split_and!; [|done|unfold digits_value; cbn [foldl]; rewrite Hv; lia].
    split; [cbn; by rewrite Hd|]. cbn. intros [= Hc%Hz]. lia.
Qed.

(** The texts of the positive integers are the numerals. *)
Lemma pretty_positive_numeral z : (0 < z)%Z → numeral (chars (str_of_int z)) ∧ digits_value (chars (str_of_int z)) = z.
Proof.
  intros Hz. destruct (numeral_of_N (Z.to_N z)) as (l&Hl&Hne&Hv); [lia|].
  assert (chars (str_of_int z) = l) as ->; [|split; [done|lia]].
  unfold str_of_int, pretty, pretty_Z, pretty, pretty_positive, pretty. destruct z as [|p|p]; try lia.
  unfold pretty_N. rewrite decide_False by lia.
  pose proof (pretty_numeral l Hl "") as Hgo. rewrite app_nil_r in Hgo. rewrite <- Hgo, Hv. by do 2 f_equal.
Qed.

Lemma numeral_pretty l : numeral l → l ≠ [] → chars (str_of_int (digits_value l)) = l.
Proof.
  intros Hl Hne. pose proof (numeral_positive l Hl Hne) as Hpos.
  pose proof (pretty_numeral l Hl "") as Hgo. rewrite app_nil_r in Hgo.
  unfold str_of_int, pretty, pretty_Z, pretty, pretty_positive, pretty. destruct (digits_value l) as [|p|p] eqn:Hv; try lia.
  unfold pretty_N. rewrite decide_False by lia. exact Hgo.
Qed.

(** The texts of integers, and their values. *)
Definition is_int_text (s : text) (z : Z) : Prop := s = chars (str_of_int z).

Lemma drop_while_all (P : ascii → bool) l r :
  forallb P l = true → (∀ c, head r = Some c → P c = false) → drop_while P (l ++ r) = r.
Proof.
  intros Hl Hr. induction l as [|c l IH]; cbn [app].
  - destruct r as [|c r]; [done|]. cbn. by rewrite (Hr c).
  - cbn in Hl. apply andb_true_iff in Hl as [Hc Hl]. cbn. rewrite Hc. by apply IH.
Qed.

Lemma drop_while_split (P : ascii → bool) l : ∃ l1, l = l1 ++ drop_while P l ∧ forallb P l1 = true.
Proof.
  induction l as [|c l [l1 [Heq Hl1]]]; [by exists []|]. cbn. destruct (P c) eqn:Hc.
  - exists (c :: l1). cbn. rewrite Hc, Hl1. split; [|done]. by f_equal.
  - by exists [].
Qed.

Lemma at_end_cases s : at_end s = true ↔ s = [] ∨ s = ["010"%char].
Proof. unfold at_end. rewrite orb_true_iff, !bool_decide_eq_true. done. Qed.

Lemma int_text_negative z : (z < 0)%Z → chars (str_of_int z) = "-"%char :: chars (str_of_int (- z)).
Proof. destruct z as [|p|p]; [lia..|]. done. Qed.

Lemma numeral_canonical l e :
  numeral l → l ≠ [] → at_end e = true →
  match l ++ e with
  | [] => false
  | d :: rest => is_digit d && negb (d ==? "0"%char) && at_end (drop_while is_digit rest)
  end = true.
Proof.
  intros [Hd Hh] Hne He. destruct l as [|d l]; [done|]. cbn in Hd, Hh. apply andb_true_iff in Hd as [Hd Hl].
  cbn [app]. rewrite Hd, bool_decide_eq_false_2 by congruence. cbn [andb negb].
  rewrite drop_while_all; [done|done|]. apply at_end_cases in He as [->| ->]; [done|]. by intros c [= <-].
Qed.

Lemma canonical_numeral s :
  match s with
  | [] => false
  | d :: rest => is_digit d && negb (d ==? "0"%char) && at_end (drop_while is_digit rest)
  end = true → ∃ l e, s = l ++ e ∧ numeral l ∧ l ≠ [] ∧ at_end e = true.
Proof.
  destruct s as [|d rest]; [done|]. rewrite !andb_true_iff. intros [[Hd Hz%negb_true_iff%bool_decide_eq_false] He].
  destruct (drop_while_split is_digit rest) as (l1&Heq&Hl1). exists (d :: l1), (drop_while is_digit rest).
  split_and!; [cbn; by rewrite <- Heq| |done|done]. split; cbn; [by rewrite Hd|]. congruence.
Qed.

Lemma IsStrCanonicalInt_spec s :
  IsStrCanonicalInt s = true ↔ ∃ z e, s = chars (str_of_int z) ++ e ∧ at_end e = true.
Proof.
  split.
  - destruct s as [|c rest]; [done|]. cbn [IsStrCanonicalInt]. case_bool_decide as H0; [subst; by exists 0%Z, rest|].
    case_bool_decide as Hm; intros Hs; [|apply (canonical_numeral (c :: rest)) in Hs];
      [apply canonical_numeral in Hs|]; destruct Hs as (l&e&Heq&Hl&Hne&He).
    + subst. exists (- digits_value l)%Z, e. split; [|done].
      pose proof (numeral_positive l Hl Hne). rewrite int_text_negative, Z.opp_involutive, numeral_pretty by (done || lia).
      done.
    + exists (digits_value l), e. by rewrite numeral_pretty.
  - intros (z&e&->&He). destruct (Z.lt_trichotomy z 0) as [Hz|[->|Hz]].
    + rewrite int_text_negative by done. cbn [app IsStrCanonicalInt]. rewrite bool_decide_eq_false_2, bool_decide_eq_true_2 by done.
      destruct (pretty_positive_numeral (- z)) as [Hn Hv]; [lia|]. apply numeral_canonical; [done| |done].
      intros Hnil. rewrite Hnil in Hv. cbn in Hv. lia.
    + done.
    + destruct (pretty_positive_numeral z) as [Hn Hv]; [lia|].
      assert (Hne : chars (str_of_int z) ≠ []) by (intros Hnil; rewrite Hnil in Hv; cbn in Hv; lia).
      pose proof (numeral_canonical _ _ Hn Hne He) as Hc. destruct Hn as [Hd Hh].
      destruct (chars (str_of_int z)) as [|d l]; [done|]. cbn [app IsStrCanonicalInt] in *. cbn in Hh.
      rewrite bool_decide_eq_false_2 by congruence. rewrite (bool_decide_eq_false_2 (d = "-"%char)); [done|].
      intros ->. done.
Qed.

Lemma strip_blanks l e :
  l ≠ [] → forallb (λ c, negb (Ascii.is_space c)) l = true → forallb Ascii.is_space e = true →
  strip Ascii.is_space (l ++ e) = l.
Proof.
  intros Hne Hl He. unfold strip, lstrip, rstrip.
  assert (Hall : ∀ c, c ∈ l → Ascii.is_space c = false).
  { intros c Hc. rewrite forallb_forall in Hl. apply negb_true_iff, Hl. by apply list_elem_of_In. }
  destruct l as [|c l]; [done|]. cbn [app drop_while]. rewrite (Hall c) by (by left).
  rewrite reverse_cons, reverse_app, <- app_assoc, <- reverse_cons, drop_while_all; [by rewrite reverse_involutive| |].
  - rewrite forallb_forall in *. intros x Hx. apply He. apply list_elem_of_In, elem_of_reverse. by apply list_elem_of_In.
  - intros x Hx. apply Hall. apply elem_of_reverse. destruct (reverse (c :: l)); [done|]. injection Hx as ->. by left.
Qed.

Lemma digit_not_space c : is_digit c = true → Ascii.is_space c = false ∧ c ≠ "-"%char.
Proof.
  intros Hc%bool_decide_eq_true. repeat (apply elem_of_cons in Hc as [->|Hc]; [done|]). by apply elem_of_nil in Hc.
Qed.

Lemma numeral_no_space l : forallb is_digit l = true → forallb (λ c, negb (Ascii.is_space c)) l = true.
Proof. rewrite !forallb_forall. intros Hl c Hc. by rewrite (proj1 (digit_not_space c (Hl c Hc))). Qed.

Lemma int_of_text_spec z e : at_end e = true → int_of_text (chars (str_of_int z) ++ e) = z.
Proof.
  intros He. assert (Hsp : forallb Ascii.is_space e = true) by by apply at_end_cases in He as [->| ->].
  unfold int_of_text. destruct (Z.lt_trichotomy z 0) as [Hz|[->|Hz]].
  - rewrite int_text_negative by done. destruct (pretty_positive_numeral (- z)) as [[Hd Hh] Hv]; [lia|].
    rewrite strip_blanks; [|done| |done].
    + rewrite bool_decide_eq_true_2 by done. rewrite Hv. lia.
    + cbn. by apply numeral_no_space.
  - by apply at_end_cases in He as [->| ->].
  - destruct (pretty_positive_numeral z) as [[Hd Hh] Hv]; [lia|].
    assert (Hne : chars (str_of_int z) ≠ []) by (intros Hnil; rewrite Hnil in Hv; cbn in Hv; lia).
    rewrite strip_blanks by (try done; by apply numeral_no_space).
    destruct (chars (str_of_int z)) as [|c l]; [done|]. rewrite bool_decide_eq_false_2; [done|].
    cbn in Hd. apply andb_true_iff in Hd as [Hc _]. by destruct (digit_not_space c Hc).
Qed.

(** ** shlex *)

Lemma shlex_quoted argument token s :
  "`"%char ∉ argument →
  shlex_split_from (Quote "034"%char) token (escape_sub argument ++ "034"%char :: s)
  = shlex_split_from Word (token ++ argument) s.
Proof.
  revert token. induction argument as [|c l IH]; intros token Hd.
  { cbn. by rewrite app_nil_r. }
  apply not_elem_of_cons in Hd as [Hc Hd].
  replace (token ++ c :: l) with ((token ++ [c]) ++ l) by (by rewrite <- app_assoc). rewrite <- IH by done.
  unfold escape_sub. cbn [fmap list_fmap concat]. rewrite <- app_assoc. unfold escape_char at 1.
  destruct (decide (c ∈ escape_chars)) as [Hin|Hin].
  - rewrite bool_decide_eq_true_2 by done. unfold escape_chars in Hin.
    apply elem_of_cons in Hin as [->|Hin]; [reflexivity|].
    apply elem_of_cons in Hin as [->|Hin]; [reflexivity|].
    apply list_elem_of_singleton in Hin as ->. done.
  - rewrite bool_decide_eq_false_2 by done. cbn [app shlex_split_from].
    rewrite (bool_decide_eq_false_2 (c = "034"%char)) by (intros ->; by apply Hin, (bool_decide_unpack _)).
    rewrite (bool_decide_eq_false_2 (c = "\"%char)) by (intros ->; by apply Hin, (bool_decide_unpack _)). done.
Qed.

Lemma shlex_plain_char st c token s :
  plain_char c → c ≠ "013"%char → st = Blank ∨ st = Word →
  shlex_split_from st token (escape_char c ++ s) = shlex_split_from Word (token ++ [c]) s.
Proof.
  intros Hp Hcr Hst. unfold escape_char. destruct (decide (c ∈ escape_chars)) as [Hin|Hin].
  - rewrite bool_decide_eq_true_2 by done. unfold escape_chars in Hin.
    by destruct Hst as [-> | ->]; (repeat (apply elem_of_cons in Hin as [->|Hin]; [reflexivity|]); by apply elem_of_nil in Hin).
  - rewrite bool_decide_eq_false_2 by done. cbn [app].
    assert (Hsp : shlex_space c = false).
    { apply bool_decide_eq_false. intros Hb.
      repeat (apply elem_of_cons in Hb as [->|Hb]; [first [done|by apply Hp, (bool_decide_unpack _)]|]). by apply elem_of_nil in Hb. }
    assert (Hq : shlex_quote c = false).
    { apply bool_decide_eq_false. intros Hb.
      repeat (apply elem_of_cons in Hb as [->|Hb];
        [first [by apply Hp, (bool_decide_unpack _)|by apply Hin, (bool_decide_unpack _)]|]). by apply elem_of_nil in Hb. }
    assert (c ≠ "\"%char) by (intros ->; by apply Hin, (bool_decide_unpack _)).
    destruct Hst as [-> | ->]; cbn [shlex_split_from]; by rewrite Hsp, Hq, bool_decide_eq_false_2.
Qed.

(** The two characters that gyp's encoding and shlex do not agree on. *)
Definition shlex_safe (argument : text) : Prop := ("`"%char ∉ argument) ∧ "013"%char ∉ argument.

Lemma shlex_plain argument token s :
  Forall plain_char argument → "013"%char ∉ argument →
  shlex_split_from Word token (escape_sub argument ++ s) = shlex_split_from Word (token ++ argument) s.
Proof.
  intros Hp. revert token. induction Hp as [|c l Hc _ IH]; intros token Hcr; [by rewrite app_nil_r|].
  apply not_elem_of_cons in Hcr as [Hne Hcr].
  unfold escape_sub. cbn [fmap list_fmap concat]. rewrite <- app_assoc, shlex_plain_char by auto.
  fold (escape_sub l). by rewrite IH, <- app_assoc.
Qed.

Lemma shlex_argument argument s :
  shlex_safe argument →
  shlex_split_from Blank [] (EncodePOSIXShellArgument argument ++ s) = shlex_split_from Word argument s.
Proof.
  intros [Hb Hcr]. unfold EncodePOSIXShellArgument. destruct (quote_search argument) eqn:Hq.
  - rewrite <- !app_assoc. cbn [app]. cbn [shlex_split_from].
    change (shlex_space "034"%char) with false. change (shlex_quote "034"%char) with true. cbn iota.
    by rewrite shlex_quoted.
  - apply quote_search_false in Hq as [Hne Hp]. cbn [app]. rewrite app_nil_r.
    destruct Hp as [|c l Hc Hp]; [done|]. apply not_elem_of_cons in Hcr as [Hnc Hcr].
    unfold escape_sub. cbn [fmap list_fmap concat].
    rewrite <- app_assoc, shlex_plain_char by auto. fold (escape_sub l). by rewrite shlex_plain.
Qed.

Lemma shlex_split_list arguments :
  Forall shlex_safe arguments → shlex_split (EncodePOSIXShellList arguments) = Ok arguments.
Proof.
  intros Ha. unfold shlex_split, EncodePOSIXShellList. induction Ha as [|a l Hd Hl IH]; [done|].
  destruct l as [|b l].
  - cbn [fmap list_fmap ljoin]. rewrite <- (app_nil_r (EncodePOSIXShellArgument a)). by rewrite shlex_argument.
  - cbn [fmap list_fmap]. cbn [fmap list_fmap] in IH. rewrite ljoin_cons by done. cbn [app].
    rewrite shlex_argument by done. cbn [shlex_split_from]. change (shlex_space " "%char) with true. cbn iota.
    by rewrite IH.
Qed.

(** A quoted backquote does not come back as it was. *)
Example shlex_backquote :
  shlex_split (EncodePOSIXShellList [chars "a `b`"]) = Ok [chars "a \`b\`"].
Proof. reflexivity. Qed.

(** * Properties *)

(** FindEnclosingBracketGroup returns the range of the first bracket of the
    text and everything up to its partner, when what lies between is properly
    bracketed, and (-1, -1) exactly when the text has no such group. *)
Theorem FindEnclosingBracketGroup_correct s :
  (∃ a b, bracket_group s a b ∧ FindEnclosingBracketGroup s = (Z.of_nat a, Z.of_nat b))
  ∨ FindEnclosingBracketGroup s = (-1, -1)%Z ∧ ∀ a b, ¬ bracket_group s a b.
Proof. apply FindEnclosingBracketGroup_result. Qed.

(** IsStrCanonicalInt accepts exactly the texts str(z) of the integers, with or
    without a newline at the end, and int() gives z back. *)
Theorem IsStrCanonicalInt_correct s :
  IsStrCanonicalInt s = true ↔
  ∃ z e, s = chars (str_of_int z) ++ e ∧ at_end e = true ∧ int_of_text s = z.
Proof.
  rewrite IsStrCanonicalInt_spec. split.
  - intros (z&e&->&He). exists z, e. by rewrite int_of_text_spec.
  - intros (z&e&->&He&_). by exists z, e.
Qed.

(** Splitting the encoded form of a list with shlex.split, as the expansion of a
    list into a list by way of a string does, gives the list back, when no item has
    a backquote or a carriage return; the items may hold blanks, quotes, backslashes
    and dollar signs, and may be empty. *)
Theorem shlex_split_EncodePOSIXShellList arguments :
  Forall shlex_safe arguments → shlex_split (EncodePOSIXShellList arguments) = Ok arguments.
Proof. apply shlex_split_list. Qed.

Lemma shlex_split_EncodePOSIXShellList_witness :
  shlex_split (EncodePOSIXShellList [chars "a b"; []; chars "it's \$HOME"; chars "-DX=1"])
  = Ok [chars "a b"; []; chars "it's \$HOME"; chars "-DX=1"].
Proof.
  apply shlex_split_EncodePOSIXShellList. repeat (constructor; [split; by apply (bool_decide_unpack _)|]). constructor.
Defined.
