(* ===== verification/Store.v ===== *)
(** * The object store of the expansion phases

    Variable expansion works on dictionaries and lists that are shared: the
    variables of a scope are the very lists of the dictionary they are taken from,
    and expanding one changes them in place.  This file has the store of list and
    dictionary objects, a monad of computations that change it and may raise, the
    conversion of trees to and from objects, and [MergeDicts] and [MergeLists] of
    tools/gyp/pylib/gyp/input.py on objects. *)
From S2P Require Import Prelude PyDict PyStr PyPath PyVal Common Merge.
From Stdlib Require Import Ascii.

(** A value: a string, an integer, or a reference to an object. *)
Inductive hval :=
  | HStr (s : string)
  | HInt (z : Z)
  | HList (a : nat)
  | HDict (a : nat).
#[export] Instance hval_eq_dec : EqDecision hval.
Proof. solve_decision. Defined.

Abbreviation hdict := (list (string * hval)).

(** The objects, the next address, and what outlives a computation otherwise: the
    results of commands and the files written. *)
Record world := World {
  lists : gmap nat (list hval);
  dicts : gmap nat hdict;
  next : nat;
  cached_command_results : list (string * string);
  written_files : list (string * string)
}.

(** ** Computations *)
Definition M (A : Type) : Type := world → result (A * world).

#[export] Instance M_ret : MRet M := λ A a w, Ok (a, w).
#[export] Instance M_bind : MBind M := λ A B f m w,
  match m w with Ok (a, w') => f a w' | Err e => Err e end.
#[export] Instance M_fmap : FMap M := λ A B f m w,
  match m w with Ok (a, w') => Ok (f a, w') | Err e => Err e end.

Definition throw {A} (e : exn) : M A := λ _, Err e.
Definition lift {A} (m : result A) : M A := λ w, match m with Ok a => Ok (a, w) | Err e => Err e end.
Definition throw_if (b : bool) (e : exn) : M unit := if b then throw e else mret tt.

Fixpoint for_m {A} (l : list A) (body : A → M unit) : M unit :=
  match l with [] => mret tt | x :: l => _ ← body x; for_m l body end.
Fixpoint map_m {A B} (f : A → M B) (l : list A) : M (list B) :=
  match l with [] => mret [] | x :: l => y ← f x; ys ← map_m f l; mret (y :: ys) end.

(** ** Objects

    A reference always refers to an object, so the default for a missing one is
    never used. *)
Definition list_at (w : world) (a : nat) : list hval := default [] (lists w !! a).
Definition dict_at (w : world) (a : nat) : hdict := default [] (dicts w !! a).

Definition read_list (a : nat) : M (list hval) := λ w, Ok (list_at w a, w).
Definition read_dict (a : nat) : M hdict := λ w, Ok (dict_at w a, w).

Definition set_list (a : nat) (l : list hval) (w : world) : world :=
  World (<[a := l]> (lists w)) (dicts w) (next w) (cached_command_results w) (written_files w).
Definition set_dict (a : nat) (d : hdict) (w : world) : world :=
  World (lists w) (<[a := d]> (dicts w)) (next w) (cached_command_results w) (written_files w).
Definition write_list (a : nat) (l : list hval) : M unit := λ w, Ok (tt, set_list a l w).
Definition write_dict (a : nat) (d : hdict) : M unit := λ w, Ok (tt, set_dict a d w).

(** A new object. *)
Definition new_list (l : list hval) : M nat := λ w,
  Ok (next w, World (<[next w := l]> (lists w)) (dicts w) (S (next w)) (cached_command_results w) (written_files w)).
Definition new_dict (d : hdict) : M nat := λ w,
  Ok (next w, World (lists w) (<[next w := d]> (dicts w)) (S (next w)) (cached_command_results w) (written_files w)).

Definition h_class_name (v : hval) : string :=
  match v with HStr _ => "str" | HInt _ => "int" | HList _ => "list" | HDict _ => "dict" end.
Definition h_is_scalar (v : hval) : bool := match v with HStr _ | HInt _ => true | _ => false end.

(** [for x in v]: the values [x] takes. *)
Definition iter_hval (v : hval) : M (list hval) :=
  match v with
  | HList a => read_list a
  | HStr s => mret ((λ c, HStr (String c "")) <$> chars s)
  | HDict a => d ← read_dict a; mret (HStr <$> dict_keys d)
  | HInt _ => throw (TypeError "int")
  end.

(** ** Trees *)

(** The tree a value stands for; no object is part of itself, so fuel for as many
    levels as there are objects is enough. *)
Fixpoint read_tree (fuel : nat) (w : world) (v : hval) : result pyval :=
  match fuel with
  | 0 => Err OutOfFuel
  | S fuel =>
      match v with
      | HStr s => Ok (VStr s)
      | HInt z => Ok (VInt z)
      | HList a => VList <$> map_result (read_tree fuel w) (list_at w a)
      | HDict a => VDict <$> map_result (λ '(k, v), v ← read_tree fuel w v; Ok (k, v)) (dict_at w a)
      end
  end.
Definition tree_of (v : hval) : M pyval := λ w, lift (read_tree (S (next w)) w v) w.

(** New objects for a tree. *)
Fixpoint alloc_tree (v : pyval) : M hval :=
  match v with
  | VStr s => mret (HStr s)
  | VInt z => mret (HInt z)
  | VList l =>
      l ← (fix go l : M (list hval) := match l with
        | [] => mret []
        | x :: l => y ← alloc_tree x; ys ← go l; mret (y :: ys) end) l;
      HList <$> new_list l
  | VDict d =>
      d ← (fix go d : M hdict := match d with
        | [] => mret []
        | (k, x) :: d => y ← alloc_tree x; ys ← go d; mret ((k, y) :: ys) end) d;
      HDict <$> new_dict d
  end.

(** ** Merging in place *)
Section merge.
Context `{Globals} `{RealPath}.

Definition h_make_path_relative (to_file fro_file : string) (item : hval) : result hval :=
  match item with
  | HStr s => HStr <$> MakePathRelative to_file fro_file s
  | _ => if to_file ==? fro_file then Ok item else Err (TypeError "expected string or buffer")
  end.

(** [while to_item in to: to.remove(to_item)], for a string or an integer. *)
Definition h_remove_all (x : hval) (l : list hval) : list hval := filter (λ y, y ≠ x) l.

Definition h_bad_merge (v old : hval) : bool :=
  if h_is_scalar v then negb (h_is_scalar old) else negb (h_class_name v ==? h_class_name old).
Definition h_bad_merge_error (v old : hval) (key : string) : exn :=
  TypeError ("Attempt to merge dict value of type " +:+ h_class_name v +:+ " into incompatible type "
             +:+ h_class_name old +:+ " for key " +:+ key).

(** The end of one iteration of MergeLists, on the list at [to]; the set and the
    index are the locals. *)
Definition h_merge_add (append singleton : bool) (to : nat) (to_item : hval) (st : list hval * nat) :
    M (list hval * nat) :=
  let '(hashable_to_set, prepend_index) := st in
  l ← read_list to;
  let hashable_to_set' := if h_is_scalar to_item then to_item :: hashable_to_set else hashable_to_set in
  if append then
    if negb singleton || negb (to_item in? hashable_to_set)
    then (_ ← write_list to (l ++ [to_item]); mret (hashable_to_set', prepend_index))
    else mret st
  else
    let l := if singleton then h_remove_all to_item l else l in
    _ ← write_list to (take prepend_index l ++ to_item :: drop prepend_index l);
    mret (hashable_to_set', S prepend_index).

(** The loop of MergeLists; [merge_item] copies a container. *)
Fixpoint h_merge_items (merge_item : hval → M hval) (to : nat) (items : list hval) (to_file fro_file : string)
    (is_paths append : bool) (st : list hval * nat) : M unit :=
  match items with
  | [] => mret tt
  | item :: items =>
      '(to_item, singleton) ← match item with
        | HStr s =>
            to_item ← lift (if is_paths then h_make_path_relative to_file fro_file item else Ok item);
            mret (to_item, negb (str_startswith "-" s))
        | HInt _ =>
            to_item ← lift (if is_paths then h_make_path_relative to_file fro_file item else Ok item);
            mret (to_item, true)
        | _ => to_item ← merge_item item; mret (to_item, false)
        end;
      st ← h_merge_add append singleton to to_item st;
      h_merge_items merge_item to items to_file fro_file is_paths append st
  end.

(** The branch of MergeDicts for a list: the address of the list to merge into,
    with its key and whether to append, or nothing when the policy keeps the list
    that is there. *)
Definition h_list_target (to : nat) (fro : hdict) (k : string) (v : hval) : M (option (nat * string * bool)) :=
  match str_last k with
  | None => throw IndexError
  | Some ext =>
      let '(list_base, lists_incompatible) := list_policy k ext in
      let append := negb (ext ==? "+"%char) in
      t ← read_dict to;
      _ ← (if (ext ==? "="%char) then (a ← new_list []; write_dict to (dict_set t list_base (HList a))) else mret tt);
      _ ← for_m lists_incompatible (λ list_incompatible,
            throw_if (dict_mem fro list_incompatible)
              (GypError ("Incompatible list policies " +:+ k +:+ " and " +:+ list_incompatible)));
      t ← read_dict to;
      match dict_get t list_base with
      | Some old =>
          if (ext ==? "?"%char) then mret None
          else
            match old with
            | HList a => mret (Some (a, list_base, append))
            | _ => throw (h_bad_merge_error v old (list_base +:+ "(" +:+ k +:+ ")"))
            end
      | None =>
          a ← new_list [];
          _ ← write_dict to (dict_set t list_base (HList a));
          mret (Some (a, list_base, append))
      end
  end.

(** [merge_dicts fuel to fro to_file fro_file] is MergeDicts on the dictionaries at
    two addresses, [merge_lists] MergeLists; the fuel bounds how deep [fro] is. *)
Fixpoint merge_dicts (fuel : nat) (to fro : nat) (to_file fro_file : string) : M unit :=
  match fuel with
  | 0 => throw OutOfFuel
  | S fuel =>
      d ← read_dict fro;
      for_m d (λ '(k, v),
        t ← read_dict to;
        _ ← match dict_get t k with
            | Some old => throw_if (h_bad_merge v old) (h_bad_merge_error v old k)
            | None => mret tt
            end;
        match v with
        | HStr _ | HInt _ =>
            x ← lift (if IsPathSection k then h_make_path_relative to_file fro_file v else Ok v);
            write_dict to (dict_set t k x)
        | HDict a =>
            b ← match dict_get t k with
                | Some (HDict b) => mret b
                | _ => b ← new_dict []; _ ← write_dict to (dict_set t k (HDict b)); mret b
                end;
            merge_dicts fuel b a to_file fro_file
        | HList a =>
            target ← h_list_target to d k v;
            match target with
            | None => mret tt
            | Some (b, list_base, append) =>
                merge_lists fuel b a to_file fro_file (IsPathSection list_base) append
            end
        end)
  end
with merge_lists (fuel : nat) (to fro : nat) (to_file fro_file : string) (is_paths append : bool) : M unit :=
  match fuel with
  | 0 => throw OutOfFuel
  | S fuel =>
      l ← read_list to;
      items ← read_list fro;
      h_merge_items (λ item,
          match item with
          | HDict a => b ← new_dict []; _ ← merge_dicts fuel b a to_file fro_file; mret (HDict b)
          | HList a => b ← new_list []; _ ← merge_lists fuel b a to_file fro_file false true; mret (HList b)
          | v => mret v
          end) to items to_file fro_file is_paths append (filter (λ x, h_is_scalar x = true) l, 0)
  end.

(** [MergeDicts(to, fro, to_file, fro_file)] *)
Definition MergeDicts_in_place (to fro : nat) (to_file fro_file : string) : M unit := λ w,
  merge_dicts (S (next w)) to fro to_file fro_file w.
End merge.
