(* ===== verification/Expand.v ===== *)
(** * Expanding variables and evaluating conditions

    [ExpandVariables], [ProcessConditionsInDict], [LoadAutomaticVariablesFromDict],
    [LoadVariablesFromVariablesDict], [ProcessVariablesAndConditionsInDict] and
    [ProcessVariablesAndConditionsInList] of tools/gyp/pylib/gyp/input.py, on the
    objects of the store: the variables of a scope are the lists of the dictionary
    they come from, and expanding one changes it there too.

    A dictionary of variables is passed by reference but never changed by those
    it is passed to, who copy it first; it is a list of items here.  Expansion does
    not always end (a variable may refer to itself), so the functions take fuel,
    one unit for each call and each item of a list. *)
From S2P Require Import Prelude PyDict PyStr PyPath PyVal PyNum Common Merge Filters Shell Refs Store.
From Stdlib Require Import Ascii.

Inductive phase := PHASE_EARLY | PHASE_LATE | PHASE_LATELATE.
#[export] Instance phase_eq_dec : EqDecision phase.
Proof. solve_decision. Defined.

(** What importing a module and calling its DoMain comes to, and what evaluating a
    condition does. *)
Inductive do_main_outcome := ImportFailed (msg : string) | DoMain (r : result string).
Inductive eval_outcome :=
  | EvalValue (b : bool)
  | EvalSyntaxError (msg text : string) (offset : Z)
  | EvalNameError (msg : string)
  | EvalError (e : exn).

(** The world outside: the Python evaluator, the platform, and the processes and
    modules a command runs. *)
Class Outside := {
  py_eval : string → result pyval;
  eval_condition : string → list (string * hval) → world → eval_outcome;
  popen : pyval → bool → option string → Z * string * string;
  do_main : string → list string → option string → do_main_outcome;
  re_compile : string → option (string → bool);
  win32 : bool;
  generator_filelist_paths : option (string * string)
}.

(** [s[i:j]], [s[:j]] and [s[i:]] with Python's reading of negative indices. *)
Definition py_bound (len : nat) (i : Z) : nat :=
  Nat.min len (Z.to_nat (if (i <? 0)%Z then i + Z.of_nat len else i)).
Definition py_slice (s : text) (i j : Z) : text :=
  let i := py_bound (length s) i in take (py_bound (length s) j - i) (drop i s).
Definition py_upto (s : text) (j : Z) : text := take (py_bound (length s) j) s.
Definition py_from (s : text) (i : Z) : text := drop (py_bound (length s) i) s.

(** [s.rstrip()] *)
Definition str_rstrip (s : string) : string := of_chars (rstrip Ascii.is_space (chars s)).

Section expand.
Context `{Globals} `{RealPath} `{Outside}.
Implicit Types (variables : hdict) (build_file contents : string) (m : ref_match).

Definition expansion_symbol (p : phase) : ascii :=
  match p with PHASE_EARLY => "<" | PHASE_LATE => ">" | PHASE_LATELATE => "^" end.

(** [str(v)] *)
Definition str_of_hval (v : hval) : M string :=
  match v with HStr s => mret s | HInt z => mret (str_of_int z) | _ => t ← tree_of v; mret (py_str t) end.

(** [FixupPlatformCommand(cmd)]; [re.sub('^cat ', 'type ', s)] *)
Definition fixup_cat (s : string) : string :=
  if str_startswith "cat " s then "type " +:+ of_chars (drop 4 (chars s)) else s.
Definition FixupPlatformCommand (cmd : pyval) : result pyval :=
  if win32 then
    match cmd with
    | VList (VStr s :: rest) => Ok (VList (VStr (fixup_cat s) :: rest))
    | VList [] => Err IndexError
    | VStr s => Ok (VStr (fixup_cat s))
    | _ => Err (TypeError "expected string or buffer")
    end
  else Ok cmd.

(** ** One reference *)

Definition type_has (c : ascii) m : bool := c in? ref_type m.

(** The directory a command or a file list is relative to, [None] standing for the
    current one. *)
Definition command_dir build_file : option string :=
  let dir := of_chars (p_dirname (chars build_file)) in if dir ==? "" then None else Some dir.

(** The branch for a file list: the name of the file, which is written. *)
Definition expand_file_list contents build_file : M hval := λ w,
  let build_file_dir := p_dirname (chars build_file) in
  let contents_list := str_split " " contents in
  match contents_list with
  | [] => Err IndexError
  | replacement :: rest =>
      if p_isabs (chars replacement)
      then Err (GypError ("| cannot handle absolute paths, got " +:+ quoted replacement))
      else
        let path :=
          match generator_filelist_paths with
          | None => p_join build_file_dir (chars replacement)
          | Some (toplevel, qualified_out_dir) =>
              let rel_build_file_dir :=
                if p_isabs build_file_dir then RelativePath build_file_dir (chars toplevel) else build_file_dir in
              p_join_list (chars qualified_out_dir) [rel_build_file_dir; chars replacement]
          end in
        let text := foldl (λ acc i, acc +:+ i +:+ newline) "" rest in
        Ok (HStr (of_chars (RelativePath path build_file_dir)),
            World (lists w) (dicts w) (next w) (cached_command_results w)
              (dict_set (written_files w) (of_chars path) text))
  end.

(** What a command prints, without the blanks at its end. *)
Definition run_command (command : pyval) (command_string : string) (use_shell : bool) (dir : option string) :
    result string :=
  if command_string ==? "pymod_do_main" then
    match command with
    | VStr contents =>
        parsed_contents ← shlex_split (chars contents);
        match of_chars <$> parsed_contents with
        | [] => Err IndexError
        | name :: args =>
            match do_main name args dir with
            | ImportFailed e => Err (GypError ("Error importing pymod_do_mainmodule (" +:+ name +:+ "): " +:+ e))
            | DoMain r => str_rstrip <$> r
            end
        end
    | _ => Err (AttributeError "read")
    end
  else if negb (command_string ==? "") then
    Err (GypError ("Unknown command string '" +:+ command_string +:+ "' in '" +:+ py_str command +:+ "'."))
  else
    command ← FixupPlatformCommand command;
    let '(status, p_stdout, p_stderr) := popen command use_shell dir in
    if negb (status =? 0)%Z || negb (p_stderr ==? "")
    then Err (GypError ("Call to '" +:+ py_str command +:+ "' returned exit status " +:+ str_of_int status +:+ "."))
    else Ok (str_rstrip p_stdout).

(** The branch for a command: its cached result, or the result of running it. *)
Definition expand_command m contents build_file : M hval := λ w,
  match (if negb (is_array m ==? []) then py_eval contents else Ok (VStr contents)) with
  | Err e => Err e
  | Ok command =>
      let use_shell := is_array m ==? [] in
      let cache_key := py_str command in
      match dict_get (cached_command_results w) cache_key with
      | Some cached_value => Ok (HStr cached_value, w)
      | None =>
          match run_command command (of_chars (command_string m)) use_shell (command_dir build_file) with
          | Err e => Err e
          | Ok replacement =>
              Ok (HStr replacement,
                  World (lists w) (dicts w) (next w)
                    (dict_set (cached_command_results w) cache_key replacement) (written_files w))
          end
      end
  end.

(** The branch for a variable. *)
Definition lookup_variable contents variables build_file : M hval :=
  match dict_get variables contents with
  | Some v => mret v
  | None =>
      match str_last contents with
      | None => throw IndexError
      | Some c =>
          if c in? ["!"; "/"]%char then HList <$> new_list []
          else throw (GypError ("Undefined variable " +:+ contents +:+ " in " +:+ build_file))
      end
  end.

(** A copy of the variables with the list filters applied. *)
Definition filtered_variables contents variables : M hdict :=
  d ← map_m (λ '(k, v), t ← tree_of v; mret (k, t)) variables;
  d ← lift (ProcessListFiltersInDict re_compile contents d);
  map_m (λ '(k, t), v ← alloc_tree t; mret (k, v)) d.

(** The functions this one calls back, for one phase and build file: ExpandVariables
    and ProcessVariablesAndConditionsInList. *)
Context (expand : hval → hdict → M hval) (process_list : nat → hdict → M unit).

(** The check of a replacement, and the expansion of a list. *)
Definition expand_replacement contents (replacement : hval) variables : M unit :=
  match replacement with
  | HList a =>
      items ← read_list a;
      _ ← for_m items (λ item,
        match str_last contents with
        | None => throw IndexError
        | Some c =>
            throw_if (negb (c ==? "/"%char) && negb (h_is_scalar item))
              (GypError ("Variable " +:+ contents +:+ " must expand to a string or list of strings; list contains a "
                         +:+ h_class_name item))
        end);
      process_list a variables
  | HDict _ =>
      throw (GypError ("Variable " +:+ contents +:+ " must expand to a string or list of strings; found a "
                       +:+ h_class_name replacement))
  | _ => mret tt
  end.

(** The list a replacement becomes, or the text that takes the place of the
    reference. *)
Definition replacement_list (replacement : hval) : M (list hval) :=
  match replacement with
  | HList a => read_list a
  | v => s ← str_of_hval v; l ← lift (shlex_split (chars s)); mret ((λ x, HStr (of_chars x)) <$> l)
  end.
Definition encoded_replacement (replacement : hval) : M text :=
  match replacement with
  | HList a =>
      items ← read_list a;
      strs ← map_m str_of_hval items;
      mret (EncodePOSIXShellList (chars <$> strs))
  | v => s ← str_of_hval v; mret (chars s)
  end.

(** One turn of the loop over the matches. *)
Definition expand_match m (input_str : text) variables build_file : M (text + list hval) :=
  let start := Z.of_nat (replace_start m) in
  let '(c_start, c_end) := FindEnclosingBracketGroup (drop (replace_start m) input_str) in
  let replace_end := (start + c_end)%Z in
  let replaced := py_slice input_str start replace_end in
  let contents := of_chars (py_slice input_str (start + c_start + 1) (replace_end - 1)) in
  contents ← (if type_has "|" m
              then (processed_variables ← filtered_variables contents variables;
                    expand (HStr contents) processed_variables)
              else expand (HStr contents) variables);
  contents ← match contents with HStr s => mret (str_strip s) | _ => throw (AttributeError "strip") end;
  let expand_to_list := type_has "@" m && (input_str ==? replaced) in
  replacement ← (if type_has "|" m then expand_file_list contents build_file
                 else if type_has "!" m then expand_command m contents build_file
                 else lookup_variable contents variables build_file);
  _ ← expand_replacement contents replacement variables;
  if expand_to_list then inr <$> replacement_list replacement
  else
    encoded ← encoded_replacement replacement;
    mret (inl (py_upto input_str start ++ encoded ++ py_from input_str replace_end)).

(** The loop over the matches, from right to left.  Only the leftmost reference can
    be the whole text, so no turn follows one that leaves a list. *)
Fixpoint expand_matches (ms : list ref_match) (input_str : text) variables build_file : M (text + list hval) :=
  match ms with
  | [] => mret (inl input_str)
  | m :: ms =>
      output ← expand_match m input_str variables build_file;
      match output, ms with
      | inl output, _ => expand_matches ms output variables build_file
      | inr output, [] => mret (inr output)
      | inr _, _ :: _ => throw (TypeError "list")
      end
  end.

Definition canonical_to_int (v : hval) : hval :=
  match v with
  | HStr s => if IsStrCanonicalInt (chars s) then HInt (int_of_text (chars s)) else v
  | _ => v
  end.

(** ExpandVariables, except for its recursive calls. *)
Definition expand_body (p : phase) (input : hval) variables build_file : M hval :=
  s ← str_of_hval input;
  let input_str := chars s in
  if IsStrCanonicalInt input_str then mret (HInt (int_of_text input_str))
  else if negb (expansion_symbol p in? input_str) then mret (HStr s)
  else
    match finditer (expansion_symbol p) input_str with
    | [] => mret (HStr s)
    | matches =>
        output ← expand_matches (reverse matches) input_str variables build_file;
        output ← match output with
          | inl s => expand (HStr (of_chars s)) variables
          | inr ((HList _ :: _) as l) => HList <$> new_list l
          | inr l => l ← map_m (λ item, expand item variables) l; HList <$> new_list l
          end;
        match output with
        | HList a => l ← read_list a; _ ← write_list a (canonical_to_int <$> l); mret output
        | v => mret (canonical_to_int v)
        end
    end.
End expand.

Section process.
Context `{Globals} `{RealPath} `{Outside}.
Implicit Types (variables : hdict) (build_file : string).

(** ** Variables of a scope *)

Definition is_variable_value (v : hval) : bool := match v with HDict _ => false | _ => true end.

(** [LoadAutomaticVariablesFromDict(variables, the_dict)]: the variables after. *)
Definition LoadAutomaticVariablesFromDict variables (the_dict : hdict) : hdict :=
  foldl (λ variables '(key, value),
    if is_variable_value value then dict_set variables ("_" +:+ key) value else variables) variables the_dict.

(** One turn of the loop of LoadVariablesFromVariablesDict. *)
Definition load_variable (the_dict : hdict) (the_dict_key : option string) variables (item : string * hval) : hdict :=
  let '(key, value) := item in
  if negb (is_variable_value value) then variables
  else if str_endswith "%" key then
    let variable_name := str_init key in
    if dict_mem variables variable_name then variables
    else
      let value :=
        match dict_get the_dict variable_name with
        | Some v => if the_dict_key ==? Some "variables" then v else value
        | None => value
        end in
      dict_set variables variable_name value
  else dict_set variables key value.

(** The dictionary at a key that is taken for one. *)
Definition sub_dict (the_dict : hdict) (key : string) : M hdict :=
  match dict_get the_dict key with
  | None => mret []
  | Some (HDict a) => read_dict a
  | Some _ => throw (AttributeError "iteritems")
  end.

Definition LoadVariablesFromVariablesDict variables (the_dict : hdict) (the_dict_key : option string) : M hdict :=
  d ← sub_dict the_dict "variables"; mret (foldl (load_variable the_dict the_dict_key) variables d).

(** [variables_in.copy()] and the two functions above. *)
Definition load_variables variables_in (a : nat) (the_dict_key : option string) : M hdict :=
  the_dict ← read_dict a;
  LoadVariablesFromVariablesDict (LoadAutomaticVariablesFromDict variables_in the_dict) the_dict the_dict_key.

(** ** Conditions *)

(** The recursive calls: ExpandVariables, ProcessVariablesAndConditionsInDict and
    ProcessVariablesAndConditionsInList, for one phase and build file. *)
Context (expand : hval → hdict → M hval) (process_dict : hval → hdict → option string → M unit)
  (process_list : nat → hdict → M unit).

Definition conditions_key (p : phase) : option string :=
  match p with
  | PHASE_EARLY => Some "conditions" | PHASE_LATE => Some "target_conditions" | PHASE_LATELATE => None
  end.

(** The parts of a condition. *)
Definition split_condition (key : string) (condition : hval) : M (hval * hval * option hval) :=
  match condition with
  | HList a =>
      l ← read_list a;
      match l with
      | [cond_expr; true_dict] => mret (cond_expr, true_dict, None)
      | [cond_expr; true_dict; false_dict] => mret (cond_expr, true_dict, Some false_dict)
      | [] => throw IndexError
      | HStr s :: _ =>
          throw (GypError (key +:+ " " +:+ s +:+ " must be length 2 or 3, not " +:+ str_of_int (Z.of_nat (length l))))
      | v :: _ => throw (TypeError ("cannot concatenate 'str' and '" +:+ h_class_name v +:+ "' objects"))
      end
  | _ => throw (GypError (key +:+ " must be a list"))
  end.

(** The value of an expanded condition.  Anything but a string cannot be compiled;
    the error for a list is raised from a name that is not defined. *)
Definition eval_expanded (v : hval) variables build_file : M bool := λ w,
  match v with
  | HStr s =>
      match eval_condition s variables w with
      | EvalValue b => Ok (b, w)
      | EvalSyntaxError msg text offset =>
          Err (SyntaxError (msg +:+ " while evaluating condition '" +:+ text +:+ "' in " +:+ build_file
                            +:+ " at character " +:+ str_of_int offset +:+ "."))
      | EvalNameError msg =>
          Err (GypError (msg +:+ " while evaluating condition '" +:+ s +:+ "' in " +:+ build_file))
      | EvalError e => Err e
      end
  | HInt _ => Err (TypeError "compile() expected string without null bytes")
  | _ => Err (NameError "expanded")
  end.

(** One condition. *)
Definition process_condition (key : string) (a : nat) variables build_file (condition : hval) : M unit :=
  '(cond_expr, true_dict, false_dict) ← split_condition key condition;
  cond_expr_expanded ← expand cond_expr variables;
  b ← eval_expanded cond_expr_expanded variables build_file;
  match (if b : bool then Some true_dict else false_dict) with
  | None => mret tt
  | Some merge_dict =>
      _ ← process_dict merge_dict variables None;
      match merge_dict with
      | HDict fro => MergeDicts_in_place a fro build_file build_file
      | _ => throw (AttributeError "iteritems")
      end
  end.

(** [ProcessConditionsInDict(the_dict, phase, variables, build_file)] *)
Definition ProcessConditionsInDict (p : phase) (a : nat) variables build_file : M unit :=
  match conditions_key p with
  | None => mret tt
  | Some key =>
      the_dict ← read_dict a;
      match dict_get the_dict key with
      | None => mret tt
      | Some conditions_list =>
          _ ← write_dict a (dict_del the_dict key);
          conditions ← iter_hval conditions_list;
          for_m conditions (process_condition key a variables build_file)
      end
  end.

(** ** Dictionaries and lists *)

(** [for key, value in the_dict.iteritems()], with the values as they are when
    their turn comes. *)
Definition for_items (a : nat) (body : string → hval → M unit) : M unit :=
  the_dict ← read_dict a;
  for_m (dict_keys the_dict) (λ key,
    the_dict ← read_dict a;
    match dict_get the_dict key with
    | Some value => body key value
    | None => throw (RuntimeError "dictionary changed size during iteration")
    end).

(** The expansion of the strings of a dictionary. *)
Definition expand_strings (a : nat) variables : M unit :=
  for_items a (λ key value,
    match value with
    | HStr _ =>
        if key ==? "variables" then mret tt
        else
          expanded ← expand value variables;
          if h_is_scalar expanded
          then the_dict ← read_dict a; write_dict a (dict_set the_dict key expanded)
          else throw (ValueError ("Variable expansion in this context permits str and int only, found "
                                  +:+ h_class_name expanded +:+ " for " +:+ key))
    | _ => mret tt
    end).

(** The recursion into the values of a dictionary. *)
Definition process_children (a : nat) variables : M unit :=
  for_items a (λ key value,
    match value with
    | HStr _ | HInt _ => mret tt
    | HDict _ => if key ==? "variables" then mret tt else process_dict value variables (Some key)
    | HList b => if key ==? "variables" then mret tt else process_list b variables
    end).

(** ProcessVariablesAndConditionsInDict, except for its recursive calls. *)
Definition process_dict_body (p : phase) (a : nat) variables_in build_file (the_dict_key : option string) : M unit :=
  the_dict ← read_dict a;
  let variables := LoadAutomaticVariablesFromDict variables_in the_dict in
  variables ← match dict_get the_dict "variables" with
    | None => mret variables
    | Some v =>
        d ← sub_dict the_dict "variables";
        let variables := dict_update variables d in
        _ ← process_dict v variables (Some "variables");
        mret variables
    end;
  the_dict ← read_dict a;
  variables ← LoadVariablesFromVariablesDict variables the_dict the_dict_key;
  _ ← expand_strings a variables;
  variables ← load_variables variables_in a the_dict_key;
  _ ← ProcessConditionsInDict p a variables build_file;
  variables ← load_variables variables_in a the_dict_key;
  process_children a variables.
End process.

(** The three functions, which call each other. *)
Section functions.
Context `{Globals} `{RealPath} `{Outside}.

Fixpoint ExpandVariables (fuel : nat) (p : phase) (build_file : string) (input : hval) (variables : hdict) : M hval :=
  match fuel with
  | 0 => throw OutOfFuel
  | S fuel =>
      expand_body (ExpandVariables fuel p build_file) (ProcessVariablesAndConditionsInList fuel p build_file 0)
        p input variables build_file
  end
with ProcessVariablesAndConditionsInDict (fuel : nat) (p : phase) (build_file : string) (the_dict : hval)
    (variables_in : hdict) (the_dict_key : option string) : M unit :=
  match fuel with
  | 0 => throw OutOfFuel
  | S fuel =>
      match the_dict with
      | HDict a =>
          process_dict_body (ExpandVariables fuel p build_file) (ProcessVariablesAndConditionsInDict fuel p build_file)
            (ProcessVariablesAndConditionsInList fuel p build_file 0) p a variables_in build_file the_dict_key
      | _ => throw (AttributeError "iteritems")
      end
  end
with ProcessVariablesAndConditionsInList (fuel : nat) (p : phase) (build_file : string) (index : nat)
    (a : nat) (variables : hdict) : M unit :=
  match fuel with
  | 0 => throw OutOfFuel
  | S fuel =>
      the_list ← read_list a;
      match the_list !! index with
      | None => mret tt
      | Some item =>
          match item with
          | HDict _ =>
              _ ← ProcessVariablesAndConditionsInDict fuel p build_file item variables None;
              ProcessVariablesAndConditionsInList fuel p build_file (S index) a variables
          | HList b =>
              _ ← ProcessVariablesAndConditionsInList fuel p build_file 0 b variables;
              ProcessVariablesAndConditionsInList fuel p build_file (S index) a variables
          | HStr _ =>
              expanded ← ExpandVariables fuel p build_file item variables;
              the_list ← read_list a;
              match expanded with
              | HList b =>
                  l ← read_list b;
                  _ ← write_list a (take index the_list ++ l ++ drop (S index) the_list);
                  ProcessVariablesAndConditionsInList fuel p build_file (index + length l) a variables
              | HDict _ => throw (ValueError "dict")
              | v =>
                  _ ← write_list a (<[index := v]> the_list);
                  ProcessVariablesAndConditionsInList fuel p build_file (S index) a variables
              end
          | HInt _ => ProcessVariablesAndConditionsInList fuel p build_file (S index) a variables
          end
      end
  end.

Lemma ExpandVariables_S fuel p build_file input variables :
  ExpandVariables (S fuel) p build_file input variables
  = expand_body (ExpandVariables fuel p build_file) (ProcessVariablesAndConditionsInList fuel p build_file 0)
      p input variables build_file.
Proof. done. Qed.

Lemma ProcessVariablesAndConditionsInList_S fuel p build_file index a variables :
  ProcessVariablesAndConditionsInList (S fuel) p build_file index a variables
  = (the_list ← read_list a;
     match the_list !! index with
     | None => mret tt
     | Some item =>
         match item with
         | HDict _ =>
             _ ← ProcessVariablesAndConditionsInDict fuel p build_file item variables None;
             ProcessVariablesAndConditionsInList fuel p build_file (S index) a variables
         | HList b =>
             _ ← ProcessVariablesAndConditionsInList fuel p build_file 0 b variables;
             ProcessVariablesAndConditionsInList fuel p build_file (S index) a variables
         | HStr _ =>
             expanded ← ExpandVariables fuel p build_file item variables;
             the_list ← read_list a;
             match expanded with
             | HList b =>
                 l ← read_list b;
                 _ ← write_list a (take index the_list ++ l ++ drop (S index) the_list);
                 ProcessVariablesAndConditionsInList fuel p build_file (index + length l) a variables
             | HDict _ => throw (ValueError "dict")
             | v =>
                 _ ← write_list a (<[index := v]> the_list);
                 ProcessVariablesAndConditionsInList fuel p build_file (S index) a variables
             end
         | HInt _ => ProcessVariablesAndConditionsInList fuel p build_file (S index) a variables
         end
     end).
Proof. done. Qed.
End functions.

(** * Theorems *)

Section monad.
Context {A B : Type}.
Lemma M_bind_Ok (m : M A) (f : A → M B) w b w' :
  (m ≫= f) w = Ok (b, w') ↔ ∃ a w1, m w = Ok (a, w1) ∧ f a w1 = Ok (b, w').
Proof. unfold mbind, M_bind. destruct (m w) as [[a w1]|]; naive_solver. Qed.
Lemma M_bind_run (m : M A) (f : A → M B) w a w1 : m w = Ok (a, w1) → (m ≫= f) w = f a w1.
Proof. intros Hm. unfold mbind, M_bind. by rewrite Hm. Qed.
Lemma M_ret_bind (a : A) (f : A → M B) w : (mret a ≫= f) w = f a w.
Proof. done. Qed.
Lemma M_fmap_Ok (m : M A) (f : A → B) w b w' :
  (f <$> m) w = Ok (b, w') ↔ ∃ a, m w = Ok (a, w') ∧ b = f a.
Proof. unfold fmap, M_fmap. destruct (m w) as [[a w1]|]; naive_solver. Qed.
End monad.

(** Invert every successful step of a computation among the hypotheses. *)
Ltac inv_m :=
  repeat match goal with
  | H : (_ ≫= _) _ = Ok _ |- _ => apply M_bind_Ok in H; destruct H as (?&?&?&H)
  | H : (_ <$> _) _ = Ok _ |- _ => apply M_fmap_Ok in H; destruct H as (?&H&?)
  | H : mret _ _ = Ok _ |- _ => injection H as ??; subst
  | H : throw _ _ = Ok _ |- _ => discriminate H
  | H : read_list _ _ = Ok _ |- _ => injection H as ??; subst
  | H : read_dict _ _ = Ok _ |- _ => injection H as ??; subst
  | H : write_list _ _ _ = Ok _ |- _ => injection H as ??; subst
  | H : new_list _ _ = Ok _ |- _ => injection H as ??; subst
  end.

Section settled.
Context (p : phase).

(** A value expansion leaves as it is: a string in which no reference is left to
    expand, and that is not written as an integer. *)
Definition settled (v : hval) : Prop :=
  match v with
  | HStr s => IsStrCanonicalInt (chars s) = false ∧ finditer (expansion_symbol p) (chars s) = []
  | _ => True
  end.

Lemma finditer_no_symbol symbol s pos : symbol ∉ s → finditer_from symbol 0 pos s = [].
Proof.
  revert pos. induction s as [|c s IH]; intros pos Hs; [done|]. apply not_elem_of_cons in Hs as [Hc Hs].
  cbn [finditer_from match_here]. rewrite bool_decide_eq_false_2 by done. by apply IH.
Qed.

Lemma canonical_to_int_settled v : settled v → canonical_to_int v = v.
Proof. destruct v; cbn; [|done..]. intros [-> _]. done. Qed.
Lemma settled_canonical v : settled v → settled (canonical_to_int v).
Proof. intros Hv. by rewrite canonical_to_int_settled. Qed.

Lemma list_at_set_list a l w : list_at (set_list a l w) a = l.
Proof. unfold list_at, set_list; cbn. by rewrite lookup_insert_eq. Qed.

Lemma map_m_settled (f : hval → M hval) l l' w w' :
  (∀ v w v' w', f v w = Ok (v', w') → settled v') → map_m f l w = Ok (l', w') → Forall settled l'.
Proof.
  intros Hf. revert l' w. induction l as [|x l IH]; intros l' w Hrun; cbn [map_m] in Hrun; inv_m; [constructor|].
  constructor; eauto.
Qed.

Context `{Globals} `{RealPath} `{Outside}.

(** A list of a list is left alone. *)
Definition settled_result (v : hval) (w : world) : Prop :=
  settled v ∧ ∀ a, v = HList a → (∃ b l, list_at w a = HList b :: l) ∨ Forall settled (list_at w a).

Lemma ExpandVariables_settled fuel build_file input variables w v w' :
  ExpandVariables fuel p build_file input variables w = Ok (v, w') → settled_result v w'.
Proof.
  revert input variables w v w'. induction fuel as [|fuel IH]; intros input variables w v w' Hrun; [done|].
  rewrite ExpandVariables_S in Hrun. unfold expand_body in Hrun. inv_m. rename x into s.
  destruct (IsStrCanonicalInt (chars s)) eqn:Hint; [by inv_m|].
  destruct (negb _) eqn:Hsym.
  { inv_m. split; [|done]. split; [done|]. apply finditer_no_symbol. by apply negb_true_iff, bool_decide_eq_false in Hsym. }
  destruct (finditer _ (chars s)) as [|m ms] eqn:Hms; [by inv_m|]. inv_m.
  rename x2 into out, x3 into w3. assert (Hres : settled_result out w3).
  { destruct x as [s'|[|[| |b|] l]]; inv_m; try (by eapply IH).
    all: split; [done|]; intros a0 [= <-]; cbn; unfold list_at; cbn; rewrite lookup_insert_eq; cbn.
    all: first [left; by eexists _, _|right; eapply map_m_settled; [|eassumption]; intros ? ? ? ? Hr; exact (proj1 (IH _ _ _ _ _ Hr))]. }
  destruct Hres as [Hv Hl]. destruct out as [s'|z|a|a]; inv_m.
  - split; [exact (settled_canonical _ Hv)|]. intros a Ha. by destruct (IsStrCanonicalInt (chars s')).
  - done.
  - split; [done|]. intros a' [= <-]. rewrite list_at_set_list. destruct (Hl a eq_refl) as [(b&l&->)|Hall].
    + left. cbn. eauto.
    + right. apply Forall_fmap. eapply Forall_impl; [exact Hall|]. intros x' Hx. exact (settled_canonical _ Hx).
  - done.
Qed.
End settled.

(** ** Texts with references *)
Section templates.
Context (p : phase) `{Globals} `{RealPath} `{Outside}.
Abbreviation symbol := (expansion_symbol p).

(** A text made of literal pieces and references such as [<(name)]. *)
Inductive piece := Lit (s : text) | Ref (name : text).
Implicit Types (ps : list piece).

Definition render1 (x : piece) : text :=
  match x with Lit s => s | Ref name => [symbol; "("%char] ++ name ++ [")"%char] end.
Definition render ps : text := concat (render1 <$> ps).

(** What the reference stands for: a string or an integer. *)
Definition plain_text (v : hval) : text :=
  match v with HStr s => chars s | HInt z => chars (str_of_int z) | _ => [] end.
Definition plain_value (v : hval) : Prop := h_is_scalar v = true ∧ symbol ∉ plain_text v.
Definition value1 (variables : hdict) (x : piece) : text :=
  match x with
  | Lit s => s
  | Ref name => from_option plain_text [] (dict_get variables (of_chars name))
  end.
Definition substitute (variables : hdict) ps : text := concat (value1 variables <$> ps).

(** A name is made of letters, digits and the like, and is not an integer. *)
Definition name_ok (name : text) : Prop :=
  forallb is_command_char name = true ∧ name ≠ [] ∧ IsStrCanonicalInt name = false.
Definition piece_ok (variables : hdict) (x : piece) : Prop :=
  match x with
  | Lit s => symbol ∉ s
  | Ref name => name_ok name ∧ ∃ v, dict_get variables (of_chars name) = Some v ∧ plain_value v
  end.

Lemma command_char_ok c :
  is_command_char c = true → c ≠ symbol ∧ is_bracket c = false ∧ Ascii.is_space c = false ∧ c ≠ "["%char ∧ c ≠ "010"%char.
Proof.
  destruct p; destruct c as [[] [] [] [] [] [] [] []]; cbn; intros Hc; try discriminate Hc;
    (split_and!; [discriminate| | |discriminate|discriminate]; reflexivity).
Qed.

Lemma name_chars name c : forallb is_command_char name = true → c ∈ name → is_command_char c = true.
Proof. rewrite forallb_forall. intros Hn Hc. by apply Hn, list_elem_of_In. Qed.

Lemma name_balanced name : forallb is_command_char name = true → balanced name.
Proof.
  induction name as [|c name IH]; intros Hn; [constructor|]. cbn in Hn. apply andb_true_iff in Hn as [Hc Hn].
  constructor; [by apply command_char_ok in Hc as (?&?&?)|auto].
Qed.

Lemma symbol_facts : (symbol ∉ LBRACKETS) ∧ is_bracket symbol = false ∧ symbol ≠ ")"%char ∧ symbol ≠ "010"%char.
Proof. by destruct p; split_and!; try done; apply (bool_decide_unpack _). Qed.

Lemma name_content_length name rest :
  forallb is_command_char name = true → content_length (name ++ ")"%char :: rest) = Some (S (length name)).
Proof.
  induction name as [|c name IH]; intros Hn; [done|]. cbn in Hn. apply andb_true_iff in Hn as [Hc Hn].
  pose proof (command_char_ok c Hc) as (_&Hb&_&_&Hnl). cbn [app content_length].
  rewrite (bool_decide_eq_false_2 (c = ")"%char)) by (by intros ->).
  rewrite bool_decide_eq_false_2 by done. by rewrite IH.
Qed.

Lemma match_here_ref name rest :
  forallb is_command_char name = true →
  match_here symbol (render1 (Ref name) ++ rest) = Some (length name + 3, [symbol], [], []).
Proof.
  intros Hn. cbn [render1 app match_here]. rewrite bool_decide_eq_true_2 by done. cbn [negb].
  change (type_suffix ("("%char :: (name ++ [")"%char]) ++ rest)) with ([] : text, "("%char :: (name ++ [")"%char]) ++ rest).
  cbn [span]. change (is_command_char "("%char) with false. cbn iota.
  rewrite bool_decide_eq_true_2 by done. cbn [negb]. rewrite <- app_assoc. cbn [app].
  assert (Hspan : span Ascii.is_space (name ++ ")"%char :: rest) = ([], name ++ ")"%char :: rest)).
  { destruct name as [|c name]; [done|]. cbn [app span]. cbn in Hn. apply andb_true_iff in Hn as [Hc _].
    by pose proof (command_char_ok c Hc) as (_&_&->&_). }
  rewrite Hspan.
  assert (Hbr : (match name ++ ")"%char :: rest with
      | b :: s6 => if (b ==? "["%char) then ([b], s6) else ([], name ++ ")"%char :: rest)
      | [] => ([], name ++ ")"%char :: rest) end) = ([] : text, name ++ ")"%char :: rest)).
  { destruct name as [|c name]; [done|]. cbn [app]. cbn in Hn. apply andb_true_iff in Hn as [Hc _].
    pose proof (command_char_ok c Hc) as (_&_&_&?&_). by rewrite bool_decide_eq_false_2. }
  rewrite Hbr, name_content_length by done. cbn. do 3 f_equal. do 2 f_equal. lia.
Qed.

(** The matches of a template. *)
Fixpoint refs_at (pos : nat) ps : list ref_match :=
  match ps with
  | [] => []
  | Lit s :: ps => refs_at (pos + length s) ps
  | Ref name :: ps =>
      RefMatch pos (pos + (length name + 3)) [symbol] [] [] :: refs_at (pos + (length name + 3)) ps
  end.

Lemma finditer_skip n pos (s rest : text) :
  n = length s → finditer_from symbol n pos (s ++ rest) = finditer_from symbol 0 (pos + length s) rest.
Proof.
  intros ->. revert pos. induction s as [|c s IH]; intros pos; [by rewrite Nat.add_0_r|].
  cbn [length app finditer_from]. rewrite IH. f_equal. lia.
Qed.

Lemma finditer_match pos (x rest : text) n t c a :
  match_here symbol (x ++ rest) = Some (n, t, c, a) → n = length x → 0 < n →
  finditer_from symbol 0 pos (x ++ rest) = RefMatch pos (pos + n) t c a :: finditer_from symbol 0 (pos + n) rest.
Proof.
  intros Hm Hn Hpos. destruct x as [|x0 x]; [cbn in Hn; lia|]. cbn [app length] in *.
  assert (finditer_from symbol 0 pos (x0 :: x ++ rest)
    = RefMatch pos (pos + n) t c a :: finditer_from symbol (pred n) (S pos) (x ++ rest)) as ->.
  { cbn [finditer_from]. by rewrite Hm. }
  rewrite finditer_skip by lia. do 2 f_equal. lia.
Qed.

Lemma finditer_lit pos (s rest : text) :
  symbol ∉ s → finditer_from symbol 0 pos (s ++ rest) = finditer_from symbol 0 (pos + length s) rest.
Proof.
  revert pos. induction s as [|c s IH]; intros pos Hs; [by rewrite Nat.add_0_r|].
  apply not_elem_of_cons in Hs as [Hc Hs]. cbn [app finditer_from match_here].
  rewrite bool_decide_eq_false_2 by done. cbn [negb]. rewrite IH by done. f_equal. cbn. lia.
Qed.

Lemma render1_length name : length (render1 (Ref name)) = length name + 3.
Proof. cbn. rewrite length_app. cbn. lia. Qed.

Lemma finditer_render variables pos ps :
  Forall (piece_ok variables) ps → finditer_from symbol 0 pos (render ps) = refs_at pos ps.
Proof.
  intros Hps. revert pos. induction Hps as [|[s|name] ps Hp _ IH]; intros pos; [done| |].
  - unfold render. cbn [fmap list_fmap concat render1 refs_at]. rewrite finditer_lit by done. apply IH.
  - destruct Hp as [[Hn _] _]. unfold render. cbn [fmap list_fmap concat refs_at]. fold (render ps).
    pose proof (render1_length name) as Hlen.
    rewrite (finditer_match pos _ _ _ _ _ _ (match_here_ref name (render ps) Hn)) by lia. by rewrite IH.
Qed.

Lemma py_bound_nat len i : i ≤ len → py_bound len (Z.of_nat i) = i.
Proof. intros Hi. unfold py_bound. destruct (Z.of_nat i <? 0)%Z eqn:Hz; lia. Qed.

Lemma py_slice_app (a b c : text) :
  py_slice (a ++ b ++ c) (Z.of_nat (length a)) (Z.of_nat (length a + length b)) = b.
Proof.
  unfold py_slice. rewrite !py_bound_nat by (rewrite !length_app; lia).
  rewrite drop_app_length. replace (length a + length b - length a) with (length b) by lia. apply take_app_length.
Qed.

(** One reference: the text in its place, and nothing else happens. *)
Lemma expand_match_ref expand process_list variables build_file pre name tail w :
  name_ok name → (∃ v, dict_get variables (of_chars name) = Some v ∧ plain_value v) →
  expand (HStr (of_chars name)) variables w = Ok (HStr (of_chars name), w) →
  expand_match expand process_list (RefMatch (length pre) (length pre + (length name + 3)) [symbol] [] [])
    (pre ++ render1 (Ref name) ++ tail) variables build_file w
  = Ok (inl (pre ++ value1 variables (Ref name) ++ tail), w).
Proof.
  intros (Hn&Hne&_) (v&Hv&Hsc&_) Hexp. unfold expand_match. cbn [replace_start].
  rewrite drop_app_length.
  assert (Hgroup : FindEnclosingBracketGroup (render1 (Ref name) ++ tail) = (Z.of_nat 1, Z.of_nat (1 + length name + 2))).
  { apply FindEnclosingBracketGroup_group. exists [symbol], "("%char, name, ")"%char, tail.
    split_and!; try done.
    - cbn. by rewrite <- app_assoc.
    - cbn. by rewrite (proj1 (proj2 symbol_facts)).
    - by apply (bool_decide_unpack _).
    - by apply name_balanced. }
  rewrite Hgroup. unfold type_has. cbn [ref_type].
  assert (Hsym : ∀ c : ascii, c ∈ ["|"; "!"; "@"]%char → bool_decide (c ∈ [symbol]) = false).
  { intros c Hc. apply bool_decide_eq_false. intros ->%list_elem_of_singleton. revert Hc.
    destruct p; cbn; by rewrite !elem_of_cons, elem_of_nil; intros [?|[?|[?|?]]]. }
  rewrite !Hsym by by apply (bool_decide_unpack _). cbn [andb].
  assert (Hcont : py_slice (pre ++ render1 (Ref name) ++ tail) (Z.of_nat (length pre) + Z.of_nat 1 + 1)
      (Z.of_nat (length pre) + Z.of_nat (1 + length name + 2) - 1) = name).
  { assert (pre ++ render1 (Ref name) ++ tail = (pre ++ [symbol; "("%char]) ++ name ++ ")"%char :: tail) as ->.
    { cbn. by rewrite <- !app_assoc. }
    pose proof (py_slice_app (pre ++ [symbol; "("%char]) name (")"%char :: tail)) as Hs.
    rewrite length_app in Hs. cbn [length] in Hs. etrans; [|exact Hs]. f_equal; lia. }
  rewrite Hcont. rewrite (M_bind_run _ _ _ _ _ Hexp).
  assert (str_strip (of_chars name) = of_chars name) as ->.
  { unfold str_strip. rewrite chars_of_chars. f_equal. rewrite <- (app_nil_r name) at 1. apply strip_blanks; [done| |done].
    rewrite forallb_forall in *. intros c Hc%Hn. by pose proof (command_char_ok c Hc) as (_&_&->&_). }
  rewrite M_ret_bind. unfold lookup_variable. rewrite Hv, M_ret_bind.
  assert (Htext : value1 variables (Ref name) = plain_text v) by (cbn; by rewrite Hv).
  assert (Hout : py_upto (pre ++ render1 (Ref name) ++ tail) (Z.of_nat (length pre)) = pre
    ∧ py_from (pre ++ render1 (Ref name) ++ tail) (Z.of_nat (length pre) + Z.of_nat (1 + length name + 2)) = tail).
  { rewrite <- Nat2Z.inj_add. unfold py_upto, py_from. rewrite !py_bound_nat.
    - rewrite take_app_length. split; [done|]. rewrite app_assoc.
      replace (length pre + (1 + length name + 2)) with (length (pre ++ render1 (Ref name))); [apply drop_app_length|].
      rewrite length_app, render1_length. lia.
    - rewrite !length_app, render1_length. lia.
    - rewrite !length_app. lia. }
  destruct Hout as [Hup Hfrom]. rewrite Htext.
  destruct v; try done; cbn [expand_replacement encoded_replacement str_of_hval];
    rewrite !M_ret_bind, Hup, Hfrom; done.
Qed.

Lemma refs_at_app pos ps1 ps2 : refs_at pos (ps1 ++ ps2) = refs_at pos ps1 ++ refs_at (pos + length (render ps1)) ps2.
Proof.
  revert pos. induction ps1 as [|[s|name] ps1 IH]; intros pos; cbn [app refs_at]; [by rewrite Nat.add_0_r| |].
  - rewrite IH. unfold render. cbn [fmap list_fmap concat render1]. rewrite length_app. do 2 f_equal. lia.
  - rewrite IH. unfold render. cbn [fmap list_fmap concat]. rewrite length_app, render1_length. cbn [app].
    do 3 f_equal. lia.
Qed.

Lemma concat_map_snoc {A B} (f : A → list B) (l : list A) x (tail : list B) :
  concat (f <$> l ++ [x]) ++ tail = concat (f <$> l) ++ f x ++ tail.
Proof. rewrite fmap_app, concat_app. cbn. by rewrite app_nil_r, <- app_assoc. Qed.

Lemma expand_matches_template expand process_list variables build_file ps tail w :
  Forall (piece_ok variables) ps →
  (∀ name, name_ok name → expand (HStr (of_chars name)) variables w = Ok (HStr (of_chars name), w)) →
  expand_matches expand process_list (reverse (refs_at 0 ps)) (render ps ++ tail) variables build_file w
  = Ok (inl (substitute variables ps ++ tail), w).
Proof.
  intros Hps Hexp. revert tail. induction ps as [|x ps IH] using rev_ind; intros tail; [done|].
  apply Forall_app in Hps as [Hps Hx]. specialize (IH Hps). rewrite Forall_singleton in Hx.
  rewrite refs_at_app, reverse_app. unfold render, substitute. rewrite !concat_map_snoc.
  fold (render ps) (substitute variables ps). destruct x as [s|name]; [apply IH|].
  cbn [piece_ok] in Hx. destruct Hx as [Hn Hv]. cbn [refs_at]. rewrite reverse_singleton.
  cbn [app expand_matches]. erewrite M_bind_run; [|by eapply expand_match_ref; eauto].
  apply IH.
Qed.

(** A string without references is returned, as an integer if it reads as one. *)
Lemma ExpandVariables_literal fuel build_file s variables w :
  symbol ∉ chars s →
  ExpandVariables (S fuel) p build_file (HStr s) variables w = Ok (canonical_to_int (HStr s), w).
Proof.
  intros Hs. rewrite ExpandVariables_S. unfold expand_body. cbn [str_of_hval]. rewrite M_ret_bind.
  cbn [canonical_to_int]. destruct (IsStrCanonicalInt (chars s)); [done|]. by rewrite bool_decide_eq_false_2.
Qed.

Lemma int_chars c z : c ∈ chars (str_of_int z) → is_digit c = true ∨ c = "-"%char.
Proof.
  intros Hc. destruct (Z.lt_trichotomy z 0) as [Hz|[->|Hz]].
  - rewrite int_text_negative in Hc by done. apply elem_of_cons in Hc as [->|Hc]; [by right|].
    destruct (pretty_positive_numeral (- z)) as [[Hd _] _]; [lia|]. left.
    rewrite forallb_forall in Hd. by apply Hd, list_elem_of_In.
  - left. by apply list_elem_of_singleton in Hc as ->.
  - destruct (pretty_positive_numeral z) as [[Hd _] _]; [lia|]. left.
    rewrite forallb_forall in Hd. by apply Hd, list_elem_of_In.
Qed.

Lemma canonical_no_symbol s : symbol ∈ s → IsStrCanonicalInt s = false.
Proof.
  intros Hs. apply not_true_iff_false. intros (z&e&->&He)%IsStrCanonicalInt_spec.
  apply elem_of_app in Hs as [[Hd|Heq]%int_chars|He'].
  - by destruct p.
  - by destruct p.
  - apply at_end_cases in He as [->| ->]; [by apply elem_of_nil in He'|].
    apply list_elem_of_singleton in He'. by destruct p.
Qed.

Lemma substitute_no_symbol variables ps : Forall (piece_ok variables) ps → symbol ∉ substitute variables ps.
Proof.
  intros Hps Hin. unfold substitute in Hin. apply elem_of_concat in Hin as (t&Hin&(x&->&Hx)%list_elem_of_fmap).
  rewrite Forall_forall in Hps. apply Hps in Hx. destruct x as [s|name]; cbn in Hx, Hin; [done|].
  destruct Hx as (_&v&Hv&_&Hns). by rewrite Hv in Hin.
Qed.

Lemma ExpandVariables_render fuel build_file ps variables w :
  Forall (piece_ok variables) ps →
  ExpandVariables (S (S fuel)) p build_file (HStr (of_chars (render ps))) variables w
  = Ok (canonical_to_int (HStr (of_chars (substitute variables ps))), w).
Proof.
  intros Hps. destruct (decide (symbol ∈ render ps)) as [Hin|Hin].
  - rewrite ExpandVariables_S. unfold expand_body. cbn [str_of_hval]. rewrite M_ret_bind, chars_of_chars.
    rewrite canonical_no_symbol by done. rewrite bool_decide_eq_true_2 by done. cbn [negb].
    unfold finditer. rewrite (finditer_render variables) by done.
    assert (Hne : refs_at 0 ps ≠ []).
    { intros Hnil. apply elem_of_concat in Hin as (t&Hin&(x&->&Hx)%list_elem_of_fmap).
      rewrite Forall_forall in Hps. destruct x as [s|name]; [by apply Hps in Hx|].
      apply list_elem_of_split in Hx as (l1&l2&->). rewrite refs_at_app in Hnil. cbn in Hnil.
      by destruct (refs_at 0 l1). }
    destruct (refs_at 0 ps) as [|m ms] eqn:Hms; [done|]. rewrite <- Hms. rewrite <- (app_nil_r (render ps)).
    rewrite (M_bind_run _ _ w (inl (substitute variables ps ++ [])) w).
    + rewrite app_nil_r. rewrite (M_bind_run _ _ w (canonical_to_int (HStr (of_chars (substitute variables ps)))) w).
      * cbn. rewrite chars_of_chars. destruct (IsStrCanonicalInt (substitute variables ps)) eqn:Hc; [done|].
        cbn. by rewrite chars_of_chars, Hc.
      * apply ExpandVariables_literal. rewrite chars_of_chars. by apply substitute_no_symbol.
    + apply expand_matches_template; [done|]. intros name (Hn&_&Hi). rewrite ExpandVariables_literal.
      * cbn. by rewrite chars_of_chars, Hi.
      * rewrite chars_of_chars. intros Hs. apply (name_chars name) in Hs; [|done]. by apply command_char_ok in Hs as [? _].
  - assert (substitute variables ps = render ps) as ->.
    { unfold substitute, render. f_equal. apply list_fmap_ext. intros i x Hx%list_elem_of_lookup_2. destruct x as [s|name]; [done|].
      exfalso. apply Hin. apply elem_of_concat. exists (render1 (Ref name)). split; [by left|].
      apply list_elem_of_fmap. by exists (Ref name). }
    apply ExpandVariables_literal. by rewrite chars_of_chars.
Qed.

(** ** Lists *)
Implicit Types (items l : list hval).

(** What a computation on the list at [a] may change. *)
Definition only_list (a : nat) (w w' : world) : Prop :=
  next w' = next w ∧ dicts w' = dicts w ∧ ∀ b, b ≠ a → list_at w' b = list_at w b.

Lemma only_list_refl a w : only_list a w w.
Proof. done. Qed.
Lemma only_list_set a l w w' : only_list a (set_list a l w) w' → only_list a w w'.
Proof.
  intros (Hn&Hd&Hl). split_and!; [done..|]. intros b Hb. rewrite Hl by done. unfold list_at, set_list; cbn.
  by rewrite lookup_insert_ne.
Qed.

Lemma canonical_plain v : plain_value v → plain_value (canonical_to_int v).
Proof.
  destruct v as [s|z|a|a]; intros [Hs Ht]; try done. cbn. destruct (IsStrCanonicalInt (chars s)); [|done].
  split; [done|]. cbn. intros [?|?]%int_chars; by destruct p.
Qed.

Lemma ExpandVariables_plain fuel build_file v variables w :
  plain_value v → ExpandVariables (S fuel) p build_file v variables w = Ok (canonical_to_int v, w).
Proof.
  destruct v as [s|z|a|a]; intros [Hs Ht]; try done; [by apply ExpandVariables_literal|].
  rewrite ExpandVariables_S. unfold expand_body. cbn [str_of_hval]. rewrite M_ret_bind.
  pose proof (int_of_text_spec z [] eq_refl) as Hz. rewrite app_nil_r in Hz.
  rewrite (proj2 (IsStrCanonicalInt_spec _)), Hz; [done|]. exists z, []. by rewrite app_nil_r.
Qed.

Lemma process_list_plain fuel build_file index a variables w :
  Forall plain_value (drop index (list_at w a)) → length (list_at w a) + 2 ≤ fuel + index →
  index ≤ length (list_at w a) →
  ∃ w', ProcessVariablesAndConditionsInList fuel p build_file index a variables w = Ok (tt, w')
    ∧ list_at w' a = take index (list_at w a) ++ (canonical_to_int <$> drop index (list_at w a)) ∧ only_list a w w'.
Proof.
  revert index w. induction fuel as [|fuel IH]; intros index w Hp Hf Hi; [lia|].
  rewrite ProcessVariablesAndConditionsInList_S. rewrite (M_bind_run _ _ w (list_at w a) w) by done.
  destruct (list_at w a !! index) as [item|] eqn:Hitem.
  2: { apply lookup_ge_None in Hitem. exists w. split; [done|].
       rewrite take_ge, drop_ge by lia. by rewrite app_nil_r. }
  pose proof (lookup_lt_Some _ _ _ Hitem) as Hlt. pose proof (drop_S _ _ _ Hitem) as Hdrop.
  rewrite Hdrop in Hp. apply Forall_cons in Hp as [Hpi Hp].
  assert (Hstep : ∀ v w1, v = canonical_to_int item → list_at w1 a = <[index:=v]> (list_at w a) → only_list a w w1 →
    ∃ w', ProcessVariablesAndConditionsInList fuel p build_file (S index) a variables w1 = Ok (tt, w')
      ∧ list_at w' a = take index (list_at w a) ++ (canonical_to_int <$> drop index (list_at w a)) ∧ only_list a w w').
  { intros v w1 -> Hw1 (Hn&Hd&Ho).
    destruct (IH (S index) w1) as (w'&Hrun&Hl&Hn'&Hd'&Ho').
    - rewrite Hw1, drop_insert_lt by lia. done.
    - rewrite Hw1, length_insert. lia.
    - rewrite Hw1, length_insert. lia.
    - exists w'. split; [done|]. split.
      + rewrite Hl, Hw1, drop_insert_lt by lia. rewrite Hdrop. cbn [fmap list_fmap].
        rewrite (take_S_r _ _ (canonical_to_int item)) by (rewrite list_lookup_insert_eq; done || lia).
        rewrite take_insert_ge by lia. by rewrite <- app_assoc.
      + split_and!; [congruence..|]. intros b Hb. rewrite Ho', Ho by done. done. }
  destruct item as [s|z|b|b]; try by destruct Hpi.
  - destruct fuel as [|fuel]; [lia|]. rewrite (M_bind_run _ _ _ _ _ (ExpandVariables_plain fuel build_file _ variables w Hpi)).
    rewrite (M_bind_run _ _ w (list_at w a) w) by done.
    assert (Hcase : ∃ v, canonical_to_int (HStr s) = v ∧ h_is_scalar v = true).
    { eexists; split; [done|]. cbn. by destruct (IsStrCanonicalInt (chars s)). }
    destruct Hcase as (v&Hv&Hsc). rewrite Hv. destruct v; try done.
    all: rewrite (M_bind_run _ _ w tt (set_list a (<[index:=_]> (list_at w a)) w)) by done.
    all: apply (Hstep _ _ (eq_sym Hv)); [by rewrite list_at_set_list|by eapply only_list_set, only_list_refl].
  - apply (Hstep (HInt z)); [done| |by apply only_list_refl]. by rewrite list_insert_id.
Qed.

(** The text of a reference that expands to a list. *)
Definition list_ref (name : text) : text := [symbol; "@"%char; "("%char] ++ name ++ [")"%char].

Lemma finditer_list_ref name :
  forallb is_command_char name = true →
  finditer symbol (list_ref name) = [RefMatch 0 (length (list_ref name)) [symbol; "@"%char] [] []].
Proof.
  intros Hn. unfold finditer, list_ref.
  assert (Hm : match_here symbol ([symbol; "@"%char; "("%char] ++ name ++ [")"%char])
    = Some (length name + 4, [symbol; "@"%char], [], [])).
  { pose proof (match_here_ref name [] Hn) as Hm. cbn [render1 app match_here] in Hm |- *.
    rewrite bool_decide_eq_true_2 in * by done. cbn [negb] in *. rewrite app_nil_r in Hm.
    change (type_suffix ("@"%char :: "("%char :: name ++ [")"%char])) with (["@"%char], "("%char :: name ++ [")"%char]).
    change (type_suffix ("("%char :: name ++ [")"%char])) with ([] : text, "("%char :: name ++ [")"%char]) in Hm.
    cbn iota beta in *. destruct (span _ _) as [cmd s3]. destruct s3 as [|c' s4]; [done|].
    destruct (negb _); [done|]. destruct (span _ s4) as [blanks s5]. destruct (match s5 with [] => _ | _ => _ end) as [br s6].
    destruct (content_length s6) as [n|]; [|done]. cbn [mbind option_bind] in *. injection Hm as Hlen -> Hb.
    rewrite Hb. match goal with |- Some (?a, _, _, _) = Some (?b, _, _, _) => replace a with b by (cbn in *; lia) end.
    done. }
  pose proof (finditer_match 0 _ [] _ _ _ _ ltac:(rewrite app_nil_r; exact Hm)) as Hf. rewrite app_nil_r in Hf.
  rewrite Hf by (rewrite ?length_app; cbn; rewrite ?length_app; cbn; lia).
  cbn [finditer_from]. do 2 f_equal. cbn. rewrite length_app. cbn. lia.
Qed.

Lemma list_ref_slices name :
  let s := list_ref name in
  py_slice s (Z.of_nat 0) (Z.of_nat 0 + Z.of_nat (length s)) = s
  ∧ py_slice s (Z.of_nat 0 + Z.of_nat 2 + 1) (Z.of_nat 0 + Z.of_nat (length s) - 1) = name.
Proof.
  intros s. split.
  - pose proof (py_slice_app [] s []) as Hs. by rewrite app_nil_r in Hs.
  - pose proof (py_slice_app [symbol; "@"%char; "("%char] name [")"%char]) as Hs. etrans; [|exact Hs].
    unfold s, list_ref. f_equal. rewrite !length_app. cbn. lia.
Qed.

Lemma for_m_all {A} (l : list A) (body : A → M unit) w :
  (∀ x, x ∈ l → body x w = Ok (tt, w)) → for_m l body w = Ok (tt, w).
Proof.
  induction l as [|x l IH]; intros Hb; [done|]. cbn [for_m]. rewrite (M_bind_run _ _ w tt w) by (apply Hb; by left).
  apply IH. intros y ?. apply Hb. by right.
Qed.

Lemma map_m_plain fuel build_file variables l w :
  Forall plain_value l →
  map_m (λ item, ExpandVariables (S fuel) p build_file item variables) l w = Ok (canonical_to_int <$> l, w).
Proof.
  induction 1 as [|v l Hv _ IH]; [done|]. cbn [map_m]. rewrite (M_bind_run _ _ _ _ _ (ExpandVariables_plain _ _ _ _ _ Hv)).
  by rewrite (M_bind_run _ _ _ _ _ IH).
Qed.

Lemma canonical_idem v : canonical_to_int (canonical_to_int v) = canonical_to_int v.
Proof.
  destruct v as [s|z|a|a]; try done. cbn. destruct (IsStrCanonicalInt (chars s)) eqn:Hs; [done|]. cbn. by rewrite Hs.
Qed.

(** The replacement found for the name of a list, and the list expanded. *)
Lemma expand_match_list fuel build_file name variables a w :
  name_ok name → dict_get variables (of_chars name) = Some (HList a) → Forall plain_value (list_at w a) →
  length (list_at w a) + 2 ≤ S fuel →
  ∃ w', expand_match (ExpandVariables (S fuel) p build_file) (ProcessVariablesAndConditionsInList (S fuel) p build_file 0)
      (RefMatch 0 (length (list_ref name)) [symbol; "@"%char] [] []) (list_ref name) variables build_file w
    = Ok (inr (canonical_to_int <$> list_at w a), w')
    ∧ list_at w' a = canonical_to_int <$> list_at w a ∧ only_list a w w'.
Proof.
  intros (Hn&Hne&Hi) Hv Hp Hf. destruct (process_list_plain (S fuel) build_file 0 a variables w) as (w'&Hrun&Hl&Ho).
  { by rewrite drop_0. } { lia. } { lia. }
  rewrite take_0, drop_0 in Hl. cbn [app] in Hl. exists w'. split; [|done].
  unfold expand_match. cbn [replace_start]. rewrite drop_0.
  assert (Hgroup : FindEnclosingBracketGroup (list_ref name) = (Z.of_nat 2, Z.of_nat (length (list_ref name)))).
  { apply FindEnclosingBracketGroup_group. exists [symbol; "@"%char], "("%char, name, ")"%char, [].
    split_and!; try done.
    - cbn. by rewrite (proj1 (proj2 symbol_facts)).
    - by apply (bool_decide_unpack _).
    - by apply name_balanced.
    - unfold list_ref. rewrite !length_app. cbn. lia. }
  rewrite Hgroup. destruct (list_ref_slices name) as [Hs1 Hs2]. cbn zeta. rewrite Hs1, Hs2.
  unfold type_has. cbn [ref_type].
  assert (Hsym : ∀ c : ascii, c ∈ ["|"; "!"]%char → bool_decide (c ∈ [symbol; "@"%char]) = false).
  { intros c Hc. apply bool_decide_eq_false. rewrite !elem_of_cons, elem_of_nil in *.
    assert (symbol ≠ "|"%char ∧ symbol ≠ "!"%char) as [? ?] by (by destruct p). intuition congruence. }
  rewrite !(Hsym "|"%char), (Hsym "!"%char) by by apply (bool_decide_unpack _).
  rewrite (bool_decide_eq_true_2 ("@"%char ∈ _)) by (right; by left). rewrite bool_decide_eq_true_2 by done. cbn [andb].
  assert (Hlit : ExpandVariables (S fuel) p build_file (HStr (of_chars name)) variables w = Ok (HStr (of_chars name), w)).
  { rewrite ExpandVariables_literal; [cbn; by rewrite chars_of_chars, Hi|]. rewrite chars_of_chars.
    intros Hs. apply (name_chars name) in Hs; [|done]. by apply command_char_ok in Hs as [? _]. }
  rewrite (M_bind_run _ _ _ _ _ Hlit), M_ret_bind.
  assert (str_strip (of_chars name) = of_chars name) as ->.
  { unfold str_strip. rewrite chars_of_chars. f_equal. rewrite <- (app_nil_r name) at 1. apply strip_blanks; [done| |done].
    rewrite forallb_forall in *. intros c Hc%Hn. by pose proof (command_char_ok c Hc) as (_&_&->&_). }
  unfold lookup_variable. rewrite Hv, M_ret_bind.
  assert (Hlast : ∃ c, str_last (of_chars name) = Some c).
  { unfold str_last. rewrite chars_of_chars. destruct (last name) as [c|] eqn:Hc; [by exists c|]. by apply last_None in Hc. }
  destruct Hlast as [c Hlast].
  rewrite (M_bind_run _ _ w tt w').
  - cbn [replacement_list]. unfold fmap at 1, M_fmap at 1, read_list at 1. by rewrite Hl.
  - cbn [expand_replacement]. rewrite (M_bind_run _ _ w (list_at w a) w) by done.
    rewrite (M_bind_run _ _ w tt w); [exact Hrun|]. apply for_m_all. intros v Hin. rewrite Hlast.
    rewrite Forall_forall in Hp. destruct (Hp v Hin) as [-> _]. by rewrite andb_false_r.
Qed.

Lemma ExpandVariables_list_result fuel build_file name variables a w :
  name_ok name → dict_get variables (of_chars name) = Some (HList a) → Forall plain_value (list_at w a) →
  a < next w → length (list_at w a) + 3 ≤ fuel →
  ∃ w', ExpandVariables fuel p build_file (HStr (of_chars (list_ref name))) variables w = Ok (HList (next w), w')
    ∧ list_at w' (next w) = canonical_to_int <$> list_at w a ∧ list_at w' a = canonical_to_int <$> list_at w a
    ∧ ∀ b, b < next w → b ≠ a → list_at w' b = list_at w b.
Proof.
  intros Hname Hv Hp Ha Hf. destruct fuel as [|[|fuel]]; [lia..|].
  destruct (expand_match_list fuel build_file name variables a w Hname Hv Hp) as (w1&Hm&Hl&Hn&_&Ho); [lia|].
  set (l := canonical_to_int <$> list_at w a) in *.
  assert (Hlp : Forall plain_value l).
  { apply Forall_fmap. eapply Forall_impl; [exact Hp|]. apply canonical_plain. }
  assert (Hidem : canonical_to_int <$> l = l).
  { unfold l. rewrite <- list_fmap_compose. apply list_fmap_ext. intros ???. apply canonical_idem. }
  set (w2 := World (<[next w := l]> (lists w1)) (dicts w1) (S (next w)) (cached_command_results w1) (written_files w1)).
  assert (H2 : list_at w2 (next w) = l) by (unfold list_at, w2; cbn; by rewrite lookup_insert_eq).
  exists (set_list (next w) l w2). split; [|split_and!].
  - rewrite ExpandVariables_S. unfold expand_body. cbn [str_of_hval]. rewrite M_ret_bind, chars_of_chars.
    rewrite canonical_no_symbol by (by left). rewrite bool_decide_eq_true_2 by (by left). cbn [negb].
    rewrite finditer_list_ref by apply Hname. rewrite reverse_singleton.
    rewrite (M_bind_run _ _ w (inr l) w1).
    + rewrite (M_bind_run _ _ w1 (HList (next w)) w2).
      * rewrite (M_bind_run _ _ w2 l w2) by (unfold read_list; by rewrite H2). rewrite Hidem. done.
      * assert (Hrec : (l ← map_m (λ item, ExpandVariables (S fuel) p build_file item variables) l; HList <$> new_list l) w1
          = Ok (HList (next w), w2)).
        { rewrite (M_bind_run _ _ _ _ _ (map_m_plain fuel build_file variables l w1 Hlp)), Hidem. unfold fmap at 1, M_fmap, new_list. by rewrite Hn. }
        destruct l as [|[| |b|] l']; try exact Hrec. apply Forall_cons in Hlp as [[? _] _]. done.
    + cbn [expand_matches]. by rewrite (M_bind_run _ _ _ _ _ Hm).
  - apply list_at_set_list.
  - unfold list_at, set_list, w2; cbn. rewrite !lookup_insert_ne by lia. exact Hl.
  - intros b Hb Hne. unfold list_at, set_list, w2; cbn. rewrite !lookup_insert_ne by lia. by apply Ho.
Qed.
End templates.

(** * Properties *)

(** Expansion goes on until nothing is left to expand: a string it returns has
    no reference of the phase and is not written as an integer, and neither has any
    string of a list it returns, unless that is a list of lists, which is left
    alone.  This holds for every source of variables and commands. *)
Theorem ExpandVariables_exhaustive `{Globals} `{RealPath} `{Outside} p fuel build_file input variables w v w' :
  ExpandVariables fuel p build_file input variables w = Ok (v, w') →
  settled p v ∧ ∀ a, v = HList a → (∃ b l, list_at w' a = HList b :: l) ∨ Forall (settled p) (list_at w' a).
Proof. apply ExpandVariables_settled. Qed.

(** C8: a text with references to variables whose values are strings or integers
    expands, with fuel 2 already, to the text with the values in their place, read
    as an integer if it is written as one, and nothing else changes. *)
Theorem ExpandVariables_template `{Globals} `{RealPath} `{Outside} p fuel build_file ps variables w :
  2 ≤ fuel → Forall (piece_ok p variables) ps →
  ExpandVariables fuel p build_file (HStr (of_chars (render p ps))) variables w
  = Ok (canonical_to_int (HStr (of_chars (substitute variables ps))), w).
Proof. intros Hf Hps. destruct fuel as [|[|fuel]]; [lia..|]. by apply ExpandVariables_render. Qed.

(** A reference with an at sign to a list of strings and integers expands to a
    new list of its items, each read as an integer if it is written as one; the list
    the variable stands for, which may be the one of the dictionary the variable
    comes from, changes in the same way, and no other does. *)
Theorem ExpandVariables_list `{Globals} `{RealPath} `{Outside} p fuel build_file name variables a w :
  name_ok name → dict_get variables (of_chars name) = Some (HList a) → Forall (plain_value p) (list_at w a) →
  a < next w → length (list_at w a) + 3 ≤ fuel →
  ∃ w', ExpandVariables fuel p build_file (HStr (of_chars (list_ref p name))) variables w = Ok (HList (next w), w')
    ∧ list_at w' (next w) = canonical_to_int <$> list_at w a ∧ list_at w' a = canonical_to_int <$> list_at w a
    ∧ ∀ b, b < next w → b ≠ a → list_at w' b = list_at w b.
Proof. apply ExpandVariables_list_result. Qed.

(** An evaluator that knows nothing, and an empty store. *)
Definition sample_globals : Globals := SetGeneratorGlobals [] [] true.
Definition sample_realpath : RealPath := realpath_nolinks (chars "/src").
Definition sample_outside : Outside := {|
  py_eval := λ _, Err (SyntaxError "");
  eval_condition := λ _ _ _, EvalValue true; popen := λ _ _ _, (0%Z, "", "");
  do_main := λ _ _ _, ImportFailed ""; re_compile := λ _, None; win32 := false; generator_filelist_paths := None
|}.
Definition sample_world : world := World {[0 := [HStr "a.c"; HStr "12"]]} ∅ 1 [] [].

Definition sample_pieces : list piece := [Lit (chars "lib"); Ref (chars "name"); Lit (chars "."); Ref (chars "n")].
Definition sample_variables : hdict := [("name", HStr "foo (bar)"); ("n", HInt 3); ("srcs", HList 0)].

Lemma ExpandVariables_template_witness :
  @ExpandVariables sample_globals sample_realpath sample_outside 2 PHASE_LATE "b.gyp" (HStr "lib>(name).>(n)")
    sample_variables sample_world = Ok (HStr "libfoo (bar).3", sample_world).
Proof.
  apply (@ExpandVariables_template sample_globals sample_realpath sample_outside PHASE_LATE 2 "b.gyp" sample_pieces
           sample_variables sample_world); [lia|].
  repeat (apply Forall_cons_2; [first [by apply (bool_decide_unpack _)|split; [by split_and!|]]|]); [..|done].
  - eexists. split; [reflexivity|]. split; [done|by apply (bool_decide_unpack _)].
  - eexists. split; [reflexivity|]. split; [done|by apply (bool_decide_unpack _)].
Defined.

Lemma ExpandVariables_list_witness :
  ∃ w', @ExpandVariables sample_globals sample_realpath sample_outside 5 PHASE_EARLY "b.gyp" (HStr "<@(srcs)")
      sample_variables sample_world = Ok (HList 1, w')
    ∧ list_at w' 1 = [HStr "a.c"; HInt 12] ∧ list_at w' 0 = [HStr "a.c"; HInt 12].
Proof.
  destruct (@ExpandVariables_list sample_globals sample_realpath sample_outside PHASE_EARLY 5 "b.gyp" (chars "srcs")
              sample_variables 0 sample_world) as (w'&Hrun&H1&H2&_).
  - by split_and!.
  - reflexivity.
  - repeat (apply Forall_cons_2; [split; [done|by apply (bool_decide_unpack _)]|]). done.
  - vm_compute. lia.
  - vm_compute. lia.
  - by exists w'.
Defined.

Lemma ExpandVariables_exhaustive_witness :
  ∃ v w', @ExpandVariables sample_globals sample_realpath sample_outside 9 PHASE_EARLY "b.gyp" (HStr "<(a)x")
      [("a", HStr "<(b)"); ("b", HStr "y ")] sample_world = Ok (v, w') ∧ v = HStr "y x" ∧ settled PHASE_EARLY v.
Proof.
  destruct (@ExpandVariables sample_globals sample_realpath sample_outside 9 PHASE_EARLY "b.gyp" (HStr "<(a)x")
      [("a", HStr "<(b)"); ("b", HStr "y ")] sample_world) as [[v w']|] eqn:Hrun; [|vm_compute in Hrun; discriminate].
  exists v, w'. split; [reflexivity|]. split; [vm_compute in Hrun; injection Hrun as <- _; reflexivity|].
  exact (proj1 (@ExpandVariables_exhaustive sample_globals sample_realpath sample_outside _ _ _ _ _ _ _ _ Hrun)).
Defined.
