(* ===== verification/BuildFile.v ===== *)
(** * Loading build files

    [CheckNode], [CheckedEval], [GetIncludedBuildFiles], [LoadOneBuildFile],
    [LoadBuildFileIncludesIntoDict], [LoadBuildFileIncludesIntoList],
    [ProcessToolsetsInDict] and [LoadTargetBuildFile] of
    tools/gyp/pylib/gyp/input.py.  The file system and Python's parser are
    parameters; what has been loaded is a state of its own beside the store.

    A file that includes itself, directly or not, is merged into itself; Python then
    iterates over what it is changing, and the model over the items that were there
    when the merge began. *)
From S2P Require Import Prelude PyDict PyStr PyPath PyVal Common Merge Dfs Store Expand.
From Stdlib Require Import Ascii.

(** ** Checked evaluation *)

(** The nodes of Python's syntax tree that matter here: a dictionary with its keys
    and values one after the other, a list, a constant, and any other node with its
    representation. *)
#[local] Set Warnings "-register-all".
#[local] Unset Elimination Schemes.
Inductive node :=
  | NDict (children : list node)
  | NList (children : list node)
  | NConst (v : hval)
  | NOther (repr : string).
#[local] Set Elimination Schemes.

Definition keypath_text (keypath : list string) : string := str_join "." keypath.

(** [CheckNode(node, keypath)]; the keys of a dictionary are strings. *)
Fixpoint CheckNode (n : node) (keypath : list string) : result pyval :=
  match n with
  | NDict c =>
      d ← (fix go c dict := match c with
        | [] => Ok dict
        | NConst (HStr key) :: rest =>
            if dict_mem dict key
            then Err (GypError ("Key '" +:+ key +:+ "' repeated at level " +:+ str_of_int (Z.of_nat (length keypath) + 1)
                                +:+ " with key path '" +:+ keypath_text keypath +:+ "'"))
            else
              match rest with
              | value :: c => v ← CheckNode value (keypath ++ [key]); go c (dict_set dict key v)
              | [] => Err IndexError
              end
        | NConst _ :: _ => Err (TypeError "key")
        | _ :: _ => Err AssertionError
        end) c [];
      Ok (VDict d)
  | NList c =>
      l ← (fix go index c := match c with
        | [] => Ok []
        | child :: c =>
            v ← CheckNode child (keypath ++ [str_of_int (Z.of_nat index)]); l ← go (S index) c; Ok (v :: l)
        end) 0 c;
      Ok (VList l)
  | NConst (HStr s) => Ok (VStr s)
  | NConst (HInt z) => Ok (VInt z)
  | NConst _ => Err (TypeError "constant")
  | NOther repr => Err (TypeError ("Unknown AST node at key path '" +:+ keypath_text keypath +:+ "': " +:+ repr))
  end.

(** A parsed module: its documentation string, and its statements, of which those
    that are an expression hold nodes. *)
Inductive statement := Discard (children : list node) | OtherStatement.
Record module_ast := ModuleAst { ast_doc : option string; ast_statements : list statement }.

(** [CheckedEval] on the parsed text. *)
Definition CheckedEval (ast : module_ast) : result pyval :=
  match ast_doc ast, ast_statements ast with
  | Some _, _ => Err AssertionError
  | None, [] => Err IndexError
  | None, OtherStatement :: _ => Err AssertionError
  | None, Discard [n] :: _ => CheckNode n []
  | None, Discard _ :: _ => Err AssertionError
  end.

(** ** Included files *)

(** [GetIncludedBuildFiles(build_file_path, aux_data, included)]; a file without an
    'included' list has the empty one. *)
Fixpoint GetIncludedBuildFiles (fuel : nat) (aux_data : list (string * list string)) (build_file_path : string)
    (included : list string) : result (list string) :=
  match fuel with
  | 0 => Err OutOfFuel
  | S fuel =>
      if build_file_path in? included then Ok included
      else
        match dict_get aux_data build_file_path with
        | None => Err (KeyError build_file_path)
        | Some files => for_each files (included ++ [build_file_path]) (GetIncludedBuildFiles fuel aux_data)
        end
  end.

(** ** The state of the loader *)

(** The dictionaries [data] and [aux_data], the set data['target_build_files'], and
    the dictionary of variables, whose DEPTH changes from file to file. *)
Record loading := Loading {
  data : list (string * nat);
  target_build_files : list string;
  aux_data : list (string * list string);
  variables : hdict
}.

Definition L (A : Type) : Type := loading → M (A * loading).
#[export] Instance L_ret : MRet L := λ A a s, mret (a, s).
#[export] Instance L_bind : MBind L := λ A B f m s, '(a, s) ← m s; f a s.
Definition lift_M {A} (m : M A) : L A := λ s, a ← m; mret (a, s).
Definition throw_L {A} (e : exn) : L A := lift_M (throw e).
Definition get_state : L loading := λ s, mret (s, s).
Definition set_state (s : loading) : L unit := λ _, mret (tt, s).
Fixpoint for_L {A} (l : list A) (body : A → L unit) : L unit :=
  match l with [] => mret tt | x :: l => _ ← body x; for_L l body end.

(** [ExceptionAppend(e, msg)] for an exception with one argument. *)
Definition exn_append (e : exn) (msg : string) : exn :=
  let app (s : string) := s +:+ " " +:+ msg in
  match e with
  | GypError s => GypError (app s)
  | CircularException s => CircularException (app s)
  | KeyError s => KeyError (app s)
  | TypeError s => TypeError (app s)
  | ValueError s => ValueError (app s)
  | AttributeError s => AttributeError (app s)
  | NameError s => NameError (app s)
  | SyntaxError s => SyntaxError (app s)
  | RuntimeError s => RuntimeError (app s)
  | e => e
  end.
(** [try: m except Exception, e: ExceptionAppend(e, msg); raise] *)
Definition appending {A} (msg : string) (m : L A) : L A := λ s w,
  match m s w with Err e => Err (exn_append e msg) | r => r end.

(** The file system and the parser. *)
Class Files := {
  read_file : string → option string;
  cwd_text : string;
  compiler_parse : string → result module_ast
}.

Section loading.
Context `{Globals} `{RealPath} `{Outside} `{Files}.
Implicit Types (path : string).

(** The path of an included file. *)
Definition relative_include (subdict_path : string) (include : hval) : L string :=
  match include with
  | HStr s => mret (of_chars (p_normpath (p_join (p_dirname (chars subdict_path)) (chars s))))
  | _ => throw_L (AttributeError "startswith")
  end.

(** The includes of a dictionary, which loses them. *)
Definition take_includes (a : nat) (subdict_path : string) : L (list string) :=
  subdict ← lift_M (read_dict a);
  match dict_get subdict "includes" with
  | None => mret []
  | Some v =>
      l ← lift_M (iter_hval v);
      paths ← (fix go l : L (list string) := match l with
        | [] => mret []
        | x :: l => y ← relative_include subdict_path x; ys ← go l; mret (y :: ys) end) l;
      _ ← lift_M (write_dict a (dict_del subdict "includes"));
      mret paths
  end.

(** [aux_data[path]['included'].append(include)] *)
Definition note_include (subdict_path include : string) : L unit :=
  s ← get_state;
  match dict_get (aux_data s) subdict_path with
  | None => throw_L (KeyError subdict_path)
  | Some files =>
      set_state (Loading (data s) (target_build_files s) (dict_set (aux_data s) subdict_path (files ++ [include]))
                   (variables s))
  end.

(** The data of a file, evaluated. *)
Definition parse_build_file (check : bool) path : L nat :=
  match read_file path with
  | None => throw_L (GypError (path +:+ " not found (cwd: " +:+ cwd_text +:+ ")"))
  | Some contents =>
      v ← (λ s w,
        match (if check then ast ← compiler_parse contents; CheckedEval ast else py_eval contents) with
        | Ok v => Ok ((v, s), w)
        | Err (SyntaxError msg) => Err (SyntaxError msg)
        | Err e => Err (exn_append e ("while reading " +:+ path))
        end) : L pyval;
      h ← lift_M (alloc_tree v);
      match h with
      | HDict a => mret a
      | _ => throw_L (GypError (path +:+ " does not evaluate to a dictionary."))
      end
  end.

Definition add_data path (a : nat) : L unit :=
  s ← get_state;
  set_state (Loading (dict_set (data s) path a) (target_build_files s) (dict_set (aux_data s) path []) (variables s)).

(** [subdict.get('skip_includes')] is there and true. *)
Definition skip_includes (d : hdict) (w : world) : bool :=
  match dict_get d "skip_includes" with
  | None => false
  | Some (HStr s) => negb (s ==? "")
  | Some (HInt z) => negb (z ==? 0%Z)
  | Some (HList a) => negb (list_at w a ==? [])
  | Some (HDict a) => negb (dict_at w a ==? [])
  end.

(** LoadOneBuildFile, LoadBuildFileIncludesIntoDict and LoadBuildFileIncludesIntoList. *)
Fixpoint LoadOneBuildFile (fuel : nat) (check : bool) path (includes : list string) (is_target : bool) : L nat :=
  match fuel with
  | 0 => throw_L OutOfFuel
  | S fuel =>
      s ← get_state;
      match dict_get (data s) path with
      | Some a => mret a
      | None =>
          a ← parse_build_file check path;
          _ ← add_data path a;
          d ← lift_M (read_dict a);
          skip ← lift_M (λ w, Ok (skip_includes d w, w));
          _ ← (if skip : bool then mret tt
               else appending ("while reading includes of " +:+ path)
                      (LoadBuildFileIncludesIntoDict fuel check a path (if is_target then includes else [])));
          mret a
      end
  end
with LoadBuildFileIncludesIntoDict (fuel : nat) (check : bool) (a : nat) (subdict_path : string)
    (includes : list string) : L unit :=
  match fuel with
  | 0 => throw_L OutOfFuel
  | S fuel =>
      own ← take_includes a subdict_path;
      _ ← for_L (includes ++ own) (λ include,
            _ ← note_include subdict_path include;
            b ← LoadOneBuildFile fuel check include [] false;
            lift_M (MergeDicts_in_place a b subdict_path include));
      subdict ← lift_M (read_dict a);
      for_L (dict_keys subdict) (λ k,
        subdict ← lift_M (read_dict a);
        match dict_get subdict k with
        | Some (HDict b) => LoadBuildFileIncludesIntoDict fuel check b subdict_path []
        | Some (HList b) => LoadBuildFileIncludesIntoList fuel check b subdict_path
        | Some _ => mret tt
        | None => throw_L (RuntimeError "dictionary changed size during iteration")
        end)
  end
with LoadBuildFileIncludesIntoList (fuel : nat) (check : bool) (a : nat) (sublist_path : string) : L unit :=
  match fuel with
  | 0 => throw_L OutOfFuel
  | S fuel =>
      sublist ← lift_M (read_list a);
      for_L sublist (λ item,
        match item with
        | HDict b => LoadBuildFileIncludesIntoDict fuel check b sublist_path []
        | HList b => LoadBuildFileIncludesIntoList fuel check b sublist_path
        | _ => mret tt
        end)
  end.

(** ** Toolsets *)

(** The toolsets of a target, an index or a slice of which is taken. *)
Definition toolset_values (v : hval) : M (list hval) :=
  match v with HList _ | HStr _ => iter_hval v | v => throw (TypeError (h_class_name v)) end.

(** One target: the targets that take its place. *)
Definition process_target_toolsets (target : hval) : M (list hval) :=
  match target with
  | HDict a =>
      d ← read_dict a;
      if dict_mem d "toolset" && negb (dict_mem d "toolsets") then mret [target]
      else
        toolsets ← (if multiple_toolsets then
                      match dict_get d "toolsets" with
                      | Some v => toolset_values v
                      | None => mret [HStr "target"]
                      end
                    else mret [HStr "target"]);
        _ ← write_dict a (dict_del d "toolsets");
        match toolsets with
        | [] => mret []
        | first :: rest =>
            copies ← map_m (λ build,
              t ← tree_of target;
              copy ← alloc_tree t;
              match copy with
              | HDict b => c ← read_dict b; _ ← write_dict b (dict_set c "toolset" build); mret copy
              | v => mret v
              end) rest;
            d ← read_dict a;
            _ ← write_dict a (dict_set d "toolset" first);
            mret (copies ++ [target])
        end
  | v => throw (TypeError (h_class_name v))
  end.

(** [ProcessToolsetsInDict(data)]; the fuel bounds how deep conditions are nested. *)
Fixpoint ProcessToolsetsInDict (fuel : nat) (data : hval) : M unit :=
  match fuel, data with
  | 0, _ => throw OutOfFuel
  | S fuel, HDict a =>
      d ← read_dict a;
      _ ← match dict_get d "targets" with
          | None => mret tt
          | Some v =>
              target_list ← iter_hval v;
              new_target_list ← map_m process_target_toolsets target_list;
              b ← new_list (concat new_target_list);
              d ← read_dict a;
              write_dict a (dict_set d "targets" (HList b))
          end;
      d ← read_dict a;
      match dict_get d "conditions" with
      | None => mret tt
      | Some v =>
          conditions ← iter_hval v;
          for_m conditions (λ condition,
            match condition with
            | HList c => l ← read_list c; for_m (tail l) (ProcessToolsetsInDict fuel)
            | _ => mret tt
            end)
      end
  | S _, v => throw (TypeError (h_class_name v))
  end.

(** ** LoadTargetBuildFile *)

(** The variable DEPTH, for a file. *)
Definition set_depth (depth path : string) : L unit :=
  if depth ==? "" then mret tt
  else
    let d := RelativePath (chars depth) (p_dirname (chars path)) in
    let value := if d ==? [] then "." else str_replace "\" "/" (of_chars d) in
    s ← get_state;
    set_state (Loading (data s) (target_build_files s) (aux_data s) (dict_set (variables s) "DEPTH" (HStr value))).

Definition add_target_build_file path : L unit :=
  s ← get_state;
  set_state (Loading (data s) (path :: target_build_files s) (aux_data s) (variables s)).

(** The key included_files. *)
Definition set_included_files (fuel : nat) (a : nat) path : L unit :=
  d ← lift_M (read_dict a);
  _ ← lift_M (throw_if (dict_mem d "included_files") (GypError (path +:+ " must not contain included_files key")));
  s ← get_state;
  included ← lift_M (lift (GetIncludedBuildFiles fuel (aux_data s) path []));
  b ← lift_M (new_list ((λ f, HStr (of_chars (RelativePath (chars f) (p_dirname (chars path))))) <$> included));
  lift_M (write_dict a (dict_set d "included_files" (HList b))).

(** The target defaults merged into the targets; each target is replaced in turn. *)
Definition merge_target_defaults (a : nat) path : M unit :=
  d ← read_dict a;
  match dict_get d "target_defaults" with
  | None => mret tt
  | Some defaults =>
      match dict_get d "targets" with
      | None => throw (GypError ("Unable to find targets in build file " +:+ path))
      | Some (HList targets) =>
          l ← read_list targets;
          _ ← for_m (seq 0 (length l)) (λ index,
                l ← read_list targets;
                t ← tree_of defaults;
                new_target_dict ← alloc_tree t;
                match new_target_dict, l !! index with
                | HDict to, Some (HDict fro) =>
                    _ ← MergeDicts_in_place to fro path path;
                    write_list targets (<[index := new_target_dict]> l)
                | _, _ => throw (AttributeError "iteritems")
                end);
          d ← read_dict a;
          write_dict a (dict_del d "target_defaults")
      | Some v => throw (TypeError (h_class_name v))
      end
  end.

(** The build files the targets depend on. *)
Definition dependency_files (a : nat) path : M (list string) :=
  d ← read_dict a;
  match dict_get d "targets" with
  | None => mret []
  | Some v =>
      targets ← iter_hval v;
      files ← map_m (λ target,
        match target with
        | HDict t =>
            target_dict ← read_dict t;
            match dict_get target_dict "dependencies" with
            | None => mret []
            | Some v =>
                l ← iter_hval v;
                map_m (λ dependency,
                  match dependency with
                  | HStr s =>
                      let '(build_file, _, _) := ResolveTarget (Some path) s None in
                      mret (default path build_file)
                  | _ => throw (AttributeError "rsplit")
                  end) l
            end
        | v => throw (TypeError (h_class_name v))
        end) targets;
      mret (concat files)
  end.

(** [LoadTargetBuildFile]: [None] when the file has been loaded before, or its
    dependencies.  The fuel bounds the chain of dependencies, and [fuel'] the
    functions called. *)
Fixpoint LoadTargetBuildFile (fuel fuel' : nat) (check : bool) (includes : list string) (depth path : string)
    (load_dependencies : bool) : L (option (list string)) :=
  match fuel with
  | 0 => throw_L OutOfFuel
  | S fuel =>
      _ ← set_depth depth path;
      s ← get_state;
      if path in? target_build_files s then mret None
      else
        _ ← add_target_build_file path;
        a ← LoadOneBuildFile fuel' check path includes true;
        d ← lift_M (read_dict a);
        _ ← lift_M (write_dict a (dict_set d "_DEPTH" (HStr depth)));
        _ ← set_included_files fuel' a path;
        _ ← lift_M (ProcessToolsetsInDict fuel' (HDict a));
        s ← get_state;
        _ ← lift_M (ProcessVariablesAndConditionsInDict fuel' PHASE_EARLY path (HDict a) (variables s) None);
        _ ← lift_M (ProcessToolsetsInDict fuel' (HDict a));
        _ ← lift_M (merge_target_defaults a path);
        dependencies ← lift_M (dependency_files a path);
        _ ← (if load_dependencies then
               for_L dependencies (λ dependency,
                 _ ← appending ("while loading dependencies of " +:+ path)
                       (LoadTargetBuildFile fuel fuel' check includes depth dependency load_dependencies);
                 mret tt)
             else mret tt);
        mret (Some dependencies)
  end.
End loading.

(** * Theorems *)

(** ** CheckNode *)

Section node_induction.
Variable P : node → Prop.
Hypothesis (HDict_ : ∀ c, Forall P c → P (NDict c)) (HList_ : ∀ c, Forall P c → P (NList c)).
Hypothesis (HConst_ : ∀ v, P (NConst v)) (HOther_ : ∀ r, P (NOther r)).

Fixpoint node_ind (n : node) : P n :=
  let go := fix go c := match c return Forall P c with
    | [] => Forall_nil_2 _
    | x :: c => Forall_cons_2 _ _ _ (node_ind x) (go c) end in
  match n with
  | NDict c => HDict_ c (go c)
  | NList c => HList_ c (go c)
  | NConst v => HConst_ v
  | NOther r => HOther_ r
  end.
End node_induction.

(** A literal of dictionaries with constant strings for keys, lists and constants. *)
Fixpoint literal (n : node) : bool :=
  match n with
  | NDict c =>
      (fix go c := match c with
        | [] => true
        | NConst (HStr _) :: v :: c => literal v && go c
        | _ => false
        end) c
  | NList c => forallb literal c
  | NConst v => h_is_scalar v
  | NOther _ => false
  end.

(** What Python's eval makes of a literal: the last of the values for a key counts. *)
Fixpoint node_value (n : node) : pyval :=
  match n with
  | NDict c =>
      VDict ((fix go c dict := match c with
        | NConst (HStr k) :: v :: c => go c (dict_set dict k (node_value v))
        | _ => dict
        end) c [])
  | NList c => VList (node_value <$> c)
  | NConst (HStr s) => VStr s
  | NConst (HInt z) => VInt z
  | _ => VStr ""
  end.

Fixpoint node_keys (c : list node) : list string :=
  match c with NConst (HStr k) :: _ :: c => k :: node_keys c | _ => [] end.

(** No dictionary of the literal has a key twice. *)
Fixpoint distinct_keys (n : node) : bool :=
  match n with
  | NDict c =>
      bool_decide (NoDup (node_keys c))
      && (fix go c := match c with _ :: v :: c => distinct_keys v && go c | _ => true end) c
  | NList c => forallb distinct_keys c
  | _ => true
  end.

(** What a check comes to. *)
Definition checked (n : node) (r : result pyval) : Prop :=
  match r with
  | Ok v => distinct_keys n = true ∧ v = node_value n
  | Err (GypError _) => distinct_keys n = false
  | Err _ => False
  end.

Lemma CheckNode_list c index keypath :
  Forall (λ n, literal n = true → ∀ keypath, checked n (CheckNode n keypath)) c → forallb literal c = true →
  match (fix go index c := match c with
      | [] => Ok []
      | child :: c =>
          v ← CheckNode child (keypath ++ [str_of_int (Z.of_nat index)]); l ← go (S index) c; Ok (v :: l)
      end) index c with
  | Ok l => forallb distinct_keys c = true ∧ l = node_value <$> c
  | Err (GypError _) => forallb distinct_keys c = false
  | Err _ => False
  end.
Proof.
  intros Hc. revert index. induction Hc as [|n c Hn _ IH]; intros index Hl; [done|].
  cbn [forallb] in Hl. apply andb_true_iff in Hl as [Hln Hl].
  specialize (Hn Hln (keypath ++ [str_of_int (Z.of_nat index)])). specialize (IH (S index) Hl). unfold checked in Hn.
  destruct (CheckNode n _) as [v|[]]; cbn [mbind result_bind forallb]; try done; [|by rewrite Hn].
  destruct Hn as [-> ->]. cbn [andb].
  match goal with |- match ?m ≫= _ with _ => _ end => destruct m as [l|[]] end; try done.
  destruct IH as [-> ->]. done.
Qed.

Lemma CheckNode_dict c dict keypath :
  Forall (λ n, literal n = true → ∀ keypath, checked n (CheckNode n keypath)) c → literal (NDict c) = true →
  match (fix go c dict := match c with
        | [] => Ok dict
        | NConst (HStr key) :: rest =>
            if dict_mem dict key
            then Err (GypError ("Key '" +:+ key +:+ "' repeated at level " +:+ str_of_int (Z.of_nat (length keypath) + 1)
                                +:+ " with key path '" +:+ keypath_text keypath +:+ "'"))
            else
              match rest with
              | value :: c => v ← CheckNode value (keypath ++ [key]); go c (dict_set dict key v)
              | [] => Err IndexError
              end
        | NConst _ :: _ => Err (TypeError "key")
        | _ :: _ => Err AssertionError
        end) c dict with
  | Ok d =>
      NoDup (node_keys c) ∧ (∀ k, k ∈ node_keys c → k ∉ dict_keys dict)
      ∧ (fix go c := match c with _ :: v :: c => distinct_keys v && go c | _ => true end) c = true
      ∧ d = (fix go c dict := match c with
          | NConst (HStr k) :: v :: c => go c (dict_set dict k (node_value v)) | _ => dict end) c dict
  | Err (GypError _) =>
      (NoDup (node_keys c) → (∀ k, k ∈ node_keys c → k ∉ dict_keys dict) →
       (fix go c := match c with _ :: v :: c => distinct_keys v && go c | _ => true end) c = false)
  | Err _ => False
  end.
Proof.
  remember (length c) as n eqn:Hn. revert c dict Hn. induction (lt_wf n) as [n _ IH]. intros c dict -> Hc Hl.
  destruct c as [|x [|v c]].
  - split_and!; [by apply NoDup_nil_2|intros k Hk; by apply elem_of_nil in Hk|done|done].
  - cbn in Hl. destruct x as [| |[]|]; done.
  - assert (∃ k, x = NConst (HStr k)) as [k ->] by (cbn in Hl; destruct x as [| |[]|]; try done; eauto).
    cbn [literal] in Hl. apply andb_true_iff in Hl as [Hlv Hl].
    apply Forall_cons in Hc as [_ [Hv Hc]%Forall_cons]. specialize (Hv Hlv (keypath ++ [k])).
    destruct (dict_mem dict k) eqn:Hmem.
    { intros _ Hdis. apply dict_mem_true in Hmem. destruct (Hdis k); [cbn; by left|done]. }
    apply dict_mem_false in Hmem. unfold checked in Hv.
    destruct (CheckNode v _) as [val|[]]; cbn [mbind result_bind]; try done; [|by rewrite Hv].
    destruct Hv as [Hdv ->].
    specialize (IH (length c) ltac:(cbn; lia) c (dict_set dict k (node_value v)) eq_refl Hc Hl).
    match goal with |- match ?m with _ => _ end => destruct m as [d|[]] end; try done.
    + destruct IH as (Hnd&Hdis&Hall&->). cbn [node_keys]. split_and!; [| |by rewrite Hdv|done].
      * constructor; [|done]. intros Hk%Hdis. rewrite elem_of_dict_keys_set in Hk. naive_solver.
      * intros k' [->|Hk']%elem_of_cons; [done|]. apply Hdis in Hk'. rewrite elem_of_dict_keys_set in Hk'. naive_solver.
    + cbn [node_keys]. intros [Hk Hnd]%NoDup_cons Hdis. rewrite Hdv. apply IH; [done|].
      intros k' Hk'. rewrite elem_of_dict_keys_set. intros [->|Hin]; [done|]. apply (Hdis k'); [by right|done].
Qed.

Lemma CheckNode_checked n keypath : literal n = true → checked n (CheckNode n keypath).
Proof.
  intros Hl. revert Hl keypath. induction n as [c IH|c IH|v|r] using node_ind; intros Hl keypath; [| |by destruct v|done].
  - pose proof (CheckNode_dict c [] keypath IH Hl) as Hc. cbn [CheckNode].
    match goal with |- checked _ (?m ≫= _) => destruct m as [d|[]] end; try done; cbn [mbind result_bind checked distinct_keys].
    + destruct Hc as (Hnd&_&Hall&->). rewrite bool_decide_eq_true_2 by done. by rewrite Hall.
    + case_bool_decide; [|done]. apply Hc; [done|]. intros k _ Hk. by apply elem_of_nil in Hk.
  - pose proof (CheckNode_list c 0 keypath IH Hl) as Hc. cbn [CheckNode].
    match goal with |- checked _ (?m ≫= _) => destruct m as [d|[]] end; try done; cbn [mbind result_bind checked distinct_keys].
    by destruct Hc as [-> ->].
Qed.

(** ** Included files *)
Section included.
Context (aux_data : list (string * list string)).

(** The files a file includes directly. *)
Definition included_by (f : string) : list string := default [] (dict_get aux_data f).

(** Every file of [U], and every file such a file includes, has been loaded. *)
Definition all_loaded (U : list string) : Prop :=
  ∀ f, f ∈ U → ∃ files, dict_get aux_data f = Some files ∧ files ⊆ U.

Lemma for_each_ext {A S} (l : list A) (s : S) (f g : A → S → result S) :
  (∀ x s, x ∈ l → f x s = g x s) → for_each l s f = for_each l s g.
Proof.
  revert s. induction l as [|x l IH]; intros s Hfg; [done|]. cbn [for_each]. rewrite Hfg by (by left).
  destruct (g x s); [|done]. cbn. apply IH. intros. apply Hfg. by right.
Qed.

Lemma GetIncludedBuildFiles_visit fuel U path included :
  all_loaded U → path ∈ U → GetIncludedBuildFiles fuel aux_data path included = visit included_by fuel path included.
Proof.
  intros HU. revert path included. induction fuel as [|fuel IH]; intros path included Hp; [done|].
  cbn [GetIncludedBuildFiles visit]. case_bool_decide; [done|].
  destruct (HU path Hp) as (files&Hf&Hsub). unfold included_by at 1. rewrite Hf. cbn [default].
  apply for_each_ext. intros f s Hin. by apply IH, Hsub.
Qed.

Lemma GetIncludedBuildFiles_result fuel U path :
  all_loaded U → path ∈ U → length U < fuel →
  ∃ l, GetIncludedBuildFiles fuel aux_data path [] = Ok l ∧ NoDup l ∧ ∀ f, f ∈ l ↔ relations.rtc (edge included_by) path f.
Proof.
  intros HU Hp Hf. rewrite (GetIncludedBuildFiles_visit fuel U) by done.
  assert (Hclosed : Dfs.closed included_by U).
  { intros x y Hx. destruct (HU x Hx) as (files&Hfiles&Hsub). unfold included_by. rewrite Hfiles. apply Hsub. }
  destruct (visit_fuel included_by U fuel path []) as [l Hl]; [done..| |].
  { pose proof (missing_le U []). lia. }
  exists l. split; [done|]. apply visit_collected, collected_reachable in Hl as [Hnd Hl]. split; [done|].
  intros f. rewrite Hl. set_solver.
Qed.
End included.

(** * Properties *)


(** C22: GetIncludedBuildFiles returns the file and all files included from it,
    directly or not, each once; it ends even when files include one another. *)
Theorem GetIncludedBuildFiles_correct aux_data fuel U path :
  all_loaded aux_data U → path ∈ U → length U < fuel →
  ∃ l, GetIncludedBuildFiles fuel aux_data path [] = Ok l ∧ NoDup l
    ∧ ∀ f, f ∈ l ↔ relations.rtc (edge (included_by aux_data)) path f.
Proof. apply GetIncludedBuildFiles_result. Qed.

Definition sample_node : node :=
  NDict [NConst (HStr "targets"); NList [NDict [NConst (HStr "type"); NConst (HStr "none"); NConst (HStr "n"); NConst (HInt 1)]];
         NConst (HStr "variables"); NDict []].


Definition sample_aux : list (string * list string) := [("a.gyp", ["b.gypi"; "c.gypi"]); ("b.gypi", ["c.gypi"]); ("c.gypi", ["b.gypi"])].

Lemma GetIncludedBuildFiles_correct_witness :
  ∃ l, GetIncludedBuildFiles 4 sample_aux "a.gyp" [] = Ok l ∧ l = ["a.gyp"; "b.gypi"; "c.gypi"] ∧ NoDup l.
Proof.
  destruct (GetIncludedBuildFiles_correct sample_aux 4 ["a.gyp"; "b.gypi"; "c.gypi"] "a.gyp") as (l&Hrun&Hnd&_).
  - intros f Hf. repeat (apply elem_of_cons in Hf as [->|Hf];
      [eexists; split; [reflexivity|by apply (bool_decide_unpack _)]|]). by apply elem_of_nil in Hf.
  - by apply (bool_decide_unpack _).
  - cbn. lia.
  - exists l. split; [exact Hrun|]. split; [|exact Hnd]. vm_compute in Hrun. by injection Hrun as <-.
Defined.
