(* ===== verification/Parallel.v ===== *)
(** * Loading build files in parallel

    [LoadTargetBuildFilesParallel] of tools/gyp/pylib/gyp/input.py with the
    [ParallelState] it shares with the thread of the pool that runs the
    callbacks.  The main loop holds the lock of the condition variable except
    inside [wait] and after its end, so one turn of the loop and one call of
    [LoadTargetBuildFileCallback] are steps of a transition system; so are the
    pickling of a job, which reads the shared set of files without the lock, and
    the work of a process.  The theorems hold for every order of these steps and
    for every loader: [load f] is what [LoadTargetBuildFile], called with
    dictionaries that hold nothing and with [load_dependencies=False], adds to
    [data] and [aux_data] and the dependencies it returns, or nothing if it
    raises; [worker_load] is the loader of the program.  KeyboardInterrupt is not
    modelled. *)
From stdpp Require Import relations.
From S2P Require Import Prelude PyDict Dfs PyVal Common Merge Store Expand BuildFile.

Section parallel.
Context {D : Type}.

Record loaded := Loaded {
  loaded_data : list (string * D);
  loaded_aux : list (string * D);
  loaded_dependencies : list string
}.

Context (load : string → option loaded).
Implicit Types (f : string) (files snapshot U : list string).

(** What a worker sends back: [None] or [False], or the files it has read. *)
Inductive job_result :=
  | NoResult
  | JobResult (build_file_path0 : string) (data0 aux_data0 : list (string * D)) (dependencies0 : list string).

(** [snapshot] is the copy of data['target_build_files'] the worker was sent. *)
Definition CallLoadTargetBuildFile f snapshot : job_result :=
  if f in? snapshot then NoResult
  else
    match load f with
    | None => NoResult
    | Some (Loaded data aux_data dependencies) =>
        let data_keys := ["target_build_files"] in
        JobResult f (filter (λ p, p.1 ∉ data_keys) data) aux_data dependencies
    end.

(** A call given to the pool: waiting to be pickled, running, or waiting for its
    callback. *)
Inductive job :=
  | Queued f
  | Started f snapshot
  | Finished f (r : job_result).

Definition job_file (j : job) : string :=
  match j with Queued f | Started f _ | Finished f _ => f end.

(** Where the main thread is: in the loop, with the lock; in [wait]; notified,
    without the lock; joining the pool, after the loop; or done. *)
Inductive main_phase := Running | Waiting | Notified | Joining | Returned | Exited | Crashed.
#[export] Instance main_phase_eq_dec : EqDecision main_phase.
Proof. solve_decision. Defined.

Record ParallelState := MkParallelState {
  main : main_phase;
  pool : bool;
  target_build_files : list string;
  data : list (string * D);
  aux_data : list (string * D);
  pending : nat;
  scheduled : list string;
  dependencies : list string;
  error : bool;
  jobs : list job
}.
Implicit Types (s : ParallelState).

Definition with_main m s : ParallelState :=
  MkParallelState m (pool s) (target_build_files s) (data s) (aux_data s) (pending s) (scheduled s)
    (dependencies s) (error s) (jobs s).
Definition with_jobs js s : ParallelState :=
  MkParallelState (main s) (pool s) (target_build_files s) (data s) (aux_data s) (pending s) (scheduled s)
    (dependencies s) (error s) js.

Definition ParallelState_init files : ParallelState :=
  MkParallelState Running false [] [] [] 0 files files false [].

(** [set.add] *)
Definition set_add (x : string) (l : list string) : list string := if x in? l then l else x :: l.

(** One new dependency in the loop of the callback. *)
Definition schedule (sd : list string * list string) (new_dependency : string) : list string * list string :=
  if new_dependency in? sd.1 then sd else (new_dependency :: sd.1, sd.2 ++ [new_dependency]).

Definition notify (m : main_phase) : main_phase := match m with Waiting => Notified | m => m end.

Definition LoadTargetBuildFileCallback s (result : job_result) : ParallelState :=
  match result with
  | NoResult =>
      MkParallelState (notify (main s)) (pool s) (target_build_files s) (data s) (aux_data s) (pending s)
        (scheduled s) (dependencies s) true (jobs s)
  | JobResult build_file_path0 data0 aux_data0 dependencies0 =>
      let sd := foldl schedule (scheduled s, dependencies s) dependencies0 in
      MkParallelState (notify (main s)) (pool s) (set_add build_file_path0 (target_build_files s))
        (dict_update (data s) data0) (dict_update (aux_data s) aux_data0) (pred (pending s))
        sd.1 sd.2 (error s) (jobs s)
  end.

(** One turn of the loop of [LoadTargetBuildFilesParallel], and what follows it. *)
Definition main_step s : option ParallelState :=
  match main s with
  | Running =>
      match last (dependencies s), pending s with
      | None, 0 => Some (with_main Joining s)
      | popped, _ =>
          if error s then Some (with_main Joining s)
          else
            match popped with
            | None => Some (with_main Waiting s)
            | Some dependency =>
                Some (MkParallelState Running true (target_build_files s) (data s) (aux_data s)
                        (S (pending s)) (scheduled s) (removelast (dependencies s)) (error s)
                        (jobs s ++ [Queued dependency]))
            end
      end
  | Notified => Some (with_main Running s)
  | Joining =>
      if pool s then
        match jobs s with [] => Some (with_main (if error s then Exited else Returned) s) | _ => None end
      else Some (with_main Crashed s)
  | Waiting | Returned | Exited | Crashed => None
  end.

(** The thread that runs a step: the main thread, or one of the pool that deals
    with the job at an index. *)
Inductive thread := Main | Pool (i : nat).

(** The lock is free. *)
Definition unlocked s : bool := negb (main s ==? Running).

Definition job_step s (i : nat) : option ParallelState :=
  match jobs s !! i with
  | None => None
  | Some (Queued f) => Some (with_jobs (<[i := Started f (target_build_files s)]> (jobs s)) s)
  | Some (Started f snapshot) =>
      Some (with_jobs (<[i := Finished f (CallLoadTargetBuildFile f snapshot)]> (jobs s)) s)
  | Some (Finished f r) =>
      if unlocked s then Some (LoadTargetBuildFileCallback (with_jobs (delete i (jobs s)) s) r) else None
  end.

Definition thread_step (t : thread) s : option ParallelState :=
  match t with Main => main_step s | Pool i => job_step s i end.

(** A schedule is the list of the threads that run; a thread that cannot run
    makes it impossible. *)
Fixpoint run (ts : list thread) s : option ParallelState :=
  match ts with [] => Some s | t :: ts => s' ← thread_step t s; run ts s' end.

Definition LoadTargetBuildFilesParallel files (ts : list thread) : option ParallelState :=
  run ts (ParallelState_init files).

(** * Theorems *)

#[local] Arguments dict_update : simpl never.
#[local] Arguments dict_keys : simpl never.

(** A file leads to the files it depends on, if it can be loaded. *)
Definition leads_to (f f' : string) : Prop := ∃ r, load f = Some r ∧ f' ∈ loaded_dependencies r.
Definition reached files f : Prop := ∃ f0, f0 ∈ files ∧ rtc leads_to f0 f.

Definition job_ok (tbf : list string) (j : job) : Prop :=
  match j with
  | Queued _ => True
  | Started _ snapshot => snapshot ⊆ tbf
  | Finished f r => r = CallLoadTargetBuildFile f []
  end.

(** The files that have been scheduled are waiting, being loaded, loaded, or have
    failed, each exactly one of these; [failed] are the last ones. *)
Record parallel_inv files s (failed : list string) : Prop := {
  pi_parts : dependencies s ++ (job_file <$> jobs s) ++ target_build_files s ++ failed ≡ₚ scheduled s;
  pi_nodup : NoDup (scheduled s);
  pi_error : error s = true ↔ failed ≠ [];
  pi_pending : pending s = length (jobs s) + length failed;
  pi_failed : ∀ f, f ∈ failed → load f = None;
  pi_jobs : ∀ j, j ∈ jobs s → job_ok (target_build_files s) j;
  pi_roots : files ⊆ scheduled s;
  pi_reached : ∀ f, f ∈ scheduled s → reached files f;
  pi_loaded : ∀ f, f ∈ target_build_files s → ∃ r, load f = Some r ∧ loaded_dependencies r ⊆ scheduled s;
  pi_data : ∀ k, k ∈ dict_keys (data s) ↔
    ∃ f r, f ∈ target_build_files s ∧ load f = Some r ∧ k ≠ "target_build_files" ∧ k ∈ dict_keys (loaded_data r);
  pi_aux : ∀ k, k ∈ dict_keys (aux_data s) ↔
    ∃ f r, f ∈ target_build_files s ∧ load f = Some r ∧ k ∈ dict_keys (loaded_aux r);
  pi_pool : pool s = false → dependencies s = files ∧ jobs s = [] ∧ failed = [] ∧ main s ≠ Waiting;
  pi_main :
    match main s with
    | Running | Notified => True
    | Waiting => jobs s ≠ []
    | Joining => error s = true ∨ (dependencies s = [] ∧ jobs s = [])
    | Returned => error s = false ∧ dependencies s = [] ∧ jobs s = []
    | Exited => error s = true
    | Crashed => files = []
    end
}.

Lemma schedule_fold l sch deps :
  ∃ new, foldl schedule (sch, deps) l = (reverse new ++ sch, deps ++ new)
    ∧ (NoDup sch → NoDup (reverse new ++ sch)) ∧ new ⊆ l ∧ l ⊆ reverse new ++ sch.
Proof.
  revert sch deps. induction l as [|x l IH]; intros sch deps; cbn [foldl].
  { exists []. rewrite app_nil_r. split_and!; try done; set_solver. }
  unfold schedule at 2. cbn [fst snd]. case_bool_decide as Hx.
  - destruct (IH sch deps) as (new&->&Hd&Hn&Hl). exists new. split_and!; [done..|set_solver|set_solver].
  - destruct (IH (x :: sch) (deps ++ [x])) as (new&->&Hd&Hn&Hl). exists (x :: new).
    rewrite reverse_cons, <- !app_assoc. cbn [app]. split_and!; [done| |set_solver|set_solver].
    intros Hsch. apply Hd. by constructor.
Qed.

Lemma dict_update_keys (d l : list (string * D)) k :
  k ∈ dict_keys (dict_update d l) ↔ k ∈ dict_keys d ∨ k ∈ dict_keys l.
Proof.
  unfold dict_update. revert d. induction l as [|[k0 v0] l IH]; intros d; cbn [foldl].
  - unfold dict_keys; simpl. set_solver.
  - rewrite IH, elem_of_dict_keys_set. unfold dict_keys; cbn [fmap list_fmap fst]. set_solver.
Qed.

Lemma dict_keys_filter (d : list (string * D)) (ks : list string) k :
  k ∈ dict_keys (filter (λ p, p.1 ∉ ks) d) ↔ (k ∉ ks) ∧ k ∈ dict_keys d.
Proof.
  unfold dict_keys. rewrite !list_elem_of_fmap. setoid_rewrite list_elem_of_filter. naive_solver.
Qed.

Lemma removelast_last {A} (l : list A) x : last l = Some x → l = removelast l ++ [x].
Proof.
  intros Hl. apply last_Some in Hl as [l' ->]. by rewrite removelast_last.
Qed.

Section step_inv.
Context (files : list string).

Lemma parallel_inv_init : NoDup files → parallel_inv files (ParallelState_init files) [].
Proof.
  intros Hd. split; cbn; try done; try set_solver; by rewrite !app_nil_r.
Qed.

(** Steps that change neither the sets nor what is left to do. *)
Lemma parallel_inv_main s failed m :
  parallel_inv files s failed →
  (pool s = false → m ≠ Waiting) →
  (match m with
   | Running | Notified => True
   | Waiting => jobs s ≠ []
   | Joining => error s = true ∨ (dependencies s = [] ∧ jobs s = [])
   | Returned => error s = false ∧ dependencies s = [] ∧ jobs s = []
   | Exited => error s = true
   | Crashed => files = []
   end) → parallel_inv files (with_main m s) failed.
Proof. intros [] ??. split; cbn; try done. naive_solver. Qed.

Lemma job_files_insert (js : list job) i j j' :
  js !! i = Some j → job_file j' = job_file j → job_file <$> <[i:=j']> js = job_file <$> js.
Proof.
  intros Hi Hj. rewrite list_fmap_insert, Hj. apply list_insert_id. by rewrite list_lookup_fmap, Hi.
Qed.

Lemma parallel_inv_job s failed i j j' :
  parallel_inv files s failed → jobs s !! i = Some j → job_file j' = job_file j →
  job_ok (target_build_files s) j' → parallel_inv files (with_jobs (<[i:=j']> (jobs s)) s) failed.
Proof.
  intros [] Hi Hj Hok. assert (Hlt : i < length (jobs s)) by by eapply lookup_lt_Some.
  assert (Hnil : <[i:=j']> (jobs s) = [] ↔ jobs s = []).
  { rewrite <- !length_zero_iff_nil, length_insert. done. }
  split; cbn; try done.
  - by rewrite (job_files_insert _ _ j).
  - by rewrite length_insert.
  - intros j0 Hin. apply list_elem_of_lookup in Hin as [i0 Hi0]. apply list_lookup_insert_Some in Hi0 as [(_&<-&_)|[_ Hi0]]; [done|].
    eauto using list_elem_of_lookup_2.
  - intros Hp. rewrite Hnil. eauto.
  - destruct (main s); rewrite ?Hnil; done.
Qed.

(** A job that is done leaves its file in no other part. *)
Lemma parallel_inv_not_loaded s failed i f :
  parallel_inv files s failed → (job_file <$> jobs s) !! i = Some f → f ∉ target_build_files s.
Proof.
  intros [] Hi Hf.
  assert (Hnd : NoDup (dependencies s ++ (job_file <$> jobs s) ++ target_build_files s ++ failed))
    by by rewrite pi_parts0.
  apply NoDup_app in Hnd as (_&_&Hnd). apply NoDup_app in Hnd as (_&Hdis&_).
  eapply Hdis; [by eapply list_elem_of_lookup_2|]. apply elem_of_app. by left.
Qed.

Lemma parallel_inv_dispatch s failed dependency :
  parallel_inv files s failed → error s = false → main s = Running → last (dependencies s) = Some dependency →
  parallel_inv files
    (MkParallelState Running true (target_build_files s) (data s) (aux_data s) (S (pending s)) (scheduled s)
       (removelast (dependencies s)) (error s) (jobs s ++ [Queued dependency])) failed.
Proof.
  intros [] He Hm Hl. apply removelast_last in Hl. split; cbn; try done.
  - rewrite <- pi_parts0. rewrite Hl at 2. rewrite fmap_app; cbn. rewrite <- !app_assoc. cbn. solve_Permutation.
  - rewrite length_app; cbn. lia.
  - intros j [Hj|Hj]%elem_of_app; [by apply pi_jobs0|]. apply list_elem_of_singleton in Hj as ->. done.
Qed.

Lemma parallel_inv_callback s failed i f r :
  parallel_inv files s failed → jobs s !! i = Some (Finished f r) → main s ≠ Running →
  ∃ failed', parallel_inv files (LoadTargetBuildFileCallback (with_jobs (delete i (jobs s)) s) r) failed'.
Proof.
  intros Hinv Hi Hm.
  assert (Hf : f ∉ target_build_files s).
  { eapply parallel_inv_not_loaded; [done|]. by rewrite list_lookup_fmap, Hi. }
  assert (Hjs : jobs s ≡ₚ Finished f r :: delete i (jobs s)) by (by apply delete_Permutation).
  generalize dependent (delete i (jobs s)). intros js Hjs.
  destruct Hinv.
  assert (Hr : r = CallLoadTargetBuildFile f []).
  { apply (pi_jobs0 (Finished f r)). by eapply list_elem_of_lookup_2. }
  assert (Hdel : ∀ j, j ∈ js → j ∈ jobs s) by (intros j ?; rewrite Hjs; by right).
  assert (Hmem : f ∈ scheduled s).
  { rewrite <- pi_parts0, Hjs. set_solver. }
  assert (Hlen : length (jobs s) = S (length (js))) by (apply Permutation_length in Hjs; done).
  assert (Hphase : notify (main s) = Notified ∨ (notify (main s) = Joining ∧ error s = true)
    ∨ (notify (main s) = Exited ∧ error s = true) ∨ (notify (main s) = Crashed ∧ files = [])).
  { destruct (main s); cbn; try tauto.
    - destruct pi_main0 as [?|[_ Hnil]]; [tauto|]. by rewrite Hnil in Hlen.
    - destruct pi_main0 as (_&_&Hnil). by rewrite Hnil in Hlen. }
  assert (Hpool : pool s ≠ false).
  { intros Hp. apply pi_pool0 in Hp as (_&Hnil&_). by rewrite Hnil in Hlen. }
  unfold CallLoadTargetBuildFile in Hr. rewrite bool_decide_eq_false_2 in Hr by set_solver.
  destruct (load f) as [[d0 a0 deps0]|] eqn:Hload; subst r; cbn [LoadTargetBuildFileCallback].
  - exists failed. cbn [dependencies scheduled with_jobs].
    destruct (schedule_fold deps0 (scheduled s) (dependencies s)) as (new&->&Hnd&Hnew&Hin).
    unfold set_add. cbn [target_build_files with_jobs]. rewrite bool_decide_eq_false_2 by done.
    split; cbn.
    + rewrite <- pi_parts0, Hjs. cbn. rewrite (reverse_Permutation new), <- !app_assoc. solve_Permutation.
    + by apply Hnd.
    + done.
    + rewrite pi_pending0. lia.
    + done.
    + intros j Hj. apply Hdel, pi_jobs0 in Hj. destruct j; cbn in *; set_solver.
    + set_solver.
    + intros x [Hx|Hx]%elem_of_app; [|by apply pi_reached0].
      rewrite elem_of_reverse in Hx. destruct (pi_reached0 f Hmem) as (f0&?&Hrtc). exists f0. split; [done|].
      eapply rtc_r; [exact Hrtc|]. eexists. split; [done|]. by apply Hnew.
    + intros x [->|Hx]%elem_of_cons; [by eexists|].
      destruct (pi_loaded0 x Hx) as (r&?&?). exists r. set_solver.
    + intros k. rewrite dict_update_keys, pi_data0, dict_keys_filter, list_elem_of_singleton. split.
      * intros [(x&r&?&?&?&?)|[Hk ?]]; [exists x, r; set_solver|].
        exists f. eexists. split_and!; [set_solver|done..].
      * intros (x&r&[->|Hx]%elem_of_cons&?&?&?); [|left; eauto 10]. simplify_eq/=. by right.
    + intros k. rewrite dict_update_keys, pi_aux0. split.
      * intros [(x&r&?&?&?)|?]; [exists x, r; set_solver|]. exists f. eexists. split_and!; [set_solver|done|done].
      * intros (x&r&[->|Hx]%elem_of_cons&?&?); [|left; eauto]. simplify_eq/=. by right.
    + done.
    + destruct Hphase as [->|[[-> ?]|[[-> ?]|[-> ?]]]]; auto.
  - exists (f :: failed). split; cbn; try done.
    + rewrite <- pi_parts0, Hjs. cbn. solve_Permutation.
    + rewrite pi_pending0. lia.
    + intros x [->|?]%elem_of_cons; auto.
    + intros j Hj. auto.
    + destruct Hphase as [->|[[-> ?]|[[-> ?]|[-> ?]]]]; auto.
Qed.

Lemma parallel_inv_step t s s' failed :
  parallel_inv files s failed → thread_step t s = Some s' → ∃ failed', parallel_inv files s' failed'.
Proof.
  intros Hinv Hs. destruct t as [|i]; cbn [thread_step] in Hs.
  - exists failed. unfold main_step in Hs. destruct (main s) eqn:Hm; try done.
    + destruct (last (dependencies s)) as [dependency|] eqn:Hl.
      * destruct (error s) eqn:He; simplify_eq/=.
        -- apply parallel_inv_main; auto.
        -- rewrite <- He. by apply parallel_inv_dispatch.
      * apply last_None in Hl. destruct (pending s) as [|n] eqn:Hp.
        { simplify_eq/=. apply parallel_inv_main; try done. right. split; [done|].
          destruct Hinv. apply nil_length_inv. lia. }
        destruct (error s) eqn:He; simplify_eq/=; [apply parallel_inv_main; auto|].
        assert (Hjs : jobs s ≠ []).
        { destruct Hinv. intros Hnil. rewrite Hnil in *. cbn in *.
          assert (failed ≠ []) as Hne%pi_error0; [|congruence]. intros ->. cbn in *. lia. }
        apply parallel_inv_main; try done. intros Hpool. destruct Hinv. by apply pi_pool0 in Hpool as (_&?&_).
    + simplify_eq/=. by apply parallel_inv_main.
    + destruct (pool s) eqn:Hp.
      * destruct (jobs s) eqn:Hjs; [|done]. simplify_eq/=. pose proof Hinv as []. rewrite Hm in pi_main0.
        destruct (error s) eqn:He; apply parallel_inv_main; try done.
        destruct pi_main0 as [?|[? _]]; [congruence|done].
      * simplify_eq/=. apply parallel_inv_main; try done. destruct Hinv.
        destruct (pi_pool0 Hp) as (Hdeps&_&->&_). rewrite Hm in pi_main0.
        destruct pi_main0 as [He|[? _]]; [by apply pi_error0 in He|congruence].
  - unfold job_step in Hs. destruct (jobs s !! i) as [[f|f snapshot|f r]|] eqn:Hi; [| | |done].
    + simplify_eq/=. exists failed. eapply parallel_inv_job; [done..|]. cbn. set_solver.
    + simplify_eq/=. exists failed. eapply parallel_inv_job; [done..|]. cbn.
      assert (f ∉ target_build_files s).
      { eapply parallel_inv_not_loaded; [done|]. by rewrite list_lookup_fmap, Hi. }
      destruct Hinv. assert (Hsub : job_ok (target_build_files s) (Started f snapshot)).
      { apply pi_jobs0. by eapply list_elem_of_lookup_2. }
      unfold CallLoadTargetBuildFile. rewrite !bool_decide_eq_false_2 by set_solver. done.
    + unfold unlocked in Hs. case_bool_decide as Hm; [done|]. simplify_eq/=. by eapply parallel_inv_callback.
Qed.

Lemma parallel_inv_run ts s s' failed :
  parallel_inv files s failed → run ts s = Some s' → ∃ failed', parallel_inv files s' failed'.
Proof.
  revert s failed. induction ts as [|t ts IH]; intros s failed Hinv Hrun; cbn in Hrun; [by simplify_eq; eauto|].
  apply bind_Some in Hrun as (s1&Hs&Hrun). destruct (parallel_inv_step _ _ _ _ Hinv Hs) as [failed1 ?]. eauto.
Qed.

(** ** Progress *)
Definition final s : Prop := main s ∈ [Returned; Exited; Crashed].

Lemma parallel_progress s failed :
  parallel_inv files s failed → final s ∨ ∃ t s', thread_step t s = Some s'.
Proof.
  intros Hinv.
  assert (Hjob : unlocked s = true → jobs s ≠ [] → ∃ t s', thread_step t s = Some s').
  { intros Hu Hne. exists (Pool 0). cbn. unfold job_step. destruct (jobs s) as [|j js]; [done|]. cbn.
    destruct j; rewrite ?Hu; eauto. }
  destruct (main s) eqn:Hm.
  - right. exists Main. cbn. unfold main_step. rewrite Hm.
    destruct (last _), (pending s), (error s); eauto.
  - right. apply Hjob; [by unfold unlocked; rewrite Hm|]. destruct Hinv. by rewrite Hm in pi_main0.
  - right. exists Main. cbn. unfold main_step. rewrite Hm. eauto.
  - right. destruct (jobs s) as [|j js] eqn:Hjs; [|apply Hjob; [by unfold unlocked; rewrite Hm|done]].
    exists Main. cbn. unfold main_step. rewrite Hm, Hjs. destruct (pool s); eauto.
  - left. unfold final. rewrite Hm. set_solver.
  - left. unfold final. rewrite Hm. set_solver.
  - left. unfold final. rewrite Hm. set_solver.
Qed.

(** What is left to do: every step makes it less. *)
Definition phase_weight (m : main_phase) : nat :=
  match m with Running => 3 | Waiting => 2 | Notified => 4 | Joining => 1 | _ => 0 end.
Definition job_weight (j : job) : nat :=
  match j with Queued _ => 7 | Started _ _ => 6 | Finished _ _ => 5 end.
Definition work U s : nat :=
  9 * (length U - length (scheduled s)) + 8 * length (dependencies s)
  + sum_list_with job_weight (jobs s) + phase_weight (main s).

Lemma job_weight_insert js i j j' :
  js !! i = Some j → job_weight j' < job_weight j →
  sum_list_with job_weight (<[i:=j']> js) < sum_list_with job_weight js.
Proof.
  revert i. induction js as [|j0 js IH]; intros [|i] Hi Hw; simplify_eq/=; [lia|].
  specialize (IH i Hi Hw). lia.
Qed.

Lemma job_weight_delete js i j :
  js !! i = Some j → sum_list_with job_weight js = job_weight j + sum_list_with job_weight (delete i js).
Proof.
  revert i. induction js as [|j0 js IH]; intros [|i] Hi; simplify_eq/=; [lia|]. rewrite (IH i Hi). lia.
Qed.

Definition closed U : Prop := files ⊆ U ∧ ∀ f f', f ∈ U → leads_to f f' → f' ∈ U.

Lemma reached_closed U f : closed U → reached files f → f ∈ U.
Proof.
  intros [Hfiles Hstep] (f0&Hf0&Hrtc). apply Hfiles in Hf0. induction Hrtc; eauto.
Qed.

Lemma scheduled_bound U s failed :
  closed U → parallel_inv files s failed → length (scheduled s) ≤ length U.
Proof.
  intros HU []. apply submseteq_length, NoDup_submseteq; [done|]. intros f ?%pi_reached0. by eapply reached_closed.
Qed.

Lemma main_step_work U s s' : main_step s = Some s' → work U s' < work U s.
Proof.
  unfold main_step, work. intros Hs. destruct (main s) eqn:Hm; try done.
  - destruct (last (dependencies s)) as [dependency|] eqn:Hl, (pending s), (error s); simplify_eq/=; try lia.
    all: apply removelast_last in Hl; apply (f_equal length) in Hl; rewrite length_app in Hl.
    all: rewrite sum_list_with_app; cbn in *; lia.
  - simplify_eq/=. lia.
  - destruct (pool s), (jobs s) eqn:Hjs; simplify_eq/=; rewrite ?Hjs; cbn; try lia. destruct (error s); cbn; lia.
Qed.

Lemma job_step_work U s s' failed i :
  closed U → parallel_inv files s failed → job_step s i = Some s' → work U s' < work U s.
Proof.
  intros HU Hinv Hs. assert (Hstep : thread_step (Pool i) s = Some s') by done.
  destruct (parallel_inv_step _ _ _ _ Hinv Hstep) as [failed' Hinv'].
  pose proof (scheduled_bound _ _ _ HU Hinv'). clear Hinv Hinv' Hstep.
  unfold job_step in Hs. destruct (jobs s !! i) as [[f|f snapshot|f r]|] eqn:Hi; [| | |done].
  - simplify_eq/=. unfold work; cbn. assert (H1 := job_weight_insert _ _ _ (Started f (target_build_files s)) Hi).
    cbn in *. lia.
  - simplify_eq/=. unfold work; cbn.
    assert (H1 := job_weight_insert _ _ _ (Finished f (CallLoadTargetBuildFile f snapshot)) Hi). cbn in *. lia.
  - destruct (unlocked s) eqn:Hu; [|done]. simplify_eq. unfold work in *.
    assert (Hw := job_weight_delete _ _ _ Hi). cbn [job_weight] in Hw.
    assert (Hn : phase_weight (notify (main s)) ≤ 2 + phase_weight (main s)) by (destruct (main s); cbn; lia).
    destruct r as [|f0 d0 a0 deps0]; cbn [LoadTargetBuildFileCallback scheduled dependencies jobs main with_jobs] in *.
    + lia.
    + destruct (schedule_fold deps0 (scheduled s) (dependencies s)) as (new&Heq&_). rewrite Heq in *.
      cbn [fst snd] in *. rewrite !length_app, length_reverse in *. lia.
Qed.

Lemma run_work U ts s s' failed :
  closed U → parallel_inv files s failed → run ts s = Some s' → length ts + work U s' ≤ work U s.
Proof.
  intros HU. revert s failed. induction ts as [|t ts IH]; intros s failed Hinv Hrun; cbn in Hrun; [by simplify_eq|].
  apply bind_Some in Hrun as (s1&Hs&Hrun). destruct (parallel_inv_step _ _ _ _ Hinv Hs) as [failed1 Hinv1].
  apply (IH _ _ Hinv1) in Hrun. assert (work U s1 < work U s); [|cbn [length]; lia].
  destruct t; [by apply main_step_work|by eapply job_step_work].
Qed.
End step_inv.

(** What a run has established when it ends. *)
Lemma parallel_inv_returned files s failed :
  parallel_inv files s failed → main s = Returned →
  (∀ f, f ∈ target_build_files s ↔ reached files f) ∧ NoDup (target_build_files s)
  ∧ (∀ f, reached files f → is_Some (load f))
  ∧ (∀ k, k ∈ dict_keys (data s) ↔ k ≠ "target_build_files"
      ∧ ∃ f r, reached files f ∧ load f = Some r ∧ k ∈ dict_keys (loaded_data r))
  ∧ (∀ k, k ∈ dict_keys (aux_data s) ↔ ∃ f r, reached files f ∧ load f = Some r ∧ k ∈ dict_keys (loaded_aux r)).
Proof.
  intros [] Hm. rewrite Hm in pi_main0. destruct pi_main0 as (He&Hdeps&Hjs).
  assert (failed = []) as ->.
  { destruct failed; [done|]. assert (error s = true); [|congruence]. by apply pi_error0. }
  rewrite Hdeps, Hjs, app_nil_r in pi_parts0. cbn in pi_parts0.
  assert (Hall : ∀ f, reached files f → f ∈ target_build_files s).
  { intros f (f0&Hf0&Hrtc). apply pi_roots0 in Hf0. rewrite <- pi_parts0 in Hf0.
    clear Hjs Hdeps. induction Hrtc as [f|f f1 f2 (r&Hr&Hin) _ IH]; [done|]. apply IH.
    destruct (pi_loaded0 f Hf0) as (r'&Hr'&Hsub). simplify_eq. rewrite pi_parts0. by apply Hsub. }
  assert (Heq : ∀ f, f ∈ target_build_files s ↔ reached files f).
  { intros f. split; [|apply Hall]. intros Hf. apply pi_reached0. by rewrite <- pi_parts0. }
  split_and!; [done|by rewrite pi_parts0| | |].
  - intros f Hf%Hall. apply pi_loaded0 in Hf as (r&?&_). by exists r.
  - intros k. rewrite pi_data0. setoid_rewrite Heq. naive_solver.
  - intros k. rewrite pi_aux0. setoid_rewrite Heq. naive_solver.
Qed.

Lemma parallel_inv_exited files s failed :
  parallel_inv files s failed → main s = Exited → ∃ f, reached files f ∧ load f = None.
Proof.
  intros [] Hm. rewrite Hm in pi_main0. apply pi_error0 in pi_main0. destruct failed as [|f failed]; [done|].
  exists f. split; [|apply pi_failed0; by left]. apply pi_reached0. rewrite <- pi_parts0. set_solver.
Qed.
End parallel.

(** ** The loader of a worker *)

(** LoadTargetBuildFile in a process of its own, which starts with nothing loaded
    and sends trees back. *)
Definition worker_load `{Globals} `{RealPath} `{Outside} `{Files} (fuel fuel' : nat) (check : bool)
    (includes : list string) (depth : string) (variables : hdict) (path : string) : option (loaded (D:=pyval)) :=
  match LoadTargetBuildFile fuel fuel' check includes depth path false (Loading [] [] [] variables)
          (World ∅ ∅ 0 [] []) with
  | Ok (Some dependencies, s, w) =>
      match map_result (λ '(k, a), t ← read_tree (S (next w)) w (HDict a); Ok (k, t)) (BuildFile.data s) with
      | Ok data =>
          Some (Loaded data
                  ((λ '(k, files), (k, VDict [("included", VList (VStr <$> files))])) <$> BuildFile.aux_data s)
                  dependencies)
      | Err _ => None
      end
  | _ => None
  end.

(** * Properties *)

(** C9: in whatever order the processes run and answer, a parallel load that
    returns has loaded exactly the build files reachable from those it was given,
    each once, and [data] and [aux_data] hold exactly what loading them adds; one
    that exits with an error has met a reachable file that cannot be loaded, so no
    file is ever given to two workers, whose second answer would count as an error;
    and the pool is missing at the end only if there was nothing to load. *)
Theorem LoadTargetBuildFilesParallel_correct {D} (load : string → option (loaded (D:=D))) files ts s :
  NoDup files → LoadTargetBuildFilesParallel load files ts = Some s →
  match main s with
  | Returned =>
      (∀ f, f ∈ target_build_files s ↔ reached load files f) ∧ NoDup (target_build_files s)
      ∧ (∀ f, reached load files f → is_Some (load f))
      ∧ (∀ k, k ∈ dict_keys (data s) ↔ k ≠ "target_build_files"
          ∧ ∃ f r, reached load files f ∧ load f = Some r ∧ k ∈ dict_keys (loaded_data r))
      ∧ (∀ k, k ∈ dict_keys (aux_data s) ↔
          ∃ f r, reached load files f ∧ load f = Some r ∧ k ∈ dict_keys (loaded_aux r))
  | Exited => ∃ f, reached load files f ∧ load f = None
  | Crashed => files = []
  | _ => True
  end.
Proof.
  intros Hd Hrun. destruct (parallel_inv_run load files _ _ _ _ (parallel_inv_init load files Hd) Hrun) as [failed Hinv].
  destruct (main s) eqn:Hm; try done.
  - by eapply parallel_inv_returned.
  - by eapply parallel_inv_exited.
  - destruct Hinv. by rewrite Hm in pi_main0.
Qed.

(** C20: the parallel load has no deadlock, and ends whatever the order of the steps:
    when the files that can be reached are among [U], a state that is not final has
    a next step, and no run has more than 9 |U| + 3 steps. *)
Theorem LoadTargetBuildFilesParallel_live {D} (load : string → option (loaded (D:=D))) U files ts s :
  NoDup files → closed load files U → LoadTargetBuildFilesParallel load files ts = Some s →
  length ts ≤ 9 * length U + 3 ∧ (final s ∨ ∃ t s', thread_step load t s = Some s').
Proof.
  intros Hd HU Hrun. pose proof (parallel_inv_init load files Hd) as Hinit.
  destruct (parallel_inv_run load files _ _ _ _ Hinit Hrun) as [failed Hinv].
  split; [|by eapply parallel_progress]. apply (run_work load files U _ _ _ _ HU Hinit) in Hrun.
  pose proof (scheduled_bound load files U _ _ HU Hinit). unfold work in Hrun at 2. cbn in *. lia.
Qed.

(** Three files; c.gyp is found by two workers at once. *)
Definition sample_load (f : string) : option (loaded (D:=nat)) :=
  if f ==? "a.gyp" then Some (Loaded [("a.gyp", 1); ("x.gypi", 4)] [("a.gyp", 0)] ["c.gyp"])
  else if f ==? "b.gyp" then Some (Loaded [("b.gyp", 2)] [("b.gyp", 0)] ["a.gyp"; "c.gyp"])
  else if f ==? "c.gyp" then Some (Loaded [("c.gyp", 3); ("x.gypi", 4)] [("c.gyp", 0)] [])
  else None.
Definition sample_schedule : list thread :=
  [Main; Main; Main; Pool 0; Pool 1; Pool 1; Pool 0; Pool 1; Pool 0; Main; Main; Main; Pool 0; Pool 0; Pool 0;
   Main; Main; Main].

Lemma LoadTargetBuildFilesParallel_correct_witness :
  ∃ s, LoadTargetBuildFilesParallel sample_load ["a.gyp"; "b.gyp"] sample_schedule = Some s
    ∧ main s = Returned
    ∧ dict_keys (data s) = ["a.gyp"; "x.gypi"; "b.gyp"; "c.gyp"]
    ∧ ∀ f, f ∈ target_build_files s ↔ reached sample_load ["a.gyp"; "b.gyp"] f.
Proof.
  destruct (LoadTargetBuildFilesParallel sample_load ["a.gyp"; "b.gyp"] sample_schedule) as [s|] eqn:Hrun;
    [|vm_compute in Hrun; discriminate].
  pose proof (LoadTargetBuildFilesParallel_correct sample_load ["a.gyp"; "b.gyp"] sample_schedule s) as Hc.
  assert (Hm : main s = Returned) by (vm_compute in Hrun; injection Hrun as <-; reflexivity).
  rewrite Hm in Hc. exists s. split; [done|]. split; [done|]. split.
  - vm_compute in Hrun. injection Hrun as <-. reflexivity.
  - apply Hc; [|exact Hrun]. by apply (bool_decide_unpack _).
Defined.

Lemma LoadTargetBuildFilesParallel_live_witness :
  ∃ s, LoadTargetBuildFilesParallel sample_load ["b.gyp"] [Main; Main; Pool 0; Pool 0] = Some s
    ∧ ∃ t s', thread_step sample_load t s = Some s'.
Proof.
  destruct (LoadTargetBuildFilesParallel sample_load ["b.gyp"] [Main; Main; Pool 0; Pool 0]) as [s|] eqn:Hrun;
    [|vm_compute in Hrun; discriminate].
  exists s. split; [done|].
  destruct (LoadTargetBuildFilesParallel_live sample_load ["a.gyp"; "b.gyp"; "c.gyp"] ["b.gyp"]
    [Main; Main; Pool 0; Pool 0] s) as [_ [Hf|?]];
    [| |exact Hrun| |done].
  - by apply (bool_decide_unpack _).
  - split; [by apply (bool_decide_unpack _)|]. intros f f' Hf (r&Hr&Hin). unfold sample_load in Hr.
    repeat case_bool_decide; simplify_eq/=; set_solver.
  - vm_compute in Hrun. injection Hrun as <-. unfold final in Hf. cbn in Hf. set_solver.
Defined.
