(* ===== verification/Load.v ===== *)
(** * Loading a project

    [Load] of tools/gyp/pylib/gyp/input.py, which composes all the phases: the build
    files are loaded with what they depend on, the targets found and their dependency
    lists brought into their final form and sorted, settings published to dependents,
    variables expanded twice more, configurations set up, filters applied, and the
    targets checked.

    The middle of the function works on the dictionaries of the targets, which no
    two targets share, so each is a tree; they become objects for the two phases
    of expansion, whose variables are shared, and trees again.  Files are loaded one by
    one here; loading them with several processes is the transition system of Parallel.v. *)
From stdpp Require Import relations.
From S2P Require Import Prelude PyDict PySet PyStr PyPath PyVal PyNum Common Merge Dfs.
From S2P Require Import DepGraph DepList Config Filters Validate Targets LinkDeps Refs Store Expand BuildFile.
From Stdlib Require Import Ascii.

(** What Load uses of [generator_input_info]; generator_filelist_paths is a field of
    [Outside]. *)
Record generator_input := GeneratorInput {
  gii_path_sections : list string;
  gii_non_configuration_keys : list string;
  gii_supports_multiple_toolsets : bool;
  extra_sources_for_rules : list string;
  wants_static_library_dependencies_adjusted : bool;
  wants_sorted_dependencies : bool
}.

Section phases.
Context `{Globals} `{RealPath} `{Outside} `{!SetPop (option string)} `{!SetPop (option (option string))}.
Implicit Types (targets : list (string * pydict)) (flat_list : list string) (key : string).

(** ** Dependency lists *)

(** [tmp_dict[key] = target_dict[key]; del target_dict[key]] *)
Definition take_list key (st : pydict * pydict) : pydict * pydict :=
  let '(tmp_dict, target_dict) := st in
  match dict_get target_dict key with
  | Some v => (dict_set tmp_dict key v, dict_del target_dict key)
  | None => st
  end.

(** The filters of the dependency sections of one target. *)
Definition filter_dependencies (target_name : string) (target_dict : pydict) : result pydict :=
  let '(tmp_dict, target_dict) := foldl (λ st key, take_list key st) ([], target_dict) all_dependency_sections in
  tmp_dict ← ProcessListFiltersInDict re_compile target_name tmp_dict;
  Ok (dict_update target_dict tmp_dict).

(** The targets of the build files, with the dependencies each of them has. *)
Definition dependency_lists (data : build_data) : result (list (string * pydict)) :=
  targets ← BuildTargetsDict data;
  targets ← QualifyDependencies targets;
  targets ← RemoveSelfDependencies targets;
  targets ← ExpandWildcardDependencies targets data;
  targets ← update_targets filter_dependencies targets;
  RemoveDuplicateDependencies targets.

(** The sorted targets, without those that nobody wants, and the graph. *)
Definition sort_targets (data : build_data) (circular_check : bool) (root_targets : list string) :
    result (gmap (option string) (dgnode string) * list (string * pydict) * list string * build_data) :=
  targets ← dependency_lists data;
  _ ← (if circular_check then VerifyNoGYPFileCircularDependencies targets else Ok tt);
  '(dependency_nodes, flat_list) ← BuildDependencyList targets;
  '(targets, flat_list, data) ←
    (if root_targets ==? [] then Ok (targets, flat_list, data)
     else PruneUnwantedTargets targets flat_list dependency_nodes root_targets data);
  _ ← VerifyNoCollidingTargets flat_list;
  Ok (dependency_nodes, targets, flat_list, data).

(** ** Dependent settings *)

Definition settings_types : list string := ["all_dependent_settings"; "direct_dependent_settings"; "link_settings"].

(** [if settings_type in targets[target]: del targets[target][settings_type]] *)
Definition take_settings key (target : string) targets : result (list (string * pydict)) :=
  target_dict ← target_of targets target; Ok (dict_set targets target (dict_del target_dict key)).

Definition publish_settings flat_list (dependency_nodes : gmap (option string) (dgnode string)) key targets :
    result (list (string * pydict)) :=
  targets ← DoDependentSettings key flat_list targets dependency_nodes;
  for_each flat_list targets (take_settings key).

(** All of Load between loading the files and the second expansion. *)
Definition resolve_targets (gii : generator_input) (data : build_data) (circular_check : bool)
    (root_targets : list string) : result (list (string * pydict) * list string * build_data) :=
  '(dependency_nodes, targets, flat_list, data) ← sort_targets data circular_check root_targets;
  targets ← for_each settings_types targets (publish_settings flat_list dependency_nodes);
  targets ← (if wants_static_library_dependencies_adjusted gii
             then AdjustStaticLibraryDependencies flat_list targets dependency_nodes (wants_sorted_dependencies gii)
             else Ok targets);
  Ok (targets, flat_list, data).

(** ** The phases on one target after the other *)

(** A loop that changes the dictionary of each target of the flat list. *)
Definition for_targets flat_list targets (f : string → pydict → M pydict) : M (list (string * pydict)) :=
  (fix go (l : list string) targets : M (list (string * pydict)) :=
    match l with
    | [] => mret targets
    | target :: l =>
        target_dict ← lift (target_of targets target);
        target_dict ← f target target_dict;
        go l (dict_set targets target target_dict)
    end) flat_list targets.

(** The expansion of a target in one of the late phases. *)
Definition expand_target (fuel : nat) (p : phase) (variables : hdict) (target : string) (target_dict : pydict) : M pydict :=
  h ← alloc_tree (VDict target_dict);
  _ ← ProcessVariablesAndConditionsInDict fuel p (default "None" (BuildFile target)) h variables None;
  v ← tree_of h;
  lift (as_dict v).

(** ['arm' not in variables.get('target_arch', '')] *)
Definition not_arm (variables : hdict) : M bool :=
  match default (HStr "") (dict_get variables "target_arch") with
  | HStr s => mret (lfind (chars "arm") (chars s) ==? None)
  | HList a => l ← read_list a; mret (negb (HStr "arm" in? l))
  | HDict a => d ← read_dict a; mret (negb (dict_mem d "arm"))
  | HInt _ => throw (TypeError "int")
  end.

Definition validate_target (gii : generator_input) (variables : hdict) (target : string) (target_dict : pydict) : M pydict :=
  let build_file := default "None" (BuildFile target) in
  _ ← lift (ValidateTargetType target target_dict);
  b ← not_arm variables;
  _ ← lift (if (b : bool) then ValidateSourcesInTarget target target_dict build_file else Ok tt);
  target_dict ← lift (ValidateRulesInTarget target target_dict (extra_sources_for_rules gii));
  _ ← lift (ValidateRunAsInTarget target target_dict build_file);
  _ ← lift (ValidateActionsInTarget target target_dict build_file);
  mret target_dict.

(** The late phases of Load. *)
Definition finish_targets (fuel : nat) (gii : generator_input) (variables : hdict) flat_list targets :
    M (list (string * pydict)) :=
  targets ← for_targets flat_list targets (expand_target fuel PHASE_LATE variables);
  targets ← for_targets flat_list targets (λ target d, lift (SetUpConfigurations target d));
  targets ← for_targets flat_list targets (λ target d, lift (ProcessListFiltersInDict re_compile target d));
  targets ← for_targets flat_list targets (expand_target fuel PHASE_LATELATE variables);
  for_targets flat_list targets (validate_target gii variables).

(** ** Data *)

(** The lists of targets of the build files have the dictionaries of the targets. *)
Definition final_target targets (build_file : string) (v : pyval) : pyval :=
  match v with
  | VDict d =>
      match qualified_name build_file d with
      | Ok name => match dict_get targets name with Some d => VDict d | None => v end
      | Err _ => v
      end
  | _ => v
  end.
Definition final_build_file targets (data : build_data) (item : string * pydict) : string * pydict :=
  let '(build_file, d) := item in
  match dict_get d "targets" with
  | Some (VList l) =>
      if build_file in? Targets.target_build_files data
      then (build_file, dict_set d "targets" (VList (final_target targets build_file <$> l)))
      else item
  | _ => item
  end.

(** TurnIntIntoStrInDict of [data], and so of the targets. *)
Definition dict_ints (d : pydict) : pydict := (λ p, (p.1, TurnIntIntoStr p.2)) <$> d.
Definition final_data targets (data : build_data) : build_data :=
  BuildData (Targets.target_build_files data)
    ((λ p, (p.1, dict_ints p.2)) <$> (final_build_file targets data <$> build_file_dicts data)).
End phases.

(** ** Load *)
Section load.
Context `{RealPath} `{Outside} `{Files} `{!SetPop (option string)} `{!SetPop (option (option string))}.

(** The build files are loaded in some order: that of a set. *)
Definition load_build_files `{Globals} (fuel fuel' : nat) (build_files : list string) (includes : list string) (depth : string)
    (check : bool) : L unit :=
  for_L build_files (λ build_file,
    _ ← appending ("while trying to load " +:+ build_file)
          (LoadTargetBuildFile fuel fuel' check includes depth build_file true);
    mret tt).

(** The data of the run, as trees. *)
Definition data_of (s : loading) : M build_data :=
  dicts ← map_m (λ '(path, a), v ← tree_of (HDict a); d ← lift (as_dict v); mret (path, d)) (data s);
  mret (BuildData (BuildFile.target_build_files s) dicts).

Definition Load (fuel fuel' : nat) (build_files : list string) (variables : hdict) (includes : list string) (depth : string)
    (gii : generator_input) (check circular_check : bool) (root_targets : list string) :
    M (list string * list (string * pydict) * build_data) :=
  let _ : Globals := SetGeneratorGlobals (gii_path_sections gii) (gii_non_configuration_keys gii)
                       (gii_supports_multiple_toolsets gii) in
  let build_files := set_of ((λ f, of_chars (p_normpath (chars f))) <$> build_files) in
  '(_, s) ← load_build_files fuel fuel' build_files includes depth check (Loading [] [] [] variables);
  data ← data_of s;
  '(targets, flat_list, data) ← lift (resolve_targets gii data circular_check root_targets);
  targets ← finish_targets fuel' gii (BuildFile.variables s) flat_list targets;
  mret (flat_list, (λ p, (p.1, dict_ints p.2)) <$> targets, final_data targets data).
End load.

(** * Theorems *)

Section dependency_theorems.
Context `{Globals} `{RealPath} `{Outside} `{!SetPop (option string)} `{!SetPop (option (option string))}.
Implicit Types (targets : list (string * pydict)) (flat_list : list string) (key : string).

(** ** Dependency lists *)

Lemma update_targets_Ok f targets targets' :
  update_targets f targets = Ok targets' →
  dict_keys targets' = dict_keys targets ∧ ∀ t d, (t, d) ∈ targets' → ∃ d0, (t, d0) ∈ targets ∧ f t d0 = Ok d.
Proof.
  unfold update_targets. intros Hrun%map_result_Ok. induction Hrun as [|[t d] [t' d'] ts ts' Hstep _ IH].
  { split; [done|]. by intros ? ? ?%elem_of_nil. }
  apply bind_Ok in Hstep as (d1&Hf&[= <- <-]). destruct IH as [Hk Hin]. split; [unfold dict_keys in *; cbn; by rewrite Hk|].
  intros t1 d2 [[= -> ->]|Ht1]%elem_of_cons; [exists d; by split; [left|]|].
  destruct (Hin _ _ Ht1) as (d0&?&?). exists d0. by split; [right|].
Qed.

(** Every dependency section is a list of strings without repetitions. *)
Definition section_ok key (d : pydict) : Prop := ∃ l, get_strs d key = Ok l ∧ NoDup l.

Lemma get_strs_set d k l : get_strs (dict_set d k (VList (VStr <$> l))) k = Ok l.
Proof. unfold get_strs, dict_get_default. rewrite dict_get_set_eq. apply as_strs_VStr. Qed.

Lemma get_strs_set_ne d k v k' : k ≠ k' → get_strs (dict_set d k v) k' = get_strs d k'.
Proof. intros. unfold get_strs, dict_get_default. by rewrite dict_get_set_ne. Qed.

Lemma Unify_NoDup l : NoDup (Unify l).
Proof.
  rewrite Unify_uniquer. pose proof (uniquer_result (λ e : string, e) l) as (_&Hnd&_).
  replace ((λ e : string, e) <$> uniquer (λ e, e) l) with (uniquer (λ e : string, e) l) in Hnd; [done|].
  symmetry. apply list_fmap_id.
Qed.

Lemma RemoveDuplicate_sections targets targets' :
  RemoveDuplicateDependencies targets = Ok targets' →
  dict_keys targets' = dict_keys targets
  ∧ ∀ t d key, (t, d) ∈ targets' → key ∈ dependency_sections → section_ok key d.
Proof.
  intros [Hk Hin]%update_targets_Ok. split; [done|]. intros t d key Ht.
  apply Hin in Ht as (d0&_&Hrun). revert key. eapply for_each_establish; [|exact Hrun]. clear.
  intros key d d' _ Hstep. cbn beta in Hstep. apply bind_Ok in Hstep as (l&Hl&[= <-]).
  assert (Hkey : section_ok key (if l ==? [] then d else dict_set d key (VList (VStr <$> Unify l)))).
  { case_bool_decide as Hnil.
    - exists l. split; [done|]. subst. apply NoDup_nil_2.
    - exists (Unify l). split; [apply get_strs_set|apply Unify_NoDup]. }
  split; [done|]. intros y Hy. destruct (decide (key = y)) as [<-|Hne]; [done|].
  destruct Hy as (ly&Hly&Hnd). exists ly. split; [|done]. case_bool_decide; [done|]. by rewrite get_strs_set_ne.
Qed.

Lemma get_strs_spec d l : get_strs d "dependencies" = Ok l → spec_dependencies d = Ok l.
Proof.
  unfold get_strs, spec_dependencies, dict_get_default. destruct (dict_get d "dependencies") as [v|]; cbn.
  - intros Hl. destruct (truthy v) eqn:Ht; [done|]. apply as_strs_Ok in Hl as ->. destruct l; [done|]. done.
  - by intros [= <-].
Qed.

Lemma listed_targets_qualified data targets t d :
  listed_targets data = Ok targets → (t, d) ∈ targets → ∃ build_file name, t = QualifiedTarget build_file name.1 name.2.
Proof.
  unfold listed_targets. intros (ls&Hls&[= <-])%bind_Ok (l&Hin&Hl)%elem_of_concat.
  apply map_result_Ok in Hls. apply list_elem_of_lookup in Hl as [i Hi].
  destruct (Forall2_lookup_r _ _ _ _ _ Hls Hi) as (b&_&Hb). cbn beta in Hb.
  apply bind_Ok in Hb as (dd&_&Hb). apply bind_Ok in Hb as (tl&_&Hb). apply map_result_Ok in Hb.
  apply list_elem_of_lookup in Hin as [j Hj]. destruct (Forall2_lookup_r _ _ _ _ _ Hb Hj) as (v&_&Hv). cbn beta in Hv.
  apply bind_Ok in Hv as (vd&_&Hv). apply bind_Ok in Hv as (name&Hname&[= <- <-]). unfold qualified_name in Hname.
  apply bind_Ok in Hname as (n&_&Hname). apply bind_Ok in Hname as (ts&_&[= <-]). by exists b, (n, Some ts).
Qed.

Lemma QualifiedTarget_colon build_file name toolset : ":"%char ∈ chars (QualifiedTarget build_file name toolset).
Proof.
  assert (Hc : ":"%char ∈ chars (build_file +:+ ":" +:+ name)).
  { rewrite !chars_app. apply elem_of_app. right. left. }
  unfold QualifiedTarget. destruct toolset as [ts|]; [|done]. destruct (nonempty ts); [|done].
  rewrite chars_app. apply elem_of_app. by left.
Qed.

(** The dictionary of targets: the targets of the files, under their names, with lists
    of dependencies that have no repetitions. *)
Lemma dependency_lists_result data targets :
  dependency_lists data = Ok targets →
  ∃ listed, listed_targets data = Ok listed ∧ dict_keys targets = dict_keys listed ∧ dict_wf targets
    ∧ ∀ t d key, (t, d) ∈ targets → key ∈ dependency_sections → section_ok key d.
Proof.
  unfold dependency_lists. intros (ts0&Hbuild&Hrun)%bind_Ok. apply bind_Ok in Hrun as (ts1&Hq&Hrun).
  apply bind_Ok in Hrun as (ts2&Hself&Hrun). apply bind_Ok in Hrun as (ts3&Hwild&Hrun). apply bind_Ok in Hrun as (ts4&Hfilter&Hdup).
  apply BuildTargetsDict_result in Hbuild as [Hlisted Hwf].
  apply update_targets_Ok in Hq as [Hq _], Hself as [Hself _], Hwild as [Hwild _], Hfilter as [Hfilter _].
  apply RemoveDuplicate_sections in Hdup as [Hdup Hok]. exists ts0.
  assert (Hk : dict_keys targets = dict_keys ts0) by congruence. split_and!; [done|done| |done].
  unfold dict_wf. by rewrite Hk.
Qed.

Lemma sections_typed targets :
  (∀ t d key, (t, d) ∈ targets → key ∈ dependency_sections → section_ok key d) → dependencies_typed targets.
Proof.
  intros Hok t d Ht. destruct (Hok t d "dependencies" Ht) as (l&Hl&_); [by left|]. by rewrite (get_strs_spec _ _ Hl).
Qed.

(** ** The order of the targets *)

(** Every target follows what it depends on. *)
Definition ordered_by (all : list (string * pydict)) flat_list : Prop :=
  ∀ l1 t l2 d, flat_list = l1 ++ t :: l2 → requires all t d → d ∈ l1.

Lemma ordered_sublist all flat flat' :
  NoDup flat → ordered_by all flat → flat' `sublist_of` flat →
  (∀ t d, t ∈ flat' → requires all t d → d ∈ flat') → ordered_by all flat'.
Proof.
  intros Hnd Hord Hsub Hclosed l1 t l2 d -> Hreq.
  assert (Hin : d ∈ l1 ++ t :: l2) by (eapply Hclosed; [|done]; apply elem_of_app; right; by left).
  apply sublist_app_l in Hsub as (k1&k2&->&Hs1&Hs2). apply sublist_cons_l in Hs2 as (m1&m2&->&Hs2).
  pose proof (Hord (k1 ++ m1) t m2 d) as Hd. rewrite <- app_assoc in Hd. specialize (Hd eq_refl Hreq).
  rewrite app_assoc in Hnd. apply NoDup_app in Hnd as (_&Hdisj&_). apply elem_of_app in Hin as [?|Hin]; [done|].
  exfalso. apply (Hdisj d Hd). apply elem_of_cons in Hin as [->|Hin]; [by left|]. right.
  exact (elem_of_sublist _ _ _ Hin Hs2).
Qed.

(** The targets a run is about: all of them, or those the root targets need. *)
Definition selected (all : list (string * pydict)) (root_targets : list string) (t : string) : Prop :=
  t ∈ dict_keys all
  ∧ (root_targets = [] ∨ ∃ r root, root ∈ root_targets ∧ r ∈ dict_keys all ∧ (ParseQualifiedTarget r).1.2 = str_strip root
       ∧ (t = r ∨ tc (requires all) r t)).

(** What sorting comes to. *)
Record sorted_targets (all : list (string * pydict)) (root_targets : list string) targets flat_list : Prop := {
  st_known : ∀ t d, requires all t d → d ∈ dict_keys all;
  st_acyclic : ∀ t, ¬ tc (requires all) t t;
  st_order : ordered_by all flat_list;
  st_nodup : NoDup flat_list;
  st_selected : ∀ t, t ∈ flat_list ↔ selected all root_targets t;
  st_keys : ∀ t, t ∈ dict_keys targets ↔ t ∈ flat_list;
  st_wf : dict_wf targets;
  st_same : ∀ t, t ∈ flat_list → dict_get targets t = dict_get all t;
  st_collisions : ∀ i j t1 t2, i < j → flat_list !! i = Some t1 → flat_list !! j = Some t2 → ¬ collides t1 t2
}.

Lemma root_targets_elem flat root_targets roots r :
  root_targets_of flat root_targets = Ok roots →
  r ∈ roots ↔ ∃ root, root ∈ root_targets ∧ r ∈ flat ∧ (ParseQualifiedTarget r).1.2 = str_strip root.
Proof.
  unfold root_targets_of. intros (names&Hnames&[= <-])%bind_Ok. rewrite elem_of_concat.
  apply map_result_Ok in Hnames. induction Hnames as [|root l roots ls Hroot _ IH].
  { split; [by intros (?&_&?%elem_of_nil)|]. by intros (?&?%elem_of_nil&_). }
  apply bind_Ok in Hroot as ([]&_&[= <-]). setoid_rewrite elem_of_cons. split.
  - intros (l&Hr&[->|Hl]).
    + unfold FindQualifiedTargets in Hr. apply list_elem_of_filter in Hr as [? ?]. eauto.
    + destruct (proj1 IH) as (root'&?&?); eauto.
  - intros (root'&[->|Hin]&Hr).
    + exists (FindQualifiedTargets (str_strip root) flat). split; [|by left]. apply list_elem_of_filter. naive_solver.
    + destruct (proj2 IH) as (l&?&?); eauto.
Qed.

Lemma NoColliding_qualified flat u :
  (∀ t, t ∈ flat → ":"%char ∈ chars t) → VerifyNoCollidingTargets flat = Ok u →
  ∀ i j t1 t2, i < j → flat !! i = Some t1 → flat !! j = Some t2 → ¬ collides t1 t2.
Proof. intros Hcolon Hrun. pose proof (VerifyNoColliding_result flat Hcolon) as Hc. by rewrite Hrun in Hc. Qed.

Lemma BuildFile_colon t : ":"%char ∈ chars t → BuildFile t ≠ None.
Proof.
  intros Hc. unfold BuildFile, ParseQualifiedTarget. destruct (str_rsplit1 ":" t) as [[b n]|] eqn:Hs.
  - by destruct (str_rsplit1 "#" n) as [[? ?]|].
  - by apply str_rsplit1_None in Hs.
Qed.

Lemma sections_qualified targets :
  (∀ t d key, (t, d) ∈ targets → key ∈ dependency_sections → section_ok key d) →
  (∀ t, t ∈ dict_keys targets → ":"%char ∈ chars t) → qualified_targets targets.
Proof.
  intros Hok Hcolon. split.
  - intros t d Ht. destruct (Hok t d "dependencies" Ht) as (l&->&_); [by left|done].
  - intros t d Ht. apply BuildFile_colon, Hcolon. apply list_elem_of_fmap. by exists (t, d).
Qed.

Lemma circular_checked targets u :
  qualified_targets targets → VerifyNoGYPFileCircularDependencies targets = Ok u → ∀ b, ¬ tc (file_requires targets) b b.
Proof. intros Hq Hrun. pose proof (VerifyNoGYPFile_result targets Hq) as Hc. rewrite Hrun in Hc. apply Hc. Qed.

Lemma requires_key targets t d : requires targets t d → t ∈ dict_keys targets.
Proof. intros (spec&_&Hin&_). apply list_elem_of_fmap. by exists (t, spec). Qed.

(** The selection of the targets that the roots need. *)
Lemma select_targets all nodes flat0 data root_targets targets flat data' :
  dict_wf all → graph_wf nodes → graph_of all nodes → flat0 ≡ₚ dict_keys all → ordered_by all flat0 →
  (∀ t d, requires all t d → d ∈ dict_keys all) →
  (if root_targets ==? [] then Ok (all, flat0, data)
   else PruneUnwantedTargets all flat0 nodes root_targets data) = Ok (targets, flat, data') →
  ordered_by all flat ∧ flat `sublist_of` flat0 ∧ (∀ t, t ∈ flat ↔ selected all root_targets t)
  ∧ (∀ t, t ∈ dict_keys targets ↔ t ∈ flat) ∧ dict_wf targets ∧ ∀ t, t ∈ flat → dict_get targets t = dict_get all t.
Proof.
  intros Hwf Hg Hgraph Hflat Hord Hknown Hrun. assert (Hnd : NoDup flat0) by by rewrite Hflat.
  case_bool_decide as Hroots.
  { injection Hrun as <- <- <-. split_and!; [done|done| | |done|done].
    - intros t. rewrite Hflat. unfold selected. tauto.
    - intros t. by rewrite Hflat. }
  apply Prune_result in Hrun as (roots&Hr&(Hpwf&Hpk&Hpg)&Hsub&Hin); [|done].
  assert (Hwanted : ∀ t, wanted nodes roots t ↔ selected all root_targets t).
  { intros t. unfold wanted, selected. split.
    - intros (r&Hr1&Ht). pose proof (proj1 (root_targets_elem _ _ _ _ Hr) Hr1) as (root&?&Hr2&?). rewrite Hflat in Hr2.
      rewrite graph_tc_requires in Ht by done. split; [|right; eauto 10].
      destruct Ht as [->|Ht]; [done|]. clear -Ht Hknown. induction Ht; eauto.
    - intros (Ht&[?|(r&root&?&Hr2&?&Hreq)]); [done|]. exists r. rewrite graph_tc_requires by done. split; [|done].
      apply (root_targets_elem _ _ _ _ Hr). exists root. by rewrite Hflat. }
  assert (Hin' : ∀ t, t ∈ flat ↔ wanted nodes roots t).
  { intros t. rewrite Hin. split; [tauto|]. intros Hw. split; [|done]. apply Hwanted in Hw as [? _]. by rewrite Hflat. }
  split_and!.
  - eapply ordered_sublist; [exact Hnd|done|done|]. intros t d Ht Hd. apply Hin', Hwanted. apply Hin', Hwanted in Ht.
    destruct Ht as (Ht&[?|(r&root&?&?&?&Hreq)]); [done|]. split; [by eapply Hknown|]. right. exists r, root. split_and!; [done..|].
    right. destruct Hreq as [->|Hreq]; [by apply tc_once|by eapply tc_r].
  - done.
  - intros t. by rewrite Hin', Hwanted.
  - intros t. by rewrite Hpk, Hin'.
  - done.
  - intros t Ht. by apply Hpg, Hin'.
Qed.

Lemma dependency_lists_facts data all :
  dependency_lists data = Ok all →
  dict_wf all ∧ dependencies_typed all ∧ qualified_targets all ∧ ∀ t, t ∈ dict_keys all → ":"%char ∈ chars t.
Proof.
  intros Hall. destruct (dependency_lists_result _ _ Hall) as (listed&Hlisted&Hk&Hwf&Hok).
  assert (Hcolon : ∀ t, t ∈ dict_keys all → ":"%char ∈ chars t).
  { intros t. rewrite Hk. intros ([t' d]&->&Hin)%list_elem_of_fmap.
    destruct (listed_targets_qualified _ _ _ _ Hlisted Hin) as (b&n&->). apply QualifiedTarget_colon. }
  split_and!; [done|by apply sections_typed|by apply sections_qualified|done].
Qed.

Lemma sort_targets_result data circular_check root_targets nodes targets flat data' :
  sort_targets data circular_check root_targets = Ok (nodes, targets, flat, data') →
  ∃ all, dependency_lists data = Ok all ∧ sorted_targets all root_targets targets flat
    ∧ (circular_check = true → ∀ b, ¬ tc (file_requires all) b b) ∧ graph_wf nodes.
Proof.
  unfold sort_targets. intros (all&Hall&Hrun)%bind_Ok. apply bind_Ok in Hrun as ([]&Hcheck&Hrun).
  apply bind_Ok in Hrun as ([g flat0]&Hbuild&Hrun). apply bind_Ok in Hrun as ([[ts fl] dt]&Hsel&Hrun).
  apply bind_Ok in Hrun as ([]&Hcol&[= <- <- <- <-]). exists all. split; [done|].
  destruct (dependency_lists_facts _ _ Hall) as (Hwf&Hty&Hq&Hcolon).
  pose proof (BuildDependencyList_result all Hwf Hty) as Hres. rewrite Hbuild in Hres.
  destruct Hres as (Hknown&Hacyclic&Hflat&Hord&Hg&Hgraph).
  apply (select_targets all g) in Hsel as (Hord'&Hsub&Hin&Hkeys&Hwf'&Hsame); [|done..].
  assert (Hnd : NoDup fl) by (eapply sublist_NoDup; [|exact Hsub]; by rewrite Hflat).
  split_and!; [| |done].
  - split; [done..|]. eapply NoColliding_qualified; [|exact Hcol]. intros t Ht. apply Hcolon. by apply Hin in Ht as [? _].
  - intros ->. by eapply circular_checked, Hcheck.
Qed.

(** ** The targets stay the same *)

Lemma set_target_keys targets t d d' : target_of targets t = Ok d → dict_keys (dict_set targets t d') = dict_keys targets.
Proof.
  intros Hd%target_of_Ok. rewrite dict_keys_set, decide_True; [done|]. apply dict_get_is_Some. by eexists.
Qed.

Lemma for_each_keys {A} (l : list A) targets targets' body :
  (∀ x ts ts', body x ts = Ok ts' → dict_keys ts' = dict_keys ts) →
  for_each l targets body = Ok targets' → dict_keys targets' = dict_keys targets.
Proof.
  intros Hbody. apply (for_each_inv (λ ts, dict_keys ts = dict_keys targets)); [done|].
  intros x ts ts' _ <- Hstep. by eapply Hbody.
Qed.

Lemma publish_settings_keys flat_list nodes key targets targets' :
  publish_settings flat_list nodes key targets = Ok targets' → dict_keys targets' = dict_keys targets.
Proof.
  intros (ts1&Hdo&Htake)%bind_Ok. transitivity (dict_keys ts1).
  - eapply for_each_keys; [|exact Htake]. clear. intros t ts ts' (d&Hd&[= <-])%bind_Ok. by eapply set_target_keys.
  - eapply for_each_keys; [|exact Hdo]. clear. intros t ts ts' (d0&_&Hrun)%bind_Ok. apply bind_Ok in Hrun as (deps&_&Hrun).
    eapply for_each_keys; [|exact Hrun]. clear. intros dep ts ts' (d&_&Hrun)%bind_Ok.
    destruct (dict_get d key); [|by injection Hrun as <-]. apply bind_Ok in Hrun as (settings&_&Hrun).
    apply bind_Ok in Hrun as (d1&Hd1&Hrun). apply bind_Ok in Hrun as (d2&_&[= <-]). by eapply set_target_keys.
Qed.

(** After settings of a type have been published, no target has any. *)
Lemma publish_settings_gone flat_list nodes key targets targets' t d :
  publish_settings flat_list nodes key targets = Ok targets' → t ∈ flat_list → dict_get targets' t = Some d →
  dict_get d key = None.
Proof.
  intros (ts1&_&Htake)%bind_Ok Ht. revert d.
  assert (Hgone : ∀ t, t ∈ flat_list → ∀ d, dict_get targets' t = Some d → dict_get d key = None); [|by apply Hgone].
  refine (for_each_establish (λ t ts, ∀ d, dict_get ts t = Some d → dict_get d key = None) _ _ _ _ _ Htake). clear.
  intros t ts ts' _ (d0&Hd0&[= <-])%bind_Ok. split.
  - intros d. rewrite dict_get_set_eq. intros [= <-]. apply dict_get_del_eq.
  - intros t' Ht' d. rewrite dict_get_set. case_decide as Hne; [|by apply Ht']. intros [= <-]. apply dict_get_del_eq.
Qed.

Lemma adjust_keys flat_list targets nodes sort targets' :
  AdjustStaticLibraryDependencies flat_list targets nodes sort = Ok targets' → dict_keys targets' = dict_keys targets.
Proof.
  apply for_each_keys. intros t ts ts' (d&Hd&Hrun)%bind_Ok. apply bind_Ok in Hrun as (ty&_&Hrun).
  apply bind_Ok in Hrun as (d'&_&[= <-]). by eapply set_target_keys.
Qed.

(** What resolving adds to sorting. *)
Record resolved (gii : generator_input) targets flat_list : Prop := {
  rs_published : ∀ t d, t ∈ flat_list → dict_get targets t = Some d → dict_get d "link_settings" = None;
  rs_static : wants_static_library_dependencies_adjusted gii = true →
    ∀ t d, t ∈ flat_list → dict_get targets t = Some d → static_adjusted targets d
}.

Lemma resolve_targets_result gii data circular_check root_targets targets flat data' :
  resolve_targets gii data circular_check root_targets = Ok (targets, flat, data') →
  ∃ all sorted, dependency_lists data = Ok all ∧ sorted_targets all root_targets sorted flat
    ∧ (circular_check = true → ∀ b, ¬ tc (file_requires all) b b)
    ∧ dict_keys targets = dict_keys sorted ∧ resolved gii targets flat.
Proof.
  unfold resolve_targets. intros ([[[nodes sorted] fl] dt]&Hsort&Hrun)%bind_Ok.
  apply bind_Ok in Hrun as (ts1&Hpub&Hrun). apply bind_Ok in Hrun as (ts2&Hadj&[= <- <- <-]).
  apply sort_targets_result in Hsort as (all&Hall&Hsorted&Hcirc&_). exists all, sorted. split_and!; [done..| |].
  - transitivity (dict_keys ts1).
    + destruct (wants_static_library_dependencies_adjusted gii); [by eapply adjust_keys|by injection Hadj as <-].
    + eapply for_each_keys; [|exact Hpub]. intros key ts ts'. apply publish_settings_keys.
  - assert (Hgone : ∀ t d, t ∈ fl → dict_get ts1 t = Some d → dict_get d "link_settings" = None).
    { cbn [settings_types for_each] in Hpub. apply bind_Ok in Hpub as (ta&_&Hpub). apply bind_Ok in Hpub as (tb&_&Hpub).
      apply bind_Ok in Hpub as (tc&Hlast&[= <-]). intros t d. by eapply publish_settings_gone. }
    destruct (wants_static_library_dependencies_adjusted gii) eqn:Hwants; [|injection Hadj as <-; split; [done|congruence]].
    apply adjust_targets_result in Hadj as [Hsame Hstatic]; [|apply Hsorted]. split; [|done].
    intros t d Ht Hd. specialize (Hsame t). rewrite Hd in Hsame. destruct (dict_get ts1 t) as [d1|] eqn:Hd1; [|done].
    rewrite Hsame by (by apply (bool_decide_unpack _)). by eapply Hgone.
Qed.
End dependency_theorems.

(** ** The phases end *)
Section terminates_theorems.
Context `{Globals} `{RealPath} `{Outside} `{!SetPop (option string)} `{!SetPop (option (option string))}.
Implicit Types (targets : list (string * pydict)) (flat_list : list string) (key : string).

Lemma target_of_terminates targets t : terminates (target_of targets t).
Proof. unfold target_of. solve_terminates. Qed.
Hint Resolve target_of_terminates : terminates.

Lemma update_targets_terminates f targets : (∀ t d, terminates (f t d)) → terminates (update_targets f targets).
Proof. intros Hf. apply terminates_map_result. intros [t d] _. apply terminates_bind; [apply Hf|done]. Qed.

Lemma BuildTargetsDict_terminates data : terminates (BuildTargetsDict data).
Proof. unfold BuildTargetsDict, add_target, build_file_dict, qualified_name, index_str. solve_terminates. Qed.

Lemma QualifyDependencies_terminates targets : terminates (QualifyDependencies targets).
Proof.
  apply update_targets_terminates. intros t d.
  unfold qualify_target, qualify_section, qualify_at, qualify_dependency, index_str. solve_terminates.
Qed.

Lemma RemoveSelfDependencies_terminates targets : terminates (RemoveSelfDependencies targets).
Proof. apply update_targets_terminates. intros t d. unfold prunes_itself. solve_terminates. Qed.

Lemma wildcard_expansion_terminates data target key build_file dependency :
  terminates (wildcard_expansion data target key build_file dependency).
Proof. unfold wildcard_expansion, wildcard_target, build_file_dict, index_str. solve_terminates. Qed.

Lemma ExpandWildcardDependencies_terminates targets data : terminates (ExpandWildcardDependencies targets data).
Proof.
  apply update_targets_terminates. intros t d. unfold expand_section. solve_terminates.
  match goal with |- terminates (expand_loop _ _ _ ?k ?b _ ?l) =>
    pose proof (expand_loop_result (S (length l)) data t k b [] l) as Hexp end.
  cbn [length app] in Hexp. rewrite Hexp by lia. unfold expand_one. solve_terminates. apply wildcard_expansion_terminates.
Qed.

Lemma filter_dependencies_terminates t d : terminates (filter_dependencies t d).
Proof.
  unfold filter_dependencies. destruct (foldl _ _ _) as [tmp rest]. solve_terminates.
  apply terminates_bind; [|intros; apply as_dict_terminates]. apply process_list_filters_terminates. lia.
Qed.

Lemma RemoveDuplicateDependencies_terminates targets : terminates (RemoveDuplicateDependencies targets).
Proof. apply update_targets_terminates. intros t d. solve_terminates. Qed.

Lemma dependency_lists_terminates data : terminates (dependency_lists data).
Proof.
  unfold dependency_lists. apply terminates_bind; [apply BuildTargetsDict_terminates|]. intros ts0 _.
  apply terminates_bind; [apply QualifyDependencies_terminates|]. intros ts1 _.
  apply terminates_bind; [apply RemoveSelfDependencies_terminates|]. intros ts2 _.
  apply terminates_bind; [apply ExpandWildcardDependencies_terminates|]. intros ts3 _.
  apply terminates_bind; [apply update_targets_terminates, filter_dependencies_terminates|]. intros ts4 _.
  apply RemoveDuplicateDependencies_terminates.
Qed.

Lemma PruneUnwantedTargets_terminates targets flat_list nodes root_targets data :
  graph_wf nodes → terminates (PruneUnwantedTargets targets flat_list nodes root_targets data).
Proof.
  intros Hwf. unfold PruneUnwantedTargets, root_targets_of, want_target, prune_build_file, build_file_dict, qualified_name, index_str.
  solve_terminates. match goal with |- terminates (DeepDependencies _ _ ?n _) =>
    destruct (DeepDependencies_result nodes n Hwf) as (deps&->&_) end. done.
Qed.

Lemma VerifyNoCollidingTargets_terminates flat_list : terminates (VerifyNoCollidingTargets flat_list).
Proof. unfold VerifyNoCollidingTargets, verify_target, target_location. solve_terminates. Qed.

Lemma publish_settings_terminates flat_list nodes key targets :
  graph_wf nodes → terminates (publish_settings flat_list nodes key targets).
Proof.
  intros Hwf. unfold publish_settings, DoDependentSettings, do_target_settings, merge_settings, take_settings.
  apply terminates_bind; [|intros ts _; solve_terminates].
  apply terminates_for_each. intros t ts _. apply terminates_bind; [apply target_of_terminates|]. intros d _.
  apply terminates_bind; [|intros deps _; solve_terminates]. unfold settings_dependencies, DependenciesForLinkSettings.
  case_bool_decide; [by destruct (DeepDependencies_result nodes (Some t) Hwf) as (deps&->&_)|].
  case_bool_decide; [|case_bool_decide; [|done]].
  - pose proof (DirectAndImported_result ts nodes (Some t)) as Hres.
    destruct (DirectAndImportedDependencies ts nodes (Some t) []); [done|]. by intros [= ->].
  - apply terminates_bind; [apply target_of_terminates|]. intros. by apply LinkDependencies_terminates.
Qed.

Lemma adjust_terminates flat_list targets nodes sort :
  graph_wf nodes → terminates (AdjustStaticLibraryDependencies flat_list targets nodes sort).
Proof.
  intros Hwf. unfold AdjustStaticLibraryDependencies, adjust_target, adjust_static_library, adjust_linkable, add_link_dependency.
  apply terminates_for_each. intros t ts _. apply terminates_bind; [apply target_of_terminates|]. intros d _.
  solve_terminates.
  - match goal with |- terminates (DirectAndImportedDependencies ?ts _ ?n _) =>
      pose proof (DirectAndImported_result ts nodes n) as Hres; destruct (DirectAndImportedDependencies ts nodes n []) end;
      [done|]. by intros [= ->].
  - apply remove_loop_terminates; lia.
  - by apply LinkDependencies_terminates.
Qed.

Lemma sort_targets_terminates data circular_check root_targets : terminates (sort_targets data circular_check root_targets).
Proof.
  unfold sort_targets. apply terminates_bind; [apply dependency_lists_terminates|]. intros all Hall.
  destruct (dependency_lists_facts _ _ Hall) as (Hwf&Hty&Hq&_). apply terminates_bind.
  { destruct circular_check; [|done]. pose proof (VerifyNoGYPFile_result all Hq) as Hres.
    destruct (VerifyNoGYPFileCircularDependencies all) as [|[]]; done. }
  intros _ _. pose proof (BuildDependencyList_result all Hwf Hty) as Hres.
  destruct (BuildDependencyList all) as [[g flat]|[]]; try done. destruct Hres as (_&_&_&_&Hg&_).
  cbn [mbind result_bind]. apply terminates_bind.
  { case_bool_decide; [done|]. by apply PruneUnwantedTargets_terminates. }
  intros [[ts fl] dt] _. apply terminates_bind; [apply VerifyNoCollidingTargets_terminates|done].
Qed.

Lemma resolve_targets_terminates gii data circular_check root_targets :
  terminates (resolve_targets gii data circular_check root_targets).
Proof.
  unfold resolve_targets. apply terminates_bind; [apply sort_targets_terminates|]. intros [[[nodes ts] fl] dt] Hsort.
  apply sort_targets_result in Hsort as (_&_&_&_&Hg). apply terminates_bind.
  { apply terminates_for_each. intros key ts' _. by apply publish_settings_terminates. }
  intros ts' _. apply terminates_bind; [|done].
  destruct (wants_static_library_dependencies_adjusted gii); [by apply adjust_terminates|done].
Qed.
End terminates_theorems.

(** ** The late phases *)
Section finish_theorems.
Context `{Globals} `{RealPath} `{Outside}.
Implicit Types (targets : list (string * pydict)) (flat_list : list string).

Lemma lift_Ok {A} (m : result A) w a w' : lift m w = Ok (a, w') ↔ m = Ok a ∧ w' = w.
Proof. unfold lift. destruct m; naive_solver. Qed.

(** Each target is changed once, by [f]. *)
Lemma for_targets_result flat_list targets f w targets' w' :
  NoDup flat_list → for_targets flat_list targets f w = Ok (targets', w') →
  dict_keys targets' = dict_keys targets
  ∧ (∀ t, t ∉ flat_list → dict_get targets' t = dict_get targets t)
  ∧ ∀ t, t ∈ flat_list → ∃ d0 d w1 w2, dict_get targets t = Some d0 ∧ f t d0 w1 = Ok (d, w2) ∧ dict_get targets' t = Some d.
Proof.
  revert targets w. induction flat_list as [|t l IH]; intros targets w Hnd Hrun.
  { injection Hrun as <- <-. split_and!; [done|done|]. by intros ? ?%elem_of_nil. }
  apply NoDup_cons in Hnd as [Ht Hnd]. apply M_bind_Ok in Hrun as (d0&w0&Hd0&Hrun).
  apply lift_Ok in Hd0 as [Hd0 ->]. apply M_bind_Ok in Hrun as (d&w1&Hf&Hrun).
  destruct (IH _ _ Hnd Hrun) as (Hk&Hframe&Hin). split_and!.
  - rewrite Hk. by eapply set_target_keys.
  - intros t' Hnot. rewrite Hframe; [|intros ?; apply Hnot; by right]. apply dict_get_set_ne. intros ->. apply Hnot. by left.
  - intros t' [->|Ht']%elem_of_cons.
    + exists d0, d, w, w1. split_and!; [by apply target_of_Ok|done|]. rewrite Hframe by done. apply dict_get_set_eq.
    + destruct (Hin t' Ht') as (e0&e&w2&w3&He&?&?). exists e0, e, w2, w3. split_and!; [|done|done].
      rewrite dict_get_set_ne in He; [done|]. by intros ->.
Qed.

Definition valid_type (d : pydict) : Prop := ∃ ty, dict_get d "type" = Some (VStr ty) ∧ ty ∈ VALID_TARGET_TYPES.

Lemma validate_target_type gii variables target d0 d w w' :
  validate_target gii variables target d0 w = Ok (d, w') → valid_type d.
Proof.
  intros (u1&w1&Hty&Hrun)%M_bind_Ok. apply M_bind_Ok in Hrun as (b&w2&_&Hrun). apply M_bind_Ok in Hrun as (u2&w3&_&Hrun).
  apply M_bind_Ok in Hrun as (d1&w4&Hrules&Hrun). apply M_bind_Ok in Hrun as (u3&w5&_&Hrun).
  apply M_bind_Ok in Hrun as (u4&w6&_&Hrun). injection Hrun as <- _.
  apply lift_Ok in Hty as [Hty _]. apply lift_Ok in Hrules as [Hrules _].
  assert (Hd : dict_get d1 "type" = dict_get d0 "type").
  { unfold ValidateRulesInTarget in Hrules. destruct (dict_get d0 "rules"); [|by injection Hrules as <-].
    apply bind_Ok in Hrules as (l&_&Hrules). apply bind_Ok in Hrules as (st&_&[= <-]). by apply dict_get_set_ne. }
  unfold valid_type. rewrite Hd. unfold ValidateTargetType in Hty. apply bind_Ok in Hty as (u&Hty&_).
  apply raise_if_Ok, negb_false_iff in Hty. unfold opt_in in Hty.
  destruct (dict_get d0 "type") as [[s| | |]|]; try done. exists s. split; [done|]. by apply bool_decide_eq_true in Hty.
Qed.

Lemma finish_targets_result fuel gii variables flat_list targets w targets' w' :
  NoDup flat_list → (∀ t, t ∈ dict_keys targets ↔ t ∈ flat_list) →
  finish_targets fuel gii variables flat_list targets w = Ok (targets', w') →
  dict_keys targets' = dict_keys targets ∧ ∀ t d, dict_get targets' t = Some d → valid_type d.
Proof.
  intros Hnd Hkeys. unfold finish_targets. intros (ts1&w1&H1'&Hrun)%M_bind_Ok. apply M_bind_Ok in Hrun as (ts2&w2&H2'&Hrun).
  apply M_bind_Ok in Hrun as (ts3&w3&H3'&Hrun). apply M_bind_Ok in Hrun as (ts4&w4&H4'&Hrun).
  apply for_targets_result in H1' as [H1' _], H2' as [H2' _], H3' as [H3' _], H4' as [H4' _]; [|done..].
  apply for_targets_result in Hrun as (H5'&_&Hall); [|done].
  assert (Hk : dict_keys targets' = dict_keys targets) by congruence. split; [done|]. intros t d Hd.
  assert (Ht : t ∈ flat_list). { apply Hkeys. rewrite <- Hk. apply dict_get_is_Some. by eexists. }
  destruct (Hall t Ht) as (d0&d'&w5&w6&_&Hval&Hd'). rewrite Hd in Hd'. injection Hd' as <-.
  by eapply validate_target_type.
Qed.

Lemma dict_ints_get d k : dict_get (dict_ints d) k = TurnIntIntoStr <$> dict_get d k.
Proof. induction d as [|[k' v] d IH]; [done|]. cbn. by case_decide. Qed.

Lemma dict_ints_valid d : valid_type d → valid_type (dict_ints d) ∧ no_ints (VDict (dict_ints d)) = true.
Proof.
  intros (ty&Hty&Hin). split; [|apply (TurnIntIntoStr_no_ints (VDict d))]. exists ty. by rewrite dict_ints_get, Hty.
Qed.

Lemma map_m_world {A B} (f : A → M B) l w ys w' :
  (∀ x w y w', f x w = Ok (y, w') → w' = w) → map_m f l w = Ok (ys, w') → w' = w.
Proof.
  intros Hf. revert w ys w'. induction l as [|x l IH]; intros w ys w' Hrun; [by injection Hrun as _ <-|].
  apply M_bind_Ok in Hrun as (y&w1&Hy&Hrun). apply M_bind_Ok in Hrun as (ys'&w2&Hys&Hrun). injection Hrun as _ <-.
  apply Hf in Hy as ->. by apply IH in Hys.
Qed.

(** Reading the data changes nothing. *)
Lemma data_of_world s w d w' : data_of s w = Ok (d, w') → w' = w.
Proof.
  intros (dicts&w1&Hdicts&Hrun)%M_bind_Ok. injection Hrun as _ <-. eapply map_m_world; [|exact Hdicts].
  clear. intros [path a] w y w' (v&w1&Hv&Hrun)%M_bind_Ok. apply M_bind_Ok in Hrun as (d&w2&Hd&Hrun). injection Hrun as _ <-.
  unfold tree_of in Hv. apply lift_Ok in Hv as [_ ->]. by apply lift_Ok in Hd as [_ ->].
Qed.
End finish_theorems.

(** * Properties *)

(** C1: what Load returns.  If Load returns, the flat list has exactly the targets of the
    loaded files (or those the root targets need), each once and after everything it
    depends on, no two of them with one name in one directory; no target depends on itself and, where that is
    checked, no build file; and the dictionary has a target for each of the list, with a valid type and without
    integers. *)
Theorem Load_correct `{RealPath} `{Outside} `{Files} `{!SetPop (option string)} `{!SetPop (option (option string))}
    fuel fuel' build_files variables includes depth gii check circular_check root_targets w flat_list targets data w' :
  Load fuel fuel' build_files variables includes depth gii check circular_check root_targets w
    = Ok ((flat_list, targets, data), w') →
  let G := SetGeneratorGlobals (gii_path_sections gii) (gii_non_configuration_keys gii) (gii_supports_multiple_toolsets gii) in
  ∃ s w1 loaded all,
    load_build_files fuel fuel' (set_of ((λ f, of_chars (p_normpath (chars f))) <$> build_files)) includes depth check
      (Loading [] [] [] variables) w = Ok ((tt, s), w1)
    ∧ data_of s w1 = Ok (loaded, w1) ∧ dependency_lists loaded = Ok all
    ∧ NoDup flat_list ∧ (∀ t, t ∈ flat_list ↔ selected all root_targets t) ∧ ordered_by all flat_list
    ∧ (∀ t, ¬ tc (requires all) t t) ∧ (circular_check = true → ∀ b, ¬ tc (file_requires all) b b)
    ∧ (∀ i j t1 t2, i < j → flat_list !! i = Some t1 → flat_list !! j = Some t2 → ¬ collides t1 t2)
    ∧ (∀ t, t ∈ dict_keys targets ↔ t ∈ flat_list)
    ∧ ∀ t d, dict_get targets t = Some d → valid_type d ∧ no_ints (VDict d) = true.
Proof.
  intros Hrun G. unfold Load in Hrun. apply M_bind_Ok in Hrun as ([[] s]&w1&Hload&Hrun).
  apply M_bind_Ok in Hrun as (loaded&w2&Hdata&Hrun).
  apply data_of_world in Hdata as Hw. subst w2.
  apply M_bind_Ok in Hrun as ([[ts fl] dt]&w3&Hres&Hrun). apply lift_Ok in Hres as [Hres ->].
  apply M_bind_Ok in Hrun as (ts'&w4&Hfin&Hrun). injection Hrun as <- <- <- <-.
  apply resolve_targets_result in Hres as (all&sorted&Hall&Hsorted&Hcirc&Hkeys&_). destruct Hsorted.
  apply finish_targets_result in Hfin as [Hk Hvalid]; [|done|intros t; by rewrite Hkeys].
  exists s, w1, loaded, all. split_and!; try done.
  - intros t. rewrite <- st_keys0, <- Hkeys, <- Hk. unfold dict_keys. by rewrite <- list_fmap_compose.
  - intros t d Hd.
    assert (∃ d0, dict_get ts' t = Some d0 ∧ d = dict_ints d0) as (d0&Hd0&->).
    { clear -Hd. induction ts' as [|[k v] l IH]; [done|]. cbn in *. case_decide; [|by apply IH]. injection Hd as <-. eauto. }
    by eapply dict_ints_valid, Hvalid.
Qed.

(** C7: the phases of Load between reading the files and the late expansions end on
    all data, whatever the build files have in them: cyclic dependencies, wildcards, missing targets. *)
Theorem Load_phases_terminate `{Globals} `{RealPath} `{Outside} `{!SetPop (option string)} `{!SetPop (option (option string))}
    gii data circular_check root_targets :
  terminates (resolve_targets gii data circular_check root_targets).
Proof. apply resolve_targets_terminates. Qed.

(** A program in one file that depends on a library in another. *)
Definition load_sample (contents : string) : result pyval :=
  if contents ==? "A" then
    Ok (VDict [("targets", VList [VDict [("target_name", VStr "prog"); ("type", VStr "executable"); ("toolset", VStr "target");
          ("sources", VList [VStr "main.c"]); ("dependencies", VList [VStr "b.gyp:*"]); ("conditions", VList [])]])])
  else
    Ok (VDict [("targets", VList [VDict [("target_name", VStr "lib"); ("type", VStr "static_library"); ("toolset", VStr "target");
          ("sources", VList [VStr "lib.c"; VStr "old.c"]); ("sources!", VList [VStr "old.c"]); ("level", VInt 3);
          ("link_settings", VDict [("libraries", VList [VStr "-lm"])])]])]).
Definition load_outside : Outside := {|
  py_eval := load_sample; eval_condition := λ _ _ _, EvalValue true; popen := λ _ _ _, (0%Z, "", "");
  do_main := λ _ _ _, ImportFailed ""; re_compile := λ _, None; win32 := false; generator_filelist_paths := None
|}.
Definition load_files : Files := {|
  read_file := λ f, if f ==? "a.gyp" then Some "A" else if f ==? "b.gyp" then Some "B" else None;
  cwd_text := "/src"; compiler_parse := λ _, Err (SyntaxError "")
|}.
Definition load_input : generator_input := GeneratorInput [] [] false [] true true.
Abbreviation load_run := (@Load sample_realpath load_outside load_files _ _ 9 30 ["a.gyp"] [] [] "" load_input false true []
  (World ∅ ∅ 0 [] [])).
Definition flat_list_of {A B C} (r : result (list string * A * B * C)) : option (list string) :=
  match r with Ok (flat_list, _, _, _) => Some flat_list | Err _ => None end.

Lemma load_run_flat : flat_list_of load_run = Some ["b.gyp:lib#target"; "a.gyp:prog#target"].
Proof. vm_compute. reflexivity. Qed.

Lemma Load_correct_witness :
  flat_list_of load_run = Some ["b.gyp:lib#target"; "a.gyp:prog#target"]
  ∧ ∃ targets, (∀ t, t ∈ dict_keys targets ↔ t ∈ ["b.gyp:lib#target"; "a.gyp:prog#target"])
      ∧ ∀ t d, dict_get targets t = Some d → valid_type d ∧ no_ints (VDict d) = true.
Proof.
  split; [exact load_run_flat|]. pose proof load_run_flat as Hflat. destruct load_run as [[[[flat_list targets] data] w']|e] eqn:Hrun; [|discriminate Hflat].
  injection Hflat as ->. exists targets.
  destruct (@Load_correct sample_realpath load_outside load_files _ _ 9 30 ["a.gyp"] [] [] "" load_input false true []
    (World ∅ ∅ 0 [] []) _ targets data w' Hrun) as (s&w1&loaded&all&_&_&_&_&_&_&_&_&_&Hkeys&Hvalid).
  split; [exact Hkeys|exact Hvalid].
Defined.
