(* ===== verification/OrderedDict.v ===== *)
(** * The ordered dictionary

    [OrderedDict] of tools/gyp/pylib/gyp/ordered_dict.py, which the generators use
    to write files in a stable order: a dictionary and a circular doubly linked
    list of links [PREV, NEXT, KEY] with a sentinel, mapped from the keys.  The
    links are objects in a heap; the abstract specification is the list of items in
    insertion order ([PyDict]), and the methods are shown to implement it.

    Not modelled: __repr__, __reduce__ and the views, which have no state of their
    own. *)
From S2P Require Import Prelude PyDict.

Section ordered_dict.
Context {V : Type}.
Implicit Types (key : string) (value : V) (kvs : list (string * V)).

Record link := Link { prev : nat; next : nat; link_key : option string }.

(** The links by address, the map from keys to links, the inherited dictionary, and
    the next address; the sentinel is at address 0. *)
Record OrderedDict := OD {
  links : gmap nat link;
  map : gmap string nat;
  inherited : gmap string V;
  fresh_address : nat
}.
Implicit Types (self : OrderedDict).

Definition root : nat := 0.

(** [link[1] = b] and [link[0] = b]. *)
Definition set_next (a b : nat) (h : gmap nat link) : gmap nat link :=
  alter (λ x, Link (prev x) b (link_key x)) a h.
Definition set_prev (a b : nat) (h : gmap nat link) : gmap nat link :=
  alter (λ x, Link b (next x) (link_key x)) a h.

(** The link at an address; indexing one that [clear] has emptied raises. *)
Definition get_link self (a : nat) : result link :=
  match links self !! a with Some x => Ok x | None => Err IndexError end.

(** __init__ without arguments *)
Definition init : OrderedDict := OD {[root := Link root root None]} ∅ ∅ 1.

Definition __contains__ self key : bool := bool_decide (is_Some (inherited self !! key)).
Definition __getitem__ self key : result V :=
  match inherited self !! key with Some v => Ok v | None => Err (KeyError key) end.
Definition __len__ self : nat := size (inherited self).

Definition __setitem__ self key value : result OrderedDict :=
  if __contains__ self key
  then Ok (OD (links self) (map self) (<[key := value]> (inherited self)) (fresh_address self))
  else
    r ← get_link self root;
    let last := prev r in
    let new := fresh_address self in
    Ok (OD (set_prev root new (set_next last new (<[new := Link last root (Some key)]> (links self))))
          (<[key := new]> (map self)) (<[key := value]> (inherited self)) (S new)).

Definition __delitem__ self key : result OrderedDict :=
  _ ← __getitem__ self key;
  match map self !! key with
  | None => Err (KeyError key)
  | Some a =>
      x ← get_link self a;
      Ok (OD (set_prev (next x) (prev x) (set_next (prev x) (next x) (links self)))
            (delete key (map self)) (delete key (inherited self)) (fresh_address self))
  end.

(** The loops of __iter__ and __reversed__, which follow one of the two pointers. *)
Fixpoint iter_loop (step : link → nat) (fuel : nat) self (curr : nat) : result (list string) :=
  match fuel with
  | 0 => Err OutOfFuel
  | S fuel =>
      if curr ==? root then Ok []
      else
        x ← get_link self curr;
        match link_key x with
        | None => Err IndexError
        | Some k => ks ← iter_loop step fuel self (step x); Ok (k :: ks)
        end
  end.

(** There are as many turns as keys, and one more. *)
Definition __iter__ self : result (list string) :=
  r ← get_link self root; iter_loop next (S (size (map self))) self (next r).
Definition __reversed__ self : result (list string) :=
  r ← get_link self root; iter_loop prev (S (size (map self))) self (prev r).

(** [clear()]; an emptied link is one that is no longer there. *)
Definition clear self : OrderedDict :=
  OD (<[root := Link root root None]> (foldr (λ p h, delete p.2 h) (links self) (map_to_list (map self))))
    ∅ ∅ (fresh_address self).

Definition popitem self (last : bool) : result (string * V * OrderedDict) :=
  if __len__ self ==? 0 then Err (KeyError "dictionary is empty")
  else
    r ← get_link self root;
    '(link, h) ← (if last then
        link ← get_link self (prev r);
        Ok (link, set_prev root (prev link) (set_next (prev link) root (links self)))
      else
        link ← get_link self (next r);
        Ok (link, set_prev (next link) root (set_next root (next link) (links self))));
    match link_key link with
    | None => Err IndexError
    | Some key =>
        value ← __getitem__ self key;
        Ok (key, value, OD h (delete key (map self)) (delete key (inherited self)) (fresh_address self))
    end.

Definition keys self : result (list string) := __iter__ self.
Definition values self : result (list V) := ks ← __iter__ self; map_result (__getitem__ self) ks.
Definition items self : result (list (string * V)) :=
  ks ← __iter__ self; map_result (λ key, v ← __getitem__ self key; Ok (key, v)) ks.

(** [update(other)] for an iterable of pairs, and for another dictionary by its
    items. *)
Definition update self (other : list (string * V)) : result OrderedDict :=
  for_each other self (λ '(key, value) self, __setitem__ self key value).

(** [pop(key)] and [pop(key, default)] *)
Definition pop self key (default : option V) : result (V * OrderedDict) :=
  if __contains__ self key then
    result ← __getitem__ self key; self ← __delitem__ self key; Ok (result, self)
  else
    match default with None => Err (KeyError key) | Some v => Ok (v, self) end.

Definition setdefault self key (default : V) : result (V * OrderedDict) :=
  if __contains__ self key then v ← __getitem__ self key; Ok (v, self)
  else self ← __setitem__ self key default; Ok (default, self).

Definition copy self : result OrderedDict := l ← items self; update init l.

Definition fromkeys (iterable : list string) value : result OrderedDict :=
  for_each iterable init (λ key d, __setitem__ d key value).

(** __eq__ and __ne__ on two ordered dictionaries. *)
Definition __eq__ `{EqDecision V} self (other : OrderedDict) : result bool :=
  if __len__ self ==? __len__ other then
    l1 ← items self; l2 ← items other; Ok (l1 ==? l2)
  else Ok false.
Definition __ne__ `{EqDecision V} self (other : OrderedDict) : result bool := negb <$> __eq__ self other.

(** * Theorems *)

(** ** Doubly linked segments *)
Section segments.
Implicit Types (h : gmap nat link) (a x y e : nat) (addrs : list nat).

Definition next_of h a : option nat := next <$> h !! a.
Definition prev_of h a : option nat := prev <$> h !! a.

(** From [x] by way of [addrs] to [e], and back. *)
Fixpoint segment h x addrs e : Prop :=
  match addrs with
  | [] => next_of h x = Some e ∧ prev_of h e = Some x
  | a :: addrs => (next_of h x = Some a ∧ prev_of h a = Some x) ∧ segment h a addrs e
  end.

Lemma segment_app h x l1 a l2 e : segment h x (l1 ++ a :: l2) e ↔ segment h x l1 a ∧ segment h a l2 e.
Proof. revert x. induction l1 as [|b l1 IH]; intros x; cbn; [done|]. rewrite IH. tauto. Qed.

Lemma segment_frame h h' x addrs e :
  (∀ a, a ∈ x :: addrs → next_of h' a = next_of h a) → (∀ a, a ∈ addrs ++ [e] → prev_of h' a = prev_of h a) →
  segment h x addrs e → segment h' x addrs e.
Proof.
  revert x. induction addrs as [|b l IH]; intros x Hn Hp; cbn.
  - rewrite Hn by (by left). rewrite Hp by (by left). done.
  - rewrite Hn by (by left). rewrite Hp by (by left). intros [? Hs]. split; [done|]. apply IH; [..|done].
    + intros a Ha. apply Hn. by right.
    + intros a Ha. apply Hp. by right.
Qed.

(** The node before the end, and the node after the beginning. *)
Lemma segment_last h x addrs e : segment h x addrs e → prev_of h e = last (x :: addrs).
Proof.
  revert x. induction addrs as [|a addrs IH]; intros x; cbn [segment]; [by intros [_ ?]|].
  intros [_ Hs]. rewrite last_cons_cons. by apply IH.
Qed.
Lemma segment_head h x addrs e : segment h x addrs e → next_of h x = Some (hd e addrs).
Proof. destruct addrs; cbn; tauto. Qed.

Lemma segment_last_next h x addrs e z : segment h x addrs e → last (x :: addrs) = Some z → next_of h z = Some e.
Proof.
  revert x. induction addrs as [|a addrs IH]; intros x; cbn [segment]; [by intros [? _] [= <-]|].
  intros [_ Hs]. rewrite last_cons_cons. by apply IH.
Qed.
Lemma segment_head_prev h x addrs e n : segment h x addrs e → head (addrs ++ [e]) = Some n → prev_of h n = Some x.
Proof. destruct addrs; cbn; [by intros [_ ?] [= <-]|]. by intros [[_ ?] _] [= <-]. Qed.

Lemma next_of_set_next h a b c : next_of (set_next a b h) c = if decide (a = c) then (λ _, b) <$> h !! a else next_of h c.
Proof.
  unfold next_of, set_next. case_decide as Hc; [subst; rewrite lookup_alter_eq; by destruct (h !! c)|].
  by rewrite lookup_alter_ne.
Qed.
Lemma prev_of_set_next h a b c : prev_of (set_next a b h) c = prev_of h c.
Proof.
  unfold prev_of, set_next. destruct (decide (a = c)) as [->|Hc]; [rewrite lookup_alter_eq; by destruct (h !! c)|].
  by rewrite lookup_alter_ne.
Qed.
Lemma prev_of_set_prev h a b c : prev_of (set_prev a b h) c = if decide (a = c) then (λ _, b) <$> h !! a else prev_of h c.
Proof.
  unfold prev_of, set_prev. case_decide as Hc; [subst; rewrite lookup_alter_eq; by destruct (h !! c)|].
  by rewrite lookup_alter_ne.
Qed.
Lemma next_of_set_prev h a b c : next_of (set_prev a b h) c = next_of h c.
Proof.
  unfold next_of, set_prev. destruct (decide (a = c)) as [->|Hc]; [rewrite lookup_alter_eq; by destruct (h !! c)|].
  by rewrite lookup_alter_ne.
Qed.

(** A new node before the end. *)
Lemma segment_snoc h h' x addrs e a z :
  segment h x addrs e → last (x :: addrs) = Some z → NoDup (x :: addrs) → a ∉ x :: addrs →
  next_of h' z = Some a → next_of h' a = Some e → prev_of h' a = Some z → prev_of h' e = Some a →
  (∀ b, b ∈ x :: addrs → b ≠ z → next_of h' b = next_of h b) →
  (∀ b, b ∈ addrs → prev_of h' b = prev_of h b) → segment h' x (addrs ++ [a]) e.
Proof.
  intros Hs Hz Hnd Ha Hzn Han Hap Hep Hn Hp. apply segment_app. split; [|done].
  destruct addrs as [|b addrs] using rev_ind; [by simplify_eq/=|]. clear IHaddrs.
  rewrite app_comm_cons, last_snoc in Hz. simplify_eq. apply segment_app in Hs as [Hs _].
  apply segment_app. split; [|done]. eapply segment_frame; [..|exact Hs].
  - intros c Hc. apply Hn.
    + apply elem_of_cons in Hc as [->|Hc]; [by left|]. right. apply elem_of_app. by left.
    + intros ->. rewrite app_comm_cons in Hnd. apply NoDup_app in Hnd as (_&Hd&_). apply (Hd z); [done|by left].
  - intros c Hc. by apply Hp.
Qed.

(** Two segments joined without the node between them. *)
Lemma segment_join h h' x l1 a l2 e z n :
  segment h x l1 a → segment h a l2 e → last (x :: l1) = Some z → head (l2 ++ [e]) = Some n →
  NoDup (x :: l1 ++ a :: l2) → e ∉ l1 ++ a :: l2 →
  next_of h' z = Some n → prev_of h' n = Some z →
  (∀ b, b ∈ x :: l1 ++ l2 → b ≠ z → next_of h' b = next_of h b) →
  (∀ b, b ∈ l1 ++ l2 ++ [e] → b ≠ n → prev_of h' b = prev_of h b) → segment h' x (l1 ++ l2) e.
Proof.
  intros H1 H2 Hz Hn Hnd He Hzn Hnp Hfn Hfp. revert x H1 Hz Hnd Hfn. induction l1 as [|b l1 IH]; intros x H1 Hz Hnd Hfn.
  - simplify_eq/=. destruct l2 as [|b l2]; simplify_eq/=; [done|]. split; [done|].
    destruct H2 as [_ H2]. apply NoDup_cons in Hnd as [Hx Hnd]. apply NoDup_cons in Hnd as [_ Hnd].
    eapply segment_frame; [..|exact H2].
    + intros c Hc. apply Hfn; [set_solver|]. intros ->. set_solver.
    + intros c Hc. apply Hfp; [set_solver|]. intros ->. apply NoDup_cons in Hnd as [Hn _]. set_solver.
  - cbn [app segment] in *. destruct H1 as [[Hxb Hbx] H1]. rewrite last_cons_cons in Hz.
    apply NoDup_cons in Hnd as [Hx Hnd].
    assert (Hin : z ∈ b :: l1) by by apply last_Some_elem_of.
    assert (Hnin : n ∈ l2 ++ [e]) by (destruct (l2 ++ [e]); simplify_eq/=; by left).
    split; [split|].
    + rewrite Hfn; [done|by left|]. intros ->. set_solver.
    + rewrite Hfp; [done|by left|]. intros ->. apply NoDup_cons in Hnd as [Hb _]. set_solver.
    + apply IH; [set_solver|..|done|done|done|].
      * intros c Hc. apply Hfp. by right.
      * intros c Hc. apply Hfn. by right.
Qed.
End segments.

(** ** What an object represents *)

Definition key_of (h : gmap nat link) (a : nat) : option (option string) := link_key <$> h !! a.

Lemma key_of_set_next h a b c : key_of (set_next a b h) c = key_of h c.
Proof.
  unfold key_of, set_next. destruct (decide (a = c)) as [->|Hc]; [rewrite lookup_alter_eq; by destruct (h !! c)|].
  by rewrite lookup_alter_ne.
Qed.
Lemma key_of_set_prev h a b c : key_of (set_prev a b h) c = key_of h c.
Proof.
  unfold key_of, set_prev. destruct (decide (a = c)) as [->|Hc]; [rewrite lookup_alter_eq; by destruct (h !! c)|].
  by rewrite lookup_alter_ne.
Qed.

(** The object stands for the items [kvs], whose links are at [addrs]. *)
Record represents self kvs (addrs : list nat) : Prop := {
  rep_segment : segment (links self) root addrs root;
  rep_nodup : NoDup (root :: addrs);
  rep_keys : Forall2 (λ a k, key_of (links self) a = Some (Some k)) addrs (dict_keys kvs);
  rep_map : map self = list_to_map (zip (dict_keys kvs) addrs);
  rep_inherited : inherited self = list_to_map kvs;
  rep_wf : dict_wf kvs;
  rep_fresh : ∀ a, a ∈ root :: addrs → a < fresh_address self
}.
Definition stands_for self kvs : Prop := ∃ addrs, represents self kvs addrs.

Lemma Forall2_mono_in {A B} (P Q : A → B → Prop) l1 l2 :
  Forall2 P l1 l2 → (∀ x y, x ∈ l1 → P x y → Q x y) → Forall2 Q l1 l2.
Proof.
  induction 1; intros HPQ; constructor; [apply HPQ; [by left|done]|]. apply IHForall2. intros. apply HPQ; [by right|done].
Qed.

Lemma rep_length self kvs addrs : represents self kvs addrs → length addrs = length kvs.
Proof. intros []. apply Forall2_length in rep_keys0. unfold dict_keys in rep_keys0. by rewrite length_fmap in rep_keys0. Qed.

Lemma list_to_map_dict_get kvs k : dict_wf kvs → (list_to_map kvs : gmap string V) !! k = dict_get kvs k.
Proof.
  intros Hwf. induction kvs as [|[k' v] kvs IH]; [done|]. unfold dict_wf in Hwf. cbn in Hwf. apply NoDup_cons in Hwf as [_ Hwf].
  cbn. case_decide as Hk; [subst; by rewrite lookup_insert_eq|]. rewrite lookup_insert_ne by done. by apply IH.
Qed.

Lemma rep_getitem self kvs addrs k : represents self kvs addrs → inherited self !! k = dict_get kvs k.
Proof. intros []. rewrite rep_inherited0. by apply list_to_map_dict_get. Qed.

Lemma rep_contains self kvs addrs k : represents self kvs addrs → __contains__ self k = dict_mem kvs k.
Proof. intros Hr. unfold __contains__, dict_mem. by rewrite (rep_getitem _ _ _ _ Hr). Qed.

Lemma fst_zip_keys kvs (addrs : list nat) : length addrs = length kvs → (zip (dict_keys kvs) addrs).*1 = dict_keys kvs.
Proof. intros Hl. apply fst_zip. unfold dict_keys. rewrite length_fmap. lia. Qed.

Lemma rep_size self kvs addrs : represents self kvs addrs → size (map self) = length kvs ∧ size (inherited self) = length kvs.
Proof.
  intros Hr. pose proof (rep_length _ _ _ Hr) as Hl. destruct Hr. rewrite rep_map0, rep_inherited0. split.
  - rewrite map_size_list_to_map; [|by rewrite fst_zip_keys].
    rewrite length_zip_with. unfold dict_keys. rewrite length_fmap. lia.
  - by rewrite map_size_list_to_map.
Qed.

Lemma init_represents : represents init [] [].
Proof.
  split; cbn.
  - done.
  - apply NoDup_singleton.
  - constructor.
  - done.
  - done.
  - apply NoDup_nil_2.
  - intros a ->%list_elem_of_singleton. unfold root. lia.
Qed.

(** *** Adding *)

Lemma set_new_represents self kvs addrs k v :
  represents self kvs addrs → k ∉ dict_keys kvs →
  ∃ self', __setitem__ self k v = Ok self' ∧ represents self' (kvs ++ [(k, v)]) (addrs ++ [fresh_address self]).
Proof.
  intros Hr Hk. pose proof (rep_length _ _ _ Hr) as Hl. unfold __setitem__.
  rewrite (rep_contains _ _ _ _ Hr), (proj2 (dict_mem_false _ _)) by done. destruct Hr.
  pose proof (segment_last _ _ _ _ rep_segment0) as Hlast. pose proof (segment_head _ _ _ _ rep_segment0) as Hhead.
  unfold get_link. unfold prev_of, next_of in *. destruct (links self !! root) as [r|] eqn:Hroot; [|done].
  cbn [mbind result_bind fmap option_fmap option_map] in *. eexists; split; [done|].
  set (z := prev r) in *. set (new := fresh_address self) in *.
  assert (Hnew : ∀ a, a ∈ root :: addrs → a ≠ new) by (intros a Ha%rep_fresh0 ->; unfold new in Ha; lia).
  assert (Hz : z ∈ root :: addrs) by by apply last_Some_elem_of.
  set (h := <[new:=Link z root (Some k)]> (links self)).
  assert (Hold : ∀ a, a ∈ root :: addrs → h !! a = links self !! a).
  { intros a Ha. unfold h. rewrite lookup_insert_ne; [done|]. intros Heq. by apply (Hnew a). }
  assert (Hkey : ∀ a, a ∈ root :: addrs → key_of (set_prev root new (set_next z new h)) a = key_of (links self) a).
  { intros a Ha. rewrite key_of_set_prev, key_of_set_next. unfold key_of. by rewrite Hold. }
  assert (Hzl : is_Some (links self !! z)).
  { destruct (decide (z = root)) as [->|Hzr]; [by rewrite Hroot|]. apply elem_of_cons in Hz as [?|Hz]; [done|].
    apply list_elem_of_lookup in Hz as [i Hi]. destruct (Forall2_lookup_l _ _ _ _ _ rep_keys0 Hi) as (k'&_&Hk').
    unfold key_of in Hk'. destruct (links self !! z); [by eexists|done]. }
  split; cbn [links map inherited fresh_address].
  - eapply segment_snoc; [exact rep_segment0|symmetry; exact Hlast|done|..].
    + intros Ha. by apply (Hnew new).
    + rewrite next_of_set_prev, next_of_set_next, decide_True by done. rewrite Hold by done. destruct Hzl as [? ->]. done.
    + rewrite next_of_set_prev, next_of_set_next, decide_False by (by apply Hnew). unfold next_of, h. by rewrite lookup_insert_eq.
    + rewrite prev_of_set_prev, decide_False by (apply Hnew; by left). rewrite prev_of_set_next. unfold prev_of, h.
      by rewrite lookup_insert_eq.
    + rewrite prev_of_set_prev, decide_True by done. unfold set_next.
      destruct (decide (z = root)) as [->|Hzr].
      * rewrite lookup_alter_eq, Hold by by left. by rewrite Hroot.
      * rewrite lookup_alter_ne by done. rewrite Hold by by left. by rewrite Hroot.
    + intros b Hb Hbz. rewrite next_of_set_prev, next_of_set_next, decide_False by done. unfold next_of. by rewrite Hold.
    + intros b Hb. rewrite prev_of_set_prev, decide_False.
      * rewrite prev_of_set_next. unfold prev_of. rewrite Hold; [done|by right].
      * intros <-. by apply NoDup_cons in rep_nodup0 as [? _].
  - rewrite app_comm_cons. apply NoDup_app. split_and!; [done| |apply NoDup_singleton].
    intros a Ha ->%list_elem_of_singleton. by apply (Hnew new).
  - unfold dict_keys. rewrite fmap_app. apply Forall2_app.
    + eapply Forall2_mono_in; [exact rep_keys0|]. intros a k' Ha Hk'. rewrite Hkey; [done|by right].
    + constructor; [|constructor]. rewrite key_of_set_prev, key_of_set_next. unfold key_of, h. by rewrite lookup_insert_eq.
  - rewrite rep_map0. unfold dict_keys. rewrite fmap_app. rewrite zip_with_app by (rewrite length_fmap; lia).
    cbn [fmap list_fmap zip_with fst].
    rewrite list_to_map_snoc; [done|]. change (zip_with pair kvs.*1 addrs) with (zip (dict_keys kvs) addrs). by rewrite fst_zip_keys.
  - rewrite rep_inherited0. by rewrite list_to_map_snoc.
  - rewrite <- dict_set_new by done. by apply dict_set_wf.
  - intros a. rewrite app_comm_cons, elem_of_app, list_elem_of_singleton. intros [Ha%rep_fresh0|Ha]; unfold new in *; lia.
Qed.

Lemma list_to_map_dict_set kvs k v :
  dict_wf kvs → (list_to_map (dict_set kvs k v) : gmap string V) = <[k := v]> (list_to_map kvs).
Proof.
  intros Hwf. apply map_eq. intros k'. rewrite list_to_map_dict_get by by apply dict_set_wf.
  rewrite dict_get_set. case_decide as Hk; [subst; by rewrite lookup_insert_eq|].
  rewrite lookup_insert_ne by done. by rewrite list_to_map_dict_get.
Qed.

Lemma setitem_stands self kvs k v :
  stands_for self kvs → ∃ self', __setitem__ self k v = Ok self' ∧ stands_for self' (dict_set kvs k v).
Proof.
  intros [addrs Hr]. destruct (decide (k ∈ dict_keys kvs)) as [Hk|Hk].
  - unfold __setitem__. rewrite (rep_contains _ _ _ _ Hr), (proj2 (dict_mem_true _ _)) by done.
    eexists. split; [done|]. exists addrs. destruct Hr.
    assert (Hkeys : dict_keys (dict_set kvs k v) = dict_keys kvs) by (rewrite dict_keys_set; by rewrite decide_True).
    split; cbn [links map inherited fresh_address]; rewrite ?Hkeys; try done.
    + by rewrite rep_inherited0, list_to_map_dict_set.
    + by apply dict_set_wf.
  - destruct (set_new_represents _ _ _ k v Hr Hk) as (self'&Hs&Hr'). exists self'. split; [done|].
    rewrite dict_set_new by done. by eexists.
Qed.

(** *** Removing *)

(** The link of an item, and the object without it. *)
Definition unlinked self k (x : link) : OrderedDict :=
  OD (set_prev (next x) (prev x) (set_next (prev x) (next x) (links self)))
    (delete k (map self)) (delete k (inherited self)) (fresh_address self).

Lemma list_to_map_remove {A} (l1 l2 : list (string * A)) k x :
  NoDup (l1 ++ (k, x) :: l2).*1 → (list_to_map (l1 ++ l2) : gmap string A) = delete k (list_to_map (l1 ++ (k, x) :: l2)).
Proof.
  intros Hnd. rewrite <- Permutation_middle in Hnd. cbn in Hnd. apply NoDup_cons in Hnd as [Hk Hnd].
  rewrite (list_to_map_proper (l1 ++ (k, x) :: l2) ((k, x) :: l1 ++ l2)).
  - cbn. rewrite delete_insert_id; [done|]. by apply not_elem_of_list_to_map_1.
  - rewrite fmap_app. cbn. rewrite <- Permutation_middle, <- fmap_app. by constructor.
  - by rewrite Permutation_middle.
Qed.

Lemma Forall2_remove {A B} (P : A → B → Prop) a1 a a2 b1 b b2 :
  length a1 = length b1 → Forall2 P (a1 ++ a :: a2) (b1 ++ b :: b2) → P a b ∧ Forall2 P (a1 ++ a2) (b1 ++ b2).
Proof.
  intros Hl Hf. apply Forall2_app_inv in Hf as [H1 H2]; [|done]. inversion H2; subst. split; [done|]. by apply Forall2_app.
Qed.

Lemma unlink_represents self kv1 k v kv2 a1 a a2 :
  represents self (kv1 ++ (k, v) :: kv2) (a1 ++ a :: a2) → length a1 = length kv1 →
  ∃ x, links self !! a = Some x ∧ link_key x = Some k ∧ map self !! k = Some a
    ∧ last (root :: a1) = Some (prev x) ∧ head (a2 ++ [root]) = Some (next x)
    ∧ represents (unlinked self k x) (kv1 ++ kv2) (a1 ++ a2).
Proof.
  intros Hr Hlen. pose proof (rep_length _ _ _ Hr) as Hl. destruct Hr.
  assert (Hkl : length a1 = length (dict_keys kv1)) by (unfold dict_keys; by rewrite length_fmap).
  unfold dict_keys in rep_keys0. rewrite fmap_app in rep_keys0. cbn [fmap list_fmap fst] in rep_keys0.
  apply Forall2_remove in rep_keys0 as [Hka Hkeys]; [|by rewrite Hkl].
  unfold key_of in Hka. destruct (links self !! a) as [x|] eqn:Ha; [|done]. injection Hka as Hxk.
  apply segment_app in rep_segment0 as [H1 H2].
  pose proof (segment_last _ _ _ _ H1) as Hz. pose proof (segment_head _ _ _ _ H2) as Hn.
  unfold prev_of, next_of in Hz, Hn. rewrite Ha in Hz, Hn. cbn in Hz, Hn.
  assert (Hn' : head (a2 ++ [root]) = Some (next x)) by (destruct a2; cbn in *; congruence).
  assert (Hnd : NoDup (root :: a1 ++ a2)).
  { rewrite app_comm_cons in rep_nodup0. rewrite <- Permutation_middle, NoDup_cons in rep_nodup0. apply rep_nodup0. }
  assert (Hzip : zip (dict_keys (kv1 ++ (k, v) :: kv2)) (a1 ++ a :: a2) = zip (dict_keys kv1) a1 ++ (k, a) :: zip (dict_keys kv2) a2).
  { unfold dict_keys in *. rewrite fmap_app. by rewrite zip_with_app by (symmetry; exact Hkl). }
  exists x. rewrite <- Hz. split_and!; try done.
  { rewrite rep_map0. apply elem_of_list_to_map_1.
    - rewrite fst_zip_keys by done. exact rep_wf0.
    - rewrite Hzip. apply elem_of_app. right. by left. }
  assert (Hkey : ∀ b, key_of (links (unlinked self k x)) b = key_of (links self) b).
  { intros b. cbn. by rewrite key_of_set_prev, key_of_set_next. }
  pose proof (segment_last_next _ _ _ _ _ H1 (eq_sym Hz)) as Hza. pose proof (segment_head_prev _ _ _ _ _ H2 Hn') as Hna.
  split; cbn [unlinked links map inherited fresh_address].
  - eapply segment_join; [exact H1|exact H2|symmetry; exact Hz|exact Hn'|done|by apply NoDup_cons in rep_nodup0 as [? _]|..].
    + rewrite next_of_set_prev, next_of_set_next, decide_True by done. unfold next_of in Hza.
      by destruct (links self !! prev x).
    + rewrite prev_of_set_prev, decide_True by done. assert (Hp := prev_of_set_next (links self) (prev x) (next x) (next x)).
      rewrite Hna in Hp. unfold prev_of in Hp. by destruct (set_next _ _ _ !! next x).
    + intros b _ Hb. by rewrite next_of_set_prev, next_of_set_next, decide_False.
    + intros b _ Hb. by rewrite prev_of_set_prev, decide_False, prev_of_set_next.
  - done.
  - unfold dict_keys. rewrite fmap_app. eapply Forall2_mono_in; [exact Hkeys|]. intros b k' _ Hb.
    specialize (Hkey b). cbn in Hkey. by rewrite Hkey.
  - assert (Hzip' : zip (dict_keys (kv1 ++ kv2)) (a1 ++ a2) = zip (dict_keys kv1) a1 ++ zip (dict_keys kv2) a2).
    { unfold dict_keys in *. rewrite fmap_app. by rewrite zip_with_app by (symmetry; exact Hkl). }
    rewrite rep_map0, Hzip'. symmetry. rewrite Hzip. eapply list_to_map_remove.
    rewrite <- Hzip, fst_zip_keys by done. exact rep_wf0.
  - rewrite rep_inherited0. symmetry. by eapply list_to_map_remove.
  - unfold dict_wf, dict_keys in *. rewrite fmap_app in *. cbn in rep_wf0. rewrite <- Permutation_middle in rep_wf0.
    by apply NoDup_cons in rep_wf0 as [_ ?].
  - intros b Hb. apply rep_fresh0. revert Hb. rewrite !elem_of_cons, !elem_of_app, elem_of_cons. tauto.
Qed.

Lemma dict_del_middle (kv1 kv2 : list (string * V)) k v :
  dict_wf (kv1 ++ (k, v) :: kv2) → dict_del (kv1 ++ (k, v) :: kv2) k = kv1 ++ kv2.
Proof.
  unfold dict_wf, dict_keys. rewrite fmap_app. cbn. rewrite <- Permutation_middle, NoDup_cons, elem_of_app.
  intros [Hnin _].
  unfold dict_del. rewrite filter_app, filter_cons_False by (cbn; tauto).
  f_equal; apply list_filter_all; intros [k2 v2] Hin2 Heq; cbn in Heq; subst; apply Hnin; [left|right];
    apply list_elem_of_fmap; by exists (k, v2).
Qed.

(** The items before and after a key, and their links. *)
Lemma rep_split self kvs addrs k :
  represents self kvs addrs → k ∈ dict_keys kvs →
  ∃ kv1 v kv2 a1 a a2, kvs = kv1 ++ (k, v) :: kv2 ∧ addrs = a1 ++ a :: a2 ∧ length a1 = length kv1
    ∧ dict_get kvs k = Some v ∧ dict_del kvs k = kv1 ++ kv2.
Proof.
  intros Hr Hk. pose proof (rep_length _ _ _ Hr) as Hl. destruct Hr.
  apply list_elem_of_fmap in Hk as ([k' v]&->&Hin). cbn.
  pose proof (dict_In_get _ _ _ rep_wf0 Hin) as Hget.
  apply list_elem_of_split in Hin as (kv1&kv2&->). rewrite length_app in Hl. cbn in Hl.
  exists kv1, v, kv2, (take (length kv1) addrs).
  destruct (drop (length kv1) addrs) as [|a a2] eqn:Hd.
  { apply (f_equal length) in Hd. rewrite length_drop in Hd. cbn in Hd. lia. }
  exists a, a2. split_and!; [done|by rewrite <- Hd, take_drop|rewrite length_take; lia|done|].
  by apply dict_del_middle.
Qed.

Lemma delitem_stands self kvs k :
  stands_for self kvs →
  match dict_get kvs k with
  | Some _ => ∃ self', __delitem__ self k = Ok self' ∧ stands_for self' (dict_del kvs k)
  | None => __delitem__ self k = Err (KeyError k)
  end.
Proof.
  intros [addrs Hr]. unfold __delitem__, __getitem__. rewrite (rep_getitem _ _ _ _ Hr).
  destruct (dict_get kvs k) as [v|] eqn:Hget; [|done]. cbn [mbind result_bind].
  assert (Hk : k ∈ dict_keys kvs) by (apply dict_get_is_Some; by rewrite Hget).
  destruct (rep_split _ _ _ _ Hr Hk) as (kv1&v'&kv2&a1&a&a2&->&->&Hlen&_&->).
  destruct (unlink_represents _ _ _ _ _ _ _ _ Hr Hlen) as (x&Ha&_&Hm&_&_&Hr').
  rewrite Hm. unfold get_link. rewrite Ha. cbn [mbind result_bind]. eexists. split; [done|]. by eexists.
Qed.

(** *** Iterating *)

Lemma iter_loop_next self addrs ks x fuel c :
  segment (links self) x addrs root → root ∉ addrs → Forall2 (λ a k, key_of (links self) a = Some (Some k)) addrs ks →
  length addrs < fuel → next_of (links self) x = Some c → iter_loop next fuel self c = Ok ks.
Proof.
  intros Hs Hroot Hk. revert x fuel c Hs. induction Hk as [|a k addrs ks Ha _ IH]; intros x fuel c Hs Hf Hc.
  - destruct Hs as [Hs _]. simplify_eq. destruct fuel; [lia|]. done.
  - destruct Hs as [[Hx _] Hs]. assert (a = c) as -> by congruence. apply not_elem_of_cons in Hroot as [Hne Hroot].
    destruct fuel as [|fuel]; [cbn in Hf; lia|]. cbn [iter_loop]. rewrite bool_decide_eq_false_2 by done.
    unfold key_of in Ha. unfold get_link. destruct (links self !! c) as [y|] eqn:Hy; [|done]. injection Ha as Ha.
    cbn [mbind result_bind]. rewrite Ha. rewrite (IH Hroot c fuel); [done|done|cbn in Hf; lia|].
    unfold next_of. by rewrite Hy.
Qed.

Lemma iter_loop_prev self addrs ks e fuel c :
  segment (links self) root addrs e → root ∉ addrs → Forall2 (λ a k, key_of (links self) a = Some (Some k)) addrs ks →
  length addrs < fuel → prev_of (links self) e = Some c → iter_loop prev fuel self c = Ok (reverse ks).
Proof.
  intros Hs Hroot. revert ks e fuel c Hs. induction addrs as [|a addrs IH] using rev_ind; intros ks e fuel c Hs Hk Hf Hc.
  - inversion Hk; subst. destruct Hs as [_ Hs]. simplify_eq. destruct fuel; [lia|]. done.
  - apply Forall2_app_inv_l in Hk as (ks1&ks2&Hk&Hk2&->). inversion Hk2 as [|? k ? ? Ha Hnil]; subst. inversion Hnil; subst.
    apply segment_app in Hs as [Hs [_ Hae]]. assert (a = c) as -> by congruence.
    apply not_elem_of_app in Hroot as [Hroot Hne%not_elem_of_cons]. destruct Hne as [Hne _].
    rewrite length_app in Hf. cbn in Hf. destruct fuel as [|fuel]; [lia|]. cbn [iter_loop].
    rewrite bool_decide_eq_false_2 by done. unfold key_of in Ha. unfold get_link.
    destruct (links self !! c) as [y|] eqn:Hy; [|done]. injection Ha as Ha.
    cbn [mbind result_bind]. rewrite Ha. rewrite (IH Hroot ks1 c fuel); [by rewrite reverse_snoc|done|done|lia|].
    unfold prev_of. by rewrite Hy.
Qed.

Lemma rep_root self kvs addrs : represents self kvs addrs → ∃ r, links self !! root = Some r.
Proof.
  intros []. pose proof (segment_head _ _ _ _ rep_segment0) as Hh. unfold next_of in Hh.
  destruct (links self !! root) as [r|]; [by exists r|done].
Qed.

Lemma iter_stands self kvs : stands_for self kvs → __iter__ self = Ok (dict_keys kvs).
Proof.
  intros [addrs Hr]. destruct (rep_root _ _ _ Hr) as [r Hroot]. destruct (rep_size _ _ _ Hr) as [Hsz _].
  pose proof (rep_length _ _ _ Hr). destruct Hr. unfold __iter__, get_link. rewrite Hroot. cbn [mbind result_bind].
  eapply iter_loop_next; [exact rep_segment0|by apply NoDup_cons in rep_nodup0 as [? _]|done|lia|].
  unfold next_of. by rewrite Hroot.
Qed.

Lemma reversed_stands self kvs : stands_for self kvs → __reversed__ self = Ok (reverse (dict_keys kvs)).
Proof.
  intros [addrs Hr]. destruct (rep_root _ _ _ Hr) as [r Hroot]. destruct (rep_size _ _ _ Hr) as [Hsz _].
  pose proof (rep_length _ _ _ Hr). destruct Hr. unfold __reversed__, get_link. rewrite Hroot. cbn [mbind result_bind].
  eapply iter_loop_prev; [exact rep_segment0|by apply NoDup_cons in rep_nodup0 as [? _]|done|lia|].
  unfold prev_of. by rewrite Hroot.
Qed.

Lemma getitem_stands self kvs k :
  stands_for self kvs → __getitem__ self k = match dict_get kvs k with Some v => Ok v | None => Err (KeyError k) end.
Proof. intros [addrs Hr]. unfold __getitem__. by rewrite (rep_getitem _ _ _ _ Hr). Qed.

Lemma stands_wf self kvs : stands_for self kvs → dict_wf kvs.
Proof. by intros [addrs []]. Qed.

Lemma values_stands self kvs : stands_for self kvs → values self = Ok kvs.*2.
Proof.
  intros Hr. unfold values. rewrite (iter_stands _ _ Hr). cbn [mbind result_bind]. apply map_result_Ok.
  unfold dict_keys. apply Forall2_fmap_2, Forall_Forall2_diag, Forall_forall. intros [k v] Hin.
  rewrite (getitem_stands _ _ _ Hr). by rewrite (dict_In_get _ _ _ (stands_wf _ _ Hr) Hin).
Qed.

Lemma items_stands self kvs : stands_for self kvs → items self = Ok kvs.
Proof.
  intros Hr. unfold items. rewrite (iter_stands _ _ Hr). cbn [mbind result_bind]. apply map_result_Ok.
  rewrite <- (list_fmap_id kvs) at 2. unfold dict_keys. apply Forall2_fmap_2, Forall_Forall2_diag, Forall_forall.
  intros [k v] Hin. rewrite (getitem_stands _ _ _ Hr). by rewrite (dict_In_get _ _ _ (stands_wf _ _ Hr) Hin).
Qed.

(** *** The other methods *)

Lemma clear_stands self kvs : stands_for self kvs → stands_for (clear self) [].
Proof.
  intros [addrs Hr]. exists []. split; cbn.
  - unfold next_of, prev_of. by rewrite lookup_insert_eq.
  - apply NoDup_singleton.
  - constructor.
  - done.
  - done.
  - apply NoDup_nil_2.
  - destruct Hr. intros a ->%list_elem_of_singleton. apply rep_fresh0. by left.
Qed.

Lemma dict_update_stands (l : list (string * V)) self kvs :
  stands_for self kvs → ∃ self', update self l = Ok self' ∧ stands_for self' (dict_update kvs l).
Proof.
  revert self kvs. induction l as [|[k v] l IH]; intros self kvs Hr; cbn; [by eexists|].
  destruct (setitem_stands _ _ k v Hr) as (self1&->&Hr1). cbn [mbind result_bind]. by apply IH.
Qed.

(** What both ends of [popitem] do to the object. *)
Lemma popitem_middle self kv1 k v kv2 a1 a a2 (back : bool) :
  represents self (kv1 ++ (k, v) :: kv2) (a1 ++ a :: a2) → length a1 = length kv1 →
  (if back then a2 = [] else a1 = []) →
  ∃ self', popitem self back = Ok (k, v, self') ∧ stands_for self' (kv1 ++ kv2).
Proof.
  intros Hr Hlen Hend. destruct (rep_size _ _ _ Hr) as [_ Hsz]. destruct (rep_root _ _ _ Hr) as [r Hroot].
  destruct (unlink_represents _ _ _ _ _ _ _ _ Hr Hlen) as (x&Ha&Hxk&_&Hz&Hn&Hr').
  assert (Hget : __getitem__ self k = Ok v).
  { unfold __getitem__. rewrite (rep_getitem _ _ _ _ Hr). destruct Hr.
    rewrite (dict_In_get _ k v); [done|done|]. apply elem_of_app. right. by left. }
  exists (unlinked self k x). split; [|by eexists]. unfold popitem, __len__.
  rewrite Hsz, bool_decide_eq_false_2 by (rewrite length_app; cbn; lia).
  assert (get_link self root = Ok r) as -> by (unfold get_link; by rewrite Hroot). cbn [mbind result_bind].
  destruct Hr. apply segment_app in rep_segment0 as [H1 H2].
  destruct back; subst; cbn [app head last segment] in H1, H2, Hz, Hn; unfold next_of, prev_of in H1, H2.
  - destruct H2 as [_ Hpr]. rewrite Hroot in Hpr. injection Hpr as ->. unfold get_link. rewrite Ha.
    cbn [mbind result_bind]. rewrite Hxk, Hget. injection Hn as Hn. unfold unlinked. by rewrite <- Hn.
  - destruct H1 as [Hnr _]. rewrite Hroot in Hnr. injection Hnr as ->. unfold get_link. rewrite Ha.
    cbn [mbind result_bind]. rewrite Hxk, Hget. injection Hz as Hz. unfold unlinked. by rewrite <- Hz.
Qed.

Lemma popitem_stands self kvs (back : bool) :
  stands_for self kvs →
  match (if back then last kvs else head kvs) with
  | None => popitem self back = Err (KeyError "dictionary is empty")
  | Some (k, v) => ∃ self', popitem self back = Ok (k, v, self') ∧ stands_for self' (dict_del kvs k)
  end.
Proof.
  intros Hs. pose proof Hs as [addrs Hr]. destruct (rep_size _ _ _ Hr) as [_ Hsz]. pose proof (rep_length _ _ _ Hr) as Hl.
  destruct (decide (kvs = [])) as [->|Hne]; [destruct back; cbn; unfold popitem, __len__; by rewrite Hsz|].
  assert (∃ k v kv1 kv2, (if back then last kvs else head kvs) = Some (k, v) ∧ kvs = kv1 ++ (k, v) :: kv2
    ∧ (if back then kv2 = [] else kv1 = [])) as (k&v&kv1&kv2&->&->&Hend).
  { destruct back.
    - destruct kvs as [|[k v] kvs] using rev_ind; [done|]. exists k, v, kvs, []. by rewrite last_snoc.
    - destruct kvs as [|[k v] kvs]; [done|]. by exists k, v, [], kvs. }
  rewrite dict_del_middle by exact (stands_wf _ _ Hs). rewrite length_app in Hl. cbn in Hl.
  rewrite <- (take_drop (length kv1) addrs) in Hr.
  assert (Htake : length (take (length kv1) addrs) = length kv1) by (rewrite length_take; lia).
  assert (Hdrop : length (drop (length kv1) addrs) = S (length kv2)) by (rewrite length_drop; lia).
  destruct (drop (length kv1) addrs) as [|a a2]; [done|].
  eapply popitem_middle; [exact Hr|done|]. destruct back; subst; [by apply nil_length_inv; cbn in Hdrop; lia|done].
Qed.

Lemma pop_stands self kvs k default :
  stands_for self kvs →
  match dict_get kvs k with
  | Some v => ∃ self', pop self k default = Ok (v, self') ∧ stands_for self' (dict_del kvs k)
  | None => pop self k default = match default with Some v => Ok (v, self) | None => Err (KeyError k) end
  end.
Proof.
  intros Hs. pose proof (delitem_stands _ _ k Hs) as Hd. unfold pop. rewrite (getitem_stands _ _ _ Hs).
  destruct Hs as [addrs Hr]. rewrite (rep_contains _ _ _ _ Hr). unfold dict_mem.
  destruct (dict_get kvs k) as [v|] eqn:Hget; cbn [bool_decide mbind result_bind].
  - destruct Hd as (self'&->&Hs'). rewrite bool_decide_eq_true_2 by by eexists. by exists self'.
  - by rewrite bool_decide_eq_false_2 by (by intros [? ?]).
Qed.

Lemma setdefault_stands self kvs k default :
  stands_for self kvs →
  match dict_get kvs k with
  | Some v => setdefault self k default = Ok (v, self)
  | None => ∃ self', setdefault self k default = Ok (default, self') ∧ stands_for self' (dict_set kvs k default)
  end.
Proof.
  intros Hs. destruct (setitem_stands _ _ k default Hs) as (self'&Hset&Hs'). unfold setdefault.
  rewrite (getitem_stands _ _ _ Hs), Hset. destruct Hs as [addrs Hr]. rewrite (rep_contains _ _ _ _ Hr). unfold dict_mem.
  destruct (dict_get kvs k) as [v|] eqn:Hget; cbn [bool_decide mbind result_bind].
  - by rewrite bool_decide_eq_true_2 by by eexists.
  - rewrite bool_decide_eq_false_2 by (by intros [? ?]). cbn. by exists self'.
Qed.

Lemma init_stands : stands_for init [].
Proof. exists []. apply init_represents. Qed.

Lemma dict_update_new (kvs l : list (string * V)) : dict_wf (kvs ++ l) → dict_update kvs l = kvs ++ l.
Proof.
  revert kvs. induction l as [|[k v] l IH]; intros kvs Hwf; [by rewrite app_nil_r|].
  change (dict_update kvs ((k, v) :: l)) with (dict_update (dict_set kvs k v) l).
  assert (k ∉ dict_keys kvs).
  { unfold dict_wf, dict_keys in *. rewrite fmap_app in Hwf. apply NoDup_app in Hwf as (_&Hd&_).
    intros Hk. apply (Hd k Hk). by left. }
  rewrite dict_set_new by done. rewrite IH; [by rewrite <- app_assoc|by rewrite <- app_assoc].
Qed.

Lemma copy_stands self kvs : stands_for self kvs → ∃ self', copy self = Ok self' ∧ stands_for self' kvs.
Proof.
  intros Hs. unfold copy. rewrite (items_stands _ _ Hs). cbn [mbind result_bind].
  destruct (dict_update_stands kvs init [] init_stands) as (self'&->&Hs'). exists self'. split; [done|].
  rewrite dict_update_new in Hs'; [done|]. exact (stands_wf _ _ Hs).
Qed.

Lemma fromkeys_stands (l : list string) v :
  ∃ self, fromkeys l v = Ok self ∧ stands_for self (dict_update [] ((λ k, (k, v)) <$> l)).
Proof.
  unfold fromkeys. assert (for_each l init (λ k d, __setitem__ d k v) = update init ((λ k, (k, v)) <$> l)) as ->.
  { unfold update. generalize init. induction l as [|k l IH]; intros d; [done|]. cbn.
    destruct (__setitem__ d k v); cbn [mbind result_bind]; [apply IH|done]. }
  exact (dict_update_stands _ _ _ init_stands).
Qed.

Lemma len_stands self kvs : stands_for self kvs → __len__ self = length kvs.
Proof. intros [addrs Hr]. by destruct (rep_size _ _ _ Hr). Qed.

Lemma eq_stands `{EqDecision V} self other kvs kvs' :
  stands_for self kvs → stands_for other kvs' → __eq__ self other = Ok (bool_decide (kvs = kvs')).
Proof.
  intros Hs Ho. unfold __eq__. rewrite (len_stands _ _ Hs), (len_stands _ _ Ho), (items_stands _ _ Hs), (items_stands _ _ Ho).
  case_bool_decide as Hl; [done|]. rewrite bool_decide_eq_false_2; [done|]. by intros ->.
Qed.

(** *** Refinement *)

(** The calls on an object; [Copy] goes on with the copy. *)
Inductive call :=
  | SetItem (k : string) (v : V) | DelItem (k : string) | GetItem (k : string) | Contains (k : string) | Len
  | Iter | Reversed | Values | Items | Clear | PopItem (last : bool) | Update (l : list (string * V))
  | Pop (k : string) (default : option V) | SetDefault (k : string) (default : V) | Copy.
Inductive answer :=
  | Nothing | AValue (v : V) | AnItem (k : string) (v : V) | ABool (b : bool) | ANumber (n : nat)
  | TheKeys (l : list string) | TheValues (l : list V) | TheItems (l : list (string * V)).

(** A call that raises leaves the object as it was. *)
Definition or_same {S} (s : S) (r : result (answer * S)) : result answer * S :=
  match r with Ok (a, s') => (Ok a, s') | Err e => (Err e, s) end.

Definition method (c : call) self : result answer * OrderedDict :=
  or_same self match c with
  | SetItem k v => s ← __setitem__ self k v; Ok (Nothing, s)
  | DelItem k => s ← __delitem__ self k; Ok (Nothing, s)
  | GetItem k => v ← __getitem__ self k; Ok (AValue v, self)
  | Contains k => Ok (ABool (__contains__ self k), self)
  | Len => Ok (ANumber (__len__ self), self)
  | Iter => l ← keys self; Ok (TheKeys l, self)
  | Reversed => l ← __reversed__ self; Ok (TheKeys l, self)
  | Values => l ← values self; Ok (TheValues l, self)
  | Items => l ← items self; Ok (TheItems l, self)
  | Clear => Ok (Nothing, clear self)
  | PopItem last => '(k, v, s) ← popitem self last; Ok (AnItem k v, s)
  | Update l => s ← update self l; Ok (Nothing, s)
  | Pop k default => '(v, s) ← pop self k default; Ok (AValue v, s)
  | SetDefault k default => '(v, s) ← setdefault self k default; Ok (AValue v, s)
  | Copy => s ← copy self; Ok (Nothing, s)
  end.

(** What a call means on the list of the items. *)
Definition contract (c : call) kvs : result answer * list (string * V) :=
  or_same kvs match c with
  | SetItem k v => Ok (Nothing, dict_set kvs k v)
  | DelItem k => match dict_get kvs k with Some _ => Ok (Nothing, dict_del kvs k) | None => Err (KeyError k) end
  | GetItem k => match dict_get kvs k with Some v => Ok (AValue v, kvs) | None => Err (KeyError k) end
  | Contains k => Ok (ABool (bool_decide (k ∈ kvs.*1)), kvs)
  | Len => Ok (ANumber (length kvs), kvs)
  | Iter => Ok (TheKeys kvs.*1, kvs)
  | Reversed => Ok (TheKeys (reverse kvs.*1), kvs)
  | Values => Ok (TheValues kvs.*2, kvs)
  | Items => Ok (TheItems kvs, kvs)
  | Clear => Ok (Nothing, [])
  | PopItem back =>
      match (if back then last kvs else head kvs) with
      | Some (k, v) => Ok (AnItem k v, dict_del kvs k)
      | None => Err (KeyError "dictionary is empty")
      end
  | Update l => Ok (Nothing, dict_update kvs l)
  | Pop k default =>
      match dict_get kvs k, default with
      | Some v, _ => Ok (AValue v, dict_del kvs k)
      | None, Some v => Ok (AValue v, kvs)
      | None, None => Err (KeyError k)
      end
  | SetDefault k default =>
      match dict_get kvs k with
      | Some v => Ok (AValue v, kvs)
      | None => Ok (AValue default, dict_set kvs k default)
      end
  | Copy => Ok (Nothing, kvs)
  end.

Fixpoint run_calls {S} (step : call → S → result answer * S) (cs : list call) (s : S) : list (result answer) * S :=
  match cs with
  | [] => ([], s)
  | c :: cs => let '(a, s) := step c s in let '(answers, s) := run_calls step cs s in (a :: answers, s)
  end.

Lemma method_contract c self kvs :
  stands_for self kvs → (method c self).1 = (contract c kvs).1 ∧ stands_for (method c self).2 (contract c kvs).2.
Proof.
  intros Hs. unfold method, contract. destruct c as [k v|k|k|k| | | | | | |back|l|k d|k d| ].
  - by destruct (setitem_stands _ _ k v Hs) as (?&->&?).
  - pose proof (delitem_stands _ _ k Hs) as Hd. destruct (dict_get kvs k); [by destruct Hd as (?&->&?)|by rewrite Hd].
  - rewrite (getitem_stands _ _ k Hs). by destruct (dict_get kvs k).
  - destruct Hs as [addrs Hr]. rewrite (rep_contains _ _ _ _ Hr). split; [|by exists addrs]. cbn. do 2 f_equal.
    apply bool_decide_ext. apply dict_get_is_Some.
  - by rewrite (len_stands _ _ Hs).
  - unfold keys. by rewrite (iter_stands _ _ Hs).
  - by rewrite (reversed_stands _ _ Hs).
  - by rewrite (values_stands _ _ Hs).
  - by rewrite (items_stands _ _ Hs).
  - split; [done|]. by eapply clear_stands.
  - pose proof (popitem_stands _ _ back Hs) as Hp.
    destruct (if back then last kvs else head kvs) as [[k v]|]; [by destruct Hp as (?&->&?)|by rewrite Hp].
  - by destruct (dict_update_stands l _ _ Hs) as (?&->&?).
  - pose proof (pop_stands _ _ k d Hs) as Hp.
    destruct (dict_get kvs k); [by destruct Hp as (?&->&?)|rewrite Hp; by destruct d].
  - pose proof (setdefault_stands _ _ k d Hs) as Hp. destruct (dict_get kvs k); [by rewrite Hp|by destruct Hp as (?&->&?)].
  - by destruct (copy_stands _ _ Hs) as (?&->&?).
Qed.

(** C12: an OrderedDict implements its contract: after any sequence of calls on a new
    object, each call has answered (or raised) what the list of the items in the
    order of their insertion prescribes, the linked list and the two maps stand for that
    list, and so iterating terminates, forwards and backwards. *)
Theorem OrderedDict_refines cs :
  let '(answers, self) := run_calls method cs init in
  let '(prescribed, kvs) := run_calls contract cs [] in
  answers = prescribed ∧ stands_for self kvs.
Proof.
  assert (Hgen : ∀ self kvs, stands_for self kvs →
    (run_calls method cs self).1 = (run_calls contract cs kvs).1 ∧ stands_for (run_calls method cs self).2 (run_calls contract cs kvs).2).
  { induction cs as [|c cs IH]; intros self kvs Hs; [done|]. cbn.
    pose proof (method_contract c _ _ Hs) as [Ha Hs']. destruct (method c self) as [a s], (contract c kvs) as [a' l].
    cbn in *. subst. specialize (IH _ _ Hs'). destruct (run_calls method cs s), (run_calls contract cs l). cbn in *.
    by destruct IH as [-> ?]. }
  specialize (Hgen _ _ init_stands). by destruct (run_calls method cs init), (run_calls contract cs []).
Qed.
End ordered_dict.
