(* ===== verification/MSVSSettings.v ===== *)
(** * Settings of the Microsoft build tools

    tools/gyp/pylib/gyp/MSVSSettings.py: the kinds of settings, the tables of the
    settings each tool has in Visual Studio ("MSVS") and in MSBuild, and the functions
    that validate settings and convert them from one to the other.

    The tables are built by running the statements of the module, which may raise;
    [tables] is what they leave.  The functions the tables hold are bound methods
    and closures; the model has a constructor for each kind.  A warning that the source
    prints to [stderr] is a line of a list. *)
From S2P Require Import Prelude PyDict PyStr PyPath PyVal PyNum.
From Stdlib Require Import Ascii.

(** ** Macros *)

(** The replacements of ConvertVCMacrosToMSBuild. *)
Definition replace_map : list (string * string) :=
  [("$(ConfigurationName)", "$(Configuration)"); ("$(InputDir)", "%(RootDir)%(Directory)");
   ("$(InputExt)", "%(Extension)"); ("$(InputFileName)", "%(Filename)%(Extension)");
   ("$(InputName)", "%(Filename)"); ("$(InputPath)", "%(FullPath)"); ("$(ParentName)", "$(ProjectFileName)");
   ("$(PlatformName)", "$(Platform)"); ("$(SafeInputName)", "%(Filename)")].

(** Python goes over them in an order of its own. *)
Class MacroOrder := {
  macro_order : list (string * string);
  macro_order_perm : macro_order ≡ₚ replace_map
}.

Definition fix_vc_macro_slashes_regex_list : list string := ["IntDir"; "OutDir"].
Definition is_slash (c : ascii) : bool := c in? ["\"; "/"]%char.

(** A macro of the list that the text begins with. *)
Definition macro_here (s : text) : option text :=
  list_find (λ m, lstarts m s = true) ((λ m, chars ("$(" +:+ m +:+ ")")) <$> fix_vc_macro_slashes_regex_list) ≫= λ p, Some p.2.

(** [fix_vc_macro_slashes_regex.sub(r'\1', s)]; [skip] characters belong to a match. *)
Fixpoint fix_slashes (skip : nat) (s : text) : text :=
  match s with
  | [] => []
  | c :: r =>
      match skip with
      | S skip => fix_slashes skip r
      | 0 =>
          match macro_here s with
          | None => c :: fix_slashes 0 r
          | Some m =>
              let after := drop (length m) s in
              let slashes := length after - length (drop_while is_slash after) in
              if slashes ==? 0 then c :: fix_slashes 0 r
              else m ++ fix_slashes (length m + slashes - 1) r
          end
      end
  end.
Definition FixVCMacroSlashes (s : text) : text := if "$"%char in? s then fix_slashes 0 s else s.

Definition convert_macros `{MacroOrder} (s : string) : string :=
  if str_has "$" s
  then of_chars (FixVCMacroSlashes (chars (foldl (λ s p, str_replace p.1 p.2 s) s macro_order)))
  else s.

(** [ConvertVCMacrosToMSBuild(s)] of any value: a list or dictionary without a dollar
    sign among its items comes back as it is. *)
Definition ConvertVCMacrosToMSBuild `{MacroOrder} (s : pyval) : result pyval :=
  match s with
  | VStr s => Ok (VStr (convert_macros s))
  | VInt _ => Err (TypeError "argument of type 'int' is not iterable")
  | VList l => if py_in (VStr "$") l then Err (AttributeError "replace") else Ok s
  | VDict d => if dict_mem d "$" then Err (AttributeError "replace") else Ok s
  end.

(** ** Kinds of settings *)

(** The subclasses of _Type; an enumeration has [None] at an index that is not used. *)
Inductive setting_type :=
  | _String
  | _StringList
  | _Boolean
  | _Integer (msbuild_base : Z)
  | _Enumeration (label_list : list (option string)) (new : list string).

#[export] Instance setting_type_eq_dec : EqDecision setting_type.
Proof. solve_decision. Defined.

Definition msbuild_values (label_list : list (option string)) (new : list string) : list string :=
  omap id label_list ++ new.

Definition validate_string (v : pyval) : result unit :=
  raise_if (negb (is_str v)) (ValueError ("expected string; got " +:+ py_repr v)).
Definition validate_string_list (v : pyval) : result unit :=
  raise_if (negb (is_str v) && negb (is_list v)) (ValueError ("expected string list; got " +:+ py_repr v)).
Definition validate_bool (v : pyval) : result unit :=
  raise_if (negb (py_eq v (VStr "true")) && negb (py_eq v (VStr "false")))
    (ValueError ("expected bool; got " +:+ py_repr v)).

Definition format_integer (msbuild_base n : Z) : string :=
  if (msbuild_base =? 10)%Z then str_of_int n else "0x" +:+ of_chars (format_hex 4 n).

Definition convert_enumeration (label_list : list (option string)) (value : pyval) : result pyval :=
  index ← py_int value;
  if (index <? 0)%Z || (Z.of_nat (length label_list) <=? index)%Z
  then Err (ValueError ("index value (" +:+ str_of_int index +:+ ") not in expected range [0, "
              +:+ str_of_int (Z.of_nat (length label_list)) +:+ ")"))
  else
    match label_list !! Z.to_nat index with
    | Some (Some label) => Ok (VStr label)
    | _ => Err (ValueError ("converted value for " +:+ py_str value +:+ " not specified."))
    end.

(** Tables by tool and setting, and settings by tool. *)
Abbreviation table A := (list (string * list (string * A))).
Abbreviation msettings := (list (string * pydict)).

Section settings.
Context `{MacroOrder}.

Definition ConvertToMSBuild (t : setting_type) (value : pyval) : result pyval :=
  match t with
  | _String => ConvertVCMacrosToMSBuild value
  | _StringList =>
      match value with
      | VList l => VList <$> map_result ConvertVCMacrosToMSBuild l
      | _ => ConvertVCMacrosToMSBuild value
      end
  | _Boolean => _ ← validate_bool value; Ok value
  | _Integer msbuild_base => n ← py_int value; Ok (VStr (format_integer msbuild_base n))
  | _Enumeration label_list _ => convert_enumeration label_list value
  end.

Definition ValidateMSVS (t : setting_type) (value : pyval) : result unit :=
  match t with
  | _String => validate_string value
  | _StringList => validate_string_list value
  | _Boolean => validate_bool value
  | _Integer _ | _Enumeration _ _ => _ ← ConvertToMSBuild t value; Ok tt
  end.

Definition ValidateMSBuild (t : setting_type) (value : pyval) : result unit :=
  match t with
  | _String => validate_string value
  | _StringList => validate_string_list value
  | _Boolean => validate_bool value
  | _Integer msbuild_base => _ ← py_int_base value msbuild_base; Ok tt
  | _Enumeration label_list new =>
      match value with
      | VList _ | VDict _ => Err (TypeError ("unhashable type: '" +:+ class_name value +:+ "'"))
      | _ =>
          raise_if (negb (py_in value (VStr <$> msbuild_values label_list new)))
            (ValueError ("unrecognized enumerated value " +:+ py_str value))
      end
  end.

(** ** Tables *)

Record _Tool := Tool { msvs_name : string; msbuild_name : string }.

(** What the tables of validators and of converters hold. *)
Inductive validator :=
  | MSVSValidator (t : setting_type)
  | MSBuildValidator (t : setting_type).
#[export] Instance validator_eq_dec : EqDecision validator.
Proof. solve_decision. Defined.
Inductive converter :=
  | TranslateTo (msbuild_tool_name msbuild_settings_name : string) (t : setting_type)
  | TranslateNothing
  | TranslateToFlag (tool : _Tool) (flag : string)
  | TranslatePreprocessed (tool : _Tool).

Record registry := Registry {
  msvs_validators : table validator;
  msbuild_validators : table validator;
  msvs_to_msbuild_converters : table converter;
  msbuild_name_of_tool : list (string * string)
}.

(** [d[tool][name] = x] *)
Definition set_in {A} (tool name : string) (x : A) (d : table A) : result (table A) :=
  match dict_get d tool with
  | None => Err (KeyError tool)
  | Some entries => Ok (dict_set d tool (dict_set entries name x))
  end.
Definition set_msvs_validator (tool name : string) (x : validator) (r : registry) : result registry :=
  d ← set_in tool name x (msvs_validators r);
  Ok (Registry d (msbuild_validators r) (msvs_to_msbuild_converters r) (msbuild_name_of_tool r)).
Definition set_msbuild_validator (tool name : string) (x : validator) (r : registry) : result registry :=
  d ← set_in tool name x (msbuild_validators r);
  Ok (Registry (msvs_validators r) d (msvs_to_msbuild_converters r) (msbuild_name_of_tool r)).
Definition set_converter (tool name : string) (x : converter) (r : registry) : result registry :=
  d ← set_in tool name x (msvs_to_msbuild_converters r);
  Ok (Registry (msvs_validators r) (msbuild_validators r) d (msbuild_name_of_tool r)).

Definition statement : Type := registry → result registry.

Definition _AddTool (tool : _Tool) : statement := λ r,
  Ok (Registry (dict_set (msvs_validators r) (msvs_name tool) [])
        (dict_set (msbuild_validators r) (msbuild_name tool) [])
        (dict_set (msvs_to_msbuild_converters r) (msvs_name tool) [])
        (dict_set (msbuild_name_of_tool r) (msvs_name tool) (msbuild_name tool))).

Definition _Renamed (tool : _Tool) (name new_name : string) (t : setting_type) : statement := λ r,
  r ← set_msvs_validator (msvs_name tool) name (MSVSValidator t) r;
  r ← set_msbuild_validator (msbuild_name tool) new_name (MSBuildValidator t) r;
  set_converter (msvs_name tool) name (TranslateTo (msbuild_name tool) new_name t) r.

Definition _Same (tool : _Tool) (name : string) (t : setting_type) : statement := _Renamed tool name name t.

Definition _MovedAndRenamed (tool : _Tool) (msvs_settings_name msbuild_tool_name msbuild_settings_name : string)
    (t : setting_type) : statement := λ r,
  r ← set_msvs_validator (msvs_name tool) msvs_settings_name (MSVSValidator t) r;
  r ← set_msbuild_validator msbuild_tool_name msbuild_settings_name (MSBuildValidator t) r;
  set_converter (msvs_name tool) msvs_settings_name (TranslateTo msbuild_tool_name msbuild_settings_name t) r.

Definition _Moved (tool : _Tool) (settings_name msbuild_tool_name : string) (t : setting_type) : statement :=
  _MovedAndRenamed tool settings_name msbuild_tool_name settings_name t.

Definition _MSVSOnly (tool : _Tool) (name : string) (t : setting_type) : statement := λ r,
  r ← set_msvs_validator (msvs_name tool) name (MSVSValidator t) r;
  set_converter (msvs_name tool) name TranslateNothing r.

Definition _MSBuildOnly (tool : _Tool) (name : string) (t : setting_type) : statement :=
  set_msbuild_validator (msbuild_name tool) name (MSBuildValidator t).

Definition _ConvertedToAdditionalOption (tool : _Tool) (name flag : string) : statement := λ r,
  r ← set_msvs_validator (msvs_name tool) name (MSVSValidator _Boolean) r;
  set_converter (msvs_name tool) name (TranslateToFlag tool flag) r.

Definition _CustomGeneratePreprocessedFile (tool : _Tool) (name : string) : statement := λ r,
  r ← set_msvs_validator (msvs_name tool) name (MSVSValidator (_Enumeration [Some "a"; Some "b"; Some "c"] [])) r;
  r ← set_msbuild_validator (msbuild_name tool) "PreprocessToFile" (MSBuildValidator _Boolean) r;
  r ← set_msbuild_validator (msbuild_name tool) "PreprocessSuppressLineNumbers" (MSBuildValidator _Boolean) r;
  set_converter (msvs_name tool) name (TranslatePreprocessed tool) r.

(** ** The settings of the tools *)

Definition _boolean : setting_type := _Boolean.
Definition _integer : setting_type := _Integer 10.
Definition _string : setting_type := _String.
Definition _file_name : setting_type := _String.
Definition _folder_name : setting_type := _String.
Definition _file_list : setting_type := _StringList.
Definition _folder_list : setting_type := _StringList.
Definition _string_list : setting_type := _StringList.
Definition _newly_boolean : setting_type := _Enumeration [Some ""; Some "false"; Some "true"] [].

Definition _compile : _Tool := Tool "VCCLCompilerTool" "ClCompile".
Definition _link : _Tool := Tool "VCLinkerTool" "Link".
Definition _midl : _Tool := Tool "VCMIDLTool" "Midl".
Definition _rc : _Tool := Tool "VCResourceCompilerTool" "ResourceCompile".
Definition _lib : _Tool := Tool "VCLibrarianTool" "Lib".
Definition _manifest : _Tool := Tool "VCManifestTool" "Manifest".

(** [_msbuild_validators[name] = {}] *)
Definition add_msbuild_section (name : string) : statement := λ r,
  Ok (Registry (msvs_validators r) (dict_set (msbuild_validators r) name []) (msvs_to_msbuild_converters r)
        (msbuild_name_of_tool r)).

Definition tools_and_sections : list statement :=
  [_AddTool _compile; _AddTool _link; _AddTool _midl; _AddTool _rc; _AddTool _lib; _AddTool _manifest;
   add_msbuild_section ""; add_msbuild_section "ProjectReference"; add_msbuild_section "ManifestResourceCompile"].

Definition _subsystem_enumeration : setting_type :=
  _Enumeration [Some "NotSet"; Some "Console"; Some "Windows"; Some "Native"; Some "EFI Application"; Some
     "EFI Boot Service Driver"; Some "EFI ROM"; Some "EFI Runtime"; Some "WindowsCE"] ["POSIX"].

Definition _target_machine_enumeration : setting_type :=
  _Enumeration [Some "NotSet"; Some "MachineX86"; None; Some "MachineARM"; Some "MachineEBC"; Some "MachineIA64";
     None; Some "MachineMIPS"; Some "MachineMIPS16"; Some "MachineMIPSFPU"; Some "MachineMIPSFPU16"; None; None;
     None; Some "MachineSH4"; None; Some "MachineTHUMB"; Some "MachineX64"] [].

Definition compile_settings1 : list statement :=
  [_Same _compile "AdditionalIncludeDirectories" _folder_list;
   _Same _compile "AdditionalOptions" _string_list;
   _Same _compile "AdditionalUsingDirectories" _folder_list;
   _Same _compile "AssemblerListingLocation" _file_name;
   _Same _compile "BrowseInformationFile" _file_name;
   _Same _compile "BufferSecurityCheck" _boolean;
   _Same _compile "DisableLanguageExtensions" _boolean;
   _Same _compile "DisableSpecificWarnings" _string_list;
   _Same _compile "EnableFiberSafeOptimizations" _boolean;
   _Same _compile "EnablePREfast" _boolean;
   _Same _compile "ExpandAttributedSource" _boolean;
   _Same _compile "FloatingPointExceptions" _boolean;
   _Same _compile "ForceConformanceInForLoopScope" _boolean;
   _Same _compile "ForcedIncludeFiles" _file_list;
   _Same _compile "ForcedUsingFiles" _file_list;
   _Same _compile "GenerateXMLDocumentationFiles" _boolean;
   _Same _compile "IgnoreStandardIncludePath" _boolean;
   _Same _compile "MinimalRebuild" _boolean;
   _Same _compile "OmitDefaultLibName" _boolean;
   _Same _compile "OmitFramePointers" _boolean;
   _Same _compile "PreprocessorDefinitions" _string_list;
   _Same _compile "ProgramDataBaseFileName" _file_name;
   _Same _compile "RuntimeTypeInfo" _boolean;
   _Same _compile "ShowIncludes" _boolean;
   _Same _compile "SmallerTypeCheck" _boolean;
   _Same _compile "StringPooling" _boolean;
   _Same _compile "SuppressStartupBanner" _boolean;
   _Same _compile "TreatWChar_tAsBuiltInType" _boolean;
   _Same _compile "UndefineAllPreprocessorDefinitions" _boolean;
   _Same _compile "UndefinePreprocessorDefinitions" _string_list;
   _Same _compile "UseFullPaths" _boolean;
   _Same _compile "WholeProgramOptimization" _boolean;
   _Same _compile "XMLDocumentationFileName" _file_name;
   _Same _compile "AssemblerOutput" (_Enumeration [Some "NoListing"; Some "AssemblyCode"; Some "All"; Some
      "AssemblyAndMachineCode"; Some "AssemblyAndSourceCode"] []);
   _Same _compile "BasicRuntimeChecks" (_Enumeration [Some "Default"; Some "StackFrameRuntimeCheck"; Some
      "UninitializedLocalUsageCheck"; Some "EnableFastChecks"] []);
   _Same _compile "BrowseInformation" (_Enumeration [Some "false"; Some "true"; Some "true"] []);
   _Same _compile "CallingConvention" (_Enumeration [Some "Cdecl"; Some "FastCall"; Some "StdCall"] []);
   _Same _compile "CompileAs" (_Enumeration [Some "Default"; Some "CompileAsC"; Some "CompileAsCpp"] []);
   _Same _compile "DebugInformationFormat" (_Enumeration [Some ""; Some "OldStyle"; None; Some "ProgramDatabase";
      Some "EditAndContinue"] []);
   _Same _compile "EnableEnhancedInstructionSet" (_Enumeration [Some "NotSet"; Some "StreamingSIMDExtensions"; Some
      "StreamingSIMDExtensions2"] []);
   _Same _compile "ErrorReporting" (_Enumeration [Some "None"; Some "Prompt"; Some "Queue"] ["Send"]);
   _Same _compile "ExceptionHandling" (_Enumeration [Some "false"; Some "Sync"; Some "Async"] ["SyncCThrow"]);
   _Same _compile "FavorSizeOrSpeed" (_Enumeration [Some "Neither"; Some "Speed"; Some "Size"] []);
   _Same _compile "FloatingPointModel" (_Enumeration [Some "Precise"; Some "Strict"; Some "Fast"] []);
   _Same _compile "InlineFunctionExpansion" (_Enumeration [Some "Default"; Some "OnlyExplicitInline"; Some
      "AnySuitable"] ["Disabled"]);
   _Same _compile "Optimization" (_Enumeration [Some "Disabled"; Some "MinSpace"; Some "MaxSpeed"; Some "Full"] []);
   _Same _compile "RuntimeLibrary" (_Enumeration [Some "MultiThreaded"; Some "MultiThreadedDebug"; Some
      "MultiThreadedDLL"; Some "MultiThreadedDebugDLL"] []);
   _Same _compile "StructMemberAlignment" (_Enumeration [Some "Default"; Some "1Byte"; Some "2Bytes"; Some
      "4Bytes"; Some "8Bytes"; Some "16Bytes"] []);
   _Same _compile "WarningLevel" (_Enumeration [Some "TurnOffAllWarnings"; Some "Level1"; Some "Level2"; Some
      "Level3"; Some "Level4"] ["EnableAllWarnings"]);
   _Renamed _compile "EnableFunctionLevelLinking" "FunctionLevelLinking" _boolean;
   _Renamed _compile "EnableIntrinsicFunctions" "IntrinsicFunctions" _boolean;
   _Renamed _compile "KeepComments" "PreprocessKeepComments" _boolean;
   _Renamed _compile "ObjectFile" "ObjectFileName" _file_name;
   _Renamed _compile "OpenMP" "OpenMPSupport" _boolean;
   _Renamed _compile "PrecompiledHeaderThrough" "PrecompiledHeaderFile" _file_name;
   _Renamed _compile "PrecompiledHeaderFile" "PrecompiledHeaderOutputFile" _file_name;
   _Renamed _compile "UsePrecompiledHeader" "PrecompiledHeader" (_Enumeration [Some "NotUsing"; Some "Create"; Some
      "Use"] []);
   _Renamed _compile "WarnAsError" "TreatWarningAsError" _boolean;
   _ConvertedToAdditionalOption _compile "DefaultCharIsUnsigned" "/J";
   _MSVSOnly _compile "Detect64BitPortabilityProblems" _boolean;
   _MSVSOnly _compile "UseUnicodeResponseFiles" _boolean].

Definition compile_settings2 : list statement :=
  [_MSBuildOnly _compile "BuildingInIDE" _boolean;
   _MSBuildOnly _compile "CompileAsManaged" (_Enumeration [] ["false"; "true"; "Pure"; "Safe"; "OldSyntax"]);
   _MSBuildOnly _compile "CreateHotpatchableImage" _boolean;
   _MSBuildOnly _compile "MultiProcessorCompilation" _boolean;
   _MSBuildOnly _compile "PreprocessOutputPath" _string;
   _MSBuildOnly _compile "ProcessorNumber" _integer;
   _MSBuildOnly _compile "TrackerLogDirectory" _folder_name;
   _MSBuildOnly _compile "TreatSpecificWarningsAsErrors" _string_list;
   _MSBuildOnly _compile "UseUnicodeForAssemblerListing" _boolean;
   _CustomGeneratePreprocessedFile _compile "GeneratePreprocessedFile"].

Definition link_settings1 : list statement :=
  [_Same _link "AdditionalDependencies" _file_list;
   _Same _link "AdditionalLibraryDirectories" _folder_list;
   _Same _link "AdditionalManifestDependencies" _file_list;
   _Same _link "AdditionalOptions" _string_list;
   _Same _link "AddModuleNamesToAssembly" _file_list;
   _Same _link "AllowIsolation" _boolean;
   _Same _link "AssemblyLinkResource" _file_list;
   _Same _link "BaseAddress" _string;
   _Same _link "CLRUnmanagedCodeCheck" _boolean;
   _Same _link "DelayLoadDLLs" _file_list;
   _Same _link "DelaySign" _boolean;
   _Same _link "EmbedManagedResourceFile" _file_list;
   _Same _link "EnableUAC" _boolean;
   _Same _link "EntryPointSymbol" _string;
   _Same _link "ForceSymbolReferences" _file_list;
   _Same _link "FunctionOrder" _file_name;
   _Same _link "GenerateDebugInformation" _boolean;
   _Same _link "GenerateMapFile" _boolean;
   _Same _link "HeapCommitSize" _string;
   _Same _link "HeapReserveSize" _string;
   _Same _link "IgnoreAllDefaultLibraries" _boolean;
   _Same _link "IgnoreEmbeddedIDL" _boolean;
   _Same _link "ImportLibrary" _file_name;
   _Same _link "KeyContainer" _file_name;
   _Same _link "KeyFile" _file_name;
   _Same _link "ManifestFile" _file_name;
   _Same _link "MapExports" _boolean;
   _Same _link "MapFileName" _file_name;
   _Same _link "MergedIDLBaseFileName" _file_name;
   _Same _link "MergeSections" _string;
   _Same _link "MidlCommandFile" _file_name;
   _Same _link "ModuleDefinitionFile" _file_name;
   _Same _link "OutputFile" _file_name;
   _Same _link "PerUserRedirection" _boolean;
   _Same _link "Profile" _boolean;
   _Same _link "ProfileGuidedDatabase" _file_name;
   _Same _link "ProgramDatabaseFile" _file_name;
   _Same _link "RegisterOutput" _boolean;
   _Same _link "SetChecksum" _boolean;
   _Same _link "StackCommitSize" _string;
   _Same _link "StackReserveSize" _string;
   _Same _link "StripPrivateSymbols" _file_name;
   _Same _link "SupportUnloadOfDelayLoadedDLL" _boolean;
   _Same _link "SuppressStartupBanner" _boolean;
   _Same _link "SwapRunFromCD" _boolean;
   _Same _link "TurnOffAssemblyGeneration" _boolean;
   _Same _link "TypeLibraryFile" _file_name;
   _Same _link "TypeLibraryResourceID" _integer;
   _Same _link "UACUIAccess" _boolean;
   _Same _link "Version" _string;
   _Same _link "EnableCOMDATFolding" _newly_boolean;
   _Same _link "FixedBaseAddress" _newly_boolean;
   _Same _link "LargeAddressAware" _newly_boolean;
   _Same _link "OptimizeReferences" _newly_boolean;
   _Same _link "RandomizedBaseAddress" _newly_boolean;
   _Same _link "TerminalServerAware" _newly_boolean;
   _Same _link "AssemblyDebug" (_Enumeration [Some ""; Some "true"; Some "false"] []);
   _Same _link "CLRImageType" (_Enumeration [Some "Default"; Some "ForceIJWImage"; Some "ForcePureILImage"; Some
      "ForceSafeILImage"] []);
   _Same _link "CLRThreadAttribute" (_Enumeration [Some "DefaultThreadingAttribute"; Some "MTAThreadingAttribute";
      Some "STAThreadingAttribute"] []);
   _Same _link "DataExecutionPrevention" (_Enumeration [Some ""; Some "false"; Some "true"] []);
   _Same _link "Driver" (_Enumeration [Some "NotSet"; Some "Driver"; Some "UpOnly"; Some "WDM"] []);
   _Same _link "LinkTimeCodeGeneration" (_Enumeration [Some "Default"; Some "UseLinkTimeCodeGeneration"; Some
      "PGInstrument"; Some "PGOptimization"; Some "PGUpdate"] []);
   _Same _link "ShowProgress" (_Enumeration [Some "NotSet"; Some "LinkVerbose"; Some "LinkVerboseLib"]
      ["LinkVerboseICF"; "LinkVerboseREF"; "LinkVerboseSAFESEH"; "LinkVerboseCLR"]);
   _Same _link "SubSystem" _subsystem_enumeration;
   _Same _link "TargetMachine" _target_machine_enumeration;
   _Same _link "UACExecutionLevel" (_Enumeration [Some "AsInvoker"; Some "HighestAvailable"; Some
      "RequireAdministrator"] []);
   _Same _link "MinimumRequiredVersion" _string;
   _Same _link "TreatLinkerWarningAsErrors" _boolean].

Definition link_settings2 : list statement :=
  [_Renamed _link "ErrorReporting" "LinkErrorReporting" (_Enumeration [Some "NoErrorReport"; Some
      "PromptImmediately"; Some "QueueForNextLogin"] ["SendErrorReport"]);
   _Renamed _link "IgnoreDefaultLibraryNames" "IgnoreSpecificDefaultLibraries" _file_list;
   _Renamed _link "ResourceOnlyDLL" "NoEntryPoint" _boolean;
   _Renamed _link "SwapRunFromNet" "SwapRunFromNET" _boolean;
   _Moved _link "GenerateManifest" "" _boolean;
   _Moved _link "IgnoreImportLibrary" "" _boolean;
   _Moved _link "LinkIncremental" "" _newly_boolean;
   _Moved _link "LinkLibraryDependencies" "ProjectReference" _boolean;
   _Moved _link "UseLibraryDependencyInputs" "ProjectReference" _boolean;
   _MSVSOnly _link "OptimizeForWindows98" _newly_boolean;
   _MSVSOnly _link "UseUnicodeResponseFiles" _boolean;
   _MSVSOnly _link "AdditionalLibraryDirectories_excluded" _folder_list;
   _MSVSOnly _link "DelayLoadDLLs_excluded" _file_list;
   _MSVSOnly _link "AdditionalDependencies_excluded" _file_list;
   _MSBuildOnly _link "BuildingInIDE" _boolean;
   _MSBuildOnly _link "ImageHasSafeExceptionHandlers" _boolean;
   _MSBuildOnly _link "LinkDLL" _boolean;
   _MSBuildOnly _link "LinkStatus" _boolean;
   _MSBuildOnly _link "PreventDllBinding" _boolean;
   _MSBuildOnly _link "SupportNobindOfDelayLoadedDLL" _boolean;
   _MSBuildOnly _link "TrackerLogDirectory" _folder_name;
   _MSBuildOnly _link "MSDOSStubFileName" _file_name;
   _MSBuildOnly _link "SectionAlignment" _integer;
   _MSBuildOnly _link "SpecifySectionAttributes" _string;
   _MSBuildOnly _link "ForceFileOutput" (_Enumeration [] ["Enabled"; "MultiplyDefinedSymbolOnly";
      "UndefinedSymbolOnly"]);
   _MSBuildOnly _link "CreateHotPatchableImage" (_Enumeration [] ["Enabled"; "X86Image"; "X64Image";
      "ItaniumImage"]);
   _MSBuildOnly _link "CLRSupportLastError" (_Enumeration [] ["Enabled"; "Disabled"; "SystemDlls"])].

Definition rc_settings : list statement :=
  [_Same _rc "AdditionalOptions" _string_list;
   _Same _rc "AdditionalIncludeDirectories" _folder_list;
   _Same _rc "Culture" (_Integer 16);
   _Same _rc "IgnoreStandardIncludePath" _boolean;
   _Same _rc "PreprocessorDefinitions" _string_list;
   _Same _rc "ResourceOutputFileName" _string;
   _Same _rc "ShowProgress" _boolean;
   _Same _rc "SuppressStartupBanner" _boolean;
   _Same _rc "UndefinePreprocessorDefinitions" _string_list;
   _MSBuildOnly _rc "NullTerminateStrings" _boolean;
   _MSBuildOnly _rc "TrackerLogDirectory" _folder_name].

Definition midl_settings : list statement :=
  [_Same _midl "AdditionalIncludeDirectories" _folder_list;
   _Same _midl "AdditionalOptions" _string_list;
   _Same _midl "CPreprocessOptions" _string;
   _Same _midl "ErrorCheckAllocations" _boolean;
   _Same _midl "ErrorCheckBounds" _boolean;
   _Same _midl "ErrorCheckEnumRange" _boolean;
   _Same _midl "ErrorCheckRefPointers" _boolean;
   _Same _midl "ErrorCheckStubData" _boolean;
   _Same _midl "GenerateStublessProxies" _boolean;
   _Same _midl "GenerateTypeLibrary" _boolean;
   _Same _midl "HeaderFileName" _file_name;
   _Same _midl "IgnoreStandardIncludePath" _boolean;
   _Same _midl "InterfaceIdentifierFileName" _file_name;
   _Same _midl "MkTypLibCompatible" _boolean;
   _Same _midl "OutputDirectory" _string;
   _Same _midl "PreprocessorDefinitions" _string_list;
   _Same _midl "ProxyFileName" _file_name;
   _Same _midl "RedirectOutputAndErrors" _file_name;
   _Same _midl "SuppressStartupBanner" _boolean;
   _Same _midl "TypeLibraryName" _file_name;
   _Same _midl "UndefinePreprocessorDefinitions" _string_list;
   _Same _midl "WarnAsError" _boolean;
   _Same _midl "DefaultCharType" (_Enumeration [Some "Unsigned"; Some "Signed"; Some "Ascii"] []);
   _Same _midl "TargetEnvironment" (_Enumeration [Some "NotSet"; Some "Win32"; Some "Itanium"; Some "X64"] []);
   _Same _midl "EnableErrorChecks" (_Enumeration [Some "EnableCustom"; Some "None"; Some "All"] []);
   _Same _midl "StructMemberAlignment" (_Enumeration [Some "NotSet"; Some "1"; Some "2"; Some "4"; Some "8"] []);
   _Same _midl "WarningLevel" (_Enumeration [Some "0"; Some "1"; Some "2"; Some "3"; Some "4"] []);
   _Renamed _midl "DLLDataFileName" "DllDataFileName" _file_name;
   _Renamed _midl "ValidateParameters" "ValidateAllParameters" _boolean;
   _MSBuildOnly _midl "ApplicationConfigurationMode" _boolean;
   _MSBuildOnly _midl "ClientStubFile" _file_name;
   _MSBuildOnly _midl "GenerateClientFiles" (_Enumeration [] ["Stub"; "None"]);
   _MSBuildOnly _midl "GenerateServerFiles" (_Enumeration [] ["Stub"; "None"]);
   _MSBuildOnly _midl "LocaleID" _integer;
   _MSBuildOnly _midl "ServerStubFile" _file_name;
   _MSBuildOnly _midl "SuppressCompilerWarnings" _boolean;
   _MSBuildOnly _midl "TrackerLogDirectory" _folder_name;
   _MSBuildOnly _midl "TypeLibFormat" (_Enumeration [] ["NewFormat"; "OldFormat"])].

Definition lib_settings : list statement :=
  [_Same _lib "AdditionalDependencies" _file_list;
   _Same _lib "AdditionalLibraryDirectories" _folder_list;
   _Same _lib "AdditionalOptions" _string_list;
   _Same _lib "ExportNamedFunctions" _string_list;
   _Same _lib "ForceSymbolReferences" _string;
   _Same _lib "IgnoreAllDefaultLibraries" _boolean;
   _Same _lib "IgnoreSpecificDefaultLibraries" _file_list;
   _Same _lib "ModuleDefinitionFile" _file_name;
   _Same _lib "OutputFile" _file_name;
   _Same _lib "SuppressStartupBanner" _boolean;
   _Same _lib "UseUnicodeResponseFiles" _boolean;
   _Same _lib "LinkTimeCodeGeneration" _boolean;
   _Same _lib "TargetMachine" _target_machine_enumeration;
   _Moved _lib "LinkLibraryDependencies" "ProjectReference" _boolean;
   _MSVSOnly _lib "AdditionalLibraryDirectories_excluded" _folder_list;
   _MSBuildOnly _lib "DisplayLibrary" _string;
   _MSBuildOnly _lib "ErrorReporting" (_Enumeration [] ["PromptImmediately"; "QueueForNextLogin";
      "SendErrorReport"; "NoErrorReport"]);
   _MSBuildOnly _lib "MinimumRequiredVersion" _string;
   _MSBuildOnly _lib "Name" _file_name;
   _MSBuildOnly _lib "RemoveObjects" _file_list;
   _MSBuildOnly _lib "SubSystem" _subsystem_enumeration;
   _MSBuildOnly _lib "TrackerLogDirectory" _folder_name;
   _MSBuildOnly _lib "TreatLibWarningAsErrors" _boolean;
   _MSBuildOnly _lib "Verbose" _boolean].

Definition manifest_settings : list statement :=
  [_Same _manifest "AdditionalManifestFiles" _file_list;
   _Same _manifest "AdditionalOptions" _string_list;
   _Same _manifest "AssemblyIdentity" _string;
   _Same _manifest "ComponentFileName" _file_name;
   _Same _manifest "GenerateCatalogFiles" _boolean;
   _Same _manifest "InputResourceManifests" _string;
   _Same _manifest "OutputManifestFile" _file_name;
   _Same _manifest "RegistrarScriptFile" _file_name;
   _Same _manifest "ReplacementsFile" _file_name;
   _Same _manifest "SuppressStartupBanner" _boolean;
   _Same _manifest "TypeLibraryFile" _file_name;
   _Same _manifest "UpdateFileHashes" _boolean;
   _Same _manifest "UpdateFileHashesSearchPath" _file_name;
   _Same _manifest "VerboseOutput" _boolean;
   _MovedAndRenamed _manifest "ManifestResourceFile" "ManifestResourceCompile" "ResourceOutputFileName" _file_name;
   _Moved _manifest "EmbedManifest" "" _boolean;
   _MSVSOnly _manifest "DependencyInformationFile" _file_name;
   _MSVSOnly _manifest "UseFAT32Workaround" _boolean;
   _MSVSOnly _manifest "UseUnicodeResponseFiles" _boolean;
   _MSBuildOnly _manifest "EnableDPIAwareness" _boolean;
   _MSBuildOnly _manifest "GenerateCategoryTags" _boolean;
   _MSBuildOnly _manifest "ManifestFromManagedAssembly" _file_name;
   _MSBuildOnly _manifest "OutputResourceManifests" _string;
   _MSBuildOnly _manifest "SuppressDependencyElement" _boolean;
   _MSBuildOnly _manifest "TrackerLogDirectory" _folder_name].

(** The module, from the top. *)
Definition load_module : result registry :=
  for_each (tools_and_sections ++ compile_settings1 ++ compile_settings2 ++ link_settings1 ++ link_settings2
            ++ rc_settings ++ midl_settings ++ lib_settings ++ manifest_settings)
    (Registry [] [] [] []) (λ s r, s r).
Definition tables : registry := match load_module with Ok r => r | Err _ => Registry [] [] [] [] end.

(** ** Converting *)

(** [settings.setdefault(tool, {})[name] = value]: the tool is there even if computing
    the value raises. *)
Definition set_converted (tool name : string) (v : result pyval) (settings : msettings) : msettings * result unit :=
  let '(tool_settings, settings) := dict_setdefault settings tool [] in
  match v with
  | Ok v => (dict_set settings tool (dict_set tool_settings name v), Ok tt)
  | Err e => (settings, Err e)
  end.

(** The functions named _Translate. *)
Definition _Translate (c : converter) (value : pyval) (settings : msettings) : msettings * result unit :=
  match c with
  | TranslateTo tool name t => set_converted tool name (ConvertToMSBuild t value) settings
  | TranslateNothing => (settings, Ok tt)
  | TranslateToFlag tool flag =>
      if py_eq value (VStr "true") then
        let '(tool_settings, settings) := dict_setdefault settings (msbuild_name tool) [] in
        let new_flags :=
          match dict_get tool_settings "AdditionalOptions" with
          | Some options => py_str options +:+ " " +:+ flag
          | None => flag
          end in
        (dict_set settings (msbuild_name tool) (dict_set tool_settings "AdditionalOptions" (VStr new_flags)), Ok tt)
      else (settings, Ok tt)
  | TranslatePreprocessed tool =>
      let '(tool_settings, settings) := dict_setdefault settings (msbuild_name tool) [] in
      let set_both to_file suppress :=
        (dict_set settings (msbuild_name tool)
           (dict_set (dict_set tool_settings "PreprocessToFile" (VStr to_file))
              "PreprocessSuppressLineNumbers" (VStr suppress)), Ok tt) in
      if py_eq value (VStr "0") then set_both "false" "false"
      else if py_eq value (VStr "1") then set_both "true" "false"
      else if py_eq value (VStr "2") then set_both "true" "true"
      else (settings, Err (ValueError ("value must be one of [0, 1, 2]; got " +:+ py_str value)))
  end.

(** [try: ... except ValueError, e: print >> stderr, prefix, e] *)
Definition warn_of (prefix : string) (r : result unit) (stderr : list string) : result (list string) :=
  match r with
  | Ok _ => Ok stderr
  | Err (ValueError e) => Ok (stderr ++ [prefix +:+ e])
  | Err e => Err e
  end.

Definition convert_setting (tool : string) (converters : list (string * converter)) (setting : string * pyval)
    (st : msettings * list string) : result (msettings * list string) :=
  match dict_get converters setting.1 with
  | Some c =>
      let '(settings, r) := _Translate c setting.2 st.1 in
      stderr ← warn_of ("Warning: while converting " +:+ tool +:+ "/" +:+ setting.1 +:+ " to MSBuild, ") r st.2;
      Ok (settings, stderr)
  | None => Ok (st.1, st.2 ++ ["Warning: unrecognized setting " +:+ tool +:+ "/" +:+ setting.1
                                +:+ " while converting to MSBuild."])
  end.

Definition convert_tool (r : registry) (tool : string * pydict) (st : msettings * list string) :
    result (msettings * list string) :=
  match dict_get (msvs_to_msbuild_converters r) tool.1 with
  | Some converters => for_each tool.2 st (convert_setting tool.1 converters)
  | None => Ok (st.1, st.2 ++ ["Warning: unrecognized tool " +:+ tool.1 +:+ " while converting to MSBuild."])
  end.

(** The settings and what was printed to stderr. *)
Definition ConvertToMSBuildSettings (msvs_settings : msettings) : result (msettings * list string) :=
  for_each msvs_settings ([], []) (convert_tool tables).

(** ** Validating *)

Definition run_validator (f : validator) (value : pyval) : result unit :=
  match f with MSVSValidator t => ValidateMSVS t value | MSBuildValidator t => ValidateMSBuild t value end.

Definition validate_setting (tool : string) (tool_validators : list (string * validator)) (setting : string * pyval)
    (stderr : list string) : result (list string) :=
  match dict_get tool_validators setting.1 with
  | Some f => warn_of ("Warning: for " +:+ tool +:+ "/" +:+ setting.1 +:+ ", ") (run_validator f setting.2) stderr
  | None => Ok (stderr ++ ["Warning: unrecognized setting " +:+ tool +:+ "/" +:+ setting.1])
  end.

Definition validate_tool (validators : table validator) (tool : string * pydict) (stderr : list string) :
    result (list string) :=
  match dict_get validators tool.1 with
  | Some tool_validators => for_each tool.2 stderr (validate_setting tool.1 tool_validators)
  | None => Ok (stderr ++ ["Warning: unrecognized tool " +:+ tool.1])
  end.

Definition _ValidateSettings (validators : table validator) (settings : msettings) : result (list string) :=
  for_each settings [] (validate_tool validators).
Definition ValidateMSVSSettings (settings : msettings) : result (list string) :=
  _ValidateSettings (msvs_validators tables) settings.
Definition ValidateMSBuildSettings (settings : msettings) : result (list string) :=
  _ValidateSettings (msbuild_validators tables) settings.

End settings.

(** * Theorems *)

Section theorems.
Context `{MacroOrder}.
Implicit Types (t : setting_type) (v value : pyval) (settings : msettings) (stderr : list string).

(** ** Loops that print warnings *)

Lemma for_each_silent {A} (l : list A) (body : A → list string → result (list string)) stderr :
  (∀ x s s', body x s = Ok s' → s `prefix_of` s') → for_each l stderr body = Ok stderr →
  ∀ x, x ∈ l → body x stderr = Ok stderr.
Proof.
  intros Hgrow. assert (Hall : ∀ l s s', for_each l s body = Ok s' → s `prefix_of` s').
  { clear l stderr. induction l as [|x l IH]; intros s s' Hl; cbn in Hl; inv_ok; [done|].
    etrans; [by eapply Hgrow|by apply IH]. }
  induction l as [|x l IH]; intros Hl y Hy; [by apply elem_of_nil in Hy|]. cbn in Hl.
  apply bind_Ok in Hl as (s1&Hx&Hl). pose proof (Hgrow _ _ _ Hx) as H1. pose proof (Hall _ _ _ Hl) as H2.
  assert (s1 = stderr) as -> by (destruct H1 as [k1 ->], H2 as [k2 Hk]; rewrite <- app_assoc in Hk;
    apply (f_equal length) in Hk; rewrite !length_app in Hk;
    assert (k1 = []) as -> by (apply nil_length_inv; lia); by rewrite app_nil_r).
  apply elem_of_cons in Hy as [->|Hy]; [done|]. by apply IH.
Qed.

Lemma for_each_idle {A S} (l : list A) (body : A → S → result S) s :
  (∀ x, x ∈ l → body x s = Ok s) → for_each l s body = Ok s.
Proof.
  induction l as [|x l IH]; intros Hb; [done|]. cbn. rewrite Hb by by left. apply IH. intros y Hy. apply Hb. by right.
Qed.

Lemma warn_of_grows prefix r stderr stderr' : warn_of prefix r stderr = Ok stderr' → stderr `prefix_of` stderr'.
Proof. destruct r as [u|[]]; cbn; intros; simplify_eq; [done|by apply prefix_app_r]. Qed.

Lemma warn_of_silent prefix r stderr : warn_of prefix r stderr = Ok stderr → r = Ok tt.
Proof.
  destruct r as [[]|[]]; cbn; intros Hw; simplify_eq; [done|]. apply (f_equal length) in Hw.
  rewrite length_app in Hw. cbn in Hw. lia.
Qed.

Lemma app_one_neq {A} (l : list A) x : l ++ [x] ≠ l.
Proof. intros Hl. apply (f_equal length) in Hl. rewrite length_app in Hl. cbn in Hl. lia. Qed.

Lemma validate_setting_grows tool vs x stderr stderr' :
  validate_setting tool vs x stderr = Ok stderr' → stderr `prefix_of` stderr'.
Proof.
  unfold validate_setting. destruct (dict_get vs x.1); [apply warn_of_grows|]. intros [= <-]. by apply prefix_app_r.
Qed.

Lemma validate_tool_grows validators x stderr stderr' :
  validate_tool validators x stderr = Ok stderr' → stderr `prefix_of` stderr'.
Proof.
  unfold validate_tool. destruct (dict_get validators x.1) as [vs|].
  - intros Hl. pattern stderr'. eapply for_each_inv; [| |exact Hl]; [done|]. intros y s s' _ Hs Hy.
    etrans; [exact Hs|by eapply validate_setting_grows].
  - intros [= <-]. by apply prefix_app_r.
Qed.

(** A setting that is known and valid. *)
Definition accepted (validators : table validator) (tool : string) (setting : string * pyval) : Prop :=
  ∃ vs f, dict_get validators tool = Some vs ∧ dict_get vs setting.1 = Some f ∧ run_validator f setting.2 = Ok tt.

(** No warning means that everything is known and valid. *)
Lemma ValidateSettings_silent validators settings :
  _ValidateSettings validators settings = Ok [] ↔
  ∀ tool d, (tool, d) ∈ settings →
    is_Some (dict_get validators tool) ∧ ∀ setting, setting ∈ d → accepted validators tool setting.
Proof.
  unfold _ValidateSettings. split.
  - intros Hl tool d Hd. apply (for_each_silent _ _ _ (validate_tool_grows validators)) with (x := (tool, d)) in Hl; [|done].
    unfold validate_tool in Hl. cbn [fst snd] in Hl. destruct (dict_get validators tool) as [vs|] eqn:Ht.
    2: { by injection Hl as Hl. }
    split; [by eexists|]. intros setting Hs.
    apply (for_each_silent _ _ _ (validate_setting_grows tool vs)) with (x := setting) in Hl; [|done].
    unfold validate_setting in Hl. destruct (dict_get vs setting.1) as [f|] eqn:Hf; [|by injection Hl as Hl].
    apply warn_of_silent in Hl. by exists vs, f.
  - intros Hall. apply for_each_idle. intros [tool d] Hd. destruct (Hall _ _ Hd) as [[vs Ht] Hs].
    unfold validate_tool. cbn [fst snd]. rewrite Ht. apply for_each_idle. intros setting Hin.
    destruct (Hs _ Hin) as (vs'&f&Ht'&Hf&Hr). rewrite Ht in Ht'. injection Ht' as <-.
    unfold validate_setting. by rewrite Hf, Hr.
Qed.

(** ** Converting one value *)

(** What the validators of Visual Studio let pass and the conversion does not: a list
    with items other than strings, a negative number to be written in base sixteen, and
    a number for GeneratePreprocessedFile in another spelling. *)
Definition convertible (setting : string * pyval) : bool :=
  match setting.2 with VList l => forallb is_str l | _ => true end
  && (negb (setting.1 ==? "Culture") || match py_int setting.2 with Ok n => (0 <=? n)%Z | Err _ => true end)
  && (negb (setting.1 ==? "GeneratePreprocessedFile") || py_in setting.2 (VStr <$> ["0"; "1"; "2"])).

Definition fits t (setting : string) : bool :=
  match t with _Integer base => (base ==? 10%Z) || ((base ==? 16%Z) && (setting ==? "Culture")) | _ => true end.

Lemma validate_str s : ValidateMSBuild _String (VStr s) = Ok tt.
Proof. done. Qed.

Lemma convert_macros_list l : forallb is_str l = true → ∃ l', map_result ConvertVCMacrosToMSBuild l = Ok l'.
Proof.
  intros Hl. apply map_result_total. intros x Hx. rewrite forallb_forall in Hl.
  destruct x; cbn; try (by eexists); by specialize (Hl _ (proj1 (list_elem_of_In _ _) Hx)).
Qed.

Lemma convert_enumeration_Ok labels v w :
  convert_enumeration labels v = Ok w ↔
  ∃ n label, py_int v = Ok n ∧ (0 ≤ n < Z.of_nat (length labels))%Z ∧ labels !! Z.to_nat n = Some (Some label) ∧ w = VStr label.
Proof.
  unfold convert_enumeration. split.
  - intros Hc. apply bind_Ok in Hc as (n&Hn&Hc). destruct (_ || _) eqn:Hr; [done|]. apply orb_false_iff in Hr as [H0 H1].
    apply Z.ltb_ge in H0. apply Z.leb_gt in H1. destruct (labels !! Z.to_nat n) as [[label|]|] eqn:Hl; try done.
    injection Hc as <-. exists n, label. by split_and!.
  - intros (n&label&->&Hn&Hl&->). cbn [mbind result_bind].
    rewrite (proj2 (Z.ltb_ge n 0)), (proj2 (Z.leb_gt _ n)) by lia. cbn [orb]. by rewrite Hl.
Qed.

Lemma validate_enumeration labels new label :
  Some label ∈ labels → ValidateMSBuild (_Enumeration labels new) (VStr label) = Ok tt.
Proof.
  intros Hl. cbn [ValidateMSBuild]. rewrite (proj2 (py_in_str label _)); [done|]. apply list_elem_of_fmap_2.
  unfold msbuild_values. apply elem_of_app. left. apply list_elem_of_omap. by exists (Some label).
Qed.

Lemma convert_typed t setting v :
  ValidateMSVS t v = Ok tt → convertible (setting, v) = true → fits t setting = true →
  ∃ v', ConvertToMSBuild t v = Ok v' ∧ ValidateMSBuild t v' = Ok tt.
Proof.
  intros Hv Hc Hf. unfold convertible in Hc. cbn [fst snd] in Hc. rewrite !andb_true_iff in Hc.
  destruct Hc as [[Hlist Hculture] _]. destruct t as [| | |base|labels new].
  - destruct v; try done. by eexists.
  - destruct v as [s| |l|]; try done; [by eexists|]. destruct (convert_macros_list l Hlist) as [l' Hl'].
    exists (VList l'). cbn. by rewrite Hl'.
  - cbn in Hv. exists v. cbn. by rewrite Hv.
  - cbn in Hv. apply bind_Ok in Hv as (?&Hn&_). apply bind_Ok in Hn as (n&Hn&_). cbn. rewrite Hn. cbn [mbind result_bind].
    eexists. split; [done|]. unfold py_int_base, int_of_str, format_integer. cbn in Hf.
    apply orb_true_iff in Hf as [Hb|Hb].
    + apply bool_decide_eq_true in Hb as ->. cbn [Z.eqb Pos.eqb]. by rewrite read_int_decimal.
    + apply andb_true_iff in Hb as [Hb Hs]. apply bool_decide_eq_true in Hb as ->. cbn [Z.eqb Pos.eqb].
      rewrite Hs in Hculture. cbn in Hculture. rewrite Hn in Hculture. apply Z.leb_le in Hculture.
      rewrite chars_app, chars_of_chars. cbn [chars String.list_ascii_of_string app].
      by rewrite read_int_hex.
  - cbn in Hv. apply bind_Ok in Hv as (w&Hw&_). exists w. split; [done|].
    apply convert_enumeration_Ok in Hw as (n&label&_&_&Hl&->). apply validate_enumeration. by eapply list_elem_of_lookup_2.
Qed.

(** ** The tables fit together *)

Definition lookup2 {A} (d : table A) (tool name : string) : option A :=
  entries ← dict_get d tool; dict_get entries name.

(** The validator of the setting a converter writes has the kind the converter has. *)
Definition destination (r : registry) (tool name : string) t : bool :=
  lookup2 (msbuild_validators r) tool name ==? Some (MSBuildValidator t).
Definition entry_fits (r : registry) (tool setting : string) (c : converter) : bool :=
  match lookup2 (msvs_validators r) tool setting, c with
  | Some (MSVSValidator t), TranslateTo tool' name t' => (t ==? t') && fits t setting && destination r tool' name t
  | Some (MSVSValidator _), TranslateNothing => true
  | Some (MSVSValidator t), TranslateToFlag tool' _ =>
      (t ==? _Boolean) && destination r (msbuild_name tool') "AdditionalOptions" _StringList
  | Some (MSVSValidator _), TranslatePreprocessed tool' =>
      (setting ==? "GeneratePreprocessedFile") && destination r (msbuild_name tool') "PreprocessToFile" _Boolean
      && destination r (msbuild_name tool') "PreprocessSuppressLineNumbers" _Boolean
  | _, _ => false
  end.

(** Every setting of Visual Studio that is validated has a converter that fits. *)
Definition tables_fit (r : registry) : bool :=
  forallb (λ '(tool, vs), forallb (λ '(setting, _),
    match lookup2 (msvs_to_msbuild_converters r) tool setting with
    | Some c => entry_fits r tool setting c
    | None => false
    end) vs) (msvs_validators r).

Lemma tables_loaded : load_module = Ok tables.
Proof. vm_compute. reflexivity. Qed.

Lemma tables_fit_all : tables_fit tables = true.
Proof. vm_compute. reflexivity. Qed.

Lemma lookup2_Some {A} (d : table A) tool name x :
  lookup2 d tool name = Some x ↔ ∃ entries, dict_get d tool = Some entries ∧ dict_get entries name = Some x.
Proof. unfold lookup2. destruct (dict_get d tool); cbn; naive_solver. Qed.

Lemma accepted_lookup validators tool setting :
  accepted validators tool setting ↔ ∃ f, lookup2 validators tool setting.1 = Some f ∧ run_validator f setting.2 = Ok tt.
Proof. unfold accepted. setoid_rewrite lookup2_Some. naive_solver. Qed.

Lemma accepted_fits r tool setting :
  tables_fit r = true → accepted (msvs_validators r) tool setting →
  ∃ c, lookup2 (msvs_to_msbuild_converters r) tool setting.1 = Some c ∧ entry_fits r tool setting.1 c = true.
Proof.
  intros Hfit (f&Hf&_)%accepted_lookup. unfold tables_fit in Hfit. rewrite forallb_forall in Hfit.
  apply lookup2_Some in Hf as (vs&Ht&Hs). apply dict_get_In in Ht, Hs.
  specialize (Hfit _ (proj1 (list_elem_of_In _ _) Ht)). cbn in Hfit. rewrite forallb_forall in Hfit.
  specialize (Hfit _ (proj1 (list_elem_of_In _ _) Hs)). cbn in Hfit.
  destruct (lookup2 (msvs_to_msbuild_converters r) tool setting.1) as [c|]; [by exists c|done].
Qed.

(** ** Converting a setting *)

Lemma py_in_strs v l : py_in v (VStr <$> l) = true → ∃ s, s ∈ l ∧ v = VStr s.
Proof.
  unfold py_in. rewrite existsb_exists. intros (w&Hw&Heq). apply list_elem_of_In, list_elem_of_fmap in Hw as (s&->&Hs).
  exists s. split; [done|]. destruct v; cbn in Heq; try done. by apply bool_decide_eq_true in Heq as ->.
Qed.

Lemma dict_set_In {V} (d : list (string * V)) k (v : V) p : p ∈ dict_set d k v → p = (k, v) ∨ p ∈ d.
Proof.
  induction d as [|[k' v'] d IH]; cbn.
  - intros ->%list_elem_of_singleton. by left.
  - case_decide; rewrite !elem_of_cons; [|naive_solver]. intros [->|Hp]; [by left|by right; right].
Qed.

Section registry.
Context (r : registry) (Hfit : tables_fit r = true).

(** Settings that MSBuild accepts without a warning. *)
Definition good settings : Prop := _ValidateSettings (msbuild_validators r) settings = Ok [].

Lemma good_nil : good [].
Proof. done. Qed.

Lemma destination_accepted tool name t v :
  destination r tool name t = true → ValidateMSBuild t v = Ok tt → accepted (msbuild_validators r) tool (name, v).
Proof. intros Hd%bool_decide_eq_true Hv. apply accepted_lookup. by exists (MSBuildValidator t). Qed.

(** [settings.setdefault(tool, {})] and then some assignments. *)
Lemma good_update settings tool (l : list (string * pyval)) :
  good settings → is_Some (dict_get (msbuild_validators r) tool) →
  (∀ p, p ∈ l → accepted (msbuild_validators r) tool p) →
  let '(tool_settings, settings') := dict_setdefault settings tool [] in
  good settings' ∧ good (dict_set settings' tool (dict_update tool_settings l)).
Proof.
  unfold good. rewrite ValidateSettings_silent. intros Hg Ht Hl.
  assert (Hsub : ∀ ts p, p ∈ dict_update ts l → p ∈ ts ∨ p ∈ l).
  { clear. unfold dict_update. induction l as [|[k v] l IH]; intros ts p Hp; [by left|]. cbn in Hp.
    apply IH in Hp as [Hp|Hp]; [|right; by right]. apply dict_set_In in Hp as [->|Hp]; [right; by left|by left]. }
  unfold dict_setdefault. destruct (dict_get settings tool) as [ts|] eqn:Hts; rewrite !ValidateSettings_silent.
  - split; [done|]. intros tool' d [[= -> ->]|Hd]%dict_set_In; [|by apply Hg].
    split; [done|]. intros p [Hp|Hp]%Hsub; [|by apply Hl]. apply dict_get_In in Hts. by apply (Hg _ _ Hts).
  - assert (Hnew : ∀ tool' d, (tool', d) ∈ dict_set settings tool [] → is_Some (dict_get (msbuild_validators r) tool')
      ∧ ∀ p, p ∈ d → accepted (msbuild_validators r) tool' p).
    { intros tool' d [[= -> ->]|Hd]%dict_set_In; [|by apply Hg]. split; [done|]. by intros p Hp%elem_of_nil. }
    split; [done|]. intros tool' d [[= -> ->]|Hd]%dict_set_In; [|by apply Hnew].
    split; [done|]. intros p [Hp|Hp]%Hsub; [by apply elem_of_nil in Hp|by apply Hl].
Qed.

Lemma destination_tool tool name t : destination r tool name t = true → is_Some (dict_get (msbuild_validators r) tool).
Proof. intros Hd%bool_decide_eq_true. apply lookup2_Some in Hd as (vs&Hvs&_). by exists vs. Qed.

Lemma Translate_good tool c setting v settings :
  entry_fits r tool setting c = true → accepted (msvs_validators r) tool (setting, v) → convertible (setting, v) = true →
  good settings → ∃ settings', _Translate c v settings = (settings', Ok tt) ∧ good settings'.
Proof.
  intros Hc (f&Hf&Hv)%accepted_lookup Hconv Hg. unfold entry_fits in Hc. cbn [fst snd] in *. rewrite Hf in Hc.
  destruct f as [t|]; [|done]. cbn [run_validator] in Hv. destruct c as [tool' name' t'| |tool' flag|tool'].
  - rewrite !andb_true_iff in Hc. destruct Hc as [[<-%bool_decide_eq_true Hfits] Hd].
    destruct (convert_typed _ _ _ Hv Hconv Hfits) as (v'&Hv'&Hval). cbn [_Translate]. unfold set_converted. rewrite Hv'.
    pose proof (good_update settings tool' [(name', v')] Hg (destination_tool _ _ _ Hd)) as Hup.
    destruct (dict_setdefault settings tool' []) as [ts settings']. eexists. split; [done|].
    apply Hup. intros p ->%list_elem_of_singleton. by eapply destination_accepted.
  - by exists settings.
  - apply andb_true_iff in Hc as [_ Hd]. cbn [_Translate]. destruct (py_eq v (VStr "true")); [|by exists settings].
    destruct (dict_setdefault settings (msbuild_name tool') []) as [ts settings'] eqn:Hset. eexists. split; [done|].
    match goal with |- good (dict_set _ _ (dict_set ts _ ?w)) =>
      pose proof (good_update settings (msbuild_name tool') [("AdditionalOptions", w)] Hg (destination_tool _ _ _ Hd)) as Hup end.
    rewrite Hset in Hup. apply Hup. intros p ->%list_elem_of_singleton. by eapply destination_accepted.
  - rewrite !andb_true_iff in Hc. destruct Hc as [[Hs%bool_decide_eq_true Hd1] Hd2]. subst setting.
    unfold convertible in Hconv. cbn [fst snd] in Hconv. apply andb_true_iff in Hconv as [_ Hin].
    apply orb_true_iff in Hin as [Hin|Hin]; [done|]. apply py_in_strs in Hin as (n&Hin&->).
    assert (Hgoal : ∀ b1 b2 : bool, let w (b : bool) := VStr (if b then "true" else "false") in
      let '(ts, settings') := dict_setdefault settings (msbuild_name tool') [] in
      good (dict_set settings' (msbuild_name tool') (dict_set (dict_set ts "PreprocessToFile" (w b1)) "PreprocessSuppressLineNumbers" (w b2)))).
    { intros b1 b2 w. pose proof (good_update settings (msbuild_name tool')
        [("PreprocessToFile", w b1); ("PreprocessSuppressLineNumbers", w b2)] Hg (destination_tool _ _ _ Hd1)) as Hup.
      destruct (dict_setdefault settings (msbuild_name tool') []) as [ts settings']. apply Hup.
      intros p Hp. rewrite !elem_of_cons in Hp. destruct Hp as [->|[->|Hp]]; [| |by apply elem_of_nil in Hp].
      - eapply destination_accepted; [exact Hd1|]. by destruct b1.
      - eapply destination_accepted; [exact Hd2|]. by destruct b2. }
    cbn [_Translate]. destruct (dict_setdefault settings (msbuild_name tool') []) as [ts settings'].
    rewrite !elem_of_cons in Hin. destruct Hin as [->|[->|[->|Hin%elem_of_nil]]]; [..|done].
    + eexists. split; [reflexivity|]. apply (Hgoal false false).
    + eexists. split; [reflexivity|]. apply (Hgoal true false).
    + eexists. split; [reflexivity|]. apply (Hgoal true true).
Qed.

Lemma convert_setting_good_step tool convs setting settings :
  dict_get (msvs_to_msbuild_converters r) tool = Some convs →
  accepted (msvs_validators r) tool setting → convertible setting = true → good settings →
  ∃ settings', convert_setting tool convs setting (settings, []) = Ok (settings', []) ∧ good settings'.
Proof.
  intros Ht Hacc Hconv Hg. destruct (accepted_fits _ _ _ Hfit Hacc) as (c&Hc&Hentry).
  apply lookup2_Some in Hc as (convs'&Ht'&Hc). rewrite Ht in Ht'. injection Ht' as <-.
  destruct setting as [setting v]. unfold convert_setting. cbn [fst snd] in *. rewrite Hc.
  destruct (Translate_good _ _ _ _ _ Hentry Hacc Hconv Hg) as (settings'&->&Hg'). by exists settings'.
Qed.

Lemma convert_tool_good tool d settings :
  is_Some (dict_get (msvs_to_msbuild_converters r) tool) →
  (∀ setting, setting ∈ d → accepted (msvs_validators r) tool setting) → forallb convertible d = true → good settings →
  ∃ settings', convert_tool r (tool, d) (settings, []) = Ok (settings', []) ∧ good settings'.
Proof.
  intros [convs Ht] Hacc Hconv Hg. unfold convert_tool. cbn [fst snd]. rewrite Ht. clear -Ht Hacc Hconv Hg Hfit.
  revert settings Hg. induction d as [|setting d IH]; intros settings Hg; [by exists settings|].
  cbn [forallb] in Hconv. apply andb_true_iff in Hconv as [Hc Hconv].
  destruct (convert_setting_good_step _ _ _ _ Ht (Hacc _ (list_elem_of_here _ _)) Hc Hg) as (settings1&Hstep&Hg1).
  cbn [for_each]. rewrite Hstep. cbn [mbind result_bind]. apply IH; [|done|done]. intros. apply Hacc. by right.
Qed.

Lemma convert_all_good settings converted :
  (∀ tool, is_Some (dict_get (msvs_validators r) tool) → is_Some (dict_get (msvs_to_msbuild_converters r) tool)) →
  _ValidateSettings (msvs_validators r) settings = Ok [] →
  forallb (λ tool, forallb convertible tool.2) settings = true → good converted →
  ∃ converted', for_each settings (converted, []) (convert_tool r) = Ok (converted', []) ∧ good converted'.
Proof.
  rewrite ValidateSettings_silent. intros Hdom Hval Hconv. revert converted.
  induction settings as [|[tool d] settings IH]; intros converted Hg; [by exists converted|].
  cbn [forallb snd] in Hconv. apply andb_true_iff in Hconv as [Hc Hconv].
  destruct (Hval tool d) as [Ht Hacc]; [by left|].
  destruct (convert_tool_good tool d converted (Hdom _ Ht) Hacc Hc Hg) as (converted1&Hstep&Hg1).
  cbn [for_each]. rewrite Hstep. cbn [mbind result_bind]. apply IH; [|done|done]. intros. apply Hval. by right.
Qed.
End registry.

Definition domains_agree (r : registry) : bool :=
  forallb (λ p, dict_mem (msvs_to_msbuild_converters r) p.1) (msvs_validators r).

Lemma domains_agree_all : domains_agree tables = true.
Proof. vm_compute. reflexivity. Qed.

Lemma domains_agree_get r tool :
  domains_agree r = true → is_Some (dict_get (msvs_validators r) tool) →
  is_Some (dict_get (msvs_to_msbuild_converters r) tool).
Proof.
  unfold domains_agree. rewrite forallb_forall. intros Hall [vs Ht%dict_get_In].
  specialize (Hall _ (proj1 (list_elem_of_In _ _) Ht)). by apply bool_decide_eq_true in Hall.
Qed.


(** C24: bounds of the settings that are numbers.  An enumeration converts exactly the
    indices from 0 up to the length of its list of labels (no negative index counts from the
    end) that are in use, to their labels; an integer always converts, and what is
    written reads back as the number in base ten, and in base sixteen exactly if the
    number is not negative. *)
Theorem ConvertToMSBuild_bounds value labels new w n :
  (ConvertToMSBuild (_Enumeration labels new) value = Ok w ↔
     ∃ index label, py_int value = Ok index ∧ (0 ≤ index < Z.of_nat (length labels))%Z
       ∧ labels !! Z.to_nat index = Some (Some label) ∧ w = VStr label)
  ∧ ConvertToMSBuild (_Integer 10) (VInt n) = Ok (VStr (str_of_int n)) ∧ py_int_base (VStr (str_of_int n)) 10 = Ok n
  ∧ ∃ s, ConvertToMSBuild (_Integer 16) (VInt n) = Ok (VStr s)
      ∧ py_int_base (VStr s) 16 = if (n <? 0)%Z then Err (int_error 16 s) else Ok n.
Proof.
  split; [apply convert_enumeration_Ok|]. split; [done|]. split.
  { unfold py_int_base, int_of_str. by rewrite read_int_decimal. }
  eexists. split; [done|]. unfold py_int_base, int_of_str, format_integer. cbn [Z.eqb Pos.eqb].
  rewrite chars_app, chars_of_chars. cbn [chars String.list_ascii_of_string app].
  destruct (n <? 0)%Z eqn:Hn; [apply Z.ltb_lt in Hn; by rewrite read_int_hex_negative|].
  apply Z.ltb_ge in Hn. by rewrite read_int_hex.
Qed.
End theorems.

#[export] Instance source_order : MacroOrder := {| macro_order := replace_map; macro_order_perm := reflexivity _ |}.

Definition sample_settings : msettings :=
  [("VCCLCompilerTool", [("WarningLevel", VStr "4"); ("DefaultCharIsUnsigned", VStr "true");
                         ("AdditionalOptions", VList [VStr "/MP"]); ("ObjectFile", VStr "$(IntDir)\$(InputName)")]);
   ("VCResourceCompilerTool", [("Culture", VInt 1033)]); ("VCLinkerTool", [("GenerateManifest", VStr "true")])].


(** The options a flag is added to are overwritten if they come later, and a list of
    options is printed as Python prints it if they came earlier. *)
Example flag_lost :
  ConvertToMSBuildSettings [("VCCLCompilerTool", [("DefaultCharIsUnsigned", VStr "true"); ("AdditionalOptions", VStr "/MP")])]
  = Ok ([("ClCompile", [("AdditionalOptions", VStr "/MP")])], []).
Proof. vm_compute. reflexivity. Qed.
Example flag_after_list :
  ConvertToMSBuildSettings [("VCCLCompilerTool", [("AdditionalOptions", VList [VStr "/MP"]); ("DefaultCharIsUnsigned", VStr "true")])]
  = Ok ([("ClCompile", [("AdditionalOptions", VStr "['/MP'] /J")])], []).
Proof. vm_compute. reflexivity. Qed.
