(* ===== verification/MSVSUtil.v ===== *)
(** * Sharding and shims for Visual Studio

    tools/gyp/pylib/gyp/MSVSUtil.py: [ShardTargets] splits targets that are too big for
    the linker into several, and [InsertLargePdbShims] adds targets that make the linker
    write program databases with large pages.  The path of the source of the shim,
    which depends on where gyp is installed, is a parameter.

    [ShardTargets] puts the dictionary of a target it does not shard itself into its
    result and changes its dependencies there; the model has the result. *)
From S2P Require Import Prelude PyDict PyStr PyPath PyVal PyNum.
From Stdlib Require Import Ascii.

Abbreviation targets := (list (string * pydict)).

Definition _TARGET_TYPE_EXT : list (string * string) :=
  [("executable", ".exe"); ("loadable_module", ".dll"); ("shared_library", ".dll")].

(** The copies of the values are values of their own in any case. *)
Definition _DeepCopySomeKeys (in_dict : pydict) (keys : list string) : pydict :=
  foldl (λ d key, match dict_get in_dict key with Some v => dict_set d key v | None => d end) [] keys.

Definition _SuffixName (name suffix : string) : string :=
  match str_rsplit1 "#" name with
  | Some (part0, part1) => part0 +:+ "_" +:+ suffix +:+ "#" +:+ part1
  | None => name +:+ "_" +:+ suffix
  end.
Definition _ShardName (name : string) (number : nat) : string := _SuffixName name (str_of_int (Z.of_nat number)).

(** ** ShardTargets *)

Definition shard_count (target : string * pydict) : result (list (string * nat)) :=
  shards ← py_int (dict_get_default target.2 "msvs_shard" (VInt 0));
  Ok (if negb (shards =? 0)%Z then [(target.1, Z.to_nat shards)] else []).

(** [targets_to_shard]; [range] of a negative number is empty. *)
Definition gather_shards (target_dicts : targets) : result (list (string * nat)) :=
  found ← map_result shard_count target_dicts; Ok (concat found).

Definition shard_names (targets_to_shard : list (string * nat)) (t : string) : list string :=
  match dict_get targets_to_shard t with
  | Some n => _ShardName t <$> seq 0 n
  | None => [t]
  end.

(** [range(i, stop, step)] for a positive step *)
Definition range_step (i stop step : nat) : list nat :=
  filter (λ pos, pos < stop) ((λ k, i + k * step) <$> seq 0 stop).
(** [[l[pos] for pos in range(i, len(l), n)]] *)
Definition every_nth {A} (i n : nat) (l : list A) : list A :=
  omap (λ pos, l !! pos) (range_step i (length l) n).

Definition shard_dict (t : string) (target_dict : pydict) (n i : nat) : result pydict :=
  target_name ← (v ← dict_index target_dict "target_name"; as_str v);
  let shard := dict_set target_dict "target_name" (VStr (_ShardName target_name i)) in
  sources ← as_list (dict_get_default shard "sources" (VList []));
  Ok (dict_set shard "sources" (VList (every_nth i n sources))).

Definition shard_target (targets_to_shard : list (string * nat)) (target : string * pydict) (new_target_dicts : targets) :
    result targets :=
  match dict_get targets_to_shard target.1 with
  | Some n =>
      for_each (seq 0 n) new_target_dicts (λ i new_target_dicts,
        shard ← shard_dict target.1 target.2 n i;
        Ok (dict_set new_target_dicts (_ShardName target.1 i) shard))
  | None => Ok (dict_set new_target_dicts target.1 target.2)
  end.

Definition shard_dependencies (targets_to_shard : list (string * nat)) (target : string * pydict) :
    result (string * pydict) :=
  dependencies ← get_strs target.2 "dependencies";
  Ok (target.1, dict_set target.2 "dependencies" (VList (VStr <$> concat (shard_names targets_to_shard <$> dependencies)))).

Definition ShardTargets (target_list : list string) (target_dicts : targets) : result (list string * targets) :=
  targets_to_shard ← gather_shards target_dicts;
  let new_target_list := concat (shard_names targets_to_shard <$> target_list) in
  new_target_dicts ← for_each target_dicts [] (shard_target targets_to_shard);
  new_target_dicts ← map_result (shard_dependencies targets_to_shard) new_target_dicts;
  Ok (new_target_list, new_target_dicts).

(** ** InsertLargePdbShims *)

(** [f] on the dictionary [d.setdefault(key, {})], in place. *)
Definition update_sub (d : pydict) (key : string) (f : pydict → result pydict) : result pydict :=
  let '(v, d) := dict_setdefault d key (VDict []) in
  sub ← as_dict v; sub ← f sub; Ok (dict_set d key (VDict sub)).
Definition sub_dict (d : pydict) (key : string) : result pydict := v ← dict_index d key; as_dict v.

(** [target_dict['configurations'][config_name]], and the same with [f] done to it. *)
Definition config_of (target_dict : pydict) (config_name : string) : result pydict :=
  configurations ← sub_dict target_dict "configurations"; sub_dict configurations config_name.
Definition update_config (target_dict : pydict) (config_name : string) (f : pydict → result pydict) : result pydict :=
  configurations ← sub_dict target_dict "configurations";
  config ← sub_dict configurations config_name;
  config ← f config;
  Ok (dict_set target_dict "configurations" (VDict (dict_set configurations config_name (VDict config)))).

Section shims.
Context (large_pdb_shim_cc : string).
Implicit Types (vars target_dict : pydict) (config_name : string).

Definition truthy_get (d : pydict) (key : string) : option pyval :=
  match dict_get d key with Some v => if truthy v then Some v else None | None => None end.

(** The path, where none is set explicitly. *)
Definition default_pdb_path target_dict vars : result pyval :=
  target_name ← dict_index target_dict "target_name";
  let pdb_base := py_str (dict_get_default target_dict "product_name" target_name) in
  type ← dict_index target_dict "type";
  ext ← match type with
    | VStr type => match dict_get _TARGET_TYPE_EXT type with Some ext => Ok ext | None => Err (KeyError type) end
    | VInt n => Err (KeyError (str_of_int n))
    | v => Err (TypeError ("unhashable type: '" +:+ class_name v +:+ "'"))
    end;
  product_dir ← (v ← dict_index vars "PRODUCT_DIR"; as_str v);
  Ok (VStr (product_dir +:+ "/" +:+ pdb_base +:+ ext +:+ ".pdb")).

(** The target has empty [msvs_settings] afterwards if it had none. *)
Definition _GetPdbPath target_dict config_name vars : result (pyval * pydict) :=
  target_dict ← update_config target_dict config_name (λ config, update_sub config "msvs_settings" Ok);
  config ← config_of target_dict config_name;
  msvs ← sub_dict config "msvs_settings";
  linker ← as_dict (dict_get_default msvs "VCLinkerTool" (VDict []));
  match truthy_get linker "ProgramDatabaseFile" with
  | Some pdb_path => Ok (pdb_path, target_dict)
  | None =>
      variables ← as_dict (dict_get_default target_dict "variables" (VDict []));
      match truthy_get variables "msvs_large_pdb_path" with
      | Some pdb_path => Ok (pdb_path, target_dict)
      | None => pdb_path ← default_pdb_path target_dict vars; Ok (pdb_path, target_dict)
      end
  end.

Definition not_propagated : list string := ["msvs_precompiled_header"; "msvs_precompiled_source"; "test"].

(** The body of the loop over the configurations of the shim. *)
Definition shim_config vars (item : string * pyval) (st : pydict * pydict) : result (pydict * pydict) :=
  let '(configurations, target_dict) := st in
  let '(config_name, config) := item in
  '(pdb_path, target_dict) ← _GetPdbPath target_dict config_name vars;
  config ← as_dict config;
  let config := foldl dict_del config not_propagated in
  config ← update_sub config "msvs_settings" (λ msvs, update_sub msvs "VCCLCompilerTool" (λ compiler,
    Ok (dict_set (dict_set compiler "DebugInformationFormat" (VStr "3")) "ProgramDataBaseFileName" pdb_path)));
  target_dict ← update_config target_dict config_name (λ config,
    update_sub config "msvs_settings" (λ msvs, update_sub msvs "VCLinkerTool" (λ linker,
      Ok (dict_set (dict_set linker "GenerateDebugInformation" (VStr "true")) "ProgramDatabaseFile" pdb_path))));
  Ok (dict_set configurations config_name (VDict config), target_dict).

Definition copy_dict (base_dict : pydict) (copy_target_name shim_cc_dir : string) : pydict :=
  foldl (λ d p, dict_set d p.1 p.2) base_dict
    [("target_name", VStr copy_target_name); ("type", VStr "none"); ("sources", VList [VStr large_pdb_shim_cc]);
     ("copies", VList [VDict [("destination", VStr shim_cc_dir); ("files", VList [VStr large_pdb_shim_cc])]])].
Definition shim_dict (base_dict : pydict) (shim_target_name shim_cc_path full_copy_target_name : string) : pydict :=
  foldl (λ d p, dict_set d p.1 p.2) base_dict
    [("target_name", VStr shim_target_name); ("type", VStr "static_library"); ("sources", VList [VStr shim_cc_path]);
     ("dependencies", VList [VStr full_copy_target_name])].

(** The body of the loop over the targets. *)
Definition insert_shim vars (t : string) (st : list string * targets) : result (list string * targets) :=
  let '(target_list, target_dicts) := st in
  target_dict ← match dict_get target_dicts t with Some d => Ok d | None => Err (KeyError t) end;
  target_name ← match dict_get target_dict "target_name" with
    | Some v => as_str v
    | None => Err (TypeError "unsupported operand type(s) for +: 'NoneType' and 'str'")
    end;
  let base_dict := _DeepCopySomeKeys target_dict ["configurations"; "default_configuration"; "toolset"] in
  let copy_target_name := target_name +:+ "_" +:+ "large_pdb_copy" in
  let full_copy_target_name := _SuffixName t "large_pdb_copy" in
  shared_dir ← (v ← dict_index vars "SHARED_INTERMEDIATE_DIR"; as_str v);
  let shim_cc_dir := shared_dir +:+ "/" +:+ copy_target_name in
  let shim_cc_path := shim_cc_dir +:+ "/" +:+ of_chars (p_basename (chars large_pdb_shim_cc)) in
  let copy := copy_dict base_dict copy_target_name shim_cc_dir in
  let full_shim_target_name := _SuffixName t "large_pdb_shim" in
  let shim := shim_dict base_dict (target_name +:+ "_" +:+ "large_pdb_shim") shim_cc_path full_copy_target_name in
  configurations ← match dict_get shim "configurations" with
    | Some v => as_dict v
    | None => Err (AttributeError "iteritems")
    end;
  '(configurations, target_dict) ← for_each configurations (configurations, target_dict) (shim_config vars);
  let shim := dict_set shim "configurations" (VDict configurations) in
  let target_list := full_shim_target_name :: full_copy_target_name :: target_list in
  let target_dicts := dict_set (dict_set (dict_set target_dicts t target_dict) full_copy_target_name copy)
                        full_shim_target_name shim in
  dependencies ← as_list (dict_get_default target_dict "dependencies" (VList []));
  let target_dict := dict_set target_dict "dependencies" (VList (dependencies ++ [VStr full_shim_target_name])) in
  Ok (target_list, dict_set target_dicts t target_dict).

Definition wants_shim (target : string * pydict) : result (list string) :=
  n ← py_int (dict_get_default target.2 "msvs_large_pdb" (VInt 0)); Ok (if negb (n =? 0)%Z then [target.1] else []).

Definition InsertLargePdbShims (target_list : list string) (target_dicts : targets) vars :
    result (list string * targets) :=
  targets_to_shim ← map_result wants_shim target_dicts;
  for_each (concat targets_to_shim) (target_list, target_dicts) (insert_shim vars).
End shims.

(** * Theorems *)

(** ** Partition of the sources *)

Lemma elem_of_range_step i stop step pos :
  0 < step → pos ∈ range_step i stop step ↔ pos < stop ∧ ∃ k, pos = i + k * step.
Proof.
  intros Hstep. unfold range_step. rewrite list_elem_of_filter, list_elem_of_fmap. split.
  - intros [Hp (k&->&_)]. split; [done|by exists k].
  - intros [Hp [k ->]]. split; [done|]. exists k. split; [done|]. apply elem_of_seq. nia.
Qed.

Lemma NoDup_range_step i stop step : 0 < step → NoDup (range_step i stop step).
Proof.
  intros Hstep. unfold range_step. apply NoDup_filter, NoDup_fmap_2_strong; [|apply NoDup_seq]. intros x y _ _ Heq. nia.
Qed.

Lemma NoDup_concat_fmap {A B} (f : A → list B) (l : list A) :
  NoDup l → (∀ x, x ∈ l → NoDup (f x)) → (∀ x y z, x ∈ l → y ∈ l → z ∈ f x → z ∈ f y → x = y) →
  NoDup (concat (f <$> l)).
Proof.
  induction 1 as [|x l Hx Hl IH]; intros Hf Hd; [constructor|]. cbn. apply NoDup_app. split_and!.
  - apply Hf. by left.
  - intros z Hz Hz'. apply elem_of_concat in Hz' as (l'&Hz'&(y&->&Hy)%list_elem_of_fmap).
    assert (x = y) as -> by (eapply Hd; [by left|by right|done|done]). done.
  - apply IH; [intros; apply Hf; by right|]. intros y y' z Hy Hy'. apply Hd; by right.
Qed.

Lemma range_steps_partition stop n : 0 < n → concat ((λ i, range_step i stop n) <$> seq 0 n) ≡ₚ seq 0 stop.
Proof.
  intros Hn. apply NoDup_Permutation.
  - apply NoDup_concat_fmap; [apply NoDup_seq|intros; by apply NoDup_range_step|].
    intros x y z Hx Hy. rewrite elem_of_seq in Hx, Hy. rewrite !elem_of_range_step by done.
    intros [_ [k ->]] [_ [k' Heq]]. assert (k = k') by nia. nia.
  - apply NoDup_seq.
  - intros pos. rewrite elem_of_concat. setoid_rewrite list_elem_of_fmap. rewrite elem_of_seq. split.
    + intros (l&Hpos&(i&->&Hi)). apply elem_of_range_step in Hpos as [? _]; lia.
    + intros Hpos. exists (range_step (pos mod n) stop n). split.
      * apply elem_of_range_step; [done|]. split; [lia|]. exists (pos / n). pose proof (Nat.div_mod_eq pos n). lia.
      * exists (pos mod n). split; [done|]. apply elem_of_seq. pose proof (Nat.mod_upper_bound pos n). lia.
Qed.

Lemma omap_seq_all {A} (l : list A) : omap (λ pos, l !! pos) (seq 0 (length l)) = l.
Proof.
  induction l as [|x l IH]; [done|]. cbn. f_equal. etrans; [|exact IH]. rewrite <- fmap_S_seq.
  generalize (seq 0 (length l)). intros ps. induction ps as [|p ps IHp]; [done|]. cbn. destruct (l !! p); by rewrite IHp.
Qed.

(** The shards have all of the list between them. *)
Lemma every_nth_partition {A} n (l : list A) : 0 < n → concat ((λ i, every_nth i n l) <$> seq 0 n) ≡ₚ l.
Proof.
  intros Hn. etrans; [|apply reflexive_eq, (omap_seq_all l)]. rewrite <- (range_steps_partition (length l) n Hn).
  unfold every_nth. generalize (seq 0 n). intros ks. induction ks as [|i ks IH]; [done|].
  cbn. rewrite omap_app. by rewrite IH.
Qed.

(** ** The dictionary of the shards *)

Lemma dict_set_fresh {V} (d : list (string * V)) k (v : V) : k ∉ d.*1 → dict_set d k v = d ++ [(k, v)].
Proof.
  induction d as [|[k' v'] d IH]; [done|]. cbn. rewrite not_elem_of_cons. intros [Hne Hk].
  rewrite decide_False by congruence. by rewrite IH.
Qed.

(** The loop that adds the shards of one target. *)
Lemma add_shards_spec t target_dict n ks acc new :
  for_each ks acc (λ i acc, shard ← shard_dict t target_dict n i; Ok (dict_set acc (_ShardName t i) shard)) = Ok new →
  NoDup (acc.*1 ++ (_ShardName t <$> ks)) →
  ∃ shards, new = acc ++ shards ∧ Forall2 (λ i p, p.1 = _ShardName t i ∧ shard_dict t target_dict n i = Ok p.2) ks shards.
Proof.
  revert acc. induction ks as [|i ks IH]; intros acc Hl Hnd; cbn in Hl.
  - injection Hl as <-. exists []. by rewrite app_nil_r.
  - apply bind_Ok in Hl as (acc1&Hi&Hl). apply bind_Ok in Hi as (shard&Hshard&[= <-]).
    cbn [fmap list_fmap] in Hnd. assert (_ShardName t i ∉ acc.*1) as Hfresh.
    { rewrite <- Permutation_middle, NoDup_cons, elem_of_app in Hnd. tauto. }
    rewrite dict_set_fresh in Hl by done. apply IH in Hl as (shards&->&Hs).
    + exists ((_ShardName t i, shard) :: shards). split; [by rewrite <- app_assoc|]. constructor; done.
    + rewrite fmap_app. cbn. by rewrite <- app_assoc.
Qed.

(** What [shard_target] adds for a target. *)
Definition pieces (targets_to_shard : list (string * nat)) (target : string * pydict) (l : targets) : Prop :=
  match dict_get targets_to_shard target.1 with
  | Some n => Forall2 (λ i p, p.1 = _ShardName target.1 i ∧ shard_dict target.1 target.2 n i = Ok p.2) (seq 0 n) l
  | None => l = [target]
  end.

Lemma pieces_keys tts target l : pieces tts target l → l.*1 = shard_names tts target.1.
Proof.
  unfold pieces, shard_names. destruct (dict_get tts target.1); [|by intros ->].
  induction 1 as [|i p ks l [Hp _] _ IH]; [done|]. cbn. by rewrite Hp, IH.
Qed.

Lemma shard_targets_spec tts target_dicts acc new :
  for_each target_dicts acc (shard_target tts) = Ok new →
  NoDup (acc.*1 ++ concat (shard_names tts <$> target_dicts.*1)) →
  ∃ ls, new = acc ++ concat ls ∧ Forall2 (pieces tts) target_dicts ls.
Proof.
  revert acc. induction target_dicts as [|[t d] target_dicts IH]; intros acc Hl Hnd; cbn in Hl.
  - injection Hl as <-. exists []. by rewrite app_nil_r.
  - apply bind_Ok in Hl as (acc1&Ht&Hl). cbn [fmap list_fmap concat] in Hnd. cbn in Hnd.
    assert (∃ l, acc1 = acc ++ l ∧ pieces tts (t, d) l) as (l&->&Hp).
    { unfold shard_target in Ht. unfold pieces. unfold shard_names at 1 in Hnd. cbn [fst snd] in *.
      destruct (dict_get tts t) as [n|].
      - eapply add_shards_spec; [exact Ht|]. rewrite app_assoc in Hnd. by apply NoDup_app in Hnd as (?&_).
      - injection Ht as <-. exists [(t, d)]. split; [|done]. apply dict_set_fresh.
        cbn in Hnd. rewrite <- Permutation_middle, NoDup_cons, elem_of_app in Hnd. tauto. }
    apply IH in Hl as (ls&->&Hls).
    + exists (l :: ls). cbn. split; [by rewrite <- app_assoc|]. by constructor.
    + rewrite fmap_app, (pieces_keys _ _ _ Hp). by rewrite <- app_assoc.
Qed.

Lemma shard_dependencies_keys tts (l l' : targets) : map_result (shard_dependencies tts) l = Ok l' → l'.*1 = l.*1.
Proof.
  intros Hl%map_result_Ok. induction Hl as [|p p' l l' Hp _ IH]; [done|]. cbn. rewrite IH. f_equal.
  unfold shard_dependencies in Hp. inv_ok. done.
Qed.

Lemma concat_pieces_keys tts target_dicts ls :
  Forall2 (pieces tts) target_dicts ls → (concat ls).*1 = concat (shard_names tts <$> target_dicts.*1).
Proof.
  induction 1 as [|t l ts ls Ht _ IH]; [done|]. cbn. rewrite fmap_app, IH. by rewrite (pieces_keys _ _ _ Ht).
Qed.

(** A target whose dependencies are the shards of [dependencies]. *)
Definition with_dependencies (shards : list (string * nat)) (dependencies : list string) (d : pydict) : pydict :=
  dict_set d "dependencies" (VList (VStr <$> concat (shard_names shards <$> dependencies))).
(** The [i]th of [n] shards of a target, before its dependencies are sharded. *)
Definition shard_of (name : string) (sources : list pyval) (i n : nat) (d : pydict) : pydict :=
  dict_set (dict_set d "target_name" (VStr (_ShardName name i))) "sources" (VList (every_nth i n sources)).

Lemma shard_dict_Ok t d n i shard :
  shard_dict t d n i = Ok shard →
  ∃ name sources, dict_get d "target_name" = Some (VStr name) ∧ dict_get_default d "sources" (VList []) = VList sources
    ∧ shard = shard_of name sources i n d.
Proof.
  unfold shard_dict. intros Hs. apply bind_Ok in Hs as (name&Hname&Hs). apply bind_Ok in Hname as (v&Hv&Hname).
  unfold dict_index in Hv. destruct (dict_get d "target_name") as [v'|]; [|done]. injection Hv as ->.
  destruct v as [name'| | |]; try done. injection Hname as ->.
  apply bind_Ok in Hs as (sources&Hsources&[= <-]). unfold dict_get_default in *. rewrite dict_get_set in Hsources.
  rewrite decide_False in Hsources by done. exists name, sources. split_and!; [done| |done].
  by destruct (default (VList []) (dict_get d "sources")); simplify_eq/=.
Qed.

Lemma shard_dependencies_Ok tts t d p :
  shard_dependencies tts (t, d) = Ok p →
  ∃ dependencies, get_strs d "dependencies" = Ok dependencies ∧ p = (t, with_dependencies tts dependencies d).
Proof. unfold shard_dependencies. cbn [fst snd]. intros (deps&Hd&[= <-])%bind_Ok. by exists deps. Qed.

Lemma get_strs_shard_of name sources i n d : get_strs (shard_of name sources i n d) "dependencies" = get_strs d "dependencies".
Proof.
  unfold get_strs, dict_get_default, shard_of. by rewrite !dict_get_set, !decide_False.
Qed.

(** Sharding.  A target with a number of shards stands for its shards in the list of the
    targets, in the dictionary and in every list of dependencies; each shard is a
    copy of the target with a name of its own and its share of the sources, the shares are a
    partition of the sources, and nothing else is changed; provided that the names of
    the shards are not those of other targets. *)
Theorem ShardTargets_correct target_list target_dicts new_list new_dicts shards :
  ShardTargets target_list target_dicts = Ok (new_list, new_dicts) → gather_shards target_dicts = Ok shards →
  NoDup (concat (shard_names shards <$> dict_keys target_dicts)) →
  new_list = concat (shard_names shards <$> target_list)
  ∧ dict_keys new_dicts = concat (shard_names shards <$> dict_keys target_dicts)
  ∧ ∀ t d, (t, d) ∈ target_dicts →
    (dict_get shards t = None →
       ∃ dependencies, get_strs d "dependencies" = Ok dependencies
         ∧ dict_get new_dicts t = Some (with_dependencies shards dependencies d))
    ∧ (∀ n, dict_get shards t = Some n → 0 < n →
       ∃ name sources dependencies, dict_get d "target_name" = Some (VStr name)
         ∧ dict_get_default d "sources" (VList []) = VList sources ∧ get_strs d "dependencies" = Ok dependencies
         ∧ (∀ i, i < n → dict_get new_dicts (_ShardName t i)
              = Some (with_dependencies shards dependencies (shard_of name sources i n d)))
         ∧ concat ((λ i, every_nth i n sources) <$> seq 0 n) ≡ₚ sources).
Proof.
  unfold ShardTargets. intros Hrun Hshards Hnd. rewrite Hshards in Hrun. cbn [mbind result_bind] in Hrun.
  apply bind_Ok in Hrun as (dicts1&Hloop&Hrun). apply bind_Ok in Hrun as (dicts2&Hdeps&[= <- <-]).
  apply shard_targets_spec in Hloop as (ls&->&Hpieces); [|exact Hnd]. cbn [app] in Hdeps.
  pose proof (concat_pieces_keys _ _ _ Hpieces) as Hkeys. pose proof (shard_dependencies_keys _ _ _ Hdeps) as Hkeys2.
  apply map_result_Ok in Hdeps. split; [done|]. split; [unfold dict_keys; by rewrite Hkeys2, Hkeys|].
  assert (Hwf : dict_wf dicts2) by (unfold dict_wf, dict_keys in *; by rewrite Hkeys2, Hkeys).
  assert (Hget : ∀ t d, (t, d) ∈ concat ls → ∃ dependencies, get_strs d "dependencies" = Ok dependencies
    ∧ dict_get dicts2 t = Some (with_dependencies shards dependencies d)).
  { intros t d [k Hk]%list_elem_of_lookup. destruct (Forall2_lookup_l _ _ _ _ _ Hdeps Hk) as (p&Hp&Hrel).
    apply shard_dependencies_Ok in Hrel as (deps&Hd&->). exists deps. split; [done|].
    apply dict_In_get; [done|]. by eapply list_elem_of_lookup_2. }
  intros t d [k Hk]%list_elem_of_lookup. destruct (Forall2_lookup_l _ _ _ _ _ Hpieces Hk) as (l&Hl&Hpiece).
  assert (Hin : ∀ p, p ∈ l → p ∈ concat ls).
  { intros p Hp. apply elem_of_concat. exists l. split; [done|]. by eapply list_elem_of_lookup_2. }
  unfold pieces in Hpiece. cbn [fst snd] in Hpiece. split.
  - intros Hnone. rewrite Hnone in Hpiece. subst l. apply Hget, Hin. by left.
  - intros n Hn Hpos. rewrite Hn in Hpiece.
    assert (Hshard : ∀ i, i < n → ∃ shard, (_ShardName t i, shard) ∈ l ∧ shard_dict t d n i = Ok shard).
    { intros i Hi. destruct (Forall2_lookup_l _ _ _ i i Hpiece) as ([k' shard]&Hp&Hk'&Hs); [by apply lookup_seq|].
      cbn in *. subst k'. exists shard. split; [by eapply list_elem_of_lookup_2|done]. }
    destruct (Hshard 0 Hpos) as (s0&Hs0&Hd0). apply shard_dict_Ok in Hd0 as (name&sources&Hname&Hsources&->).
    destruct (Hget _ _ (Hin _ Hs0)) as (deps&Hd&_). rewrite get_strs_shard_of in Hd.
    exists name, sources, deps. split_and!; [done..| |by apply every_nth_partition].
    intros i Hi. destruct (Hshard i Hi) as (si&Hsi&Hdi). apply shard_dict_Ok in Hdi as (name'&sources'&Hname'&Hsources'&->).
    rewrite Hname in Hname'. rewrite Hsources in Hsources'. simplify_eq.
    destruct (Hget _ _ (Hin _ Hsi)) as (deps'&Hd'&->). rewrite get_strs_shard_of, Hd in Hd'. by injection Hd' as <-.
Qed.

Definition sample_targets : targets :=
  [("a.gyp:base#target", [("target_name", VStr "base"); ("msvs_shard", VStr "2");
                          ("sources", VList [VStr "1.c"; VStr "2.c"; VStr "3.c"])]);
   ("a.gyp:app#target", [("target_name", VStr "app"); ("dependencies", VList [VStr "a.gyp:base#target"])])].

Lemma ShardTargets_correct_witness :
  gather_shards sample_targets = Ok [("a.gyp:base#target", 2)]
  ∧ ∃ new_list new_dicts, ShardTargets (sample_targets.*1) sample_targets = Ok (new_list, new_dicts)
    ∧ new_list = ["a.gyp:base_0#target"; "a.gyp:base_1#target"; "a.gyp:app#target"].
Proof.
  split; [vm_compute; reflexivity|]. eexists _, _. split; [vm_compute; reflexivity|].
  refine (proj1 (ShardTargets_correct (sample_targets.*1) sample_targets _ _ [("a.gyp:base#target", 2)] _ _ _)).
  - vm_compute. reflexivity.
  - vm_compute. reflexivity.
  - apply (bool_decide_unpack _). vm_compute. exact I.
Defined.

(** ** The shims *)

Lemma update_sub_Ok d key f d' :
  update_sub d key f = Ok d' →
  ∃ sub sub', f sub = Ok sub' ∧ dict_get d' key = Some (VDict sub') ∧ ∀ k, k ≠ key → dict_get d' k = dict_get d k.
Proof.
  unfold update_sub, dict_setdefault. intros Hu. destruct (dict_get d key) as [v|] eqn:Hk.
  - apply bind_Ok in Hu as (sub&_&Hu). apply bind_Ok in Hu as (sub'&Hf&[= <-]). exists sub, sub'.
    split_and!; [done|by rewrite dict_get_set, decide_True|]. intros k Hne. by rewrite dict_get_set, decide_False by congruence.
  - apply bind_Ok in Hu as (sub&[= <-]&Hu). apply bind_Ok in Hu as (sub'&Hf&[= <-]). exists [], sub'.
    split_and!; [done|by rewrite dict_get_set, decide_True|]. intros k Hne.
    by rewrite !dict_get_set, !decide_False by congruence.
Qed.

Lemma sub_dict_set d k sub : sub_dict (dict_set d k (VDict sub)) k = Ok sub.
Proof. unfold sub_dict, dict_index. by rewrite dict_get_set, decide_True. Qed.
Lemma sub_dict_get d k sub : dict_get d k = Some (VDict sub) → sub_dict d k = Ok sub.
Proof. unfold sub_dict, dict_index. by intros ->. Qed.
Lemma sub_dict_set_ne d k k' v : k ≠ k' → sub_dict (dict_set d k v) k' = sub_dict d k'.
Proof. intros Hne. unfold sub_dict, dict_index. by rewrite dict_get_set, decide_False. Qed.

Lemma update_config_Ok target_dict c f target_dict' :
  update_config target_dict c f = Ok target_dict' →
  ∃ config config', f config = Ok config' ∧ config_of target_dict' c = Ok config'
    ∧ (∀ c', c' ≠ c → config_of target_dict' c' = config_of target_dict c')
    ∧ ∀ k, k ≠ "configurations" → dict_get target_dict' k = dict_get target_dict k.
Proof.
  unfold update_config, config_of. intros (cs&Hcs&Hu)%bind_Ok. apply bind_Ok in Hu as (config&Hc&Hu).
  apply bind_Ok in Hu as (config'&Hf&[= <-]). exists config, config'. rewrite sub_dict_set, Hcs. cbn [mbind result_bind].
  split_and!; [done|apply sub_dict_set|intros c' Hne; by apply sub_dict_set_ne|].
  intros k Hk. by rewrite dict_get_set, decide_False by congruence.
Qed.

Lemma GetPdbPath_Ok target_dict c vars path target_dict' :
  _GetPdbPath target_dict c vars = Ok (path, target_dict') →
  (∀ c', c' ≠ c → config_of target_dict' c' = config_of target_dict c')
  ∧ ∀ k, k ≠ "configurations" → dict_get target_dict' k = dict_get target_dict k.
Proof.
  unfold _GetPdbPath. intros (td&Htd&Hp)%bind_Ok. apply update_config_Ok in Htd as (?&?&_&_&Hc&Hk).
  assert (td = target_dict') as ->; [|by split].
  repeat match goal with
  | H : (_ ≫= _) = Ok _ |- _ => apply bind_Ok in H as (?&_&H)
  | H : match ?x with _ => _ end = Ok _ |- _ => destruct x
  | H : Ok _ = Ok _ |- _ => by injection H as _ ->
  end.
Qed.

(** Where the shim and the target have the path of the program database. *)
Definition compiler_pdb (configurations : pydict) (c : string) : result pyval :=
  config ← sub_dict configurations c; msvs ← sub_dict config "msvs_settings";
  compiler ← sub_dict msvs "VCCLCompilerTool"; dict_index compiler "ProgramDataBaseFileName".
Definition linker_pdb (target_dict : pydict) (c : string) : result pyval :=
  config ← config_of target_dict c; msvs ← sub_dict config "msvs_settings";
  linker ← sub_dict msvs "VCLinkerTool"; dict_index linker "ProgramDatabaseFile".

Lemma shim_config_Ok vars c config configurations target_dict configurations' target_dict' :
  shim_config vars (c, config) (configurations, target_dict) = Ok (configurations', target_dict') →
  (∃ path, compiler_pdb configurations' c = Ok path ∧ linker_pdb target_dict' c = Ok path)
  ∧ dict_keys configurations' = dict_keys (dict_set configurations c config)
  ∧ (∀ c', c' ≠ c → compiler_pdb configurations' c' = compiler_pdb configurations c'
                    ∧ linker_pdb target_dict' c' = linker_pdb target_dict c')
  ∧ ∀ k, k ≠ "configurations" → dict_get target_dict' k = dict_get target_dict k.
Proof.
  unfold shim_config. intros ([path td]&Hpath&Hs)%bind_Ok. apply GetPdbPath_Ok in Hpath as [Hc1 Hk1].
  apply bind_Ok in Hs as (config0&_&Hs). apply bind_Ok in Hs as (config1&Hconfig&Hs).
  apply bind_Ok in Hs as (td'&Htd&[= <- <-]).
  apply update_sub_Ok in Hconfig as (m&m'&Hm&Hcm&_). apply update_sub_Ok in Hm as (x&x'&[= <-]&Hmx&_).
  apply update_config_Ok in Htd as (g&g'&Hg&Hcg&Hc2&Hk2).
  apply update_sub_Ok in Hg as (n&n'&Hn&Hgn&_). apply update_sub_Ok in Hn as (y&y'&[= <-]&Hny&_). split_and!.
  - exists path. unfold compiler_pdb, linker_pdb. rewrite sub_dict_set, Hcg. cbn [mbind result_bind].
    rewrite (sub_dict_get _ _ _ Hcm), (sub_dict_get _ _ _ Hgn). cbn [mbind result_bind].
    rewrite (sub_dict_get _ _ _ Hmx), (sub_dict_get _ _ _ Hny). cbn [mbind result_bind].
    unfold dict_index. by rewrite !dict_get_set, !decide_True.
  - by rewrite !dict_keys_set.
  - intros c' Hne. unfold compiler_pdb, linker_pdb. rewrite sub_dict_set_ne by congruence. by rewrite Hc2, Hc1.
  - intros k Hk. by rewrite Hk2, Hk1.
Qed.

Lemma shim_configs_Ok vars items configurations target_dict configurations' target_dict' :
  for_each items (configurations, target_dict) (shim_config vars) = Ok (configurations', target_dict') →
  NoDup items.*1 → (∀ c, c ∈ items.*1 → c ∈ dict_keys configurations) →
  (∀ c, c ∈ items.*1 → ∃ path, compiler_pdb configurations' c = Ok path ∧ linker_pdb target_dict' c = Ok path)
  ∧ dict_keys configurations' = dict_keys configurations
  ∧ (∀ c, c ∉ items.*1 → compiler_pdb configurations' c = compiler_pdb configurations c
                    ∧ linker_pdb target_dict' c = linker_pdb target_dict c)
  ∧ ∀ k, k ≠ "configurations" → dict_get target_dict' k = dict_get target_dict k.
Proof.
  revert configurations target_dict. induction items as [|[c config] items IH]; intros configurations target_dict Hl Hnd Hin.
  - injection Hl as <- <-. split_and!; [by intros c Hc%elem_of_nil|done..].
  - cbn in Hl. apply bind_Ok in Hl as ([cs1 td1]&Hstep&Hl). apply shim_config_Ok in Hstep as (Hpath&Hkeys&Hc&Hk).
    cbn [fmap list_fmap fst] in Hnd, Hin. apply NoDup_cons in Hnd as [Hnin Hnd].
    assert (dict_keys cs1 = dict_keys configurations) as Hkeys1.
    { rewrite Hkeys, dict_keys_set, decide_True; [done|]. apply Hin. by left. }
    apply IH in Hl as (Hpaths&Hkeys2&Hc2&Hk2); [|done|].
    + split_and!.
      * cbn [fmap list_fmap fst]. intros c' [->|Hc']%elem_of_cons; [|by apply Hpaths].
        destruct (Hc2 _ Hnin) as [-> ->]. done.
      * by rewrite Hkeys2.
      * cbn [fmap list_fmap fst]. intros c' [Hne Hc']%not_elem_of_cons. destruct (Hc2 _ Hc') as [-> ->]. by apply Hc.
      * intros k Hne. by rewrite Hk2, Hk.
    + intros c' Hc'. rewrite Hkeys1. apply Hin. by right.
Qed.

Lemma dict_keys_set_in {V} (d : list (string * V)) k (v : V) : k ∈ dict_keys d → dict_keys (dict_set d k v) = dict_keys d.
Proof. intros Hk. by rewrite dict_keys_set, decide_True. Qed.
Lemma dict_keys_set_new {V} (d : list (string * V)) k (v : V) :
  k ∉ dict_keys d → dict_keys (dict_set d k v) = dict_keys d ++ [k].
Proof. intros Hk. by rewrite dict_keys_set, decide_False. Qed.

Section shims_spec.
Context (large_pdb_shim_cc : string) (vars : pydict).

Definition copy_name (t : string) : string := _SuffixName t "large_pdb_copy".
Definition shim_name (t : string) : string := _SuffixName t "large_pdb_shim".

(** The target depends on its shim, the shim on the target that copies its source, and in
    each configuration of the shim the compiler writes the program database that the linker
    of the target is told to use. *)
Definition shimmed (dicts : targets) (t : string) (dependencies : list pyval) : Prop :=
  ∃ target shim configurations, dict_get dicts t = Some target ∧ dict_get dicts (shim_name t) = Some shim
    ∧ is_Some (dict_get dicts (copy_name t))
    ∧ dict_get target "dependencies" = Some (VList (dependencies ++ [VStr (shim_name t)]))
    ∧ dict_get shim "dependencies" = Some (VList [VStr (copy_name t)])
    ∧ dict_get shim "configurations" = Some (VDict configurations)
    ∧ ∀ c, c ∈ dict_keys configurations →
        ∃ path, compiler_pdb configurations c = Ok path ∧ linker_pdb target c = Ok path.

Definition configurations_wf (d : pydict) : Prop := ∀ cs, dict_get d "configurations" = Some (VDict cs) → dict_wf cs.

Lemma shim_dict_get base_dict name path copy k :
  k = "configurations" → dict_get (shim_dict base_dict name path copy) k = dict_get base_dict k.
Proof. intros ->. unfold shim_dict. cbn [foldl fst snd]. by rewrite !dict_get_set, !decide_False. Qed.

Lemma DeepCopySomeKeys_configurations d :
  dict_get (_DeepCopySomeKeys d ["configurations"; "default_configuration"; "toolset"]) "configurations"
  = dict_get d "configurations".
Proof.
  unfold _DeepCopySomeKeys. cbn [foldl]. destruct (dict_get d "configurations") as [v|];
    destruct (dict_get d "default_configuration"), (dict_get d "toolset"); rewrite ?dict_get_set; done.
Qed.

Lemma insert_shim_Ok t l d l' d' :
  insert_shim large_pdb_shim_cc vars t (l, d) = Ok (l', d') →
  NoDup (dict_keys d ++ [copy_name t; shim_name t]) → (∀ target, dict_get d t = Some target → configurations_wf target) →
  l' = shim_name t :: copy_name t :: l ∧ dict_keys d' = dict_keys d ++ [copy_name t; shim_name t]
  ∧ (∃ target dependencies, dict_get d t = Some target ∧ dict_get_default target "dependencies" (VList []) = VList dependencies
       ∧ shimmed d' t dependencies)
  ∧ ∀ k, k ∈ dict_keys d → k ≠ t → dict_get d' k = dict_get d k.
Proof.
  intros Hrun Hnd Hwf. unfold insert_shim in Hrun. apply bind_Ok in Hrun as (target&Ht&Hrun).
  destruct (dict_get d t) as [target'|] eqn:Hdt; [|done]. injection Ht as ->. specialize (Hwf _ eq_refl).
  apply bind_Ok in Hrun as (name&_&Hrun). apply bind_Ok in Hrun as (dir&_&Hrun).
  match type of Hrun with context [shim_dict ?b ?n ?p ?c] => set (shim := shim_dict b n p c) in Hrun end.
  apply bind_Ok in Hrun as (cs&Hcs&Hrun).
  assert (Hcs' : dict_get target "configurations" = Some (VDict cs)).
  { rewrite <- DeepCopySomeKeys_configurations. unfold shim in Hcs. rewrite shim_dict_get in Hcs by done.
    destruct (dict_get _ "configurations") as [[]|]; by simplify_eq/=. }
  apply bind_Ok in Hrun as ([cs' td]&Hloop&Hrun).
  apply shim_configs_Ok in Hloop as (Hpaths&Hkeys&_&Hk); [|by apply Hwf|done].
  apply bind_Ok in Hrun as (deps&Hdeps&[= <- <-]).
  fold (copy_name t) (shim_name t). rewrite !NoDup_app, !NoDup_cons in Hnd. destruct Hnd as (Hnd&Hdis&(Hne&_)).
  assert (Hfresh : ∀ k, k ∈ [copy_name t; shim_name t] → k ∉ dict_keys d) by (intros k Hin Hk'; by apply (Hdis k)).
  assert (Hcopy : copy_name t ∉ dict_keys d) by (apply Hfresh; by left).
  assert (Hshim : shim_name t ∉ dict_keys d) by (apply Hfresh; by right; left).
  assert (Htin : t ∈ dict_keys d) by (apply dict_get_is_Some; by rewrite Hdt).
  assert (Hcs2 : copy_name t ≠ shim_name t) by (intros Heq; apply Hne; rewrite Heq; by left).
  assert (t ≠ copy_name t ∧ t ≠ shim_name t) as [Htc Hts] by (split; congruence).
  assert (Hall : ∀ v1 v2 v3 v4, dict_keys (dict_set (dict_set (dict_set (dict_set d t v1) (copy_name t) v2) (shim_name t) v3) t v4)
    = dict_keys d ++ [copy_name t; shim_name t]).
  { intros v1 v2 v3 v4. rewrite dict_keys_set_in, dict_keys_set_new, dict_keys_set_new, dict_keys_set_in; [|done|..].
    - by rewrite <- app_assoc.
    - by rewrite dict_keys_set_in.
    - rewrite dict_keys_set_new, dict_keys_set_in by (rewrite ?dict_keys_set_in; done).
      rewrite elem_of_app, list_elem_of_singleton. naive_solver.
    - rewrite dict_keys_set_new, dict_keys_set_new, dict_keys_set_in; [rewrite !elem_of_app; tauto|done|..].
      + by rewrite dict_keys_set_in.
      + rewrite dict_keys_set_new, dict_keys_set_in by (rewrite ?dict_keys_set_in; done).
        rewrite elem_of_app, list_elem_of_singleton. naive_solver. }
  split_and!.
  - done.
  - exact (Hall _ _ _ _).
  - exists target, deps. split; [done|]. assert (Hd' : dict_get_default td "dependencies" (VList []) = VList deps).
    { unfold dict_get_default in *. destruct (default (VList []) (dict_get td "dependencies")); by simplify_eq/=. }
    split.
    { unfold dict_get_default in *. by rewrite <- Hk. }
    eexists _, _, cs'. split_and!.
    + by rewrite dict_get_set, decide_True.
    + rewrite dict_get_set, decide_False by congruence. by rewrite dict_get_set, decide_True.
    + apply dict_get_is_Some. rewrite Hall. apply elem_of_app. right. by left.
    + by rewrite dict_get_set, decide_True.
    + rewrite dict_get_set, decide_False by done. unfold shim, shim_dict. cbn [foldl fst snd].
      by rewrite dict_get_set, decide_True.
    + by rewrite dict_get_set, decide_True.
    + intros c Hc. rewrite Hkeys in Hc. destruct (Hpaths c Hc) as (path&Hp1&Hp2). exists path. split; [done|].
      rewrite <- Hp2. unfold linker_pdb, config_of. by rewrite sub_dict_set_ne.
  - intros k Hkin Hkt. rewrite !dict_get_set, !decide_False by (intros <-; tauto). done.
Qed.

Definition shim_names (t : string) : list string := [copy_name t; shim_name t].

Lemma insert_shims_Ok ts l d l' d' :
  for_each ts (l, d) (insert_shim large_pdb_shim_cc vars) = Ok (l', d') → NoDup ts →
  (∀ t, t ∈ ts → t ∈ dict_keys d) → NoDup (dict_keys d ++ concat (shim_names <$> ts)) →
  (∀ t target, t ∈ ts → dict_get d t = Some target → configurations_wf target) →
  l' = concat ((λ t, [shim_name t; copy_name t]) <$> reverse ts) ++ l
  ∧ dict_keys d' = dict_keys d ++ concat (shim_names <$> ts)
  ∧ (∀ t, t ∈ ts → ∃ target dependencies, dict_get d t = Some target
       ∧ dict_get_default target "dependencies" (VList []) = VList dependencies ∧ shimmed d' t dependencies)
  ∧ ∀ k, k ∈ dict_keys d → k ∉ ts → dict_get d' k = dict_get d k.
Proof.
  revert l d. induction ts as [|t ts IH]; intros l d Hrun Hts Hin Hnd Hwf.
  - injection Hrun as <- <-. split_and!; [done|by rewrite app_nil_r|by intros t Ht%elem_of_nil|done].
  - cbn [for_each] in Hrun. apply bind_Ok in Hrun as ([l1 d1]&Hstep&Hrun). apply NoDup_cons in Hts as [Htn Hts].
    cbn [fmap list_fmap concat] in Hnd. rewrite app_assoc in Hnd.
    apply insert_shim_Ok in Hstep as (->&Hkeys&(target&deps&Htarget&Hdeps&Hshim)&Hsame);
      [|by apply NoDup_app in Hnd as [? _]|intros; eapply Hwf; [by left|done]].
    apply IH in Hrun as (->&Hkeys'&Hall&Hsame'); [|done|..].
    + assert (Hnew : ∀ k, k ∈ t :: shim_names t → dict_get d' k = dict_get d1 k).
      { intros k Hk. apply Hsame'.
        - rewrite Hkeys. apply elem_of_cons in Hk as [->|Hk]; apply elem_of_app; [left; apply Hin; by left|by right].
        - apply elem_of_cons in Hk as [->|Hk]; [done|]. intros Hkts. rewrite <- app_assoc in Hnd.
          apply NoDup_app in Hnd as (_&Hd&_). apply (Hd k); [apply Hin; by right|]. apply elem_of_app. by left. }
      split_and!.
      * rewrite reverse_cons, fmap_app, concat_app. by rewrite <- app_assoc.
      * rewrite Hkeys', Hkeys. by rewrite <- app_assoc.
      * intros k [->|Hk]%elem_of_cons.
        -- exists target, deps. split_and!; [done..|]. destruct Hshim as (g&s&cs&Hg&Hs&Hc&Hrest).
           exists g, s, cs. rewrite !Hnew by (unfold shim_names; rewrite !elem_of_cons; tauto). done.
        -- destruct (Hall k Hk) as (g&deps'&Hg&Hrest). exists g, deps'. split; [|done].
           rewrite <- Hg. symmetry. apply Hsame; [apply Hin; by right|]. by intros ->.
      * intros k Hk Hkt. apply not_elem_of_cons in Hkt as [Hne Hkt]. rewrite Hsame'; [by apply Hsame| |done].
        rewrite Hkeys. apply elem_of_app. by left.
    + intros k Hk. rewrite Hkeys. apply elem_of_app. left. apply Hin. by right.
    + by rewrite Hkeys.
    + intros k g Hk. rewrite Hsame; [intros Hg; eapply Hwf; [by right|exact Hg]|apply Hin; by right|]. by intros ->.
Qed.

Lemma wants_shim_subset d found : map_result wants_shim d = Ok found → concat found `sublist_of` d.*1.
Proof.
  intros Hf%map_result_Ok. induction Hf as [|[t target] names d found Ht _ IH]; [done|]. cbn.
  unfold wants_shim in Ht. inv_ok. cbn [fst]. destruct (negb _); cbn; [by apply sublist_skip|by apply sublist_cons].
Qed.

(** The shims for large program databases.  Where the names of the new targets are
    not those of others, the new targets of each target that wants a shim come first in
    the list, the last one's before; the target depends on its shim and the shim on the
    target that copies its source; in every configuration the shim writes the program
    database the target is told to use; and other targets are not changed. *)
Theorem InsertLargePdbShims_correct target_list target_dicts new_list new_dicts found :
  InsertLargePdbShims large_pdb_shim_cc target_list target_dicts vars = Ok (new_list, new_dicts) →
  map_result wants_shim target_dicts = Ok found →
  NoDup (dict_keys target_dicts ++ concat (shim_names <$> concat found)) →
  (∀ t d, dict_get target_dicts t = Some d → configurations_wf d) →
  new_list = concat ((λ t, [shim_name t; copy_name t]) <$> reverse (concat found)) ++ target_list
  ∧ dict_keys new_dicts = dict_keys target_dicts ++ concat (shim_names <$> concat found)
  ∧ (∀ t, t ∈ concat found → ∃ target dependencies, dict_get target_dicts t = Some target
       ∧ dict_get_default target "dependencies" (VList []) = VList dependencies ∧ shimmed new_dicts t dependencies)
  ∧ ∀ t, t ∈ dict_keys target_dicts → t ∉ concat found → dict_get new_dicts t = dict_get target_dicts t.
Proof.
  unfold InsertLargePdbShims. intros Hrun Hfound Hnd Hwf. rewrite Hfound in Hrun.
  pose proof (wants_shim_subset _ _ Hfound) as Hsub. eapply insert_shims_Ok; [exact Hrun|..|done|].
  - eapply sublist_NoDup; [by apply NoDup_app in Hnd as [? _]|exact Hsub].
  - intros t Ht. by eapply elem_of_sublist.
  - intros t target _. apply Hwf.
Qed.
End shims_spec.

Definition sample_vars : pydict := [("PRODUCT_DIR", VStr "out"); ("SHARED_INTERMEDIATE_DIR", VStr "gen")].
Definition big_target : pydict :=
  [("target_name", VStr "app"); ("type", VStr "executable"); ("msvs_large_pdb", VInt 1); ("toolset", VStr "target");
   ("configurations", VDict [("Debug", VDict [("test", VInt 1)]); ("Release", VDict [])])].
Definition big_targets : targets := [("a.gyp:lib", [("target_name", VStr "lib")]); ("a.gyp:app", big_target)].

Lemma InsertLargePdbShims_correct_witness :
  ∃ new_list new_dicts,
    InsertLargePdbShims "c:/gyp/large-pdb-shim.cc" ["a.gyp:lib"; "a.gyp:app"] big_targets sample_vars = Ok (new_list, new_dicts)
    ∧ new_list = ["a.gyp:app_large_pdb_shim"; "a.gyp:app_large_pdb_copy"; "a.gyp:lib"; "a.gyp:app"].
Proof.
  eexists _, _. split; [vm_compute; reflexivity|].
  refine (proj1 (InsertLargePdbShims_correct "c:/gyp/large-pdb-shim.cc" sample_vars ["a.gyp:lib"; "a.gyp:app"] big_targets
    _ _ [[]; ["a.gyp:app"]] _ _ _ _)).
  - vm_compute. reflexivity.
  - vm_compute. reflexivity.
  - apply (bool_decide_unpack _). vm_compute. exact I.
  - intros t d Hd cs Hcs. cbn in Hd. case_decide; simplify_eq/=. case_decide; simplify_eq/=.
    apply (bool_decide_unpack _). vm_compute. exact I.
Defined.
