(* ===== verification/Js2c.v ===== *)
(** * Embedding of JavaScript

    tools/js2c.py, which turns the JavaScript of node into arrays of a C header: constants and
    macros, their expansion, the arrays and the header.  The files are a function from names to contents; [eval] of a
    lambda is a parameter, as is the order of the items of a dictionary (the order in which macros are read). *)
From S2P Require Import Prelude PyDict PyStr PyNum PyPath TargetSpec.
From Stdlib Require Import Ascii.

Definition nl : ascii := "010".
Definition cr : ascii := "013".
Definition dq : ascii := "034".

(** ** Arrays *)

(** The loop of [ToCArray]: the values from a row and a column on. *)
Fixpoint c_values (filename : text) (row col : Z) (lines : text) : result (list text) :=
  match lines with
  | [] => Ok []
  | c :: lines =>
      let '(row, col) := if c in? [nl; cr] then (row + 1, 0)%Z else (row, col + 1)%Z in
      let value := Z.of_nat (nat_of_ascii c) in
      if (128 <=? value)%Z
      then Err (SystemExit ("non-ascii value " +:+ of_chars filename +:+ ":" +:+ str_of_int row +:+ ":" +:+ str_of_int col))
      else vs ← c_values filename row col lines; Ok (chars (str_of_int value) :: vs)
  end.
Definition ToCArray (filename lines : text) : result text :=
  vs ← c_values filename 1 0 lines; Ok (ljoin (chars ", ") (vs ++ [chars "0"])).

(** [CompressScript]: the minifier is not imported under the name that is used. *)
Definition CompressScript (lines : text) (do_jsmin : bool) : result text :=
  if do_jsmin then Err (NameError "JavaScriptMinifier") else Ok lines.

(** ** Macros *)

Inductive macro := TextMacro (args : list text) (body : text) | PythonMacro (args : list text) (run : list text → result text).
Definition macro_args (m : macro) : list text := match m with TextMacro args _ | PythonMacro args _ => args end.

(** [macro.expand(mapping)] *)
Definition lookup_arg (mapping : list (text * text)) (arg : text) : result text :=
  match dict_get mapping arg with Some v => Ok v | None => Err (KeyError (of_chars arg)) end.
Definition expand (m : macro) (mapping : list (text * text)) : result text :=
  match m with
  | TextMacro _ body => Ok (foldl (λ result kv, lreplace kv.1 kv.2 result) body mapping)
  | PythonMacro args run => values ← map_result (lookup_arg mapping) args; run values
  end.

Definition ExpandConstants (lines : text) (constants : list (text * text)) : text :=
  foldl (λ lines kv, lreplace kv.1 kv.2 lines) lines constants.

(** The scan over the arguments of a call after its opening parenthesis: the arguments before a comma, the last one, and what comes after
    the call; [piece] is what was read of the current argument.  At the end of the text the last character is left out as if it
    closed the call. *)
Fixpoint scan_args (height : nat) (piece l : text) : list text * text * text :=
  match l with
  | [] => ([], take (pred (length piece)) piece, [])
  | c :: r =>
      if (c ==? ","%char) && (height ==? 1) then let '(args, last_arg, rest) := scan_args height [] r in (piece :: args, last_arg, rest)
      else if c in? ["("; "{"; "["]%char then scan_args (S height) (piece ++ [c]) r
      else if c in? [")"; "}"; "]"]%char then if height ==? 1 then ([], piece, r) else scan_args (pred height) (piece ++ [c]) r
      else scan_args height (piece ++ [c]) r
  end.

(** [add_arg(str)]: the index of the argument is never advanced. *)
Definition arg_index : nat := 0.
Definition add_arg (expand_in : text → result text) (m : macro) (str : text) (mapping : list (text * text)) : result (list (text * text)) :=
  replacement ← expand_in (strip Ascii.is_space str);
  match nth_error (macro_args m) arg_index with
  | Some arg => Ok (dict_set mapping arg replacement)
  | None => Err IndexError
  end.

(** The loop over the calls of one macro; [before] is the text before [start], [l] the rest. *)
Fixpoint expand_calls (expand_in : text → result text) (fuel : nat) (name : text) (m : macro) (before l : text) : result text :=
  match fuel with
  | 0 => Err OutOfFuel
  | S fuel =>
      match lfind (name ++ ["("%char]) l with
      | None => Ok (before ++ l)
      | Some i =>
          let '(args, last_arg, rest) := scan_args 1 [] (drop (i + length name + 1) l) in
          mapping ← for_each (args ++ [last_arg]) [] (add_arg expand_in m);
          result ← expand m mapping;
          expand_calls expand_in fuel name m (before ++ take i l) (result ++ rest)
      end
  end.

Fixpoint ExpandMacros (fuel : nat) (lines : text) (macros : list (text * macro)) : result text :=
  match fuel with
  | 0 => Err OutOfFuel
  | S fuel => for_each macros lines (λ nm lines, expand_calls (λ l, ExpandMacros fuel l macros) fuel nm.1 nm.2 [] lines)
  end.

(** ** Reading macros *)

(** [\s+] and a word after it, at the beginning of a text. *)
Definition spaces1 (l : text) : option text :=
  match l with c :: _ => if Ascii.is_space c then Some (lstrip Ascii.is_space l) else None | [] => None end.
Definition word1 (l : text) : option (text * text) :=
  match span is_word_char l with ([], _) => None | w => Some w end.
Definition keyword (k : string) (l : text) : option text :=
  if lstarts (chars k) l then spaces1 (drop (String.length k) l) else None.
(** The equals sign, the body without semicolons, and the semicolon that ends a definition. *)
Definition definition_body (l : text) : option text :=
  match lstrip Ascii.is_space l with
  | "="%char :: l => match span (λ c, negb (c ==? ";"%char)) (lstrip Ascii.is_space l) with (body, [_]) => Some body | _ => None end
  | _ => None
  end.
Definition const_match (line : text) : option (text * text) :=
  l ← keyword "const" line; '(name, l) ← word1 l; body ← definition_body l; Some (name, body).
(** The name, the text of the arguments and the body of a macro. *)
Definition macro_match (line : text) : option (text * text * text) :=
  l ← keyword "macro" line;
  '(name, l) ← word1 l;
  match lstrip Ascii.is_space l with
  | "("%char :: l =>
      match span (λ c, negb (c ==? ")"%char)) l with
      | (args, _ :: l) => body ← definition_body l; Some (name, args, body)
      | _ => None
      end
  | _ => None
  end.
Definition python_match (line : text) : option (text * text * text) := l ← keyword "python" line; macro_match l.

Section js2c.
(** [eval('lambda ' + ','.join(args) + ': ' + body)] *)
Variable eval_lambda : list text → text → result (list text → result text).

Definition strip_line (line : text) : text :=
  strip Ascii.is_space (match lfind ["#"%char] line with Some i => take i line | None => line end).
Definition split_args (args : text) : list text := strip Ascii.is_space <$> lsplit ","%char args.

Definition read_macro (line : text) (st : list (text * text) * list (text * macro)) : result (list (text * text) * list (text * macro)) :=
  let '(constants, macros) := st in
  let line := strip_line line in
  if line ==? [] then Ok st
  else match const_match line with
  | Some (name, value) => Ok (dict_set constants name (strip Ascii.is_space value), macros)
  | None =>
      match macro_match line with
      | Some (name, args, body) => Ok (constants, dict_set macros name (TextMacro (split_args args) (strip Ascii.is_space body)))
      | None =>
          match python_match line with
          | Some (name, args, body) =>
              let args := split_args args in
              run ← eval_lambda args (strip Ascii.is_space body);
              Ok (constants, dict_set macros name (PythonMacro args run))
          | None => Err (RuntimeError ("Illegal line: " +:+ of_chars line))
          end
      end
  end.
Definition ReadMacros (lines : list text) : result (list (text * text) * list (text * macro)) := for_each lines ([], []) read_macro.

(** ** The header *)

Definition HEADER_TEMPLATE (source_lines native_lines : text) : text :=
  ljoin [nl] [chars "#ifndef node_natives_h"; chars "#define node_natives_h"; chars "namespace node {"; []; source_lines;
    chars "struct _native {"; chars "  const char* name;"; chars "  const char* source;"; chars "  size_t source_len;"; chars "};"; [];
    chars "static const struct _native natives[] = {"; []; native_lines; chars "  { NULL, NULL, 0 } /* sentinel */"; []; chars "};"; [];
    chars "}"; chars "#endif"; []].
Definition NATIVE_DECLARATION (id : text) : text :=
  chars "  { " ++ dq :: id ++ dq :: chars ", " ++ id ++ chars "_native, sizeof(" ++ id ++ chars "_native)-1 }," ++ [nl].
Definition SOURCE_DECLARATION (id data : text) : text := chars "  const char " ++ id ++ chars "_native[] = { " ++ data ++ chars " };" ++ [nl].

(** The contents of files. *)
Variable read : text → result text.

(** [ReadLines(filename)]: the lines without comments and blanks that are not empty. *)
Definition ReadLines (filename : text) : result (list text) :=
  contents ← read filename;
  Ok (filter (λ l, l ≠ []) (strip_line <$> lsplit nl contents)).

Definition is_macros_file (s : text) : bool := ends_with (chars "macros.py") (p_basename s).
Definition is_delay (s : text) : bool := ends_with (chars "-delay.js") s.
Definition module_id (s : text) : text :=
  let id := hd [] (lsplit "."%char (p_basename s)) in
  if is_delay s then take (length id - 6) id else id.

(** One module: its id and its array. *)
Definition js_module (fuel : nat) (consts : list (text * text)) (macros : list (text * macro)) (s : text) : result (text * text) :=
  lines ← read s;
  let do_jsmin := contains (chars "// jsminify this file, js2c: jsmin") lines in
  lines ← ExpandMacros fuel (ExpandConstants lines consts) macros;
  lines ← CompressScript lines do_jsmin;
  data ← ToCArray s lines;
  Ok (module_id s, data).

Definition modules_of (source : list text) : list text := filter (λ s, is_macros_file s = false) source.
Definition header_of (fuel : nat) (source : list text) : result text :=
  macro_lines ← map_result ReadLines (filter (λ s, is_macros_file s = true) source);
  '(consts, macros) ← ReadMacros (concat macro_lines);
  natives ← map_result (js_module fuel consts macros) (modules_of source);
  Ok (HEADER_TEMPLATE (ljoin [nl] ((λ n, SOURCE_DECLARATION n.1 n.2) <$> natives)) (ljoin [nl] ((λ n, NATIVE_DECLARATION n.1) <$> natives))).

(** [JS2C(source, target)]: the files that are written, and how the run ends; the header of a second target is formatted without
    the lines of the table. *)
Definition JS2C (fuel : nat) (source target : list text) : list (text * text) * result unit :=
  match header_of fuel source with
  | Err e => ([], Err e)
  | Ok header =>
      match target with
      | [] => ([], Err IndexError)
      | [t] => ([(t, header)], Ok tt)
      | t :: t' :: _ => ([(t, header); (t', [])], Err (KeyError "native_lines"))
      end
  end.
End js2c.

(** * Theorems *)

(** ** Arrays *)

Definition code (c : ascii) : Z := Z.of_nat (nat_of_ascii c).

(** The numbers of an initialiser, as C reads it. *)
Definition read_c_array (t : text) : option (list Z) := mapM (read_int 10) (lsplit ","%char t).

Lemma c_values_Ok filename row col lines vs :
  c_values filename row col lines = Ok vs → vs = (λ c, chars (str_of_int (code c))) <$> lines ∧ Forall (λ c, (code c < 128)%Z) lines.
Proof.
  revert row col vs. induction lines as [|c lines IH]; intros row col vs H; cbn [c_values] in H; [by injection H as <-|].
  destruct (if c in? _ then _ else _) as [row' col']. destruct (Z.leb_spec 128 (Z.of_nat (nat_of_ascii c))); [done|].
  apply bind_Ok in H as (vs' & H & H1). injection H1 as <-. destruct (IH _ _ _ H) as [-> Hall]. split; [done|by constructor].
Qed.
Lemma c_values_total filename row col lines : Forall (λ c, (code c < 128)%Z) lines → is_ok (c_values filename row col lines) = true.
Proof.
  intros Hl. revert row col. induction Hl as [|c lines Hc _ IH]; intros row col; cbn [c_values]; [done|].
  destruct (if c in? _ then _ else _) as [row' col']. rewrite (proj2 (Z.leb_gt 128 _)) by exact Hc.
  specialize (IH row' col'). by destruct (c_values filename row' col' lines).
Qed.

Lemma digits_no_comma n : (0 ≤ n)%Z → ","%char ∉ chars (str_of_int n).
Proof.
  intros Hn Hin. pose proof (numeral_digits _ _ _ (decimal_numeral n Hn)) as Hd. rewrite Forall_forall in Hd.
  destruct (Hd _ Hin) as [d Hc]. done.
Qed.

Lemma read_int_blank l z : read_int 10 l = Some z → read_int 10 (" "%char :: l) = Some z.
Proof. done. Qed.

(** The words of an array are separated by commas. *)
Lemma lsplit_numbers (w : text) (ws : list text) :
  Forall (λ w, ","%char ∉ w) (w :: ws) →
  lsplit ","%char (ljoin (chars ", ") (w :: ws)) = w :: ((λ w, " "%char :: w) <$> ws).
Proof.
  revert w. induction ws as [|w' ws IH]; intros w Hw; rewrite !Forall_cons in Hw.
  - cbn. apply lsplit_free. tauto.
  - rewrite ljoin_cons by done. change (chars ", " ++ ?l) with (","%char :: " "%char :: l).
    rewrite lsplit_app by tauto. f_equal. destruct Hw as (_ & Hw' & Hws).
    cbn [lsplit]. rewrite decide_False by done. rewrite IH; [done|by constructor].
Qed.

Lemma read_numbers (ns : list Z) :
  ns ≠ [] → Forall (λ n, (0 ≤ n)%Z) ns → read_c_array (ljoin (chars ", ") ((λ n, chars (str_of_int n)) <$> ns)) = Some ns.
Proof.
  intros Hne Hns. destruct ns as [|n ns]; [done|]. unfold read_c_array. cbn [fmap list_fmap].
  rewrite lsplit_numbers by (change (Forall (λ w, ","%char ∉ w) ((λ n, chars (str_of_int n)) <$> n :: ns));
    rewrite Forall_fmap; eapply Forall_impl; [exact Hns|]; intros x Hx; by apply digits_no_comma).
  cbn [mapM]. rewrite read_int_decimal. cbn [mbind option_bind].
  rewrite (proj2 (mapM_Some _ _ ns)); [done|]. rewrite <- list_fmap_compose. apply Forall2_fmap_l, Forall_Forall2_diag.
  apply Forall_true. intros x. apply read_int_decimal.
Qed.

Lemma ToCArray_reads filename lines t : ToCArray filename lines = Ok t → read_c_array t = Some ((code <$> lines) ++ [0%Z]).
Proof.
  unfold ToCArray. intros (vs & [-> _]%c_values_Ok & Ht)%bind_Ok. injection Ht as <-.
  rewrite <- (read_numbers ((code <$> lines) ++ [0%Z])).
  - by rewrite fmap_app, <- list_fmap_compose.
  - by destruct lines.
  - apply Forall_app. split; [|by constructor]. apply Forall_fmap, Forall_true. intros c. unfold code. cbn. lia.
Qed.
Lemma ToCArray_total filename lines : is_ok (ToCArray filename lines) = true ↔ Forall (λ c, (code c < 128)%Z) lines.
Proof.
  unfold ToCArray. split.
  - destruct (c_values filename 1 0 lines) as [vs|e] eqn:Hvs; [|done]. by apply c_values_Ok in Hvs as [_ ?].
  - intros Hl%(c_values_total filename 1 0). by destruct (c_values filename 1 0 lines).
Qed.

(** An array that is written reads as the codes of the text and a zero, and the embedding stops exactly
    for texts with a character that is not ASCII. *)
Theorem ToCArray_roundtrip filename lines :
  (∀ t, ToCArray filename lines = Ok t → read_c_array t = Some ((code <$> lines) ++ [0%Z]))
  ∧ (is_ok (ToCArray filename lines) = true ↔ Forall (λ c, (code c < 128)%Z) lines).
Proof. split; [intros t; apply ToCArray_reads|apply ToCArray_total]. Qed.

(** ** The header *)

(** What a C compiler reads of the header: the arrays by their names, and the entries of the table with a name, the array and what
    sizeof is taken of. *)
Definition array_line (l : text) : option (text * list Z) :=
  let start := chars "  const char " in
  if lstarts start l then
    match span (λ c, negb (c ==? "["%char)) (drop (length start) l) with
    | (var, rest) =>
        let open := chars "[] = { " in
        if lstarts open rest then
          match span (λ c, negb (c ==? "}"%char)) (drop (length open) rest) with
          | (data, ["}"; ";"]%char) => ns ← read_c_array (take (pred (length data)) data); Some (var, ns)
          | _ => None
          end
        else None
    end
  else None.

Definition entry_line (l : text) : option (text * text * text) :=
  let start := chars "  { " ++ [dq] in
  if lstarts start l then
    let '(id, rest) := span (λ c, negb (c ==? dq)) (drop (length start) l) in
    let '(var, rest) := span is_word_char (drop 3 rest) in
    let '(sized, rest) := span is_word_char (drop 9 rest) in
    if rest ==? chars ")-1 }," then Some (id, var, sized) else None
  else None.

(** The modules of a header: each entry with the contents of its array, less the last element. *)
Definition entry_source (arrays : list (text * list Z)) (entry : text * text * text) : option (text * list Z) :=
  let '(id, var, sized) := entry in
  match filter (λ a, a.1 = var) arrays with
  | [(_, ns)] => if sized ==? var then Some (id, take (pred (length ns)) ns) else None
  | _ => None
  end.
Definition read_header (header : text) : option (list (text * list Z)) :=
  let lines := lsplit nl header in
  mapM (entry_source (omap array_line lines)) (omap entry_line lines).

Definition identifier (id : text) : Prop := forallb is_word_char id = true.

(** Reading line by line. *)
Lemma lsplit_nl_app (a b : text) : lsplit nl (a ++ nl :: b) = lsplit nl a ++ lsplit nl b.
Proof.
  induction a as [|x a IH]; cbn [app lsplit]; [by rewrite decide_True|].
  case_decide; [by rewrite IH|]. rewrite IH. pose proof (lsplit_nonempty nl a). by destruct (lsplit nl a).
Qed.
Lemma omap_lines {A} (f : text → option A) (ts : list text) :
  f [] = None → omap f (lsplit nl (ljoin [nl] ts)) = concat ((λ t, omap f (lsplit nl t)) <$> ts).
Proof.
  intros Hf. induction ts as [|t ts IH]; [by cbn; rewrite Hf|]. destruct ts as [|t' ts]; [by cbn; rewrite app_nil_r|].
  rewrite ljoin_cons by done. change ([nl] ++ ?l) with (nl :: l). rewrite lsplit_nl_app, omap_app, IH. done.
Qed.
Lemma omap_ended_line {A} (f : text → option A) (l : text) : f [] = None → nl ∉ l → omap f (lsplit nl (l ++ [nl])) = option_list (f l).
Proof. intros Hf Hl. rewrite lsplit_nl_app, lsplit_free by done. cbn. rewrite Hf. by destruct (f l). Qed.

Lemma word_not c id : is_word_char c = false → identifier id → c ∉ id.
Proof.
  intros Hc Hid Hin. unfold identifier in Hid. rewrite forallb_forall in Hid. rewrite Hid in Hc; [done|]. by apply list_elem_of_In.
Qed.

Lemma span_stop (P : ascii → bool) (l r : text) c : forallb P l = true → P c = false → span P (l ++ c :: r) = (l, c :: r).
Proof. intros Hl Hc. apply span_all; [done|]. by intros ? [= <-]. Qed.

Lemma not_in_forallb (c : ascii) l : c ∉ l → forallb (λ x, negb (x ==? c)) l = true.
Proof.
  intros Hc. apply forallb_forall. intros x Hx%list_elem_of_In. apply negb_true_iff, bool_decide_eq_false_2. by intros ->.
Qed.

Lemma numbers_no_char c (ns : list Z) :
  c ≠ ","%char → c ≠ " "%char → digit_of c = None → Forall (λ n, (0 ≤ n)%Z) ns → c ∉ ljoin (chars ", ") ((λ n, chars (str_of_int n)) <$> ns).
Proof.
  intros H1 H2 Hd Hns. assert (Hn : ∀ n, (0 ≤ n)%Z → c ∉ chars (str_of_int n)).
  { intros n Hn Hin. pose proof (numeral_digits _ _ _ (decimal_numeral n Hn)) as Hall. rewrite Forall_forall in Hall.
    destruct (Hall _ Hin) as [d Hc]. unfold digit_in in Hc. by rewrite Hd in Hc. }
  induction Hns as [|n ns Hpos Hns IH]; [by intros ?%elem_of_nil|]. destruct ns as [|n' ns]; [by apply Hn|].
  cbn [fmap list_fmap] in *. rewrite ljoin_cons by done. rewrite !not_elem_of_app. split_and!; [by apply Hn| |done].
  by intros [?|[?|?%elem_of_nil]%elem_of_cons]%elem_of_cons.
Qed.

Definition native (id : text) : text := id ++ chars "_native".
Definition array_text (id data : text) : text := chars "  const char " ++ native id ++ chars "[] = { " ++ data ++ chars " };".
Definition entry_text (id : text) : text :=
  chars "  { " ++ dq :: id ++ dq :: chars ", " ++ native id ++ chars ", sizeof(" ++ native id ++ chars ")-1 },".

Lemma SOURCE_DECLARATION_line id data : SOURCE_DECLARATION id data = array_text id data ++ [nl].
Proof. unfold SOURCE_DECLARATION, array_text, native. rewrite <- !app_assoc. done. Qed.
Lemma NATIVE_DECLARATION_line id : NATIVE_DECLARATION id = entry_text id ++ [nl].
Proof. unfold NATIVE_DECLARATION, entry_text, native. cbn. rewrite <- !app_assoc. cbn. rewrite <- !app_assoc. cbn. rewrite <- !app_assoc. done. Qed.

Lemma identifier_native id : identifier id → forallb is_word_char (native id) = true.
Proof. intros Hid. unfold native. by rewrite forallb_app, Hid. Qed.

Lemma array_line_text id data ns :
  identifier id → "}"%char ∉ data → read_c_array data = Some ns → array_line (array_text id data) = Some (native id, ns).
Proof.
  intros Hid Hdata Hns. unfold array_line, array_text. rewrite lstarts_app, drop_app_length.
  change (chars "[] = { ") with ("["%char :: chars "] = { "). cbn [app].
  rewrite span_stop; [|apply not_in_forallb, word_not; [done|by apply identifier_native]|done].
  rewrite (app_comm_cons (chars "] = { ")), lstarts_app, drop_app_length.
  change (data ++ chars " };") with (data ++ [" "%char] ++ "}"%char :: [";"%char]). rewrite app_assoc.
  rewrite span_stop; [|apply not_in_forallb; by intros [?|?%list_elem_of_singleton]%elem_of_app|done].
  replace (take _ _) with data; [by rewrite Hns|]. rewrite length_app. cbn. rewrite Nat.add_1_r. cbn. by rewrite take_app_length.
Qed.
Lemma array_line_entry id : array_line (entry_text id) = None.
Proof. done. Qed.
Lemma entry_line_array id data : entry_line (array_text id data) = None.
Proof. done. Qed.

Lemma entry_line_text id : identifier id → entry_line (entry_text id) = Some (id, native id, native id).
Proof.
  intros Hid. unfold entry_line, entry_text. change (chars "  { " ++ dq :: ?l) with ((chars "  { " ++ [dq]) ++ l).
  rewrite lstarts_app, drop_app_length. rewrite span_stop; [|by apply not_in_forallb, word_not|done].
  change (drop 3 (dq :: chars ", " ++ ?l)) with l. change (chars ", sizeof(" ++ ?l) with (","%char :: chars " sizeof(" ++ l).
  rewrite span_stop; [|by apply identifier_native|done]. change (drop 9 (","%char :: chars " sizeof(" ++ ?l)) with l.
  change (chars ")-1 },") with (")"%char :: chars "-1 },"). by rewrite span_stop; [|by apply identifier_native|].
Qed.

Lemma not_in_identifier c id : is_word_char c = false → identifier id → c ∉ native id.
Proof. intros Hc Hid. apply word_not; [done|by apply identifier_native]. Qed.

Lemma nl_array_text id data : identifier id → nl ∉ data → nl ∉ array_text id data.
Proof.
  intros Hid Hd. unfold array_text. rewrite !not_elem_of_app. split_and!; [by apply (bool_decide_unpack _)|by apply not_in_identifier| |done|];
    by apply (bool_decide_unpack _).
Qed.
Lemma nl_entry_text id : identifier id → nl ∉ entry_text id.
Proof.
  intros Hid. unfold entry_text. rewrite !not_elem_of_app, !not_elem_of_cons, !not_elem_of_app, !not_elem_of_cons, !not_elem_of_app.
  split_and!; try done; try (by apply (bool_decide_unpack _)); try (by apply not_in_identifier). by apply word_not.
Qed.

Lemma omap_Some {A B} (g : A → B) (l : list A) : omap (λ x, Some (g x)) l = g <$> l.
Proof. induction l as [|x l IH]; cbn; [done|by f_equal]. Qed.
Lemma omap_nothing {A B} (l : list A) : omap (λ _, @None B) l = [].
Proof. by induction l. Qed.

(** Keys that are different name one item. *)
Lemma filter_unique {A} (key : A → text) (l : list A) x :
  NoDup (key <$> l) → x ∈ l → filter (λ y, key y = key x) l = [x].
Proof.
  induction l as [|y l IH]; intros Hnodup Hx; [by apply elem_of_nil in Hx|]. cbn [fmap list_fmap] in Hnodup.
  apply NoDup_cons in Hnodup as [Hy Hnodup]. rewrite filter_cons. apply elem_of_cons in Hx as [->|Hx].
  - rewrite decide_True by done. f_equal. clear IH. induction l as [|z l IH]; [done|]. cbn [fmap list_fmap] in Hy, Hnodup. apply not_elem_of_cons in Hy as [Hz Hy].
    rewrite filter_cons, decide_False by (intros Heq; by apply Hz). apply IH; [done|]. by apply NoDup_cons in Hnodup as [_ ?].
  - rewrite decide_False; [by apply IH|]. intros Heq. apply Hy. rewrite Heq. apply list_elem_of_fmap. by exists x.
Qed.

(** A module that can be read: its id, the text of its array and its numbers. *)
Definition readable (m : text * text * list Z) : Prop :=
  identifier m.1.1 ∧ (nl ∉ m.1.2) ∧ ("}"%char ∉ m.1.2) ∧ read_c_array m.1.2 = Some m.2.

Lemma omap_joined {A B} (f : text → option A) (decl : B → text) (g : B → option A) (bs : list B) :
  f [] = None → (∀ b, b ∈ bs → (nl ∉ decl b) ∧ f (decl b) = g b) →
  omap f (lsplit nl (ljoin [nl] ((λ b, decl b ++ [nl]) <$> bs))) = omap g bs.
Proof.
  intros Hf Hb. rewrite omap_lines by done. rewrite <- list_fmap_compose. induction bs as [|b bs IH]; [done|].
  cbn [fmap list_fmap concat compose]. rewrite omap_ended_line by (try done; apply Hb; by left).
  rewrite (proj2 (Hb b (list_elem_of_here _ _))). rewrite IH by (intros x Hx; apply Hb; by right). cbn. by destruct (g b).
Qed.

Lemma read_header_template (ms : list (text * text * list Z)) :
  Forall readable ms → NoDup (ms.*1.*1) →
  read_header (HEADER_TEMPLATE (ljoin [nl] ((λ m, SOURCE_DECLARATION m.1.1 m.1.2) <$> ms)) (ljoin [nl] ((λ m, NATIVE_DECLARATION m.1.1) <$> ms)))
  = Some ((λ m, (m.1.1, take (pred (length m.2)) m.2)) <$> ms).
Proof.
  intros Hms Hnodup. rewrite Forall_forall in Hms.
  rewrite (list_fmap_ext _ (λ m, array_text m.1.1 m.1.2 ++ [nl])) by (intros; apply SOURCE_DECLARATION_line).
  rewrite (list_fmap_ext (λ m, NATIVE_DECLARATION m.1.1) (λ m, entry_text m.1.1 ++ [nl])) by (intros; apply NATIVE_DECLARATION_line).
  unfold read_header, HEADER_TEMPLATE. rewrite !omap_lines by done. cbn [fmap list_fmap concat].
  rewrite (omap_joined array_line (λ m, array_text m.1.1 m.1.2) (λ m, Some (native m.1.1, m.2)));
    [|done|intros m Hm; destruct (Hms m Hm) as (?&?&?&?); split; [by apply nl_array_text|by apply array_line_text]].
  rewrite (omap_joined array_line (λ m, entry_text m.1.1) (λ _, None));
    [|done|intros m Hm; destruct (Hms m Hm) as (?&?&?&?); split; [by apply nl_entry_text|by apply array_line_entry]].
  rewrite (omap_joined entry_line (λ m, array_text m.1.1 m.1.2) (λ _, None));
    [|done|intros m Hm; destruct (Hms m Hm) as (?&?&?&?); split; [by apply nl_array_text|by apply entry_line_array]].
  rewrite (omap_joined entry_line (λ m, entry_text m.1.1) (λ m, Some (m.1.1, native m.1.1, native m.1.1)));
    [|done|intros m Hm; destruct (Hms m Hm) as (?&?&?&?); split; [by apply nl_entry_text|by apply entry_line_text]].
  rewrite !omap_nothing, !omap_Some.
  repeat match goal with
  | |- context [omap array_line (lsplit nl ?t)] => change (omap array_line (lsplit nl t)) with (@nil (text * list Z))
  | |- context [omap entry_line (lsplit nl ?t)] => change (omap entry_line (lsplit nl t)) with (@nil (text * text * text))
  end.
  cbn [app]. rewrite !app_nil_r. apply mapM_Some, Forall2_fmap, Forall_Forall2_diag, Forall_forall. intros m Hm. unfold entry_source.
  rewrite (filter_unique fst (_ <$> ms) (native m.1.1, m.2)); [by rewrite bool_decide_eq_true_2| |].
  - rewrite <- list_fmap_compose. rewrite <- list_fmap_compose in Hnodup. revert Hnodup. clear. intros Hnodup.
    apply NoDup_alt. intros i j x Hi Hj. rewrite list_lookup_fmap_Some in Hi, Hj. destruct Hi as (a & Hx & Ha), Hj as (b & Hx' & Hb).
    cbn in Hx, Hx'. subst x. unfold native in Hx'. apply app_inv_tail in Hx'.
    eapply NoDup_lookup; [exact Hnodup| |]; rewrite list_lookup_fmap_Some; eexists; (split; [|done]); cbn; [done|by symmetry].
  - apply list_elem_of_fmap. by exists m.
Qed.

Lemma ToCArray_numbers filename lines t :
  ToCArray filename lines = Ok t → t = ljoin (chars ", ") ((λ n, chars (str_of_int n)) <$> (code <$> lines) ++ [0%Z]).
Proof.
  unfold ToCArray. intros (vs & [-> _]%c_values_Ok & Ht)%bind_Ok. injection Ht as <-. by rewrite fmap_app, <- list_fmap_compose.
Qed.
Lemma ToCArray_readable filename lines t id :
  ToCArray filename lines = Ok t → identifier id → readable (id, t, (code <$> lines) ++ [0%Z]).
Proof.
  intros Ht Hid. assert (Hpos : Forall (λ n, (0 ≤ n)%Z) ((code <$> lines) ++ [0%Z])).
  { apply Forall_app. split; [|by constructor]. apply Forall_fmap, Forall_true. intros c. unfold code. cbn. lia. }
  split_and!; [done| | |by eapply ToCArray_reads]; cbn [fst snd]; rewrite (ToCArray_numbers _ _ _ Ht); by apply numbers_no_char.
Qed.

Section js2c_theorems.
Variable eval_lambda : list text → text → result (list text → result text).
Variable read : text → result text.

(** What becomes of a file: constants and macros are expanded in its contents. *)
Definition expansion (fuel : nat) (consts : list (text * text)) (macros : list (text * macro)) (s lines : text) : Prop :=
  ∃ contents, read s = Ok contents ∧ ExpandMacros fuel (ExpandConstants contents consts) macros = Ok lines.

Lemma js_module_Ok fuel consts macros s n :
  js_module read fuel consts macros s = Ok n → identifier n.1 →
  n.1 = module_id s ∧ ∃ lines, expansion fuel consts macros s lines ∧ readable (n, (code <$> lines) ++ [0%Z]).
Proof.
  unfold js_module. intros H Hid. apply bind_Ok in H as (contents & Hread & H). apply bind_Ok in H as (lines & Hexp & H).
  apply bind_Ok in H as (lines' & Hc & H). apply bind_Ok in H as (data & Hdata & H). injection H as <-. split; [done|].
  unfold CompressScript in Hc. destruct (contains _ _); [done|]. injection Hc as <-. exists lines. split; [by exists contents|].
  by apply (ToCArray_readable s).
Qed.

Lemma js_modules_Ok fuel consts macros source natives :
  Forall2 (λ s n, js_module read fuel consts macros s = Ok n) source natives → Forall (λ n, identifier n.1) natives →
  ∃ ms, natives = ms.*1 ∧ Forall readable ms
    ∧ Forall2 (λ s n, n.1 = module_id s ∧ ∃ lines, expansion fuel consts macros s lines ∧ n.2 = code <$> lines)
        source ((λ m, (m.1.1, take (pred (length m.2)) m.2)) <$> ms).
Proof.
  induction 1 as [|s n source natives Hn _ IH]; intros Hid; [by exists []|]. apply Forall_cons in Hid as [Hid Hids].
  destruct (js_module_Ok _ _ _ _ _ Hn Hid) as (Hn1 & lines & Hlines & Hr). destruct (IH Hids) as (ms & -> & Hms & Hall).
  exists ((n, (code <$> lines) ++ [0%Z]) :: ms). split_and!; [done|by constructor|]. constructor; [|done]. split; [done|].
  exists lines. split; [done|]. cbn. rewrite length_app. cbn. rewrite Nat.add_1_r. cbn. by rewrite take_app_length.
Qed.

(** The macros of a run: those of the files whose names end in macros.py. *)
Definition macros_of (source : list text) (st : list (text * text) * list (text * macro)) : Prop :=
  ∃ macro_lines, map_result (ReadLines read) (filter (λ s, is_macros_file s = true) source) = Ok macro_lines
    ∧ ReadMacros eval_lambda (concat macro_lines) = Ok st.

Lemma JS2C_result fuel source t files u :
  JS2C eval_lambda read fuel source [t] = (files, Ok u) →
  Forall (λ s, identifier (module_id s)) (modules_of source) → NoDup (module_id <$> modules_of source) →
  ∃ header consts macros natives, files = [(t, header)] ∧ macros_of source (consts, macros) ∧ read_header header = Some natives
    ∧ Forall2 (λ s n, n.1 = module_id s ∧ ∃ lines, expansion fuel consts macros s lines ∧ n.2 = code <$> lines) (modules_of source) natives.
Proof.
  unfold JS2C. destruct (header_of eval_lambda read fuel source) as [header|] eqn:Hh; [|done]. intros [= <- _] Hids Hnodup.
  unfold header_of in Hh. apply bind_Ok in Hh as (macro_lines & Hml & Hh). apply bind_Ok in Hh as ([consts macros] & Hm & Hh).
  apply bind_Ok in Hh as (natives & Hn & Hh). apply Ok_inj in Hh as <-. apply map_result_Ok in Hn.
  assert (Hnids : natives.*1 = module_id <$> modules_of source).
  { clear Hids Hnodup. induction Hn as [|s n source' natives Hs _ IH]; [done|]. cbn [fmap list_fmap]. f_equal; [|done].
    unfold js_module in Hs. apply bind_Ok in Hs as (? & _ & Hs). apply bind_Ok in Hs as (? & _ & Hs). apply bind_Ok in Hs as (? & _ & Hs).
    apply bind_Ok in Hs as (? & _ & Hs). by injection Hs as <-. }
  destruct (js_modules_Ok _ _ _ _ _ Hn) as (ms & -> & Hms & Hall).
  { change (Forall (identifier ∘ fst) natives). apply Forall_fmap. rewrite Hnids. by apply Forall_fmap. }
  eexists _, consts, macros, _. split_and!; [done|by exists macro_lines| |exact Hall].
  rewrite <- !list_fmap_compose. apply (read_header_template ms Hms). by rewrite Hnids.
Qed.
End js2c_theorems.

(** ** Calls of macros *)

(** An argument that ends where its call is closed: without a comma of its own, and with its brackets matched. *)
Fixpoint one_arg (height : nat) (a : text) : bool :=
  match a with
  | [] => height ==? 1
  | c :: a =>
      if (c ==? ","%char) && (height ==? 1) then false
      else if c in? ["("; "{"; "["]%char then one_arg (S height) a
      else if c in? [")"; "}"; "]"]%char then if height ==? 1 then false else one_arg (pred height) a
      else one_arg height a
  end.

Lemma scan_one_arg height piece a r : one_arg height a = true → scan_args height piece (a ++ ")"%char :: r) = ([], piece ++ a, r).
Proof.
  revert height piece. induction a as [|c a IH]; intros height piece Ha; cbn [one_arg] in Ha.
  - apply bool_decide_eq_true in Ha as ->. cbn. by rewrite app_nil_r.
  - cbn [app scan_args]. destruct ((c ==? ","%char) && (height ==? 1)); [done|].
    destruct (c in? ["("; "{"; "["]%char); [rewrite IH by done; by rewrite <- app_assoc|].
    destruct (c in? [")"; "}"; "]"]%char); [destruct (height ==? 1); [done|]|]; rewrite IH by done; by rewrite <- app_assoc.
Qed.

Lemma lstarts_prefix (p l r : text) : length p ≤ length l → lstarts p (l ++ r) = lstarts p l.
Proof.
  revert l. induction p as [|c p IH]; intros [|d l] Hlen; cbn in *; [by destruct r|done|lia|]. by rewrite IH by lia.
Qed.
Lemma lfind_bound (p l : text) n : lfind p l = Some n → n + length p ≤ length l.
Proof.
  revert n. induction l as [|c l IH]; intros n H; cbn [lfind] in H.
  - destruct p; [|done]. by injection H as <-.
  - destruct (lstarts p (c :: l)) eqn:Hp.
    + injection H as <-. apply lstarts_spec in Hp as [s ->]. rewrite length_app. lia.
    + destruct (lfind p l) as [m|]; [|done]. injection H as <-. specialize (IH m eq_refl). cbn. lia.
Qed.
(** What is found stays found in a longer text. *)
Lemma lfind_prefix (p x r : text) n : lfind p x = Some n → lfind p (x ++ r) = Some n.
Proof.
  revert n. induction x as [|c x IH]; intros n H.
  - destruct p; [|done]. cbn in *. injection H as <-. by destruct r.
  - pose proof (lfind_bound _ _ _ H) as Hb. cbn [app lfind] in *. rewrite app_comm_cons, lstarts_prefix by lia.
    destruct (lstarts p (c :: x)); [done|]. destruct (lfind p x) as [m|]; [|done]. by rewrite (IH m).
Qed.

Section calls.
Context (name arg : text) (args : list text) (body : text).
Definition call : text := name ++ ["("%char].

(** The text between calls: it runs up to the next one. *)
Definition quiet (x : text) : Prop := lfind call (x ++ call) = Some (length x).

Definition macro_call (a : text) : text := call ++ a ++ [")"%char].
Definition macro_result (a : text) : text := lreplace arg (strip Ascii.is_space a) body.
Definition with_calls (f : text → text) (l0 : text) (calls : list (text * text)) : text := l0 ++ concat ((λ c, f c.1 ++ c.2) <$> calls).

(** The results, with the text after each, call nothing that is not called after them. *)
Fixpoint settled (x : text) (calls : list (text * text)) : Prop :=
  match calls with
  | [] => lfind call x = None
  | (a, l) :: calls => quiet x ∧ one_arg 1 a = true ∧ lfind call (strip Ascii.is_space a) = None ∧ settled (macro_result a ++ l) calls
  end.

Lemma expand_one_call expand_in before x a l :
  quiet x → one_arg 1 a = true → expand_in (strip Ascii.is_space a) = Ok (strip Ascii.is_space a) → ∀ fuel,
  expand_calls expand_in (S fuel) name (TextMacro (arg :: args) body) before (x ++ macro_call a ++ l)
  = expand_calls expand_in fuel name (TextMacro (arg :: args) body) (before ++ x) (macro_result a ++ l).
Proof.
  intros Hx Ha Hin fuel. cbn [expand_calls]. unfold macro_call.
  replace (x ++ (call ++ a ++ [")"%char]) ++ l) with ((x ++ call) ++ a ++ ")"%char :: l) by (by rewrite <- !app_assoc).
  rewrite (lfind_prefix _ _ _ _ Hx). unfold call. rewrite drop_app_ge by (rewrite !length_app; cbn; lia).
  replace (_ - _) with 0 by (rewrite !length_app; cbn; lia). rewrite drop_0, scan_one_arg by done. cbn [app for_each].
  unfold add_arg. rewrite Hin. cbn. do 2 f_equal. unfold call. by rewrite <- !app_assoc, take_app_length.
Qed.

Lemma expand_calls_settled expand_in calls x before fuel :
  settled x calls → (∀ l, lfind call l = None → expand_in l = Ok l) → length calls < fuel →
  expand_calls expand_in fuel name (TextMacro (arg :: args) body) before (with_calls macro_call x calls)
  = Ok (before ++ with_calls macro_result x calls).
Proof.
  intros Hs Hin. revert x before fuel Hs. induction calls as [|[a l] calls IH]; intros x before fuel Hs Hfuel; (destruct fuel as [|fuel]; [cbn in Hfuel; lia|]).
  - unfold with_calls. cbn [fmap list_fmap concat]. rewrite app_nil_r. cbn [expand_calls]. cbn in Hs. unfold call in Hs. by rewrite Hs.
  - destruct Hs as (Hx & Ha & Hcall & Hs). unfold with_calls. cbn [fmap list_fmap concat fst snd]. rewrite <- app_assoc.
    rewrite expand_one_call by (try done; by apply Hin). cbn [length] in Hfuel.
    specialize (IH _ (before ++ x) fuel Hs ltac:(lia)). unfold with_calls in IH. rewrite <- !app_assoc in IH. by rewrite IH, <- !app_assoc.
Qed.
End calls.

(** A text with calls of a macro that is a text with one argument becomes the text with each call replaced by the body, in which the argument
    stands without blanks around it, and with what is between the calls unchanged, if arguments and results call nothing themselves. *)
Theorem ExpandMacros_calls name arg args body x calls fuel :
  settled name arg body x calls → length calls + 3 ≤ fuel →
  ExpandMacros fuel (with_calls (macro_call name) x calls) [(name, TextMacro (arg :: args) body)]
  = Ok (with_calls (macro_result arg body) x calls).
Proof.
  intros Hs Hfuel. destruct fuel as [|fuel]; [lia|]. cbn [ExpandMacros for_each fst snd].
  rewrite (expand_calls_settled _ _ args _ _ _ _ [] _ Hs); [done| |lia].
  intros l Hl. destruct fuel as [|[|fuel]]; [lia|lia|]. cbn [ExpandMacros for_each fst snd expand_calls]. unfold call in Hl. by rewrite Hl.
Qed.

(** C31: What is written for the modules is what C reads back: if the run returns and the ids are different identifiers, the one file
    written is a header whose table has, in order, each module with its id, and whose arrays have the codes of the text of the
    module with the constants and macros of the macro files expanded. *)
Theorem JS2C_correct eval_lambda read fuel source t files u :
  JS2C eval_lambda read fuel source [t] = (files, Ok u) →
  Forall (λ s, identifier (module_id s)) (modules_of source) → NoDup (module_id <$> modules_of source) →
  ∃ header consts macros natives, files = [(t, header)] ∧ macros_of eval_lambda read source (consts, macros) ∧ read_header header = Some natives
    ∧ Forall2 (λ s n, n.1 = module_id s ∧ ∃ lines, expansion read fuel consts macros s lines ∧ n.2 = code <$> lines) (modules_of source) natives.
Proof. apply JS2C_result. Qed.

(** ** Examples *)

Definition sample_eval (args : list text) (body : text) : result (list text → result text) := Err (SyntaxError "invalid syntax").
Definition sample_read (name : text) : result text :=
  if name ==? chars "src/macros.py" then Ok (chars "const kMax = 10; # largest" ++ nl :: chars "macro TRACE(x) = ;")
  else if name ==? chars "lib/fs.js" then Ok (chars "TRACE(open(a, b)); f(kMax)" ++ [nl])
  else if name ==? chars "lib/min.js" then Ok (chars "// jsminify this file, js2c: jsmin")
  else if name ==? chars "lib/text.js" then Ok [ascii_of_nat 233]
  else Err (RuntimeError "No such file or directory").

Abbreviation sample_js2c := (JS2C sample_eval sample_read 5 [chars "src/macros.py"; chars "lib/fs.js"] [chars "node_natives.h"]).
Lemma sample_js2c_runs : ∃ files u, sample_js2c = (files, Ok u) ∧ match files with [(_, h)] => read_header h = Some [(chars "fs", code <$> chars "; f(10)" ++ [nl])] | _ => False end.
Proof.
  assert (H : match sample_js2c with
              | ([(_, h)], Ok _) => read_header h = Some [(chars "fs", code <$> chars "; f(10)" ++ [nl])] | _ => False end) by (vm_compute; reflexivity).
  destruct sample_js2c as [files [u|e]]; destruct files as [|[n h] []]; try done. by exists [(n, h)], u.
Qed.
Lemma JS2C_correct_witness : ∃ header natives, sample_js2c.1 = [(chars "node_natives.h", header)] ∧ read_header header = Some natives ∧ natives.*1 = [chars "fs"].
Proof.
  destruct sample_js2c_runs as (files & u & Hrun & _).
  destruct (JS2C_correct _ _ _ _ _ files u Hrun) as (header & consts & macros & natives & Hfiles & _ & Hread & Hall).
  - apply (bool_decide_unpack _). vm_compute. reflexivity.
  - apply (bool_decide_unpack _). vm_compute. reflexivity.
  - exists header, natives. rewrite Hrun. split; [exact Hfiles|]. split; [exact Hread|].
    inversion Hall as [|s n source natives' [Hn _] Hrest]; subst. inversion Hrest; subst. cbn. by rewrite Hn.
Defined.

Lemma ExpandMacros_calls_witness :
  ExpandMacros 5 (chars "a(); TRACE( x[1, 2] ); b(); TRACE(y)") [(chars "TRACE", TextMacro [chars "v"] (chars "log(v)"))]
  = Ok (chars "a(); log(x[1, 2]); b(); log(y)").
Proof.
  refine (ExpandMacros_calls (chars "TRACE") (chars "v") [] (chars "log(v)") (chars "a(); ")
    [(chars " x[1, 2] ", chars "; b(); "); (chars "y", [])] 5 _ _); [|cbn; lia]. vm_compute. tauto.
Defined.

(** A macro with two arguments: the first one is bound to the last argument of the call, the second one to nothing. *)
Example two_arguments :
  ExpandMacros 5 (chars "SUM(1, 2)") [(chars "SUM", TextMacro [chars "a"; chars "b"] (chars "a + b"))] = Ok (chars "2 + b").
Proof. vm_compute. reflexivity. Qed.
(** A file that asks for the minifier stops the run. *)
Example minified_file : (JS2C sample_eval sample_read 5 [chars "lib/min.js"] [chars "node_natives.h"]).2 = Err (NameError "JavaScriptMinifier").
Proof. vm_compute. reflexivity. Qed.
Example non_ascii_file : (JS2C sample_eval sample_read 5 [chars "lib/text.js"] [chars "node_natives.h"]).2 = Err (SystemExit "non-ascii value lib/text.js:1:1").
Proof. vm_compute. reflexivity. Qed.
