(* ===== verification/OptParse.v ===== *)
(** * Parsing of command lines

    What gyp uses of Python's optparse: options with one value or none, long names that may be
    abbreviated, short names with a value attached, arguments between the options, and the actions append, store, store_true and
    store_false.  Errors and --help end the run. *)
From S2P Require Import Prelude PyDict PyStr PyPath.
From Stdlib Require Import Ascii.

Inductive optval := VNone | VText (t : text) | VTexts (l : list text) | VBool (b : bool).
#[export] Instance optval_eq_dec : EqDecision optval.
Proof. solve_decision. Defined.

Inductive action := Append | Store | StoreTrue | StoreFalse | ShowHelp.
#[export] Instance action_eq_dec : EqDecision action.
Proof. solve_decision. Defined.

Record opt := { names : list text; dest : string; act : action; dflt : optval }.
#[export] Instance opt_eq_dec : EqDecision opt.
Proof. solve_decision. Defined.

Definition takes_value (o : opt) : bool := act o in? [Append; Store].
Definition dash : ascii := "-".
Definition is_long (name : text) : bool := lstarts [dash; dash] name.

Section parser.
Context (opts : list opt).
Implicit Types (values : list (string * optval)).

Definition default_values : list (string * optval) := (λ o, (dest o, dflt o)) <$> opts.

(** [Option.take_action]; the value of a flag is not looked at. *)
Definition take_action (o : opt) (value : text) values : result (list (string * optval)) :=
  match act o with
  | Store => Ok (dict_set values (dest o) (VText value))
  | StoreTrue => Ok (dict_set values (dest o) (VBool true))
  | StoreFalse => Ok (dict_set values (dest o) (VBool false))
  | Append =>
      match default VNone (dict_get values (dest o)) with
      | VNone => Ok (dict_set values (dest o) (VTexts [value]))
      | VTexts l => Ok (dict_set values (dest o) (VTexts (l ++ [value])))
      | _ => Err (AttributeError "append")
      end
  | ShowHelp => Err (SystemExit "help")
  end.

Definition named (name : text) : option opt := head (filter (λ o, name ∈ names o) opts).

(** [_match_long_opt]: the name itself, or else the only name it begins. *)
Definition long_names : list text := filter (λ n, is_long n = true) (concat (names <$> opts)).
Definition match_long_opt (name : text) : result opt :=
  let found n := match named n with Some o => Ok o | None => Err (KeyError (of_chars n)) end in
  if name in? long_names then found name
  else match filter (λ n, lstarts name n = true) long_names with
  | [n] => found n
  | [] => Err (SystemExit ("no such option: " +:+ of_chars name))
  | _ => Err (SystemExit ("ambiguous option: " +:+ of_chars name))
  end.

Definition needs_argument (name : text) : exn := SystemExit (of_chars name +:+ " option requires an argument").

(** [_process_short_opts]: the options of one argument; the last one may still need a value. *)
Fixpoint short_opts (chs : text) values : result (list (string * optval) * option (text * opt)) :=
  match chs with
  | [] => Ok (values, None)
  | ch :: chs =>
      match named [dash; ch] with
      | None => Err (SystemExit ("no such option: " +:+ of_chars [dash; ch]))
      | Some o =>
          if takes_value o then
            match chs with
            | [] => Ok (values, Some ([dash; ch], o))
            | _ => values ← take_action o chs values; Ok (values, None)
            end
          else values ← take_action o [] values; short_opts chs values
      end
  end.

(** [_process_args]: the values, and the arguments that are no options. *)
Fixpoint process_args (rargs largs : list text) values : result (list (string * optval) * list text) :=
  match rargs with
  | [] => Ok (values, largs)
  | arg :: rargs =>
      if arg ==? [dash; dash] then Ok (values, largs ++ rargs)
      else if is_long arg then
        let '(name, rest) := span (λ c, negb (c ==? "="%char)) arg in
        o ← match_long_opt name;
        match takes_value o, rest with
        | true, _ :: value => values ← take_action o value values; process_args rargs largs values
        | true, [] =>
            match rargs with
            | value :: rargs => values ← take_action o value values; process_args rargs largs values
            | [] => Err (needs_argument name)
            end
        | false, _ :: _ => Err (SystemExit (of_chars name +:+ " option does not take a value"))
        | false, [] => values ← take_action o [] values; process_args rargs largs values
        end
      else if lstarts [dash] arg && negb (arg ==? [dash]) then
        '(values, pending) ← short_opts (drop 1 arg) values;
        match pending with
        | None => process_args rargs largs values
        | Some (name, o) =>
            match rargs with
            | value :: rargs => values ← take_action o value values; process_args rargs largs values
            | [] => Err (needs_argument name)
            end
        end
      else process_args rargs (largs ++ [arg]) values
  end.
Definition parse_args (args : list text) : result (list (string * optval) * list text) := process_args args [] default_values.

(** * Theorems *)

(** ** Arguments with their values *)

(** An option and the argument that gives it a value: after the equals sign of a long name, or attached to a short one. *)
Definition argument_of (name value : text) : text := if is_long name then name ++ "="%char :: value else name ++ value.

(** A name by which the parser finds the option, and under which a value can be attached. *)
Definition usable_name (o : opt) (name : text) : bool :=
  bool_decide (named name = Some o)
  && (if is_long name then (name in? long_names) && negb (name ==? [dash; dash]) && negb ("="%char in? name) else match name with [d; c] => (d ==? dash) && negb (c ==? dash) | _ => false end).

Lemma process_argument o name value rargs largs values :
  usable_name o name = true → takes_value o = true → (is_long name = false → value ≠ []) →
  process_args (argument_of name value :: rargs) largs values
  = (values ← take_action o value values; process_args rargs largs values).
Proof.
  unfold usable_name, argument_of. intros [Hnamed%bool_decide_eq_true Hname]%andb_true_iff Hv Hne. destruct (is_long name) eqn:Hlong.
  - apply andb_true_iff in Hname as [[Hin Hdd]%andb_true_iff Heq]. cbn [process_args].
    rewrite bool_decide_eq_false_2 by (intros H; destruct name as [|? [|? [|]]]; done).
    assert (is_long (name ++ "="%char :: value) = true) as ->.
    { unfold is_long in *. apply lstarts_spec in Hlong as [s ->]. by rewrite <- app_assoc, lstarts_app. }
    rewrite span_all.
    + unfold match_long_opt. rewrite Hin, Hnamed. cbn [mbind result_bind]. by rewrite Hv.
    + apply forallb_forall. intros c Hc%list_elem_of_In. apply negb_true_iff in Heq. apply bool_decide_eq_false in Heq.
      apply negb_true_iff, bool_decide_eq_false_2. by intros ->.
    + by intros c [= <-].
  - specialize (Hne eq_refl). destruct name as [|d [|c []]]; try done. apply andb_true_iff in Hname as [Hd Hc].
    apply bool_decide_eq_true in Hd as ->. apply negb_true_iff, bool_decide_eq_false in Hc.
    cbn [process_args app]. rewrite bool_decide_eq_false_2 by naive_solver.
    assert (is_long (dash :: c :: value) = false) as ->.
    { unfold is_long. cbn [lstarts]. rewrite (bool_decide_eq_false_2 (dash = c)) by congruence. apply andb_false_r. }
    rewrite bool_decide_eq_false_2 by done. cbn [lstarts negb]. rewrite bool_decide_eq_true_2 by done. cbn [andb drop short_opts].
    rewrite Hnamed, Hv. destruct value as [|x value]; [done|]. by destruct (take_action o (x :: value) values).
Qed.

(** A long name of an option without a value. *)
Lemma process_flag o name rargs largs values :
  usable_name o name = true → is_long name = true → takes_value o = false →
  process_args (name :: rargs) largs values = (values ← take_action o [] values; process_args rargs largs values).
Proof.
  unfold usable_name. intros [Hnamed%bool_decide_eq_true Hname]%andb_true_iff Hlong Hv. rewrite Hlong in Hname.
  apply andb_true_iff in Hname as [[Hin Hdd]%andb_true_iff Heq]. apply negb_true_iff in Hdd. cbn [process_args]. rewrite Hdd, Hlong.
  replace (span _ name) with (name, @nil ascii).
  - unfold match_long_opt. rewrite Hin, Hnamed. cbn [mbind result_bind]. by rewrite Hv.
  - rewrite <- (app_nil_r name) at 2. symmetry. apply span_all; [|done]. apply negb_true_iff, bool_decide_eq_false in Heq.
    apply forallb_forall. intros c Hc%list_elem_of_In. apply negb_true_iff, bool_decide_eq_false_2. by intros ->.
Qed.
End parser.
