(* ===== verification/CommandLine.v ===== *)
(** * The command line of gyp

    tools/gyp/pylib/gyp/__init__.py: the options, the flags that regenerate them, and what [gyp_main] works out of the
    command line, the environment and the file system before it loads the build files: the formats, the
    directories, the default variables, the includes and the flags of the generators. *)
From S2P Require Import Prelude PyDict PySet PyStr PyNum PyVal PyPath Common Refs Store Expand BuildFile Targets OptParse TargetSpec Load.
From Stdlib Require Import Ascii.

(** What the process finds: the environment, the platform, the current directory with its files, and the files that exist. *)
Record system := {
  environ : list (string * text); platform : string; cwd : text; listing : list text; path_exists : text → bool; expanduser : text → text
}.

(** ** Options *)

(** An option with what [RegeneratableOptionParser] keeps of it; [regenerate] also needs a dest of its own. *)
Record gyp_option := { option_of : opt; path_type : bool; env_name : option string; regenerate : bool }.

Definition gyp_opt (names_ : list string) (dest_ : string) (action_ : action) (default_ : optval) (path : bool) (env : option string) (regen : bool) : gyp_option :=
  {| option_of := {| names := chars <$> names_; dest := dest_; act := action_; dflt := default_ |};
     path_type := path; env_name := env; regenerate := regen |}.

Definition gyp_options : list gyp_option :=
  [gyp_opt ["-h"; "--help"] "help" ShowHelp VNone false None false;
   gyp_opt ["--build"] "configs" Append VNone false None true;
   gyp_opt ["--check"] "check" StoreTrue VNone false None true;
   gyp_opt ["--config-dir"] "config_dir" Store VNone false (Some "GYP_CONFIG_DIR") true;
   gyp_opt ["-d"; "--debug"] "debug" Append (VTexts []) false None true;
   gyp_opt ["-D"] "defines" Append VNone false (Some "GYP_DEFINES") true;
   gyp_opt ["--depth"] "depth" Store VNone true None true;
   gyp_opt ["-f"; "--format"] "formats" Append VNone false (Some "GYP_GENERATORS") false;
   gyp_opt ["-G"] "generator_flags" Append (VTexts []) false (Some "GYP_GENERATOR_FLAGS") true;
   gyp_opt ["--generator-output"] "generator_output" Store VNone true (Some "GYP_GENERATOR_OUTPUT") true;
   gyp_opt ["--ignore-environment"] "use_environment" StoreFalse (VBool true) false None false;
   gyp_opt ["-I"; "--include"] "includes" Append VNone true None true;
   gyp_opt ["--no-circular-check"] "circular_check" StoreFalse (VBool true) false None false;
   gyp_opt ["--no-parallel"] "no_parallel" StoreTrue (VBool false) false None false;
   gyp_opt ["-S"; "--suffix"] "suffix" Store (VText []) false None true;
   gyp_opt ["--toplevel-dir"] "toplevel_dir" Store VNone true None true;
   gyp_opt ["-R"; "--root-target"] "root_targets" Append VNone false None true].

Definition parser : list opt := option_of <$> gyp_options.

(** [getattr(options, name)] *)
Definition value_of (values : list (string * optval)) (name : string) : optval := default VNone (dict_get values name).
Definition texts_of (v : optval) : list text := match v with VTexts l => l | _ => [] end.
Definition text_of (v : optval) : option text := match v with VText ((_ :: _) as t) => Some t | _ => None end.
Definition true_of (v : optval) : bool := match v with VBool b => b | VNone => false | VText t => negb (t ==? []) | VTexts l => negb (l ==? []) end.

(** ** Small functions *)

(** [os.environ.get(name)], if it is not empty. *)
Definition getenv (env : list (string * text)) (name : string) : option text :=
  match dict_get env name with Some ((_ :: _) as t) => Some t | _ => None end.

Definition ShlexEnv (env : list (string * text)) (name : string) : result (list text) :=
  match getenv env name with Some t => shlex_split t | None => Ok [] end.

Definition FormatOpt (opt value : text) : text := if lstarts (chars "--") opt then opt ++ "="%char :: value else opt ++ value.

(** Values of variables: an integer, a text, or [True]. *)
Inductive nvalue := NInt (z : Z) | NText (t : text) | NTrue.

(** [item.split('=', 1)] and the value of the second token. *)
Definition name_value (item : text) : text * nvalue :=
  match span (λ c, negb (c ==? "="%char)) item with
  | (name, _ :: value) => (name, match int_of_str 10 (of_chars value) with Ok z => NInt z | Err _ => NText value end)
  | (name, []) => (name, NTrue)
  end.
Definition NameValueListToDict (l : list text) : list (text * nvalue) :=
  foldl (λ result item, let '(name, value) := name_value item in dict_set result name value) [] l.

(** ** Regeneration *)
Section regenerate.
Context `{RealPath} (env : list (string * text)).

Definition FixPath (depth path : text) : text :=
  match FixIfRelativePath path depth with [] => chars "." | p => p end.

(** [if value in flags: flags.remove(value)] and [flags.append(value)] *)
Fixpoint remove_first (x : text) (l : list text) : list text :=
  match l with [] => [] | y :: l => if y ==? x then l else y :: remove_first x l end.
Definition append_once (flags : list text) (value : text) : list text := remove_first value flags ++ [value].

(** The values of an option that are in the environment. *)
Definition inherited (env_name : option string) (use_environment : bool) : result (list text) :=
  match env_name with Some name => if use_environment then ShlexEnv env name else Ok [] | None => Ok [] end.

Definition RegenerateAppendFlag (flag : text) (values : list text) (predicate : text → text) (env_name : option string) (use_environment : bool) :
    result (list text) :=
  from_env ← inherited env_name use_environment;
  Ok (foldl append_once [] ((λ v, FormatOpt flag (predicate v)) <$> from_env) ++ ((λ v, FormatOpt flag (predicate v)) <$> values)).

(** The flags of one option; [args[0]] is its first name. *)
Definition regenerate_option (depth : text) (values : list (string * optval)) (use_environment : bool) (g : gyp_option) : result (list text) :=
  let flag := hd [] (names (option_of g)) in
  let value := value_of values (dest (option_of g)) in
  let predicate := if path_type g then FixPath depth else (λ v, v) in
  match act (option_of g) with
  | Append => RegenerateAppendFlag flag (texts_of value) predicate (env_name g) use_environment
  | Store =>
      match text_of value, env_name g with
      | Some v, _ => Ok [FormatOpt flag (predicate v)]
      | None, Some name =>
          Ok (match (if use_environment then getenv env name else None) with Some v => [FormatOpt flag (predicate v)] | None => [] end)
      | None, None => Ok []
      end
  | StoreTrue => Ok (if true_of value then [flag] else [])
  | StoreFalse => Ok (if true_of value then [] else [flag])
  | ShowHelp => Ok []
  end.

(** [RegenerateFlags(options)]: [table] are the options that are kept, in the order of the dictionary. *)
Definition RegenerateFlags (table : list gyp_option) (depth : text) (values : list (string * optval)) : result (list text) :=
  flags ← map_result (regenerate_option depth values (true_of (value_of values "use_environment"))) table;
  Ok (chars "--ignore-environment" :: concat flags).
End regenerate.
Definition regeneratable_options : list gyp_option := filter (λ g, regenerate g = true) gyp_options.

(** ** What [gyp_main] works out before it loads *)
Definition endswith (suffix t : text) : bool := lstarts (reverse suffix) (reverse t).

(** [re.split('[\s,]', t)] *)
Fixpoint split_formats (t : text) : list text :=
  match t with
  | [] => [[]]
  | c :: t =>
      if Ascii.is_space c || (c ==? ","%char) then [] :: split_formats t
      else match split_formats t with w :: ws => (c :: w) :: ws | [] => [[c]] end
  end.

Section main.
Context (sys : system).
Implicit Types (values : list (string * optval)).

Definition FindBuildFiles : list text := filter (λ file, endswith (chars ".gyp") file = true) (listing sys).

(** The variables of the home directory, tried in order; the last one that is set decides. *)
Fixpoint search_home (home_vars : list string) (home_dot_gyp : option text) : option text :=
  match home_vars with
  | [] => home_dot_gyp
  | home_var :: home_vars =>
      match dict_get (environ sys) home_var with
      | Some home =>
          let dir := p_join home (chars ".gyp") in
          if path_exists sys dir then Some dir else search_home home_vars None
      | None => search_home home_vars home_dot_gyp
      end
  end.
Definition home_vars : list string := "HOME" :: (if platform sys in? ["cygwin"; "win32"] then ["USERPROFILE"] else []).

(** The directory of the configuration; the empty text of an empty GYP_CONFIG_DIR is kept. *)
Definition find_home_dot_gyp values : option text :=
  let dir :=
    match text_of (value_of values "config_dir") with
    | Some config_dir => Some (expanduser sys config_dir)
    | None =>
        let dir := if true_of (value_of values "use_environment") then dict_get (environ sys) "GYP_CONFIG_DIR" else None in
        match dir with
        | Some ((_ :: _) as d) => match expanduser sys d with [] => search_home home_vars (Some []) | d => Some d end
        | _ => search_home home_vars dir
        end
    end in
  match dir with
  | Some ((_ :: _) as d) => if path_exists sys d then Some d else None
  | _ => dir
  end.

Definition default_formats : list text :=
  [chars (if platform sys ==? "darwin" then "xcode" else if platform sys in? ["win32"; "cygwin"] then "msvs" else "make")].
Definition find_formats values : list text :=
  match texts_of (value_of values "formats") with
  | [] =>
      match (if true_of (value_of values "use_environment") then getenv (environ sys) "GYP_GENERATORS" else None) with
      | Some t => split_formats t
      | None => default_formats
      end
  | formats => formats
  end.

(** The directory that is cut off after its last component named src. *)
Fixpoint src_dir (rev_components : list text) : option text :=
  match rev_components with
  | [] => None
  | component :: rest => if component ==? chars "src" then Some (ljoin [slash] (reverse rev_components)) else src_dir rest
  end.
Definition directory_components (build_file : text) : list text := lsplit slash (p_normpath (p_join (cwd sys) (p_dirname build_file))).
Definition depth_of (build_file : text) : option text := src_dir (reverse (directory_components build_file)).
Fixpoint find_depth (build_files : list text) : option text :=
  match build_files with
  | [] => None
  | build_file :: build_files => match depth_of build_file with Some depth => Some depth | None => find_depth build_files end
  end.

(** [if options.use_environment: l += ShlexEnv(env_name)] and [l += options.name], as a dictionary. *)
Definition with_environment values (env_name name : string) : result (list (text * nvalue)) :=
  inherited ← (if true_of (value_of values "use_environment") then ShlexEnv (environ sys) env_name else Ok []);
  Ok (NameValueListToDict (inherited ++ texts_of (value_of values name))).

Definition find_includes values (home_dot_gyp : option text) : list text :=
  match home_dot_gyp with
  | Some dir => let include := p_join dir (chars "include.gypi") in if path_exists sys include then [include] else []
  | None => []
  end ++ texts_of (value_of values "includes").

(** What is the same for all formats: the options with what [gyp_main] has set in them, and the parameters. *)
Record settings := Settings {
  options : list (string * optval);
  build_files : list text;
  build_files_arg : list text;
  home_dot_gyp : option text;
  cmdline_default_variables : list (text * nvalue);
  includes : list text;
  generator_flags : list (text * nvalue)
}.

Definition set_generator_output values : list (string * optval) :=
  match text_of (value_of values "generator_output") with
  | None =>
      match (if true_of (value_of values "use_environment") then getenv (environ sys) "GYP_GENERATOR_OUTPUT" else None) with
      | Some dir => dict_set values "generator_output" (VText dir)
      | None => values
      end
  | Some _ => values
  end.
Definition choose_depth values (build_files : list text) : result (list (string * optval)) :=
  match text_of (value_of values "depth") with
  | Some _ => Ok values
  | None =>
      match find_depth build_files with
      | Some depth => Ok (dict_set values "depth" (VText depth))
      | None => Err (GypError "Could not automatically locate src directory.  This isa temporary Chromium feature that will be removed.  Use--depth as a workaround.")
      end
  end.
Definition set_toplevel_dir values : list (string * optval) :=
  match text_of (value_of values "toplevel_dir") with
  | Some _ => values
  | None => dict_set values "toplevel_dir" (value_of values "depth")
  end.

(** Lines 338-483 of [gyp_main]. *)
Definition read_settings (my_name : string) (args : list text) : result settings :=
  '(values, build_files_arg) ← parse_args parser args;
  let home_dot_gyp := find_home_dot_gyp values in
  let values := dict_set values "formats" (VTexts (find_formats values)) in
  let values := set_generator_output values in
  let values := dict_set values "parallel" (VBool (negb (true_of (value_of values "no_parallel")))) in
  let build_files := if build_files_arg ==? [] then FindBuildFiles else build_files_arg in
  if build_files ==? [] then
    Err (GypError ("usage: " +:+ my_name +:+ " [options ...] [build_file ...]" +:+ newline +:+ newline +:+ my_name +:+ ": error: no build_file"))
  else
    values ← choose_depth values build_files;
    let values := set_toplevel_dir values in
    variables ← with_environment values "GYP_DEFINES" "defines";
    flags ← with_environment values "GYP_GENERATOR_FLAGS" "generator_flags";
    Ok (Settings values build_files build_files_arg home_dot_gyp variables (find_includes values home_dot_gyp) flags).
End main.

(** ** The generators *)

(** The parameters of one format; [flavor] is what follows the hyphen in its name. *)
Record params := Params { flavor : option text; run_settings : settings }.

(** A module of a generator: its attributes (with the defaults of [getattr] for what it lacks) and its functions; [data] is
    what loading returns. *)
Record generator (data : Type) := Generator {
  generator_default_variables : list (text * nvalue);
  CalculateVariables : option (list (text * nvalue) → params → result (list (text * nvalue)));
  CalculateGeneratorInputInfo : params → generator_input;
  GenerateOutput : data → params → result unit;
  PerformBuild : data → list text → params → result unit
}.
Arguments generator_default_variables {_} _.
Arguments CalculateVariables {_} _.
Arguments CalculateGeneratorInputInfo {_} _.
Arguments GenerateOutput {_} _.
Arguments PerformBuild {_} _.

(** The arguments of [gyp.input.Load]. *)
Record load_arguments := LoadArguments {
  la_build_files : list text;
  la_variables : list (text * nvalue);
  la_includes : list text;
  la_depth : text;
  la_input : generator_input;
  la_check : bool;
  la_circular_check : bool;
  la_parallel : bool;
  la_root_targets : list text
}.

(** [format.split('-', 1)] *)
Definition split_format (format : text) : text * option text :=
  match span (λ c, negb (c ==? "-"%char)) format with
  | (format, _ :: flavor) => (format, Some flavor)
  | (format, []) => (format, None)
  end.

(** The directory added to the path of Python, if any, and the name of the module. *)
Definition module_of (current : text) (format : text) : option text * text :=
  if endswith (chars ".py") format then
    let '(path, generator_name) := p_split (p_splitext format).1 in (Some (p_normpath (p_join current path)), generator_name)
  else (None, chars "gyp.generator." ++ format).

Definition setdefaults (defaults variables : list (text * nvalue)) : list (text * nvalue) :=
  foldl (λ variables item, if dict_mem variables item.1 then variables else dict_set variables item.1 item.2) variables defaults.

(** What is done, in order. *)
Inductive event := Generated (format : text) | Built (configs : list text).

Section generate.
Context {data : Type} (current : text) (import : option text * text → result (generator data)).
(** [gyp.input.Load], and the configurations of the first target it lists. *)
Context (input_Load : load_arguments → result data) (first_configurations : data → result (list text)).

(** [Load] of gyp/__init__.py up to the call of [gyp.input.Load] *)
Definition prepare (run : settings) (format : text) : result (generator data * params * load_arguments) :=
  let '(format, flavor) := split_format format in
  let p := Params flavor run in
  g ← import (module_of current format);
  let variables := dict_set (cmdline_default_variables run) (chars "GENERATOR") (NText format) in
  let variables := setdefaults (generator_default_variables g) variables in
  variables ← (match CalculateVariables g with Some calculate => calculate variables p | None => Ok variables end);
  let value := value_of (options run) in
  Ok (g, p, LoadArguments (build_files run) variables (includes run) (default [] (text_of (value "depth")))
              (CalculateGeneratorInputInfo g p) (true_of (value "check")) (true_of (value "circular_check"))
              (true_of (value "parallel")) (texts_of (value "root_targets"))).

Definition check_configs (configs valid_configs : list text) : result unit :=
  for_each configs tt (λ conf _, raise_if (negb (conf in? valid_configs)) (GypError ("Invalid config specified via --build: " +:+ of_chars conf))).

(** The loop over the formats: one of them. *)
Definition generate_format (run : settings) (format : text) : result (list event) :=
  '(g, p, arguments) ← prepare run format;
  loaded ← input_Load arguments;
  _ ← GenerateOutput g loaded p;
  match texts_of (value_of (options run) "configs") with
  | [] => Ok [Generated format]
  | configs =>
      valid_configs ← first_configurations loaded;
      _ ← check_configs configs valid_configs;
      _ ← PerformBuild g loaded configs p;
      Ok [Generated format; Built configs]
  end.

Definition gyp_main `{SetOrder} (sys : system) (my_name : string) (args : list text) : result (list event) :=
  run ← read_settings sys my_name args;
  for_each (set_order (set_of (texts_of (value_of (options run) "formats")))) []
    (λ format done, events ← generate_format run format; Ok (done ++ events)).

(** The exit status, with the text for stderr; other exceptions leave [main]. *)
Definition main `{SetOrder} (sys : system) (my_name : string) (args : list text) : result (Z * string) :=
  match gyp_main sys my_name args with
  | Ok _ => Ok (0, "")%Z
  | Err (GypError e) | Err (CircularException e) => Ok (1%Z, "gyp: " +:+ e +:+ newline)
  | Err e => Err e
  end.
End generate.

(** [targets[flat_list[0]]['configurations'].keys()] *)
Definition first_target_configurations (loaded : list string * list (string * pydict) * build_data) : result (list text) :=
  let '(flat_list, targets, _) := loaded in
  match flat_list with
  | [] => Err IndexError
  | target :: _ =>
      d ← (match dict_get targets target with Some d => Ok d | None => Err (KeyError target) end);
      configurations ← dict_index d "configurations";
      configurations ← as_dict configurations;
      Ok (chars <$> dict_keys configurations)
  end.

(** ** The command line of node *)

(** tools/gyp_node.py on platforms with paths of POSIX: what is added to its arguments, from the directory [node_root] of
    the repository. *)
Definition node_args (sys : system) (node_root : text) (args : list text) : list text :=
  let root := p_normpath (p_join (cwd sys) node_root) in
  let output_dir := p_join root (chars "out") in
  let common_fn := p_join root (chars "common.gypi") in
  let options_fn := p_join root (chars "config.gypi") in
  let args := args ++ [p_join root (chars "node.gyp")]
    ++ (if path_exists sys common_fn then [chars "-I"; common_fn] else [])
    ++ (if path_exists sys options_fn then [chars "-I"; options_fn] else [])
    ++ [chars "--depth=" ++ node_root] in
  args ++ (if chars "ninja" in? args then [] else [chars "--generator-output"; output_dir; chars "-Goutput_dir=" ++ output_dir])
    ++ [chars "-Dcomponent=static_library"; chars "-Dlibrary=static_library"].

(** * Theorems *)

(** ** Values of the environment, the last of equal ones *)

Fixpoint keep_last (l : list text) : list text :=
  match l with [] => [] | x :: l => if x in? l then keep_last l else x :: keep_last l end.

Lemma elem_of_keep_last x l : x ∈ keep_last l ↔ x ∈ l.
Proof. induction l as [|y l IH]; [done|]. cbn [keep_last]. case_bool_decide; set_solver. Qed.

Lemma remove_first_filter x l : NoDup l → remove_first x l = filter (λ y, y ≠ x) l.
Proof.
  induction 1 as [|y l Hy _ IH]; [done|]. cbn [remove_first]. rewrite filter_cons. case_bool_decide as Hx.
  - rewrite decide_False by naive_solver. subst. symmetry. apply list_filter_all. by intros z Hz ->.
  - rewrite decide_True by done. by f_equal.
Qed.

Lemma NoDup_append_once l x : NoDup l → NoDup (append_once l x).
Proof.
  intros Hl. unfold append_once. rewrite remove_first_filter by done. apply NoDup_app.
  split_and!; [by apply NoDup_filter|intros y Hy ->%list_elem_of_singleton; apply list_elem_of_filter in Hy; naive_solver|apply NoDup_singleton].
Qed.

Lemma append_once_keep_last acc l :
  NoDup acc → foldl append_once acc l = filter (λ y, y ∉ l) acc ++ keep_last l.
Proof.
  revert acc. induction l as [|x l IH]; intros acc Hacc; cbn [foldl keep_last].
  - rewrite app_nil_r. symmetry. apply list_filter_all. intros y _. apply not_elem_of_nil.
  - rewrite IH by by apply NoDup_append_once. unfold append_once. rewrite remove_first_filter, filter_app, <- app_assoc by done.
    rewrite list_filter_filter. f_equal.
    + apply list_filter_iff. set_solver.
    + rewrite filter_cons, filter_nil. case_bool_decide; [by rewrite decide_False by tauto|by rewrite decide_True].
Qed.

Lemma keep_last_fmap (f : text → text) l : Inj (=) (=) f → keep_last (f <$> l) = f <$> keep_last l.
Proof.
  intros Hf. induction l as [|x l IH]; [done|]. cbn [fmap list_fmap keep_last]. rewrite IH.
  destruct (decide (x ∈ l)) as [Hx|Hx].
  - rewrite !bool_decide_eq_true_2; [done|done|]. by apply list_elem_of_fmap_2.
  - rewrite !bool_decide_eq_false_2; [done|done|]. by rewrite list_elem_of_fmap_inj.
Qed.

#[export] Instance FormatOpt_inj flag : Inj (=) (=) (FormatOpt flag).
Proof. intros v w. unfold FormatOpt. destruct (lstarts _ flag); intros ?%app_inv_head; by simplify_eq. Qed.

(** ** The flags of one option *)

Lemma dict_set_set {K V} `{EqDecision K} (d : list (K * V)) k v w : dict_set (dict_set d k v) k w = dict_set d k w.
Proof.
  induction d as [|[k' v'] d IH]; cbn [dict_set]; [by rewrite decide_True|].
  destruct (decide (k' = k)) as [->|Hne]; cbn [dict_set]; [by rewrite decide_True|]. rewrite decide_False by done. by f_equal.
Qed.

(** What the option stands for: the values of the command line after those of the environment, made relative. *)
Definition predicate_of `{RealPath} (depth : text) (g : gyp_option) : text → text := if path_type g then FixPath depth else (λ v, v).
Definition given_texts (o : opt) (l : list text) : optval := match l with [] => dflt o | _ => VTexts l end.
Definition effective `{RealPath} (env : list (string * text)) (depth : text) (values : list (string * optval)) (g : gyp_option) : result optval :=
  let value := value_of values (dest (option_of g)) in
  let use_environment := true_of (value_of values "use_environment") in
  match act (option_of g) with
  | Append =>
      from_env ← inherited env (env_name g) use_environment;
      Ok (given_texts (option_of g) (keep_last (predicate_of depth g <$> from_env) ++ (predicate_of depth g <$> texts_of value)))
  | Store =>
      Ok (match text_of value, env_name g with
          | Some v, _ => VText (predicate_of depth g v)
          | None, Some name => match (if use_environment then getenv env name else None) with Some v => VText (predicate_of depth g v) | None => dflt (option_of g) end
          | None, None => dflt (option_of g)
          end)
  | StoreTrue => Ok (if true_of value then VBool true else dflt (option_of g))
  | _ => Ok (dflt (option_of g))
  end.

(** What the options of the table have in common. *)
Definition first_name (g : gyp_option) : text := hd [] (names (option_of g)).
Definition regular (g : gyp_option) : bool :=
  usable_name parser (option_of g) (first_name g)
  && match act (option_of g) with
     | Append => dflt (option_of g) in? [VNone; VTexts []]
     | Store => true
     | StoreTrue => is_long (first_name g)
     | _ => false
     end.

Lemma regeneratable_regular g : g ∈ regeneratable_options → regular g = true.
Proof.
  assert (forallb regular regeneratable_options = true) as H by (vm_compute; reflexivity).
  intros Hg. by apply (proj1 (forallb_forall _ _) H), list_elem_of_In.
Qed.

Lemma process_texts o name pre l rargs largs vals :
  usable_name parser o name = true → act o = Append → (is_long name = false → [] ∉ l) →
  dict_get vals (dest o) = Some (VTexts pre) →
  process_args parser ((argument_of name <$> l) ++ rargs) largs vals
  = process_args parser rargs largs (dict_set vals (dest o) (VTexts (pre ++ l))).
Proof.
  intros Hname Hact. revert pre vals. induction l as [|x l IH]; intros pre vals Hl Hd; cbn [fmap list_fmap app].
  - by rewrite app_nil_r, dict_set_id.
  - rewrite (process_argument _ o) by (unfold takes_value; first [done|rewrite Hact; done|set_solver]).
    unfold take_action. rewrite Hact, Hd. cbn [from_option id mbind result_bind].
    rewrite (IH (pre ++ [x])); [|set_solver|apply dict_get_set_eq]. by rewrite dict_set_set, <- app_assoc.
Qed.

Lemma process_append o name l rargs largs vals :
  usable_name parser o name = true → act o = Append → (is_long name = false → [] ∉ l) →
  dict_get vals (dest o) = Some (dflt o) → dflt o ∈ [VNone; VTexts []] →
  process_args parser ((argument_of name <$> l) ++ rargs) largs vals
  = process_args parser rargs largs (dict_set vals (dest o) (given_texts o l)).
Proof.
  unfold given_texts. intros Hname Hact Hl Hd Hdflt. destruct l as [|x l]; [by rewrite dict_set_id|].
  apply elem_of_cons in Hdflt as [Hdflt|Hdflt%list_elem_of_singleton]; rewrite Hdflt in *.
  - cbn [fmap list_fmap app]. rewrite (process_argument _ o) by (unfold takes_value; first [done|rewrite Hact; done|set_solver]).
    unfold take_action. rewrite Hact, Hd. cbn [from_option id mbind result_bind].
    rewrite (process_texts o name [x]) by (first [done|set_solver|apply dict_get_set_eq]). by rewrite dict_set_set.
  - rewrite (process_texts o name []); done.
Qed.

Lemma FixPath_nonempty `{RealPath} depth path : FixPath depth path ≠ [].
Proof. unfold FixPath. by destruct (FixIfRelativePath path depth). Qed.

(** An option with a short name would take an empty value for none. *)
Definition no_empty_values (env : list (string * text)) (values : list (string * optval)) : Prop :=
  ∀ g, g ∈ regeneratable_options → act (option_of g) = Append → path_type g = false →
  ([] ∉ texts_of (value_of values (dest (option_of g))))
  ∧ ∀ l, inherited env (env_name g) (true_of (value_of values "use_environment")) = Ok l → [] ∉ l.

Lemma text_of_nonempty v t : text_of v = Some t → t ≠ [].
Proof. destruct v as [|[|c s]| |]; intros [=]; by subst. Qed.

Lemma getenv_nonempty env name t : getenv env name = Some t → t ≠ [].
Proof. unfold getenv. destruct (dict_get env name) as [[|c s]|]; intros [=]; by subst. Qed.

Lemma predicate_nonempty `{RealPath} depth g t : t ≠ [] → predicate_of depth g t ≠ [].
Proof. intros Ht. unfold predicate_of. destruct (path_type g); [apply FixPath_nonempty|done]. Qed.

Lemma RegenerateAppendFlag_texts env flag values predicate env_name use flags :
  RegenerateAppendFlag env flag values predicate env_name use = Ok flags →
  ∃ from_env, inherited env env_name use = Ok from_env
    ∧ flags = argument_of flag <$> keep_last (predicate <$> from_env) ++ (predicate <$> values).
Proof.
  unfold RegenerateAppendFlag. intros (from_env&Henv&[= <-])%bind_Ok. exists from_env. split; [done|].
  rewrite (append_once_keep_last []), filter_nil by apply NoDup_nil_2. cbn [app].
  rewrite fmap_app, <- keep_last_fmap, <- !list_fmap_compose by apply FormatOpt_inj. done.
Qed.

Lemma process_regenerated `{RealPath} env depth values g flags rargs largs vals :
  g ∈ regeneratable_options → no_empty_values env values →
  dict_get vals (dest (option_of g)) = Some (dflt (option_of g)) →
  regenerate_option env depth values (true_of (value_of values "use_environment")) g = Ok flags →
  ∃ v, effective env depth values g = Ok v
    ∧ process_args parser (flags ++ rargs) largs vals = process_args parser rargs largs (dict_set vals (dest (option_of g)) v).
Proof.
  intros Hg Hvalues Hd Hrun. apply regeneratable_regular in Hg as Hreg. unfold regular in Hreg.
  apply andb_true_iff in Hreg as [Hname Hact]. unfold regenerate_option, effective in *. fold (first_name g) in Hrun. fold (predicate_of depth g) in Hrun.
  destruct (act (option_of g)) eqn:Ha; try done.
  - apply RegenerateAppendFlag_texts in Hrun as (from_env&Henv&->). rewrite Henv. eexists. split; [done|].
    apply process_append; [done|done| |done|by apply bool_decide_eq_true in Hact].
    intros _. rewrite elem_of_app, elem_of_keep_last, !list_elem_of_fmap. unfold predicate_of. destruct (path_type g) eqn:Hpath.
    + intros [(t&Ht&_)|(t&Ht&_)]; by eapply FixPath_nonempty.
    + destruct (Hvalues g Hg Ha Hpath) as [Hv He]. intros [(t&<-&Ht)|(t&<-&Ht)]; [by eapply He|done].
  - assert (∀ t, t ≠ [] → process_args parser ([FormatOpt (first_name g) (predicate_of depth g t)] ++ rargs) largs vals
      = process_args parser rargs largs (dict_set vals (dest (option_of g)) (VText (predicate_of depth g t)))) as Hone.
    { intros t Ht. cbn [app]. change (FormatOpt ?n ?v) with (argument_of n v).
      rewrite (process_argument _ (option_of g)) by (unfold takes_value; first [done|by rewrite Ha|intros _; by apply predicate_nonempty]).
      unfold take_action. by rewrite Ha. }
    assert (∀ flags, Ok flags = Ok [] → process_args parser (flags ++ rargs) largs vals
      = process_args parser rargs largs (dict_set vals (dest (option_of g)) (dflt (option_of g)))) as Hnone.
    { intros ? [= ->]. by rewrite dict_set_id. }
    eexists. split; [done|]. destruct (text_of _) as [t|] eqn:Ht.
    { injection Hrun as <-. by apply Hone, (text_of_nonempty _ _ Ht). }
    destruct (env_name g) as [name|]; [|by injection Hrun as <-; apply Hnone].
    destruct (if true_of _ then getenv env name else None) as [t|] eqn:Henv; injection Hrun as <-; [|by apply Hnone].
    apply Hone. destruct (true_of _); [by eapply getenv_nonempty|done].
  - injection Hrun as <-. eexists. split; [done|]. destruct (true_of _); [|by rewrite dict_set_id].
    cbn [app]. rewrite (process_flag _ (option_of g)) by (unfold takes_value; first [done|by rewrite Ha]).
    unfold take_action. by rewrite Ha.
Qed.

(** ** All flags *)

Lemma process_table `{RealPath} env depth values table flags rest vals :
  table ⊆ regeneratable_options → NoDup ((λ g, dest (option_of g)) <$> table) → no_empty_values env values →
  (∀ g, g ∈ table → dict_get vals (dest (option_of g)) = Some (dflt (option_of g))) →
  map_result (regenerate_option env depth values (true_of (value_of values "use_environment"))) table = Ok flags →
  ∃ vals', process_args parser (concat flags ++ rest) [] vals = process_args parser rest [] vals'
    ∧ (∀ g, g ∈ table → ∃ v, effective env depth values g = Ok v ∧ dict_get vals' (dest (option_of g)) = Some v)
    ∧ ∀ name, (∀ g, g ∈ table → dest (option_of g) ≠ name) → dict_get vals' name = dict_get vals name.
Proof.
  intros Hsub Hnd Hvalues. revert flags vals. induction table as [|g table IH]; intros flags vals Hd Hrun.
  - injection Hrun as <-. exists vals. split_and!; [done|by intros ? ?%elem_of_nil|done].
  - apply map_result_Ok, Forall2_cons_inv_l in Hrun as (fl&fls&Hfl&Hfls&->). apply map_result_Ok in Hfls.
    rewrite fmap_cons, NoDup_cons in Hnd. destruct Hnd as [Hg Hnd]. cbn [concat]. rewrite <- app_assoc.
    destruct (process_regenerated env depth values g fl (concat fls ++ rest) [] vals) as (v&Hv&->); [set_solver|done|apply Hd; by left|done|].
    assert (∀ g', g' ∈ table → dest (option_of g) ≠ dest (option_of g')) as Hne.
    { intros g' Hg' Heq. apply Hg. rewrite Heq. by apply (list_elem_of_fmap_2 (λ g, dest (option_of g))). }
    destruct (IH ltac:(set_solver) Hnd fls (dict_set vals (dest (option_of g)) v)) as (vals'&Hrun&Hin&Hout); [|done|].
    { intros g' Hg'. rewrite dict_get_set_ne by by apply Hne. apply Hd. by right. }
    exists vals'. split_and!; [done| |].
    + intros g' [->|Hg']%elem_of_cons; [|by apply Hin]. exists v. split; [done|]. rewrite Hout by (intros g' Hg' Heq; by eapply Hne).
      apply dict_get_set_eq.
    + intros name Hname. rewrite Hout by (intros; apply Hname; by right). apply dict_get_set_ne, Hname. by left.
Qed.

(** Arguments that are no options. *)
Definition plain (arg : text) : bool := negb (lstarts [dash] arg) || (arg ==? [dash]).

Lemma process_plain rest largs vals : forallb plain rest = true → process_args parser rest largs vals = Ok (vals, largs ++ rest).
Proof.
  revert largs. induction rest as [|arg rest IH]; intros largs Hrest; cbn [process_args]; [by rewrite app_nil_r|].
  cbn [forallb] in Hrest. apply andb_true_iff in Hrest as [Harg Hrest].
  assert (lstarts [dash] arg && negb (arg ==? [dash]) = false) as Hdash.
  { unfold plain in Harg. destruct (lstarts _ _); [|done]. cbn in Harg. by rewrite Harg. }
  assert ((arg ==? [dash; dash]) = false) as ->. { apply bool_decide_eq_false. intros ->. done. }
  assert (is_long arg = false) as ->.
  { apply not_true_is_false. unfold is_long. intros [s ->]%lstarts_spec. unfold plain in Harg.
    by rewrite (lstarts_app [dash] (dash :: s)) in Harg. }
  rewrite Hdash, IH by done. by rewrite <- app_assoc.
Qed.

Lemma regeneratable_dests : NoDup ((λ g, dest (option_of g)) <$> regeneratable_options).
Proof. apply (bool_decide_unpack _). vm_compute. done. Qed.

Lemma default_of g : g ∈ gyp_options → dict_get (default_values parser) (dest (option_of g)) = Some (dflt (option_of g)).
Proof.
  assert (forallb (λ g, bool_decide (dict_get (default_values parser) (dest (option_of g)) = Some (dflt (option_of g)))) gyp_options = true)
    as H by (vm_compute; reflexivity).
  intros Hg. by eapply bool_decide_eq_true, (proj1 (forallb_forall _ _) H), list_elem_of_In.
Qed.

Lemma regeneratable_not_flag g : g ∈ regeneratable_options → g ∈ gyp_options ∧ "use_environment" ≠ dest (option_of g).
Proof.
  intros Hg. split; [by apply list_elem_of_filter in Hg as []|]. revert Hg.
  assert (forallb (λ g, negb ("use_environment" ==? dest (option_of g))) regeneratable_options = true) as H by (vm_compute; reflexivity).
  intros Hg%list_elem_of_In. rewrite forallb_forall in H. by apply H, negb_true_iff, bool_decide_eq_false in Hg.
Qed.

Lemma regenerated_options `{RealPath} env table depth values flags files :
  table ≡ₚ regeneratable_options → no_empty_values env values → forallb plain files = true →
  RegenerateFlags env table depth values = Ok flags →
  ∃ values', parse_args parser (flags ++ files) = Ok (values', files)
    ∧ (∀ g, g ∈ regeneratable_options → ∃ v, effective env depth values g = Ok v ∧ dict_get values' (dest (option_of g)) = Some v)
    ∧ true_of (value_of values' "use_environment") = false
    ∧ ∀ g, g ∈ gyp_options → dest (option_of g) ∉ "use_environment" :: ((λ g, dest (option_of g)) <$> regeneratable_options) →
        dict_get values' (dest (option_of g)) = Some (dflt (option_of g)).
Proof.
  intros Htable Hvalues Hfiles (fls&Hrun&[= <-])%bind_Ok. unfold parse_args. cbn [app].
  rewrite (process_flag parser (option_of (gyp_opt ["--ignore-environment"] "use_environment" StoreFalse (VBool true) false None false)))
    by (vm_compute; reflexivity).
  unfold take_action. cbn [act option_of gyp_opt dest mbind result_bind].
  destruct (process_table env depth values table fls files (dict_set (default_values parser) "use_environment" (VBool false)))
    as (values'&->&Hin&Hout).
  - intros g. by rewrite Htable.
  - rewrite Htable. apply regeneratable_dests.
  - done.
  - intros g Hg. rewrite Htable in Hg. apply regeneratable_not_flag in Hg as []. rewrite dict_get_set_ne by done. by apply default_of.
  - done.
  - exists values'. split_and!.
    + by apply process_plain.
    + intros g Hg. apply Hin. by rewrite Htable.
    + unfold value_of. rewrite Hout, dict_get_set_eq; [done|]. intros g Hg. rewrite Htable in Hg. symmetry. by apply regeneratable_not_flag.
    + intros g Hg [Hue Hdest]%not_elem_of_cons. rewrite Hout, dict_get_set_ne; [by apply default_of|done|].
      intros g' Hg' Heq. apply Hdest. rewrite <- Heq. apply (list_elem_of_fmap_2 (λ g, dest (option_of g))). by rewrite <- Htable.
Qed.


(** ** Names with values *)

Fixpoint last_value (k : text) (l : list text) : option nvalue :=
  match l with
  | [] => None
  | item :: l => match last_value k l with Some v => Some v | None => if decide ((name_value item).1 = k) then Some (name_value item).2 else None end
  end.

Lemma NameValueListToDict_get l k : dict_get (NameValueListToDict l) k = last_value k l.
Proof.
  unfold NameValueListToDict. enough (∀ d, dict_get (foldl (λ result item, let '(name, value) := name_value item in dict_set result name value) d l) k
    = match last_value k l with Some v => Some v | None => dict_get d k end) as -> by by destruct (last_value k l).
  induction l as [|item l IH]; intros d; [done|]. cbn [foldl last_value]. rewrite IH. destruct (last_value k l); [done|].
  destruct (name_value item) as [name value]. cbn. rewrite dict_get_set. by destruct (decide _).
Qed.

Lemma last_value_app k l1 l2 : last_value k (l1 ++ l2) = match last_value k l2 with Some v => Some v | None => last_value k l1 end.
Proof. induction l1 as [|x l1 IH]; cbn [app last_value]; [by destruct (last_value k l2)|]. rewrite IH. by destruct (last_value k l2). Qed.

Lemma last_value_None k l x : last_value k l = None → x ∈ l → (name_value x).1 ≠ k.
Proof.
  induction l as [|y l IH]; [by intros _ ?%elem_of_nil|]. cbn [last_value]. destruct (last_value k l); [done|].
  case_decide; [done|]. intros _ [->|Hx]%elem_of_cons; [done|by apply IH].
Qed.

Lemma last_value_keep_last k l : last_value k (keep_last l) = last_value k l.
Proof.
  induction l as [|x l IH]; [done|]. cbn [keep_last last_value]. case_bool_decide as Hx; cbn [last_value]; rewrite IH; [|done].
  destruct (last_value k l) eqn:Hl; [done|]. by rewrite decide_False by exact (last_value_None _ _ _ Hl Hx).
Qed.

(** ** Settings *)

Lemma src_dir_Some rev_components d :
  src_dir rev_components = Some d →
  ∃ after before, rev_components = after ++ chars "src" :: before ∧ (chars "src" ∉ after) ∧ d = ljoin [slash] (reverse before ++ [chars "src"]).
Proof.
  induction rev_components as [|c cs IH]; [done|]. cbn [src_dir]. case_bool_decide as Hc.
  - intros [= <-]. exists [], cs. subst. rewrite reverse_cons. split_and!; [done|apply not_elem_of_nil|done].
  - intros (after&before&->&Hafter&->)%IH. exists (c :: after), before. split_and!; [done| |done]. set_solver.
Qed.

Lemma src_dir_None rev_components : src_dir rev_components = None ↔ chars "src" ∉ rev_components.
Proof.
  induction rev_components as [|c cs IH]; cbn [src_dir]; [split; [intros _; apply not_elem_of_nil|done]|].
  case_bool_decide as Hc; [split; [done|set_solver]|]. rewrite IH. set_solver.
Qed.

Lemma ljoin_snoc_nonempty sep (ls : list text) w : w ≠ [] → ljoin sep (ls ++ [w]) ≠ [].
Proof.
  intros Hw. destruct ls as [|l ls]; [done|]. cbn [app]. rewrite ljoin_cons by by destruct ls.
  intros [_ [_ H]%app_nil]%app_nil. revert H. induction ls as [|l' ls IH]; [done|]. cbn [app]. rewrite ljoin_cons by by destruct ls.
  by intros [_ [_ H]%app_nil]%app_nil.
Qed.

Lemma find_depth_nonempty sys files d : find_depth sys files = Some d → d ≠ [].
Proof.
  induction files as [|f files IH]; [done|]. cbn [find_depth]. destruct (depth_of sys f) as [d'|] eqn:Hd; [|done]. intros [= <-].
  apply src_dir_Some in Hd as (?&?&_&_&->). by apply ljoin_snoc_nonempty.
Qed.

Lemma read_settings_Ok sys my_name args run :
  read_settings sys my_name args = Ok run →
  is_Some (text_of (value_of (options run) "depth")) ∧ is_Some (text_of (value_of (options run) "toplevel_dir"))
  ∧ with_environment sys (options run) "GYP_DEFINES" "defines" = Ok (cmdline_default_variables run)
  ∧ with_environment sys (options run) "GYP_GENERATOR_FLAGS" "generator_flags" = Ok (generator_flags run).
Proof.
  unfold read_settings. intros ([values files]&_&Hrun)%bind_Ok. case_bool_decide; [done|].
  apply bind_Ok in Hrun as (values1&Hdepth&Hrun). apply bind_Ok in Hrun as (variables&Hv&Hrun). apply bind_Ok in Hrun as (flags&Hf&[= <-]).
  cbn [options cmdline_default_variables generator_flags].
  assert (is_Some (text_of (value_of values1 "depth"))) as Hd.
  { unfold choose_depth in Hdepth. destruct (text_of _) eqn:Ht; [injection Hdepth as <-; by rewrite Ht|].
    destruct (find_depth sys _) as [d|] eqn:Hfd; [|done]. injection Hdepth as <-. unfold value_of. rewrite dict_get_set_eq.
    apply find_depth_nonempty in Hfd. cbn. by destruct d. }
  split_and!; [| |done|done]; unfold set_toplevel_dir; destruct (text_of (value_of values1 "toplevel_dir")) eqn:Ht;
    [done| |by rewrite Ht|by unfold value_of in *; rewrite dict_get_set_eq].
  unfold value_of in *. by rewrite dict_get_set_ne.
Qed.

Definition option_at (i : nat) : gyp_option := nth i gyp_options (gyp_opt [] "" ShowHelp VNone false None false).
Lemma regenerated_at i : regenerate (option_at i) = true → i < 17 → option_at i ∈ regeneratable_options.
Proof.
  intros Hi Hlt. apply list_elem_of_filter. split; [done|]. apply list_elem_of_In, nth_In. done.
Qed.

Lemma effective_texts `{RealPath} env depth values g v :
  g ∈ regeneratable_options → act (option_of g) = Append → effective env depth values g = Ok v →
  ∃ from_env, inherited env (env_name g) (true_of (value_of values "use_environment")) = Ok from_env
    ∧ texts_of v = keep_last (predicate_of depth g <$> from_env) ++ (predicate_of depth g <$> texts_of (value_of values (dest (option_of g)))).
Proof.
  intros Hg Hact Hv. apply regeneratable_regular in Hg. unfold regular in Hg. rewrite Hact in Hg. apply andb_true_iff in Hg as [_ Hd%bool_decide_eq_true].
  unfold effective in Hv. rewrite Hact in Hv. apply bind_Ok in Hv as (from_env&Henv&[= <-]). exists from_env. split; [done|].
  unfold given_texts. destruct (_ ++ _); [|done]. apply elem_of_cons in Hd as [-> | ->%list_elem_of_singleton]; done.
Qed.

(** The same names have the same values. *)
Lemma with_environment_effective `{RealPath} sys sys' depth values values' i v env_name_ dict :
  option_at i ∈ regeneratable_options → act (option_of (option_at i)) = Append → env_name (option_at i) = Some env_name_ → path_type (option_at i) = false →
  effective (environ sys) depth values (option_at i) = Ok v → value_of values' (dest (option_of (option_at i))) = v →
  true_of (value_of values' "use_environment") = false →
  with_environment sys values env_name_ (dest (option_of (option_at i))) = Ok dict →
  ∃ dict', with_environment sys' values' env_name_ (dest (option_of (option_at i))) = Ok dict' ∧ ∀ k, dict_get dict' k = dict_get dict k.
Proof.
  intros Hg Hact Henv Hpath Hv Hv' Hue Hdict. unfold with_environment in *. rewrite Hue, Hv'.
  apply effective_texts in Hv as (from_env&Hfrom&->); [|done|done]. rewrite Henv in Hfrom. cbn [inherited] in Hfrom. rewrite Hfrom in Hdict.
  injection Hdict as <-. eexists. split; [done|]. intros k. rewrite !NameValueListToDict_get. cbn [app]. unfold predicate_of. rewrite Hpath.
  by rewrite !list_fmap_id, !last_value_app, last_value_keep_last.
Qed.

(** What regenerated options have in common with the options of the run they come from. *)
Record same_settings `{RealPath} (depth : text) (run run' : settings) : Prop := {
  same_variables : ∀ k, dict_get (cmdline_default_variables run') k = dict_get (cmdline_default_variables run) k;
  same_generator_flags : ∀ k, dict_get (generator_flags run') k = dict_get (generator_flags run) k;
  same_lists : ∀ name, name ∈ ["configs"; "debug"; "root_targets"] →
    texts_of (value_of (options run') name) = texts_of (value_of (options run) name);
  same_check : true_of (value_of (options run') "check") = true_of (value_of (options run) "check");
  same_suffix : text_of (value_of (options run') "suffix") = text_of (value_of (options run) "suffix");
  same_includes : texts_of (value_of (options run') "includes") = FixPath depth <$> texts_of (value_of (options run) "includes");
  same_paths : ∀ name, name ∈ ["depth"; "toplevel_dir"; "generator_output"] →
    text_of (value_of (options run') name) = FixPath depth <$> text_of (value_of (options run) name)
}.

Lemma text_of_VText t : t ≠ [] → text_of (VText t) = Some t.
Proof. by destruct t. Qed.

(** A stored text that was given is kept, made relative if it is a path. *)
Lemma effective_text `{RealPath} env depth values i v :
  act (option_of (option_at i)) = Store → text_of (dflt (option_of (option_at i))) = None →
  (match env_name (option_at i) with Some name => if true_of (value_of values "use_environment") then getenv env name else None | None => None end = None
   ∨ is_Some (text_of (value_of values (dest (option_of (option_at i)))))) →
  effective env depth values (option_at i) = Ok v →
  text_of v = predicate_of depth (option_at i) <$> text_of (value_of values (dest (option_of (option_at i)))).
Proof.
  intros Hact Hd Henv Hv. unfold effective in Hv. rewrite Hact in Hv. injection Hv as <-.
  destruct (text_of (value_of values _)) as [t|] eqn:Ht.
  - apply text_of_VText, predicate_nonempty. by eapply text_of_nonempty.
  - destruct Henv as [Henv|[? [=]]]. destruct (env_name _); [|done]. by rewrite Henv.
Qed.

Lemma effective_flag `{RealPath} env depth values i v :
  act (option_of (option_at i)) = StoreTrue → true_of (dflt (option_of (option_at i))) = false →
  effective env depth values (option_at i) = Ok v →
  true_of v = true_of (value_of values (dest (option_of (option_at i)))).
Proof. intros Hact Hd Hv. unfold effective in Hv. rewrite Hact in Hv. injection Hv as <-. by destruct (true_of (value_of values _)). Qed.

Lemma effective_list `{RealPath} env depth values i v :
  option_at i ∈ regeneratable_options → act (option_of (option_at i)) = Append → env_name (option_at i) = None →
  effective env depth values (option_at i) = Ok v →
  texts_of v = predicate_of depth (option_at i) <$> texts_of (value_of values (dest (option_of (option_at i)))).
Proof.
  intros Hg Hact Henv (from_env&Hfrom&->)%effective_texts; [|done|done]. rewrite Henv in Hfrom. by injection Hfrom as <-.
Qed.

Lemma set_generator_output_ignored sys values :
  true_of (value_of values "use_environment") = false → set_generator_output sys values = values.
Proof. intros Hue. unfold set_generator_output. rewrite Hue. by destruct (text_of _). Qed.

Lemma choose_depth_given sys values files : is_Some (text_of (value_of values "depth")) → choose_depth sys values files = Ok values.
Proof. intros [d Hd]. unfold choose_depth. by rewrite Hd. Qed.

Lemma set_toplevel_dir_given values : is_Some (text_of (value_of values "toplevel_dir")) → set_toplevel_dir values = values.
Proof. intros [d Hd]. unfold set_toplevel_dir. by rewrite Hd. Qed.

Lemma value_of_set_ne values name v name' : name ≠ name' → value_of (dict_set values name v) name' = value_of values name'.
Proof. intros. unfold value_of. by rewrite dict_get_set_ne. Qed.

Lemma with_environment_ignored sys values env_name name :
  true_of (value_of values "use_environment") = false →
  with_environment sys values env_name name = Ok (NameValueListToDict (texts_of (value_of values name))).
Proof. intros Hue. unfold with_environment. by rewrite Hue. Qed.

(** The settings of a run from options without the environment and with the directories. *)
Lemma read_settings_parsed sys my_name args values files :
  parse_args parser args = Ok (values, files) → files ≠ [] → true_of (value_of values "use_environment") = false →
  is_Some (text_of (value_of values "depth")) → is_Some (text_of (value_of values "toplevel_dir")) →
  ∃ run, read_settings sys my_name args = Ok run ∧ build_files run = files
    ∧ with_environment sys (options run) "GYP_DEFINES" "defines" = Ok (cmdline_default_variables run)
    ∧ with_environment sys (options run) "GYP_GENERATOR_FLAGS" "generator_flags" = Ok (generator_flags run)
    ∧ ∀ name, name ∉ ["formats"; "parallel"] → value_of (options run) name = value_of values name.
Proof.
  intros Hparse Hfiles Hue [d Hd] [t Ht]. unfold read_settings. rewrite Hparse. cbn [mbind result_bind].
  rewrite set_generator_output_ignored by by rewrite value_of_set_ne.
  rewrite (bool_decide_eq_false_2 (files = [])), (bool_decide_eq_false_2 (files = [])) by done.
  rewrite choose_depth_given by (rewrite !value_of_set_ne by done; by eexists). cbn [mbind result_bind].
  rewrite set_toplevel_dir_given by (rewrite !value_of_set_ne by done; by eexists).
  rewrite !with_environment_ignored by by rewrite !value_of_set_ne. cbn [mbind result_bind]. eexists. split; [done|].
  cbn [build_files options cmdline_default_variables generator_flags].
  rewrite !with_environment_ignored by by rewrite !value_of_set_ne. split_and!; [done..|].
  intros name [Hf Hp%not_elem_of_cons]%not_elem_of_cons. rewrite !value_of_set_ne; naive_solver.
Qed.

Lemma choose_depth_ne sys values files values' name : choose_depth sys values files = Ok values' → name ≠ "depth" → value_of values' name = value_of values name.
Proof.
  unfold choose_depth. intros Hrun Hne. destruct (text_of _); [by injection Hrun as <-|]. destruct (find_depth _ _); [|done]. injection Hrun as <-.
  by rewrite value_of_set_ne.
Qed.

Lemma set_toplevel_dir_ne values name : name ≠ "toplevel_dir" → value_of (set_toplevel_dir values) name = value_of values name.
Proof. intros Hne. unfold set_toplevel_dir. destruct (text_of _); [done|]. by rewrite value_of_set_ne. Qed.

(** The output directory of the environment is in the options already. *)
Lemma generator_output_read sys my_name args run :
  read_settings sys my_name args = Ok run →
  (if true_of (value_of (options run) "use_environment") then getenv (environ sys) "GYP_GENERATOR_OUTPUT" else None) = None
  ∨ is_Some (text_of (value_of (options run) "generator_output")).
Proof.
  unfold read_settings. intros ([values files]&_&Hrun)%bind_Ok. case_bool_decide; [done|].
  apply bind_Ok in Hrun as (values1&Hdepth&Hrun). apply bind_Ok in Hrun as (variables&_&Hrun). apply bind_Ok in Hrun as (flags&_&[= <-]).
  cbn [options]. rewrite !set_toplevel_dir_ne, !(choose_depth_ne _ _ _ _ _ Hdepth), !value_of_set_ne by done.
  unfold set_generator_output. rewrite !value_of_set_ne by done. destruct (text_of (value_of values "generator_output")) as [t|] eqn:Ht.
  - right. rewrite value_of_set_ne, Ht by done. by eexists.
  - destruct (if true_of (value_of values "use_environment") then getenv (environ sys) "GYP_GENERATOR_OUTPUT" else None) as [t|] eqn:Henv; [right|left].
    + unfold value_of. rewrite dict_get_set_eq. cbn [from_option id]. rewrite text_of_VText; [by eexists|].
      destruct (true_of (value_of values "use_environment")); [by eapply getenv_nonempty|done].
    + rewrite value_of_set_ne by done. done.
Qed.

(** What [RegenerateFlags_roundtrip] gives, option by option. *)
Section regenerated.
Context `{RealPath} (env : list (string * text)) (depth : text) (values values' : list (string * optval)).
Context (Hin : ∀ g, g ∈ regeneratable_options → ∃ v, effective env depth values g = Ok v ∧ dict_get values' (dest (option_of g)) = Some v).

Lemma regenerated_value i : option_at i ∈ regeneratable_options →
  ∃ v, effective env depth values (option_at i) = Ok v ∧ value_of values' (dest (option_of (option_at i))) = v.
Proof. intros Hi. destruct (Hin _ Hi) as (v&Hv&Hget). exists v. unfold value_of. by rewrite Hget. Qed.

Lemma regenerated_text i :
  option_at i ∈ regeneratable_options → act (option_of (option_at i)) = Store → text_of (dflt (option_of (option_at i))) = None →
  (match env_name (option_at i) with Some name => if true_of (value_of values "use_environment") then getenv env name else None | None => None end = None
   ∨ is_Some (text_of (value_of values (dest (option_of (option_at i)))))) →
  text_of (value_of values' (dest (option_of (option_at i))))
  = predicate_of depth (option_at i) <$> text_of (value_of values (dest (option_of (option_at i)))).
Proof. intros Hi Hact Hd Henv. destruct (regenerated_value i Hi) as (v&Hv&->). by apply effective_text with (env := env). Qed.

Lemma regenerated_list i :
  option_at i ∈ regeneratable_options → act (option_of (option_at i)) = Append → env_name (option_at i) = None →
  texts_of (value_of values' (dest (option_of (option_at i))))
  = predicate_of depth (option_at i) <$> texts_of (value_of values (dest (option_of (option_at i)))).
Proof. intros Hi Hact Henv. destruct (regenerated_value i Hi) as (v&Hv&->). by eapply effective_list. Qed.

Lemma regenerated_flag i :
  option_at i ∈ regeneratable_options → act (option_of (option_at i)) = StoreTrue → true_of (dflt (option_of (option_at i))) = false →
  true_of (value_of values' (dest (option_of (option_at i)))) = true_of (value_of values (dest (option_of (option_at i)))).
Proof. intros Hi Hact Hd. destruct (regenerated_value i Hi) as (v&Hv&->). by eapply effective_flag. Qed.
End regenerated.


(** ** The depth and the formats *)

Lemma depth_of_Some sys file d :
  depth_of sys file = Some d →
  ∃ above below, directory_components sys file = above ++ chars "src" :: below ∧ (chars "src" ∉ below) ∧ d = ljoin [slash] (above ++ [chars "src"]).
Proof.
  unfold depth_of. intros (after&before&Hrev&Hafter&->)%src_dir_Some. exists (reverse before), (reverse after).
  split_and!; [|by rewrite elem_of_reverse|done].
  by rewrite <- (reverse_involutive (directory_components sys file)), Hrev, reverse_app, reverse_cons, <- app_assoc.
Qed.

(** The depth that is found is the directory of the first build file below a directory src, cut after its last component of that name;
    none is found exactly if no build file is below one. *)
Theorem find_depth_correct sys files :
  match find_depth sys files with
  | Some d => ∃ before file after above below, files = before ++ file :: after
      ∧ (∀ f, f ∈ before → chars "src" ∉ directory_components sys f)
      ∧ directory_components sys file = above ++ chars "src" :: below ∧ (chars "src" ∉ below) ∧ d = ljoin [slash] (above ++ [chars "src"])
  | None => ∀ f, f ∈ files → chars "src" ∉ directory_components sys f
  end.
Proof.
  induction files as [|f files IH]; cbn [find_depth]; [by intros ? ?%elem_of_nil|]. destruct (depth_of sys f) as [d|] eqn:Hd.
  - apply depth_of_Some in Hd as (above&below&?&?&?). exists [], f, files, above, below. split_and!; try done. by intros ? ?%elem_of_nil.
  - unfold depth_of in Hd. rewrite src_dir_None, elem_of_reverse in Hd. destruct (find_depth sys files).
    + destruct IH as (before&file&after&above&below&->&?&?&?&?). exists (f :: before), file, after, above, below. split_and!; try done.
      intros f' [->|?]%elem_of_cons; auto.
    + intros f' [->|?]%elem_of_cons; auto.
Qed.

Lemma for_each_events (f : text → result (list event)) formats done events :
  for_each formats done (λ format done, l ← f format; Ok (done ++ l)) = Ok events →
  ∃ ls, Forall2 (λ format l, f format = Ok l) formats ls ∧ events = done ++ concat ls.
Proof.
  revert done. induction formats as [|format formats IH]; intros done Hrun; cbn [for_each] in Hrun.
  - injection Hrun as ->. exists []. by rewrite app_nil_r.
  - apply bind_Ok in Hrun as (done'&(l&Hl&[= <-])%bind_Ok&(ls&Hls&->)%IH). exists (l :: ls). cbn [concat]. rewrite <- app_assoc. auto.
Qed.

Lemma check_configs_Ok configs valid_configs u : check_configs configs valid_configs = Ok u → configs ⊆ valid_configs.
Proof.
  unfold check_configs. intros Hrun conf. revert conf. refine (for_each_establish (λ conf _, conf ∈ valid_configs) _ _ _ _ _ Hrun).
  intros conf [] [] _ Hc%raise_if_Ok. apply negb_false_iff, bool_decide_eq_true in Hc. by split.
Qed.

Definition generated (e : event) : option text := match e with Generated format => Some format | Built _ => None end.

(** What it means that a format was generated, and its configurations built. *)
Record format_done {data} (current : text) (import : option text * text → result (generator data)) (input_Load : load_arguments → result data)
    (first_configurations : data → result (list text)) (run : settings) (format : text) : Prop := {
  format_prepared : ∃ g p arguments loaded, prepare current import run format = Ok (g, p, arguments)
    ∧ input_Load arguments = Ok loaded ∧ GenerateOutput g loaded p = Ok tt
    ∧ (texts_of (value_of (options run) "configs") ≠ [] → ∃ valid_configs, first_configurations loaded = Ok valid_configs
        ∧ texts_of (value_of (options run) "configs") ⊆ valid_configs ∧ PerformBuild g loaded (texts_of (value_of (options run) "configs")) p = Ok tt)
}.

Lemma generate_format_Ok {data} current import (input_Load : load_arguments → result data) first_configurations run format l :
  generate_format current import input_Load first_configurations run format = Ok l →
  omap generated l = [format] ∧ format_done current import input_Load first_configurations run format.
Proof.
  unfold generate_format. intros ([[g p] arguments]&Hp&Hrun)%bind_Ok. apply bind_Ok in Hrun as (loaded&Hl&Hrun). apply bind_Ok in Hrun as ([]&Hg&Hrun).
  destruct (texts_of (value_of (options run) "configs")) as [|c cs] eqn:Hc.
  - injection Hrun as <-. split; [done|]. split. exists g, p, arguments, loaded. rewrite Hc. by split_and!.
  - apply bind_Ok in Hrun as (valid&Hv&Hrun). apply bind_Ok in Hrun as (u&Hcheck%check_configs_Ok&Hrun). apply bind_Ok in Hrun as ([]&Hb&[= <-]).
    split; [done|]. split. exists g, p, arguments, loaded. rewrite Hc. split_and!; try done. intros _. by exists valid.
Qed.

(** C34: a run of gyp that succeeds has generated every requested format exactly once, whatever the order in which the set of formats is taken,
    each from what Load returned for its arguments, and built only configurations that the first target has. *)
Theorem gyp_main_correct {data} `{SetOrder} current import (input_Load : load_arguments → result data) first_configurations sys my_name args events :
  gyp_main current import input_Load first_configurations sys my_name args = Ok events →
  ∃ run, read_settings sys my_name args = Ok run
    ∧ NoDup (omap generated events)
    ∧ (∀ format, format ∈ omap generated events ↔ format ∈ texts_of (value_of (options run) "formats"))
    ∧ ∀ format, format ∈ omap generated events → format_done current import input_Load first_configurations run format.
Proof.
  unfold gyp_main. intros (run&Hrun&Hloop)%bind_Ok. exists run. split; [done|]. apply for_each_events in Hloop as (ls&Hls&->). cbn [app].
  assert (omap generated (concat ls) = set_order (set_of (texts_of (value_of (options run) "formats")))
    ∧ Forall (format_done current import input_Load first_configurations run) (set_order (set_of (texts_of (value_of (options run) "formats"))))) as [-> Hdone].
  { induction Hls as [|format l formats ls Hl _ [IH1 IH2]]; [done|]. apply generate_format_Ok in Hl as [Hg Hd].
    cbn [concat]. rewrite omap_app, Hg, IH1. split; [done|]. by constructor. }
  split_and!.
  - rewrite set_order_perm. apply NoDup_set_of.
  - intros format. by rewrite set_order_perm, elem_of_set_of.
  - by apply Forall_forall.
Qed.

(** * Instances and examples *)

(** [gyp.input.Load] as an argument of [gyp_main], with a store of its own, for variables whose values are texts and integers. *)
Definition stored_variables (variables : list (text * nvalue)) : result hdict :=
  map_result (λ '(name, value), match value with NInt z => Ok (of_chars name, HInt z) | NText t => Ok (of_chars name, HStr (of_chars t)) | NTrue => Err (TypeError "bool") end) variables.
Definition run_Load `{RealPath} `{Outside} `{Files} `{!SetPop (option string)} `{!SetPop (option (option string))} (fuel fuel' : nat)
    (arguments : load_arguments) : result (list string * list (string * pydict) * build_data) :=
  variables ← stored_variables (la_variables arguments);
  '(loaded, _) ← Load fuel fuel' (of_chars <$> la_build_files arguments) variables (of_chars <$> la_includes arguments)
    (of_chars (la_depth arguments)) (la_input arguments) (la_check arguments) (la_circular_check arguments)
    (of_chars <$> la_root_targets arguments) (World ∅ ∅ 0 [] []);
  Ok loaded.

Definition sample_system : system := {|
  environ := [("GYP_DEFINES", chars "os=linux level=1 os=nacl os=linux"); ("GYP_GENERATORS", chars "make,ninja-linux"); ("GYP_GENERATOR_OUTPUT", chars "out")];
  platform := "linux2"; cwd := chars "/src/app"; listing := chars <$> ["README"; "a.gyp"]; path_exists := λ _, false; expanduser := λ p, p
|}.
Definition sample_args : list text := chars <$> ["-Dlevel=2"; "--inc=common.gypi"; "-d"; "general"; "--check"; "a.gyp"].
Definition sample_values : list (string * optval) := match read_settings sample_system "gyp" sample_args with Ok run => options run | Err _ => [] end.
Abbreviation sample_path := (realpath_nolinks (chars "/src/app")).
Definition sample_flags : list text :=
  chars <$> ["--ignore-environment"; "--check"; "-dgeneral"; "-Dlevel=1"; "-Dos=nacl"; "-Dos=linux"; "-Dlevel=2"; "--depth=/src";
             "--generator-output=app/out"; "-Iapp/common.gypi"; "--toplevel-dir=/src"].
Lemma sample_RegenerateFlags :
  @RegenerateFlags sample_path (environ sample_system) regeneratable_options (chars "/src") sample_values = Ok sample_flags.
Proof. vm_compute. reflexivity. Qed.

Definition no_empty (env : list (string * text)) (values : list (string * optval)) : bool :=
  forallb (λ g, negb ([] in? texts_of (value_of values (dest (option_of g))))
    && match inherited env (env_name g) (true_of (value_of values "use_environment")) with Ok l => negb ([] in? l) | Err _ => true end)
    (filter (λ g, act (option_of g) = Append ∧ path_type g = false) regeneratable_options).
Lemma no_empty_spec env values : no_empty env values = true → no_empty_values env values.
Proof.
  unfold no_empty. rewrite forallb_forall. intros H g Hg Ha Hp.
  assert (In g (filter (λ g, act (option_of g) = Append ∧ path_type g = false) regeneratable_options)) as Hin
    by by apply list_elem_of_In, list_elem_of_filter.
  apply H, andb_true_iff in Hin as [H1%negb_true_iff%bool_decide_eq_false H2]. split; [done|].
  intros l Hl. rewrite Hl in H2. by apply negb_true_iff, bool_decide_eq_false in H2.
Qed.
Lemma sample_no_empty : no_empty_values (environ sample_system) sample_values.
Proof. apply no_empty_spec. vm_compute. reflexivity. Qed.


Abbreviation sample_settings := (read_settings sample_system "gyp" sample_args).
Lemma sample_settings_Ok : ∃ run, sample_settings = Ok run ∧ options run = sample_values.
Proof. eexists. split; [vm_compute; reflexivity|]. vm_compute. reflexivity. Qed.

(** Elsewhere, with another environment: the variables are those of the first run. *)
Definition other_system : system := {|
  environ := [("GYP_DEFINES", chars "os=win")]; platform := "darwin"; cwd := chars "/tmp"; listing := []; path_exists := λ _, false; expanduser := λ p, p
|}.

(** The files of [Load.load_run], with generators that accept whatever was loaded. *)
Definition sample_generator : generator (list string * list (string * pydict) * build_data) := {|
  generator_default_variables := [(chars "OS", NText (chars "linux")); (chars "GENERATOR", NText (chars "none"))];
  CalculateVariables := None; CalculateGeneratorInputInfo := λ _, load_input;
  GenerateOutput := λ loaded _, if loaded.1.1 ==? ["b.gyp:lib#target"; "a.gyp:prog#target"] then Ok tt else Err AssertionError;
  PerformBuild := λ _ _ _, Ok tt
|}.
Definition sample_import (m : option text * text) : result (generator (list string * list (string * pydict) * build_data)) :=
  if m.2 in? chars <$> ["gyp.generator.make"; "gyp.generator.ninja"] then Ok sample_generator else Err (RuntimeError "ImportError").
Definition sample_Load := @run_Load sample_realpath load_outside load_files _ _ 9 30.
Definition build_args : list text := chars <$> ["--build=Default"; "--no-circular-check"; "-fmake"; "--depth="; "--format"; "ninja-linux"; "-fmake"; "a.gyp"].
Lemma sample_main :
  gyp_main (chars "/src/app") sample_import sample_Load first_target_configurations sample_system "gyp" build_args
  = Ok [Generated (chars "make"); Built [chars "Default"]; Generated (chars "ninja-linux"); Built [chars "Default"]].
Proof. vm_compute. reflexivity. Qed.

Lemma gyp_main_correct_witness :
  ∃ run, read_settings sample_system "gyp" build_args = Ok run
    ∧ format_done (chars "/src/app") sample_import sample_Load first_target_configurations run (chars "ninja-linux").
Proof.
  destruct (gyp_main_correct (chars "/src/app") sample_import sample_Load first_target_configurations sample_system "gyp" build_args _ sample_main)
    as (run&Hrun&_&_&Hdone).
  exists run. split; [exact Hrun|]. apply Hdone. right. left.
Defined.

(** A configuration that the first target does not have ends the run. *)
Example invalid_configuration :
  main (chars "/src/app") sample_import sample_Load first_target_configurations sample_system "gyp" (chars <$> ["--build=Debug"; "-fmake"; "a.gyp"])
  = Ok (1%Z, "gyp: Invalid config specified via --build: Debug" +:+ newline).
Proof. vm_compute. reflexivity. Qed.

Example no_src_directory :
  main (chars "/home/app") sample_import sample_Load first_target_configurations
    {| environ := []; platform := "linux2"; cwd := chars "/home/app"; listing := [chars "a.gyp"]; path_exists := λ _, false; expanduser := λ p, p |} "gyp" []
  = Ok (1%Z, "gyp: Could not automatically locate src directory.  This isa temporary Chromium feature that will be removed.  Use--depth as a workaround." +:+ newline).
Proof. vm_compute. reflexivity. Qed.

(** An empty value is lost, and the next flag is taken for the value. *)
Definition empty_define_values : list (string * optval) :=
  match parse_args parser (chars <$> ["-D"; ""; "--depth=."]) with Ok (values, _) => values | Err _ => [] end.
Example empty_define :
  @RegenerateFlags sample_path [] regeneratable_options (chars ".") empty_define_values = Ok (chars <$> ["--ignore-environment"; "-D"; "--depth=."])
  ∧ (λ '(values, files), (value_of values "defines", value_of values "depth", files))
      <$> parse_args parser (chars <$> ["--ignore-environment"; "-D"; "--depth=."]) = Ok (VTexts [chars "--depth=."], VNone, []).
Proof. split; vm_compute; reflexivity. Qed.

(** The options that turn off the check of cycles and the processes are forgotten. *)
Definition switches (values : list (string * optval)) : list optval := value_of values <$> ["circular_check"; "no_parallel"].
Example forgotten_options :
  (λ p, switches p.1) <$> parse_args parser (chars <$> ["--no-circular-check"; "--no-parallel"; "--depth=."]) = Ok [VBool false; VBool true]
  ∧ ('(values, _) ← parse_args parser (chars <$> ["--no-circular-check"; "--no-parallel"; "--depth=."]);
     flags ← @RegenerateFlags sample_path [] regeneratable_options (chars ".") values;
     (λ p, switches p.1) <$> parse_args parser flags) = Ok [VBool true; VBool false].
Proof. split; vm_compute; reflexivity. Qed.

(** What configure runs for node. *)
Definition node_system : system := {|
  environ := []; platform := "linux2"; cwd := chars "/work"; listing := []; expanduser := λ p, p;
  path_exists := λ p, p in? chars <$> ["/work/node/common.gypi"; "/work/node/config.gypi"]
|}.
Example node_settings :
  (λ run, (build_files run, includes run, (λ name, text_of (value_of (options run) name)) <$> ["depth"; "toplevel_dir"; "generator_output"],
      cmdline_default_variables run, generator_flags run))
    <$> read_settings node_system "gyp_node.py" (node_args node_system (chars "node") (chars <$> ["-f"; "make"; "-Dcomponent=shared_library"]))
  = Ok ([chars "/work/node/node.gyp"], chars <$> ["/work/node/common.gypi"; "/work/node/config.gypi"],
        Some <$> (chars <$> ["node"; "node"; "/work/node/out"]),
        [(chars "component", NText (chars "static_library")); (chars "library", NText (chars "static_library"))],
        [(chars "output_dir", NText (chars "/work/node/out"))]).
Proof. vm_compute. reflexivity. Qed.
