(* ===== verification/TestExpr.v ===== *)
(** * Expressions of the test configuration

    The expressions of the .status files of the test driver tools/test.py: their
    syntax trees, sets of outcomes, evaluation, tokenizer and recursive-descent parser.
    A grammar is the reference for the parser.

    Definitions (the [def] lines of a .status file) may refer to one another in a
    circle, and then looking up an outcome does not end; evaluation takes fuel, one unit
    for each node and each definition it goes through. *)
From S2P Require Import Prelude PyDict PyStr PyPath.
From Stdlib Require Import Ascii.

(** ** Syntax *)

(** The subclasses of Expression. *)
Inductive Expression :=
  | Constant (value : bool)
  | Variable_ (name : string)
  | Outcome (name : string)
  | Operation (lhs : Expression) (op : string) (rhs : Expression).

(** ** Sets *)

(** The subclasses of Set. *)
Inductive outcome_set :=
  | ListSet (elms : list string)
  | Everything
  | Nothing.

Definition Intersect (this that : outcome_set) : outcome_set :=
  match this, that with
  | ListSet l1, ListSet l2 => ListSet (filter (λ x, x ∈ l2) l1)
  | ListSet _, Everything => this
  | ListSet _, Nothing => Nothing
  | Everything, _ => that
  | Nothing, _ => Nothing
  end.
Definition Union (this that : outcome_set) : outcome_set :=
  match this, that with
  | ListSet l1, ListSet l2 => ListSet (l1 ++ filter (λ x, x ∉ l1) l2)
  | ListSet _, Everything => Everything
  | ListSet _, Nothing => this
  | Everything, _ => Everything
  | Nothing, _ => that
  end.
Definition IsEmpty (this : outcome_set) : bool :=
  match this with ListSet l => l ==? [] | Everything => false | Nothing => true end.

(** ** Evaluation *)

Section evaluate.
Context (env : list (string * string)) (defs : list (string * Expression)).

(** A constant has no outcomes, variables and outcomes have no truth value; asking for
    them raises. *)
Fixpoint Evaluate (fuel : nat) (e : Expression) : result bool :=
  match fuel with
  | 0 => Err OutOfFuel
  | S fuel =>
      match e with
      | Constant value => Ok value
      | Variable_ _ | Outcome _ => Err (AttributeError "Evaluate")
      | Operation lhs op rhs =>
          if op in? ["||"; ","] then
            b ← Evaluate fuel lhs; if (b : bool) then Ok true else Evaluate fuel rhs
          else if op ==? "if" then Ok false
          else if op ==? "==" then
            l ← GetOutcomes fuel lhs; r ← GetOutcomes fuel rhs; Ok (negb (IsEmpty (Intersect l r)))
          else if op ==? "&&" then
            b ← Evaluate fuel lhs; if (b : bool) then Evaluate fuel rhs else Ok false
          else Err AssertionError
      end
  end
with GetOutcomes (fuel : nat) (e : Expression) : result outcome_set :=
  match fuel with
  | 0 => Err OutOfFuel
  | S fuel =>
      match e with
      | Constant _ => Err (AttributeError "GetOutcomes")
      | Variable_ name => Ok (match dict_get env name with Some v => ListSet [v] | None => Nothing end)
      | Outcome name =>
          match dict_get defs name with Some e => GetOutcomes fuel e | None => Ok (ListSet [name]) end
      | Operation lhs op rhs =>
          if op in? ["||"; ","] then
            l ← GetOutcomes fuel lhs; r ← GetOutcomes fuel rhs; Ok (Union l r)
          else if op ==? "if" then
            b ← Evaluate fuel rhs; if (b : bool) then GetOutcomes fuel lhs else Ok Nothing
          else if op ==? "&&" then
            l ← GetOutcomes fuel lhs; r ← GetOutcomes fuel rhs; Ok (Intersect l r)
          else Err AssertionError
      end
  end.
End evaluate.

(** ** Tokens *)

(** [isalpha] and [isdigit] of a byte. *)
Definition is_alpha_char (c : ascii) : bool :=
  let n := nat_of_ascii c in
  ((65 <=? n) && (n <=? 90)) || ((97 <=? n) && (n <=? 122)) || ((48 <=? n) && (n <=? 57)) || (c ==? "_"%char).
Definition IsAlpha (str : text) : bool := forallb is_alpha_char str.

(** One turn of the loop of Tokenize: [None] if it returns None, otherwise the token and
    the text after it. *)
Definition next_token (s : text) : option (string * text) :=
  match drop_while Ascii.is_space s with
  | [] => None
  | c :: r =>
      if c in? ["("; ")"; "$"; ","]%char then Some (of_chars [c], r)
      else if is_alpha_char c then let '(word, rest) := span is_alpha_char (c :: r) in Some (of_chars word, rest)
      else
        match r with
        | c2 :: r2 => if (c ==? c2) && (c in? ["&"; "|"; "="]%char) then Some (of_chars [c; c2], r2) else None
        | [] => None
        end
  end.

(** [Tokenizer(expr).Tokenize()]: one turn for each token, so no more turns than
    characters; blanks at the end are an error. *)
Fixpoint tokenize (fuel : nat) (s : text) : result (option (list string)) :=
  match s with
  | [] => Ok (Some [])
  | _ =>
      match fuel with
      | 0 => Err OutOfFuel
      | S fuel =>
          match next_token s with
          | None => Ok None
          | Some (token, s) => tokens ← tokenize fuel s; Ok (option_map (cons token) tokens)
          end
      end
  end.
Definition Tokenize (expr : string) : result (option (list string)) := tokenize (length (chars expr)) (chars expr).

(** ** Parsing *)

(** The tokens that are left are the Scanner; its [Current] raises at the end.  A parser
    returns None or an expression and what is left. *)
Abbreviation parse_result := (result (option (Expression * list string))).
Definition Current (scan : list string) : result string :=
  match scan with [] => Err IndexError | token :: _ => Ok token end.

Definition BINARIES : list string := ["=="].
Definition LOGICALS : list string := ["&&"; "||"; ","].

(** The operands of an operator: [if not rhs: return None]. *)
Definition operand (r : parse_result) (continue : Expression → list string → parse_result) : parse_result :=
  match r with Ok (Some (e, scan)) => continue e scan | r => r end.

Fixpoint ParseAtomicExpression (fuel : nat) (scan : list string) : parse_result :=
  match fuel with
  | 0 => Err OutOfFuel
  | S fuel =>
      token ← Current scan;
      let scan := tail scan in
      if token ==? "true" then Ok (Some (Constant true, scan))
      else if token ==? "false" then Ok (Some (Constant false, scan))
      else if IsAlpha (chars token) then Ok (Some (Outcome (lower token), scan))
      else if token ==? "$" then
        name ← Current scan;
        if IsAlpha (chars name) then Ok (Some (Variable_ (lower name), tail scan)) else Ok None
      else if token ==? "(" then
        operand (ParseLogicalExpression fuel scan) (λ result scan,
          close ← Current scan; if close ==? ")" then Ok (Some (result, tail scan)) else Ok None)
      else Ok None
  end
with ParseOperatorExpression (fuel : nat) (scan : list string) : parse_result :=
  match fuel with
  | 0 => Err OutOfFuel
  | S fuel => operand (ParseAtomicExpression fuel scan) (operator_loop fuel)
  end
with operator_loop (fuel : nat) (lhs : Expression) (scan : list string) : parse_result :=
  match fuel with
  | 0 => Err OutOfFuel
  | S fuel =>
      match scan with
      | op :: rest =>
          if op in? BINARIES then
            operand (ParseOperatorExpression fuel rest) (λ rhs, operator_loop fuel (Operation lhs op rhs))
          else Ok (Some (lhs, scan))
      | [] => Ok (Some (lhs, scan))
      end
  end
with ParseConditionalExpression (fuel : nat) (scan : list string) : parse_result :=
  match fuel with
  | 0 => Err OutOfFuel
  | S fuel => operand (ParseOperatorExpression fuel scan) (conditional_loop fuel)
  end
with conditional_loop (fuel : nat) (lhs : Expression) (scan : list string) : parse_result :=
  match fuel with
  | 0 => Err OutOfFuel
  | S fuel =>
      match scan with
      | op :: rest =>
          if op ==? "if" then
            operand (ParseOperatorExpression fuel rest) (λ rhs, conditional_loop fuel (Operation lhs "if" rhs))
          else Ok (Some (lhs, scan))
      | [] => Ok (Some (lhs, scan))
      end
  end
with ParseLogicalExpression (fuel : nat) (scan : list string) : parse_result :=
  match fuel with
  | 0 => Err OutOfFuel
  | S fuel => operand (ParseConditionalExpression fuel scan) (logical_loop fuel)
  end
with logical_loop (fuel : nat) (lhs : Expression) (scan : list string) : parse_result :=
  match fuel with
  | 0 => Err OutOfFuel
  | S fuel =>
      match scan with
      | op :: rest =>
          if op in? LOGICALS then
            operand (ParseConditionalExpression fuel rest) (λ rhs, logical_loop fuel (Operation lhs op rhs))
          else Ok (Some (lhs, scan))
      | [] => Ok (Some (lhs, scan))
      end
  end.

(** Four calls for each token and four more. *)
Definition parse_fuel (tokens : list string) : nat := 4 * length tokens + 4.

(** [ParseCondition(expr)] returns None for what is malformed. *)
Definition ParseCondition (expr : string) : result (option Expression) :=
  tokens ← Tokenize expr;
  match tokens with
  | None | Some [] => Ok None
  | Some tokens =>
      ast ← ParseLogicalExpression (parse_fuel tokens) tokens;
      match ast with
      | Some (ast, []) => Ok (Some ast)
      | _ => Ok None
      end
  end.

Example ParseCondition_sample :
  ParseCondition "PASS, FAIL if $system == win32 && $mode == debug"
  = Ok (Some (Operation (Operation (Outcome "pass") "," (Operation (Outcome "fail") "if"
        (Operation (Variable_ "system") "==" (Outcome "win32")))) "&&"
        (Operation (Variable_ "mode") "==" (Outcome "debug")))).
Proof. vm_compute. reflexivity. Qed.
Example ParseCondition_incomplete : ParseCondition "$mode ==" = Err IndexError.
Proof. vm_compute. reflexivity. Qed.

(** * Theorems *)

(** ** Tokenizing ends *)

Lemma drop_while_length {A} (P : A → bool) l : length (drop_while P l) ≤ length l.
Proof. induction l as [|c l IH]; [done|]. cbn. destruct (P c); cbn; lia. Qed.

Lemma next_token_shorter s token s' : next_token s = Some (token, s') → length s' < length s.
Proof.
  unfold next_token. pose proof (drop_while_length Ascii.is_space s) as Hl. destruct (drop_while _ s) as [|c r]; [done|].
  cbn in Hl. case_bool_decide; [intros; simplify_eq; lia|]. destruct (is_alpha_char c) eqn:Hc.
  - pose proof (span_app is_alpha_char r) as Hsp. cbn [span]. rewrite Hc. destruct (span is_alpha_char r) as [a b].
    intros [= <- <-]. cbn in Hsp. apply (f_equal length) in Hsp. rewrite length_app in Hsp. lia.
  - destruct r as [|c2 r2]; [done|]. cbn in Hl. destruct (_ && _); intros; simplify_eq; lia.
Qed.

Lemma tokenize_terminates fuel s : length s ≤ fuel → terminates (tokenize fuel s).
Proof.
  revert s. induction fuel as [|fuel IH]; intros s Hf; (destruct s as [|c s]; [done|]); [cbn in Hf; lia|].
  cbn [tokenize]. destruct (next_token (c :: s)) as [[token s']|] eqn:Ht; [|done].
  apply next_token_shorter in Ht. cbn in Ht, Hf. apply terminates_bind; [|done]. apply IH. lia.
Qed.

(** ** The grammar *)

Inductive Atomic : list string → Expression → Prop :=
  | atomic_true : Atomic ["true"] (Constant true)
  | atomic_false : Atomic ["false"] (Constant false)
  | atomic_outcome word :
      word ∉ ["true"; "false"] → IsAlpha (chars word) = true → Atomic [word] (Outcome (lower word))
  | atomic_variable word : IsAlpha (chars word) = true → Atomic ["$"; word] (Variable_ (lower word))
  | atomic_group ts e : Logical ts e → Atomic ("(" :: ts ++ [")"]) e
with Operator : list string → Expression → Prop :=
  | operator_atomic ts e : Atomic ts e → Operator ts e
  | operator_equal ts1 ts2 e1 e2 :
      Atomic ts1 e1 → Operator ts2 e2 → Operator (ts1 ++ "==" :: ts2) (Operation e1 "==" e2)
with Conditional : list string → Expression → Prop :=
  | conditional_operator ts e : Operator ts e → Conditional ts e
  | conditional_if ts1 ts2 e1 e2 :
      Conditional ts1 e1 → Operator ts2 e2 → Conditional (ts1 ++ "if" :: ts2) (Operation e1 "if" e2)
with Logical : list string → Expression → Prop :=
  | logical_conditional ts e : Conditional ts e → Logical ts e
  | logical_op op ts1 ts2 e1 e2 :
      op ∈ LOGICALS → Logical ts1 e1 → Conditional ts2 e2 → Logical (ts1 ++ op :: ts2) (Operation e1 op e2).

Scheme Atomic_min := Minimality for Atomic Sort Prop
  with Operator_min := Minimality for Operator Sort Prop
  with Conditional_min := Minimality for Conditional Sort Prop
  with Logical_min := Minimality for Logical Sort Prop.
Combined Scheme grammar_ind from Atomic_min, Operator_min, Conditional_min, Logical_min.

(** One step of each parser. *)
Lemma ParseAtomicExpression_S n scan : ParseAtomicExpression (S n) scan =
  (token ← Current scan;
   let scan := tail scan in
   if token ==? "true" then Ok (Some (Constant true, scan))
   else if token ==? "false" then Ok (Some (Constant false, scan))
   else if IsAlpha (chars token) then Ok (Some (Outcome (lower token), scan))
   else if token ==? "$" then
     name ← Current scan;
     if IsAlpha (chars name) then Ok (Some (Variable_ (lower name), tail scan)) else Ok None
   else if token ==? "(" then
     operand (ParseLogicalExpression n scan) (λ result scan,
       close ← Current scan; if close ==? ")" then Ok (Some (result, tail scan)) else Ok None)
   else Ok None).
Proof. reflexivity. Qed.
Lemma ParseOperatorExpression_S n scan :
  ParseOperatorExpression (S n) scan = operand (ParseAtomicExpression n scan) (operator_loop n).
Proof. reflexivity. Qed.
Lemma ParseConditionalExpression_S n scan :
  ParseConditionalExpression (S n) scan = operand (ParseOperatorExpression n scan) (conditional_loop n).
Proof. reflexivity. Qed.
Lemma ParseLogicalExpression_S n scan :
  ParseLogicalExpression (S n) scan = operand (ParseConditionalExpression n scan) (logical_loop n).
Proof. reflexivity. Qed.

(** The three loops, which differ in the operators and the operands. *)
Definition loop_step (is_op : string → bool) (parse : list string → parse_result)
    (loop : Expression → list string → parse_result) (lhs : Expression) (scan : list string) : parse_result :=
  match scan with
  | op :: rest =>
      if is_op op then operand (parse rest) (λ rhs, loop (Operation lhs op rhs)) else Ok (Some (lhs, scan))
  | [] => Ok (Some (lhs, scan))
  end.
Lemma operator_loop_S n lhs scan : operator_loop (S n) lhs scan =
  loop_step (λ op, op in? BINARIES) (ParseOperatorExpression n) (operator_loop n) lhs scan.
Proof. reflexivity. Qed.
Lemma conditional_loop_S n lhs scan : conditional_loop (S n) lhs scan =
  loop_step (λ op, op ==? "if") (ParseOperatorExpression n) (conditional_loop n) lhs scan.
Proof. destruct scan as [|op rest]; [done|]. cbn. by case_bool_decide; subst. Qed.
Lemma logical_loop_S n lhs scan : logical_loop (S n) lhs scan =
  loop_step (λ op, op in? LOGICALS) (ParseConditionalExpression n) (logical_loop n) lhs scan.
Proof. reflexivity. Qed.

(** ** The parser finds what the grammar derives *)

(** With enough fuel [f] returns [r]. *)
Definition eventually (f : nat → parse_result) (r : parse_result) : Prop := ∃ n0, ∀ n, n0 ≤ n → f n = r.

Ltac eventually_now := exists 0; intros ? _; reflexivity.

Lemma eventually_operand (f : nat → parse_result) k e scan r :
  eventually f (Ok (Some (e, scan))) → eventually (λ n, k n e scan) r → eventually (λ n, operand (f n) (k n)) r.
Proof.
  intros [n1 H1] [n2 H2]. exists (n1 + n2). intros n Hn. rewrite H1 by lia. apply H2. lia.
Qed.

Lemma eventually_S (f g : nat → parse_result) r : (∀ n, f (S n) = g n) → eventually g r → eventually f r.
Proof. intros Hfg [n0 Hg]. exists (S n0). intros [|n] Hn; [lia|]. rewrite Hfg. apply Hg. lia. Qed.

Lemma eventually_stop is_op (f : nat → Expression → list string → parse_result) parse e scan :
  (∀ n lhs scan, f (S n) lhs scan = loop_step is_op (parse n) (f n) lhs scan) →
  (∀ op, head scan = Some op → is_op op = false) → eventually (λ n, f n e scan) (Ok (Some (e, scan))).
Proof.
  intros Hf Hh. eapply eventually_S; [intros n; apply Hf|]. destruct scan as [|op scan]; [eventually_now|].
  cbn [loop_step]. rewrite Hh by done. eventually_now.
Qed.

Lemma eventually_op is_op (f : nat → Expression → list string → parse_result) parse e e2 op scan rest r :
  (∀ n lhs scan, f (S n) lhs scan = loop_step is_op (parse n) (f n) lhs scan) → is_op op = true →
  eventually (λ n, parse n scan) (Ok (Some (e2, rest))) → eventually (λ n, f n (Operation e op e2) rest) r →
  eventually (λ n, f n e (op :: scan)) r.
Proof.
  intros Hf Hop Hp Hr. eapply eventually_S; [intros n; apply Hf|]. cbn [loop_step]. rewrite Hop.
  by eapply eventually_operand.
Qed.

(** The loops stop at a token that is not theirs. *)
Lemma operator_loop_stops e scan :
  head scan ≠ Some "==" → eventually (λ n, operator_loop n e scan) (Ok (Some (e, scan))).
Proof.
  intros Hh. eapply eventually_stop; [apply operator_loop_S|]. intros op Hop. apply bool_decide_eq_false_2.
  unfold BINARIES. by intros ->%list_elem_of_singleton.
Qed.
Lemma conditional_loop_stops e scan :
  head scan ≠ Some "if" → eventually (λ n, conditional_loop n e scan) (Ok (Some (e, scan))).
Proof.
  intros Hh. eapply eventually_stop; [apply conditional_loop_S|]. intros op Hop. apply bool_decide_eq_false_2.
  by intros ->.
Qed.
Lemma logical_loop_stops e scan :
  (∀ op, head scan = Some op → op ∉ LOGICALS) → eventually (λ n, logical_loop n e scan) (Ok (Some (e, scan))).
Proof.
  intros Hh. eapply eventually_stop; [apply logical_loop_S|]. intros op Hop. by apply bool_decide_eq_false_2, Hh.
Qed.

Lemma parser_complete :
  (∀ ts e, Atomic ts e → ∀ rest, eventually (λ n, ParseAtomicExpression n (ts ++ rest)) (Ok (Some (e, rest))))
  ∧ (∀ ts e, Operator ts e → ∀ rest, head rest ≠ Some "==" →
       eventually (λ n, ParseOperatorExpression n (ts ++ rest)) (Ok (Some (e, rest))))
  ∧ (∀ ts e, Conditional ts e → ∀ rest r, head rest ≠ Some "==" → eventually (λ n, conditional_loop n e rest) r →
       eventually (λ n, ParseConditionalExpression n (ts ++ rest)) r)
  ∧ (∀ ts e, Logical ts e → ∀ rest r, head rest ≠ Some "==" → head rest ≠ Some "if" →
       eventually (λ n, logical_loop n e rest) r → eventually (λ n, ParseLogicalExpression n (ts ++ rest)) r).
Proof.
  apply grammar_ind.
  - intros rest. eapply eventually_S; [intros n; apply ParseAtomicExpression_S|]. eventually_now.
  - intros rest. eapply eventually_S; [intros n; apply ParseAtomicExpression_S|]. eventually_now.
  - intros word Hw Ha rest. eapply eventually_S; [intros n; apply ParseAtomicExpression_S|].
    rewrite !not_elem_of_cons in Hw. destruct Hw as (Ht&Hf&_). cbn [Current app mbind result_bind tail].
    rewrite !bool_decide_eq_false_2 by done. rewrite Ha. eventually_now.
  - intros word Ha rest. eapply eventually_S; [intros n; apply ParseAtomicExpression_S|].
    cbn [Current app mbind result_bind tail]. change (IsAlpha (chars "$")) with false.
    rewrite !bool_decide_eq_false_2, bool_decide_eq_true_2 by done. rewrite Ha. eventually_now.
  - intros ts e _ IH rest. eapply eventually_S; [intros n; apply ParseAtomicExpression_S|].
    cbn [Current app mbind result_bind tail]. change (IsAlpha (chars "(")) with false.
    rewrite !bool_decide_eq_false_2, bool_decide_eq_true_2 by done. rewrite <- app_assoc.
    apply (eventually_operand _ _ e (")" :: rest)); [|eventually_now].
    apply (IH (")" :: rest)); [done..|]. apply logical_loop_stops. intros op [= <-]. by apply (bool_decide_unpack _).
  - intros ts e _ IH rest Hrest. eapply eventually_S; [intros n; apply ParseOperatorExpression_S|].
    eapply eventually_operand; [apply IH|]. by apply operator_loop_stops.
  - intros ts1 ts2 e1 e2 _ IH1 _ IH2 rest Hrest. rewrite <- app_assoc.
    eapply eventually_S; [intros n; apply ParseOperatorExpression_S|]. eapply eventually_operand; [apply IH1|].
    cbn [app]. eapply eventually_op; [apply operator_loop_S|done|by apply IH2|]. by apply operator_loop_stops.
  - intros ts e _ IH rest r Hrest Hloop. eapply eventually_S; [intros n; apply ParseConditionalExpression_S|].
    eapply eventually_operand; [by apply IH|done].
  - intros ts1 ts2 e1 e2 _ IH1 _ IH2 rest r Hrest Hloop. rewrite <- app_assoc. apply IH1; [done|].
    cbn [app]. eapply eventually_op; [apply conditional_loop_S|done|by apply IH2|done].
  - intros ts e _ IH rest r Hrest Hif Hloop. eapply eventually_S; [intros n; apply ParseLogicalExpression_S|].
    eapply eventually_operand; [|exact Hloop]. apply IH; [done|]. by apply conditional_loop_stops.
  - intros op ts1 ts2 e1 e2 Hop _ IH1 _ IH2 rest r Hrest Hif Hloop. rewrite <- app_assoc. cbn [app].
    assert (op ≠ "==" ∧ op ≠ "if") as [Hne1 Hne2].
    { unfold LOGICALS in Hop. rewrite !elem_of_cons in Hop. destruct Hop as [->|[->|[->|Hop%elem_of_nil]]]; done. }
    apply IH1; [cbn; congruence..|]. eapply eventually_op; [apply logical_loop_S|by apply bool_decide_eq_true_2| |exact Hloop].
    apply IH2; [done|]. by apply conditional_loop_stops.
Qed.

(** ** What the parser finds is derivable *)

Lemma operand_Some r k x :
  operand r k = Ok (Some x) → ∃ e scan, r = Ok (Some (e, scan)) ∧ k e scan = Ok (Some x).
Proof. destruct r as [[[e scan]|]|]; cbn; try done. by exists e, scan. Qed.

Lemma Current_Ok scan token : Current scan = Ok token → scan = token :: tail scan.
Proof. destruct scan; cbn; intros; by simplify_eq. Qed.

(** A loop stops in front of a token that is not its own. *)
Lemma loop_step_Some is_op parse loop lhs scan e rest :
  loop_step is_op parse loop lhs scan = Ok (Some (e, rest)) →
  (e = lhs ∧ rest = scan ∧ ∀ op, head rest = Some op → is_op op = false)
  ∨ ∃ op scan' rhs scan'', scan = op :: scan' ∧ is_op op = true ∧ parse scan' = Ok (Some (rhs, scan''))
      ∧ loop (Operation lhs op rhs) scan'' = Ok (Some (e, rest)).
Proof.
  destruct scan as [|op scan']; cbn; [intros [= <- <-]; by left|]. destruct (is_op op) eqn:Hop.
  - intros (rhs&scan''&Hp&Hl)%operand_Some. right. by exists op, scan', rhs, scan''.
  - intros [= <- <-]. left. split_and!; [done..|]. by intros ? [= <-].
Qed.

Definition finds (parse : list string → parse_result) (derives : list string → Expression → Prop) : Prop :=
  ∀ scan e rest, parse scan = Ok (Some (e, rest)) → ∃ ts, scan = ts ++ rest ∧ derives ts e.
(** A loop that goes on from what [from] derives finds what [to] derives. *)
Definition extends (loop : Expression → list string → parse_result) (from to : list string → Expression → Prop) : Prop :=
  ∀ ts0 lhs scan e rest, from ts0 lhs → loop lhs scan = Ok (Some (e, rest)) → ∃ ts, scan = ts ++ rest ∧ to (ts0 ++ ts) e.

Lemma finds_operand parse loop from to :
  finds parse from → extends loop from to → finds (λ scan, operand (parse scan) loop) to.
Proof.
  intros Hp Hl scan e rest (lhs&scan1&H1&H2)%operand_Some. apply Hp in H1 as (ts1&->&Hd).
  destruct (Hl _ _ _ _ _ Hd H2) as (ts2&->&Hto). exists (ts1 ++ ts2). by rewrite <- app_assoc.
Qed.

Lemma extends_loop is_op parse loop from to :
  (∀ ts e, from ts e → to ts e) →
  (∀ ts0 lhs op scan rhs rest e rest', from ts0 lhs → is_op op = true → parse scan = Ok (Some (rhs, rest)) →
     loop (Operation lhs op rhs) rest = Ok (Some (e, rest')) →
     ∃ ts, op :: scan = ts ++ rest' ∧ to (ts0 ++ ts) e) →
  extends (loop_step is_op parse loop) from to.
Proof.
  intros Hft Hop ts0 lhs scan e rest Hfrom [(->&->&_)|(op&scan1&rhs&scan2&->&Hisop&Hparse&Hloop)]%loop_step_Some.
  - exists []. split; [done|]. rewrite app_nil_r. by apply Hft.
  - by eapply Hop.
Qed.

(** A token after an operator expression is not the operator. *)
Lemma operator_loop_follow n lhs scan e rest :
  operator_loop n lhs scan = Ok (Some (e, rest)) → head rest ≠ Some "==".
Proof.
  revert lhs scan. induction n as [|n IH]; intros lhs scan; [done|]. rewrite operator_loop_S.
  intros [(_&_&Hh)|(op&scan1&rhs&scan2&_&_&_&Hl)]%loop_step_Some; [|by eapply IH].
  intros Heq. specialize (Hh _ Heq). by vm_compute in Hh.
Qed.
Lemma operator_follow n scan e rest :
  ParseOperatorExpression n scan = Ok (Some (e, rest)) → head rest ≠ Some "==".
Proof.
  destruct n as [|n]; [done|]. rewrite ParseOperatorExpression_S. intros (lhs&scan1&_&Hl)%operand_Some.
  by eapply operator_loop_follow.
Qed.
Lemma operator_loop_ends n lhs scan e rest :
  head scan ≠ Some "==" → operator_loop n lhs scan = Ok (Some (e, rest)) → e = lhs ∧ rest = scan.
Proof.
  intros Hh. destruct n as [|n]; [done|]. rewrite operator_loop_S.
  intros [(->&->&_)|(op&scan1&rhs&scan2&->&Hop%bool_decide_eq_true&_)]%loop_step_Some; [done|].
  unfold BINARIES in Hop. apply list_elem_of_singleton in Hop as ->. done.
Qed.

Lemma parser_sound n :
  finds (ParseAtomicExpression n) Atomic ∧ finds (ParseOperatorExpression n) Operator
  ∧ extends (operator_loop n) Atomic Operator ∧ finds (ParseConditionalExpression n) Conditional
  ∧ extends (conditional_loop n) Conditional Conditional ∧ finds (ParseLogicalExpression n) Logical
  ∧ extends (logical_loop n) Logical Logical.
Proof.
  induction n as [|n (IHa&IHo&IHol&IHc&IHcl&IHl&IHll)]; [split_and!; repeat intro; discriminate|]. split_and!.
  - intros scan e rest. rewrite ParseAtomicExpression_S. intros (token&Ht%Current_Ok&Hp)%bind_Ok.
    destruct scan as [|token' scan]; [done|]. cbn [tail] in *. injection Ht as ->.
    case_bool_decide as H1; [simplify_eq; exists ["true"]; split; [done|constructor]|].
    case_bool_decide as H2; [simplify_eq; exists ["false"]; split; [done|constructor]|].
    destruct (IsAlpha (chars token)) eqn:Ha.
    { simplify_eq. exists [token]. split; [done|]. constructor; [set_solver|done]. }
    case_bool_decide as H3; [subst|case_bool_decide as H4; [subst|done]].
    + apply bind_Ok in Hp as (name&Hn%Current_Ok&Hp). destruct (IsAlpha (chars name)) eqn:Hna; [|done].
      simplify_eq. exists ["$"; name]. split; [by rewrite Hn|by constructor].
    + apply operand_Some in Hp as (e'&scan1&Hl&Hp). apply bind_Ok in Hp as (close&Hc%Current_Ok&Hp).
      case_bool_decide; [subst|done]. simplify_eq. apply IHl in Hl as (ts&->&Hd).
      exists ("(" :: ts ++ [")"]). split; [|by constructor]. cbn. rewrite <- app_assoc. by rewrite Hc.
  - intros scan e rest. rewrite ParseOperatorExpression_S. by apply (finds_operand _ _ Atomic).
  - intros ts0 lhs scan e rest. rewrite operator_loop_S. apply (extends_loop _ _ _ Atomic Operator); [by constructor|].
    clear -IHo. intros ts0 lhs op scan rhs rest e rest' Hl Hop Hp Hloop. apply bool_decide_eq_true in Hop.
    unfold BINARIES in Hop. apply list_elem_of_singleton in Hop as ->.
    apply operator_loop_ends in Hloop as [-> ->]; [|by eapply operator_follow].
    apply IHo in Hp as (ts&->&Hd). exists ("==" :: ts). split; [done|]. by constructor.
  - intros scan e rest. rewrite ParseConditionalExpression_S.
    apply (finds_operand _ _ Conditional); [|done]. intros scan' e' rest' Hp. apply IHo in Hp as (ts&?&?).
    exists ts. split; [done|by constructor].
  - intros ts0 lhs scan e rest. rewrite conditional_loop_S. apply (extends_loop _ _ _ Conditional Conditional); [done|].
    clear -IHo IHcl. intros ts0 lhs op scan rhs rest e rest' Hl Hop%bool_decide_eq_true Hp Hloop. subst op.
    apply IHo in Hp as (ts&->&Hd). assert (Hnew : Conditional (ts0 ++ "if" :: ts) (Operation lhs "if" rhs)) by by constructor.
    destruct (IHcl _ _ _ _ _ Hnew Hloop) as (ts2&->&Hd2). exists ("if" :: ts ++ ts2).
    split; [cbn; by rewrite <- app_assoc|]. by rewrite <- app_assoc in Hd2.
  - intros scan e rest. rewrite ParseLogicalExpression_S.
    apply (finds_operand _ _ Logical); [|done]. intros scan' e' rest' Hp. apply IHc in Hp as (ts&?&?).
    exists ts. split; [done|by constructor].
  - intros ts0 lhs scan e rest. rewrite logical_loop_S. apply (extends_loop _ _ _ Logical Logical); [done|].
    clear -IHc IHll. intros ts0 lhs op scan rhs rest e rest' Hl Hop%bool_decide_eq_true Hp Hloop.
    apply IHc in Hp as (ts&->&Hd). assert (Hnew : Logical (ts0 ++ op :: ts) (Operation lhs op rhs)) by by constructor.
    destruct (IHll _ _ _ _ _ Hnew Hloop) as (ts2&->&Hd2). exists (op :: ts ++ ts2).
    split; [cbn; by rewrite <- app_assoc|]. by rewrite <- app_assoc in Hd2.
Qed.

(** ** Fuel *)

(** A result that more fuel does not change. *)
Definition below (r1 r2 : parse_result) : Prop := r1 = Err OutOfFuel ∨ r1 = r2.

Lemma below_operand r1 r2 k1 k2 :
  below r1 r2 → (∀ e scan, below (k1 e scan) (k2 e scan)) → below (operand r1 k1) (operand r2 k2).
Proof. intros [->| ->] Hk; [by left|]. destruct r2 as [[[e scan]|]|]; [apply Hk|by right|by right]. Qed.

Lemma below_refl r : below r r.
Proof. by right. Qed.

Lemma below_loop is_op parse1 parse2 loop1 loop2 lhs scan :
  (∀ scan, below (parse1 scan) (parse2 scan)) → (∀ e scan, below (loop1 e scan) (loop2 e scan)) →
  below (loop_step is_op parse1 loop1 lhs scan) (loop_step is_op parse2 loop2 lhs scan).
Proof.
  intros Hp Hl. destruct scan as [|op scan]; [apply below_refl|]. cbn. destruct (is_op op); [|apply below_refl].
  by apply below_operand.
Qed.

Lemma parser_monotone n :
  (∀ scan, below (ParseAtomicExpression n scan) (ParseAtomicExpression (S n) scan))
  ∧ (∀ scan, below (ParseOperatorExpression n scan) (ParseOperatorExpression (S n) scan))
  ∧ (∀ e scan, below (operator_loop n e scan) (operator_loop (S n) e scan))
  ∧ (∀ scan, below (ParseConditionalExpression n scan) (ParseConditionalExpression (S n) scan))
  ∧ (∀ e scan, below (conditional_loop n e scan) (conditional_loop (S n) e scan))
  ∧ (∀ scan, below (ParseLogicalExpression n scan) (ParseLogicalExpression (S n) scan))
  ∧ (∀ e scan, below (logical_loop n e scan) (logical_loop (S n) e scan)).
Proof.
  induction n as [|n (IHa&IHo&IHol&IHc&IHcl&IHl&IHll)]; [split_and!; intros; by left|]. split_and!; intros.
  - rewrite !(ParseAtomicExpression_S _ scan). destruct (Current scan) as [token|]; cbn [mbind result_bind]; [|apply below_refl].
    case_bool_decide; [apply below_refl|]. case_bool_decide; [apply below_refl|].
    destruct (IsAlpha _); [apply below_refl|]. case_bool_decide; [apply below_refl|]. case_bool_decide; [|apply below_refl].
    apply below_operand; [apply IHl|]. intros. apply below_refl.
  - rewrite !(ParseOperatorExpression_S _ scan). by apply below_operand.
  - rewrite !(operator_loop_S _ e scan). by apply below_loop.
  - rewrite !(ParseConditionalExpression_S _ scan). by apply below_operand.
  - rewrite !(conditional_loop_S _ e scan). by apply below_loop.
  - rewrite !(ParseLogicalExpression_S _ scan). by apply below_operand.
  - rewrite !(logical_loop_S _ e scan). by apply below_loop.
Qed.

Lemma logical_fuel n m scan r :
  n ≤ m → ParseLogicalExpression n scan = r → r ≠ Err OutOfFuel → ParseLogicalExpression m scan = r.
Proof.
  intros Hnm Hr Hne. induction Hnm as [|m _ IH]; [done|].
  destruct (parser_monotone m) as (_&_&_&_&_&Hl&_). destruct (Hl scan) as [He|He]; congruence.
Qed.

(** ** Parsing ends *)

Lemma terminates_operand r k :
  terminates r → (∀ e scan, r = Ok (Some (e, scan)) → terminates (k e scan)) → terminates (operand r k).
Proof. intros Hr Hk. destruct r as [[[e scan]|]|]; [by apply Hk|done|done]. Qed.

Lemma finds_length parse derives scan e rest :
  finds parse derives → parse scan = Ok (Some (e, rest)) → length rest ≤ length scan.
Proof. intros Hf (ts&->&_)%Hf. rewrite length_app. lia. Qed.

Lemma terminates_loop is_op parse loop lhs scan derives :
  finds parse derives → (∀ op rest, scan = op :: rest → terminates (parse rest)) →
  (∀ e scan', length scan' < length scan → terminates (loop e scan')) → terminates (loop_step is_op parse loop lhs scan).
Proof.
  intros Hf Hp Hl. destruct scan as [|op scan]; [done|]. cbn. destruct (is_op op); [|done].
  apply terminates_operand; [by eapply Hp|]. intros e scan' He. apply Hl.
  pose proof (finds_length _ _ _ _ _ Hf He). cbn. lia.
Qed.

Lemma parser_terminates n :
  (∀ scan, 4 * length scan + 1 ≤ n → terminates (ParseAtomicExpression n scan))
  ∧ (∀ scan, 4 * length scan + 2 ≤ n → terminates (ParseOperatorExpression n scan))
  ∧ (∀ e scan, 4 * length scan + 1 ≤ n → terminates (operator_loop n e scan))
  ∧ (∀ scan, 4 * length scan + 3 ≤ n → terminates (ParseConditionalExpression n scan))
  ∧ (∀ e scan, 4 * length scan + 1 ≤ n → terminates (conditional_loop n e scan))
  ∧ (∀ scan, 4 * length scan + 4 ≤ n → terminates (ParseLogicalExpression n scan))
  ∧ (∀ e scan, 4 * length scan + 1 ≤ n → terminates (logical_loop n e scan)).
Proof.
  induction n as [|n (IHa&IHo&IHol&IHc&IHcl&IHl&IHll)]; [split_and!; intros; lia|].
  destruct (parser_sound n) as (Sa&So&_&Sc&_&Sl&_). split_and!.
  - intros scan Hn. rewrite ParseAtomicExpression_S. destruct scan as [|token scan]; [done|].
    cbn [Current mbind result_bind tail length] in *. repeat (case_bool_decide; [done|]).
    destruct (IsAlpha _); [done|]. case_bool_decide.
    + destruct scan as [|name scan]; [done|]. cbn. by destruct (IsAlpha _).
    + case_bool_decide; [|done]. apply terminates_operand; [apply IHl; lia|]. intros e scan' _.
      destruct scan' as [|close scan']; [done|]. cbn. by case_bool_decide.
  - intros scan Hn. rewrite ParseOperatorExpression_S. apply terminates_operand; [apply IHa; lia|].
    intros e scan' Hp. apply IHol. pose proof (finds_length _ _ _ _ _ Sa Hp). lia.
  - intros e scan Hn. rewrite operator_loop_S. apply (terminates_loop _ _ _ _ _ Operator); [done|..].
    + intros op rest ->. cbn [length] in Hn. apply IHo. lia.
    + intros e' scan' Hlt. apply IHol. lia.
  - intros scan Hn. rewrite ParseConditionalExpression_S. apply terminates_operand; [apply IHo; lia|].
    intros e scan' Hp. apply IHcl. pose proof (finds_length _ _ _ _ _ So Hp). lia.
  - intros e scan Hn. rewrite conditional_loop_S. apply (terminates_loop _ _ _ _ _ Operator); [done|..].
    + intros op rest ->. cbn [length] in Hn. apply IHo. lia.
    + intros e' scan' Hlt. apply IHcl. lia.
  - intros scan Hn. rewrite ParseLogicalExpression_S. apply terminates_operand; [apply IHc; lia|].
    intros e scan' Hp. apply IHll. pose proof (finds_length _ _ _ _ _ Sc Hp). lia.
  - intros e scan Hn. rewrite logical_loop_S. apply (terminates_loop _ _ _ _ _ Conditional); [done|..].
    + intros op rest ->. cbn [length] in Hn. apply IHc. lia.
    + intros e' scan' Hlt. apply IHll. lia.
Qed.

(** C11: the parser of conditions implements the grammar in which == binds more than "if", "if"
    more than && and || and the comma, which are equal, and == alone groups to the right:
    ParseCondition always ends, and returns an expression exactly if the grammar derives it
    from the tokens of the text. *)
Theorem ParseCondition_grammar expr :
  ParseCondition expr ≠ Err OutOfFuel
  ∧ ∀ e, ParseCondition expr = Ok (Some e) ↔ ∃ tokens, Tokenize expr = Ok (Some tokens) ∧ Logical tokens e.
Proof.
  pose proof (tokenize_terminates _ _ (le_n (length (chars expr)))) as Ht. fold (Tokenize expr) in Ht.
  unfold ParseCondition. destruct (Tokenize expr) as [[tokens|]|err]; cbn [mbind result_bind].
  2: { split; [done|]. intros e. split; [done|]. by intros (?&?&_). }
  2: { split; [by intros [= ->]|]. intros e. split; [done|]. by intros (?&?&_). }
  assert (Hterm : terminates (ParseLogicalExpression (parse_fuel tokens) tokens)).
  { destruct (parser_terminates (parse_fuel tokens)) as (_&_&_&_&_&Hl&_). apply Hl. unfold parse_fuel. lia. }
  assert (Hcomplete : ∀ e, Logical tokens e → ParseLogicalExpression (parse_fuel tokens) tokens = Ok (Some (e, []))).
  { intros e He. destruct parser_complete as (_&_&_&Hl). destruct (Hl tokens e He [] (Ok (Some (e, [])))) as [n0 Hn0]; [done..| |].
    - by apply logical_loop_stops.
    - rewrite app_nil_r in Hn0. rewrite <- (Hn0 (n0 + parse_fuel tokens)) by lia. symmetry.
      by eapply logical_fuel; [|reflexivity|exact Hterm]; lia. }
  assert (Hsound : ∀ e, ParseLogicalExpression (parse_fuel tokens) tokens = Ok (Some (e, [])) → Logical tokens e).
  { intros e He. destruct (parser_sound (parse_fuel tokens)) as (_&_&_&_&_&Hl&_).
    apply Hl in He as (ts&Hts&Hd). rewrite app_nil_r in Hts. by subst. }
  assert (Hnil : ∀ e, ¬ Logical [] e).
  { intros e He. specialize (Hsound e). clear -He. assert (Hne : (∀ ts e, Atomic ts e → ts ≠ []) ∧ (∀ ts e, Operator ts e → ts ≠ [])
      ∧ (∀ ts e, Conditional ts e → ts ≠ []) ∧ (∀ ts e, Logical ts e → ts ≠ [])).
    { apply grammar_ind; try done; intros; by intros [_ ?]%app_nil. }
    destruct Hne as (_&_&_&Hl). by eapply Hl. }
  destruct tokens as [|t ts]; [split; [done|]; intros e; split; [done|]; intros (?&[= <-]&He); by apply Hnil in He|].
  destruct (ParseLogicalExpression _ (t :: ts)) as [[[e' [|t' ts']]|]|err] eqn:Hp; cbn [mbind result_bind].
  - split; [done|]. intros e. split.
    + intros [= <-]. exists (t :: ts). split; [done|]. by apply Hsound.
    + intros (?&[= <-]&He). apply Hcomplete in He. congruence.
  - split; [done|]. intros e. split; [done|]. intros (?&[= <-]&He). apply Hcomplete in He. congruence.
  - split; [done|]. intros e. split; [done|]. intros (?&[= <-]&He). apply Hcomplete in He. congruence.
  - split; [by intros [= ->]|]. intros e. split; [done|]. intros (?&[= <-]&He). apply Hcomplete in He. congruence.
Qed.

(** ** What expressions mean *)

Section meaning.
Context (env : list (string * string)) (defs : list (string * Expression)).

(** The outcomes an expression stands for, and the conditions that hold. *)
Inductive yields : Expression → string → Prop :=
  | yields_variable name v : dict_get env name = Some v → yields (Variable_ name) v
  | yields_outcome name : dict_get defs name = None → yields (Outcome name) name
  | yields_defined name e x : dict_get defs name = Some e → yields e x → yields (Outcome name) x
  | yields_left e1 op e2 x : op ∈ ["||"; ","] → yields e1 x → yields (Operation e1 op e2) x
  | yields_right e1 op e2 x : op ∈ ["||"; ","] → yields e2 x → yields (Operation e1 op e2) x
  | yields_if e1 e2 x : holds e2 → yields e1 x → yields (Operation e1 "if" e2) x
  | yields_both e1 e2 x : yields e1 x → yields e2 x → yields (Operation e1 "&&" e2) x
with holds : Expression → Prop :=
  | holds_true : holds (Constant true)
  | holds_left e1 op e2 : op ∈ ["||"; ","] → holds e1 → holds (Operation e1 op e2)
  | holds_right e1 op e2 : op ∈ ["||"; ","] → holds e2 → holds (Operation e1 op e2)
  | holds_both e1 e2 : holds e1 → holds e2 → holds (Operation e1 "&&" e2)
  | holds_equal e1 e2 x : yields e1 x → yields e2 x → holds (Operation e1 "==" e2).

Definition in_set (x : string) (s : outcome_set) : Prop :=
  match s with ListSet l => x ∈ l | Everything => True | Nothing => False end.

Lemma in_Intersect x s1 s2 : in_set x (Intersect s1 s2) ↔ in_set x s1 ∧ in_set x s2.
Proof. destruct s1, s2; cbn; rewrite ?list_elem_of_filter; tauto. Qed.
Lemma in_Union x s1 s2 : in_set x (Union s1 s2) ↔ in_set x s1 ∨ in_set x s2.
Proof.
  destruct s1 as [l1| |], s2 as [l2| |]; cbn; rewrite ?elem_of_app, ?list_elem_of_filter; try tauto.
  destruct (decide (x ∈ l1)); tauto.
Qed.
Lemma IsEmpty_spec s : IsEmpty s = false ↔ ∃ x, in_set x s.
Proof.
  destruct s as [[|x l]| |]; cbn; split; try done.
  - by intros [x ?%elem_of_nil].
  - intros _. exists x. by left.
  - intros _. by exists "".
  - by intros [].
Qed.

Lemma in_or_ops op : op ∈ ["||"; ","] → op ≠ "if" ∧ op ≠ "==" ∧ op ≠ "&&".
Proof. rewrite !elem_of_cons. intros [->|[->|?%elem_of_nil]]; done. Qed.

(** Case analysis on the derivation [H]; cases for another operator are absurd. *)
Ltac meaning_cases H :=
  inversion H; subst;
  repeat match goal with
  | Hop : _ ∈ ["||"; ","] |- _ => apply in_or_ops in Hop as (?&?&?)
  end; try done; try tauto; try (by eauto); try congruence.

Lemma Evaluate_meaning fuel :
  (∀ e b, Evaluate env defs fuel e = Ok b → (b = true ↔ holds e))
  ∧ (∀ e s, GetOutcomes env defs fuel e = Ok s → ∀ x, in_set x s ↔ yields e x).
Proof.
  induction fuel as [|fuel [IHe IHo]]; [done|]. split.
  - intros [v|name|name|e1 op e2] b; cbn [Evaluate]; try done.
    { intros [= <-]. destruct v; split; [constructor|done|done|]. intros H; inversion H. }
    case_bool_decide as Hor; [|case_bool_decide as Hif; [subst|case_bool_decide as Heq; [subst|case_bool_decide; [subst|done]]]].
    + intros (b1&H1&H2)%bind_Ok. apply IHe in H1. destruct b1.
      * injection H2 as <-. split; [intros _; apply holds_left; [done|by apply H1]|done].
      * apply IHe in H2. rewrite H2. split; [by apply holds_right|]. assert (¬ holds e1) by (by rewrite <- H1).
        intros Hh. meaning_cases Hh.
    + intros [= <-]. split; [done|]. intros Hh. meaning_cases Hh.
    + intros (s1&H1&H2)%bind_Ok. apply bind_Ok in H2 as (s2&H2&[= <-]). rewrite negb_true_iff, IsEmpty_spec.
      setoid_rewrite in_Intersect. setoid_rewrite (IHo _ _ H1). setoid_rewrite (IHo _ _ H2). split.
      * intros (x&?&?). by eapply holds_equal.
      * intros Hh. meaning_cases Hh.
    + intros (b1&H1&H2)%bind_Ok. apply IHe in H1. destruct b1.
      * apply IHe in H2. rewrite H2. split; [intros; apply holds_both; [by apply H1|done]|].
        intros Hh. meaning_cases Hh.
      * injection H2 as <-. assert (¬ holds e1) by (by rewrite <- H1). split; [done|]. intros Hh. meaning_cases Hh.
  - intros [v|name|name|e1 op e2] s; cbn [GetOutcomes]; try done.
    + intros [= <-] x. destruct (dict_get env name) as [v|] eqn:Hn; cbn.
      * rewrite list_elem_of_singleton. split; [intros ->; by constructor|]. intros Hy. inversion Hy; congruence.
      * split; [done|]. intros Hy. inversion Hy; congruence.
    + destruct (dict_get defs name) as [e|] eqn:Hn.
      * intros Hg x. rewrite (IHo _ _ Hg). split; [by eapply yields_defined|]. intros Hy. inversion Hy; congruence.
      * intros [= <-] x. cbn. rewrite list_elem_of_singleton. split; [intros ->; by constructor|].
        intros Hy. inversion Hy; congruence.
    + case_bool_decide as Hor; [|case_bool_decide as Hif; [subst|case_bool_decide; [subst|done]]].
      * intros (s1&H1&H2)%bind_Ok x. apply bind_Ok in H2 as (s2&H2&[= <-]).
        rewrite in_Union, (IHo _ _ H1), (IHo _ _ H2). split; [intros [?|?]; [by apply yields_left|by apply yields_right]|].
        intros Hy. meaning_cases Hy.
      * intros (b&H1&H2)%bind_Ok x. apply IHe in H1. destruct b.
        -- rewrite (IHo _ _ H2). split; [intros; apply yields_if; [by apply H1|done]|].
           intros Hy. meaning_cases Hy.
        -- injection H2 as <-. assert (¬ holds e2) by (by rewrite <- H1). split; [done|]. intros Hy. meaning_cases Hy.
      * intros (s1&H1&H2)%bind_Ok x. apply bind_Ok in H2 as (s2&H2&[= <-]).
        rewrite in_Intersect, (IHo _ _ H1), (IHo _ _ H2). split; [intros [? ?]; by apply yields_both|].
        intros Hy. meaning_cases Hy.
Qed.

(** The names an expression looks up among the definitions. *)
Fixpoint outcome_names (e : Expression) : list string :=
  match e with
  | Outcome name => [name]
  | Operation e1 _ e2 => outcome_names e1 ++ outcome_names e2
  | _ => []
  end.

(** No definition refers to itself, directly or not. *)
Definition acyclic (rank : string → nat) : Prop :=
  ∀ name e, dict_get defs name = Some e → ∀ n, n ∈ outcome_names e → rank n < rank name.

Lemma Evaluate_ends rank e :
  acyclic rank → ∃ n0, ∀ n, n0 ≤ n → terminates (Evaluate env defs n e) ∧ terminates (GetOutcomes env defs n e).
Proof.
  intros Hacyclic. assert (Hgen : ∀ k e, (∀ n, n ∈ outcome_names e → rank n < k) →
    ∃ n0, ∀ n, n0 ≤ n → terminates (Evaluate env defs n e) ∧ terminates (GetOutcomes env defs n e)).
  2: { apply (Hgen (S (max_list (rank <$> outcome_names e)))). intros n Hn.
       enough (rank n ≤ max_list (rank <$> outcome_names e)) by lia. apply max_list_elem_of_le. by apply list_elem_of_fmap_2. }
  clear e. induction k as [k IHk] using lt_wf_ind. intros e. induction e as [v|name|name|e1 IH1 op e2 IH2]; intros Hk.
  - exists 1. intros [|n] Hn; [lia|]. done.
  - exists 1. intros [|n] Hn; [lia|]. done.
  - destruct (dict_get defs name) as [e|] eqn:Hdef.
    + assert (Hname : rank name < k) by (apply Hk; by left). destruct (IHk (rank name) Hname e) as [n0 Hn0].
      { intros n Hn. by eapply Hacyclic. }
      exists (S n0). intros [|n] Hn; [lia|]. split; [done|]. cbn. rewrite Hdef. apply Hn0. lia.
    + exists 1. intros [|n] Hn; [lia|]. split; [done|]. cbn. by rewrite Hdef.
  - cbn [outcome_names] in Hk. setoid_rewrite elem_of_app in Hk.
    destruct IH1 as [n1 H1]; [intros; apply Hk; by left|]. destruct IH2 as [n2 H2]; [intros; apply Hk; by right|].
    exists (S (n1 + n2)). intros [|n] Hn; [lia|]. destruct (H1 n) as [? ?]; [lia|]. destruct (H2 n) as [? ?]; [lia|].
    cbn [Evaluate GetOutcomes]. split; repeat case_bool_decide; solve_terminates.
Qed.

(** Conditions and outcomes mean what they say.  Where no definition refers to itself,
    evaluation ends; a condition that has a truth value is true exactly if it holds, and the
    outcomes of an expression, if it has any, are exactly those it yields: unions for
    || and the comma, intersections for &&, the outcomes of a guarded expression only if the
    guard holds, and a comparison holds exactly if its sides have an outcome in common. *)
Theorem Evaluate_correct rank e :
  acyclic rank →
  ∃ n0, ∀ fuel, n0 ≤ fuel →
    Evaluate env defs fuel e ≠ Err OutOfFuel ∧ GetOutcomes env defs fuel e ≠ Err OutOfFuel
    ∧ (∀ b, Evaluate env defs fuel e = Ok b → (b = true ↔ holds e))
    ∧ ∀ s, GetOutcomes env defs fuel e = Ok s → ∀ x, in_set x s ↔ yields e x.
Proof.
  intros Hacyclic. destruct (Evaluate_ends rank e Hacyclic) as [n0 Hn0]. exists n0. intros fuel Hf.
  destruct (Hn0 fuel Hf) as [He Ho]. destruct (Evaluate_meaning fuel) as [Hm1 Hm2]. split_and!; [done|done|apply Hm1|apply Hm2].
Qed.
End meaning.

Definition sample_env : list (string * string) := [("mode", "debug"); ("system", "linux")].
Definition sample_defs : list (string * Expression) := [("fails_ok", Operation (Outcome "fail") "," (Outcome "okay"))].

Lemma Evaluate_correct_witness :
  GetOutcomes sample_env sample_defs 9 (Operation (Outcome "pass") "," (Outcome "fails_ok")) = Ok (ListSet ["pass"; "fail"; "okay"])
  ∧ ∃ n0, ∀ fuel, n0 ≤ fuel →
    Evaluate sample_env sample_defs fuel (Outcome "fails_ok") ≠ Err OutOfFuel
    ∧ GetOutcomes sample_env sample_defs fuel (Outcome "fails_ok") ≠ Err OutOfFuel
    ∧ (∀ b, Evaluate sample_env sample_defs fuel (Outcome "fails_ok") = Ok b → (b = true ↔ holds sample_env sample_defs (Outcome "fails_ok")))
    ∧ ∀ s, GetOutcomes sample_env sample_defs fuel (Outcome "fails_ok") = Ok s →
        ∀ x, in_set x s ↔ yields sample_env sample_defs (Outcome "fails_ok") x.
Proof.
  split; [reflexivity|]. apply (Evaluate_correct sample_env sample_defs (λ name, if name ==? "fails_ok" then 1 else 0)).
  intros name e Hd n Hn. cbn in Hd. case_decide; [|done]. simplify_eq/=.
  rewrite !elem_of_cons in Hn. destruct Hn as [->|[->|Hn%elem_of_nil]]; [apply le_n|apply le_n|done].
Defined.
