(* ===== verification/TestConfig.v ===== *)
(** * Configuration and outcomes of tests

    The rest of the logic of the test driver tools/test.py: patterns of paths, the
    sections and rules of .status files and how they are read, the classification of tests
    by them, and what a test's output counts as.  The compiler of regular expressions,
    the lines of a file without comments ([utils.ReadLinesFrom]; the module utils is not
    in the repository) and the platform are parameters.

    A rule is an object with an identity, a number here. *)
From S2P Require Import Prelude PyDict PySet PyStr PyPath TestExpr.
From Stdlib Require Import Ascii.

Definition SKIP : string := "skip".
Definition FAIL : string := "fail".
Definition PASS : string := "pass".
Definition OKAY : string := "okay".
Definition TIMEOUT : string := "timeout".
Definition CRASH : string := "crash".

Record Rule := MkRule { rule_id : nat; raw_path : string; rule_path : list string; value : Expression }.
(** The condition of a section is None if it could not be parsed. *)
Record Section_ := MkSection { condition : option Expression; rules : list Rule }.

(** ** Patterns *)

Section patterns.
Context (re_match : string → option (string → bool)).

(** [Pattern(pattern).match(str)] *)
Definition match_pattern (pattern str : string) : result bool :=
  match re_match ("^" +:+ str_replace "*" ".*" pattern +:+ "$") with
  | Some f => Ok (f str)
  | None => Err (ValueError "invalid regular expression")
  end.

Fixpoint match_all (patterns path : list string) : result bool :=
  match patterns, path with
  | p :: patterns, s :: path => b ← match_pattern p s; if (b : bool) then match_all patterns path else Ok false
  | _, _ => Ok true
  end.
(** [Rule.Contains(path)] *)
Definition Contains (rule : Rule) (path : list string) : result bool :=
  if length path <? length (rule_path rule) then Ok false else match_all (rule_path rule) path.

(** [SplitPath(s)], the texts of its patterns. *)
Definition SplitPath (s : string) : list string :=
  filter (λ c, c ≠ "") (str_strip <$> str_split "/" s).

(** ** Reading a file *)

Definition end_of_line (s : text) : bool := (s ==? []) || (s ==? ["010"%char]).
(** A group of any characters but line breaks. *)
Definition dot_star (s : text) : text * text := span (λ c, negb (c ==? "010"%char)) s.

(** [HEADER_PATTERN.match(line)], [RULE_PATTERN], [DEF_PATTERN] and [PREFIX_PATTERN]: the
    groups.  In none of them does giving back characters lead to another match. *)
Definition header_match (line : text) : option text :=
  match line with
  | "["%char :: r =>
      let '(group, rest) := span (λ c, negb (c ==? "]"%char)) r in
      if negb (group ==? []) && negb (rest ==? []) then Some group else None
  | _ => None
  end.
Definition rule_match (line : text) : option (text * text) :=
  let '(group, rest) := span (λ c, negb (c in? [":"; " "]%char)) (drop_while Ascii.is_space line) in
  match drop_while Ascii.is_space rest with
  | ":"%char :: r => Some (group, (dot_star r).1)
  | _ => None
  end.
Definition def_match (line : text) : option (text * text) :=
  if negb (lstarts (chars "def") line) then None
  else
    let '(name, rest) := span is_alpha_char (drop_while Ascii.is_space (drop 3 line)) in
    match drop_while Ascii.is_space rest with
    | "="%char :: r =>
        let '(group, rest) := dot_star r in
        if negb (name ==? []) && end_of_line rest then Some (name, group) else None
    | _ => None
    end.
Definition is_prefix_char (c : ascii) : bool := is_alpha_char c || (c in? ["."; "-"; "/"]%char).
Definition prefix_match (line : text) : option text :=
  let line := drop_while Ascii.is_space line in
  if negb (lstarts (chars "prefix") line) then None
  else
    let r := drop 6 line in
    let '(group, rest) := span is_prefix_char (drop_while Ascii.is_space r) in
    if negb (drop_while Ascii.is_space r ==? r) && negb (group ==? []) && end_of_line rest then Some group else None.

Definition strip_text (s : text) : string := str_strip (of_chars s).

(** The lists the function adds to, the prefix, and the next identity of a rule. *)
Record reading := MkReading {
  sections : list Section_;
  defs : list (string * Expression);
  prefix : list string;
  next_rule : nat
}.
Implicit Types (st : reading).

Definition add_section (c : option Expression) st : reading :=
  MkReading (sections st ++ [MkSection c []]) (defs st) (prefix st) (next_rule st).

(** [current_section.AddRule(rule)]; the current section is the last one. *)
Definition add_rule (rule : Rule) st : reading :=
  MkReading
    (match reverse (sections st) with
     | s :: before => reverse before ++ [MkSection (condition s) (rules s ++ [rule])]
     | [] => []
     end) (defs st) (prefix st) (S (next_rule st)).

(** One line: [None] if the function returns False. *)
Definition read_line (line : string) st : result (option reading) :=
  let l := chars line in
  match header_match l with
  | Some group => condition ← ParseCondition (strip_text group); Ok (Some (add_section condition st))
  | None =>
      match rule_match l with
      | Some (g1, g2) =>
          let path := prefix st ++ SplitPath (strip_text g1) in
          value ← ParseCondition (strip_text g2);
          match value with
          | None => Ok None
          | Some value => Ok (Some (add_rule (MkRule (next_rule st) (of_chars g1) path value) st))
          end
      | None =>
          match def_match l with
          | Some (g1, g2) =>
              value ← ParseCondition (strip_text g2);
              match value with
              | None => Ok None
              | Some value =>
                  Ok (Some (MkReading (sections st) (dict_set (defs st) (lower (of_chars g1)) value) (prefix st) (next_rule st)))
              end
          | None =>
              match prefix_match l with
              | Some group => Ok (Some (MkReading (sections st) (defs st) (SplitPath (strip_text group)) (next_rule st)))
              | None => Ok None
              end
          end
      end
  end.

Fixpoint read_lines (lines : list string) st : result (bool * reading) :=
  match lines with
  | [] => Ok (true, st)
  | line :: lines =>
      st' ← read_line line st;
      match st' with
      | None => Ok (false, st)
      | Some st => read_lines lines st
      end
  end.

(** What it returns, and the lists it has added to. *)
Definition ReadConfigurationInto (lines : list string) (sections : list Section_) (defs : list (string * Expression))
    (next_rule : nat) : result (bool * reading) :=
  read_lines lines (add_section (Some (Constant true)) (MkReading sections defs [] next_rule)).

(** ** Classifying tests *)

Section classify.
Context (fuel : nat) (env : list (string * string)) (all_defs : list (string * Expression)).

Definition rule_outcomes (rule : Rule) : result (list string) :=
  s ← GetOutcomes env all_defs fuel (value rule);
  match s with ListSet elms => Ok elms | _ => Err AssertionError end.

Definition section_applies (s : Section_) : result bool :=
  match condition s with Some c => Evaluate env all_defs fuel c | None => Err (AttributeError "Evaluate") end.

Fixpoint filter_result {A} (f : A → result bool) (l : list A) : result (list A) :=
  match l with
  | [] => Ok []
  | x :: l => b ← f x; l ← filter_result f l; Ok (if (b : bool) then x :: l else l)
  end.

(** The results, the rules not used so far, and all outcomes. *)
Record classified := MkClassified {
  results : list (list string * list string);
  unused_rules : list Rule;
  all_outcomes : list string
}.

Definition set_union (l s : list string) : list string := foldl (λ s x, set_add x s) s l.

Definition apply_rule (rule : Rule) (st : list string * list Rule) : result (list string * list Rule) :=
  elms ← rule_outcomes rule;
  Ok (set_union elms st.1, filter (λ r, rule_id r ≠ rule_id rule) st.2).

Definition classify_case (all_rules : list Rule) (path : list string) (st : classified) : result classified :=
  matches ← filter_result (λ r, Contains r path) all_rules;
  '(outcomes, unused) ← for_each matches ([], unused_rules st) apply_rule;
  let outcomes := if outcomes ==? [] then [PASS] else outcomes in
  Ok (MkClassified (results st ++ [(path, outcomes)]) unused (set_union outcomes (all_outcomes st))).

(** [Configuration(sections, defs).ClassifyTests(cases, env)], for the paths of the cases. *)
Definition ClassifyTests (sections : list Section_) (cases : list (list string)) : result classified :=
  sections ← filter_result section_applies sections;
  let all_rules := concat (rules <$> sections) in
  for_each cases (MkClassified [] all_rules []) (classify_case all_rules).
End classify.
End patterns.

(** ** Outputs *)

(** What a process returned, with what the test knows about itself: [failed] is what
    DidFail says. *)
Record output := MkOutput { exit_code : Z; timed_out : bool; failed : bool }.
Definition SIGABRT : Z := 6.

Definition HasCrashed (windows : bool) (o : output) : bool :=
  if windows then negb (Z.land 0x80000000 (exit_code o) =? 0)%Z && (Z.land 0x3FFFFF00 (exit_code o) =? 0)%Z
  else if timed_out o then false
  else (exit_code o <? 0)%Z && negb (exit_code o =? - SIGABRT)%Z.
Definition HasTimedOut (o : output) : bool := timed_out o.
Definition HasFailed (negative : bool) (o : output) : bool := if negative then negb (failed o) else failed o.

Definition actual_outcome (windows negative : bool) (o : output) : string :=
  if HasCrashed windows o then CRASH
  else if HasTimedOut o then TIMEOUT
  else if HasFailed negative o then FAIL
  else PASS.
Definition UnexpectedOutput (windows negative : bool) (outcomes : list string) (o : output) : bool :=
  negb (actual_outcome windows negative o in? outcomes).

(** ** The report *)

Definition IsFlaky (o : list string) : bool :=
  (PASS in? o) && (FAIL in? o) && negb (CRASH in? o) && negb (OKAY in? o).
Definition IsFailOk (o : list string) : bool := (length o =? 2) && (FAIL in? o) && (OKAY in? o).

(** The numbers PrintReport prints: total, skipped, nocrash, pass, fail_ok and fail. *)
Definition PrintReport (cases : list (list string)) : list nat :=
  let unskipped := filter (λ o, SKIP ∉ o) cases in
  let count (P : list string → bool) := length (filter (λ o, P o = true) unskipped) in
  [length cases; length cases - length unskipped; count IsFlaky; count (λ o, o ==? [PASS]); count IsFailOk;
   count (λ o, o ==? [FAIL])].

(** * Theorems *)

Lemma filter_result_Ok {A} (f : A → result bool) l l' :
  filter_result f l = Ok l' →
  (l' `sublist_of` l ∧ ∀ x, x ∈ l → ∃ b, f x = Ok b) ∧ ∀ x, x ∈ l' ↔ x ∈ l ∧ f x = Ok true.
Proof.
  revert l'. induction l as [|x l IH]; intros l' Hl; cbn in Hl.
  - injection Hl as <-. split; [split; [done|by intros x Hx%elem_of_nil]|]. intros x. rewrite elem_of_nil. tauto.
  - apply bind_Ok in Hl as (b&Hb&Hl). apply bind_Ok in Hl as (l1&Hl1&[= <-]). apply IH in Hl1 as [[Hs Ht] He].
    assert (∀ y, y ∈ x :: l → ∃ b, f y = Ok b) by (intros y [->|Hy]%elem_of_cons; [by exists b|by apply Ht]).
    destruct b; (split; [split; [by constructor|done]|]); intros y; rewrite ?elem_of_cons, He.
    + split; [intros [->|[? ?]]; tauto|]. intros [[->|?] ?]; tauto.
    + split; [tauto|]. intros [[->|?] Hy]; [congruence|tauto].
Qed.

Lemma set_union_spec l s : NoDup s → NoDup (set_union l s) ∧ ∀ x, x ∈ set_union l s ↔ x ∈ s ∨ x ∈ l.
Proof. apply set_of_foldl. Qed.

Section classification.
Context (re_match : string → option (string → bool)) (fuel : nat).
Context (env : list (string * string)) (all_defs : list (string * Expression)).
Implicit Types (r : Rule) (path : list string).

Lemma rule_outcomes_Ok r elms :
  rule_outcomes fuel env all_defs r = Ok elms → ∀ o, o ∈ elms ↔ yields env all_defs (value r) o.
Proof.
  unfold rule_outcomes. intros (s&Hs&Hr)%bind_Ok o. destruct s as [l| |]; try done. injection Hr as ->.
  by apply (proj2 (Evaluate_meaning env all_defs fuel)) with (x := o) in Hs.
Qed.

Lemma section_applies_Ok s b :
  section_applies fuel env all_defs s = Ok b →
  ∃ c, condition s = Some c ∧ (b = true ↔ holds env all_defs c).
Proof.
  unfold section_applies. destruct (condition s) as [c|]; [|done]. intros Hc. exists c. split; [done|].
  by apply (proj1 (Evaluate_meaning env all_defs fuel)) in Hc.
Qed.

Lemma apply_rules_Ok matches outcomes unused outcomes' unused' :
  for_each matches (outcomes, unused) (apply_rule fuel env all_defs) = Ok (outcomes', unused') → NoDup outcomes →
  NoDup outcomes' ∧ (∀ o, o ∈ outcomes' ↔ o ∈ outcomes ∨ ∃ r, r ∈ matches ∧ yields env all_defs (value r) o)
  ∧ ∀ r, r ∈ unused' ↔ r ∈ unused ∧ ∀ r', r' ∈ matches → rule_id r ≠ rule_id r'.
Proof.
  revert outcomes unused. induction matches as [|r matches IH]; intros outcomes unused Hl Hnd; cbn in Hl.
  - injection Hl as <- <-. split_and!; [done|..].
    + intros o. setoid_rewrite elem_of_nil. naive_solver.
    + intros r. setoid_rewrite elem_of_nil. naive_solver.
  - apply bind_Ok in Hl as ([o1 u1]&Hr&Hl). unfold apply_rule in Hr. apply bind_Ok in Hr as (elms&He&[= <- <-]).
    pose proof (rule_outcomes_Ok _ _ He) as Hy. cbn [fst snd] in Hl. destruct (set_union_spec elms outcomes Hnd) as [Hnd1 Hu].
    apply IH in Hl as (Hnd'&Ho'&Hu'); [|done]. split_and!; [done|..].
    + intros o. rewrite Ho', Hu, Hy. setoid_rewrite elem_of_cons. naive_solver.
    + intros r'. rewrite Hu', list_elem_of_filter. setoid_rewrite elem_of_cons. naive_solver.
Qed.

(** The outcomes a list of rules gives a path. *)
Definition expected (active : list Rule) (path : list string) (o : string) : Prop :=
  (∃ r, r ∈ active ∧ Contains re_match r path = Ok true ∧ yields env all_defs (value r) o)
  ∨ (o = PASS ∧ ∀ r o', r ∈ active → Contains re_match r path = Ok true → ¬ yields env all_defs (value r) o').

Lemma classify_case_Ok active path st st' :
  NoDup (rule_id <$> active) → (∀ r, r ∈ unused_rules st → r ∈ active) →
  classify_case re_match fuel env all_defs active path st = Ok st' → NoDup (all_outcomes st) →
  ∃ outs, results st' = results st ++ [(path, outs)] ∧ NoDup outs ∧ (∀ o, o ∈ outs ↔ expected active path o)
    ∧ (∀ r, r ∈ unused_rules st' ↔ r ∈ unused_rules st ∧ Contains re_match r path ≠ Ok true)
    ∧ NoDup (all_outcomes st') ∧ ∀ o, o ∈ all_outcomes st' ↔ o ∈ all_outcomes st ∨ o ∈ outs.
Proof.
  intros Hids Hsub Hrun Hall. unfold classify_case in Hrun. apply bind_Ok in Hrun as (matches&Hm&Hrun).
  apply filter_result_Ok in Hm as [_ Hm]. apply bind_Ok in Hrun as ([outcomes unused]&Hl&[= <-]).
  apply apply_rules_Ok in Hl as (Hnd&Ho&Hu); [|apply NoDup_nil_2]. setoid_rewrite elem_of_nil in Ho. setoid_rewrite Hm in Ho.
  assert (Hsame : ∀ r r', r ∈ active → r' ∈ active → rule_id r = rule_id r' → r = r').
  { intros r r' [i Hi]%list_elem_of_lookup [j Hj]%list_elem_of_lookup Heq.
    assert (i = j) as ->; [|congruence]. apply (NoDup_lookup _ i j (rule_id r) Hids); rewrite list_lookup_fmap.
    - by rewrite Hi.
    - rewrite Hj. cbn. by rewrite Heq. }
  eexists. cbn [results unused_rules all_outcomes]. split; [done|]. split; [|split; [|split]].
  - case_bool_decide; [apply NoDup_singleton|done].
  - intros o. unfold expected. case_bool_decide as Hnil.
    + subst outcomes. rewrite list_elem_of_singleton. assert (Hno : ∀ r o', r ∈ active → Contains re_match r path = Ok true → ¬ yields env all_defs (value r) o').
      { intros r o' Hr Hc Hy. assert (o' ∈ ([] : list string)) as Hin; [|by apply elem_of_nil in Hin].
        apply Ho. right. by exists r. }
      split; [intros ->; by right|]. intros [(r&Hr&Hc&Hy)|[? _]]; [|done]. by apply (Hno r o) in Hy.
    + rewrite Ho. split; [intros [[]|(r&[? ?]&?)]; left; by exists r|].
      intros [(r&?&?&?)|[_ Hno]]; [right; by exists r|]. destruct outcomes as [|o' outcomes]; [done|].
      assert (o' ∈ o' :: outcomes) as Hin by by left. apply Ho in Hin as [[]|(r&[? ?]&Hy)]. by apply (Hno r o') in Hy.
  - intros r. rewrite Hu. setoid_rewrite Hm. split.
    + intros [Hr Hne]. split; [done|]. intros Hc. apply (Hne r); [|done]. split; [by apply Hsub|done].
    + intros [Hr Hc]. split; [done|]. intros r' [Hr' Hc'] Heq. apply Hsame in Heq as ->; [done|by apply Hsub|done].
  - by apply set_union_spec.
Qed.

Lemma classify_cases_Ok active cases st st' :
  NoDup (rule_id <$> active) → (∀ r, r ∈ unused_rules st → r ∈ active) → NoDup (all_outcomes st) →
  for_each cases st (classify_case re_match fuel env all_defs active) = Ok st' →
  ∃ new, results st' = results st ++ new ∧ new.*1 = cases
    ∧ (∀ path outs, (path, outs) ∈ new → NoDup outs ∧ ∀ o, o ∈ outs ↔ expected active path o)
    ∧ (∀ r, r ∈ unused_rules st' ↔ r ∈ unused_rules st ∧ ∀ path, path ∈ cases → Contains re_match r path ≠ Ok true)
    ∧ ∀ o, o ∈ all_outcomes st' ↔ o ∈ all_outcomes st ∨ ∃ path outs, (path, outs) ∈ new ∧ o ∈ outs.
Proof.
  intros Hids. revert st. induction cases as [|path cases IH]; intros st Hsub Hnd Hl; cbn in Hl.
  - injection Hl as <-. exists []. rewrite app_nil_r. setoid_rewrite elem_of_nil. naive_solver.
  - apply bind_Ok in Hl as (st1&Hcase&Hl). apply classify_case_Ok in Hcase as (outs&Hres&Hndo&Ho&Hu&Hnd1&Ha); [|done..].
    apply IH in Hl as (new&Hres'&Hcases&Hnew&Hu'&Ha'); [|intros r [? _]%Hu; by apply Hsub|done].
    exists ((path, outs) :: new). split_and!.
    + rewrite Hres', Hres. by rewrite <- app_assoc.
    + cbn. by rewrite Hcases.
    + intros p o [[= -> ->]|Hin]%elem_of_cons; [done|by apply Hnew].
    + intros r. rewrite Hu', Hu. setoid_rewrite elem_of_cons. naive_solver.
    + intros o. rewrite Ha', Ha. setoid_rewrite elem_of_cons. naive_solver.
Qed.

(** The classification of tests.  Every case gets the outcomes of the rules that
    match its path in the sections whose condition holds, each once, or "pass" if these rules
    give none; the unused rules are those of such sections that match no case; and all
    outcomes are those of the cases. *)
Theorem ClassifyTests_correct sections cases st :
  ClassifyTests re_match fuel env all_defs sections cases = Ok st →
  NoDup (rule_id <$> concat (rules <$> sections)) →
  ∃ active, (∀ r, r ∈ active ↔ ∃ s c, s ∈ sections ∧ condition s = Some c ∧ holds env all_defs c ∧ r ∈ rules s)
    ∧ (results st).*1 = cases
    ∧ (∀ path outs, (path, outs) ∈ results st → NoDup outs ∧ ∀ o, o ∈ outs ↔ expected active path o)
    ∧ (∀ r, r ∈ unused_rules st ↔ r ∈ active ∧ ∀ path, path ∈ cases → Contains re_match r path ≠ Ok true)
    ∧ ∀ o, o ∈ all_outcomes st ↔ ∃ path outs, (path, outs) ∈ results st ∧ o ∈ outs.
Proof.
  unfold ClassifyTests. intros (enabled&He&Hrun)%bind_Ok Hids. apply filter_result_Ok in He as [[Hsub Htot] He].
  set (active := concat (rules <$> enabled)) in *. exists active.
  assert (Hids' : NoDup (rule_id <$> active)).
  { eapply sublist_NoDup; [exact Hids|]. unfold active. clear -Hsub.
    induction Hsub as [|s l1 l2 _ IH|s l1 l2 _ IH]; [done|..]; cbn; rewrite !fmap_app.
    - by apply sublist_app.
    - by apply sublist_inserts_l. }
  apply classify_cases_Ok in Hrun as (new&Hres&Hcases&Hnew&Hu&Ha); [|done|done|apply NoDup_nil_2].
  cbn [results unused_rules all_outcomes app] in *. rewrite Hres. split_and!; [|done|done|done|].
  - intros r. unfold active. rewrite elem_of_concat. setoid_rewrite list_elem_of_fmap. setoid_rewrite He. split.
    + intros (l&Hr&(s&->&Hs&Happ)). apply section_applies_Ok in Happ as (c&Hc&Hh). exists s, c.
      split_and!; [done|done|by apply Hh|done].
    + intros (s&c&Hs&Hc&Hh&Hr). exists (rules s). split; [done|]. exists s. split; [done|]. split; [done|].
      destruct (Htot _ Hs) as [b Hb]. rewrite Hb. apply section_applies_Ok in Hb as (c'&Hc'&Hb).
      rewrite Hc in Hc'. injection Hc' as <-. f_equal. by apply Hb.
  - intros o. rewrite Ha. rewrite elem_of_nil. naive_solver.
Qed.
End classification.

(** ** Reading keeps the identities of rules distinct *)

Definition all_ids (l : list Section_) : list nat := rule_id <$> concat (rules <$> l).
Definition ids_ok (st : reading) : Prop :=
  NoDup (all_ids (sections st)) ∧ ∀ i, i ∈ all_ids (sections st) → i < next_rule st.

Lemma all_ids_app l1 l2 : all_ids (l1 ++ l2) = all_ids l1 ++ all_ids l2.
Proof. unfold all_ids. by rewrite fmap_app, concat_app, fmap_app. Qed.

Lemma add_section_ids c st : ids_ok st → ids_ok (add_section c st).
Proof.
  unfold ids_ok, add_section. cbn [sections next_rule]. rewrite all_ids_app.
  change (all_ids [MkSection c []]) with (@nil nat). by rewrite app_nil_r.
Qed.

Lemma add_rule_ids raw path v st : ids_ok st → ids_ok (add_rule (MkRule (next_rule st) raw path v) st).
Proof.
  unfold ids_ok, add_rule. cbn [sections next_rule]. intros [Hnd Hlt].
  destruct (sections st) as [|s before _] using rev_ind; [split; [apply NoDup_nil_2|by intros i Hi%elem_of_nil]|].
  rewrite reverse_snoc, reverse_involutive. revert Hnd Hlt. rewrite !all_ids_app.
  assert (all_ids [MkSection (condition s) (rules s ++ [MkRule (next_rule st) raw path v])] = all_ids [s] ++ [next_rule st]) as ->.
  { unfold all_ids. cbn. by rewrite !app_nil_r, fmap_app. }
  rewrite app_assoc. intros Hnd Hlt. split.
  - apply NoDup_app. split_and!; [done| |apply NoDup_singleton]. intros i Hi%Hlt ->%list_elem_of_singleton. lia.
  - intros i [Hi%Hlt|Hi]%elem_of_app; [lia|]. apply list_elem_of_singleton in Hi. lia.
Qed.

Lemma read_line_ids line st st' : read_line line st = Ok (Some st') → ids_ok st → ids_ok st'.
Proof.
  unfold read_line. intros Hl Hok. destruct (header_match _) as [g|].
  { apply bind_Ok in Hl as (c&_&[= <-]). by apply add_section_ids. }
  destruct (rule_match _) as [[g1 g2]|].
  { apply bind_Ok in Hl as ([v|]&_&Hl); [|done]. injection Hl as <-. by apply add_rule_ids. }
  destruct (def_match _) as [[g1 g2]|].
  { apply bind_Ok in Hl as ([v|]&_&Hl); [|done]. by injection Hl as <-. }
  destruct (prefix_match _); [|done]. by injection Hl as <-.
Qed.

(** Rules that are read into lists with distinct rules are distinct from them, and from
    one another. *)
Lemma ReadConfigurationInto_ids lines sections defs n b st :
  ReadConfigurationInto lines sections defs n = Ok (b, st) → ids_ok (MkReading sections defs [] n) → ids_ok st.
Proof.
  unfold ReadConfigurationInto. intros Hr Hok. apply (add_section_ids (Some (Constant true))) in Hok. revert Hr Hok.
  generalize (add_section (Some (Constant true)) (MkReading sections defs [] n)).
  induction lines as [|line lines IH]; intros s Hr Hok; cbn in Hr; [by injection Hr as _ <-|].
  apply bind_Ok in Hr as ([s'|]&Hs&Hr); [|by injection Hr as _ <-]. eapply IH; [exact Hr|]. by eapply read_line_ids.
Qed.

(** ** Outputs *)

(** A test counts as what it should if its output is negated exactly for negative tests. *)
Lemma UnexpectedOutput_spec windows negative outcomes o :
  UnexpectedOutput windows negative outcomes o = false ↔
    (HasCrashed windows o = true ∧ CRASH ∈ outcomes)
    ∨ (HasCrashed windows o = false ∧ timed_out o = true ∧ TIMEOUT ∈ outcomes)
    ∨ (HasCrashed windows o = false ∧ timed_out o = false ∧ xorb negative (failed o) = true ∧ FAIL ∈ outcomes)
    ∨ (HasCrashed windows o = false ∧ timed_out o = false ∧ xorb negative (failed o) = false ∧ PASS ∈ outcomes).
Proof.
  unfold UnexpectedOutput, actual_outcome, HasTimedOut, HasFailed. rewrite negb_false_iff, bool_decide_eq_true.
  destruct (HasCrashed windows o), (timed_out o), negative, (failed o); naive_solver.
Qed.

(** The groups of the report are disjoint. *)
Lemma PrintReport_disjoint o : IsFlaky o && IsFailOk o = false ∧ IsFlaky o && (o ==? [PASS]) = false
  ∧ IsFlaky o && (o ==? [FAIL]) = false ∧ IsFailOk o && (o ==? [PASS]) = false ∧ IsFailOk o && (o ==? [FAIL]) = false.
Proof.
  assert (Hp : o = [PASS] → IsFlaky o = false ∧ IsFailOk o = false) by (intros ->; done).
  assert (Hf : o = [FAIL] → IsFlaky o = false ∧ IsFailOk o = false) by (intros ->; done).
  split_and!.
  - unfold IsFlaky, IsFailOk. destruct (OKAY in? o); cbn; rewrite ?andb_false_r; done.
  - case_bool_decide as Ho; [|by rewrite andb_false_r]. by destruct (Hp Ho) as [-> _].
  - case_bool_decide as Ho; [|by rewrite andb_false_r]. by destruct (Hf Ho) as [-> _].
  - case_bool_decide as Ho; [|by rewrite andb_false_r]. by destruct (Hp Ho) as [_ ->].
  - case_bool_decide as Ho; [|by rewrite andb_false_r]. by destruct (Hf Ho) as [_ ->].
Qed.

(** ** A sample *)

(** Patterns without special characters. *)
Definition plain_match (pattern : string) : option (string → bool) := Some (λ s, pattern ==? "^" +:+ s +:+ "$").
Definition sample_lines : list string :=
  ["prefix simple"; "test-a: PASS, FAIL if $system == win32"; "[$system == linux]"; "test-b : PASS,FAIL"; "test-c: SKIP"].
Definition sample_reading : reading :=
  match ReadConfigurationInto sample_lines [] [] 0 with Ok (_, st) => st | Err _ => MkReading [] [] [] 0 end.
Definition sample_cases : list (list string) := [["simple"; "test-a"]; ["simple"; "test-b"]].

Example sample_classified :
  ClassifyTests plain_match 9 sample_env (defs sample_reading) (sections sample_reading) sample_cases =
  Ok (MkClassified [(["simple"; "test-a"], ["pass"]); (["simple"; "test-b"], ["pass"; "fail"])]
        [MkRule 2 "test-c" ["simple"; "test-c"] (Outcome "skip")] ["pass"; "fail"]).
Proof. vm_compute. reflexivity. Qed.

Lemma ClassifyTests_correct_witness :
  ∃ st (active : list Rule), ClassifyTests plain_match 9 sample_env (defs sample_reading) (sections sample_reading) sample_cases = Ok st
    ∧ (results st).*1 = sample_cases
    ∧ ∀ r, r ∈ unused_rules st ↔ r ∈ active ∧ ∀ path, path ∈ sample_cases → Contains plain_match r path ≠ Ok true.
Proof.
  eexists.
  destruct (ClassifyTests_correct plain_match 9 sample_env (defs sample_reading) (sections sample_reading) sample_cases
    (MkClassified [(["simple"; "test-a"], ["pass"]); (["simple"; "test-b"], ["pass"; "fail"])]
        [MkRule 2 "test-c" ["simple"; "test-c"] (Outcome "skip")] ["pass"; "fail"]))
    as (active&_&Hres&_&Hunused&_).
  - vm_compute. reflexivity.
  - apply (bool_decide_unpack _). vm_compute. exact I.
  - exists active. split; [vm_compute; reflexivity|]. split; [exact Hres|exact Hunused].
Defined.

(** A guarded outcome alone, whose guard does not hold, makes the classification fail. *)
Example guarded_rule_fails :
  ClassifyTests plain_match 9 sample_env [] [MkSection (Some (Constant true)) [MkRule 0 "a" ["a"]
    (Operation (Outcome "fail") "if" (Operation (Variable_ "system") "==" (Outcome "win32")))]] [["a"]] = Err AssertionError.
Proof. vm_compute. reflexivity. Qed.
