(* ===== verification/TestRun.v ===== *)
(** * Running tests

    [ProgressIndicator] of the test driver tools/test.py: [Run] starts threads that
    run [RunSingle], is itself the last of them, and joins the others.  The threads share
    a queue, a lock and counters.  The program is a transition system with one step for each
    access to what is shared; what happens between acquiring and releasing the lock is
    one step, as nobody else looks.  A test may return any output, or raise.  The theorems
    hold for every interleaving.  What is printed is left out, and so is an exception
    raised while something is printed, which would leave the lock taken. *)
From stdpp Require Import relations.
From S2P Require Import Prelude PyDict PySet PyStr PyPath TestExpr TestConfig.

Section run.
(** A case knows whether it is negative and has the outcomes it got when it was classified. *)
Context {case : Type} (windows : bool) (IsNegative : case → bool) (outcomes : case → list string).
Definition unexpected (c : case) (o : output) : bool := UnexpectedOutput windows (IsNegative c) (outcomes c) o.
Definition crashes (p : case * output) : bool := HasCrashed windows p.2.
Implicit Types (c : case) (o : output) (i : nat).

Inductive thread :=
  | Loop                      (* at the head of the loop *)
  | Getting                   (* before queue.get_nowait() *)
  | Got c                     (* before the lock *)
  | Announcing c              (* with the lock *)
  | Running c
  | Ran c o                   (* after case.Run() *)
  | Acquiring c o             (* before the lock *)
  | Counting c o              (* with the lock *)
  | Returned
  | Raised.
Inductive main_thread := MainRunning | MainDone (all_passed : bool) | MainRaised.

Record indicator := MkIndicator {
  queue : list case;
  succeeded : nat;
  remaining : nat;
  failed_outputs : list (case * output);
  crashed : nat;
  terminate : bool;
  lock : option nat;
  threads : list thread;
  main : main_thread
}.
Implicit Types (w : indicator).

(** __init__, and the threads of Run; thread 0 is the one that calls Run. *)
Definition start (cases : list case) (tasks : nat) : indicator :=
  MkIndicator cases 0 (length cases) [] 0 false None (replicate (tasks `max` 1) Loop) MainRunning.

Definition set_thread i (t : thread) w : indicator :=
  MkIndicator (queue w) (succeeded w) (remaining w) (failed_outputs w) (crashed w) (terminate w) (lock w)
    (<[i := t]> (threads w)) (main w).
Definition set_queue (q : list case) w : indicator :=
  MkIndicator q (succeeded w) (remaining w) (failed_outputs w) (crashed w) (terminate w) (lock w) (threads w) (main w).
Definition set_lock (l : option nat) w : indicator :=
  MkIndicator (queue w) (succeeded w) (remaining w) (failed_outputs w) (crashed w) (terminate w) l (threads w) (main w).
Definition set_main (m : main_thread) (t : bool) w : indicator :=
  MkIndicator (queue w) (succeeded w) (remaining w) (failed_outputs w) (crashed w) t (lock w) (threads w) m.

(** What is done with an output under the lock. *)
Definition count_output c o w : indicator :=
  if unexpected c o then
    MkIndicator (queue w) (succeeded w) (pred (remaining w)) (failed_outputs w ++ [(c, o)])
      (if HasCrashed windows o then S (crashed w) else crashed w) (terminate w) (lock w) (threads w) (main w)
  else
    MkIndicator (queue w) (S (succeeded w)) (pred (remaining w)) (failed_outputs w) (crashed w) (terminate w) (lock w)
      (threads w) (main w).

Definition finished (t : thread) : bool := match t with Returned | Raised => true | _ => false end.

Inductive step : indicator → indicator → Prop :=
  | step_stop w i : threads w !! i = Some Loop → terminate w = true → step w (set_thread i Returned w)
  | step_go_on w i : threads w !! i = Some Loop → terminate w = false → step w (set_thread i Getting w)
  | step_get w i c q : threads w !! i = Some Getting → queue w = c :: q → step w (set_thread i (Got c) (set_queue q w))
  | step_empty w i : threads w !! i = Some Getting → queue w = [] → step w (set_thread i Returned w)
  | step_announce w i c :
      threads w !! i = Some (Got c) → lock w = None → step w (set_thread i (Announcing c) (set_lock (Some i) w))
  | step_announced w i c : threads w !! i = Some (Announcing c) → step w (set_thread i (Running c) (set_lock None w))
  | step_run w i c o : threads w !! i = Some (Running c) → step w (set_thread i (Ran c o) w)
  | step_ioerror w i c : threads w !! i = Some (Running c) → terminate w = true → step w (set_thread i Returned w)
  | step_raise w i c : threads w !! i = Some (Running c) → step w (set_thread i Raised w)
  | step_drop w i c o : threads w !! i = Some (Ran c o) → terminate w = true → step w (set_thread i Returned w)
  | step_keep w i c o : threads w !! i = Some (Ran c o) → terminate w = false → step w (set_thread i (Acquiring c o) w)
  | step_acquire w i c o :
      threads w !! i = Some (Acquiring c o) → lock w = None → step w (set_thread i (Counting c o) (set_lock (Some i) w))
  | step_count w i c o :
      threads w !! i = Some (Counting c o) → step w (set_thread i Loop (set_lock None (count_output c o w)))
  | step_reraise w : main w = MainRunning → threads w !! 0 = Some Raised → step w (set_main MainRaised true w)
  | step_join w :
      main w = MainRunning → threads w !! 0 = Some Returned → forallb finished (threads w) = true →
      step w (set_main (MainDone (bool_decide (failed_outputs w = []))) (terminate w) w).

(** * Theorems *)

(** The case a thread works on. *)
Definition case_of (t : thread) : list case :=
  match t with
  | Got c | Announcing c | Running c | Ran c _ | Acquiring c _ | Counting c _ => [c]
  | _ => []
  end.
Definition in_flight w : list case := concat (case_of <$> threads w).
Definition has_lock (t : thread) : bool := match t with Announcing _ | Counting _ _ => true | _ => false end.
Definition no_raised w : Prop := Raised ∉ threads w.

(** Where the cases are: [passed] have been counted as succeeded, with these outputs, and
    [lost] have not been counted and never will be. *)
Record accounted (cases : list case) (passed : list (case * output)) (lost : list case) w : Prop := {
  acc_cases : cases ≡ₚ queue w ++ in_flight w ++ lost ++ passed.*1 ++ (failed_outputs w).*1;
  acc_succeeded : succeeded w = length passed;
  acc_remaining : remaining w + length passed + length (failed_outputs w) = length cases;
  acc_expected : Forall (λ p, unexpected p.1 p.2 = false) passed;
  acc_unexpected : Forall (λ p, unexpected p.1 p.2 = true) (failed_outputs w);
  acc_crashed : crashed w = length (filter (λ p, crashes p = true) (failed_outputs w));
  acc_lost : no_raised w → lost = [] ∧ terminate w = false;
  acc_lock : ∀ i, lock w = Some i ↔ ∃ t, threads w !! i = Some t ∧ has_lock t = true;
  acc_queue : Returned ∈ threads w → terminate w = false → queue w = [];
  acc_threads : 0 < length (threads w);
  acc_main : main w = MainRunning ∨ forallb finished (threads w) = true ∧ main w = MainDone (bool_decide (failed_outputs w = []))
    ∧ threads w !! 0 = Some Returned ∨ main w = MainRaised ∧ threads w !! 0 = Some Raised
}.

(** What changing one thread changes. *)
Lemma in_flight_insert w i t t' :
  threads w !! i = Some t → ∃ others, in_flight w ≡ₚ case_of t ++ others
    ∧ concat (case_of <$> <[i := t']> (threads w)) ≡ₚ case_of t' ++ others.
Proof.
  intros Hi. unfold in_flight. destruct (list_elem_of_split_length _ _ _ Hi) as (l1&l2&->&->).
  exists (concat (case_of <$> l1 ++ l2)). split.
  - rewrite !fmap_app, !concat_app. cbn. solve_Permutation.
  - rewrite insert_app_r_alt, Nat.sub_diag by done. cbn. rewrite !fmap_app, !concat_app. cbn. solve_Permutation.
Qed.

Lemma lock_insert (ts : list thread) (L L' : option nat) i t t' :
  (∀ j, L = Some j ↔ ∃ t, ts !! j = Some t ∧ has_lock t = true) → ts !! i = Some t →
  L' = (if has_lock t' then Some i else if has_lock t then None else L) → (has_lock t' = true → L = None) →
  ∀ j, L' = Some j ↔ ∃ t, <[i := t']> ts !! j = Some t ∧ has_lock t = true.
Proof.
  intros HL Hi -> Hfree j. assert (Hlt : i < length ts) by by eapply lookup_lt_Some.
  assert (Hother : i ≠ j → <[i := t']> ts !! j = ts !! j) by (intros; by apply list_lookup_insert_ne).
  assert (Hself : <[i := t']> ts !! i = Some t') by by apply list_lookup_insert_eq.
  destruct (decide (i = j)) as [<-|Hne].
  - rewrite Hself. destruct (has_lock t') eqn:Ht'; [split; eauto|].
    assert (¬ ∃ t0, Some t' = Some t0 ∧ has_lock t0 = true) as Hno by (intros (x&[= <-]&Hx); congruence).
    destruct (has_lock t) eqn:Ht; [by split|]. rewrite HL, Hi. split; [|done]. intros (x&[= <-]&Hx). congruence.
  - rewrite Hother by done. rewrite <- HL. destruct (has_lock t'); [|destruct (has_lock t) eqn:Ht]; [|..].
    + rewrite Hfree by done. split; congruence.
    + assert (L = Some i) as -> by (apply HL; eauto). split; congruence.
    + done.
Qed.

Lemma no_raised_insert w w' i t t' :
  threads w' = <[i := t']> (threads w) → threads w !! i = Some t → t ≠ Raised → no_raised w' → no_raised w.
Proof.
  unfold no_raised. intros Hw Hi Ht Hn [j Hj]%list_elem_of_lookup. apply Hn. rewrite Hw.
  apply list_elem_of_lookup. exists j. rewrite list_lookup_insert_ne; [done|]. intros ->. congruence.
Qed.

Lemma returned_insert (ts : list thread) i t' : Returned ∈ <[i := t']> ts → t' = Returned ∨ Returned ∈ ts.
Proof.
  intros [j Hj]%list_elem_of_lookup. apply list_lookup_insert_Some in Hj as [(->&->&_)|[_ Hj]]; [by left|].
  right. by eapply list_elem_of_lookup_2.
Qed.

(** The step of a thread that is not finished leaves the main thread as it is, and
    Run has not returned. *)
Lemma thread_step_main cases passed lost w w' i t t' :
  accounted cases passed lost w → threads w !! i = Some t → finished t = false →
  threads w' = <[i := t']> (threads w) → main w' = main w →
  main w' = MainRunning ∨ forallb finished (threads w') = true ∧ main w' = MainDone (bool_decide (failed_outputs w' = []))
    ∧ threads w' !! 0 = Some Returned ∨ main w' = MainRaised ∧ threads w' !! 0 = Some Raised.
Proof.
  intros [] Hi Ht Hw Hm. rewrite Hm. destruct acc_main0 as [Hmain|[(Hall&_)|(Hmain&H0)]]; [by left| |].
  - rewrite forallb_forall in Hall. specialize (Hall t). rewrite <- list_elem_of_In in Hall.
    rewrite Hall in Ht; [done|]. by eapply list_elem_of_lookup_2.
  - right. right. split; [done|]. rewrite Hw, list_lookup_insert_ne; [done|]. intros ->. by simplify_eq.
Qed.

(** A step that only moves a case from one place to another. *)
Lemma move_accounted cases passed lost lost' w w' i t t' :
  accounted cases passed lost w → threads w !! i = Some t → finished t = false →
  threads w' = <[i := t']> (threads w) → main w' = main w → terminate w' = terminate w →
  succeeded w' = succeeded w → remaining w' = remaining w → failed_outputs w' = failed_outputs w → crashed w' = crashed w →
  queue w ++ case_of t ++ lost ≡ₚ queue w' ++ case_of t' ++ lost' →
  (t' ≠ Raised → terminate w = false → lost = [] → lost' = []) →
  lock w' = (if has_lock t' then Some i else if has_lock t then None else lock w) → (has_lock t' = true → lock w = None) →
  (queue w = [] → queue w' = []) → (t' = Returned → terminate w = false → queue w = []) →
  accounted cases passed lost' w'.
Proof.
  intros Hacc Hi Ht Hth Hm Hter Hs Hr Hf Hc Hplace Hlost Hlock Hfree Hq Hret.
  pose proof (thread_step_main _ _ _ _ w' _ _ t' Hacc Hi Ht Hth Hm) as Hmain. destruct Hacc. split.
  - destruct (in_flight_insert w i t t' Hi) as (others&H1&H2). unfold in_flight in *. rewrite Hth, H2, Hf, acc_cases0, H1.
    transitivity ((queue w ++ case_of t ++ lost) ++ others ++ passed.*1 ++ (failed_outputs w).*1); [solve_Permutation|].
    rewrite Hplace. solve_Permutation.
  - by rewrite Hs.
  - by rewrite Hr, Hf.
  - done.
  - by rewrite Hf.
  - by rewrite Hc, Hf.
  - intros Hno. rewrite Hter. assert (t' ≠ Raised) as Hne.
    { intros ->. destruct Hno. rewrite Hth. apply list_elem_of_lookup. exists i. apply list_lookup_insert_eq.
      by eapply lookup_lt_Some. }
    destruct acc_lost0 as [Hl Hte]; [|split; [by apply Hlost|done]]. eapply no_raised_insert; [exact Hth|done| |done].
    intros ->. done.
  - rewrite Hth. by eapply lock_insert.
  - rewrite Hth, Hter. intros Hin Hte. apply Hq. eapply returned_insert in Hin as [?|?]; [by apply Hret|by apply acc_queue0].
  - by rewrite Hth, length_insert.
  - done.
Qed.

(** Counting an output. *)
Lemma count_accounted cases passed lost w i c o :
  accounted cases passed lost w → threads w !! i = Some (Counting c o) →
  ∃ passed' lost', accounted cases passed' lost' (set_thread i Loop (set_lock None (count_output c o w))).
Proof.
  intros Hacc Hi. set (w' := set_thread _ _ _).
  assert (Hth : threads w' = <[i := Loop]> (threads w)) by (unfold w', count_output; by destruct (unexpected c o)).
  assert (Hm : main w' = main w) by (unfold w', count_output; by destruct (unexpected c o)).
  pose proof (thread_step_main _ _ _ _ w' _ _ Loop Hacc Hi eq_refl Hth Hm) as Hmain.
  exists (if unexpected c o then passed else (c, o) :: passed), lost. destruct Hacc.
  destruct (in_flight_insert w i _ Loop Hi) as (others&H1&H2). rewrite <- Hth in H2. cbn [case_of app] in H1, H2.
  assert (Hsize : 0 < remaining w).
  { apply Permutation_length in acc_cases0. rewrite H1, !length_app, !length_fmap in acc_cases0. cbn in acc_cases0. lia. }
  assert (Hlock : ∀ j, None = Some j ↔ ∃ t, threads w' !! j = Some t ∧ has_lock t = true).
  { rewrite Hth. by eapply (lock_insert _ (lock w) None i). }
  assert (Hno : no_raised w' → no_raised w) by (intros Hno; by eapply no_raised_insert).
  assert (Hret : Returned ∈ threads w' → Returned ∈ threads w).
  { rewrite Hth. by intros [?|?]%returned_insert. }
  assert (Hlen : 0 < length (threads w')) by (by rewrite Hth, length_insert).
  unfold w', count_output in *. destruct (unexpected c o) eqn:Hu; split; cbn in *; try done.
  - unfold in_flight in *. cbn. rewrite H2, acc_cases0, H1, fmap_app. cbn. solve_Permutation.
  - rewrite length_app. cbn. lia.
  - apply Forall_app. split; [done|]. by apply Forall_singleton.
  - rewrite filter_app, length_app, acc_crashed0. change (HasCrashed windows o) with (crashes (c, o)). destruct (crashes (c, o)) eqn:Hc.
    + rewrite filter_cons_True by done. cbn. lia.
    + rewrite filter_cons_False by (cbn; congruence). cbn. lia.
  - intros Hn. by apply acc_lost0, Hno.
  - intros Hr. by apply acc_queue0, Hret.
  - unfold in_flight in *. cbn. rewrite H2, acc_cases0, H1. solve_Permutation.
  - by rewrite acc_succeeded0.
  - lia.
  - by constructor.
  - intros Hn. by apply acc_lost0, Hno.
  - intros Hr. by apply acc_queue0, Hret.
Qed.

(** The premises of [move_accounted] for one step. *)
Local Ltac move_case := eapply move_accounted; cbn; try done; try (by intros; congruence).

Lemma accounted_step cases passed lost w w' :
  accounted cases passed lost w → step w w' → ∃ passed' lost', accounted cases passed' lost' w'.
Proof.
  intros Hacc Hstep. destruct Hstep as [w i Hi Ht|w i Hi Ht|w i c q Hi Hq|w i Hi Hq|w i c Hi Hl|w i c Hi|w i c o Hi
    |w i c Hi Ht|w i c Hi|w i c o Hi Ht|w i c o Hi Ht|w i c o Hi Hl|w i c o Hi|w Hm Hi|w Hm Hi Hall].
  - exists passed, lost. by move_case.
  - exists passed, lost. by move_case.
  - exists passed, lost. move_case. rewrite Hq. solve_Permutation.
  - exists passed, lost. by move_case.
  - exists passed, lost. by move_case.
  - exists passed, lost. by move_case.
  - exists passed, lost. by move_case.
  - exists passed, (c :: lost). by move_case.
  - exists passed, (c :: lost). by move_case.
  - exists passed, (c :: lost). by move_case.
  - exists passed, lost. by move_case.
  - exists passed, lost. by move_case.
  - by eapply count_accounted.
  - exists passed, lost. destruct Hacc. split; try done; cbn.
    + intros Hno. exfalso. apply Hno. by eapply list_elem_of_lookup_2.
    + right. by right.
  - exists passed, lost. destruct Hacc. split; try done; cbn. right. by left.
Qed.
Lemma start_accounted cases tasks : accounted cases [] [] (start cases tasks).
Proof.
  assert (Hloop : ∀ t, t ∈ replicate (tasks `max` 1) Loop → t = Loop) by (by intros t [-> _]%elem_of_replicate).
  split; cbn; try done.
  - unfold in_flight, start. cbn. assert (∀ n, concat (case_of <$> replicate n Loop) = []) as -> by (by induction n).
    by rewrite !app_nil_r.
  - lia.
  - intros i. split; [done|]. intros (t&->%list_elem_of_lookup_2%Hloop&?). done.
  - by intros Hin%Hloop.
  - rewrite length_replicate. lia.
  - by left.
Qed.

Lemma run_accounted cases tasks w :
  rtc step (start cases tasks) w → ∃ passed lost, accounted cases passed lost w.
Proof.
  intros Hrun. assert (Hinv : ∃ passed lost, accounted cases passed lost (start cases tasks)) by eauto using start_accounted.
  induction Hrun as [|w1 w2 w3 Hstep _ IH]; [done|]. destruct Hinv as (passed&lost&Hinv).
  eauto using accounted_step.
Qed.

(** ** Progress and termination *)

(** How many steps a thread still has to do for the case it works on. *)
Definition thread_work (t : thread) : nat :=
  match t with
  | Returned | Raised => 0 | Getting => 1 | Loop => 2 | Counting _ _ => 3 | Acquiring _ _ => 4 | Ran _ _ => 5
  | Running _ => 6 | Announcing _ => 7 | Got _ => 8
  end.
Definition work w : nat :=
  8 * length (queue w) + sum_list (thread_work <$> threads w) + match main w with MainRunning => 1 | _ => 0 end.

Lemma sum_list_insert (ts : list thread) i t t' :
  ts !! i = Some t →
  sum_list (thread_work <$> <[i := t']> ts) + thread_work t = sum_list (thread_work <$> ts) + thread_work t'.
Proof.
  intros (l1&l2&->&->)%list_elem_of_split_length.
  rewrite insert_app_r_alt, Nat.sub_diag by done. cbn. rewrite !fmap_app, !sum_list_with_app. cbn. lia.
Qed.

Lemma step_work w w' : step w w' → work w' < work w.
Proof.
  destruct 1 as [w i Hi Ht|w i Hi Ht|w i c q Hi Hq|w i Hi Hq|w i c Hi Hl|w i c Hi|w i c o Hi
    |w i c Hi Ht|w i c Hi|w i c o Hi Ht|w i c o Hi Ht|w i c o Hi Hl|w i c o Hi|w Hm Hi|w Hm Hi Hall];
  unfold work, count_output; try destruct (unexpected c o); cbn [queue threads main set_thread set_queue set_lock set_main];
  try (match goal with |- context [<[i := ?t]> _] => pose proof (sum_list_insert _ _ _ t Hi) as Hsum end;
    cbn [thread_work] in Hsum).
  all: try (rewrite Hq; cbn). all: try rewrite Hm. all: try lia.
Qed.

Lemma work_bound n w w' : nsteps step n w w' → n + work w' ≤ work w.
Proof. induction 1 as [|n x y z Hstep%step_work _ IH]; lia. Qed.

Lemma start_work cases tasks : work (start cases tasks) = 8 * length cases + 2 * (tasks `max` 1) + 1.
Proof.
  unfold work, start. cbn [queue threads main]. do 2 f_equal. induction (tasks `max` 1); cbn; [done|].
  unfold sum_list in *. lia.
Qed.

Lemma unfinished (ts : list thread) :
  forallb finished ts = false → ∃ i t, ts !! i = Some t ∧ finished t = false.
Proof.
  induction ts as [|t ts IH]; cbn; [done|]. destruct (finished t) eqn:Ht; [|by exists 0, t].
  intros (i&t'&?&?)%IH. by exists (S i), t'.
Qed.

Lemma holder_progress w i t : threads w !! i = Some t → has_lock t = true → ∃ w', step w w'.
Proof. destruct t; try done; intros; eexists; [by eapply step_announced|by eapply step_count]. Qed.

(** Unless everything has been done somebody can go on: whoever waits for the lock
    waits for a thread that can. *)
Lemma accounted_progress cases passed lost w :
  accounted cases passed lost w → main w = MainRunning → ∃ w', step w w'.
Proof.
  intros [] Hm. destruct (forallb finished (threads w)) eqn:Hall.
  - destruct (lookup_lt_is_Some_2 _ _ acc_threads0) as [t Ht].
    assert (finished t = true) as Hf.
    { rewrite forallb_forall in Hall. apply Hall, list_elem_of_In. by eapply list_elem_of_lookup_2. }
    destruct t; try done; eexists; [by apply step_join|by apply step_reraise].
  - apply unfinished in Hall as (i&t&Hi&Ht).
    assert (Hlock : (∃ w', step w w') ∨ lock w = None).
    { destruct (lock w) as [j|] eqn:Hl; [left|by right]. destruct (proj1 (acc_lock0 j) eq_refl) as (t'&?&?).
      by eapply holder_progress. }
    destruct t; try done.
    + destruct (terminate w) eqn:?; eexists; [by eapply step_stop|by eapply step_go_on].
    + destruct (queue w) eqn:?; eexists; [by eapply step_empty|by eapply step_get].
    + destruct Hlock as [?|?]; [done|]. eexists. by eapply step_announce.
    + by eapply holder_progress.
    + eexists. by eapply step_raise.
    + destruct (terminate w) eqn:?; eexists; [by eapply step_drop|by eapply step_keep].
    + destruct Hlock as [?|?]; [done|]. eexists. by eapply step_acquire.
    + by eapply holder_progress.
Qed.

(** Between acquiring and releasing the lock there is one thread. *)
Lemma lock_exclusive cases passed lost w i j t t' :
  accounted cases passed lost w → threads w !! i = Some t → threads w !! j = Some t' →
  has_lock t = true → has_lock t' = true → i = j.
Proof.
  intros [] Hi Hj Ht Ht'. assert (lock w = Some i) by (apply acc_lock0; eauto).
  assert (lock w = Some j) by (apply acc_lock0; eauto). congruence.
Qed.

(** When Run has returned and no thread raised, every case has been counted. *)
Lemma done_accounted cases passed lost w r :
  accounted cases passed lost w → main w = MainDone r → no_raised w →
  cases ≡ₚ passed.*1 ++ (failed_outputs w).*1 ∧ remaining w = 0.
Proof.
  intros [] Hm Hno. destruct acc_main0 as [?|[(Hall&_&H0)|(?&_)]]; [congruence| |congruence].
  destruct (acc_lost0 Hno) as [-> Hter].
  assert (Hflight : in_flight w = []).
  { unfold in_flight. clear -Hall. induction (threads w) as [|t ts IH]; cbn in *; [done|].
    apply andb_true_iff in Hall as [Ht Hts]. rewrite IH by done. by destruct t. }
  rewrite Hflight, acc_queue0 in acc_cases0; [|by eapply list_elem_of_lookup_2|done]. split; [done|].
  apply Permutation_length in acc_cases0. cbn in acc_cases0. rewrite length_app, !length_fmap in acc_cases0. lia.
Qed.

(** C10: Whatever the interleaving of the threads of a run of the tests and whatever the
    tests return or raise, at every moment each case is at exactly one place (in the queue, with
    a thread, lost, passed or failed), the counters succeeded, remaining and crashed
    are what the outputs say, failed has exactly the unexpected outputs, and one thread at a time
    has the lock.  When Run returns, it returns
    whether nothing failed; if no thread raised, every case then has been run and
    counted once and remaining is 0. *)
Theorem ProgressIndicator_correct cases tasks w :
  rtc step (start cases tasks) w →
  ∃ passed lost,
    cases ≡ₚ queue w ++ in_flight w ++ lost ++ passed.*1 ++ (failed_outputs w).*1
    ∧ succeeded w = length passed ∧ remaining w + succeeded w + length (failed_outputs w) = length cases
    ∧ crashed w = length (filter (λ p, crashes p = true) (failed_outputs w))
    ∧ Forall (λ p, unexpected p.1 p.2 = false) passed ∧ Forall (λ p, unexpected p.1 p.2 = true) (failed_outputs w)
    ∧ (∀ i j t t', threads w !! i = Some t → threads w !! j = Some t' → has_lock t = true → has_lock t' = true → i = j)
    ∧ ∀ r, main w = MainDone r →
        (r = true ↔ failed_outputs w = [])
        ∧ (no_raised w → cases ≡ₚ passed.*1 ++ (failed_outputs w).*1 ∧ remaining w = 0).
Proof.
  intros (passed&lost&Hacc)%run_accounted. exists passed, lost. destruct (Hacc) as [].
  split_and!; try done; [by rewrite acc_succeeded0|by intros; eapply lock_exclusive|].
  intros r Hr. split; [|by eapply done_accounted].
  destruct acc_main0 as [?|[(_&Hm&_)|(?&_)]]; [congruence| |congruence].
  rewrite Hr in Hm. injection Hm as ->. by rewrite bool_decide_eq_true.
Qed.

(** C25: A run of the tests comes to an end under every interleaving: no sequence of
    steps is longer than eight per case, two per thread and one, and as long as Run has neither
    returned nor raised there is a step: nobody waits for the lock or for a thread
    for ever. *)
Theorem ProgressIndicator_terminates cases tasks n w :
  nsteps step n (start cases tasks) w →
  n ≤ 8 * length cases + 2 * (tasks `max` 1) + 1 ∧ (main w = MainRunning → ∃ w', step w w').
Proof.
  intros Hrun. pose proof (work_bound _ _ _ Hrun). rewrite start_work in *. split; [lia|].
  apply rtc_nsteps_2, run_accounted in Hrun as (passed&lost&Hacc). by eapply accounted_progress.
Qed.
End run.

(** ** Samples *)

Definition test_outcomes (c : nat) : list string := if c =? 1 then [FAIL] else [PASS].

(** The run of one case by the thread that calls Run. *)
Definition ok_output : output := MkOutput 0 false false.
Definition one_done : indicator (case := nat) := MkIndicator [] 1 0 [] 0 false None [Returned] (MainDone true).

Example one_run : nsteps (step false (λ _, false) test_outcomes) 11 (start [0] 1) one_done.
Proof.
  eapply nsteps_l; [by eapply (step_go_on _ _ _ _ 0)|]. eapply nsteps_l; [by eapply (step_get _ _ _ _ 0)|].
  eapply nsteps_l; [by eapply (step_announce _ _ _ _ 0)|]. eapply nsteps_l; [by eapply (step_announced _ _ _ _ 0)|].
  eapply nsteps_l; [by eapply (step_run _ _ _ _ 0 _ ok_output)|]. eapply nsteps_l; [by eapply (step_keep _ _ _ _ 0)|].
  eapply nsteps_l; [by eapply (step_acquire _ _ _ _ 0)|]. eapply nsteps_l; [by eapply (step_count _ _ _ _ 0)|].
  eapply nsteps_l; [by eapply (step_go_on _ _ _ _ 0)|]. eapply nsteps_l; [by eapply (step_empty _ _ _ _ 0)|].
  eapply nsteps_l; [by eapply step_join|]. apply nsteps_O.
Qed.

Lemma ProgressIndicator_correct_witness :
  rtc (step false (λ _, false) test_outcomes) (start [0] 1) one_done
  ∧ ∃ passed : list (nat * output), [0] ≡ₚ passed.*1 ++ [].
Proof.
  assert (Hrun : rtc (step false (λ _, false) test_outcomes) (start [0] 1) one_done) by (eapply rtc_nsteps_2, one_run).
  split; [exact Hrun|]. destruct (ProgressIndicator_correct _ _ _ _ _ _ Hrun) as (passed&lost&_&_&_&_&_&_&_&Hdone).
  exists passed. destruct (Hdone true eq_refl) as [_ Hall]. apply Hall. unfold no_raised. cbn.
  intros Hin%list_elem_of_singleton. done.
Defined.

Lemma ProgressIndicator_terminates_witness :
  nsteps (step false (λ _, false) test_outcomes) 11 (start [0] 1) one_done ∧ 11 ≤ 8 * 1 + 2 * (1 `max` 1) + 1.
Proof.
  split; [exact one_run|]. exact (proj1 (ProgressIndicator_terminates _ _ _ [0] 1 11 one_done one_run)).
Defined.

(** A case whose thread raises is lost, and the run still passes. *)
Example lost_case :
  rtc (step false (λ _, false) test_outcomes) (start [0] 2)
    (MkIndicator [] 0 1 [] 0 false None [Returned; Raised] (MainDone true)).
Proof.
  eapply rtc_l; [by eapply (step_go_on _ _ _ _ 1)|]. eapply rtc_l; [by eapply (step_get _ _ _ _ 1)|].
  eapply rtc_l; [by eapply (step_announce _ _ _ _ 1)|]. eapply rtc_l; [by eapply (step_announced _ _ _ _ 1)|].
  eapply rtc_l; [by eapply (step_raise _ _ _ _ 1)|]. eapply rtc_l; [by eapply (step_go_on _ _ _ _ 0)|].
  eapply rtc_l; [by eapply (step_empty _ _ _ _ 0)|]. eapply rtc_l; [by eapply step_join|]. apply rtc_refl.
Qed.
