(* ===== verification/XcObject.v ===== *)
(** * Objects of Xcode projects

    The classes of tools/gyp/pylib/gyp/xcodeproj_file.py with their schemas, objects in a heap, and what [XCObject] does with
    properties: validation, defaults, copies, ownership.  What the constructors of the subclasses add is here as well, for all but
    native targets. *)
From S2P Require Import Prelude PyDict PyStr PyPath.
From Stdlib Require Import Ascii.

(** ** Classes *)
Inductive cls :=
  | XCObject | XCHierarchicalElement | PBXGroup | XCFileLikeElement | XCContainerPortal | XCRemoteObject | PBXFileReference
  | PBXVariantGroup | XCBuildConfiguration | XCConfigurationList | PBXBuildFile | XCBuildPhase | PBXHeadersBuildPhase
  | PBXResourcesBuildPhase | PBXSourcesBuildPhase | PBXFrameworksBuildPhase | PBXShellScriptBuildPhase | PBXCopyFilesBuildPhase
  | PBXBuildRule | PBXContainerItemProxy | PBXTargetDependency | PBXReferenceProxy | XCTarget | PBXNativeTarget
  | PBXAggregateTarget | PBXProject | XCProjectFile.
#[export] Instance cls_eq_dec : EqDecision cls.
Proof. solve_decision. Defined.

Definition class_name (c : cls) : string :=
  match c with
  | XCObject => "XCObject" | XCHierarchicalElement => "XCHierarchicalElement" | PBXGroup => "PBXGroup"
  | XCFileLikeElement => "XCFileLikeElement" | XCContainerPortal => "XCContainerPortal" | XCRemoteObject => "XCRemoteObject"
  | PBXFileReference => "PBXFileReference" | PBXVariantGroup => "PBXVariantGroup" | XCBuildConfiguration => "XCBuildConfiguration"
  | XCConfigurationList => "XCConfigurationList" | PBXBuildFile => "PBXBuildFile" | XCBuildPhase => "XCBuildPhase"
  | PBXHeadersBuildPhase => "PBXHeadersBuildPhase" | PBXResourcesBuildPhase => "PBXResourcesBuildPhase"
  | PBXSourcesBuildPhase => "PBXSourcesBuildPhase" | PBXFrameworksBuildPhase => "PBXFrameworksBuildPhase"
  | PBXShellScriptBuildPhase => "PBXShellScriptBuildPhase" | PBXCopyFilesBuildPhase => "PBXCopyFilesBuildPhase"
  | PBXBuildRule => "PBXBuildRule" | PBXContainerItemProxy => "PBXContainerItemProxy" | PBXTargetDependency => "PBXTargetDependency"
  | PBXReferenceProxy => "PBXReferenceProxy" | XCTarget => "XCTarget" | PBXNativeTarget => "PBXNativeTarget"
  | PBXAggregateTarget => "PBXAggregateTarget" | PBXProject => "PBXProject" | XCProjectFile => "XCProjectFile"
  end.

(** The class and all its bases, for [isinstance]. *)
Definition bases (c : cls) : list cls :=
  c :: match c with
  | XCObject => []
  | PBXGroup | XCFileLikeElement => [XCHierarchicalElement; XCObject]
  | PBXFileReference => [XCFileLikeElement; XCHierarchicalElement; XCContainerPortal; XCRemoteObject; XCObject]
  | PBXVariantGroup => [PBXGroup; XCFileLikeElement; XCHierarchicalElement; XCObject]
  | PBXReferenceProxy => [XCFileLikeElement; XCHierarchicalElement; XCObject]
  | PBXHeadersBuildPhase | PBXResourcesBuildPhase | PBXSourcesBuildPhase | PBXFrameworksBuildPhase
  | PBXShellScriptBuildPhase | PBXCopyFilesBuildPhase => [XCBuildPhase; XCObject]
  | XCTarget => [XCRemoteObject; XCObject]
  | PBXNativeTarget | PBXAggregateTarget => [XCTarget; XCRemoteObject; XCObject]
  | PBXProject => [XCContainerPortal; XCObject]
  | _ => [XCObject]
  end.
Definition subclass (c d : cls) : bool := d in? bases c.

(** ** Values and objects *)
#[local] Set Warnings "-register-all".
#[local] Unset Elimination Schemes.
Inductive xval :=
  | XObj (o : nat)
  | XStr (s : text)
  | XInt (z : Z)
  | XList (l : list xval)
  | XDict (d : list (text * xval)).
#[local] Set Elimination Schemes.

Section induction.
Variable P : xval → Prop.
Hypothesis (HObj : ∀ o, P (XObj o)) (HStr : ∀ s, P (XStr s)) (HInt : ∀ z, P (XInt z)).
Hypothesis HList : ∀ l, Forall P l → P (XList l).
Hypothesis HDict : ∀ d, Forall (λ p, P p.2) d → P (XDict d).

Fixpoint xval_ind (v : xval) : P v :=
  match v with
  | XObj o => HObj o
  | XStr s => HStr s
  | XInt z => HInt z
  | XList l => HList l ((fix go l := match l return Forall P l with
      | [] => Forall_nil_2 _
      | x :: l => Forall_cons_2 _ _ _ (xval_ind x) (go l) end) l)
  | XDict d => HDict d ((fix go d := match d return Forall (λ p, P p.2) d with
      | [] => Forall_nil_2 _
      | p :: d => Forall_cons_2 (λ p, P p.2) p d (xval_ind p.2) (go d) end) d)
  end.
End induction.

#[export] Instance xval_eq_dec : EqDecision xval.
Proof.
  refine (fix go (v1 v2 : xval) : Decision (v1 = v2) :=
    let _ : EqDecision xval := @go in
    match v1, v2 with
    | XObj o1, XObj o2 => cast_if (decide (o1 = o2))
    | XStr s1, XStr s2 => cast_if (decide (s1 = s2))
    | XInt z1, XInt z2 => cast_if (decide (z1 = z2))
    | XList l1, XList l2 => cast_if (decide (l1 = l2))
    | XDict d1, XDict d2 => cast_if (decide (d1 = d2))
    | _, _ => right _
    end);
    repeat match goal with r : EqDecision _ |- _ => clear r end; clear go; abstract congruence.
Defined.

Abbreviation xprops := (list (string * xval)).

(** An object: its class, the attributes of [XCObject], and those of [PBXGroup], [XCBuildPhase] and [PBXProject]. *)
Record xobject := XObject {
  class_of : cls;
  xid : option text;
  parent : option nat;
  properties : xprops;
  hashables : list text;
  children_by_path : list (text * nat);
  variant_children_by_name_and_path : list ((option text * option text) * nat);
  files_by_path : list (option text * nat);
  files_by_xcfilelikeelement : list (nat * nat);
  path : option text;
  other_pbxprojects : list (nat * (nat * nat))
}.

Record heap := Heap { objects : gmap nat xobject; next : nat }.

(** ** Schemas *)
Inductive ptype := TStr | TInt | TDict | TClass (c : cls).
#[export] Instance ptype_eq_dec : EqDecision ptype.
Proof. solve_decision. Defined.
Record attributes := Attributes { is_list : bool; property_type : ptype; is_strong : bool; is_required : bool; default_value : option xval }.
Abbreviation xschema := (list (string * attributes)).

Definition optional (t : ptype) : attributes := Attributes false t false false None.
Definition required (t : ptype) : attributes := Attributes false t false true None.
Definition defaulted (t : ptype) (v : xval) : attributes := Attributes false t false true (Some v).
Definition owned (c : cls) : attributes := Attributes false (TClass c) true true None.
Definition owned_default (c : cls) (v : xval) : attributes := Attributes false (TClass c) true true (Some v).
Definition owned_list (c : cls) (l : list xval) : attributes := Attributes true (TClass c) true true (Some (XList l)).
Definition list_of (t : ptype) : attributes := Attributes true t false true (Some (XList [])).
Definition str (s : string) : xval := XStr (chars s).

Definition hierarchical_schema : xschema :=
  [("comments", optional TStr); ("fileEncoding", optional TStr); ("includeInIndex", optional TInt); ("indentWidth", optional TInt);
   ("lineEnding", optional TInt); ("sourceTree", defaulted TStr (str "<group>")); ("tabWidth", optional TInt); ("usesTabs", optional TInt);
   ("wrapsLines", optional TInt)].
Definition phase_schema : xschema :=
  [("buildActionMask", defaulted TInt (XInt 2147483647)); ("files", owned_list PBXBuildFile []);
   ("runOnlyForDeploymentPostprocessing", defaulted TInt (XInt 0))].

(** The objects that the module makes for defaults when it is loaded, in the order in which it makes them; see [module_objects]. *)
Definition debug_configuration : nat := 0.
Definition release_configuration : nat := 1.
Definition target_configurations : nat := 2.
Definition sources_phase : nat := 5.
Definition frameworks_phase : nat := 6.
Definition project_configurations : nat := 7.
Definition project_group : nat := 10.

Definition target_schema : xschema :=
  [("buildConfigurationList", owned_default XCConfigurationList (XObj target_configurations)); ("buildPhases", owned_list XCBuildPhase []);
   ("dependencies", owned_list PBXTargetDependency []); ("name", required TStr); ("productName", required TStr)].

Definition group_schema : xschema :=
  dict_update hierarchical_schema [("children", owned_list XCHierarchicalElement []); ("name", optional TStr); ("path", optional TStr)].
Definition file_schema : xschema :=
  dict_update hierarchical_schema
    [("explicitFileType", optional TStr); ("lastKnownFileType", optional TStr); ("name", optional TStr); ("path", required TStr)].
Definition configuration_schema : xschema :=
  [("baseConfigurationReference", optional (TClass PBXFileReference)); ("buildSettings", defaulted TDict (XDict [])); ("name", required TStr)].
Definition configuration_list_schema : xschema :=
  [("buildConfigurations", owned_list XCBuildConfiguration [XObj debug_configuration; XObj release_configuration]);
   ("defaultConfigurationIsVisible", defaulted TInt (XInt 1)); ("defaultConfigurationName", defaulted TStr (str "Release"))].
Definition build_file_schema : xschema := [("fileRef", required (TClass XCFileLikeElement)); ("settings", optional TStr)].
Definition shell_script_schema : xschema :=
  dict_update phase_schema
    [("inputPaths", list_of TStr); ("name", optional TStr); ("outputPaths", list_of TStr); ("shellPath", defaulted TStr (str "/bin/sh"));
     ("shellScript", required TStr); ("showEnvVarsInLog", optional TInt)].
Definition copy_files_schema : xschema :=
  dict_update phase_schema [("dstPath", required TStr); ("dstSubfolderSpec", required TInt); ("name", optional TStr)].
Definition rule_schema : xschema :=
  [("compilerSpec", required TStr); ("filePatterns", optional TStr); ("fileType", required TStr); ("isEditable", defaulted TInt (XInt 1));
   ("outputFiles", list_of TStr); ("script", optional TStr)].
Definition proxy_schema : xschema :=
  [("containerPortal", required (TClass XCContainerPortal)); ("proxyType", required TInt);
   ("remoteGlobalIDString", required (TClass XCRemoteObject)); ("remoteInfo", required TStr)].
Definition dependency_schema : xschema :=
  [("name", optional TStr); ("target", optional (TClass XCTarget)); ("targetProxy", owned PBXContainerItemProxy)].
Definition reference_proxy_schema : xschema :=
  dict_update hierarchical_schema [("fileType", required TStr); ("path", required TStr); ("remoteRef", owned PBXContainerItemProxy)].
Definition native_target_schema : xschema :=
  dict_update target_schema
    [("buildPhases", owned_list XCBuildPhase [XObj sources_phase; XObj frameworks_phase]); ("buildRules", owned_list PBXBuildRule []);
     ("productReference", required (TClass PBXFileReference)); ("productType", required TStr)].
Definition project_schema : xschema :=
  [("attributes", optional TDict); ("buildConfigurationList", owned_default XCConfigurationList (XObj project_configurations));
   ("compatibilityVersion", defaulted TStr (str "Xcode 3.2")); ("hasScannedForEncodings", defaulted TInt (XInt 1));
   ("mainGroup", owned_default PBXGroup (XObj project_group)); ("projectDirPath", defaulted TStr (str ""));
   ("projectReferences", Attributes true TDict false false None); ("projectRoot", defaulted TStr (str "")); ("targets", owned_list XCTarget [])].
Definition project_file_schema : xschema :=
  [("archiveVersion", defaulted TInt (XInt 1)); ("classes", defaulted TDict (XDict [])); ("objectVersion", defaulted TInt (XInt 45));
   ("rootObject", owned PBXProject)].

Definition schema (c : cls) : xschema :=
  match c with
  | XCObject | XCContainerPortal | XCRemoteObject => []
  | XCHierarchicalElement | XCFileLikeElement => hierarchical_schema
  | PBXGroup | PBXVariantGroup => group_schema
  | PBXFileReference => file_schema
  | XCBuildConfiguration => configuration_schema
  | XCConfigurationList => configuration_list_schema
  | PBXBuildFile => build_file_schema
  | XCBuildPhase | PBXHeadersBuildPhase | PBXResourcesBuildPhase | PBXSourcesBuildPhase | PBXFrameworksBuildPhase => phase_schema
  | PBXShellScriptBuildPhase => shell_script_schema
  | PBXCopyFilesBuildPhase => copy_files_schema
  | PBXBuildRule => rule_schema
  | PBXContainerItemProxy => proxy_schema
  | PBXTargetDependency => dependency_schema
  | PBXReferenceProxy => reference_proxy_schema
  | XCTarget | PBXAggregateTarget => target_schema
  | PBXNativeTarget => native_target_schema
  | PBXProject => project_schema
  | XCProjectFile => project_file_schema
  end.

(** ** Computations on the heap *)
Definition XM (A : Type) : Type := heap → result (A * heap).
#[export] Instance XM_ret : MRet XM := λ A a h, Ok (a, h).
#[export] Instance XM_bind : MBind XM := λ A B f m h, match m h with Ok (a, h') => f a h' | Err e => Err e end.

Definition throw {A} (e : exn) : XM A := λ _, Err e.
Definition lift {A} (m : result A) : XM A := λ h, match m with Ok a => Ok (a, h) | Err e => Err e end.
Fixpoint for_m {A} (l : list A) (body : A → XM unit) : XM unit :=
  match l with [] => mret tt | x :: l => _ ← body x; for_m l body end.
Fixpoint map_m {A B} (f : A → XM B) (l : list A) : XM (list B) :=
  match l with [] => mret [] | x :: l => y ← f x; ys ← map_m f l; mret (y :: ys) end.

(** A reference always refers to an object. *)
Definition get (o : nat) : XM xobject := λ h, match objects h !! o with Some x => Ok (x, h) | None => Err (RuntimeError "reference") end.
Definition put (o : nat) (x : xobject) : XM unit := λ h, Ok (tt, Heap (<[o := x]> (objects h)) (next h)).
Definition alloc (x : xobject) : XM nat := λ h, Ok (next h, Heap (<[next h := x]> (objects h)) (S (next h))).
Definition modify (o : nat) (f : xobject → xobject) : XM unit := x ← get o; put o (f x).

Definition with_parent (p : option nat) (x : xobject) : xobject :=
  XObject (class_of x) (xid x) p (properties x) (hashables x) (children_by_path x) (variant_children_by_name_and_path x) (files_by_path x)
    (files_by_xcfilelikeelement x) (path x) (other_pbxprojects x).
Definition with_properties (ps : xprops) (x : xobject) : xobject :=
  XObject (class_of x) (xid x) (parent x) ps (hashables x) (children_by_path x) (variant_children_by_name_and_path x) (files_by_path x)
    (files_by_xcfilelikeelement x) (path x) (other_pbxprojects x).
Definition with_property (key : string) (v : xval) (x : xobject) : xobject := with_properties (dict_set (properties x) key v) x.
Definition with_children_by_path (d : list (text * nat)) (x : xobject) : xobject :=
  XObject (class_of x) (xid x) (parent x) (properties x) (hashables x) d (variant_children_by_name_and_path x) (files_by_path x)
    (files_by_xcfilelikeelement x) (path x) (other_pbxprojects x).
Definition with_variant_children (d : list ((option text * option text) * nat)) (x : xobject) : xobject :=
  XObject (class_of x) (xid x) (parent x) (properties x) (hashables x) (children_by_path x) d (files_by_path x)
    (files_by_xcfilelikeelement x) (path x) (other_pbxprojects x).
Definition with_files (by_path : list (option text * nat)) (by_element : list (nat * nat)) (x : xobject) : xobject :=
  XObject (class_of x) (xid x) (parent x) (properties x) (hashables x) (children_by_path x) (variant_children_by_name_and_path x) by_path
    by_element (path x) (other_pbxprojects x).
Definition with_id (i : option text) (x : xobject) : xobject :=
  XObject (class_of x) i (parent x) (properties x) (hashables x) (children_by_path x) (variant_children_by_name_and_path x) (files_by_path x)
    (files_by_xcfilelikeelement x) (path x) (other_pbxprojects x).

(** [self._properties[key]] *)
Definition property (key : string) (x : xobject) : result xval :=
  match dict_get (properties x) key with Some v => Ok v | None => Err (KeyError key) end.
Definition as_str (v : xval) : result text := match v with XStr s => Ok s | _ => Err (TypeError "str") end.
Definition as_obj (v : xval) : result nat := match v with XObj o => Ok o | _ => Err (AttributeError "object") end.
Definition as_list (v : xval) : result (list xval) := match v with XList l => Ok l | _ => Err (TypeError "list") end.
Definition str_property (key : string) (x : xobject) : option text := match dict_get (properties x) key with Some (XStr s) => Some s | _ => None end.
Definition objects_of (v : xval) : list nat := omap (λ v, match v with XObj o => Some o | _ => None end) (match v with XList l => l | v => [v] end).
Definition objects_property (key : string) (x : xobject) : list nat := match dict_get (properties x) key with Some v => objects_of v | None => [] end.
Definition isinstance (o : nat) (c : cls) : XM bool := x ← get o; mret (subclass (class_of x) c).

(** ** Properties *)
Definition type_name (t : ptype) : string := match t with TStr => "str" | TInt => "int" | TDict => "dict" | TClass c => class_name c end.
Definition value_type (v : xval) : XM string :=
  match v with
  | XObj o => x ← get o; mret (class_name (class_of x))
  | XStr _ => mret "str" | XInt _ => mret "int" | XList _ => mret "list" | XDict _ => mret "dict"
  end.
Definition instance_of (t : ptype) (v : xval) : XM bool :=
  match t, v with
  | TStr, XStr _ | TInt, XInt _ | TDict, XDict _ => mret true
  | TClass c, XObj o => isinstance o c
  | _, _ => mret false
  end.
Definition must_be (what c : string) (t : string) (v : xval) : XM unit :=
  n ← value_type v; throw (TypeError (what +:+ " of " +:+ c +:+ " must be " +:+ t +:+ ", not " +:+ n)).

(** The value conforms to the schema. *)
Definition check_value (c : cls) (key : string) (a : attributes) (v : xval) : XM unit :=
  if is_list a then
    match v with
    | XList l =>
        for_m l (λ item, ok ← instance_of (property_type a) item;
          if ok : bool then mret tt else must_be ("item of " +:+ key) (class_name c) (type_name (property_type a)) item)
    | _ => must_be key (class_name c) "list" v
    end
  else ok ← instance_of (property_type a) v; if ok : bool then mret tt else must_be key (class_name c) (type_name (property_type a)) v.

Definition own (o : nat) (v : xval) : XM unit := for_m (objects_of v) (λ child, modify child (with_parent (Some o))).

Section update.
Context (Copy : nat → XM nat).

Definition copy_value (a : attributes) (v : xval) : XM xval :=
  match v with
  | XObj o => if is_strong a then o ← Copy o; mret (XObj o) else mret v
  | XList l => if is_strong a then l ← map_m (λ item, o ← lift (as_obj item); o ← Copy o; mret (XObj o)) l; mret (XList l) else mret v
  | _ => mret v
  end.

Definition update_property (o : nat) (do_copy : bool) (item : string * xval) : XM unit :=
  let '(key, value) := item in
  x ← get o;
  match dict_get (schema (class_of x)) key with
  | None => throw (KeyError (key +:+ " not in " +:+ class_name (class_of x)))
  | Some a =>
      _ ← check_value (class_of x) key a value;
      value ← (if do_copy then copy_value a value else mret value);
      _ ← modify o (with_property key value);
      if is_strong a then own o value else mret tt
  end.
Definition UpdateProperties (o : nat) (ps : xprops) (do_copy : bool) : XM unit := for_m ps (update_property o do_copy).

Definition schema_defaults (c : cls) : xprops :=
  omap (λ '(key, a), if is_required a then v ← default_value a; Some (key, v) else None) (schema c).
End update.

Definition SetProperty (o : nat) (key : string) (value : xval) : XM unit := UpdateProperties (λ o, mret o) o [(key, value)] false.
Definition DelProperty (o : nat) (key : string) : XM unit := modify o (λ x, with_properties (dict_del (properties x) key) x).

Definition AppendProperty (o : nat) (key : string) (value : xval) : XM unit :=
  x ← get o;
  match dict_get (schema (class_of x)) key with
  | None => throw (KeyError (key +:+ " not in " +:+ class_name (class_of x)))
  | Some a =>
      if negb (is_list a) then throw (TypeError (key +:+ " of " +:+ class_name (class_of x) +:+ " must be list"))
      else
        ok ← instance_of (property_type a) value;
        if ok : bool then
          _ ← (if is_strong a then own o value else mret tt);
          x ← get o;
          l ← lift (as_list (default (XList []) (dict_get (properties x) key)));
          modify o (with_property key (XList (l ++ [value])))
        else must_be ("item of " +:+ key) (class_name (class_of x)) (type_name (property_type a)) value
  end.

Definition VerifyHasRequiredProperties (o : nat) : XM unit :=
  x ← get o;
  for_m (schema (class_of x)) (λ '(key, a),
    if is_required a && negb (dict_mem (properties x) key) then throw (KeyError (class_name (class_of x) +:+ " requires " +:+ key)) else mret tt).

(** ** Paths *)

(** What follows the parenthesis in [_path_leading_variable]; the dollar of the expression accepts a last newline. *)
Definition after_variable (s : text) : option (option text) :=
  match s with
  | [] | ["010"%char] => Some None
  | c :: s => if c ==? slash then match span (λ c, negb (c ==? "010"%char)) s with (p, []) | (p, ["010"%char]) => Some (Some p) | _ => None end else None
  end.
Fixpoint variable_match (name s : text) : option (text * option text) :=
  match s with
  | [] => None
  | c :: s =>
      if c ==? "010"%char then None
      else match (if c ==? ")"%char then after_variable s else None) with
      | Some rest => Some (reverse name, rest)
      | None => variable_match (c :: name) s
      end
  end.
Definition SourceTreeAndPathFromPath (input_path : text) : option text * option text :=
  match input_path with
  | "$"%char :: "("%char :: s => match variable_match [] s with Some (source_tree, output_path) => (Some source_tree, output_path) | None => (None, Some input_path) end
  | _ => (None, Some input_path)
  end.

Definition group_tree : text := chars "<group>".
Definition PathFromSourceTreeAndPath (x : xobject) : result (option text) :=
  source_tree ← property "sourceTree" x; source_tree ← as_str source_tree;
  let root := if source_tree ==? group_tree then [] else [chars "$(" ++ source_tree ++ chars ")"] in
  Ok (match root ++ option_list (str_property "path" x) with [] => None | p :: ps => Some (p_join_list p ps) end).

(** [FullPath]: up the parents to a path that starts at a root or a variable; the fuel is more than there are objects. *)
Fixpoint full_path (fuel : nat) (xche : option nat) (p : option text) : XM (option text) :=
  match fuel, xche with
  | _, None => mret p
  | 0, _ => throw OutOfFuel
  | S fuel, Some o =>
      x ← get o;
      let relative := match p with None => true | Some p => negb (lstarts [slash] p) && negb (lstarts ["$"%char] p) end in
      if subclass (class_of x) XCHierarchicalElement && relative then
        this_path ← lift (PathFromSourceTreeAndPath x);
        full_path fuel (parent x)
          (match this_path, p with Some this_path, Some p => Some (p_join this_path p) | Some this_path, None => Some this_path | None, _ => p end)
      else mret p
  end.
Definition FullPath (o : nat) : XM (option text) := λ h, full_path (S (next h)) (Some o) None h.

(** ** What the constructors of the subclasses add *)

Definition XCHierarchicalElement_init (o : nat) : XM unit :=
  x ← get o;
  _ ← (match str_property "path" x with
       | Some p =>
           if dict_mem (properties x) "name" then mret tt
           else let name := p_basename p in if negb (name ==? []) && negb (p ==? name) then SetProperty o "name" (XStr name) else mret tt
       | None => mret tt
       end);
  x ← get o;
  match str_property "path" x with
  | Some p =>
      if default group_tree (str_property "sourceTree" x) ==? group_tree then
        let '(source_tree, p) := SourceTreeAndPathFromPath p in
        _ ← (match source_tree with Some tree => modify o (with_property "sourceTree" (XStr tree)) | None => mret tt end);
        _ ← (match p with Some p => modify o (with_property "path" (XStr p)) | None => mret tt end);
        match source_tree, p with
        | Some tree, None =>
            if dict_mem (properties x) "name" then mret tt
            else _ ← DelProperty o "path"; modify o (with_property "name" (XStr tree))
        | _, _ => mret tt
        end
      else mret tt
  | None => mret tt
  end.

Definition AddChildToDicts (o child : nat) : XM unit :=
  c ← get child;
  child_path ← lift (PathFromSourceTreeAndPath c);
  x ← get o;
  _ ← (match child_path with
       | Some ((_ :: _) as p) =>
           if dict_mem (children_by_path x) p then throw (ValueError ("Found multiple children with path " +:+ of_chars p))
           else modify o (with_children_by_path (dict_set (children_by_path x) p child))
       | _ => mret tt
       end);
  if subclass (class_of c) PBXVariantGroup then
    let key := (str_property "name" c, child_path) in
    if dict_mem (variant_children_by_name_and_path x) key then throw (ValueError "Found multiple PBXVariantGroup children")
    else modify o (λ x, with_variant_children (dict_set (variant_children_by_name_and_path x) key child) x)
  else mret tt.

Definition extension_map : list (string * string) :=
  [("a", "archive.ar"); ("app", "wrapper.application"); ("bdic", "file"); ("bundle", "wrapper.cfbundle"); ("c", "sourcecode.c.c");
   ("cc", "sourcecode.cpp.cpp"); ("cpp", "sourcecode.cpp.cpp"); ("css", "text.css"); ("cxx", "sourcecode.cpp.cpp"); ("dart", "sourcecode");
   ("dylib", "compiled.mach-o.dylib"); ("framework", "wrapper.framework"); ("gyp", "sourcecode"); ("gypi", "sourcecode");
   ("h", "sourcecode.c.h"); ("hxx", "sourcecode.cpp.h"); ("icns", "image.icns"); ("java", "sourcecode.java"); ("js", "sourcecode.javascript");
   ("m", "sourcecode.c.objc"); ("mm", "sourcecode.cpp.objcpp"); ("nib", "wrapper.nib"); ("o", "compiled.mach-o.objfile"); ("pdf", "image.pdf");
   ("pl", "text.script.perl"); ("plist", "text.plist.xml"); ("pm", "text.script.perl"); ("png", "image.png"); ("py", "text.script.python");
   ("r", "sourcecode.rez"); ("rez", "sourcecode.rez"); ("s", "sourcecode.asm"); ("storyboard", "file.storyboard"); ("strings", "text.plist.strings");
   ("ttf", "file"); ("xcconfig", "text.xcconfig"); ("xcdatamodel", "wrapper.xcdatamodel"); ("xib", "file.xib"); ("y", "sourcecode.yacc")].
Definition prop_map : list (string * string) := [("dart", "explicitFileType"); ("gyp", "explicitFileType"); ("gypi", "explicitFileType")].

Definition lower_extension (p : text) : text := match (p_splitext p).2 with [] => [] | _ :: ext => lower_char <$> ext end.

Definition PBXFileReference_init (o : nat) : XM unit :=
  x ← get o;
  match str_property "path" x with
  | None => mret tt
  | Some p =>
      let is_dir := bool_decide (last p = Some slash) in
      _ ← (if is_dir then modify o (with_property "path" (XStr (take (pred (length p)) p))) else mret tt);
      if dict_mem (properties x) "lastKnownFileType" || dict_mem (properties x) "explicitFileType" then mret tt
      else if is_dir then modify o (with_property "lastKnownFileType" (str "folder"))
      else
        let ext := of_chars (lower_extension (p_basename p)) in
        modify o (with_property (default "lastKnownFileType" (dict_get prop_map ext)) (str (default "text" (dict_get extension_map ext))))
  end.

(** *** Configurations *)

(** [buildSettings] of one configuration *)
Definition build_settings (o : nat) : XM (list (text * xval)) :=
  x ← get o; v ← lift (property "buildSettings" x); match v with XDict d => mret d | _ => throw (TypeError "buildSettings") end.
Definition configurations (o : nat) : XM (list nat) := x ← get o; v ← lift (property "buildConfigurations" x); mret (objects_of v).

Definition set_setting (key : text) (value : xval) (configuration : nat) : XM unit :=
  d ← build_settings configuration; modify configuration (with_property "buildSettings" (XDict (dict_set d key value))).
Definition del_setting (key : text) (configuration : nat) : XM unit :=
  d ← build_settings configuration; modify configuration (with_property "buildSettings" (XDict (dict_del d key))).

(** [HasBuildSetting] of a list: 1 if all have the key with one value, 0 if none has it, -1 otherwise. *)
Definition has_setting (values : list (option xval)) : Z :=
  match values with
  | [] | None :: _ => if forallb (λ v, bool_decide (v = None)) values then 0 else -1
  | Some v :: _ => if forallb (λ w, bool_decide (w = Some v)) values then 1 else -1
  end%Z.
Definition HasBuildSetting (o : nat) (key : text) : XM Z :=
  cs ← configurations o; values ← map_m (λ c, d ← build_settings c; mret (dict_get d key)) cs; mret (has_setting values).
Fixpoint get_setting (cs : list nat) (key : text) (value : option xval) : XM (option xval) :=
  match cs with
  | [] => mret value
  | c :: cs =>
      d ← build_settings c;
      v ← lift (match dict_get d key with Some v => Ok v | None => Err (KeyError (of_chars key)) end);
      match value with
      | None => get_setting cs key (Some v)
      | Some w => if bool_decide (w = v) then get_setting cs key value else throw (ValueError ("Variant values for " +:+ of_chars key))
      end
  end.
Definition GetBuildSetting (o : nat) (key : text) : XM (option xval) := cs ← configurations o; get_setting cs key None.
Definition SetBuildSetting (o : nat) (key : text) (value : xval) : XM unit := cs ← configurations o; for_m cs (set_setting key value).
Definition DelBuildSetting (o : nat) (key : text) : XM unit := cs ← configurations o; for_m cs (del_setting key).
Definition SetBaseConfiguration (o : nat) (value : xval) : XM unit :=
  cs ← configurations o; for_m cs (λ c, modify c (with_property "baseConfigurationReference" value)).
Fixpoint find_configuration (cs : list nat) (name : text) : XM nat :=
  match cs with
  | [] => throw (KeyError (of_chars name))
  | c :: cs => x ← get c; v ← lift (property "name" x); if bool_decide (v = XStr name) then mret c else find_configuration cs name
  end.
Definition ConfigurationNamed (o : nat) (name : text) : XM nat := cs ← configurations o; find_configuration cs name.
Definition DefaultConfiguration (o : nat) : XM nat :=
  x ← get o; v ← lift (property "defaultConfigurationName" x); name ← lift (as_str v); ConfigurationNamed o name.

Definition XCTarget_init (o : nat) : XM unit :=
  x ← get o;
  _ ← (match dict_get (properties x) "name" with
       | Some name => if dict_mem (properties x) "productName" then mret tt else SetProperty o "productName" name
       | None => mret tt end);
  x ← get o;
  match dict_get (properties x) "productName", dict_get (properties x) "buildConfigurationList" with
  | Some product_name, Some configs =>
      configs ← lift (as_obj configs);
      has ← HasBuildSetting configs (chars "PRODUCT_NAME");
      if (has =? 0)%Z then SetBuildSetting configs (chars "PRODUCT_NAME") product_name else mret tt
  | _, _ => mret tt
  end.

(** *** Files of build phases *)
Definition AddPathToDict (o pbxbuildfile : nat) (p : option text) : XM unit :=
  x ← get o;
  if dict_mem (files_by_path x) p then
    match p with
    | Some p => throw (ValueError ("Found multiple build files with path " +:+ of_chars p))
    | None => throw (TypeError "cannot concatenate 'str' and 'NoneType' objects")
    end
  else modify o (with_files (dict_set (files_by_path x) p pbxbuildfile) (files_by_xcfilelikeelement x)).

Definition AddBuildFileToDicts (o pbxbuildfile : nat) (p : option text) : XM unit :=
  f ← get pbxbuildfile; v ← lift (property "fileRef" f); element ← lift (as_obj v);
  is_variant ← isinstance element PBXVariantGroup;
  paths ← (match p with
           | Some p => mret (if is_variant : bool then [Some p] else [])
           | None =>
               if is_variant : bool then
                 g ← get element; children ← lift (property "children" g); map_m FullPath (objects_of children)
               else p ← FullPath element; mret [p]
           end);
  _ ← for_m paths (AddPathToDict o pbxbuildfile);
  x ← get o;
  match dict_get (files_by_xcfilelikeelement x) element with
  | Some other => if other =? pbxbuildfile then mret tt else throw (ValueError "Found multiple build files")
  | None => modify o (with_files (files_by_path x) (dict_set (files_by_xcfilelikeelement x) element pbxbuildfile))
  end.

Definition init (o : nat) : XM unit :=
  x ← get o;
  let c := class_of x in
  _ ← (if subclass c XCHierarchicalElement then XCHierarchicalElement_init o else mret tt);
  _ ← (if subclass c PBXGroup then x ← get o; for_m (objects_property "children" x) (AddChildToDicts o) else mret tt);
  _ ← (if subclass c PBXFileReference then PBXFileReference_init o else mret tt);
  _ ← (if subclass c XCBuildPhase then x ← get o; for_m (objects_property "files" x) (λ f, AddBuildFileToDicts o f None) else mret tt);
  if subclass c XCTarget then XCTarget_init o else mret tt.

(** ** Construction and copies

    [construct] is the call of a class, [Copy] the method: they call each other for the copies of default objects, to the depth of
    the defaults. *)
Definition blank (c : cls) (i : option text) (p : option nat) (project_path : option text) : xobject := XObject c i p [] [] [] [] [] [] project_path [].

Definition copy_property (Copy : nat → XM nat) (that : nat) (x : xobject) (item : string * xval) : XM unit :=
  let '(key, value) := item in
  match dict_get (schema (class_of x)) key with
  | None => throw (KeyError key)
  | Some a =>
      match value with
      | XDict _ => if is_strong a then throw (TypeError ("Strong dict for key " +:+ key +:+ " in " +:+ class_name (class_of x))) else modify that (with_property key value)
      | _ =>
          value ← copy_value Copy a value;
          _ ← (if is_strong a then own that value else mret tt);
          modify that (with_property key value)
      end
  end.

Fixpoint construct (fuel : nat) (c : cls) (ps : xprops) (i : option text) (p : option nat) (project_path : option text) : XM nat :=
  match fuel with
  | 0 => throw OutOfFuel
  | S fuel =>
      o ← alloc (blank c i p project_path);
      _ ← UpdateProperties (Copy fuel) o (schema_defaults c) true;
      _ ← UpdateProperties (Copy fuel) o ps false;
      _ ← init o;
      mret o
  end
with Copy (fuel : nat) (o : nat) : XM nat :=
  match fuel with
  | 0 => throw OutOfFuel
  | S fuel =>
      x ← get o;
      that ← construct fuel (class_of x) [] (xid x) (parent x) None;
      _ ← for_m (properties x) (copy_property (Copy fuel) that x);
      mret that
  end.

(** Defaults are nested five deep: a target, its list, its configurations. *)
Definition new_fuel : nat := 6.
Definition new (c : cls) (ps : xprops) : XM nat := construct new_fuel c ps None None None.

(** What loading the module does. *)
Definition module_objects : XM unit :=
  _ ← new XCBuildConfiguration [("name", str "Debug")];
  _ ← new XCBuildConfiguration [("name", str "Release")];
  _ ← new XCConfigurationList [];
  _ ← new PBXSourcesBuildPhase []; _ ← new PBXFrameworksBuildPhase [];
  _ ← new XCConfigurationList [];
  _ ← new PBXGroup [];
  mret tt.
Definition module_heap : heap := match module_objects (Heap ∅ 0) with Ok (_, h) => h | Err _ => Heap ∅ 0 end.

Example module_heap_classes :
  (λ o, class_of <$> objects module_heap !! o) <$> [debug_configuration; release_configuration; target_configurations; sources_phase; frameworks_phase;
    project_configurations; project_group]
  = Some <$> [XCBuildConfiguration; XCBuildConfiguration; XCConfigurationList; PBXSourcesBuildPhase; PBXFrameworksBuildPhase; XCConfigurationList; PBXGroup].
Proof. vm_compute. reflexivity. Qed.

(** * Theorems *)

(** ** Well-typed heaps

    Every property of every object is in the schema of its class and has the type it says there.  There is one exception: the constructor of a
    [PBXReferenceProxy] whose path is a variable stores a name that its schema does not have. *)
Definition attributes_of (c : cls) (key : string) : option attributes :=
  match dict_get (schema c) key with
  | Some a => Some a
  | None => if (c ==? PBXReferenceProxy) && (key ==? "name") then Some (optional TStr) else None
  end.
Definition typed (h : heap) (t : ptype) (v : xval) : Prop :=
  match t, v with
  | TStr, XStr _ | TInt, XInt _ | TDict, XDict _ => True
  | TClass c, XObj o => ∃ x, objects h !! o = Some x ∧ subclass (class_of x) c = true
  | _, _ => False
  end.
Definition value_ok (h : heap) (a : attributes) (v : xval) : Prop :=
  if is_list a then ∃ l, v = XList l ∧ Forall (typed h (property_type a)) l else typed h (property_type a) v.
Definition object_ok (h : heap) (x : xobject) : Prop :=
  ∀ key v, (key, v) ∈ properties x → ∃ a, attributes_of (class_of x) key = Some a ∧ value_ok h a v.
Definition is_alnum (c : ascii) : bool := let n := nat_of_ascii c in (48 <=? n) && (n <=? 57) || (65 <=? n) && (n <=? 90) || (97 <=? n) && (n <=? 122).
Definition id_ok (i : option text) : Prop := ∀ t, i = Some t → t ≠ [] ∧ forallb is_alnum t = true.
Definition ids_ok (h : heap) : Prop := ∀ o x i, objects h !! o = Some x → xid x = Some i → i ≠ [] ∧ forallb is_alnum i = true.
Record well_typed (h : heap) : Prop := {
  wt_objects : ∀ o x, objects h !! o = Some x → object_ok h x;
  wt_next : ∀ o, next h ≤ o → objects h !! o = None;
  wt_ids : ids_ok h
}.

(** No object disappears or changes its class. *)
Record extends (h h' : heap) : Prop := {
  ext_next : next h ≤ next h';
  ext_class : ∀ o x, objects h !! o = Some x → ∃ x', objects h' !! o = Some x' ∧ class_of x' = class_of x
}.
#[export] Instance extends_refl : Reflexive extends.
Proof. intros h. split; [done|eauto]. Qed.
#[export] Instance extends_trans : Transitive extends.
Proof.
  intros h1 h2 h3 [Hn1 H1] [Hn2 H2]. split; [lia|]. intros o x (x2&Hx2&<-)%H1. by apply H2.
Qed.

Lemma typed_extends h h' t v : extends h h' → typed h t v → typed h' t v.
Proof. intros [_ H]. destruct t, v; cbn; try done. intros (x&(x'&?&?)%H&Hc). exists x'. split; congruence. Qed.

Lemma value_ok_extends h h' a v : extends h h' → value_ok h a v → value_ok h' a v.
Proof.
  intros He. unfold value_ok. destruct (is_list a); [|by apply typed_extends].
  intros (l&->&Hl). exists l. split; [done|]. eapply Forall_impl; [done|]. intros. by eapply typed_extends.
Qed.

Lemma object_ok_extends h h' x : extends h h' → object_ok h x → object_ok h' x.
Proof. intros He Hx key v Hv. apply Hx in Hv as (a&?&?). exists a. split; [done|]. by eapply value_ok_extends. Qed.

(** A computation that starts in a well-typed heap ends in one, with every object and its class kept. *)
Definition keeps {A} (m : XM A) (P : heap → Prop) (Q : A → heap → Prop) : Prop :=
  ∀ h a h', well_typed h → P h → m h = Ok (a, h') → well_typed h' ∧ extends h h' ∧ Q a h'.

(** What holds of a heap and of all later ones. *)
Definition stable (P : heap → Prop) : Prop := ∀ h h', extends h h' → P h → P h'.

Lemma XM_bind_Ok {A B} (m : XM A) (f : A → XM B) h b h' :
  (m ≫= f) h = Ok (b, h') ↔ ∃ a h1, m h = Ok (a, h1) ∧ f a h1 = Ok (b, h').
Proof.
  unfold mbind, XM_bind. destruct (m h) as [[a h1]|e]; [|by split; [|intros (?&?&?&?)]]. split; [eauto|]. by intros (?&?&[= -> ->]&?).
Qed.

Lemma keeps_bind {A B} (m : XM A) (f : A → XM B) P Q R :
  stable P → keeps m P Q → (∀ a, keeps (f a) (λ h, P h ∧ Q a h) R) → keeps (m ≫= f) P R.
Proof.
  intros HP Hm Hf h b h' Hwt Hh (a&h1&Ha&Hb)%XM_bind_Ok. destruct (Hm _ _ _ Hwt Hh Ha) as (Hwt1&He1&HQ).
  destruct (Hf a h1 b h') as (?&?&?); [done| |done|]; [split; [by eapply HP|done]|]. split_and!; [done|by etrans|done].
Qed.

Lemma keeps_ret {A} (a : A) (P : heap → Prop) (Q : A → heap → Prop) : (∀ h, P h → Q a h) → keeps (mret a) P Q.
Proof. intros HQ h a' h' Hwt Hh [= <- <-]. split_and!; [done|reflexivity|by apply HQ]. Qed.

Lemma keeps_throw {A} e P (Q : A → heap → Prop) : keeps (throw e) P Q.
Proof. intros h a h' _ _ [=]. Qed.

Lemma keeps_lift {A} (r : result A) (P : heap → Prop) (Q : A → heap → Prop) : (∀ h a, r = Ok a → P h → Q a h) → keeps (lift r) P Q.
Proof. intros HQ h a h' Hwt Hh. unfold lift. destruct r; intros [= -> ->]. split_and!; [done|reflexivity|by eapply HQ]. Qed.

Lemma keeps_weaken {A} (m : XM A) (P P' : heap → Prop) (Q Q' : A → heap → Prop) :
  keeps m P Q → (∀ h, P' h → P h) → (∀ a h, Q a h → Q' a h) → keeps m P' Q'.
Proof. intros Hm HP HQ h a h' Hwt Hh Hrun. destruct (Hm _ _ _ Hwt (HP _ Hh) Hrun) as (?&?&?). eauto. Qed.

Lemma keeps_pre {A} (m : XM A) (P P' : heap → Prop) (Q : A → heap → Prop) : keeps m P Q → (∀ h, P' h → P h) → keeps m P' Q.
Proof. intros Hm HP h a h' Hwt Hh Hrun. by apply (Hm _ _ _ Hwt (HP _ Hh)). Qed.

Lemma keeps_for_m_all {A} (l : list A) (body : A → XM unit) P (R : A → heap → Prop) :
  stable P → (∀ x, stable (R x)) → (∀ x, x ∈ l → keeps (body x) P (λ _, R x)) → keeps (for_m l body) P (λ _ h, ∀ x, x ∈ l → R x h).
Proof.
  intros HP HR. induction l as [|x l IH]; intros Hbody; cbn [for_m].
  - apply keeps_ret. by intros h _ ? ?%elem_of_nil.
  - eapply keeps_bind; [done|apply Hbody; by left|]. intros []. intros h b h' Hwt [Hh Hx] Hrun.
    destruct (IH ltac:(intros; apply Hbody; by right) _ _ _ Hwt Hh Hrun) as (?&He&Hl). split_and!; [done..|].
    intros y [->|Hy]%elem_of_cons; [by eapply HR|by apply Hl].
Qed.

Lemma keeps_for_m {A} (l : list A) (body : A → XM unit) P :
  stable P → (∀ x, x ∈ l → keeps (body x) P (λ _ _, True)) → keeps (for_m l body) P (λ _ _, True).
Proof.
  intros HP Hbody. eapply keeps_weaken; [apply keeps_for_m_all with (R := λ _ _, True)|done|done]; [done|by intros ? ? ?|done].
Qed.

(** ** Operations that keep the types *)

Lemma keeps_get o (P : heap → Prop) : keeps (get o) P (λ x h, objects h !! o = Some x).
Proof. intros h x h' Hwt Hh. unfold get. destruct (objects h !! o) eqn:Ho; [|done]. intros [= <- <-]. by split_and!. Qed.

(** The class of an object *)
Definition is_a (o : nat) (c : cls) (h : heap) : Prop := ∃ x, objects h !! o = Some x ∧ class_of x = c.
Lemma is_a_stable o c : stable (is_a o c).
Proof. intros h h' [_ He] (x&(x'&?&?)%He&?). exists x'. split; congruence. Qed.

Lemma keeps_modify o f (P : heap → Prop) :
  (∀ x, class_of (f x) = class_of x) → (∀ x, xid (f x) = xid x ∨ id_ok (xid (f x))) →
  (∀ h x, P h → objects h !! o = Some x → object_ok h x → object_ok h (f x)) →
  keeps (modify o f) P (λ _ _, True).
Proof.
  intros Hclass Hid Hf h [] h' Hwt Hh (x&h1&Hget&Hput)%XM_bind_Ok. unfold get in Hget. destruct (objects h !! o) eqn:Ho; [|done].
  injection Hget as -> <-. injection Hput as <-.
  assert (extends h (Heap (<[o:=f x]> (objects h)) (next h))) as He.
  { split; [done|]. cbn. intros o' x' Ho'. destruct (decide (o = o')) as [<-|Hne].
    - exists (f x). rewrite lookup_insert_eq. split; [done|]. rewrite Hclass. congruence.
    - exists x'. by rewrite lookup_insert_ne. }
  split_and!; [|done|done]. split; cbn.
  - intros o' x' Ho'. destruct (decide (o = o')) as [<-|Hne].
    + rewrite lookup_insert_eq in Ho'. injection Ho' as <-. eapply object_ok_extends, Hf; eauto. by eapply wt_objects.
    + rewrite lookup_insert_ne in Ho' by done. eapply object_ok_extends; [done|]. by eapply wt_objects.
  - intros o' Ho'. apply wt_next with (h := h) in Ho'; [|done]. destruct (decide (o = o')) as [<-|]; [congruence|]. by rewrite lookup_insert_ne.
  - intros o' x' i Ho' Hi. cbn in Ho'. destruct (decide (o = o')) as [<-|Hne]; [|rewrite lookup_insert_ne in Ho' by done; by eapply wt_ids].
    rewrite lookup_insert_eq in Ho'. injection Ho' as <-. edestruct Hid as [Heq|Hok]; [rewrite Heq in Hi; by eapply wt_ids|by apply Hok].
Qed.

Lemma elem_of_dict_set {K V} `{EqDecision K} (d : list (K * V)) k v p : p ∈ dict_set d k v → p = (k, v) ∨ p ∈ d.
Proof.
  induction d as [|[k' v'] d IH]; cbn [dict_set]; [set_solver|]. case_decide; [|rewrite !elem_of_cons; tauto].
  rewrite !elem_of_cons. tauto.
Qed.

Lemma object_ok_with_property h x key v a :
  attributes_of (class_of x) key = Some a → value_ok h a v → object_ok h x → object_ok h (with_property key v x).
Proof.
  intros Ha Hv Hx key' v' [[= -> ->]|Hin]%elem_of_dict_set; [by exists a|by apply Hx].
Qed.

Lemma keeps_with_property o key v a c (P : heap → Prop) :
  (∀ h, P h → is_a o c h ∧ value_ok h a v) → attributes_of c key = Some a →
  keeps (modify o (with_property key v)) P (λ _ _, True).
Proof.
  intros HP Ha. apply keeps_modify; [done|by left|]. intros h x Hh Hx Hok. destruct (HP h Hh) as [(x'&Hx'&Hc) Hv].
  rewrite Hx in Hx'. injection Hx' as <-. subst c. by eapply object_ok_with_property.
Qed.

Lemma keeps_with_parent o p (P : heap → Prop) : keeps (modify o (with_parent p)) P (λ _ _, True).
Proof. intros. apply keeps_modify; [done|by left|done]. Qed.

Lemma keeps_own o v (P : heap → Prop) : stable P → keeps (own o v) P (λ _ _, True).
Proof. intros HP. apply keeps_for_m; [done|]. intros. apply keeps_with_parent. Qed.

Lemma keeps_alloc x (P : heap → Prop) :
  properties x = [] → id_ok (xid x) → stable P → keeps (alloc x) P (λ o h, is_a o (class_of x) h).
Proof.
  intros Hx Hid HP h o h' Hwt Hh [= <- <-].
  assert (extends h (Heap (<[next h:=x]> (objects h)) (S (next h)))) as He.
  { split; [cbn; lia|]. cbn. intros o' x' Ho'. exists x'. rewrite lookup_insert_ne; [done|]. intros Heq. subst.
    by rewrite (wt_next _ Hwt) in Ho'. }
  split_and!; [|done|].
  - split; cbn.
    + intros o' x' Ho'. destruct (decide (next h = o')) as [<-|Hne].
      * rewrite lookup_insert_eq in Ho'. injection Ho' as <-. intros key v. rewrite Hx. by intros ?%elem_of_nil.
      * rewrite lookup_insert_ne in Ho' by done. eapply object_ok_extends; [done|]. by eapply wt_objects.
    + intros o' Ho'. rewrite lookup_insert_ne by lia. apply (wt_next _ Hwt). lia.
    + intros o' x' i Ho' Hi. cbn in Ho'. destruct (decide (next h = o')) as [<-|Hne]; [|rewrite lookup_insert_ne in Ho' by done; by eapply wt_ids].
      rewrite lookup_insert_eq in Ho'. injection Ho' as <-. by apply Hid.
  - exists x. cbn. by rewrite lookup_insert_eq.
Qed.

(** [instance_of] answers what [typed] means. *)
Lemma keeps_instance_of t v (P : heap → Prop) : keeps (instance_of t v) P (λ b h, b = true → typed h t v).
Proof.
  intros h b h' Hwt Hh. unfold instance_of. destruct t, v; try (intros [= <- <-]; split_and!; [done|reflexivity|done]).
  intros (x&h1&Hget&Hret)%XM_bind_Ok. unfold get in Hget. destruct (objects h !! o) eqn:Ho; [|done].
  injection Hget as -> <-. injection Hret as <- <-. split_and!; [done|reflexivity|]. cbn. eauto.
Qed.

Lemma keeps_must_be what c t v (P : heap → Prop) (Q : unit → heap → Prop) : keeps (must_be what c t v) P Q.
Proof. intros h a h' _ _ (?&?&_&[=])%XM_bind_Ok. Qed.

Lemma keeps_typed_check t v (P : heap → Prop) (fail : XM unit) :
  stable P → (∀ Q, keeps fail P Q) → keeps (ok ← instance_of t v; if ok : bool then mret tt else fail) P (λ _ h, typed h t v).
Proof.
  intros HP Hfail. eapply keeps_bind; [done|apply keeps_instance_of|]. intros [].
  - apply keeps_ret. intros h [_ H]. by apply H.
  - eapply keeps_weaken; [apply (Hfail (λ _ h, typed h t v))|by intros h []|done].
Qed.

Lemma keeps_check_value c key a v (P : heap → Prop) : stable P → keeps (check_value c key a v) P (λ _ h, value_ok h a v).
Proof.
  intros HP. unfold check_value, value_ok. destruct (is_list a); [|apply keeps_typed_check; [done|intros; apply keeps_must_be]].
  destruct v; try apply keeps_must_be. eapply keeps_weaken; [eapply keeps_for_m_all|done|]; [done| | |].
  - intros item. exact (λ h h', typed_extends h h' (property_type a) item).
  - intros item _. apply keeps_typed_check; [done|intros; apply keeps_must_be].
  - intros ? h Hl. exists l. split; [done|]. by apply Forall_forall.
Qed.

Lemma stable_and P Q : stable P → stable Q → stable (λ h, P h ∧ Q h).
Proof. intros HP HQ h h' He [? ?]. split; eauto. Qed.
Lemma stable_true : stable (λ _, True).
Proof. done. Qed.
Lemma stable_value_ok a v : stable (λ h, value_ok h a v).
Proof. intros h h'. apply value_ok_extends. Qed.
Lemma stable_typed t v : stable (λ h, typed h t v).
Proof. intros h h'. apply typed_extends. Qed.
Create HintDb xc.
#[local] Hint Resolve stable_and stable_true stable_value_ok stable_typed is_a_stable : xc.

Lemma keeps_get_class o (P : heap → Prop) : keeps (get o) P (λ x, is_a o (class_of x)).
Proof. eapply keeps_weaken; [apply keeps_get|done|]. intros x h Hx. by exists x. Qed.

Lemma is_a_unique o c c' h : is_a o c h → is_a o c' h → c = c'.
Proof. intros (x&?&<-) (x'&?&<-). congruence. Qed.

(** A copy is of the same class. *)
Definition copies (Copy : nat → XM nat) : Prop := ∀ o c, keeps (Copy o) (is_a o c) (λ o', is_a o' c).

Lemma keeps_copy_object (Copy : nat → XM nat) o t :
  copies Copy → keeps (Copy o) (λ h, typed h t (XObj o)) (λ o' h, typed h t (XObj o')).
Proof.
  intros HC h o' h' Hwt Ht Hrun. destruct t; try done. destruct Ht as (x&Hx&Hsub).
  destruct (HC o (class_of x) h o' h') as (?&?&(x'&?&?)); [done|by exists x|done|]. split_and!; [done|done|]. exists x'. split; congruence.
Qed.

Lemma keeps_map_m {A B} (f : A → XM B) (l : list A) (P : A → heap → Prop) (Q : B → heap → Prop) :
  (∀ x, stable (P x)) → (∀ y, stable (Q y)) → (∀ x, keeps (f x) (P x) Q) →
  keeps (map_m f l) (λ h, ∀ x, x ∈ l → P x h) (λ ys h, ∀ y, y ∈ ys → Q y h).
Proof.
  intros HP HQ Hf. induction l as [|x l IH]; cbn [map_m].
  - apply keeps_ret. by intros h _ ? ?%elem_of_nil.
  - intros h ys h' Hwt Hh (y&h1&Hy&(ys'&h2&Hys&Hret)%XM_bind_Ok)%XM_bind_Ok. injection Hret as <- <-.
    destruct (Hf x _ _ _ Hwt (Hh x ltac:(by left)) Hy) as (Hwt1&He1&HQ1).
    destruct (IH _ _ _ Hwt1 ltac:(intros z Hz; eapply HP; [done|]; apply Hh; by right) Hys) as (Hwt2&He2&HQ2).
    split_and!; [done|by etrans|]. intros z [->|Hz]%elem_of_cons; [by eapply HQ|by apply HQ2].
Qed.

Lemma keeps_copy_value (Copy : nat → XM nat) a v :
  copies Copy → keeps (copy_value Copy a v) (λ h, value_ok h a v) (λ v' h, value_ok h a v').
Proof.
  intros HC. unfold copy_value. destruct v; try by apply keeps_ret.
  - destruct (is_strong a); [|by apply keeps_ret]. unfold value_ok. destruct (is_list a).
    + intros h ? ? _ (l&[=]&_).
    + eapply keeps_bind; [auto with xc|by apply keeps_copy_object|]. intros o'. apply keeps_ret. by intros h [_ H].
  - destruct (is_strong a); [|by apply keeps_ret]. unfold value_ok. destruct (is_list a).
    + eapply keeps_bind; [| |intros l'; apply keeps_ret; intros h [_ Hl]; exists l'; split; [done|]; apply Forall_forall; exact Hl].
      * intros h h' He (l'&Hl&Hf). exists l'. split; [done|]. eapply Forall_impl; [done|]. intros. by eapply typed_extends.
      * eapply keeps_pre; [apply keeps_map_m with (P := λ v h, typed h (property_type a) v) (Q := λ v h, typed h (property_type a) v); auto with xc|].
        -- intros item. eapply keeps_bind; [auto with xc| |].
           ++ apply (keeps_lift _ _ (λ o h, typed h (property_type a) (XObj o))). by intros h o; destruct item; cbn; intros [= <-].
           ++ intros o. cbn beta. eapply keeps_pre; [|by intros h [_ H]; exact H]. eapply keeps_bind; [auto with xc|by apply keeps_copy_object|].
              intros o'. apply keeps_ret. by intros h [_ H].
        -- intros h (l'&[= <-]&Hl). by apply Forall_forall.
    + intros h ? ? _ Hf. by destruct (property_type a).
Qed.

Lemma schema_attributes c key a : dict_get (schema c) key = Some a → attributes_of c key = Some a.
Proof. unfold attributes_of. by intros ->. Qed.

(** ** Properties *)

Lemma keeps_update_property (Copy : nat → XM nat) o do_copy item c :
  (do_copy = true → copies Copy) → keeps (update_property Copy o do_copy item) (is_a o c) (λ _ _, True).
Proof.
  intros HC. destruct item as [key value]. unfold update_property. eapply keeps_bind; [auto with xc|apply keeps_get_class|]. intros x.
  destruct (dict_get (schema (class_of x)) key) as [a|] eqn:Ha; [|apply keeps_throw]. apply schema_attributes in Ha.
  eapply keeps_pre with (P := is_a o (class_of x)); [|by intros h []].
  eapply keeps_bind; [auto with xc|by apply keeps_check_value, is_a_stable|]. intros [].
  eapply keeps_bind with (Q := λ v h, value_ok h a v); [auto with xc| |].
  - destruct do_copy; [|by apply keeps_ret; intros h []]. eapply keeps_pre; [by apply keeps_copy_value, HC|by intros h []].
  - intros v. eapply keeps_bind with (Q := λ _ _, True); [auto with xc| |].
    + eapply keeps_with_property; [|exact Ha]. intros h [[Ho _] Hv]. by split.
    + intros []. destruct (is_strong a); [apply keeps_own; auto 6 with xc|by apply keeps_ret].
Qed.

Lemma keeps_UpdateProperties (Copy : nat → XM nat) o ps do_copy c :
  (do_copy = true → copies Copy) → keeps (UpdateProperties Copy o ps do_copy) (is_a o c) (λ _ _, True).
Proof. intros HC. apply keeps_for_m; [apply is_a_stable|]. intros item _. by apply keeps_update_property. Qed.

Lemma keeps_SetProperty o key v c : keeps (SetProperty o key v) (is_a o c) (λ _ _, True).
Proof. by apply keeps_UpdateProperties. Qed.

Lemma keeps_AppendProperty o key v c : keeps (AppendProperty o key v) (is_a o c) (λ _ _, True).
Proof.
  unfold AppendProperty. eapply keeps_bind; [auto with xc|apply keeps_get_class|]. intros x.
  eapply keeps_pre with (P := is_a o (class_of x)); [|by intros h []].
  destruct (dict_get (schema (class_of x)) key) as [a|] eqn:Ha; [|apply keeps_throw]. apply schema_attributes in Ha.
  destruct (is_list a) eqn:Hlist; cbn [negb]; [|apply keeps_throw].
  eapply keeps_bind; [auto with xc|apply keeps_instance_of|]. intros []; [|apply keeps_must_be].
  eapply keeps_pre with (P := λ h, is_a o (class_of x) h ∧ typed h (property_type a) v); [|intros h [? Ht]; split; [done|by apply Ht]].
  eapply keeps_bind with (Q := λ _ _, True); [auto with xc|destruct (is_strong a); [apply keeps_own; auto with xc|by apply keeps_ret]|]. intros [].
  intros h [] h' Hwt [[Ho Hv] _] (x'&h1&Hget&Hrun)%XM_bind_Ok. unfold get in Hget. destruct (objects h !! o) as [x0|] eqn:Hx; [|done].
  injection Hget as -> <-. apply XM_bind_Ok in Hrun as (l&h1&Hl&Hrun). unfold lift in Hl.
  destruct (as_list _) as [l0|] eqn:Hlst; [|done]. injection Hl as -> <-.
  assert (Hok : value_ok h a (XList (l ++ [v]))).
  { unfold value_ok. rewrite Hlist. exists (l ++ [v]). split; [done|]. apply Forall_app. split; [|by apply Forall_singleton].
    destruct (dict_get (properties x') key) as [w|] eqn:Hw; cbn in Hlst; [|by injection Hlst as <-].
    apply dict_get_In in Hw. destruct (wt_objects _ Hwt _ _ Hx _ _ Hw) as (a'&Ha'&Hok). assert (class_of x' = class_of x) as Hcl.
    { destruct Ho as (x1&Hx1&<-). congruence. } rewrite Hcl, Ha in Ha'. injection Ha' as <-. unfold value_ok in Hok. rewrite Hlist in Hok.
    destruct Hok as (l'&->&?). by injection Hlst as <-. }
  eapply keeps_with_property with (P := λ h, is_a o (class_of x) h ∧ value_ok h a (XList (l ++ [v]))); [|exact Ha|exact Hwt| |exact Hrun]; [done|by split].
Qed.

(** ** Constructors *)

Lemma keeps_modify_same o f (P : heap → Prop) :
  (∀ x, class_of (f x) = class_of x ∧ properties (f x) = properties x ∧ xid (f x) = xid x) → keeps (modify o f) P (λ _ _, True).
Proof.
  intros Hf. apply keeps_modify; [apply Hf|left; apply Hf|]. intros h x _ _ Hx key v. destruct (Hf x) as (->&->&_). apply Hx.
Qed.

(** Deleting a property keeps the types. *)
Lemma keeps_DelProperty o key (P : heap → Prop) : keeps (DelProperty o key) P (λ _ _, True).
Proof.
  apply keeps_modify; [done|by left|]. intros h x _ _ Hx key' v [_ Hv]%list_elem_of_filter. by apply Hx.
Qed.

(** A property with a string can have any other string. *)
Lemma keeps_with_string o key t c (P : heap → Prop) :
  (∀ h, P h → is_a o c h ∧ ∃ a, attributes_of c key = Some a ∧ is_list a = false ∧ property_type a = TStr) →
  keeps (modify o (with_property key (XStr t))) P (λ _ _, True).
Proof.
  intros HP h u h' Hwt Hh Hrun. destruct (HP h Hh) as [Ho (a&Ha&Hlist&Ht)].
  eapply keeps_with_property with (P := λ h, is_a o c h); [|exact Ha|done|done|exact Hrun]. intros h1 Hh1. split; [done|].
  unfold value_ok. by rewrite Hlist, Ht.
Qed.

Definition is_str (c : cls) (key : string) : Prop := ∃ a, attributes_of c key = Some a ∧ is_list a = false ∧ property_type a = TStr.

Lemma object_ok_str h x key s : object_ok h x → str_property key x = Some s → is_str (class_of x) key.
Proof.
  unfold str_property. intros Hx Hs. destruct (dict_get (properties x) key) as [v|] eqn:Hv; [|done]. destruct v; try done.
  destruct (Hx _ _ (dict_get_In _ _ _ Hv)) as (a&Ha&Hok). exists a. split; [done|]. unfold value_ok in Hok. destruct (is_list a); [by destruct Hok as (?&[=]&_)|].
  by destruct (property_type a).
Qed.

Lemma keeps_get_ok o (P : heap → Prop) : keeps (get o) P (λ x h, is_a o (class_of x) h ∧ ∀ key s, str_property key x = Some s → is_str (class_of x) key).
Proof.
  intros h x h' Hwt Hh. unfold get. destruct (objects h !! o) eqn:Ho; [|done]. intros [= <- <-]. split_and!; [done|reflexivity|by eexists|].
  intros key s. eapply object_ok_str. by eapply wt_objects.
Qed.

(** The classes with a path have a name, in the schema or not. *)
Lemma path_name c : is_str c "path" → is_str c "name".
Proof. destruct c; intros (a&[= <-]&_); eexists; split_and!; vm_compute; reflexivity. Qed.
Lemma path_source_tree c : is_str c "path" → is_str c "sourceTree".
Proof. destruct c; intros (a&[= <-]&_); eexists; split_and!; vm_compute; reflexivity. Qed.

Lemma keeps_with_str o key t c : is_str c key → keeps (modify o (with_property key (XStr t))) (is_a o c) (λ _ _, True).
Proof. intros Hs. eapply keeps_with_string. by intros h. Qed.

Lemma keeps_seq (m : XM unit) {A} (m' : XM A) (P : heap → Prop) (Q : A → heap → Prop) :
  stable P → keeps m P (λ _ _, True) → keeps m' P Q → keeps (_ ← m; m') P Q.
Proof.
  intros HP Hm Hm'. eapply keeps_bind; [done|exact Hm|]. intros []. eapply keeps_pre; [exact Hm'|by intros h []].
Qed.

Lemma keeps_pure {A} (φ : Prop) (m : XM A) (P : heap → Prop) (Q : A → heap → Prop) : (φ → keeps m P Q) → keeps m (λ h, P h ∧ φ) Q.
Proof. intros Hm h a h' Hwt [Hh Hφ]. by apply Hm. Qed.

(** Reading an object to continue with what its class says. *)
Lemma keeps_bind_get {A} o c (f : xobject → XM A) (Q : A → heap → Prop) :
  (∀ x, class_of x = c → (∀ key s, str_property key x = Some s → is_str c key) → keeps (f x) (is_a o c) Q) →
  keeps (x ← get o; f x) (is_a o c) Q.
Proof.
  intros Hf h a h' Hwt Ho (x&h1&Hget&Hrun)%XM_bind_Ok. unfold get in Hget. destruct (objects h !! o) as [x'|] eqn:Hx; [|done].
  injection Hget as -> <-. destruct Ho as (x1&Hx1&Hc). rewrite Hx in Hx1. injection Hx1 as <-.
  apply (Hf x Hc); [|done|by exists x|done]. intros key s. rewrite <- Hc. eapply object_ok_str. by eapply wt_objects.
Qed.

Lemma keeps_XCHierarchicalElement_init o c : keeps (XCHierarchicalElement_init o) (is_a o c) (λ _ _, True).
Proof.
  unfold XCHierarchicalElement_init. apply keeps_bind_get. intros x0 _ _. apply keeps_seq; [auto with xc| |].
  { destruct (str_property "path" x0); [|by apply keeps_ret]. destruct (dict_mem _ _); [by apply keeps_ret|].
    destruct (_ && _); [apply keeps_SetProperty|by apply keeps_ret]. }
  apply keeps_bind_get. intros x _ Hstr. destruct (str_property "path" x) as [p|] eqn:Hp; [|by apply keeps_ret].
  apply Hstr in Hp. destruct (_ ==? group_tree); [|by apply keeps_ret]. destruct (SourceTreeAndPathFromPath p) as [tree p'].
  apply keeps_seq; [auto with xc| |].
  { destruct tree; [by apply keeps_with_str, path_source_tree|by apply keeps_ret]. }
  apply keeps_seq; [auto with xc| |].
  { destruct p'; [by apply keeps_with_str|by apply keeps_ret]. }
  destruct tree, p'; try by apply keeps_ret. destruct (dict_mem _ _); [by apply keeps_ret|].
  apply keeps_seq; [auto with xc|apply keeps_DelProperty|]. by apply keeps_with_str, path_name.
Qed.

Lemma keeps_AddChildToDicts o child c : keeps (AddChildToDicts o child) (is_a o c) (λ _ _, True).
Proof.
  unfold AddChildToDicts. eapply keeps_bind; [auto with xc|apply keeps_get_class|]. intros xc.
  eapply keeps_pre with (P := is_a o c); [|by intros h []].
  eapply keeps_bind with (Q := λ _ _, True); [auto with xc|by apply keeps_lift|]. intros p.
  eapply keeps_pre with (P := is_a o c); [|by intros h []]. apply keeps_bind_get. intros x _ _.
  apply keeps_seq; [auto with xc| |].
  { destruct p as [[|ch p]|]; try by apply keeps_ret. destruct (dict_mem _ _); [apply keeps_throw|]. by apply keeps_modify_same. }
  destruct (subclass _ _); [|by apply keeps_ret]. cbn zeta. destruct (dict_mem _ _); [apply keeps_throw|]. by apply keeps_modify_same.
Qed.

Lemma keeps_PBXFileReference_init o : keeps (PBXFileReference_init o) (is_a o PBXFileReference) (λ _ _, True).
Proof.
  assert (∀ key, key ∈ ["path"; "lastKnownFileType"; "explicitFileType"] → is_str PBXFileReference key) as Hfile.
  { intros key [->|[->|[->|[]%elem_of_nil]%elem_of_cons]%elem_of_cons]%elem_of_cons; eexists; by split_and!. }
  unfold PBXFileReference_init. apply keeps_bind_get. intros x _ _. destruct (str_property "path" x) as [p|]; [|by apply keeps_ret].
  cbn zeta. apply keeps_seq; [auto with xc| |].
  { case_bool_decide; [by apply keeps_with_str, Hfile; left|by apply keeps_ret]. }
  destruct (_ || _); [by apply keeps_ret|]. case_bool_decide; [by apply keeps_with_str, Hfile; right; left|].
  apply keeps_with_str, Hfile. unfold prop_map. cbn [dict_get]. repeat case_decide; cbn; set_solver.
Qed.

(** What only reads *)
Definition reads {A} (m : XM A) : Prop := ∀ h a h', m h = Ok (a, h') → h' = h.
Lemma keeps_reads {A} (m : XM A) (P : heap → Prop) : reads m → keeps m P (λ _ _, True).
Proof. intros Hm h a h' Hwt Hh ->%Hm. by split_and!. Qed.
Lemma reads_ret {A} (a : A) : reads (mret a).
Proof. by intros h a' h' [= _ <-]. Qed.
Lemma reads_throw {A} e : reads (A := A) (throw e).
Proof. intros h a h' [=]. Qed.
Lemma reads_lift {A} (r : result A) : reads (lift r).
Proof. intros h a h'. unfold lift. destruct r; by intros [= _ <-]. Qed.
Lemma reads_get o : reads (get o).
Proof. intros h x h'. unfold get. destruct (objects h !! o); by intros [= _ <-]. Qed.
Lemma reads_bind {A B} (m : XM A) (f : A → XM B) : reads m → (∀ a, reads (f a)) → reads (m ≫= f).
Proof. intros Hm Hf h b h' (a&h1&->%Hm&Hb)%XM_bind_Ok. by apply Hf in Hb. Qed.
Lemma reads_map_m {A B} (f : A → XM B) l : (∀ x, reads (f x)) → reads (map_m f l).
Proof. intros Hf. induction l; cbn [map_m]; [apply reads_ret|]. apply reads_bind; [apply Hf|]. intros. apply reads_bind; [done|]. intros. apply reads_ret. Qed.
#[local] Hint Resolve reads_ret reads_throw reads_lift reads_get reads_bind reads_map_m : xc.

Lemma keeps_bind_reads {A B} (m : XM A) (f : A → XM B) (P : heap → Prop) (Q : B → heap → Prop) :
  reads m → (∀ a, keeps (f a) P Q) → keeps (m ≫= f) P Q.
Proof. intros Hm Hf h b h' Hwt Hh (a&h1&->%Hm&Hb)%XM_bind_Ok. by eapply Hf. Qed.

Lemma reads_full_path fuel o p : reads (full_path fuel o p).
Proof.
  revert o p. induction fuel as [|fuel IH]; intros [o|] p; cbn [full_path]; auto with xc. apply reads_bind; [auto with xc|]. intros x.
  destruct (_ && _); auto with xc.
Qed.
Lemma reads_FullPath o : reads (FullPath o).
Proof. intros h p h'. unfold FullPath. apply reads_full_path. Qed.
Lemma reads_configurations o : reads (configurations o).
Proof. unfold configurations. apply reads_bind; [auto with xc|]. intros. apply reads_bind; auto with xc. Qed.
Lemma reads_build_settings o : reads (build_settings o).
Proof. unfold build_settings. apply reads_bind; [auto with xc|]. intros. apply reads_bind; [auto with xc|]. intros []; auto with xc. Qed.
Lemma reads_HasBuildSetting o key : reads (HasBuildSetting o key).
Proof.
  unfold HasBuildSetting. apply reads_bind; [apply reads_configurations|]. intros cs. apply reads_bind; [|auto with xc].
  apply reads_map_m. intros c. apply reads_bind; [apply reads_build_settings|auto with xc].
Qed.

(** A dictionary of settings stays one. *)
Lemma keeps_settings (f : list (text * xval) → list (text * xval)) o (P : heap → Prop) :
  stable P → keeps (d ← build_settings o; modify o (with_property "buildSettings" (XDict (f d)))) P (λ _ _, True).
Proof.
  intros HP h [] h' Hwt Hh (d&h1&Hd&Hrun)%XM_bind_Ok. apply reads_build_settings in Hd as Hr. subst h1.
  unfold build_settings in Hd. apply XM_bind_Ok in Hd as (x&h1&Hget&Hd). unfold get in Hget.
  destruct (objects h !! o) as [x0|] eqn:Hx; [|done]. injection Hget as -> <-. apply XM_bind_Ok in Hd as (v&h1&Hv&Hd).
  unfold lift, property in Hv. destruct (dict_get (properties x) "buildSettings") as [w|] eqn:Hw; [|done]. injection Hv as -> <-.
  destruct v as [| | | |d0]; try done. injection Hd as ->. destruct (wt_objects _ Hwt _ _ Hx _ _ (dict_get_In _ _ _ Hw)) as (a&Ha&Hok).
  eapply keeps_with_property with (P := λ h, is_a o (class_of x) h ∧ value_ok h a (XDict (f d))); [|exact Ha|done| |exact Hrun]; [done|].
  split; [by exists x|]. unfold value_ok in *. destruct (is_list a); [by destruct Hok as (?&[=]&_)|]. by destruct (property_type a).
Qed.

Lemma keeps_SetBuildSetting o key v (P : heap → Prop) : stable P → keeps (SetBuildSetting o key v) P (λ _ _, True).
Proof.
  intros HP. unfold SetBuildSetting. apply keeps_bind_reads; [apply reads_configurations|]. intros cs. apply keeps_for_m; [done|]. intros c _. by apply (keeps_settings (λ d, dict_set d key v)).
Qed.

Lemma keeps_XCTarget_init o c : keeps (XCTarget_init o) (is_a o c) (λ _ _, True).
Proof.
  unfold XCTarget_init. apply keeps_bind_get. intros x _ _. apply keeps_seq; [auto with xc| |].
  { destruct (dict_get (properties x) "name"); [|by apply keeps_ret]. destruct (dict_mem _ _); [by apply keeps_ret|apply keeps_SetProperty]. }
  apply keeps_bind_get. intros x1 _ _. destruct (dict_get (properties x1) "productName"), (dict_get (properties x1) "buildConfigurationList"); try by apply keeps_ret.
  apply keeps_bind_reads; [auto with xc|]. intros configs. apply keeps_bind_reads; [apply reads_HasBuildSetting|]. intros has. destruct (_ =? _)%Z; [by apply keeps_SetBuildSetting, is_a_stable|by apply keeps_ret].
Qed.

Lemma keeps_AddBuildFileToDicts o f p c : keeps (AddBuildFileToDicts o f p) (is_a o c) (λ _ _, True).
Proof.
  unfold AddBuildFileToDicts.
  apply keeps_bind_reads; [auto with xc|]. intros xf. apply keeps_bind_reads; [auto with xc|]. intros v.
  apply keeps_bind_reads; [auto with xc|]. intros e. apply keeps_bind_reads; [apply reads_bind; auto with xc|]. intros b.
  apply keeps_bind_reads.
  { destruct p; [auto with xc|]. destruct b; (apply reads_bind; [auto using reads_FullPath with xc|]); auto with xc. intros xg.
    apply reads_bind; [auto with xc|]. intros. apply reads_map_m, reads_FullPath. }
  intros paths. apply keeps_seq; [auto with xc| |].
  { apply keeps_for_m; [auto with xc|]. intros q _. apply keeps_bind_get. intros x _ _. destruct (dict_mem _ _); [|by apply keeps_modify_same].
    destruct q; apply keeps_throw. }
  apply keeps_bind_get. intros x _ _. destruct (dict_get (files_by_xcfilelikeelement x) e); [|by apply keeps_modify_same].
  destruct (_ =? _); [by apply keeps_ret|apply keeps_throw].
Qed.

Lemma keeps_init o c : keeps (init o) (is_a o c) (λ _ _, True).
Proof.
  unfold init. apply keeps_bind_get. intros x Hc _. cbn zeta. rewrite Hc. apply keeps_seq; [auto with xc| |].
  { destruct (subclass c _); [apply keeps_XCHierarchicalElement_init|by apply keeps_ret]. }
  apply keeps_seq; [auto with xc| |].
  { destruct (subclass c _); [|by apply keeps_ret]. apply keeps_bind_get. intros y _ _.
    apply keeps_for_m; [auto with xc|]. intros child _. apply keeps_AddChildToDicts. }
  apply keeps_seq; [auto with xc| |].
  { destruct (subclass c PBXFileReference) eqn:Hs; [|by apply keeps_ret]. assert (c = PBXFileReference) as -> by by destruct c.
    apply keeps_PBXFileReference_init. }
  apply keeps_seq; [auto with xc| |].
  { destruct (subclass c _); [|by apply keeps_ret]. apply keeps_bind_get. intros y _ _.
    apply keeps_for_m; [auto with xc|]. intros f _. apply keeps_AddBuildFileToDicts. }
  destruct (subclass c _); [apply keeps_XCTarget_init|by apply keeps_ret].
Qed.

Lemma schema_attribute c key a a' : attributes_of c key = Some a' → dict_get (schema c) key = Some a → a = a'.
Proof. intros Ha' Ha%schema_attributes. congruence. Qed.

Lemma keeps_copy_property (Copy : nat → XM nat) that x item :
  copies Copy →
  keeps (copy_property Copy that x item)
    (λ h, is_a that (class_of x) h ∧ ∃ a, attributes_of (class_of x) item.1 = Some a ∧ value_ok h a item.2) (λ _ _, True).
Proof.
  intros HC. destruct item as [key value]. cbn [fst snd]. unfold copy_property.
  destruct (dict_get (schema (class_of x)) key) as [a|] eqn:Ha; [|apply keeps_throw].
  eapply keeps_pre with (P := λ h, is_a that (class_of x) h ∧ value_ok h a value).
  2: { intros h [Ho (a'&Ha'&Hv)]. split; [done|]. by rewrite (schema_attribute _ _ _ _ Ha' Ha). }
  apply schema_attributes in Ha.
  assert (keeps (value ← copy_value Copy a value; _ ← (if is_strong a then own that value else mret tt); modify that (with_property key value))
    (λ h, is_a that (class_of x) h ∧ value_ok h a value) (λ _ _, True)) as Hcopy.
  { eapply keeps_bind with (Q := λ v h, value_ok h a v); [auto with xc|eapply keeps_pre; [by apply keeps_copy_value|by intros h []]|].
    intros v. eapply keeps_pre with (P := λ h, is_a that (class_of x) h ∧ value_ok h a v); [|by intros h [[? _] ?]].
    apply keeps_seq; [auto with xc|destruct (is_strong a); [apply keeps_own; auto with xc|by apply keeps_ret]|].
    by eapply keeps_with_property. }
  destruct value; try exact Hcopy. destruct (is_strong a); [apply keeps_throw|]. by eapply keeps_with_property.
Qed.

Lemma keeps_construct_Copy fuel :
  (∀ c ps i p project_path, id_ok i → keeps (construct fuel c ps i p project_path) (λ _, True) (λ o, is_a o c)) ∧ copies (Copy fuel).
Proof.
  induction fuel as [|fuel [IHc IHcopy]]; [split; [intros; apply keeps_throw|intros o c; apply keeps_throw]|].
  assert (∀ o c ps b, keeps (UpdateProperties (Copy fuel) o ps b) (is_a o c) (λ _ _, True)) as Hup by (intros; by apply keeps_UpdateProperties).
  split.
  - intros c ps i p project_path Hid. cbn [construct].
    eapply keeps_bind with (Q := λ o, is_a o c); [done|by apply keeps_alloc|]. intros o.
    eapply keeps_pre with (P := is_a o c); [|by intros h []].
    apply keeps_seq; [auto with xc|apply Hup|]. apply keeps_seq; [auto with xc|apply Hup|]. apply keeps_seq; [auto with xc|apply keeps_init|].
    by apply keeps_ret.
  - intros o c. cbn [Copy]. eapply keeps_bind with (Q := λ x h, (class_of x = c ∧ id_ok (xid x)) ∧ object_ok h x); [auto with xc| |].
    { intros h x h' Hwt (x0&Hx0&Hc) Hget. unfold get in Hget. rewrite Hx0 in Hget. injection Hget as <- <-.
      split_and!; [done|reflexivity|done| |by eapply wt_objects]. intros t Ht. by eapply wt_ids. }
    intros x. eapply keeps_pre with (P := λ h, object_ok h x ∧ class_of x = c ∧ id_ok (xid x)); [|by intros h [_ []]]. apply keeps_pure. intros [<- Hid].
    assert (stable (λ h, object_ok h x)) as Hst by (intros h h'; apply object_ok_extends).
    eapply keeps_bind with (Q := λ that, is_a that (class_of x)); [done|eapply keeps_pre; [by apply IHc|done]|]. intros that.
    apply keeps_seq; [auto with xc| |by apply keeps_ret; intros h []].
    apply keeps_for_m; [auto with xc|]. intros [key v] Hin. eapply keeps_pre; [by apply keeps_copy_property|].
    intros h [Hok Hthat]. split; [done|]. by apply Hok.
Qed.

(** Constructing an object of any class from any properties, with the defaults of its schema and the copies these need, leaves every object with
    properties of its schema and of the types it says, every reference among them to an object of the right class; no object disappears
    or changes its class.  The same holds for what appends to a list or sets a property. *)
Theorem new_well_typed c ps h o h' :
  well_typed h → new c ps h = Ok (o, h') → well_typed h' ∧ extends h h' ∧ is_a o c h'.
Proof. intros Hwt. by apply (proj1 (keeps_construct_Copy new_fuel) c ps None). Qed.

Lemma keeps_new c ps (P : heap → Prop) : keeps (new c ps) P (λ o, is_a o c).
Proof. eapply keeps_pre; [by apply (proj1 (keeps_construct_Copy new_fuel) c ps None)|done]. Qed.

Lemma module_heap_well_typed : well_typed module_heap.
Proof.
  assert (keeps module_objects (λ _, True) (λ _ _, True)) as Hkeeps.
  { unfold module_objects. repeat (eapply keeps_bind; [done|apply keeps_new|intros ?]; eapply keeps_pre with (P := λ _, True); [|done]).
    by apply keeps_ret. }
  assert (is_ok (module_objects (Heap ∅ 0)) = true) as Hok by (vm_compute; reflexivity).
  unfold module_heap. destruct (module_objects (Heap ∅ 0)) as [[[] h]|e] eqn:Hrun; [|done].
  eapply Hkeeps; [|done|exact Hrun]. split; [intros o x|intros o _|intros o x i]; cbn; by rewrite lookup_empty.
Qed.

(** A file whose path starts with a variable. *)
Definition sample_file : xprops := [("path", str "$(SDKROOT)/usr/lib/libz.dylib")].
Abbreviation sample_new := (new PBXFileReference sample_file module_heap).
Lemma sample_new_Ok : ∃ o h, sample_new = Ok (o, h)
  ∧ properties <$> objects h !! o
    = Some [("sourceTree", str "SDKROOT"); ("path", str "usr/lib/libz.dylib"); ("name", str "libz.dylib"); ("lastKnownFileType", str "compiled.mach-o.dylib")].
Proof. do 2 eexists. split; [vm_compute; reflexivity|vm_compute; reflexivity]. Qed.

Lemma new_well_typed_witness : ∃ o h', sample_new = Ok (o, h') ∧ well_typed h' ∧ extends module_heap h' ∧ is_a o PBXFileReference h'.
Proof.
  destruct sample_new_Ok as (o&h'&Hrun&_). exists o, h'. split; [exact Hrun|].
  exact (new_well_typed PBXFileReference sample_file module_heap o h' module_heap_well_typed Hrun).
Defined.
