(* ===== verification/XcPrint.v ===== *)
(** * Printing of Xcode projects

    [_EncodeString], [_XCPrintableValue], [Print] and the project file of tools/gyp/pylib/gyp/xcodeproj_file.py, with a reader of
    property lists in the form the file has: strings with and without quotes, lists and dictionaries, comments. *)
From S2P Require Import Prelude PyDict PyStr PyPath Refs XcObject.
From Stdlib Require Import Ascii.

(** ** Strings *)
Definition newline_char : ascii := "010".
Definition quote_char : ascii := "034".
Definition hex_digit (n : nat) : ascii := if n <? 10 then ascii_of_nat (48 + n) else ascii_of_nat (87 + n).

(** [_encode_transforms] and [_alternate_encode_transforms]: the texts for the characters below the space. *)
Definition encode_transforms (alternate : bool) (n : nat) : text :=
  match n with
  | 7 => chars "\a" | 8 => chars "\b"
  | 9 => if alternate then ["009"%char] else chars "\t"
  | 10 => if alternate then [newline_char] else chars "\n"
  | 11 => if alternate then ["011"%char] else chars "\v"
  | 12 => chars "\f" | 13 => chars "\n"
  | _ => chars "\U00" ++ [hex_digit (n / 16); hex_digit (n mod 16)]
  end.

(** [_EncodeTransform]; a character that [_escaped] does not match stands for itself. *)
Definition encode_char (alternate : bool) (c : ascii) : text :=
  if c ==? "\"%char then ["\"%char; "\"%char]
  else if c ==? quote_char then ["\"%char; quote_char]
  else if nat_of_ascii c <? 32 then encode_transforms alternate (nat_of_ascii c)
  else [c].

Definition unquoted_char (c : ascii) : bool := is_alnum c || (c in? ["$"; "."; "/"; "_"]%char).

(** [_unquoted] matches: its dollar also stands before a last newline. *)
Definition matches_unquoted (value : text) : bool :=
  match span unquoted_char value with (_ :: _, []) | (_ :: _, ["010"%char]) => true | _ => false end.
Definition matches_quoted (value : text) : bool := bool_decide (is_Some (lfind (chars "___") value)).

Definition EncodeString (alternate : bool) (value : text) : text :=
  if matches_unquoted value && negb (matches_quoted value) then value
  else quote_char :: (concat (encode_char alternate <$> value)) ++ [quote_char].

Definition EncodeComment (comment : text) : text := chars "/* " ++ lreplace (chars "*/") (chars "(*)/") comment ++ chars " */".

(** ** Names and comments *)

(** [_should_print_single_line], and the classes with the alternate transforms. *)
Definition single_line (c : cls) : bool := c in? [PBXFileReference; PBXBuildFile].

(** [Name] looks at other objects for the list of configurations and for the file of a phase. *)
Fixpoint Name (fuel : nat) (o : nat) : XM (option text) :=
  match fuel with
  | 0 => throw OutOfFuel
  | S fuel =>
      x ← get o;
      let name_of o := n ← Name fuel o; match n with Some n => mret n | None => throw (TypeError "cannot concatenate 'str' and 'NoneType' objects") end in
      let parent_of x := match parent x with Some p => mret p | None => throw (AttributeError "Name") end in
      match class_of x with
      | XCHierarchicalElement | PBXGroup | XCFileLikeElement | PBXFileReference | PBXVariantGroup | PBXReferenceProxy =>
          mret (match str_property "name" x with Some n => Some n | None => str_property "path" x end)
      | XCConfigurationList =>
          p ← parent_of x; px ← get p; n ← name_of p;
          mret (Some (chars "Build configuration list for " ++ chars (class_name (class_of px)) ++ chars " " ++ quote_char :: n ++ [quote_char]))
      | PBXBuildFile =>
          v ← lift (property "fileRef" x); f ← lift (as_obj v); n ← name_of f; p ← parent_of x; m ← name_of p; mret (Some (n ++ chars " in " ++ m))
      | PBXHeadersBuildPhase => mret (Some (chars "Headers"))
      | PBXResourcesBuildPhase => mret (Some (chars "Resources"))
      | PBXSourcesBuildPhase => mret (Some (chars "Sources"))
      | PBXFrameworksBuildPhase => mret (Some (chars "Frameworks"))
      | PBXShellScriptBuildPhase => mret (Some (default (chars "ShellScript") (str_property "name" x)))
      | PBXCopyFilesBuildPhase => mret (Some (default (chars "CopyFiles") (str_property "name" x)))
      | PBXBuildRule | PBXContainerItemProxy | PBXTargetDependency => mret (Some (chars (class_name (class_of x))))
      | PBXProject =>
          match path x with
          | None => throw (TypeError "'NoneType' object is not subscriptable")
          | Some p =>
              let p := if bool_decide (drop (length p - 10) p = chars ".xcodeproj") then take (length p - 10) p else p in
              mret (Some (p_basename p))
          end
      | _ =>
          match str_property "name" x with
          | Some n => mret (Some n)
          | None =>
              match dict_get (schema (class_of x)) "name" with
              | Some a => if is_required a then throw (KeyError "name") else throw (RuntimeError "NotImplementedError")
              | None => throw (RuntimeError "NotImplementedError")
              end
          end
      end
  end.

(** An object and the fuel that its name needs: a file, its phase and no more. *)
Definition name_of (o : nat) : XM (option text) := λ h, Name (S (next h)) o h.
Definition Comment (o : nat) : XM (option text) :=
  x ← get o; if class_of x ==? PBXProject then mret (Some (chars "Project object")) else name_of o.

(** ** Values *)
Definition tab_char : ascii := "009".
Definition tabs_of (n : nat) : text := replicate n tab_char.
Definition item_separator (single : bool) : text := if single then [" "%char] else [newline_char].

Definition with_comment (printable : text) (comment : option text) : text :=
  match comment with Some c => printable ++ " "%char :: EncodeComment c | None => printable end.

(** The order of the keys of a dictionary *)
Definition text_le (a b : text) : Prop := str_le (of_chars a) (of_chars b).
#[export] Instance text_le_dec : RelDecision text_le.
Proof. intros a b. unfold text_le. apply _. Defined.
Definition key_le {A} (a b : text * A) : Prop := text_le a.1 b.1.
#[export] Instance key_le_dec {A} : RelDecision (key_le (A := A)).
Proof. intros a b. unfold key_le. apply _. Defined.

Section printable.
Context (alternate single : bool).

Fixpoint XCPrintableValue (tabs : nat) (flatten_list : bool) (value : xval) {struct value} : XM text :=
  let sep := item_separator single in
  let element_tabs := if single then [] else tabs_of (S tabs) in
  let end_tabs := if single then [] else tabs_of tabs in
  match value with
  | XObj o =>
      x ← get o;
      i ← lift (match xid x with Some i => Ok i | None => Err (TypeError "cannot concatenate 'str' and 'NoneType' objects") end);
      c ← Comment o;
      mret (with_comment i c)
  | XStr s => mret (EncodeString alternate s)
  | XInt z => mret (chars (str_of_int z))
  | XList l =>
      let full :=
        items ← (fix go l := match l with
                 | [] => mret []
                 | x :: l => y ← XCPrintableValue (S tabs) flatten_list x; ys ← go l; mret (y :: ys) end) l;
        mret (chars "(" ++ sep ++ concat ((λ item, element_tabs ++ item ++ ","%char :: sep) <$> items) ++ end_tabs ++ chars ")") in
      if flatten_list then
        match l with
        | [] => mret (EncodeString alternate [])
        | [XStr s] => mret (EncodeString alternate s)
        | [_] => throw (TypeError "expected string or buffer")
        | _ => full
        end
      else full
  | XDict d =>
      items ← (fix go d := match d with
               | [] => mret []
               | (k, v) :: d => i ← (y ← XCPrintableValue (S tabs) flatten_list v; mret (k, y)); is_ ← go d; mret (i :: is_) end) d;
      mret (chars "{" ++ sep
            ++ concat ((λ '(k, item), element_tabs ++ EncodeString alternate k ++ chars " = " ++ item ++ ";"%char :: sep) <$> merge_sort key_le items)
            ++ end_tabs ++ chars "}")
  end.
End printable.

(** ** Objects *)

(** [printable_value[1:-1]] if the value is in quotes *)
Definition strip_quotes (t : text) : text :=
  if (1 <? length t) && bool_decide (head t = Some quote_char) && bool_decide (last t = Some quote_char) then take (length t - 2) (drop 1 t) else t.

Definition XCKVPrint (x : xobject) (tabs : nat) (key : string) (value : xval) : XM text :=
  let c := class_of x in
  let single := single_line c in
  value_to_print ← (if (key ==? "remoteGlobalIDString") && subclass c PBXContainerItemProxy then
                      o ← lift (as_obj value); y ← get o;
                      lift (match xid y with Some i => Ok (XStr i) | None => Err (TypeError "Can't make NoneType printable") end)
                    else mret value);
  let flatten_list := (key ==? "buildSettings") && subclass c XCBuildConfiguration in
  printable_value ← XCPrintableValue single single tabs flatten_list value_to_print;
  let printable_value := if (key ==? "settings") && subclass c PBXBuildFile then strip_quotes printable_value else printable_value in
  mret ((if single then [] else tabs_of tabs) ++ EncodeString single (chars key) ++ chars " = " ++ printable_value ++ ";"%char :: item_separator single).

Definition sorted_properties (x : xobject) : list (text * (string * xval)) := merge_sort key_le ((λ p, (chars p.1, p)) <$> properties x).

Definition PrintObject (o : nat) : XM text :=
  _ ← VerifyHasRequiredProperties o;
  x ← get o;
  let single := single_line (class_of x) in
  name ← XCPrintableValue single single 2 false (XObj o);
  isa ← XCKVPrint x 3 "isa" (XStr (chars (class_name (class_of x))));
  lines ← map_m (λ '(_, (key, value)), XCKVPrint x 3 key value) (sorted_properties x);
  mret (tabs_of 2 ++ name ++ chars " = {" ++ (if single then [] else [newline_char]) ++ isa ++ concat lines
        ++ (if single then [] else tabs_of 2) ++ chars "};" ++ [newline_char]).

(** ** The children of an object *)
Definition Children (x : xobject) : list nat :=
  concat ((λ '(key, a), if is_strong a then objects_property key x else []) <$> schema (class_of x))
  ++ (if class_of x ==? PBXProject then
        concat ((λ r, match r with XDict d => match dict_get d (chars "ProductGroup") with Some v => objects_of v | None => [] end | _ => [] end)
          <$> match dict_get (properties x) "projectReferences" with Some (XList l) => l | _ => [] end)
      else []).

(** [Descendants], to the depth given by the fuel. *)
Fixpoint descendants (fuel : nat) (o : nat) : XM (list nat) :=
  match fuel with
  | 0 => throw OutOfFuel
  | S fuel => x ← get o; below ← map_m (descendants fuel) (Children x); mret (o :: concat below)
  end.
Definition Descendants (o : nat) : XM (list nat) := λ h, descendants (S (next h)) o h.

(** ** The project file *)
Definition Begin (class_name : string) : text := chars "/* Begin " ++ chars class_name ++ chars " section */" ++ [newline_char].
Definition End_ (class_name : string) : text := chars "/* End " ++ chars class_name ++ chars " section */" ++ [newline_char].

(** The classes of the objects, sorted by name *)
Definition id_key (h : heap) (o : nat) : text := match objects h !! o with Some x => default [] (xid x) | None => [] end.
Definition class_key (h : heap) (o : nat) : string := match objects h !! o with Some x => class_name (class_of x) | None => "" end.

Definition sections_of (h : heap) (all : list nat) : list (string * list nat) :=
  (λ c, (c, snd <$> merge_sort key_le ((λ d, (id_key h d, d)) <$> filter (λ d, class_key h d = c) all)))
    <$> str_sorted (remove_dups (class_key h <$> all)).
Definition the_heap : XM heap := λ h, Ok (h, h).

Definition PrintObjects (o : nat) : XM text :=
  all ← Descendants o;
  h ← the_heap;
  sections ← map_m (λ '(c, members), printed ← map_m PrintObject members; mret (newline_char :: Begin c ++ concat printed ++ End_ c))
    (sections_of h (filter (λ d, d ≠ o) all));
  mret (tabs_of 1 ++ chars "objects = {" ++ newline_char :: concat sections ++ tabs_of 1 ++ chars "};" ++ [newline_char]).

Definition PrintProjectFile (o : nat) : XM text :=
  _ ← VerifyHasRequiredProperties o;
  x ← get o;
  lines ← map_m (λ '(_, (key, value)), if key ==? "objects" then PrintObjects o else XCKVPrint x 1 key value)
            (sorted_properties (with_property "objects" (XDict []) x));
  mret (chars "// !$*UTF8*$!" ++ newline_char :: chars "{" ++ newline_char :: concat lines ++ chars "}" ++ [newline_char]).

(** * Reading property lists *)

#[local] Set Warnings "-register-all".
Inductive plist := PString (s : text) | PArray (l : list plist) | PDict (d : list (text * plist)).

Inductive skipping := Plain | InBlock | InLine.
(** Blanks and comments are skipped. *)
Fixpoint skip (m : skipping) (t : text) : text :=
  match t with
  | [] => []
  | c :: t' =>
      match m with
      | Plain =>
          if Ascii.is_space c then skip Plain t'
          else match c, t' with
          | "/"%char, "*"%char :: t'' => skip InBlock t''
          | "/"%char, "/"%char :: t'' => skip InLine t''
          | _, _ => t
          end
      | InBlock => match c, t' with "*"%char, "/"%char :: t'' => skip Plain t'' | _, _ => skip InBlock t' end
      | InLine => if c ==? newline_char then skip Plain t' else skip InLine t'
      end
  end.

Definition hex_value (c : ascii) : nat := let n := nat_of_ascii c in if n <? 58 then n - 48 else if n <? 71 then n - 55 else n - 87.
Definition unescape (c : ascii) : ascii :=
  match c with "a" => "007" | "b" => "008" | "t" => "009" | "n" => "010" | "v" => "011" | "f" => "012" | c => c end%char.

(** The rest of a string after its first quote *)
Fixpoint read_quoted (t : text) : option (text * text) :=
  match t with
  | [] => None
  | c :: t =>
      if c ==? quote_char then Some ([], t)
      else if c ==? "\"%char then
        match t with
        | "U"%char :: h1 :: h2 :: h3 :: h4 :: t =>
            '(s, rest) ← read_quoted t;
            Some (ascii_of_nat (((hex_value h1 * 16 + hex_value h2) * 16 + hex_value h3) * 16 + hex_value h4) :: s, rest)
        | c :: t => '(s, rest) ← read_quoted t; Some (unescape c :: s, rest)
        | [] => None
        end
      else '(s, rest) ← read_quoted t; Some (c :: s, rest)
  end.

Definition reader_char (c : ascii) : bool := is_alnum c || (c in? ["_"; "$"; "/"; ":"; "."; "-"]%char).
Definition read_string (t : text) : option (text * text) :=
  match t with
  | c :: t' => if c ==? quote_char then read_quoted t' else match span reader_char t with ([], _) => None | p => Some p end
  | [] => None
  end.

Fixpoint read_value (fuel : nat) (t : text) : option (plist * text) :=
  match fuel with
  | 0 => None
  | S fuel =>
      match skip Plain t with
      | "("%char :: t => '(l, t) ← read_items fuel t; Some (PArray l, t)
      | "{"%char :: t => '(d, t) ← read_pairs fuel t; Some (PDict d, t)
      | t => '(s, t) ← read_string t; Some (PString s, t)
      end
  end
with read_items (fuel : nat) (t : text) : option (list plist * text) :=
  match fuel with
  | 0 => None
  | S fuel =>
      match skip Plain t with
      | ")"%char :: t => Some ([], t)
      | _ =>
          '(v, t) ← read_value fuel t;
          match skip Plain t with
          | ","%char :: t => '(l, t) ← read_items fuel t; Some (v :: l, t)
          | ")"%char :: t => Some ([v], t)
          | _ => None
          end
      end
  end
with read_pairs (fuel : nat) (t : text) : option (list (text * plist) * text) :=
  match fuel with
  | 0 => None
  | S fuel =>
      match skip Plain t with
      | "}"%char :: t => Some ([], t)
      | t =>
          '(k, t) ← read_string t;
          match skip Plain t with
          | "="%char :: t =>
              '(v, t) ← read_value fuel t;
              match skip Plain t with
              | ";"%char :: t => '(d, t) ← read_pairs fuel t; Some ((k, v) :: d, t)
              | _ => None
              end
          | _ => None
          end
      end
  end.

(** * Theorems *)

(** ** Strings *)

(** What is read back: a return becomes a newline, which the printer has for both. *)
Definition read_back (s : text) : text := (λ c, if c ==? "013"%char then newline_char else c) <$> s.

Lemma read_encode_char alternate c t :
  read_quoted (encode_char alternate c ++ t) = ('(s, rest) ← read_quoted t; Some ((if c ==? "013"%char then newline_char else c) :: s, rest)).
Proof. destruct c as [[] [] [] [] [] [] [] []]; destruct alternate; reflexivity. Qed.

Lemma read_quoted_encode alternate s rest : read_quoted (concat (encode_char alternate <$> s) ++ quote_char :: rest) = Some (read_back s, rest).
Proof.
  induction s as [|c s IH]; [reflexivity|]. cbn [fmap list_fmap concat read_back]. rewrite <- app_assoc, read_encode_char, IH. done.
Qed.

(** A string whose print is read back: without quotes it must not look like a comment or lose a last newline. *)
Definition clean (s : text) : bool :=
  negb (matches_unquoted s && negb (matches_quoted s)) || (forallb unquoted_char s && negb (lstarts (chars "//") s)).

Definition ends (t : text) : bool := match t with [] => true | c :: _ => negb (reader_char c || (c ==? "*"%char)) end.

Lemma unquoted_reader c : unquoted_char c = true → reader_char c = true.
Proof. unfold unquoted_char, reader_char. intros [->|Hc%bool_decide_eq_true]%orb_true_iff; [done|]. apply orb_true_iff. right. apply bool_decide_eq_true. set_solver. Qed.

Lemma read_unquoted s rest : s ≠ [] → forallb reader_char s = true → ends rest = true → read_string (s ++ rest) = Some (s, rest).
Proof.
  intros Hne Hs Hrest. destruct s as [|c s]; [done|]. cbn [app read_string].
  assert (Hc : (c ==? quote_char) = false).
  { apply bool_decide_eq_false. intros ->. cbn in Hs. by vm_compute in Hs. }
  rewrite Hc. change (c :: s ++ rest) with ((c :: s) ++ rest). rewrite span_all; [done|done|].
  intros c' Hc'. destruct rest; [done|]. injection Hc' as <-. by apply negb_true_iff, orb_false_iff in Hrest as [].
Qed.

(** ** Blanks *)
Definition blank (b : text) : Prop := ∀ t, skip Plain (b ++ t) = skip Plain t.
Lemma blank_nil : blank [].
Proof. done. Qed.
Lemma blank_app b1 b2 : blank b1 → blank b2 → blank (b1 ++ b2).
Proof. intros H1 H2 t. by rewrite <- app_assoc, H1, H2. Qed.
Lemma blank_spaces b : forallb Ascii.is_space b = true → blank b.
Proof.
  intros Hb t. induction b as [|c b IH]; [done|]. cbn [forallb] in Hb. apply andb_true_iff in Hb as [Hc Hb]. cbn [app skip]. by rewrite Hc, IH.
Qed.
Lemma blank_tabs n : blank (tabs_of n).
Proof. apply blank_spaces. unfold tabs_of. by induction n. Qed.
Lemma blank_separator single : blank (item_separator single).
Proof. by apply blank_spaces; destruct single. Qed.

Lemma lreplace_comment c t :
  lreplace (chars "*/") (chars "(*)/") (c :: t)
  = match c, t with
    | "*"%char, "/"%char :: t => chars "(*)/" ++ lreplace (chars "*/") (chars "(*)/") t
    | _, _ => c :: lreplace (chars "*/") (chars "(*)/") t
    end.
Proof.
  unfold lreplace. cbn [chars String.list_ascii_of_string lreplace_go lstarts].
  destruct (decide (c = "*"%char)) as [->|Hc].
  - destruct t as [|c' t]; [done|]. destruct (decide (c' = "/"%char)) as [->|Hc']; [done|].
    rewrite (bool_decide_eq_false_2 ("/"%char = c')) by done. cbn [andb bool_decide].
    destruct c' as [[] [] [] [] [] [] [] []]; done.
  - rewrite (bool_decide_eq_false_2 ("*"%char = c)) by done. cbn [andb]. destruct c as [[] [] [] [] [] [] [] []]; done.
Qed.

Lemma skip_block c t :
  skip InBlock (c :: t) = match c, t with "*"%char, "/"%char :: t => skip Plain t | _, _ => skip InBlock t end.
Proof. done. Qed.

Lemma skip_block_other c t : c ≠ "*"%char ∨ head t ≠ Some "/"%char → skip InBlock (c :: t) = skip InBlock t.
Proof.
  intros H. rewrite skip_block. destruct (decide (c = "*"%char)) as [->|Hc].
  - destruct t as [|c' t]; [done|]. destruct (decide (c' = "/"%char)) as [->|Hc']; [by destruct H|].
    destruct c' as [[] [] [] [] [] [] [] []]; done.
  - destruct c as [[] [] [] [] [] [] [] []]; done.
Qed.

(** A comment ends where it should, whatever is in it. *)
Lemma skip_comment n c rest : length c ≤ n →
  skip InBlock (lreplace (chars "*/") (chars "(*)/") c ++ chars " */" ++ rest) = skip Plain rest.
Proof.
  revert c. induction n as [|n IH]; intros c Hn; [by destruct c; [|cbn in Hn; lia]|].
  destruct c as [|x c]; [done|]. rewrite lreplace_comment. cbn [length] in Hn.
  destruct (decide (x = "*"%char ∧ head c = Some "/"%char)) as [[-> Hc]|Hno].
  - destruct c as [|y c]; [done|]. injection Hc as ->. cbn [length] in Hn. rewrite <- app_assoc. cbn [chars String.list_ascii_of_string app].
    rewrite !skip_block_other by (first [by left|by right]). apply IH. lia.
  - assert (skip InBlock ((x :: lreplace (chars "*/") (chars "(*)/") c) ++ chars " */" ++ rest) = skip Plain rest) as Hx.
    { cbn [app]. rewrite skip_block_other; [apply IH; lia|]. destruct (decide (x = "*"%char)) as [->|]; [right|by left].
      destruct c as [|y c]; [done|]. rewrite lreplace_comment. destruct (decide (y = "/"%char)) as [->|Hy]; [by exfalso; apply Hno|].
      destruct (decide (y = "*"%char)) as [->|Hy2].
      - destruct c as [|z c]; [done|]. destruct (decide (z = "/"%char)) as [->|]; [done|]. by destruct z as [[] [] [] [] [] [] [] []].
      - destruct y as [[] [] [] [] [] [] [] []]; cbn; congruence. }
    destruct (decide (x = "*"%char)) as [->|Hs]; [|by destruct x as [[] [] [] [] [] [] [] []]].
    destruct c as [|y c]; [exact Hx|]. destruct (decide (y = "/"%char)) as [->|Hy]; [by exfalso; apply Hno|].
    by destruct y as [[] [] [] [] [] [] [] []].
Qed.

Lemma blank_comment c : blank (EncodeComment c).
Proof.
  intros t. unfold EncodeComment. rewrite <- !app_assoc. cbn [chars String.list_ascii_of_string app skip].
  change (skip InBlock (" "%char :: ?u)) with (skip InBlock u). by apply (skip_comment (length c)).
Qed.

Lemma blank_line b : newline_char ∉ b → blank (chars "//" ++ b ++ [newline_char]).
Proof.
  intros Hb t. cbn [chars String.list_ascii_of_string app]. change (skip Plain ("/" :: "/" :: ?u)%char) with (skip InLine u).
  induction b as [|c b IH]; [done|]. cbn [app skip]. rewrite bool_decide_eq_false_2 by set_solver. apply IH. set_solver.
Qed.

(** ** What is read from a text *)

(** The text is read as the key, the value, the items up to the closing character; what is left differs by blanks. *)
Definition reads_key (t : text) (k : text) : Prop :=
  ∀ rest, ends rest = true → ∃ rest', read_string (skip Plain (t ++ rest)) = Some (k, rest') ∧ skip Plain rest' = skip Plain rest.
Definition reads_value (t : text) (p : plist) : Prop :=
  ∃ n, ∀ fuel rest, n ≤ fuel → ends rest = true → ∃ rest', read_value fuel (t ++ rest) = Some (p, rest') ∧ skip Plain rest' = skip Plain rest.
Definition reads_items (t : text) (l : list plist) : Prop :=
  ∃ n, ∀ fuel rest, n ≤ fuel → read_items fuel (t ++ ")"%char :: rest) = Some (l, rest).
Definition reads_pairs (t : text) (d : list (text * plist)) : Prop :=
  ∃ n, ∀ fuel rest, n ≤ fuel → read_pairs fuel (t ++ "}"%char :: rest) = Some (d, rest).

Lemma read_string_head c t p : read_string (c :: t) = Some p → c = quote_char ∨ reader_char c = true.
Proof.
  cbn [read_string]. case_bool_decide; [by left|]. intros Hrun. right. cbn [span] in Hrun. by destruct (reader_char c).
Qed.

Lemma head_cases (c : ascii) : c = quote_char ∨ reader_char c = true → c ∉ ["("; ")"; "{"; "}"; "="; ","; ";"; " "]%char.
Proof. intros [->|Hc]; [by apply (bool_decide_unpack _)|]. intros Hin. repeat (apply elem_of_cons in Hin as [->|Hin]; [by vm_compute in Hc|]). by apply elem_of_nil in Hin. Qed.

Lemma read_value_string t k rest fuel :
  read_string (skip Plain t) = Some (k, rest) → 1 ≤ fuel → read_value fuel t = Some (PString k, rest).
Proof.
  intros Hs Hf. destruct fuel as [|fuel]; [lia|]. cbn [read_value]. destruct (skip Plain t) as [|c t'] eqn:Ht; [done|].
  apply read_string_head in Hs as Hc. apply head_cases in Hc.
  destruct c as [[] [] [] [] [] [] [] []]; first [by rewrite Hs|exfalso; apply Hc; apply (bool_decide_unpack _); exact I].
Qed.

Lemma reads_value_key t k : reads_key t k → reads_value t (PString k).
Proof.
  intros Hk. exists 1. intros fuel rest Hf Hrest. destruct (Hk rest Hrest) as (rest'&Hrun&Hskip). exists rest'.
  split; [by apply read_value_string|done].
Qed.

Lemma reads_key_comment t k c : reads_key t k → reads_key (t ++ " "%char :: EncodeComment c) k.
Proof.
  intros Hk rest Hrest. rewrite <- app_assoc. destruct (Hk ((" "%char :: EncodeComment c) ++ rest)) as (rest'&Hrun&Hskip); [done|].
  exists rest'. split; [done|]. rewrite Hskip. change (skip Plain (EncodeComment c ++ rest) = skip Plain rest). apply blank_comment.
Qed.

Lemma reads_array t l : reads_items t l → reads_value (chars "(" ++ t ++ chars ")") (PArray l).
Proof.
  intros [n Hl]. exists (S n). intros fuel rest Hf _. destruct fuel as [|fuel]; [lia|]. rewrite <- !app_assoc. cbn [chars String.list_ascii_of_string app].
  exists rest. split; [|done]. cbn [read_value]. change (skip Plain ("("%char :: ?u)) with ("("%char :: u). cbn iota beta.
  by rewrite Hl by lia.
Qed.

Lemma reads_dict t d : reads_pairs t d → reads_value (chars "{" ++ t ++ chars "}") (PDict d).
Proof.
  intros [n Hl]. exists (S n). intros fuel rest Hf _. destruct fuel as [|fuel]; [lia|]. rewrite <- !app_assoc. cbn [chars String.list_ascii_of_string app].
  exists rest. split; [|done]. cbn [read_value]. change (skip Plain ("{"%char :: ?u)) with ("{"%char :: u). cbn iota beta.
  by rewrite Hl by lia.
Qed.

Lemma reads_items_nil b : blank b → reads_items b [].
Proof. intros Hb. exists 1. intros fuel rest Hf. destruct fuel as [|fuel]; [lia|]. cbn [read_items]. by rewrite Hb. Qed.
Lemma reads_pairs_nil b : blank b → reads_pairs b [].
Proof. intros Hb. exists 1. intros fuel rest Hf. destruct fuel as [|fuel]; [lia|]. cbn [read_pairs]. by rewrite Hb. Qed.

Lemma read_value_skip fuel t1 t2 : skip Plain t1 = skip Plain t2 → read_value fuel t1 = read_value fuel t2.
Proof. intros Hs. destruct fuel; [done|]. cbn [read_value]. by rewrite Hs. Qed.

Lemma read_value_not_closing fuel t p : read_value fuel t = Some p → head (skip Plain t) ≠ Some ")"%char.
Proof.
  destruct fuel as [|fuel]; [done|]. cbn [read_value]. destruct (skip Plain t) as [|c t']; [done|]. intros Hrun [= ->].
  by vm_compute in Hrun.
Qed.

Lemma reads_items_cons b t p t' l : blank b → reads_value t p → reads_items t' l → reads_items (b ++ t ++ ","%char :: t') (p :: l).
Proof.
  intros Hb [n Ht] [m Hl]. exists (S (n + m)). intros fuel rest Hf. destruct fuel as [|fuel]; [lia|]. rewrite <- !app_assoc. cbn [app].
  destruct (Ht fuel (","%char :: t' ++ ")"%char :: rest)) as (rest'&Hrun&Hskip); [lia|done|].
  rewrite <- (read_value_skip _ _ _ (Hb _)) in Hrun. cbn [read_items]. apply read_value_not_closing in Hrun as Hne.
  destruct (skip Plain (b ++ _)) as [|c u] eqn:Hu; [|assert (c ≠ ")"%char) by (intros ->; done); destruct c as [[] [] [] [] [] [] [] []]; try done];
    rewrite Hrun; cbn [mbind option_bind]; rewrite Hskip; cbn [skip Ascii.is_space]; cbn iota beta; by rewrite Hl by lia.
Qed.

Lemma reads_pairs_cons b kt k vt v t d :
  blank b → reads_key kt k → reads_value vt v → reads_pairs t d →
  reads_pairs (b ++ kt ++ chars " = " ++ vt ++ ";"%char :: t) ((k, v) :: d).
Proof.
  intros Hb Hk [n Hv] [m Hd]. exists (S (n + m)). intros fuel rest Hf. destruct fuel as [|fuel]; [lia|]. rewrite <- !app_assoc. cbn [app].
  destruct (Hk (chars " = " ++ vt ++ ";"%char :: t ++ "}"%char :: rest)) as (rest1&Hkey&Hskip1); [done|].
  destruct (Hv fuel (";"%char :: t ++ "}"%char :: rest)) as (rest2&Hval&Hskip2); [lia|done|].
  cbn [read_pairs]. rewrite Hb.
  assert (∀ u, skip Plain rest1 = skip Plain (chars " = " ++ u) → skip Plain rest1 = "="%char :: " "%char :: u) as Heq by (by intros u ->).
  apply Heq in Hskip1. rewrite <- (read_value_skip _ (" "%char :: vt ++ ";"%char :: t ++ "}"%char :: rest)) in Hval by done.
  destruct (skip Plain (kt ++ _)) as [|c u] eqn:Hu; [done|]. apply read_string_head in Hkey as Hc. apply head_cases in Hc.
  destruct c as [[] [] [] [] [] [] [] []]; try (exfalso; apply Hc; apply (bool_decide_unpack _); exact I);
    rewrite Hkey; cbn [mbind option_bind]; rewrite Hskip1, Hval; cbn [mbind option_bind]; rewrite Hskip2; cbn [skip Ascii.is_space]; cbn iota beta;
    by rewrite Hd by lia.
Qed.

Lemma skip_reader c t : (c = quote_char ∨ reader_char c = true) → (c = "/"%char → head t ≠ Some "/"%char ∧ head t ≠ Some "*"%char) → skip Plain (c :: t) = c :: t.
Proof.
  intros Hc Hslash. cbn [skip].
  destruct c as [[] [] [] [] [] [] [] []]; try (exfalso; destruct Hc as [Hc|Hc]; [discriminate Hc|vm_compute in Hc; discriminate Hc]); try reflexivity.
  destruct (Hslash eq_refl) as [H1 H2]. destruct t as [|c' t]; [done|]. cbn in H1, H2.
  destruct c' as [[] [] [] [] [] [] [] []]; try reflexivity; congruence.
Qed.

Lemma reads_EncodeString alternate s : clean s = true → reads_key (EncodeString alternate s) (read_back s).
Proof.
  intros Hclean rest Hrest. unfold EncodeString. unfold clean in Hclean. destruct (matches_unquoted s && negb (matches_quoted s)) eqn:Hu; cbn [negb orb] in Hclean.
  - apply andb_true_iff in Hclean as [Hs Hslash]. exists rest. split; [|done].
    assert (s ≠ []) as Hne by (intros ->; done).
    assert (forallb reader_char s = true) as Hr by (apply forallb_forall; intros c Hc; by apply unquoted_reader, (proj1 (forallb_forall _ _) Hs)).
    assert (read_back s = s) as ->.
    { clear -Hs. induction s as [|c s IH]; [done|]. cbn [forallb] in Hs. apply andb_true_iff in Hs as [Hc Hs].
      unfold read_back in *. cbn [fmap list_fmap]. rewrite IH by done. rewrite bool_decide_eq_false_2; [done|]. intros ->. by vm_compute in Hc. }
    rewrite <- (read_unquoted s rest) by done. f_equal. destruct s as [|c s]; [done|]. cbn [app]. cbn [forallb] in Hr, Hs. apply andb_true_iff in Hr as [Hc Hr].
    apply skip_reader; [by right|]. intros ->. apply andb_true_iff in Hs as [_ Hs]. destruct s as [|c' s]; cbn [app].
    + destruct rest as [|c' rest]; [done|]. cbn [ends] in Hrest. cbn [head]. split; intros [= ->]; by vm_compute in Hrest.
    + cbn [head]. split; intros [= ->]; [by vm_compute in Hslash|]. cbn [forallb] in Hs. by apply andb_true_iff in Hs as [Hs _]; vm_compute in Hs.
  - exists rest. split; [|done]. cbn [app]. rewrite <- app_assoc. cbn [app]. rewrite skip_reader by (first [by left|intros Hq; discriminate Hq]). cbn [read_string].
    rewrite bool_decide_eq_true_2 by done. apply read_quoted_encode.
Qed.

(** ** Sorting by keys

    Lists that agree in their keys are sorted alike. *)
Section sort.
Context {A B : Type} (le1 : relation A) (le2 : relation B) `{!RelDecision le1} `{!RelDecision le2} (R : A → B → Prop).
Context (Hle : ∀ a a' b b', R a b → R a' b' → le1 a a' ↔ le2 b b').

Lemma list_merge_Forall2 l1 l2 k1 k2 : Forall2 R l1 k1 → Forall2 R l2 k2 → Forall2 R (list_merge le1 l1 l2) (list_merge le2 k1 k2).
Proof.
  intros H1. revert l2 k2. induction H1 as [|a b l1 k1 Hab H1 IH1]; intros l2 k2 H2; [by rewrite !list_merge_nil_l|].
  induction H2 as [|a' b' l2 k2 Hab' H2 IH2]; [by constructor|]. rewrite !list_merge_cons.
  destruct (decide (le1 a a')) as [Ha|Ha]; [rewrite decide_True by by eapply Hle|rewrite decide_False by by rewrite <- Hle].
  - constructor; [done|]. apply IH1. by constructor.
  - by constructor.
Qed.

Lemma merge_list_to_stack_Forall2 st kt l k :
  Forall2 (option_Forall2 (Forall2 R)) st kt → Forall2 R l k →
  Forall2 (option_Forall2 (Forall2 R)) (merge_list_to_stack le1 st l) (merge_list_to_stack le2 kt k).
Proof.
  intros Hst. revert l k. induction Hst as [|o o' st kt Ho Hst IH]; intros l k Hl; [by repeat constructor|].
  destruct Ho; cbn [merge_list_to_stack].
  - constructor; [constructor|]. by apply IH, list_merge_Forall2.
  - by repeat constructor.
Qed.

Lemma merge_stack_Forall2 st kt : Forall2 (option_Forall2 (Forall2 R)) st kt → Forall2 R (merge_stack le1 st) (merge_stack le2 kt).
Proof. induction 1 as [|o o' st kt Ho Hst IH]; [constructor|]. destruct Ho; cbn [merge_stack]; [by apply list_merge_Forall2|done]. Qed.

Lemma merge_sort_Forall2 l k : Forall2 R l k → Forall2 R (merge_sort le1 l) (merge_sort le2 k).
Proof.
  unfold merge_sort. assert (Forall2 (option_Forall2 (Forall2 R)) [] []) as Hst by constructor. revert Hst.
  generalize (@nil (option (list A))), (@nil (option (list B))). intros st kt Hst Hl. revert st kt Hst.
  induction Hl as [|a b l k Hab Hl IH]; intros st kt Hst; cbn [merge_sort_aux]; [by apply merge_stack_Forall2|].
  apply IH, merge_list_to_stack_Forall2; [done|]. by repeat constructor.
Qed.
End sort.

(** ** Values *)

(** What a printed value means: the identifiers of objects, the texts of strings and numbers. *)
Fixpoint plist_of (h : heap) (flatten_list : bool) (v : xval) : plist :=
  match v with
  | XObj o => PString (id_key h o)
  | XStr s => PString (read_back s)
  | XInt z => PString (chars (str_of_int z))
  | XList l =>
      match flatten_list, l with
      | true, [] => PString []
      | true, [XStr s] => PString (read_back s)
      | _, _ => PArray (plist_of h flatten_list <$> l)
      end
  | XDict d => PDict ((λ '(k, p), (read_back k, p)) <$> merge_sort key_le ((λ '(k, v), (k, plist_of h flatten_list v)) <$> d))
  end.

Fixpoint readable (v : xval) : bool :=
  match v with
  | XStr s => clean s
  | XList l => forallb readable l
  | XDict d => forallb (λ '(k, v), clean k && readable v) d
  | _ => true
  end.

(** Identifiers are words. *)
Lemma reads_word t : t ≠ [] → forallb reader_char t = true → lstarts (chars "/") t = false → reads_key t t.
Proof.
  intros Hne Ht Hslash rest Hrest. exists rest. split; [|done]. rewrite <- (read_unquoted t rest) by done. f_equal.
  destruct t as [|c t]; [done|]. cbn [forallb app] in *. apply andb_true_iff in Ht as [Hc _]. apply skip_reader; [by right|]. intros ->. by vm_compute in Hslash.
Qed.

Lemma alnum_reader t : forallb is_alnum t = true → forallb reader_char t = true ∧ lstarts (chars "/") t = false.
Proof.
  intros Ht. split.
  - apply forallb_forall. intros c Hc. unfold reader_char. by rewrite (proj1 (forallb_forall _ _) Ht c Hc).
  - destruct t as [|c t]; [done|]. cbn [forallb] in Ht. apply andb_true_iff in Ht as [Hc _]. cbn. destruct (decide ("/"%char = c)) as [<-|]; [by vm_compute in Hc|].
    by rewrite bool_decide_eq_false_2.
Qed.

Lemma reads_int z : reads_key (chars (str_of_int z)) (chars (str_of_int z)).
Proof.
  assert (∀ z, (0 < z)%Z → chars (str_of_int z) ≠ [] ∧ forallb is_alnum (chars (str_of_int z)) = true) as Hpos.
  { clear z. intros z Hz. destruct (pretty_positive_numeral z Hz) as [[Hd _] Hv]. split.
    - intros Heq. rewrite Heq in Hv. cbn in Hv. lia.
    - apply forallb_forall. intros c Hc. pose proof (proj1 (forallb_forall _ _) Hd c Hc) as Hdc. unfold is_digit in Hdc.
      apply bool_decide_eq_true in Hdc. repeat (apply elem_of_cons in Hdc as [->|Hdc]; [done|]). by apply elem_of_nil in Hdc. }
  destruct (Z.lt_trichotomy z 0) as [Hz|[->|Hz]].
  - rewrite int_text_negative by done. destruct (Hpos (- z)%Z) as [Hne Ha]; [lia|]. apply reads_word; [done| |done].
    cbn [forallb]. by apply alnum_reader.
  - apply reads_word; [done|by vm_compute|by vm_compute].
  - destruct (Hpos z Hz) as [Hne Ha]. by apply reads_word; [|apply alnum_reader|apply alnum_reader].
Qed.

(** ** Reading what was printed *)

Lemma reads_Name fuel o : reads (Name fuel o).
Proof.
  revert o. induction fuel as [|fuel IH]; intros o; cbn [Name]; [apply reads_throw|]. apply reads_bind; [apply reads_get|]. intros x.
  assert (∀ o, reads (n ← Name fuel o; match n with Some n => mret n | None => throw (TypeError "cannot concatenate 'str' and 'NoneType' objects") end)) as Hname.
  { intros o'. apply reads_bind; [done|]. intros []; [apply reads_ret|apply reads_throw]. }
  assert (reads (match parent x with Some p => mret p | None => throw (AttributeError "Name") end)) as Hparent.
  { destruct (parent x); [apply reads_ret|apply reads_throw]. }
  assert (reads (A := option text) (match str_property "name" x with Some n => mret (Some n) | None => match dict_get (schema (class_of x)) "name" with
    | Some a => if is_required a then throw (KeyError "name") else throw (RuntimeError "NotImplementedError")
    | None => throw (RuntimeError "NotImplementedError") end end)) as Hdefault.
  { destruct (str_property "name" x); [apply reads_ret|]. destruct (dict_get _ _) as [a|]; [destruct (is_required a)|]; apply reads_throw. }
  destruct (class_of x); cbn zeta; try exact Hdefault; try apply reads_ret.
  - apply reads_bind; [done|]. intros. apply reads_bind; [apply reads_get|]. intros. apply reads_bind; [done|]. intros. apply reads_ret.
  - apply reads_bind; [apply reads_lift|]. intros. apply reads_bind; [apply reads_lift|]. intros. apply reads_bind; [done|]. intros.
    apply reads_bind; [done|]. intros. apply reads_bind; [done|]. intros. apply reads_ret.
  - destruct (path x); [apply reads_ret|apply reads_throw].
Qed.

Lemma reads_Comment o : reads (Comment o).
Proof.
  unfold Comment. apply reads_bind; [apply reads_get|]. intros x. destruct (_ ==? _); [apply reads_ret|]. intros h a h'. apply reads_Name.
Qed.

Lemma map_m_reads_Ok {A B} (f : A → XM B) (R : A → B → Prop) l h ys h' :
  (∀ x y h', x ∈ l → f x h = Ok (y, h') → h' = h ∧ R x y) → map_m f l h = Ok (ys, h') → h' = h ∧ Forall2 R l ys.
Proof.
  revert ys. induction l as [|x l IH]; intros ys Hf Hrun; cbn [map_m] in Hrun; [by injection Hrun as <- <-|].
  apply XM_bind_Ok in Hrun as (y&h1&Hy&Hrun). apply XM_bind_Ok in Hrun as (ys'&h2&Hys&Hrun). injection Hrun as <- <-.
  apply Hf in Hy as [-> Hy]; [|by left]. destruct (IH _ ltac:(intros; apply Hf; [by right|done]) Hys) as [-> Hl]. split; [done|]. by constructor.
Qed.

Lemma reads_items_list b et sep e items ps :
  blank b → blank et → blank sep → blank e → Forall2 reads_value items ps →
  reads_items (b ++ concat ((λ item, et ++ item ++ ","%char :: sep) <$> items) ++ e) ps.
Proof.
  intros Hb Het Hsep He Hl. revert b Hb. induction Hl as [|item p items ps Hp _ IH]; intros b Hb; cbn [fmap list_fmap concat].
  - cbn [app]. by apply reads_items_nil, blank_app.
  - rewrite <- !app_assoc. cbn [app]. rewrite (app_assoc b et). apply reads_items_cons; [by apply blank_app|done|]. by apply IH.
Qed.

Lemma reads_pairs_list b et sep e (items : list (text * text)) (ps : list (text * plist)) :
  blank b → blank et → blank sep → blank e →
  Forall2 (λ i p, reads_key i.1 p.1 ∧ reads_value i.2 p.2) items ps →
  reads_pairs (b ++ concat ((λ i, et ++ i.1 ++ chars " = " ++ i.2 ++ ";"%char :: sep) <$> items) ++ e) ps.
Proof.
  intros Hb Het Hsep He Hl. revert b Hb. induction Hl as [|item [k p] items ps [Hk Hp] _ IH]; intros b Hb; cbn [fmap list_fmap concat].
  - cbn [app]. by apply reads_pairs_nil, blank_app.
  - rewrite <- !app_assoc. cbn [app]. rewrite (app_assoc b et). apply reads_pairs_cons; [by apply blank_app|done|done|]. by apply IH.
Qed.

Lemma XCPrintableValue_list alternate single tabs fl l :
  (fix go l := match l with [] => mret [] | x :: l => y ← XCPrintableValue alternate single (S tabs) fl x; ys ← go l; mret (y :: ys) end) l
  = map_m (XCPrintableValue alternate single (S tabs) fl) l.
Proof. induction l as [|x l IH]; [done|]. cbn [map_m]. by rewrite <- IH. Qed.

Lemma XCPrintableValue_dict alternate single tabs fl (d : list (text * xval)) :
  (fix go d := match d with [] => mret [] | (k, v) :: d => i ← (y ← XCPrintableValue alternate single (S tabs) fl v; mret (k, y)); is_ ← go d; mret (i :: is_) end) d
  = map_m (λ '(k, v), y ← XCPrintableValue alternate single (S tabs) fl v; mret (k, y)) d.
Proof. induction d as [|[k v] d IH]; [done|]. cbn [map_m]. by rewrite <- IH. Qed.

Lemma reads_full_list alternate single tabs fl l h t h' :
  ids_ok h → forallb readable l = true →
  (∀ v, v ∈ l → ∀ tabs fl h t h', ids_ok h → readable v = true → XCPrintableValue alternate single tabs fl v h = Ok (t, h') → h' = h ∧ reads_value t (plist_of h fl v)) →
  (items ← map_m (XCPrintableValue alternate single (S tabs) fl) l;
   mret (chars "(" ++ item_separator single ++ concat ((λ item, (if single then [] else tabs_of (S tabs)) ++ item ++ ","%char :: item_separator single) <$> items)
     ++ (if single then [] else tabs_of tabs) ++ chars ")")) h = Ok (t, h') →
  h' = h ∧ reads_value t (PArray (plist_of h fl <$> l)).
Proof.
  intros Hids Hl IH (items&h1&Hitems&Hret)%XM_bind_Ok.
  apply map_m_reads_Ok with (R := λ v t, reads_value t (plist_of h fl v)) in Hitems as [-> Hitems].
  - injection Hret as <- <-. split; [done|]. rewrite !(app_assoc (item_separator single)), !(app_assoc _ _ (chars ")")). apply reads_array.
    rewrite <- !app_assoc. apply reads_items_list; [apply blank_separator|destruct single; [apply blank_nil|apply blank_tabs]|apply blank_separator|destruct single; [apply blank_nil|apply blank_tabs]|].
    apply Forall2_flip, Forall2_fmap_l. eapply Forall2_impl; [exact Hitems|done].
  - intros v t' h2 Hv Hrun. apply IH in Hrun; [done|done|done|]. apply (proj1 (forallb_forall _ _) Hl). by apply list_elem_of_In.
Qed.

(** A dictionary of printed values, sorted by their keys. *)
Lemma reads_printed_dict alternate single tabs h fl (d : list (text * xval)) items :
  Forall2 (λ kv i, clean kv.1 = true ∧ i.1 = kv.1 ∧ reads_value i.2 (plist_of h fl kv.2)) d items →
  reads_value (chars "{" ++ item_separator single
      ++ concat ((λ '(k, item), (if single then [] else tabs_of (S tabs)) ++ EncodeString alternate k ++ chars " = " ++ item ++ ";"%char :: item_separator single)
           <$> merge_sort key_le items)
      ++ (if single then [] else tabs_of tabs) ++ chars "}")
    (PDict ((λ '(k, p), (read_back k, p)) <$> merge_sort key_le ((λ '(k, v), (k, plist_of h fl v)) <$> d))).
Proof.
  intros Hitems. rewrite !(app_assoc (item_separator single)), !(app_assoc _ _ (chars "}")). apply reads_dict. rewrite <- !app_assoc.
  replace ((λ '(k, item), (if single then [] else tabs_of (S tabs)) ++ EncodeString alternate k ++ chars " = " ++ item ++ ";"%char :: item_separator single) <$> merge_sort key_le items)
    with ((λ i, (if single then [] else tabs_of (S tabs)) ++ i.1 ++ chars " = " ++ i.2 ++ ";"%char :: item_separator single)
      <$> ((λ i, (EncodeString alternate i.1, i.2)) <$> merge_sort key_le items)).
  2: { rewrite <- list_fmap_compose. apply list_fmap_ext. by intros _ [k i] _. }
  apply reads_pairs_list; [apply blank_separator|destruct single; [apply blank_nil|apply blank_tabs]|apply blank_separator|destruct single; [apply blank_nil|apply blank_tabs]|].
  apply Forall2_fmap. eapply Forall2_impl.
  - apply merge_sort_Forall2 with (R := λ (i : text * text) (p : text * plist), clean i.1 = true ∧ i.1 = p.1 ∧ reads_value i.2 p.2).
    + intros i i' p p' (_&Hp&_) (_&Hp'&_). unfold key_le. by rewrite Hp, Hp'.
    + apply Forall2_fmap_r, Forall2_flip. eapply Forall2_impl; [exact Hitems|]. intros [k v] [k' t] (Hk&Heq&Hv). cbn in *. by subst.
  - intros [k t] [k' p] (Hk&Heq&Hv). cbn in *. subst. split; [by apply reads_EncodeString|done].
Qed.

Lemma reads_XCPrintableValue alternate single v :
  ∀ tabs fl h t h', ids_ok h → readable v = true → XCPrintableValue alternate single tabs fl v h = Ok (t, h') →
  h' = h ∧ reads_value t (plist_of h fl v).
Proof.
  induction v as [o|s|z|l IH|d IH] using xval_ind; intros tabs fl h t h' Hids Hv Hrun; cbn [XCPrintableValue plist_of readable] in *.
  - apply XM_bind_Ok in Hrun as (x&h1&Hget&Hrun). apply reads_get in Hget as Hh. subst h1. unfold get in Hget.
    destruct (objects h !! o) as [x0|] eqn:Hx; [|done]. injection Hget as ->.
    apply XM_bind_Ok in Hrun as (i&h1&Hi&Hrun). unfold lift in Hi. destruct (xid x) as [i0|] eqn:Hxid; [|done]. injection Hi as -> <-.
    apply XM_bind_Ok in Hrun as (c&h1&->%reads_Comment&Hrun). injection Hrun as <- <-. split; [done|]. unfold id_key. rewrite Hx, Hxid. cbn [from_option].
    destruct (Hids _ _ _ Hx Hxid) as [Hne Ha]. assert (reads_key i i) as Hkey by (by apply reads_word; [|apply alnum_reader|apply alnum_reader]).
    apply reads_value_key. unfold with_comment. destruct c; [by apply reads_key_comment|done].
  - injection Hrun as <- <-. split; [done|]. by apply reads_value_key, reads_EncodeString.
  - injection Hrun as <- <-. split; [done|]. apply reads_value_key, reads_int.
  - rewrite XCPrintableValue_list in Hrun. rewrite Forall_forall in IH.
    assert (∀ s, clean s = true → reads_value (EncodeString alternate s) (PString (read_back s))) as Hstr by (intros; by apply reads_value_key, reads_EncodeString).
    destruct fl; [|by eapply reads_full_list]. destruct l as [|w [|w' l]]; [injection Hrun as <- <-; split; [done|by apply Hstr]| |by destruct w; eapply reads_full_list].
    destruct w; try done. injection Hrun as <- <-. split; [done|]. apply Hstr. cbn in Hv. by rewrite andb_true_r in Hv.
  - rewrite XCPrintableValue_dict in Hrun. rewrite Forall_forall in IH. apply XM_bind_Ok in Hrun as (items&h1&Hitems&Hret).
    apply map_m_reads_Ok with (R := λ kv i, clean kv.1 = true ∧ i.1 = kv.1 ∧ reads_value i.2 (plist_of h fl kv.2)) in Hitems as [-> Hitems].
    + injection Hret as <- <-. split; [done|]. by apply reads_printed_dict.
    + intros [k w] [k' t'] h2 Hin Hrun. apply XM_bind_Ok in Hrun as (y&h3&Hy&Hk). injection Hk as <- <- <-. cbn [fst snd].
      apply list_elem_of_In in Hin as Hin'. apply (proj1 (forallb_forall _ _) Hv), andb_true_iff in Hin' as [Hk Hw].
      apply (IH (k, w)) in Hy; [|done|done|done]. naive_solver.
Qed.

(** ** Pairs one after another *)

(** The text has the pairs, before whatever pairs follow. *)
Definition reads_prefix (t : text) (d : list (text * plist)) : Prop := ∀ t' d', reads_pairs t' d' → reads_pairs (t ++ t') (d ++ d').

Lemma reads_prefix_app t1 d1 t2 d2 : reads_prefix t1 d1 → reads_prefix t2 d2 → reads_prefix (t1 ++ t2) (d1 ++ d2).
Proof. intros H1 H2 t' d' Ht. rewrite <- !app_assoc. by apply H1, H2. Qed.
Lemma reads_prefix_nil : reads_prefix [] [].
Proof. by intros t d. Qed.
Lemma reads_prefix_concat ts ds : Forall2 reads_prefix ts ds → reads_prefix (concat ts) (concat ds).
Proof. induction 1; cbn [concat]; [apply reads_prefix_nil|by apply reads_prefix_app]. Qed.

Lemma read_pairs_skip fuel t1 t2 : skip Plain t1 = skip Plain t2 → read_pairs fuel t1 = read_pairs fuel t2.
Proof. intros Hs. destruct fuel; [done|]. cbn [read_pairs]. by rewrite Hs. Qed.
Lemma reads_prefix_blank b : blank b → reads_prefix b [].
Proof.
  intros Hb t d [n Ht]. exists n. intros fuel rest Hf. change ([] ++ d) with d. rewrite <- (Ht fuel rest Hf). apply read_pairs_skip. rewrite <- app_assoc. apply Hb.
Qed.
Lemma reads_prefix_blank_l b t d : blank b → reads_prefix t d → reads_prefix (b ++ t) d.
Proof. intros Hb Ht. exact (reads_prefix_app b [] t d (reads_prefix_blank b Hb) Ht). Qed.
Lemma reads_prefix_blank_r b t d : blank b → reads_prefix t d → reads_prefix (t ++ b) d.
Proof. intros Hb Ht. rewrite <- (app_nil_r d). exact (reads_prefix_app t d b [] Ht (reads_prefix_blank b Hb)). Qed.
Lemma reads_prefix_pair b kt k vt v b' :
  blank b → reads_key kt k → reads_value vt v → blank b' → reads_prefix (b ++ kt ++ chars " = " ++ vt ++ ";"%char :: b') [(k, v)].
Proof.
  intros Hb Hk Hv Hb' t d Ht. rewrite <- !app_assoc. cbn [app]. apply reads_pairs_cons; [done..|]. by apply (reads_prefix_blank b' Hb' t d).
Qed.
Lemma reads_prefix_dict t d b : reads_prefix t d → blank b → reads_value (chars "{" ++ (t ++ b) ++ chars "}") (PDict d).
Proof. intros Ht Hb. apply reads_dict. rewrite <- (app_nil_r d). by apply Ht, reads_pairs_nil. Qed.

(** ** Objects *)

Definition flattened (x : xobject) (key : string) : bool := (key ==? "buildSettings") && subclass (class_of x) XCBuildConfiguration.
Definition property_plist (h : heap) (x : xobject) (key : string) (v : xval) : text * plist := (chars key, plist_of h (flattened x key) v).
Definition object_plist (h : heap) (x : xobject) : plist :=
  PDict ((chars "isa", PString (chars (class_name (class_of x)))) :: ((λ '(_, (key, v)), property_plist h x key v) <$> sorted_properties x)).

(** All strings are clean; the settings of a file, which are printed as they are, are left out. *)
Definition readable_property (c : cls) (p : string * xval) : bool :=
  clean (chars p.1) && negb ("013"%char in? chars p.1) && readable p.2 && negb ((p.1 ==? "settings") && subclass c PBXBuildFile).
Definition readable_object (x : xobject) : bool := forallb (readable_property (class_of x)) (properties x).

Lemma read_back_id t : ("013"%char ∉ t) → read_back t = t.
Proof. intros Ht. unfold read_back. induction t as [|c t IH]; [done|]. cbn [fmap list_fmap]. rewrite IH by set_solver. rewrite bool_decide_eq_false_2; [done|]. set_solver. Qed.

Lemma alnum_clean t : forallb is_alnum t = true → clean t = true ∧ ("013"%char ∉ t).
Proof.
  intros Ht. split.
  - unfold clean. apply orb_true_iff. right. apply andb_true_iff. split.
    + apply forallb_forall. intros c Hc. unfold unquoted_char. by rewrite (proj1 (forallb_forall _ _) Ht c Hc).
    + apply alnum_reader in Ht as [_ Ht]. destruct t as [|c t]; [done|]. cbn in *. by destruct (bool_decide_reflect ("/"%char = c)).
  - intros Hin%list_elem_of_In. apply (proj1 (forallb_forall _ _) Ht) in Hin. by vm_compute in Hin.
Qed.

Lemma reads_object_name alternate single tabs fl o h t h' :
  ids_ok h → XCPrintableValue alternate single tabs fl (XObj o) h = Ok (t, h') → h' = h ∧ reads_key t (id_key h o).
Proof.
  intros Hids Hrun. cbn [XCPrintableValue] in Hrun. apply XM_bind_Ok in Hrun as (x&h1&Hget&Hrun). apply reads_get in Hget as Hh. subst h1.
  unfold get in Hget. destruct (objects h !! o) as [x0|] eqn:Hx; [|done]. injection Hget as ->.
  apply XM_bind_Ok in Hrun as (i&h1&Hi&Hrun). unfold lift in Hi. destruct (xid x) as [i0|] eqn:Hxid; [|done]. injection Hi as -> <-.
  apply XM_bind_Ok in Hrun as (c&h1&->%reads_Comment&Hrun). injection Hrun as <- <-. split; [done|]. unfold id_key. rewrite Hx, Hxid. cbn [from_option].
  destruct (Hids _ _ _ Hx Hxid) as [Hne Ha]. assert (reads_key i i) as Hkey by (by apply reads_word; [|apply alnum_reader|apply alnum_reader]).
  unfold with_comment. destruct c; [by apply reads_key_comment|done].
Qed.

(** A line has a pair, between blanks. *)
Lemma reads_XCKVPrint x tabs key v h t h' :
  ids_ok h → readable_property (class_of x) (key, v) = true → XCKVPrint x tabs key v h = Ok (t, h') →
  h' = h ∧ reads_prefix t [property_plist h x key v].
Proof.
  unfold readable_property. cbn [fst snd]. intros Hids [[[Hclean Hcr%negb_true_iff%bool_decide_eq_false]%andb_true_iff Hv]%andb_true_iff Hset%negb_true_iff]%andb_true_iff Hrun.
  unfold XCKVPrint in Hrun. apply XM_bind_Ok in Hrun as (w&h1&Hw&Hrun). apply XM_bind_Ok in Hrun as (pv&h2&Hpv&Hret). rewrite Hset in Hret. injection Hret as <- <-.
  assert (h1 = h ∧ readable w = true ∧ plist_of h (flattened x key) w = plist_of h (flattened x key) v) as (->&Hrw&Hpw).
  { destruct ((key ==? "remoteGlobalIDString") && subclass (class_of x) PBXContainerItemProxy); [|by injection Hw as <- <-].
    apply XM_bind_Ok in Hw as (o&h3&Ho&Hw). unfold lift in Ho. destruct v; try done. injection Ho as <- <-.
    apply XM_bind_Ok in Hw as (y&h3&Hget&Hw). unfold get in Hget. destruct (objects h !! o0) as [y0|] eqn:Hy; [|done]. injection Hget as -> <-.
    unfold lift in Hw. destruct (xid y) as [i|] eqn:Hi; [|done]. injection Hw as <- <-. destruct (Hids _ _ _ Hy Hi) as [_ [Hc Hn]%alnum_clean].
    split_and!; [done|done|]. cbn [plist_of]. unfold id_key. rewrite Hy, Hi. cbn [from_option]. by rewrite read_back_id. }
  apply reads_XCPrintableValue in Hpv as [-> Hpv]; [|done|done]. split; [done|]. unfold property_plist. rewrite <- Hpw.
  apply reads_prefix_pair; [destruct (single_line _); [apply blank_nil|apply blank_tabs]| |done|apply blank_separator].
  rewrite <- (read_back_id (chars key)) at 2 by done. by apply reads_EncodeString.
Qed.

Lemma reads_VerifyHasRequiredProperties o : reads (VerifyHasRequiredProperties o).
Proof.
  unfold VerifyHasRequiredProperties. apply reads_bind; [apply reads_get|]. intros x. generalize (schema (class_of x)). intros l.
  induction l as [|[key a] l IH]; cbn [for_m]; [apply reads_ret|]. apply reads_bind; [|done].
  destruct (_ && _); [apply reads_throw|apply reads_ret].
Qed.

(** The lines of the properties *)
Lemma reads_lines (f : string → xval → XM text) (p : string → xval → list (text * plist)) h (l : list (text * (string * xval))) lines h' :
  (∀ k key v t h', (k, (key, v)) ∈ l → f key v h = Ok (t, h') → h' = h ∧ reads_prefix t (p key v)) →
  map_m (λ '(_, (key, v)), f key v) l h = Ok (lines, h') →
  h' = h ∧ reads_prefix (concat lines) (concat ((λ '(_, (key, v)), p key v) <$> l)).
Proof.
  intros Hf Hrun. apply map_m_reads_Ok with (R := λ i t, reads_prefix t (p i.2.1 i.2.2)) in Hrun as [-> Hl].
  - split; [done|]. apply reads_prefix_concat, Forall2_flip, Forall2_fmap_l. eapply Forall2_impl; [exact Hl|]. by intros [k [key v]].
  - intros [k [key v]] t h1 Hin Ht. by eapply Hf.
Qed.

Lemma concat_singletons {A B} (f : A → B) l : concat ((λ x, [f x]) <$> l) = f <$> l.
Proof. induction l as [|x l IH]; [done|]. cbn. by rewrite IH. Qed.

Lemma sorted_properties_In k key v x : (k, (key, v)) ∈ sorted_properties x → (key, v) ∈ properties x.
Proof.
  unfold sorted_properties. rewrite merge_sort_Permutation. intros ([key' v']&[= -> -> ->]&Hin)%list_elem_of_fmap. done.
Qed.

Lemma newline_blank : blank [newline_char].
Proof. by apply blank_spaces. Qed.

Lemma XM_ret_Ok {A} (a b : A) (h h' : heap) : (mret a : XM A) h = Ok (b, h') → b = a ∧ h' = h.
Proof. by intros [= <- <-]. Qed.

Lemma reads_PrintObject o x h t h' :
  ids_ok h → objects h !! o = Some x → readable_object x = true → PrintObject o h = Ok (t, h') →
  h' = h ∧ reads_prefix t [(id_key h o, object_plist h x)].
Proof.
  intros Hids Hx Hr Hrun. unfold PrintObject in Hrun. apply XM_bind_Ok in Hrun as (u&h1&->%reads_VerifyHasRequiredProperties&Hrun).
  apply XM_bind_Ok in Hrun as (x0&h1&Hget&Hrun). unfold get in Hget. rewrite Hx in Hget. injection Hget as <- <-.
  apply XM_bind_Ok in Hrun as (name&h1&Hname&Hrun). apply reads_object_name in Hname as [-> Hname]; [|done].
  apply XM_bind_Ok in Hrun as (isa&h1&Hisa&Hrun).
  apply reads_XCKVPrint in Hisa as [-> Hisa]; [|done|by destruct (class_of x)].
  apply XM_bind_Ok in Hrun as (lines&h1&Hlines&Hret).
  apply (reads_lines _ (λ key v, [property_plist h x key v])) in Hlines as [-> Hlines].
  2: { intros k key v t' h2 Hin Ht'. apply reads_XCKVPrint in Ht'; [done|done|].
       apply sorted_properties_In, list_elem_of_In in Hin. by apply (proj1 (forallb_forall _ _) Hr) in Hin. }
  apply XM_ret_Ok in Hret as [-> ->]. split; [done|].
  replace (concat ((λ '(_, (key, v)), [property_plist h x key v]) <$> sorted_properties x))
    with ((λ '(_, (key, v)), property_plist h x key v) <$> sorted_properties x) in Hlines.
  2: { rewrite <- concat_singletons. f_equal. apply list_fmap_ext. by intros _ [? []] _. }
  set (d := if single_line (class_of x) then [] else tabs_of 2). set (nl := if single_line (class_of x) then [] else [newline_char]).
  assert (tabs_of 2 ++ name ++ chars " = {" ++ nl ++ isa ++ concat lines ++ d ++ chars "};" ++ [newline_char]
    = tabs_of 2 ++ name ++ chars " = " ++ (chars "{" ++ ((nl ++ isa ++ concat lines) ++ d) ++ chars "}") ++ ";"%char :: [newline_char]) as ->.
  { rewrite <- !app_assoc. done. }
  apply reads_prefix_pair; [apply blank_tabs|done| |apply newline_blank]. unfold object_plist. apply reads_prefix_dict.
  - apply reads_prefix_blank_l; [unfold nl; destruct (single_line _); [apply blank_nil|apply newline_blank]|].
    assert (property_plist h x "isa" (XStr (chars (class_name (class_of x)))) = (chars "isa", PString (chars (class_name (class_of x))))) as Heq by by destruct (class_of x).
    rewrite Heq in Hisa. by apply (reads_prefix_app isa [_]).
  - unfold d. destruct (single_line _); [apply blank_nil|apply blank_tabs].
Qed.

(** ** Sections: every object once *)

Lemma concat_filter_Permutation {A B} `{EqDecision B} (f : A → B) (cs : list B) (all : list A) :
  NoDup cs → (∀ d, d ∈ all → f d ∈ cs) → concat ((λ c, filter (λ d, f d = c) all) <$> cs) ≡ₚ all.
Proof.
  intros Hnd. induction all as [|x all IH]; intros Hin.
  - clear. induction cs as [|c cs IH]; [done|]. exact IH.
  - destruct (list_elem_of_split cs (f x)) as (cs1&cs2&->); [apply Hin; by left|]. apply NoDup_app in Hnd as (_&H1&H2).
    apply NoDup_cons in H2 as [H2 _].
    assert (∀ cs : list B, (f x ∉ cs) → ((λ c, filter (λ d, f d = c) (x :: all)) <$> cs : list (list A)) = (λ c, filter (λ d, f d = c) all) <$> cs) as Hother.
    { intros cs Hcs. apply list_fmap_ext. intros i c Hc%list_elem_of_lookup_2. rewrite filter_cons, decide_False; [done|]. by intros <-. }
    rewrite <- (IH ltac:(intros; apply Hin; by right)). rewrite !fmap_app, !fmap_cons, !concat_app. cbn [concat].
    rewrite Hother by (intros Hf; apply (H1 _ Hf); by left). rewrite (Hother cs2) by done. rewrite filter_cons, decide_True by done. cbn [app].
    symmetry. apply Permutation_middle.
Qed.

Lemma merge_sort_snd {A} (f : A → text) (l : list A) : snd <$> merge_sort key_le ((λ d, (f d, d)) <$> l) ≡ₚ l.
Proof. rewrite merge_sort_Permutation, <- list_fmap_compose. erewrite list_fmap_ext; [by rewrite list_fmap_id|done]. Qed.

Lemma concat_Permutation {A B} (f g : A → list B) l : (∀ x, x ∈ l → f x ≡ₚ g x) → concat (f <$> l) ≡ₚ concat (g <$> l).
Proof. induction l as [|x l IH]; intros Hf; [done|]. cbn. rewrite Hf by by left. rewrite IH; [done|]. intros. apply Hf. by right. Qed.

Lemma sections_Permutation h all : concat (snd <$> sections_of h all) ≡ₚ all.
Proof.
  unfold sections_of. rewrite <- list_fmap_compose. etrans; [apply concat_Permutation; intros c _; apply merge_sort_snd|].
  apply (concat_filter_Permutation (class_key h)).
  - rewrite str_sorted_Permutation. apply NoDup_remove_dups.
  - intros d Hd. rewrite str_sorted_Permutation. apply elem_of_remove_dups. by apply list_elem_of_fmap_2.
Qed.

(** ** The whole file *)

Lemma reads_descendants fuel o : reads (descendants fuel o).
Proof.
  revert o. induction fuel as [|fuel IH]; intros o; cbn [descendants]; [apply reads_throw|]. apply reads_bind; [apply reads_get|]. intros x.
  apply reads_bind; [by apply reads_map_m|]. intros. apply reads_ret.
Qed.
Lemma reads_Descendants o : reads (Descendants o).
Proof. intros h a h'. apply reads_descendants. Qed.

(** The pair of an object: its identifier, and its class with its properties. *)
Definition object_pair (h : heap) (o : nat) : text * plist :=
  (id_key h o, match objects h !! o with Some x => object_plist h x | None => PString [] end).
Definition all_readable (h : heap) : Prop := ∀ o x, objects h !! o = Some x → readable_object x = true.

(** The lines around a section are comments: their text ends no comment. *)
Lemma blank_marker word c :
  blank (chars "/* " ++ lreplace (chars "*/") (chars "(*)/") (word ++ chars (class_name c) ++ chars " section") ++ chars " */" ++ [newline_char]).
Proof.
  rewrite (app_assoc (chars "/* ")), (app_assoc _ (chars " */")), <- (app_assoc (chars "/* ")). apply blank_app; [|apply newline_blank].
  apply (blank_comment (word ++ chars (class_name c) ++ chars " section")).
Qed.

Lemma Begin_comment c : Begin (class_name c) = chars "/* " ++ lreplace (chars "*/") (chars "(*)/") (chars "Begin " ++ chars (class_name c) ++ chars " section") ++ chars " */" ++ [newline_char].
Proof. destruct c; vm_compute; reflexivity. Qed.
Lemma End_comment c : End_ (class_name c) = chars "/* " ++ lreplace (chars "*/") (chars "(*)/") (chars "End " ++ chars (class_name c) ++ chars " section") ++ chars " */" ++ [newline_char].
Proof. destruct c; vm_compute; reflexivity. Qed.

Lemma blank_section h o : blank (Begin (class_key h o)) ∧ blank (End_ (class_key h o)).
Proof.
  unfold class_key. destruct (objects h !! o) as [x|].
  - rewrite Begin_comment, End_comment. split; apply blank_marker.
  - split; intros t; reflexivity.
Qed.

Lemma fmap_concat {A B} (f : A → B) (ls : list (list A)) : f <$> concat ls = concat ((λ l : list A, f <$> l) <$> ls) :> list B.
Proof. induction ls as [|l ls IH]; [done|]. cbn [concat]. by rewrite fmap_app, IH. Qed.

Lemma PrintObject_object o h t h' : PrintObject o h = Ok (t, h') → ∃ x, objects h !! o = Some x.
Proof.
  intros (u&h1&Hv&_)%XM_bind_Ok. apply XM_bind_Ok in Hv as (x&h2&Hget&_). unfold get in Hget. destruct (objects h !! o) as [x0|]; [by exists x0|done].
Qed.

Lemma reads_section c members h t h' :
  ids_ok h → all_readable h → (∃ d, c = class_key h d) →
  (printed ← map_m PrintObject members; mret (newline_char :: Begin c ++ concat printed ++ End_ c)) h = Ok (t, h') →
  h' = h ∧ reads_prefix t (object_pair h <$> members).
Proof.
  intros Hids Hread [d ->] Hrun. apply XM_bind_Ok in Hrun as (printed&h1&Hp&Hret).
  apply map_m_reads_Ok with (R := λ o t, reads_prefix t [object_pair h o]) in Hp as [-> Hp].
  - apply XM_ret_Ok in Hret as [-> ->]. split; [done|]. destruct (blank_section h d) as [Hb He].
    change (newline_char :: ?u) with ([newline_char] ++ u). apply reads_prefix_blank_l; [apply newline_blank|].
    apply reads_prefix_blank_l; [done|]. apply reads_prefix_blank_r; [done|].
    rewrite <- concat_singletons. apply reads_prefix_concat, Forall2_fmap_r, Forall2_flip. exact Hp.
  - intros o t' h2 _ Ho. destruct (PrintObject_object _ _ _ _ Ho) as [x Hx]. unfold object_pair. rewrite Hx.
    eapply reads_PrintObject; [done|done|by eapply Hread|done].
Qed.

Lemma reads_PrintObjects o h t h' :
  ids_ok h → all_readable h → PrintObjects o h = Ok (t, h') →
  h' = h ∧ ∃ all, Descendants o h = Ok (all, h)
    ∧ reads_prefix t [(chars "objects", PDict (object_pair h <$> concat (snd <$> sections_of h (filter (λ d, d ≠ o) all))))].
Proof.
  intros Hids Hread Hrun. unfold PrintObjects in Hrun. apply XM_bind_Ok in Hrun as (all&h1&Hall&Hrun). apply reads_Descendants in Hall as Hh. subst h1.
  apply XM_bind_Ok in Hrun as (h0&h1&Hh&Hrun). injection Hh as <- <-. apply XM_bind_Ok in Hrun as (sections&h1&Hs&Hret).
  set (live := filter (λ d, d ≠ o) all) in *.
  apply map_m_reads_Ok with (R := λ s t, reads_prefix t (object_pair h <$> s.2)) in Hs as [-> Hs].
  - apply XM_ret_Ok in Hret as [-> ->]. split; [done|]. exists all. split; [done|].
    change (newline_char :: concat sections ++ ?u) with ([newline_char] ++ concat sections ++ u).
    assert (∀ u, tabs_of 1 ++ chars "objects = {" ++ ([newline_char] ++ concat sections ++ tabs_of 1 ++ u)
      = tabs_of 1 ++ chars "objects" ++ chars " = " ++ chars "{" ++ (([newline_char] ++ concat sections) ++ tabs_of 1) ++ u) as Hshape by (intros u; rewrite <- !app_assoc; done).
    rewrite Hshape. clear Hshape.
    assert (∀ v, chars "{" ++ v ++ chars "};" ++ [newline_char] = (chars "{" ++ v ++ chars "}") ++ ";"%char :: [newline_char]) as Hshape by (intros v; rewrite <- !app_assoc; done).
    rewrite Hshape. apply reads_prefix_pair; [apply blank_tabs| | |apply newline_blank].
    + change (chars "objects") with (EncodeString false (chars "objects")) at 1. rewrite <- (read_back_id (chars "objects")) at 2 by by apply (bool_decide_unpack _).
      by apply reads_EncodeString.
    + apply reads_prefix_dict; [|apply blank_tabs]. apply reads_prefix_blank_l; [apply newline_blank|].
      rewrite fmap_concat. apply reads_prefix_concat. apply Forall2_fmap_r, Forall2_fmap_r, Forall2_flip. exact Hs.
  - intros [c members] t' h2 Hin Ht. eapply reads_section; [done|done| |exact Ht].
    apply list_elem_of_fmap in Hin as (c'&[= -> ->]&Hc). rewrite str_sorted_Permutation, elem_of_remove_dups in Hc.
    apply list_elem_of_fmap in Hc as (d&->&_). by exists d.
Qed.

(** The dictionary of the file: the properties of the root, and under objects a pair for each of [live]. *)
Definition file_plist (h : heap) (x : xobject) (pairs : list (text * plist)) : plist :=
  PDict ((λ '(_, (key, v)), if key ==? "objects" then (chars "objects", PDict pairs) else property_plist h x key v)
    <$> sorted_properties (with_property "objects" (XDict []) x)).

Lemma objects_sorted x : (chars "objects", ("objects", XDict [])) ∈ sorted_properties (with_property "objects" (XDict []) x).
Proof.
  unfold sorted_properties. rewrite merge_sort_Permutation. apply (list_elem_of_fmap_2 (λ p, (chars p.1, p)) _ ("objects", XDict [])).
  apply dict_get_In. cbn. apply dict_get_set_eq.
Qed.

Lemma reads_PrintProjectFile_lines o x h lines h' :
  ids_ok h → all_readable h → objects h !! o = Some x →
  map_m (λ '(_, (key, value)), if key ==? "objects" then PrintObjects o else XCKVPrint x 1 key value)
    (sorted_properties (with_property "objects" (XDict []) x)) h = Ok (lines, h') →
  h' = h ∧ ∃ all, Descendants o h = Ok (all, h)
    ∧ reads_value (chars "{" ++ ([newline_char] ++ concat lines) ++ chars "}")
        (file_plist h x (object_pair h <$> concat (snd <$> sections_of h (filter (λ d, d ≠ o) all)))).
Proof.
  intros Hids Hread Hx Hrun.
  assert (∀ key v t h', (key, v) ∈ properties (with_property "objects" (XDict []) x) → key ≠ "objects" → XCKVPrint x 1 key v h = Ok (t, h') →
    h' = h ∧ reads_prefix t [property_plist h x key v]) as Hline.
  { intros key v t h1 Hin Hne Ht. apply reads_XCKVPrint in Ht; [done|done|]. apply elem_of_dict_set in Hin as [[= -> _]|Hin]; [done|].
    apply list_elem_of_In in Hin. by apply (proj1 (forallb_forall _ _) (Hread _ _ Hx)) in Hin. }
  assert (∃ all, Descendants o h = Ok (all, h)) as [all Hall].
  { pose proof Hrun as Hrun'. apply map_m_reads_Ok with (R := λ i _, i.2.1 = "objects" → ∃ all, Descendants o h = Ok (all, h)) in Hrun' as [_ Hl].
    - pose proof (objects_sorted x) as (i&Hi)%list_elem_of_lookup_1. destruct (Forall2_lookup_l _ _ _ _ _ Hl Hi) as (t&_&Ht). by apply Ht.
    - intros [k [key v]] t h1 Hin%sorted_properties_In Ht. cbn [fst snd]. case_bool_decide as Hk.
      + apply reads_PrintObjects in Ht as [-> (all&Hall&_)]; [|done|done]. split; [done|]. by exists all.
      + by apply Hline in Ht as [-> _]. }
  apply (reads_lines (λ key value, if key ==? "objects" then PrintObjects o else XCKVPrint x 1 key value) (λ key v, [if key ==? "objects" then (chars "objects", PDict (object_pair h <$> concat (snd <$> sections_of h (filter (λ d, d ≠ o) all))))
    else property_plist h x key v])) in Hrun as [-> Hl].
  - split; [done|]. exists all. split; [done|]. unfold file_plist. rewrite <- (app_nil_r ([newline_char] ++ concat lines)).
    apply reads_prefix_dict; [|apply blank_nil]. apply reads_prefix_blank_l; [apply newline_blank|].
    rewrite <- concat_singletons. erewrite list_fmap_ext; [exact Hl|]. by intros _ [k [key v]] _.
  - intros k key v t h1 Hin%sorted_properties_In Ht. case_bool_decide as Hk.
    + apply reads_PrintObjects in Ht as [-> (all'&Hall'&Ht)]; [|done|done]. split; [done|]. rewrite Hall in Hall'. injection Hall' as <-. done.
    + by apply Hline.
Qed.

Lemma header_blank : blank (chars "// !$*UTF8*$!" ++ [newline_char]).
Proof. apply (blank_line (chars " !$*UTF8*$!")). apply (bool_decide_unpack _). exact I. Qed.

(** A project file is read back as what it stands for: a dictionary with the properties of the file, and under "objects" every descendant of the
    root exactly once, by its identifier, with its class and properties; blanks, quotes, comments with the names of the objects and the
    sections by class do not matter. *)
Theorem PrintProjectFile_read o x h t h' :
  ids_ok h → all_readable h → objects h !! o = Some x → PrintProjectFile o h = Ok (t, h') →
  h' = h ∧ ∃ all pairs, Descendants o h = Ok (all, h) ∧ pairs ≡ₚ object_pair h <$> filter (λ d, d ≠ o) all
    ∧ ∃ n, ∀ fuel, n ≤ fuel → ∃ rest, read_value fuel t = Some (file_plist h x pairs, rest) ∧ skip Plain rest = [].
Proof.
  intros Hids Hread Hx Hrun. unfold PrintProjectFile in Hrun. apply XM_bind_Ok in Hrun as (u&h1&->%reads_VerifyHasRequiredProperties&Hrun).
  apply XM_bind_Ok in Hrun as (x0&h1&Hget&Hrun). unfold get in Hget. rewrite Hx in Hget. injection Hget as <- <-.
  apply XM_bind_Ok in Hrun as (lines&h1&Hlines&Hret). apply XM_ret_Ok in Hret as [-> ->].
  apply reads_PrintProjectFile_lines in Hlines as [-> (all&Hall&n&Hval)]; [|done..]. split; [done|].
  exists all, (object_pair h <$> concat (snd <$> sections_of h (filter (λ d, d ≠ o) all))).
  split; [done|]. split; [by rewrite sections_Permutation|]. exists n. intros fuel Hf.
  destruct (Hval fuel [newline_char] Hf eq_refl) as (rest&Hrun&Hskip). exists rest. split; [|by rewrite Hskip].
  rewrite <- Hrun. apply read_value_skip. rewrite <- (header_blank ((chars "{" ++ ([newline_char] ++ concat lines) ++ chars "}") ++ [newline_char])).
  f_equal. rewrite <- !app_assoc. done.
Qed.

(** Strings that are not read back: the last newline is lost, the start of a comment swallows what follows, and a return becomes a newline. *)
Example newline_lost : EncodeString false (chars "Yes" ++ [newline_char]) = chars "Yes" ++ [newline_char]
  ∧ read_string (EncodeString false (chars "Yes" ++ [newline_char])) = Some (chars "Yes", [newline_char]).
Proof. by vm_compute. Qed.
Example comment_value : EncodeString false (chars "//server/share") = chars "//server/share"
  ∧ skip Plain (EncodeString false (chars "//server/share") ++ chars "; name = a; }") = [].
Proof. by vm_compute. Qed.
Example return_changed : read_string (EncodeString true (chars "a b" ++ ["013"%char])) = Some (chars "a b" ++ [newline_char], []).
Proof. by vm_compute. Qed.
