(* ===== verification/XcIds.v ===== *)
(** * Identifiers of Xcode objects

    [Hashables], [ComputeIDs] and [EnsureNoIDCollisions] of tools/gyp/pylib/gyp/xcodeproj_file.py.  The hash of Python's library is a parameter: the
    state of a hash is the text it was given, and the digest is five words of 32 bits. *)
From S2P Require Import Prelude PyDict PyStr PyPath XcObject XcPrint.
From Stdlib Require Import Ascii.

Class Sha1 := {
  digest : text → list Z;
  digest_words : ∀ t, length (digest t) = 5 ∧ Forall (λ w, 0 ≤ w < 2 ^ 32)%Z (digest t)
}.

(** ** Hashables *)

(** [PBXProjectAncestor]: the fuel is more than there are objects. *)
Fixpoint project_ancestor (fuel : nat) (o : nat) : XM (option nat) :=
  match fuel with
  | 0 => throw OutOfFuel
  | S fuel =>
      x ← get o;
      if subclass (class_of x) PBXProject then mret (Some o)
      else match parent x with Some p => project_ancestor fuel p | None => mret None end
  end.
Definition PBXProjectAncestor (o : nat) : XM (option nat) := λ h, project_ancestor (S (next h)) o h.

Definition own_hashables (o : nat) (x : xobject) : XM (list text) :=
  name ← name_of o; mret (chars (class_name (class_of x)) :: option_list name ++ hashables x).

Definition is_main_group (o : nat) : XM bool :=
  project ← PBXProjectAncestor o;
  match project with
  | None => throw (AttributeError "_properties")
  | Some p => px ← get p; v ← lift (property "mainGroup" px); mret (bool_decide (v = XObj o))
  end.

(** [XCHierarchicalElement.Hashables] *)
Definition element_hashables (o : nat) : XM (list text) :=
  x ← get o;
  main ← is_main_group o;
  if main : bool then own_hashables o x
  else
    let class_ := chars (class_name (class_of x)) in
    path ← lift (PathFromSourceTreeAndPath x);
    mret (match str_property "name" x with Some name => [class_ ++ chars ".name"; name] | None => [] end
          ++ match path with Some p => mjoin ((λ component, [class_ ++ chars ".path"; component]) <$> lsplit slash p) | None => [] end
          ++ hashables x).

Definition child_names (x : xobject) : XM (list text) :=
  names ← map_m name_of (objects_property "children" x); mret (omap id names).

(** [PathHashables]: those of the elements from the outermost to this one. *)
Fixpoint path_hashables (fuel : nat) (Hashables : nat → XM (list text)) (xche : option nat) (below : list text) : XM (list text) :=
  match fuel, xche with
  | _, None => mret below
  | 0, _ => throw OutOfFuel
  | S fuel, Some o =>
      x ← get o;
      if subclass (class_of x) XCHierarchicalElement then hs ← Hashables o; path_hashables fuel Hashables (parent x) (hs ++ below) else mret below
  end.

Definition all_path_hashables (Hashables : nat → XM (list text)) (o : nat) : XM (list text) := λ h, path_hashables (S (next h)) Hashables (Some o) [] h.
Definition object_at (key : string) (x : xobject) : XM nat := v ← lift (property key x); lift (as_obj v).

Fixpoint Hashables (fuel : nat) (o : nat) : XM (list text) :=
  match fuel with
  | 0 => throw OutOfFuel
  | S fuel =>
      x ← get o;
      let c := class_of x in
      if subclass c PBXGroup then hs ← element_hashables o; names ← child_names x; mret (hs ++ names)
      else if subclass c XCHierarchicalElement then element_hashables o
      else
        hs ← own_hashables o x;
        match c with
        | PBXBuildFile => f ← object_at "fileRef" x; more ← all_path_hashables (Hashables fuel) f; mret (hs ++ more)
        | PBXBuildRule =>
            v ← lift (property "fileType" x); t ← lift (as_str v); mret (hs ++ t :: option_list (str_property "filePatterns" x))
        | PBXContainerItemProxy =>
            portal ← object_at "containerPortal" x; more ← Hashables fuel portal;
            remote ← object_at "remoteGlobalIDString" x; more' ← Hashables fuel remote; mret (hs ++ more ++ more')
        | PBXTargetDependency => proxy ← object_at "targetProxy" x; more ← Hashables fuel proxy; mret (hs ++ more)
        | _ => mret hs
        end
  end.
(** A dependency looks at its proxy, and that at a target or a file. *)
Definition hashables_of (o : nat) : XM (list text) := Hashables 4 o.

Definition HashablesForChild (o : nat) : XM (option (list text)) :=
  x ← get o; if subclass (class_of x) PBXGroup then hs ← element_hashables o; mret (Some hs) else mret None.

(** ** Identifiers *)

(** [struct.pack('>i', n)] *)
Definition pack (n : nat) : result text :=
  if (Z.of_nat n <? 2 ^ 31)%Z
  then Ok ((λ shift, ascii_of_N (Z.to_N (Z.land (Z.shiftr (Z.of_nat n) shift) 255))) <$> [24; 16; 8; 0]%Z)
  else Err (ValueError "struct.error").

Definition HashUpdate (hash data : text) : result text := len ← pack (length data); Ok (hash ++ len ++ data).
Fixpoint hash_all (hash : text) (hs : list text) : result text :=
  match hs with [] => Ok hash | h :: hs => hash ← HashUpdate hash h; hash_all hash hs end.

Definition upper_hex (n : Z) : ascii := if (n <? 10)%Z then ascii_of_nat (48 + Z.to_nat n) else ascii_of_nat (55 + Z.to_nat n).
(** [%08X] of a word *)
Definition word_hex (w : Z) : text := (λ i, upper_hex (Z.land (Z.shiftr w (4 * i)) 15)) <$> [7; 6; 5; 4; 3; 2; 1; 0]%Z.

Section ids.
Context `{Sha1}.

(** The words of the digest, exclusively or'ed into three. *)
Definition id_ints (words : list Z) : list Z :=
  let word i := nth i words 0%Z in [Z.lxor (word 0) (word 3); Z.lxor (word 1) (word 4); word 2].
Definition id_of (hash : text) : text := mjoin (word_hex <$> id_ints (digest hash)).

Fixpoint ComputeIDs (fuel : nat) (recursive overwrite : bool) (seed_hash : text) (o : nat) : XM unit :=
  match fuel with
  | 0 => throw OutOfFuel
  | S fuel =>
      hs ← hashables_of o;
      if bool_decide (hs = []) then throw AssertionError
      else
        hash ← lift (hash_all seed_hash hs);
        _ ← (if recursive then
               for_child ← HashablesForChild o;
               child_hash ← (match for_child with
                             | None => mret hash
                             | Some [] => throw AssertionError
                             | Some hs => lift (hash_all seed_hash hs)
                             end);
               x ← get o;
               for_m (Children x) (ComputeIDs fuel recursive overwrite child_hash)
             else mret tt);
        x ← get o;
        if overwrite || bool_decide (xid x = None) then modify o (with_id (Some (id_of hash))) else mret tt
  end.

(** [XCProjectFile.ComputeIDs]: the file itself has no identifier. *)
Definition compute_ids (recursive overwrite : bool) (root : nat) : XM unit := λ h, ComputeIDs (S (next h)) recursive overwrite [] root h.
Definition ComputeProjectIDs (recursive overwrite : bool) (o : nat) : XM unit :=
  x ← get o;
  if recursive then root ← object_at "rootObject" x; compute_ids recursive overwrite root else mret tt.
End ids.

(** [EnsureNoIDCollisions]: the identifiers seen so far. *)
Fixpoint check_ids (all : list nat) (ids : list (option text)) : XM unit :=
  match all with
  | [] => mret tt
  | d :: all => x ← get d; if xid x in? ids then throw (KeyError "Duplicate ID") else check_ids all (xid x :: ids)
  end.
Definition EnsureNoIDCollisions (o : nat) : XM unit := all ← Descendants o; check_ids all [].

(** * Theorems *)

(** ** Hashes

    The lengths before the texts make the hashed bytes determine the texts. *)

Definition unpack (t : text) : Z := foldl (λ n c, n * 256 + Z.of_N (N_of_ascii c))%Z 0%Z t.

Lemma bytes_of (z : Z) : (0 ≤ z)%Z → (z < 2 ^ 31)%Z →
  ((((0 * 256 + (z / 2 ^ 24) mod 256) * 256 + (z / 2 ^ 16) mod 256) * 256 + (z / 2 ^ 8) mod 256) * 256 + (z / 2 ^ 0) mod 256)%Z = z.
Proof.
  intros Hz Hlt. change (2 ^ 24)%Z with (256 * 256 * 256)%Z. change (2 ^ 16)%Z with (256 * 256)%Z. change (2 ^ 8)%Z with 256%Z. change (2 ^ 0)%Z with 1%Z.
  change (2 ^ 31)%Z with (256 * 256 * 256 * 128)%Z in Hlt. rewrite <- !Z.div_div, Z.div_1_r by lia.
  set (q1 := (z / 256)%Z). set (q2 := (q1 / 256)%Z). set (q3 := (q2 / 256)%Z).
  pose proof (Z.div_mod z 256 ltac:(lia)) as H1. pose proof (Z.div_mod q1 256 ltac:(lia)) as H2. pose proof (Z.div_mod q2 256 ltac:(lia)) as H3.
  fold q1 in H1. fold q2 in H2. fold q3 in H3.
  assert (0 ≤ q1 < 256 * 256 * 128)%Z as Hq1 by (subst q1; split; [by apply Z.div_pos|apply Z.div_lt_upper_bound; lia]).
  assert (0 ≤ q2 < 256 * 128)%Z as Hq2 by (subst q2; split; [apply Z.div_pos; lia|apply Z.div_lt_upper_bound; lia]).
  assert (0 ≤ q3 < 128)%Z as Hq3 by (subst q3; split; [apply Z.div_pos; lia|apply Z.div_lt_upper_bound; lia]).
  rewrite (Z.mod_small q3) by lia. clearbody q1 q2 q3. revert H1 H2 H3. generalize (z mod 256)%Z, (q1 mod 256)%Z, (q2 mod 256)%Z. intros. lia.
Qed.

Lemma unpack_pack n t : pack n = Ok t → length t = 4 ∧ unpack t = Z.of_nat n.
Proof.
  unfold pack. destruct (Z.ltb_spec (Z.of_nat n) (2 ^ 31)) as [Hn|]; [|done]. intros <-%Ok_inj. split; [done|].
  assert (∀ shift, (0 ≤ shift)%Z → Z.of_N (N_of_ascii (ascii_of_N (Z.to_N (Z.land (Z.shiftr (Z.of_nat n) shift) 255)))) = (Z.of_nat n / 2 ^ shift) mod 256)%Z as Hbyte.
  { intros shift Hs. change 255%Z with (Z.ones 8). rewrite Z.land_ones, Z.shiftr_div_pow2 by lia. change (2 ^ 8)%Z with 256%Z.
    pose proof (Z.mod_pos_bound (Z.of_nat n / 2 ^ shift) 256 ltac:(lia)) as Hb. revert Hb. generalize ((Z.of_nat n / 2 ^ shift) mod 256)%Z. intros m Hb. rewrite N_ascii_embedding by lia. lia. }
  unfold unpack. cbn [fmap list_fmap foldl]. rewrite !Hbyte by done. apply bytes_of; lia.
Qed.

Fixpoint encode (hs : list text) : result text :=
  match hs with [] => Ok [] | h :: hs => len ← pack (length h); rest ← encode hs; Ok (len ++ h ++ rest) end.

Lemma hash_all_encode hash hs t : hash_all hash hs = Ok t ↔ ∃ e, encode hs = Ok e ∧ t = hash ++ e.
Proof.
  revert hash. induction hs as [|h hs IH]; intros hash; cbn [hash_all encode].
  - split; [intros [= ->]; exists []; by rewrite app_nil_r|]. intros (e&[= <-]&->). by rewrite app_nil_r.
  - unfold HashUpdate. destruct (pack (length h)) as [len|e]; [|by split; [|intros (?&?&?)]]. cbn [mbind result_bind]. rewrite IH. split.
    + intros (e&He&->). exists (len ++ h ++ e). rewrite He. cbn [mbind result_bind]. by rewrite <- !app_assoc.
    + intros (e&He&->). apply bind_Ok in He as (rest&Hrest&[= <-]). exists rest. by rewrite <- !app_assoc.
Qed.

Lemma encode_inj hs hs' e : encode hs = Ok e → encode hs' = Ok e → hs = hs'.
Proof.
  revert hs' e. induction hs as [|h hs IH]; intros [|h' hs'] e He He'; cbn [encode] in *; [done| | |].
  - injection He as <-. apply bind_Ok in He' as (len&[Hl _]%unpack_pack&(rest&_&[=Heq])%bind_Ok). by destruct len.
  - injection He' as <-. apply bind_Ok in He as (len&[Hl _]%unpack_pack&(rest&_&[=Heq])%bind_Ok). by destruct len.
  - apply bind_Ok in He as (len&[Hl Hu]%unpack_pack&(rest&Hrest&[=<-])%bind_Ok).
    apply bind_Ok in He' as (len'&[Hl' Hu']%unpack_pack&(rest'&Hrest'&[=Heq])%bind_Ok).
    apply app_inj_1 in Heq as [-> Heq]; [|congruence]. rewrite Hu in Hu'.
    apply app_inj_1 in Heq as [-> ->]; [|lia]. f_equal. by eapply IH.
Qed.

Lemma hash_all_app hash hs hs' : hash_all hash (hs ++ hs') = (hash ← hash_all hash hs; hash_all hash hs').
Proof.
  revert hash. induction hs as [|h hs IH]; intros hash; [done|]. cbn [app hash_all]. destruct (HashUpdate hash h); [|done]. apply IH.
Qed.

(** What is hashed for an object determines the list of all hashables on the path to it: texts with the same bytes are the same lists, so
    objects whose hashables differ anywhere can share an identifier only if the hash function itself collides. *)
Theorem hash_all_injective hs hs' t : hash_all [] hs = Ok t → hash_all [] hs' = Ok t → hs = hs'.
Proof. intros (e&He&->)%hash_all_encode (e'&He'&Heq)%hash_all_encode. cbn [app] in Heq. subst. by eapply encode_inj. Qed.

(** Texts run together would be the same; with their lengths they are not. *)
Example hashed_lengths :
  hash_all [] [chars "PBXGroup"; chars "ab"] ≠ hash_all [] [chars "PBXGroup"; chars "a"; chars "b"].
Proof. by vm_compute. Qed.

(** ** Identifiers

    The objects keep everything but their identifiers, and what is hashed for them does not depend on these. *)
Definition same_but_ids (h h' : heap) : Prop := next h = next h' ∧ ∀ o, with_id None <$> objects h !! o = with_id None <$> objects h' !! o.
#[export] Instance same_but_ids_equivalence : Equivalence same_but_ids.
Proof.
  split; [by intros h|by intros h h' [Hn Ho]; split; [|intros o; rewrite Ho]|]. intros h1 h2 h3 [Hn Ho] [Hn' Ho']. split; [by rewrite Hn|].
  intros o. by rewrite Ho.
Qed.

Lemma same_but_ids_get h h' o x : same_but_ids h h' → objects h !! o = Some x → ∃ i, objects h' !! o = Some (with_id i x).
Proof.
  intros [_ Ho] Hx. specialize (Ho o). rewrite Hx in Ho. destruct (objects h' !! o) as [x'|]; [|done]. cbn in Ho. exists (xid x').
  f_equal. destruct x, x'. cbn in *. by simplify_eq.
Qed.

Lemma same_but_ids_with_id h o x i : objects h !! o = Some x → same_but_ids h (Heap (<[o := with_id i x]> (objects h)) (next h)).
Proof.
  intros Hx. split; [done|]. intros o'. cbn [objects]. destruct (decide (o' = o)) as [->|Hne]; [by rewrite lookup_insert_eq, Hx|by rewrite lookup_insert_ne].
Qed.

Definition blind {A} (m : XM A) : Prop := ∀ h h' a h1, same_but_ids h h' → m h = Ok (a, h1) → h1 = h ∧ m h' = Ok (a, h').

Lemma blind_ret {A} (a : A) : blind (mret a).
Proof. by intros h h' b h1 _ [-> ->]%XM_ret_Ok. Qed.
Lemma blind_throw {A} e : blind (throw e : XM A).
Proof. by intros h h' b h1 _. Qed.
Lemma blind_lift {A} (r : result A) : blind (lift r).
Proof. intros h h' b h1 _. unfold lift. destruct r; [|done]. by intros [= -> ->]. Qed.
Lemma blind_bind {A B} (m : XM A) (f : A → XM B) : blind m → (∀ a, blind (f a)) → blind (m ≫= f).
Proof.
  intros Hm Hf h h' b h1 Hh (a&h2&Ha&Hb)%XM_bind_Ok. destruct (Hm _ _ _ _ Hh Ha) as [-> Ha']. destruct (Hf _ _ _ _ _ Hh Hb) as [-> Hb'].
  split; [done|]. unfold mbind, XM_bind. by rewrite Ha'.
Qed.
Lemma blind_get {A} o (f : xobject → XM A) : (∀ i x, f (with_id i x) = f x) → (∀ x, blind (f x)) → blind (get o ≫= f).
Proof.
  intros Hi Hf h h' a h1 Hh (x&h2&Hget&Hrun)%XM_bind_Ok. unfold get in Hget. destruct (objects h !! o) as [x0|] eqn:Hx; [|done].
  injection Hget as -> <-. destruct (same_but_ids_get _ _ _ _ Hh Hx) as [i Hx']. destruct (Hf _ _ _ _ _ Hh Hrun) as [-> Hrun']. split; [done|].
  unfold mbind, XM_bind, get. by rewrite Hx', Hi.
Qed.
Lemma blind_map_m {A B} (f : A → XM B) l : (∀ a, blind (f a)) → blind (map_m f l).
Proof. intros Hf. induction l; cbn [map_m]; [apply blind_ret|]. apply blind_bind; [apply Hf|]. intros. apply blind_bind; [done|]. intros. apply blind_ret. Qed.
Lemma blind_next {A} (f : nat → XM A) : (∀ n, blind (f n)) → blind (λ h, f (next h) h).
Proof. intros Hf h h' a h1 Hh Hrun. destruct (Hf _ _ _ _ _ Hh Hrun) as [-> Hrun']. split; [done|]. destruct Hh as [<- _]. done. Qed.

Create HintDb blind.
#[local] Hint Resolve blind_ret blind_throw blind_lift blind_map_m : blind.
Ltac blind_step :=
  lazymatch goal with
  | |- blind (get _ ≫= _) => apply blind_get; [by intros|intros]
  | |- blind (_ ≫= _) => apply blind_bind; [|intros]
  | |- blind (match ?x with _ => _ end) => destruct x
  | |- blind _ => solve [auto with blind]
  end.
Ltac blind_tac := repeat blind_step.

Lemma blind_Name fuel o : blind (Name fuel o).
Proof. revert o. induction fuel as [|fuel IH]; intros o; cbn [Name]; [apply blind_throw|]. blind_tac. Qed.
Lemma blind_name_of o : blind (name_of o).
Proof. apply (blind_next (λ n, Name (S n) o)). intros. apply blind_Name. Qed.
Lemma blind_project_ancestor fuel o : blind (project_ancestor fuel o).
Proof. revert o. induction fuel as [|fuel IH]; intros o; cbn [project_ancestor]; [apply blind_throw|]. blind_tac. Qed.
Lemma blind_PBXProjectAncestor o : blind (PBXProjectAncestor o).
Proof. apply (blind_next (λ n, project_ancestor (S n) o)). intros. apply blind_project_ancestor. Qed.
#[local] Hint Resolve blind_name_of blind_PBXProjectAncestor : blind.
Lemma blind_is_main_group o : blind (is_main_group o).
Proof. unfold is_main_group. blind_tac. Qed.
Lemma blind_own_hashables o x : blind (own_hashables o x).
Proof. unfold own_hashables. blind_tac. Qed.
#[local] Hint Resolve blind_is_main_group blind_own_hashables : blind.
Lemma blind_element_hashables o : blind (element_hashables o).
Proof. unfold element_hashables. blind_tac. Qed.
Lemma blind_child_names x : blind (child_names x).
Proof. unfold child_names. blind_tac. Qed.
Lemma blind_object_at key x : blind (object_at key x).
Proof. unfold object_at. blind_tac. Qed.
#[local] Hint Resolve blind_element_hashables blind_child_names blind_object_at : blind.
Lemma blind_all_path_hashables (f : nat → XM (list text)) o : (∀ o, blind (f o)) → blind (all_path_hashables f o).
Proof.
  intros Hf. apply (blind_next (λ n, path_hashables (S n) f (Some o) [])). intros n. generalize (S n), (Some o), (@nil text).
  intros fuel. induction fuel as [|fuel IH]; intros [o'|] below; cbn [path_hashables]; blind_tac.
Qed.
#[local] Hint Resolve blind_all_path_hashables : blind.
Lemma blind_Hashables fuel o : blind (Hashables fuel o).
Proof. revert o. induction fuel as [|fuel IH]; intros o; cbn [Hashables]; cbn zeta; [apply blind_throw|]. blind_tac. Qed.
Lemma blind_HashablesForChild o : blind (HashablesForChild o).
Proof. unfold HashablesForChild. blind_tac. Qed.
Lemma blind_descendants fuel o : blind (descendants fuel o).
Proof. revert o. induction fuel as [|fuel IH]; intros o; cbn [descendants]; [apply blind_throw|]. blind_tac. Qed.

(** The texts that are hashed for an object, on a path down from another: what each object on the way passes on, then its own. *)
Definition passed_on (h : heap) (o : nat) (hs : list text) : Prop :=
  HashablesForChild o h = Ok (Some hs, h) ∨ HashablesForChild o h = Ok (None, h) ∧ hashables_of o h = Ok (hs, h).
Inductive hashed (h : heap) : nat → nat → list text → Prop :=
  | hashed_here o hs : hashables_of o h = Ok (hs, h) → hashed h o o hs
  | hashed_below o x c d hs l : objects h !! o = Some x → c ∈ Children x → passed_on h o hs → hashed h c d l → hashed h o d (hs ++ l).

Lemma hashed_same h h' o d l : same_but_ids h h' → hashed h o d l → hashed h' o d l.
Proof.
  intros Hh. induction 1 as [o hs Hhs|o x c d hs l Hx Hc Hpass _ IH].
  - apply hashed_here. by apply (blind_Hashables _ _ _ _ _ _ Hh Hhs).
  - destruct (same_but_ids_get _ _ _ _ Hh Hx) as [i Hx']. apply (hashed_below _ _ _ c _ _ _ Hx'); [done| |done].
    destruct Hpass as [Hp|[Hp Hhs]]; [left|right; split]; (eapply blind_HashablesForChild || eapply blind_Hashables); done.
Qed.

Definition id_at (h : heap) (o : nat) : option text := x ← objects h !! o; xid x.
Lemma id_at_lookup h o x : objects h !! o = Some x → id_at h o = xid x.
Proof. unfold id_at. by intros ->. Qed.
Definition is_id (i : text) : Prop := length i = 24 ∧ ∀ c, c ∈ i → c ∈ chars "0123456789ABCDEF".

Lemma upper_hex_digit w i : upper_hex (Z.land (Z.shiftr w i) 15) ∈ chars "0123456789ABCDEF".
Proof.
  change 15%Z with (Z.ones 4). rewrite Z.land_ones by lia. pose proof (Z.mod_pos_bound (Z.shiftr w i) (2 ^ 4) ltac:(lia)) as Hb. revert Hb.
  generalize (Z.shiftr w i mod 2 ^ 4)%Z. intros n Hb. change (2 ^ 4)%Z with 16%Z in Hb.
  assert (n ∈ seqZ 0 16) as Hin by (apply elem_of_seqZ; lia). cbn in Hin.
  repeat (apply elem_of_cons in Hin as [->|Hin]; [apply (bool_decide_unpack _); exact I|]). by apply elem_of_nil in Hin.
Qed.

Section ids.
Context `{Sha1}.

Lemma id_of_is_id e : is_id (id_of e).
Proof.
  split; [reflexivity|]. intros c. unfold id_of, id_ints. cbn [fmap list_fmap mjoin list_join]. rewrite !elem_of_app.
  assert (∀ w, c ∈ word_hex w → c ∈ chars "0123456789ABCDEF") as Hw by (by intros w (i&->&_)%list_elem_of_fmap; apply upper_hex_digit).
  intros [Hc|[Hc|[Hc|Hc%elem_of_nil]]]; [by eapply Hw..|done].
Qed.

(** The identifier of [d] is that of the texts on a path to it. *)
Definition identified (h : heap) (seed : text) (o : nat) (h' : heap) (d : nat) : Prop :=
  ∃ l e, hashed h o d l ∧ hash_all seed l = Ok e ∧ id_at h' d = Some (id_of e).
(** What [ComputeIDs] does: nothing but giving identifiers, and these to all [ds]. *)
Definition computes (seed : text) (os ds : list nat) (h h' : heap) : Prop :=
  same_but_ids h h' ∧ (∀ d, id_at h' d = id_at h d ∨ ∃ o, o ∈ os ∧ identified h seed o h' d) ∧ (∀ d, d ∈ ds → ∃ o, o ∈ os ∧ identified h seed o h' d).

Lemma identified_same h0 h seed o h' d : same_but_ids h0 h → identified h seed o h' d → identified h0 seed o h' d.
Proof. intros Hh (l&e&Hl&He&Hid). exists l, e. split_and!; [|done..]. eapply hashed_same; [by symmetry|done]. Qed.
Lemma identified_eq h seed o h1 h2 d : id_at h2 d = id_at h1 d → identified h seed o h1 d → identified h seed o h2 d.
Proof. intros Heq (l&e&Hl&He&Hid). exists l, e. by rewrite Heq. Qed.

Lemma computes_app seed os1 os2 ds1 ds2 h h1 h2 : computes seed os1 ds1 h h1 → computes seed os2 ds2 h1 h2 → computes seed (os1 ++ os2) (ds1 ++ ds2) h h2.
Proof.
  intros (Hh1&Hany1&Hds1) (Hh2&Hany2&Hds2).
  assert (∀ d, (∃ o, o ∈ os2 ∧ identified h1 seed o h2 d) → ∃ o, o ∈ os1 ++ os2 ∧ identified h seed o h2 d) as H2.
  { intros d (o&Ho&Hid). exists o. split; [set_solver|]. by eapply identified_same. }
  assert (∀ d, (∃ o, o ∈ os1 ∧ identified h seed o h1 d) → id_at h2 d = id_at h1 d → ∃ o, o ∈ os1 ++ os2 ∧ identified h seed o h2 d) as H1.
  { intros d (o&Ho&Hid) Heq. exists o. split; [set_solver|]. by eapply identified_eq. }
  split_and!; [by etrans| |].
  - intros d. destruct (Hany2 d) as [Heq|Hd]; [|right; by apply H2]. destruct (Hany1 d) as [Heq'|Hd]; [left; by rewrite Heq|right; by apply H1].
  - intros d [Hd|Hd]%elem_of_app; [|by apply H2, Hds2]. destruct (Hany2 d) as [Heq|Hd2]; [by apply H1; [apply Hds1|]|by apply H2].
Qed.

Lemma computes_nil seed h : computes seed [] [] h h.
Proof. split_and!; [done|by left|]. by intros d ?%elem_of_nil. Qed.

(** The children one after the other *)
Lemma computes_for_m fuel f w seed cs h h' :
  (∀ c h h', ComputeIDs fuel true w seed c h = Ok (tt, h') → ∀ all, descendants f c h = Ok (all, h) → computes seed [c] all h h') →
  for_m cs (ComputeIDs fuel true w seed) h = Ok (tt, h') →
  ∀ alls, map_m (descendants f) cs h = Ok (alls, h) → computes seed cs (concat alls) h h'.
Proof.
  intros Hone. revert h. induction cs as [|c cs IH]; intros h Hrun alls Hall; cbn [for_m map_m] in *.
  - apply XM_ret_Ok in Hrun as [_ ->]. apply XM_ret_Ok in Hall as [-> _]. apply computes_nil.
  - apply XM_bind_Ok in Hrun as ([]&h1&Hc&Hrun). apply XM_bind_Ok in Hall as (all&h0&Hd&Hall). apply reads_descendants in Hd as Hh0. subst h0.
    apply XM_bind_Ok in Hall as (alls'&h0&Hds&Hret). apply XM_ret_Ok in Hret as [-> <-].
    pose proof (Hone _ _ _ Hc _ Hd) as H1. apply (computes_app seed [c] cs all (concat alls') h h1); [done|]. apply IH; [done|].
    destruct H1 as [Hh _]. eapply (blind_map_m (descendants f)); [intros; apply blind_descendants|exact Hh|exact Hds].
Qed.

Lemma id_at_insert h o d x i : objects h !! o = Some x →
  id_at (Heap (<[o := with_id i x]> (objects h)) (next h)) d = if decide (d = o) then i else id_at h d.
Proof.
  intros Hx. unfold id_at. cbn [objects]. destruct (decide (d = o)) as [->|Hne]; [by rewrite lookup_insert_eq|by rewrite lookup_insert_ne].
Qed.

(** Giving the object its own identifier, after those below it. *)
Lemma computes_modify h seed o h1 hs e ds h2 :
  hashables_of o h = Ok (hs, h) → hash_all seed hs = Ok e →
  same_but_ids h h1 → (∀ d, id_at h1 d = id_at h d ∨ identified h seed o h1 d) → (∀ d, d ∈ ds → identified h seed o h1 d) →
  modify o (with_id (Some (id_of e))) h1 = Ok (tt, h2) →
  computes seed [o] (o :: ds) h h2.
Proof.
  intros Hhs He Hh Hany Hds Hrun. unfold modify in Hrun. apply XM_bind_Ok in Hrun as (x&h0&Hget&Hput). unfold get in Hget.
  destruct (objects h1 !! o) as [x0|] eqn:Hx; [|done]. injection Hget as -> <-. injection Hput as <-.
  set (h2 := Heap _ _).
  assert (∀ d, d = o ∨ id_at h2 d = id_at h1 d) as Hid.
  { intros d. subst h2. rewrite id_at_insert by done. case_decide; [by left|by right]. }
  assert (identified h seed o h2 o) as Ho.
  { exists hs, e. split_and!; [by apply hashed_here|done|]. subst h2. rewrite id_at_insert by done. by rewrite decide_True. }
  split_and!.
  - etrans; [exact Hh|]. by apply same_but_ids_with_id.
  - intros d. destruct (Hid d) as [->|Heq]; [right; exists o; split; [by left|done]|].
    destruct (Hany d) as [Heq'|Hd]; [left; by rewrite Heq|]. right. exists o. split; [by left|]. by eapply identified_eq.
  - intros d Hd. exists o. split; [by left|]. destruct (Hid d) as [->|Heq]; [done|]. apply elem_of_cons in Hd as [->|Hd]; [done|].
    eapply identified_eq; [exact Heq|by apply Hds].
Qed.

Lemma identified_below h seed o x c d hs mid h' :
  objects h !! o = Some x → c ∈ Children x → passed_on h o hs → hash_all seed hs = Ok mid →
  identified h mid c h' d → identified h seed o h' d.
Proof.
  intros Hx Hc Hp Hmid (l&e&Hl&He&Hid). exists (hs ++ l), e. split_and!; [by eapply hashed_below| |done]. by rewrite hash_all_app, Hmid.
Qed.

Lemma ComputeIDs_computes fuel f seed o h h' all :
  ComputeIDs fuel true true seed o h = Ok (tt, h') → descendants f o h = Ok (all, h) → computes seed [o] all h h'.
Proof.
  revert f seed o h h' all. induction fuel as [|fuel IH]; intros f seed o h h' all Hrun Hall; [done|]. cbn [ComputeIDs] in Hrun.
  apply XM_bind_Ok in Hrun as (hs&h0&Hhs&Hrun).
  destruct (blind_Hashables _ _ h h _ _ (reflexivity h) Hhs) as [-> _].
  case_bool_decide as Hne; [done|]. apply XM_bind_Ok in Hrun as (e&h0&He&Hrun).
  unfold lift in He. destruct (hash_all seed hs) as [e'|] eqn:Hhash; [|done]. injection He as -> <-.
  apply XM_bind_Ok in Hrun as ([]&h1&Hbelow&Hrun). cbn [orb] in Hrun.
  apply XM_bind_Ok in Hrun as (x1&h0&Hget1&Hmod). unfold get in Hget1. destruct (objects h1 !! o) as [x1'|] eqn:Hx1; [|done]. injection Hget1 as -> <-.
  destruct f as [|f]; [done|]. cbn [descendants] in Hall. apply XM_bind_Ok in Hall as (x&h0&Hget&Hall). unfold get in Hget.
  destruct (objects h !! o) as [x'|] eqn:Hx; [|done]. injection Hget as -> <-. apply XM_bind_Ok in Hall as (alls&h0&Hds&Hret). apply XM_ret_Ok in Hret as [-> <-].
  assert (∃ hs' mid, passed_on h o hs' ∧ hash_all seed hs' = Ok mid ∧ for_m (Children x) (ComputeIDs fuel true true mid) h = Ok (tt, h1)) as (hs'&mid&Hp&Hmid&Hfor).
  { apply XM_bind_Ok in Hbelow as (for_child&h0&Hfc&Hbelow). destruct (blind_HashablesForChild _ h h _ _ (reflexivity h) Hfc) as [-> _].
    apply XM_bind_Ok in Hbelow as (mid&h0&Hmid&Hbelow). apply XM_bind_Ok in Hbelow as (x0&h2&Hget&Hbelow).
    destruct for_child as [[|c hs']|]; [done| |].
    - unfold lift in Hmid. destruct (hash_all seed (c :: hs')) as [m|] eqn:Hm; [|done]. injection Hmid as -> <-. unfold get in Hget. rewrite Hx in Hget.
      injection Hget as <- <-. exists (c :: hs'), mid. by split_and!; [left|..].
    - apply XM_ret_Ok in Hmid as [-> ->]. unfold get in Hget. rewrite Hx in Hget. injection Hget as <- <-. exists hs, e. by split_and!; [right|..]. }
  eapply computes_for_m in Hfor as (Hh&Hany&Hall'); [|intros; by eapply IH|exact Hds].
  eapply computes_modify; [exact Hhs|exact Hhash|exact Hh| | |exact Hmod].
  - intros d. destruct (Hany d) as [Heq|(c&Hc&Hd)]; [by left|right]. by eapply identified_below.
  - intros d (c&Hc&Hd)%Hall'. by eapply identified_below.
Qed.

Lemma same_for_m {A} (l : list A) (body : A → XM unit) h h' :
  (∀ a h h', body a h = Ok (tt, h') → same_but_ids h h') → for_m l body h = Ok (tt, h') → same_but_ids h h'.
Proof.
  intros Hbody. revert h. induction l as [|a l IH]; intros h Hrun; cbn [for_m] in Hrun; [by apply XM_ret_Ok in Hrun as [_ ->]|].
  apply XM_bind_Ok in Hrun as ([]&h1&Ha&Hrun). etrans; [by eapply Hbody|by apply IH].
Qed.

(** Whatever is passed, only identifiers change. *)
Lemma ComputeIDs_same fuel r w seed o h h' : ComputeIDs fuel r w seed o h = Ok (tt, h') → same_but_ids h h'.
Proof.
  revert seed o h h'. induction fuel as [|fuel IH]; intros seed o h h' Hrun; [done|]. cbn [ComputeIDs] in Hrun.
  apply XM_bind_Ok in Hrun as (hs&h0&Hhs&Hrun). destruct (blind_Hashables _ _ h h _ _ (reflexivity h) Hhs) as [-> _].
  case_bool_decide; [done|]. apply XM_bind_Ok in Hrun as (e&h0&He&Hrun). apply (blind_lift _ h h _ _ (reflexivity h)) in He as [-> _].
  apply XM_bind_Ok in Hrun as ([]&h1&Hbelow&Hrun). etrans; [clear Hrun|clear Hbelow].
  - destruct r; [|by apply XM_ret_Ok in Hbelow as [_ ->]]. apply XM_bind_Ok in Hbelow as (for_child&h0&Hfc&Hbelow).
    destruct (blind_HashablesForChild _ h h _ _ (reflexivity h) Hfc) as [-> _]. apply XM_bind_Ok in Hbelow as (mid&h0&Hmid&Hbelow).
    assert (h0 = h) as ->.
    { destruct for_child as [[|? ?]|]; [done|by apply (blind_lift _ h h _ _ (reflexivity h)) in Hmid as [-> _]|by apply XM_ret_Ok in Hmid as [_ ->]]. }
    apply XM_bind_Ok in Hbelow as (x&h0&Hget&Hfor). assert (h0 = h) as -> by (unfold get in Hget; destruct (objects h !! o); by simplify_eq).
    eapply same_for_m; [|exact Hfor]. intros. by eapply IH.
  - apply XM_bind_Ok in Hrun as (x&h0&Hget&Hmod). assert (h0 = h1) as -> by (unfold get in Hget; destruct (objects h1 !! o); by simplify_eq).
    destruct (_ || _); [|by apply XM_ret_Ok in Hmod as [_ ->]]. unfold modify in Hmod. apply XM_bind_Ok in Hmod as (x0&h0&Hget0&Hput). unfold get in Hget0.
    destruct (objects h1 !! o) as [x0'|] eqn:Hx; [|done]. injection Hget0 as -> <-. injection Hput as <-. by apply same_but_ids_with_id.
Qed.

Lemma ComputeProjectIDs_run o h h' :
  ComputeProjectIDs true true o h = Ok (tt, h') →
  ∃ x root, objects h !! o = Some x ∧ dict_get (properties x) "rootObject" = Some (XObj root) ∧ ComputeIDs (S (next h)) true true [] root h = Ok (tt, h').
Proof.
  intros Hrun. unfold ComputeProjectIDs in Hrun. apply XM_bind_Ok in Hrun as (x&h0&Hget&Hrun). unfold get in Hget.
  destruct (objects h !! o) as [x'|] eqn:Hx; [|done]. injection Hget as -> <-. apply XM_bind_Ok in Hrun as (root&h0&Hroot&Hrun).
  unfold object_at in Hroot. apply XM_bind_Ok in Hroot as (v&h1&Hv&Hroot). unfold lift, property in Hv, Hroot.
  destruct (dict_get (properties x) "rootObject") as [w|] eqn:Hw; [|done]. injection Hv as -> <-. destruct v as [r| | | |]; try done. injection Hroot as -> <-.
  by exists x, root.
Qed.

(** C38: computing the identifiers of a project changes nothing else, and gives every object below the root the folded hash of the texts on a
    path from the root to it: what each object on the path passes on to its children, then what the object adds, whatever identifiers there
    were before.  The bytes that are hashed determine this list of texts, so objects with different lists have the same identifier only
    if the hashes, folded to 24 digits, collide. *)
Theorem ComputeProjectIDs_correct o h h' :
  ComputeProjectIDs true true o h = Ok (tt, h') →
  same_but_ids h h' ∧ ∃ x root, objects h !! o = Some x ∧ dict_get (properties x) "rootObject" = Some (XObj root)
  ∧ ∀ fuel all d, descendants fuel root h = Ok (all, h) → d ∈ all →
    ∃ l e, hashed h root d l ∧ hash_all [] l = Ok e ∧ id_at h' d = Some (id_of e) ∧ is_id (id_of e) ∧ ∀ l', hash_all [] l' = Ok e → l' = l.
Proof.
  intros (x&root&Hx&Hroot&Hrun)%ComputeProjectIDs_run.
  assert (same_but_ids h h') as Hh.
  { by eapply ComputeIDs_same. }
  split; [done|]. exists x, root. split_and!; [done..|]. intros fuel all d Hall Hd.
  destruct (ComputeIDs_computes _ _ _ _ _ _ _ Hrun Hall) as (_&_&Hds). destruct (Hds d Hd) as (o'&->%list_elem_of_singleton&l&e&Hl&He&Hid).
  exists l, e. split_and!; [done..|apply id_of_is_id|]. intros l' He'. by eapply hash_all_injective.
Qed.

(** ** Writing a project *)

Lemma check_ids_NoDup all ids h h' : check_ids all ids h = Ok (tt, h') →
  h' = h ∧ NoDup (id_at h <$> all) ∧ ∀ d, d ∈ all → id_at h d ∉ ids.
Proof.
  revert ids. induction all as [|d all IH]; intros ids Hrun; cbn [check_ids] in Hrun.
  - apply XM_ret_Ok in Hrun as [_ ->]. split_and!; [done|constructor|]. by intros d ?%elem_of_nil.
  - apply XM_bind_Ok in Hrun as (x&h0&Hget&Hrun). unfold get in Hget. destruct (objects h !! d) as [x'|] eqn:Hx; [|done]. injection Hget as -> <-.
    case_bool_decide as Hin; [done|]. apply IH in Hrun as (->&Hnd&Hids).
    assert (id_at h d = xid x) as Hid by (unfold id_at; by rewrite Hx).
    split_and!; [done| |].
    + cbn [fmap list_fmap]. constructor; [|done]. intros (d'&Heq&Hd')%list_elem_of_fmap. apply (Hids d' Hd'). rewrite <- Heq, Hid. by left.
    + intros d' [->|Hd']%elem_of_cons; [by rewrite Hid|]. intros Hin'. apply (Hids d' Hd'). by right.
Qed.

(** What the generator does at the end: identifiers, a check of them, and the text. *)
Definition finish_project (o : nat) : XM text := _ ← ComputeProjectIDs true true o; _ ← EnsureNoIDCollisions o; PrintProjectFile o.

Lemma Descendants_project h o x root all :
  objects h !! o = Some x → class_of x = XCProjectFile → dict_get (properties x) "rootObject" = Some (XObj root) →
  Descendants o h = Ok (all, h) → ∃ below, descendants (next h) root h = Ok (below, h) ∧ all = o :: below.
Proof.
  intros Hx Hc Hroot Hall. unfold Descendants in Hall. cbn [descendants] in Hall. apply XM_bind_Ok in Hall as (x0&h0&Hget&Hall). unfold get in Hget.
  rewrite Hx in Hget. injection Hget as <- <-. apply XM_bind_Ok in Hall as (alls&h0&Hds&Hret). apply XM_ret_Ok in Hret as [-> <-].
  assert (Children x = [root]) as Hchildren.
  { unfold Children, objects_property. rewrite Hc. cbn -[dict_get]. by rewrite Hroot. }
  rewrite Hchildren in Hds. cbn [map_m] in Hds. apply XM_bind_Ok in Hds as (below&h0&Hbelow&Hret). apply XM_bind_Ok in Hret as (l&h1&Hl&Hret).
  apply XM_ret_Ok in Hl as [-> ->]. apply XM_ret_Ok in Hret as [-> <-]. exists below. cbn [concat]. by rewrite app_nil_r.
Qed.

Lemma same_readable h h' : same_but_ids h h' → all_readable h → all_readable h'.
Proof. intros Hh Hr o x Hx. symmetry in Hh. destruct (same_but_ids_get _ _ _ _ Hh Hx) as [i Hx']. exact (Hr _ _ Hx'). Qed.

Lemma is_id_word i : is_id i → i ≠ [] ∧ forallb is_alnum i = true.
Proof.
  intros [Hl Hi]. split; [by intros ->|]. apply forallb_forall. intros c Hc%list_elem_of_In%Hi.
  repeat (apply elem_of_cons in Hc as [->|Hc]; [done|]). by apply elem_of_nil in Hc.
Qed.

End ids.

(** ** A project

    One file and one group, and a hash that is good enough for them. *)
Definition toy_word (seed : Z) (t : text) : Z := (foldl (λ w c, w * seed + Z.of_N (N_of_ascii c)) seed t mod 2 ^ 32)%Z.
#[local] Program Instance toy_sha1 : Sha1 := {| digest t := (λ seed, toy_word seed t) <$> [31; 37; 41; 43; 47]%Z |}.
Next Obligation. intros t. split; [done|]. apply Forall_fmap, Forall_forall. intros seed _. by apply Z.mod_pos_bound. Qed.

Definition sample_project : XM nat :=
  p ← construct new_fuel PBXProject [] None None (Some (chars "out/sample.xcodeproj"));
  px ← get p; g ← object_at "mainGroup" px;
  f ← new PBXFileReference [("path", str "src/main.cc")];
  s ← new PBXGroup [("name", str "Source */ files"); ("children", XList [XObj f])];
  _ ← AppendProperty g "children" (XObj s);
  new XCProjectFile [("rootObject", XObj p)].
Definition sample_heap : heap := match sample_project module_heap with Ok (_, h) => h | Err _ => module_heap end.
Definition sample_root : nat := match sample_project module_heap with Ok (o, _) => o | Err _ => 0 end.

Definition ids_okb (h : heap) : bool :=
  forallb (λ p, match xid p.2 with Some i => negb (i ==? []) && forallb is_alnum i | None => true end) (map_to_list (objects h)).
Lemma ids_okb_ok h : ids_okb h = true → ids_ok h.
Proof.
  intros Hb o x i Hx Hi. unfold ids_okb in Hb. rewrite forallb_forall in Hb. specialize (Hb (o, x)). cbn [snd] in Hb. rewrite Hi in Hb.
  apply elem_of_map_to_list, list_elem_of_In, Hb, andb_true_iff in Hx as [Hne Ha]. split; [by apply negb_true_iff, bool_decide_eq_false in Hne|done].
Qed.
Definition all_readableb (h : heap) : bool := forallb (λ p, readable_object p.2) (map_to_list (objects h)).
Lemma all_readableb_ok h : all_readableb h = true → all_readable h.
Proof.
  intros Hb o x Hx. unfold all_readableb in Hb. rewrite forallb_forall in Hb. apply (Hb (o, x)). by apply list_elem_of_In, elem_of_map_to_list.
Qed.

Lemma sample_ok : ∃ x, objects sample_heap !! sample_root = Some x ∧ class_of x = XCProjectFile ∧ ids_ok sample_heap ∧ all_readable sample_heap.
Proof.
  assert (class_of <$> objects sample_heap !! sample_root = Some XCProjectFile) as Hc by (vm_compute; reflexivity).
  destruct (objects sample_heap !! sample_root) as [x|] eqn:Hx; [|done]. exists x. split_and!; [done|by injection Hc| |].
  - apply ids_okb_ok. vm_compute. reflexivity.
  - apply all_readableb_ok. vm_compute. reflexivity.
Qed.

Definition sample_text : text := match finish_project sample_root sample_heap with Ok (t, _) => t | Err _ => [] end.
Lemma sample_finished : ∃ h', finish_project sample_root sample_heap = Ok (sample_text, h').
Proof.
  assert (is_ok (finish_project sample_root sample_heap) = true) as Hok by (vm_compute; reflexivity).
  unfold sample_text. destruct (finish_project sample_root sample_heap) as [[t h']|e]; [by exists h'|done].
Qed.

(** Two objects of it, with the end of a comment in a name *)
Example sample_file_line :
  is_Some (lfind (chars " /* main.cc */ = {isa = PBXFileReference; lastKnownFileType = sourcecode.cpp.cpp; name = main.cc; path = src/main.cc; ") sample_text).
Proof. apply (bool_decide_unpack _). vm_compute. exact I. Qed.
Example sample_group_line : is_Some (lfind (chars " /* Source (*)/ files */ = {") sample_text).
Proof. apply (bool_decide_unpack _). vm_compute. exact I. Qed.


Definition sample_with_ids : heap := match ComputeProjectIDs true true sample_root sample_heap with Ok (_, h) => h | Err _ => sample_heap end.
Lemma sample_identified : ComputeProjectIDs true true sample_root sample_heap = Ok (tt, sample_with_ids).
Proof.
  assert (is_ok (ComputeProjectIDs true true sample_root sample_heap) = true) as Hok by (vm_compute; reflexivity).
  unfold sample_with_ids. destruct (ComputeProjectIDs true true sample_root sample_heap) as [[[] h']|e]; done.
Qed.
Lemma ComputeProjectIDs_correct_witness : same_but_ids sample_heap sample_with_ids.
Proof. exact (proj1 (ComputeProjectIDs_correct sample_root sample_heap sample_with_ids sample_identified)). Defined.
