(* ===== verification/XcGroup.v ===== *)
(** * Groups of Xcode projects

    What [PBXGroup] of tools/gyp/pylib/gyp/xcodeproj_file.py does with its children: looking them up, adding files by
    path, taking over only children, sorting. *)
From S2P Require Import Prelude PyDict PyStr PyPath XcObject XcPrint.
From Stdlib Require Import Ascii.

Definition children (o : nat) : XM (list nat) := x ← get o; v ← lift (property "children" x); mret (objects_of v).

Definition AppendChild (o child : nat) : XM unit := _ ← AppendProperty o "children" (XObj child); AddChildToDicts o child.

(** ** Lookup *)
Fixpoint first_child (test : nat → XM bool) (l : list nat) : XM (option nat) :=
  match l with
  | [] => mret None
  | child :: l => found ← test child; if found : bool then mret (Some child) else first_child test l
  end.

Definition GetChildByName (o : nat) (name : text) : XM (option nat) :=
  x ← get o; first_child (λ child, n ← name_of child; mret (n ==? Some name)) (objects_property "children" x).

Definition GetChildByPath (o : nat) (p : text) : XM (option nat) :=
  if p ==? [] then mret None else x ← get o; mret (dict_get (children_by_path x) p).

Definition is_proxy_of (remote_object child : nat) : XM bool :=
  x ← get child;
  if subclass (class_of x) PBXReferenceProxy then
    v ← lift (property "remoteRef" x); container_proxy ← lift (as_obj v);
    y ← get container_proxy; w ← lift (property "remoteGlobalIDString" y); mret (w ==? XObj remote_object)
  else mret false.
Definition GetChildByRemoteObject (o remote_object : nat) : XM (option nat) :=
  x ← get o; first_child (is_proxy_of remote_object) (objects_property "children" x).

(** ** Adding files *)

(** An object of class [c] at [p] among the children of [o], a new one if there is none. *)
Definition add_or_get (o : nat) (p : text) (c : cls) (ps : xprops) : XM nat :=
  ref ← GetChildByPath o p;
  match ref with
  | Some ref => x ← get ref; if class_of x ==? c then mret ref else throw AssertionError
  | None => ref ← new c ps; _ ← AppendChild o ref; mret ref
  end.

Definition AddOrGetVariantGroupByNameAndPath (o : nat) (name : text) (p : option text) : XM nat :=
  x ← get o;
  match dict_get (variant_children_by_name_and_path x) (Some name, p) with
  | Some ref => y ← get ref; if class_of y ==? PBXVariantGroup then mret ref else throw AssertionError
  | None =>
      ref ← new PBXVariantGroup (("name", XStr name) :: match p with Some p => [("path", XStr p)] | None => [] end);
      _ ← AppendChild o ref; mret ref
  end.

(** What a path says: is it a directory, the variant it is for, the path of the variant's group. *)
Definition is_dir_path (p : text) : bool := bool_decide (last p = Some slash).
Definition norm_file_path (p : text) : text := if is_dir_path p then p_normpath p ++ [slash] else p_normpath p.
Definition variant_name (p : text) : option text :=
  let '(root, ext) := p_splitext (p_basename (p_dirname p)) in if ext ==? chars ".lproj" then Some root else None.
Definition grandparent (p : text) : option text := let g := p_dirname (p_dirname p) in if g ==? [] then None else Some g.

Fixpoint add_or_get_file (fuel : nat) (o : nat) (p : text) (hierarchical : bool) : XM nat :=
  match fuel with
  | 0 => throw OutOfFuel
  | S fuel =>
      let is_dir := is_dir_path p in
      let p := norm_file_path p in
      let variant := variant_name p in
      let path_split := lsplit slash p in
      if is_dir && bool_decide (is_Some variant) then throw AssertionError
      else if (length path_split =? 1) || (is_dir || bool_decide (is_Some variant)) && (length path_split =? 2) || negb hierarchical then
        match variant with
        | None => add_or_get o p PBXFileReference [("path", XStr p)]
        | Some name =>
            group ← AddOrGetVariantGroupByNameAndPath o (p_basename p) (grandparent p);
            let variant_path := ljoin [slash] (drop (length path_split - 2) path_split) in
            _ ← add_or_get group variant_path PBXFileReference [("name", XStr name); ("path", XStr variant_path)];
            mret group
        end
      else
        let next_dir := hd [] path_split in
        group ← add_or_get o next_dir PBXGroup [("path", XStr next_dir)];
        add_or_get_file fuel group (ljoin [slash] (tail path_split)) hierarchical
  end.
(** A component is chopped off for each call. *)
Definition AddOrGetFileByPath (o : nat) (p : text) (hierarchical : bool) : XM nat := add_or_get_file (S (length p)) o p hierarchical.

(** ** Taking over only children *)
Definition str_of (ps : xprops) (key : string) : option text := match dict_get ps key with Some (XStr s) => Some s | _ => None end.

(** The properties of the child become those of the group, with what must stay of its old ones. *)
Definition take_over_properties (old ps : xprops) : xprops :=
  let ps :=
    if default group_tree (str_of ps "sourceTree") ==? group_tree then
      let ps :=
        match str_of old "path", str_of ps "path" with
        | Some p, Some q => dict_set ps "path" (XStr (p_join p q))
        | Some p, None => dict_set ps "path" (XStr p)
        | None, _ => ps
        end in
      match dict_get old "sourceTree" with Some tree => dict_set ps "sourceTree" tree | None => ps end
    else ps in
  let Name := match str_of ps "name" with Some n => Some n | None => str_of ps "path" end in
  let ps :=
    match str_of old "name" with
    | Some name => if Some name ==? Name then ps else dict_set ps "name" (XStr name)
    | None => ps
    end in
  match str_of ps "name", str_of ps "path" with
  | Some name, Some p => if name ==? p then dict_del ps "name" else ps
  | _, _ => ps
  end.

(** The child shares its dictionaries with the group from here on; nothing refers to it any more. *)
Definition take_over (o child : nat) : XM unit :=
  x ← get o; c ← get child;
  _ ← modify o (λ x, with_children_by_path (children_by_path c) (with_properties (take_over_properties (properties x) (properties c)) x));
  l ← children o;
  for_m l (λ grandchild, modify grandchild (with_parent (Some o))).

(** The loop of [TakeOverOnlyChild] *)
Fixpoint take_over_loop (fuel : nat) (o : nat) : XM unit :=
  match fuel with
  | 0 => throw OutOfFuel
  | S fuel =>
      l ← children o;
      match l with
      | [child] => c ← get child; if class_of c ==? PBXGroup then _ ← take_over o child; take_over_loop fuel o else mret tt
      | _ => mret tt
      end
  end.

(** The fuel bounds the depth below the group. *)
Fixpoint take_over_only_child (fuel : nat) (recurse : bool) (o : nat) : XM unit :=
  match fuel with
  | 0 => throw OutOfFuel
  | S fuel =>
      _ ← take_over_loop (S fuel) o;
      if recurse then
        l ← children o;
        for_m l (λ child, c ← get child; if class_of c ==? PBXGroup then take_over_only_child fuel recurse child else mret tt)
      else mret tt
  end.
Definition TakeOverOnlyChild (recurse : bool) (o : nat) : XM unit := λ h, take_over_only_child (S (next h)) recurse o h.

(** ** Sorting *)

(** [cmp] of two names, of which [None] is the least *)
Definition cmp_text (a b : text) : Z := if a ==? b then 0%Z else if str_lt (of_chars a) (of_chars b) then (-1)%Z else 1%Z.
Definition cmp_name (a b : option text) : Z :=
  match a, b with
  | None, None => 0%Z
  | None, Some _ => (-1)%Z
  | Some _, None => 1%Z
  | Some a, Some b => cmp_text a b
  end.

(** What [Compare] looks at: is it a group, and its name; for other classes it raises. *)
Definition compare_key (o : nat) : XM (bool * option text) :=
  x ← get o;
  is_group ← (match class_of x with
              | PBXGroup => mret true
              | PBXFileReference | PBXVariantGroup => mret false
              | c => throw (KeyError (class_name c))
              end);
  name ← name_of o;
  mret (is_group, name).
Definition compare_keys (self other : bool * option text) : Z :=
  if Bool.eqb self.1 other.1 then cmp_name self.2 other.2 else if self.1 then (-1)%Z else 1%Z.
Definition Compare (o other : nat) : XM Z := self ← compare_key o; other ← compare_key other; mret (compare_keys self other).

(** [sorted] with a comparison: what comes later goes first only if it is less. *)
Definition not_after (a b : (bool * option text) * nat) : Prop := (0 ≤ compare_keys b.1 a.1)%Z.
#[export] Instance not_after_dec : RelDecision not_after.
Proof. intros a b. unfold not_after. apply _. Defined.

(** A stable sort by keys that are computed *)
Definition sort_by {K A} (le : relation (K * A)) `{!RelDecision le} (key : A → XM K) (l : list A) : XM (list A) :=
  keyed ← map_m (λ a, k ← key a; mret (k, a)) l; mret (snd <$> merge_sort le keyed).

(** A list of one is not compared. *)
Definition sort_children (l : list nat) : XM (list nat) :=
  if length l <=? 1 then mret l
  else sort_by not_after compare_key l.

Fixpoint sort_group (fuel : nat) (o : nat) : XM unit :=
  match fuel with
  | 0 => throw OutOfFuel
  | S fuel =>
      l ← children o; l ← sort_children l;
      _ ← modify o (with_property "children" (XList (XObj <$> l)));
      for_m l (λ child, c ← get child; if subclass (class_of c) PBXGroup then sort_group fuel child else mret tt)
  end.
Definition SortGroup (o : nat) : XM unit := λ h, sort_group (S (next h)) o h.

(** * Theorems *)

(** ** A new object

    The heap with a new object at its end: what constructing does to it, step by step. *)
Section fresh.
Context (m : gmap nat xobject) (n : nat).
Abbreviation with_new x := (Heap (<[n := x]> m) (S n)).

Lemma get_new x : get n (with_new x) = Ok (x, with_new x).
Proof. unfold get. cbn [objects]. by rewrite lookup_insert_eq. Qed.
Lemma modify_new f x : modify n f (with_new x) = Ok (tt, with_new (f x)).
Proof. unfold modify, mbind, XM_bind. rewrite get_new. unfold put. cbn [objects next]. by rewrite insert_insert_eq. Qed.

(** A value that refers to no object and has the type of the attributes *)
Definition plain_value (a : attributes) (v : xval) : bool :=
  if is_list a then v ==? XList []
  else match property_type a, v with TStr, XStr _ | TInt, XInt _ | TDict, XDict _ => true | _, _ => false end.

Lemma update_property_new Copy x key v a do_copy :
  dict_get (schema (class_of x)) key = Some a → plain_value a v = true →
  update_property Copy n do_copy (key, v) (with_new x) = Ok (tt, with_new (with_property key v x)).
Proof.
  intros Ha Hv. unfold update_property, mbind, XM_bind. rewrite get_new, Ha.
  assert (check_value (class_of x) key a v (with_new x) = Ok (tt, with_new x)) as ->.
  { unfold plain_value, check_value in *. destruct (is_list a); [by apply bool_decide_eq_true in Hv as ->|]. by destruct (property_type a), v. }
  assert (∀ h, (if do_copy then copy_value Copy a v else mret v) h = Ok (v, h)) as ->.
  { intros h. destruct do_copy; [|done]. unfold plain_value in Hv. destruct (is_list a); [apply bool_decide_eq_true in Hv as ->; cbn; by destruct (is_strong a)|].
    by destruct (property_type a), v. }
  rewrite modify_new. destruct (is_strong a); [|done].
  assert (objects_of v = []) as Hv'.
  { unfold plain_value in Hv. destruct (is_list a); [by apply bool_decide_eq_true in Hv as ->|]. by destruct (property_type a), v. }
  unfold own. by rewrite Hv'.
Qed.

Definition set_properties (ps : xprops) (x : xobject) : xobject := foldl (λ x p, with_property p.1 p.2 x) x ps.

Lemma UpdateProperties_new Copy x ps do_copy :
  forallb (λ p, match dict_get (schema (class_of x)) p.1 with Some a => plain_value a p.2 | None => false end) ps = true →
  UpdateProperties Copy n ps do_copy (with_new x) = Ok (tt, with_new (set_properties ps x)).
Proof.
  unfold UpdateProperties. revert x. induction ps as [|[key v] ps IH]; intros x Hps; [done|]. cbn [forallb fst snd] in Hps. apply andb_true_iff in Hps as [Hp Hps].
  destruct (dict_get (schema (class_of x)) key) as [a|] eqn:Ha; [|done]. cbn [for_m]. unfold mbind at 1, XM_bind.
  rewrite (update_property_new _ _ _ _ _ _ Ha Hp). cbn [set_properties foldl fst snd]. by apply (IH (with_property key v x)).
Qed.
End fresh.

(** A component of a path that means itself *)
Definition plain_name (d : text) : Prop := comp_ok d ∧ head d ≠ Some "$"%char.

Lemma plain_SourceTree d : plain_name d → SourceTreeAndPathFromPath d = (None, Some d).
Proof. intros [_ Hd]. destruct d as [|c d]; [done|]. unfold SourceTreeAndPathFromPath. destruct c as [[] [] [] [] [] [] [] []]; try done. Qed.
Lemma plain_basename d : slash ∉ d → p_basename d = d.
Proof. intros Hd. unfold p_basename, p_split. by apply lrsplit1_None in Hd as ->. Qed.

(** The object for a file or a group at [d] *)
Definition element_object (c : cls) (ps : xprops) : xobject := XObject c None None ps [] [] [] [] [] None [].
Definition group_properties (d : text) : xprops := [("sourceTree", XStr group_tree); ("children", XList []); ("path", XStr d)].
Definition file_properties (d : text) : xprops :=
  let ext := of_chars (lower_extension (p_basename d)) in
  [("sourceTree", XStr group_tree); ("path", XStr d); (default "lastKnownFileType" (dict_get prop_map ext), str (default "text" (dict_get extension_map ext)))].

Lemma hierarchical_init_new m n x d :
  plain_name d → str_property "path" x = Some d → str_property "sourceTree" x = Some group_tree →
  XCHierarchicalElement_init n (Heap (<[n := x]> m) (S n)) = Ok (tt, Heap (<[n := x]> m) (S n)).
Proof.
  intros Hd Hp Hs. unfold XCHierarchicalElement_init, mbind, XM_bind. rewrite get_new, Hp.
  cbn zeta. rewrite plain_basename by apply Hd. rewrite (bool_decide_eq_true_2 (d = d)) by done. rewrite andb_false_r.
  assert ((if dict_mem (properties x) "name" then mret () else mret ()) = (mret tt : XM unit)) as -> by by destruct (dict_mem _ _).
  unfold mret at 1, XM_ret. rewrite get_new, Hp, Hs. cbn [default from_option id]. rewrite bool_decide_eq_true_2 by done. rewrite plain_SourceTree by done. cbn beta iota.
  unfold mret at 1, XM_ret. rewrite modify_new.
  assert (with_property "path" (XStr d) x = x) as ->; [|done].
  unfold with_property. rewrite dict_set_id; [by destruct x|]. unfold str_property in Hp. destruct (dict_get _ _) as [[]|]; congruence.
Qed.

(** What constructing does up to the constructor's own part *)
Lemma new_run c ps h x :
  forallb (λ p, match dict_get (schema c) p.1 with Some a => plain_value a p.2 | None => false end) (schema_defaults c) = true →
  forallb (λ p, match dict_get (schema c) p.1 with Some a => plain_value a p.2 | None => false end) ps = true →
  set_properties ps (set_properties (schema_defaults c) (XcObject.blank c None None None)) = x → class_of x = c →
  new c ps h = (_ ← init (next h); mret (next h)) (Heap (<[next h := x]> (objects h)) (S (next h))).
Proof.
  intros Hdef Hps Hx Hc. unfold new, new_fuel. cbn [construct]. unfold mbind, XM_bind, alloc. rewrite UpdateProperties_new by done.
  assert (∀ ps y, class_of (set_properties ps y) = class_of y) as Hclass by (intros qs; induction qs as [|q qs IH]; intros y; [done|]; exact (IH (with_property q.1 q.2 y))).
  rewrite UpdateProperties_new by (by rewrite Hclass). by rewrite Hx.
Qed.

Lemma new_group h d : plain_name d →
  new PBXGroup [("path", XStr d)] h = Ok (next h, Heap (<[next h := element_object PBXGroup (group_properties d)]> (objects h)) (S (next h))).
Proof.
  intros Hd. rewrite (new_run _ _ _ (element_object PBXGroup (group_properties d))) by (vm_compute; reflexivity).
  unfold init, mbind, XM_bind. rewrite get_new. cbn zeta.
  change (subclass _ XCHierarchicalElement) with true. change (subclass _ PBXGroup) with true. cbn iota.
  rewrite (hierarchical_init_new _ _ _ d) by done. rewrite get_new. done.
Qed.

Lemma new_file h d : plain_name d →
  new PBXFileReference [("path", XStr d)] h = Ok (next h, Heap (<[next h := element_object PBXFileReference (file_properties d)]> (objects h)) (S (next h))).
Proof.
  intros Hd. set (x := element_object PBXFileReference [("sourceTree", XStr group_tree); ("path", XStr d)]).
  rewrite (new_run _ _ _ x) by (vm_compute; reflexivity).
  unfold init, mbind, XM_bind. rewrite get_new. cbn zeta.
  change (subclass _ XCHierarchicalElement) with true. change (subclass _ PBXGroup) with false. change (subclass _ PBXFileReference) with true.
  change (subclass _ XCBuildPhase) with false. change (subclass _ XCTarget) with false. cbn iota.
  rewrite (hierarchical_init_new _ _ _ d) by done. unfold PBXFileReference_init, mbind, XM_bind. unfold mret at 1, XM_ret. rewrite get_new.
  change (str_property "path" x) with (Some d). cbn iota zeta.
  rewrite (bool_decide_eq_false_2 (last d = Some slash)) by (intros Hl; by apply last_Some in Hl as [d' ->]; destruct Hd as [(_&_&_&Hd) _]; set_solver).
  change (dict_mem (properties x) "lastKnownFileType" || dict_mem (properties x) "explicitFileType") with false. cbn iota.
  unfold mret at 1, XM_ret. rewrite modify_new. unfold mret, XM_ret. do 3 f_equal. unfold with_property, x, element_object, file_properties. cbn [with_properties properties].
  unfold prop_map. cbn [dict_get]. repeat case_decide; reflexivity.
Qed.

(** ** Appending a child *)
Lemma get_lookup h o x : objects h !! o = Some x → get o h = Ok (x, h).
Proof. unfold get. by intros ->. Qed.
Lemma modify_lookup h o x f : objects h !! o = Some x → modify o f h = Ok (tt, Heap (<[o := f x]> (objects h)) (next h)).
Proof. intros Hx. unfold modify, mbind, XM_bind. by rewrite (get_lookup _ _ _ Hx). Qed.

(** The group with one more child *)
Definition with_child (l : list xval) (d : text) (child : nat) (g : xobject) : xobject :=
  with_children_by_path (dict_set (children_by_path g) d child) (with_property "children" (XList (l ++ [XObj child])) g).

Lemma group_children_attributes c : subclass c PBXGroup = true → dict_get (schema c) "children" = Some (owned_list XCHierarchicalElement []).
Proof. by destruct c. Qed.

Lemma AppendChild_spec h g gx n x l d :
  objects h !! g = Some gx → objects h !! n = Some x → g ≠ n → subclass (class_of gx) PBXGroup = true →
  dict_get (properties gx) "children" = Some (XList l) →
  subclass (class_of x) XCHierarchicalElement = true → subclass (class_of x) PBXVariantGroup = false →
  PathFromSourceTreeAndPath x = Ok (Some d) → d ≠ [] → dict_get (children_by_path gx) d = None →
  AppendChild g n h = Ok (tt, Heap (<[g := with_child l d n gx]> (<[n := with_parent (Some g) x]> (objects h))) (next h)).
Proof.
  intros Hg Hn Hgn Hgroup Hl Helem Hvar Hpath Hd Hnone.
  assert (AppendProperty g "children" (XObj n) h
    = Ok (tt, Heap (<[g := with_property "children" (XList (l ++ [XObj n])) gx]> (<[n := with_parent (Some g) x]> (objects h))) (next h))) as Happend.
  { unfold AppendProperty, mbind, XM_bind. rewrite (get_lookup _ _ _ Hg), group_children_attributes by done.
    cbn [is_list negb property_type is_strong owned_list instance_of]. unfold isinstance, mbind, XM_bind. rewrite (get_lookup _ _ _ Hn).
    unfold mret at 1, XM_ret. rewrite Helem. unfold own. cbn [objects_of omap list_omap option_bind for_m]. unfold mbind, XM_bind. rewrite (modify_lookup _ _ _ _ Hn).
    assert (objects (Heap (<[n := with_parent (Some g) x]> (objects h)) (next h)) !! g = Some gx) as Hg' by (cbn [objects]; by rewrite lookup_insert_ne).
    unfold mret at 1, XM_ret. rewrite (get_lookup _ _ _ Hg'), Hl. cbn [default from_option id as_list lift].
    by rewrite (modify_lookup _ _ _ _ Hg'). }
  unfold AppendChild, mbind, XM_bind. rewrite Happend. clear Happend.
  set (h1 := Heap _ _). set (gx1 := with_property "children" (XList (l ++ [XObj n])) gx).
  assert (objects h1 !! g = Some gx1) as Hg1 by apply lookup_insert_eq.
  assert (objects h1 !! n = Some (with_parent (Some g) x)) as Hn1 by (subst h1; cbn [objects]; rewrite lookup_insert_ne by done; apply lookup_insert_eq).
  unfold AddChildToDicts, mbind, XM_bind. rewrite (get_lookup _ _ _ Hn1).
  change (PathFromSourceTreeAndPath (with_parent (Some g) x)) with (PathFromSourceTreeAndPath x). rewrite Hpath. cbn [lift]. rewrite (get_lookup _ _ _ Hg1).
  change (children_by_path gx1) with (children_by_path gx). destruct d as [|c d]; [done|].
  rewrite (proj2 (dict_mem_false _ _)) by (by apply dict_get_None). rewrite (modify_lookup _ _ _ _ Hg1).
  change (class_of (with_parent (Some g) x)) with (class_of x). rewrite Hvar. subst h1. cbn [objects next]. unfold mret, XM_ret. by rewrite insert_insert_eq.
Qed.

(** ** Trees of groups *)

(** [c] is a child of [g] at the path [p]. *)
Definition is_child (h : heap) (g : nat) (p : text) (c : nat) : Prop :=
  ∃ gx x, objects h !! g = Some gx ∧ c ∈ objects_property "children" gx ∧ objects h !! c = Some x ∧ parent x = Some g ∧ PathFromSourceTreeAndPath x = Ok (Some p).

(** Groups have a list of children, and what their dictionaries say is so. *)
Record tree_ok (h : heap) : Prop := {
  tree_typed : well_typed h;
  tree_children g gx : objects h !! g = Some gx → subclass (class_of gx) PBXGroup = true → ∃ l, dict_get (properties gx) "children" = Some (XList l);
  tree_dicts g gx p c : objects h !! g = Some gx → dict_get (children_by_path gx) p = Some c → is_child h g p c
}.

(** Objects keep their place in the tree; groups keep their children. *)
Definition grows (h h' : heap) : Prop := ∀ o x, objects h !! o = Some x → ∃ x', objects h' !! o = Some x' ∧ class_of x' = class_of x ∧ parent x' = parent x
  ∧ PathFromSourceTreeAndPath x' = PathFromSourceTreeAndPath x ∧ objects_property "children" x ⊆ objects_property "children" x'
  ∧ ∀ p c, dict_get (children_by_path x) p = Some c → dict_get (children_by_path x') p = Some c.
#[export] Instance grows_preorder : PreOrder grows.
Proof.
  split; [intros h o x Hx; by exists x|]. intros h1 h2 h3 H12 H23 o x Hx. destruct (H12 _ _ Hx) as (x2&Hx2&Hc2&Hp2&Hf2&Hl2&Hd2).
  destruct (H23 _ _ Hx2) as (x3&Hx3&Hc3&Hp3&Hf3&Hl3&Hd3). exists x3. split_and!; [done|congruence|congruence|congruence|by etrans|]. intros. by apply Hd3, Hd2.
Qed.

Lemma is_child_grows h h' g p c : grows h h' → is_child h g p c → is_child h' g p c.
Proof.
  intros Hh (gx&x&Hg&Hc&Hx&Hp&Hpath). destruct (Hh _ _ Hg) as (gx'&Hg'&_&_&_&Hl&_). destruct (Hh _ _ Hx) as (x'&Hx'&_&Hp'&Hpath'&_).
  exists gx', x'. split_and!; [done|by apply Hl|done|congruence|congruence].
Qed.

(** A file at the end of a path through the dictionaries of groups *)
Inductive located (h : heap) : nat → list text → nat → Prop :=
  | located_file g gx d f x : objects h !! g = Some gx → dict_get (children_by_path gx) d = Some f → objects h !! f = Some x → class_of x = PBXFileReference →
      located h g [d] f
  | located_group g gx d ds c x f : objects h !! g = Some gx → dict_get (children_by_path gx) d = Some c → objects h !! c = Some x → class_of x = PBXGroup →
      located h c ds f → located h g (d :: ds) f.
Lemma located_grows h h' g ds f : grows h h' → located h g ds f → located h' g ds f.
Proof.
  intros Hh. induction 1 as [g gx d f x Hg Hd Hf Hc|g gx d ds c x f Hg Hd Hx Hc _ IH].
  - destruct (Hh _ _ Hg) as (gx'&Hg'&_&_&_&_&Hdict). destruct (Hh _ _ Hf) as (x'&Hf'&Hc'&_). eapply located_file; [done|by apply Hdict|done|congruence].
  - destruct (Hh _ _ Hg) as (gx'&Hg'&_&_&_&_&Hdict). destruct (Hh _ _ Hx) as (x'&Hx'&Hc'&_). eapply located_group; [done|by apply Hdict|done|congruence|done].
Qed.

Lemma objects_property_children gx l : dict_get (properties gx) "children" = Some (XList l) → objects_property "children" gx = objects_of (XList l).
Proof. unfold objects_property. by intros ->. Qed.
Lemma objects_of_app l v : objects_of (XList (l ++ [XObj v])) = objects_of (XList l) ++ [v].
Proof. unfold objects_of. by rewrite omap_app. Qed.

(** A new child of a group *)
Lemma append_tree h g gx n x l d :
  tree_ok h → objects h !! g = Some gx → objects h !! n = None → subclass (class_of gx) PBXGroup = true →
  dict_get (properties gx) "children" = Some (XList l) → dict_get (children_by_path gx) d = None →
  PathFromSourceTreeAndPath x = Ok (Some d) → children_by_path x = [] → (subclass (class_of x) PBXGroup = true → ∃ l, dict_get (properties x) "children" = Some (XList l)) →
  let h' := Heap (<[g := with_child l d n gx]> (<[n := with_parent (Some g) x]> (objects h))) (S (next h)) in
  well_typed h' → tree_ok h' ∧ grows h h'.
Proof.
  intros Hok Hg Hn Hgroup Hl Hnone Hpath Hdict Hchildren h' Hwt.
  assert (g ≠ n) as Hgn by (intros ->; congruence).
  assert (objects h' !! g = Some (with_child l d n gx)) as Hg' by apply lookup_insert_eq.
  assert (objects h' !! n = Some (with_parent (Some g) x)) as Hn' by (subst h'; cbn [objects]; rewrite lookup_insert_ne by done; apply lookup_insert_eq).
  assert (∀ o, o ≠ g → o ≠ n → objects h' !! o = objects h !! o) as Hother by (intros o ? ?; subst h'; cbn [objects]; by rewrite !lookup_insert_ne).
  assert (PathFromSourceTreeAndPath (with_child l d n gx) = PathFromSourceTreeAndPath gx) as Hpg.
  { unfold PathFromSourceTreeAndPath, with_child, with_property, property, str_property. cbn [with_children_by_path with_properties properties]. by rewrite !dict_get_set_ne by done. }
  assert (dict_get (properties (with_child l d n gx)) "children" = Some (XList (l ++ [XObj n]))) as Hl' by apply dict_get_set_eq.
  assert (grows h h') as Hgrows.
  { intros o y Hy. destruct (decide (o = g)) as [->|Hog].
    - rewrite Hg in Hy. injection Hy as <-. exists (with_child l d n gx). split_and!; [done..| |].
      + rewrite (objects_property_children _ _ Hl), (objects_property_children _ _ Hl'), objects_of_app. set_solver.
      + intros p c Hc. unfold with_child. cbn [with_children_by_path children_by_path]. rewrite dict_get_set_ne; [done|]. intros ->. congruence.
    - exists y. rewrite Hother by (first [done|intros ->; congruence]). by split_and!. }
  split; [|done]. split; [done| |].
  - intros o y Hy Hgr. destruct (decide (o = g)) as [->|Hog]; [rewrite Hg' in Hy; injection Hy as <-; by exists (l ++ [XObj n])|].
    destruct (decide (o = n)) as [->|Hon]; [rewrite Hn' in Hy; injection Hy as <-; by apply Hchildren|]. rewrite Hother in Hy by done. by eapply tree_children.
  - intros o y p c Hy Hc. destruct (decide (o = g)) as [->|Hog].
    + rewrite Hg' in Hy. injection Hy as <-. unfold with_child in Hc. cbn [with_children_by_path children_by_path] in Hc.
      destruct (decide (p = d)) as [->|Hp].
      * rewrite dict_get_set_eq in Hc. injection Hc as <-. exists (with_child l d n gx), (with_parent (Some g) x). split_and!; [done| |done..].
        rewrite (objects_property_children _ _ Hl'), objects_of_app. set_solver.
      * rewrite dict_get_set_ne in Hc by done. eapply is_child_grows; [exact Hgrows|]. by eapply tree_dicts.
    + destruct (decide (o = n)) as [->|Hon]; [rewrite Hn' in Hy; injection Hy as <-; cbn in Hc; by rewrite Hdict in Hc|]. rewrite Hother in Hy by done.
      eapply is_child_grows; [exact Hgrows|]. by eapply tree_dicts.
Qed.

Lemma keeps_AppendChild o child c : keeps (AppendChild o child) (is_a o c) (λ _ _, True).
Proof. apply keeps_seq; [apply is_a_stable|apply keeps_AppendProperty|apply keeps_AddChildToDicts]. Qed.

(** What is found or made for a component *)
Lemma add_or_get_spec h g gx c ps x d :
  tree_ok h → objects h !! g = Some gx → subclass (class_of gx) PBXGroup = true → d ≠ [] →
  new c ps h = Ok (next h, Heap (<[next h := x]> (objects h)) (S (next h))) →
  class_of x = c → c ∈ [PBXGroup; PBXFileReference] → PathFromSourceTreeAndPath x = Ok (Some d) → children_by_path x = [] →
  (subclass c PBXGroup = true → ∃ l, dict_get (properties x) "children" = Some (XList l)) →
  match add_or_get g d c ps h with
  | Ok (f, h') => tree_ok h' ∧ grows h h' ∧ (∃ fx, objects h' !! f = Some fx ∧ class_of fx = c)
      ∧ (∃ gx', objects h' !! g = Some gx' ∧ subclass (class_of gx') PBXGroup = true ∧ dict_get (children_by_path gx') d = Some f)
  | Err e => e = AssertionError
  end.
Proof.
  intros Hok Hg Hgroup Hd Hnew Hc Hcs Hpath Hdict Hchildren.
  unfold add_or_get, GetChildByPath. rewrite (bool_decide_eq_false_2 (d = [])) by done. unfold mbind, XM_bind. rewrite (get_lookup _ _ _ Hg).
  unfold mret at 1, XM_ret. destruct (dict_get (children_by_path gx) d) as [f|] eqn:Hf.
  - destruct (tree_dicts _ Hok _ _ _ _ Hg Hf) as (_&fx&_&_&Hfx&_). rewrite (get_lookup _ _ _ Hfx). case_bool_decide as Hclass; [|done].
    unfold mret, XM_ret. split_and!; [done..|by exists fx|by exists gx].
  - rewrite Hnew. destruct (tree_children _ Hok _ _ Hg Hgroup) as [l Hl]. set (n := next h). set (h1 := Heap (<[n := x]> (objects h)) (S n)).
    assert (objects h !! n = None) as Hn by (by apply (wt_next _ (tree_typed _ Hok))).
    assert (g ≠ n) as Hgn by (intros ->; congruence).
    assert (objects h1 !! g = Some gx) as Hg1 by (subst h1; cbn [objects]; by rewrite lookup_insert_ne).
    assert (subclass (class_of x) XCHierarchicalElement = true ∧ subclass (class_of x) PBXVariantGroup = false) as [Helem Hvar].
    { rewrite Hc. by repeat (apply elem_of_cons in Hcs as [->|Hcs]; [done|]); apply elem_of_nil in Hcs. }
    pose proof (AppendChild_spec h1 g gx n x l d Hg1 (lookup_insert_eq _ _ _) Hgn Hgroup Hl Helem Hvar Hpath Hd Hf) as Happend.
    cbn [objects next h1] in Happend. rewrite insert_insert_eq in Happend. rewrite Happend. unfold mret, XM_ret.
    assert (well_typed (Heap (<[g := with_child l d n gx]> (<[n := with_parent (Some g) x]> (objects h))) (S n))) as Hwt.
    { destruct (keeps_new c ps (λ _, True) _ _ _ (tree_typed _ Hok) I Hnew) as (Hwt1&_&_).
      apply (keeps_AppendChild g n (class_of gx) _ _ _ Hwt1 (ex_intro _ gx (conj Hg1 eq_refl)) Happend). }
    destruct (append_tree h g gx n x l d Hok Hg Hn Hgroup Hl Hf Hpath Hdict) as [Hok' Hgrows]; [by rewrite Hc|exact Hwt|].
    split_and!; [exact Hok'|exact Hgrows| |].
    + exists (with_parent (Some g) x). split; [|done]. cbn [objects]. rewrite lookup_insert_ne by done. apply lookup_insert_eq.
    + exists (with_child l d n gx). split_and!; [apply lookup_insert_eq|done|apply dict_get_set_eq].
Qed.

Lemma element_path c ps d : dict_get ps "sourceTree" = Some (XStr group_tree) → dict_get ps "path" = Some (XStr d) →
  PathFromSourceTreeAndPath (element_object c ps) = Ok (Some d).
Proof. intros Hs Hp. unfold PathFromSourceTreeAndPath, property, str_property. cbn [element_object properties]. by rewrite Hs, Hp. Qed.

Lemma add_group_spec h g gx d :
  tree_ok h → objects h !! g = Some gx → subclass (class_of gx) PBXGroup = true → plain_name d →
  match add_or_get g d PBXGroup [("path", XStr d)] h with
  | Ok (f, h') => tree_ok h' ∧ grows h h' ∧ (∃ fx, objects h' !! f = Some fx ∧ class_of fx = PBXGroup)
      ∧ (∃ gx', objects h' !! g = Some gx' ∧ subclass (class_of gx') PBXGroup = true ∧ dict_get (children_by_path gx') d = Some f)
  | Err e => e = AssertionError
  end.
Proof.
  intros Hok Hg Hgroup Hd. eapply add_or_get_spec; [done..|apply Hd|by apply new_group|done|by left|by apply element_path|done|]. intros _. by exists [].
Qed.

Lemma add_file_spec h g gx d :
  tree_ok h → objects h !! g = Some gx → subclass (class_of gx) PBXGroup = true → plain_name d →
  match add_or_get g d PBXFileReference [("path", XStr d)] h with
  | Ok (f, h') => tree_ok h' ∧ grows h h' ∧ (∃ fx, objects h' !! f = Some fx ∧ class_of fx = PBXFileReference)
      ∧ (∃ gx', objects h' !! g = Some gx' ∧ subclass (class_of gx') PBXGroup = true ∧ dict_get (children_by_path gx') d = Some f)
  | Err e => e = AssertionError
  end.
Proof.
  intros Hok Hg Hgroup Hd. eapply add_or_get_spec; [done..|apply Hd|by apply new_file|done|by right; left|by apply element_path|done|done].
Qed.

(** ** Paths of plain names *)
Definition plain_component (d : text) : Prop := plain_name d ∧ (p_splitext d).2 ≠ chars ".lproj".

Lemma plain_join_split ds : ds ≠ [] → Forall plain_component ds → lsplit slash (ljoin [slash] ds) = ds.
Proof. intros Hne Hds. apply lsplit_ljoin; [done|]. eapply Forall_impl; [done|]. by intros d [[(_&_&_&?) _] _]. Qed.

Lemma plain_last_char ds : ds ≠ [] → Forall plain_component ds → ∃ c, last (ljoin [slash] ds) = Some c ∧ c ≠ slash.
Proof.
  induction ds as [|d ds IH]; intros Hne Hds; [done|]. apply Forall_cons in Hds as [[[(Hd&_&_&Hs) _] _] Hds]. destruct ds as [|d' ds].
  - cbn [ljoin]. destruct (last d) as [c|] eqn:Hl; [|by apply last_None in Hl]. exists c. split; [done|]. intros ->. apply last_Some in Hl as [l ->]. set_solver.
  - destruct (IH ltac:(done) Hds) as (c&Hl&Hc). exists c. split; [|done]. rewrite ljoin_cons by done. rewrite !last_app, Hl. done.
Qed.

Lemma plain_normpath ds : ds ≠ [] → Forall plain_component ds → p_normpath (ljoin [slash] ds) = ljoin [slash] ds.
Proof.
  intros Hne Hds.
  assert (Forall comp_ok ds) as Hok by (eapply Forall_impl; [done|]; by intros d [[? _] _]).
  assert (ljoin [slash] ds ≠ []) as Hnil by (destruct (plain_last_char ds Hne Hds) as (c&Hl&_); by intros Heq; rewrite Heq in Hl).
  unfold p_normpath. rewrite (bool_decide_eq_false_2 (ljoin [slash] ds = [])) by done.
  assert (initial_slashes (ljoin [slash] ds) = []) as Hini.
  { destruct ds as [|d ds]; [done|]. apply Forall_cons in Hok as [(Hd&_&_&Hs) _]. destruct d as [|c d]; [done|].
    assert (∃ t, ljoin [slash] ((c :: d) :: ds) = c :: t) as [t ->].
    { destruct ds; [by eexists|]. rewrite ljoin_cons by done. by eexists. }
    unfold initial_slashes. cbn [lstarts]. rewrite bool_decide_eq_false_2; [done|]. set_solver. }
  rewrite Hini. cbn zeta. rewrite (bool_decide_eq_true_2 (@nil ascii = [])) by done. cbn [negb app]. rewrite plain_join_split, norm_comps_ok, app_nil_r, reverse_involutive by done.
  by rewrite bool_decide_eq_false_2.
Qed.

Lemma plain_is_dir ds : ds ≠ [] → Forall plain_component ds → is_dir_path (ljoin [slash] ds) = false.
Proof. intros Hne Hds. destruct (plain_last_char ds Hne Hds) as (c&Hl&Hc). unfold is_dir_path. rewrite Hl. apply bool_decide_eq_false. congruence. Qed.

Lemma plain_split ds d : ds ≠ [] → Forall plain_component (ds ++ [d]) → p_split (ljoin [slash] (ds ++ [d])) = (ljoin [slash] ds, d).
Proof.
  intros Hne Hds. apply Forall_app in Hds as [Hds Hd]. apply Forall_singleton in Hd as [[(_&_&_&Hd) _] _].
  assert (ljoin [slash] (ds ++ [d]) = ljoin [slash] ds ++ slash :: d) as ->.
  { clear Hds. induction ds as [|d' ds IH]; [done|]. destruct ds as [|d'' ds]; [done|]. change ((d' :: d'' :: ds) ++ [d]) with (d' :: ((d'' :: ds) ++ [d])).
    rewrite !ljoin_cons by done. rewrite IH by done. by rewrite <- !app_assoc. }
  unfold p_split. rewrite (proj2 (lrsplit1_Some _ _ (ljoin [slash] ds) d)) by done.
  destruct (plain_last_char ds Hne Hds) as (c&Hl&Hc). apply last_Some in Hl as [l Hl].
  assert (forallb (λ c, c ==? slash) (ljoin [slash] ds ++ [slash]) = false) as ->.
  { rewrite Hl, !forallb_app. cbn [forallb]. rewrite (bool_decide_eq_false_2 (c = slash)) by done. by rewrite andb_false_r. }
  f_equal. unfold rstrip. rewrite reverse_app. cbn [reverse rev_append app]. change (reverse [slash]) with [slash]. cbn [app drop_while].
  rewrite bool_decide_eq_true_2 by done. rewrite Hl, reverse_app. change (reverse [c]) with [c]. cbn [app drop_while].
  rewrite bool_decide_eq_false_2 by done. change (c :: reverse l) with ([c] ++ reverse l). by rewrite reverse_app, reverse_involutive.
Qed.

Lemma plain_variant ds : ds ≠ [] → Forall plain_component ds → variant_name (ljoin [slash] ds) = None.
Proof.
  intros Hne Hds. unfold variant_name.
  assert (∃ d, p_basename (p_dirname (ljoin [slash] ds)) = d ∧ (p_splitext d).2 ≠ chars ".lproj") as (d&->&Hd).
  { destruct ds as [|d0 ds _] using rev_ind; [done|]. destruct (decide (ds = [])) as [->|Hds'].
    - exists []. apply Forall_singleton in Hds as [[(_&_&_&Hs) _] _]. cbn [app ljoin]. unfold p_dirname, p_split at 1. by apply lrsplit1_None in Hs as ->.
    - unfold p_dirname. rewrite plain_split by done. cbn [fst]. destruct ds as [|d1 ds _] using rev_ind; [done|]. apply Forall_app in Hds as [Hds _].
      exists d1. apply Forall_app in Hds as Hd1. destruct Hd1 as [_ [[[(_&_&_&Hs) _] Hext] _]%Forall_cons]. split; [|done]. destruct (decide (ds = [])) as [->|Hds''].
      + cbn [app ljoin]. by apply plain_basename.
      + unfold p_basename. by rewrite plain_split. }
  destruct (p_splitext d) as [root ext]. cbn [snd] in Hd. by rewrite bool_decide_eq_false_2.
Qed.

(** ** Adding files by path *)
Lemma add_or_get_file_step fuel g d ds h : Forall plain_component (d :: ds) →
  add_or_get_file (S fuel) g (ljoin [slash] (d :: ds)) true h
  = match ds with
    | [] => add_or_get g d PBXFileReference [("path", XStr d)] h
    | _ => (c ← add_or_get g d PBXGroup [("path", XStr d)]; add_or_get_file fuel c (ljoin [slash] ds) true) h
    end.
Proof.
  intros Hds. cbn [add_or_get_file]. unfold norm_file_path. rewrite plain_is_dir, plain_normpath, plain_variant, plain_join_split by done.
  destruct ds; reflexivity.
Qed.

Lemma add_or_get_file_located fuel h g gx ds :
  length ds ≤ fuel → ds ≠ [] → Forall plain_component ds → tree_ok h → objects h !! g = Some gx → subclass (class_of gx) PBXGroup = true →
  match add_or_get_file fuel g (ljoin [slash] ds) true h with
  | Ok (f, h') => tree_ok h' ∧ grows h h' ∧ located h' g ds f
  | Err e => e = AssertionError
  end.
Proof.
  revert h g gx ds. induction fuel as [|fuel IH]; intros h g gx ds Hf Hne Hds Hok Hg Hgroup; [by destruct ds; [|cbn in Hf; lia]|].
  destruct ds as [|d ds]; [done|]. rewrite add_or_get_file_step by done. apply Forall_cons in Hds as [[Hd _] Hds]. destruct ds as [|d' ds].
  - pose proof (add_file_spec h g gx d Hok Hg Hgroup Hd) as Hadd. destruct (add_or_get g d _ _ h) as [[f h']|e]; [|done].
    destruct Hadd as (Hok'&Hgrows&(fx&Hfx&Hc)&(gx'&Hg'&_&Hdict)). split_and!; [done..|]. by eapply located_file.
  - pose proof (add_group_spec h g gx d Hok Hg Hgroup Hd) as Hadd. unfold mbind, XM_bind. destruct (add_or_get g d _ _ h) as [[c h1]|e]; [|done].
    destruct Hadd as (Hok1&Hgrows1&(cx&Hcx&Hc)&(gx1&Hg1&_&Hdict)).
    assert (subclass (class_of cx) PBXGroup = true) as Hsub by by rewrite Hc.
    pose proof (IH h1 c cx (d' :: ds) ltac:(cbn in *; lia) ltac:(done) Hds Hok1 Hcx Hsub) as Hrec.
    destruct (add_or_get_file fuel c _ true h1) as [[f h']|e]; [|done]. destruct Hrec as (Hok'&Hgrows'&Hloc). split_and!; [done|by etrans|].
    destruct (Hgrows' _ _ Hg1) as (gx'&Hg'&_&_&_&_&Hd'). destruct (Hgrows' _ _ Hcx) as (cx'&Hcx'&Hc'&_).
    eapply located_group; [done|by apply Hd'|done|congruence|done].
Qed.

(** What is there is found again. *)
Lemma located_found fuel h g ds f : length ds ≤ fuel → Forall plain_component ds → located h g ds f → add_or_get_file fuel g (ljoin [slash] ds) true h = Ok (f, h).
Proof.
  assert (∀ g gx d c k ps x, objects h !! g = Some gx → d ≠ [] → dict_get (children_by_path gx) d = Some c → objects h !! c = Some x → class_of x = k →
    add_or_get g d k ps h = Ok (c, h)) as Hget.
  { intros g0 gx d c k ps x Hg Hd Hc Hx Hk. unfold add_or_get, GetChildByPath. rewrite (bool_decide_eq_false_2 (d = [])) by done.
    unfold mbind, XM_bind. rewrite (get_lookup _ _ _ Hg). unfold mret at 1, XM_ret. rewrite Hc, (get_lookup _ _ _ Hx). by rewrite bool_decide_eq_true_2. }
  intros Hf Hds Hloc. revert fuel Hf Hds. induction Hloc as [g gx d f x Hg Hd Hx Hc|g gx d ds c x f Hg Hd Hx Hc Hloc IH]; intros fuel Hf Hds.
  - destruct fuel; [cbn in Hf; lia|]. rewrite add_or_get_file_step by done. apply Forall_cons in Hds as [[[(?&_) _] _] _]. by eapply Hget.
  - destruct fuel; [cbn in Hf; lia|]. rewrite add_or_get_file_step by done. destruct ds as [|d' ds]; [inversion Hloc|]. apply Forall_cons in Hds as [[[(?&_) _] _] Hds].
    unfold mbind, XM_bind. erewrite Hget by done. apply IH; [cbn in *; lia|done].
Qed.

(** The full path of a file goes on from the group where it was added. *)
Lemma located_path h g ds f fuel : tree_ok h → Forall plain_component ds → located h g ds f →
  full_path (length ds + fuel) (Some f) None h = full_path fuel (Some g) (Some (ljoin [slash] ds)) h.
Proof.
  intros Hok Hds Hloc. revert fuel Hds. induction Hloc as [g gx d f x Hg Hd Hx Hc|g gx d ds c x f Hg Hd Hx Hc Hloc IH]; intros fuel Hds.
  - destruct (tree_dicts _ Hok _ _ _ _ Hg Hd) as (_&x'&_&_&Hx'&Hp&Hpath). rewrite Hx in Hx'. injection Hx' as <-.
    cbn [length Nat.add full_path]. unfold mbind, XM_bind. rewrite (get_lookup _ _ _ Hx). rewrite Hc. cbn zeta.
    change (subclass PBXFileReference XCHierarchicalElement) with true. cbn [andb]. rewrite Hpath, Hp. done.
  - destruct (tree_dicts _ Hok _ _ _ _ Hg Hd) as (_&x'&_&_&Hx'&Hp&Hpath). rewrite Hx in Hx'. injection Hx' as <-. apply Forall_cons in Hds as [Hd' Hds].
    cbn [length]. rewrite Nat.add_succ_comm. rewrite IH by done. cbn [full_path]. unfold mbind, XM_bind. rewrite (get_lookup _ _ _ Hx), Hc.
    change (subclass PBXGroup XCHierarchicalElement) with true.
    assert (ds ≠ []) as Hne by (intros ->; inversion Hloc).
    assert (∃ c t, ljoin [slash] ds = c :: t ∧ c ≠ slash ∧ c ≠ "$"%char) as (c0&t&Heq&Hs&Hdol).
    { destruct ds as [|e ds]; [done|]. apply Forall_cons in Hds as [[[(He&_&_&Hs) Hdol] _] _]. destruct e as [|c0 e]; [done|]. exists c0.
      assert (∃ t, ljoin [slash] ((c0 :: e) :: ds) = c0 :: t) as [t Ht] by (destruct ds; [by eexists|]; rewrite ljoin_cons by done; by eexists).
      exists t. split_and!; [done|set_solver|]. intros ->. by apply Hdol. }
    rewrite Heq. cbn [lstarts]. rewrite (bool_decide_eq_false_2 (slash = c0)), (bool_decide_eq_false_2 ("$"%char = c0)) by done. cbn [negb andb].
    rewrite Hpath, Hp. unfold lift. f_equal. f_equal. rewrite <- Heq. unfold p_join. rewrite Heq. cbn [lstarts].
    rewrite (bool_decide_eq_false_2 (slash = c0)) by done. cbn [andb]. rewrite <- Heq. rewrite ljoin_cons by done.
    destruct Hd' as [[(Hd'&_&_&Hsl) _] _]. rewrite (bool_decide_eq_false_2 (d = [])) by done. rewrite bool_decide_eq_false_2; [done|].
    intros Hl. apply last_Some in Hl as [l ->]. set_solver.
Qed.

Lemma plain_length ds : Forall plain_component ds → length ds ≤ S (length (ljoin [slash] ds)).
Proof.
  induction 1 as [|d ds Hd _ IH]; [cbn; lia|]. destruct ds as [|d' ds]; [cbn; lia|]. rewrite ljoin_cons by done. rewrite !length_app. cbn [length] in *.
  destruct Hd as [[(Hd&_) _] _]. destruct d; [done|]. cbn [length]. lia.
Qed.

(** C36: a file added by a path of plain names is a file reference at that path below the group, in groups for the directories; everything else keeps
    its place, the full path of the file goes on from that of the group, and adding the path again gives the same file and changes
    nothing.  The only failure is the assertion for a file where a directory should be, or the other way round. *)
Theorem AddOrGetFileByPath_correct h g gx ds :
  tree_ok h → objects h !! g = Some gx → subclass (class_of gx) PBXGroup = true → ds ≠ [] → Forall plain_component ds →
  match AddOrGetFileByPath g (ljoin [slash] ds) true h with
  | Ok (f, h') => tree_ok h' ∧ grows h h' ∧ located h' g ds f
      ∧ (∀ fuel, full_path (length ds + fuel) (Some f) None h' = full_path fuel (Some g) (Some (ljoin [slash] ds)) h')
      ∧ AddOrGetFileByPath g (ljoin [slash] ds) true h' = Ok (f, h')
  | Err e => e = AssertionError
  end.
Proof.
  intros Hok Hg Hgroup Hne Hds. unfold AddOrGetFileByPath.
  pose proof (add_or_get_file_located (S (length (ljoin [slash] ds))) h g gx ds (plain_length ds Hds) Hne Hds Hok Hg Hgroup) as Hadd.
  destruct (add_or_get_file _ g _ true h) as [[f h']|e]; [|done]. destruct Hadd as (Hok'&Hgrows&Hloc). split_and!; [done..| |].
  - intros fuel. by apply located_path.
  - apply located_found; [by apply plain_length|done|done].
Qed.

(** ** Taking over only children

    The files below an object, each with its path from there on: a path that starts at a root or a variable starts anew, as in [FullPath]. *)
Definition path_below (base p : option text) : option text :=
  match base, p with
  | Some b, Some q => if lstarts [slash] q || lstarts ["$"%char] q then Some q else Some (p_join b q)
  | None, _ => p
  | _, None => base
  end.
Fixpoint file_paths (fuel : nat) (base : option text) (o : nat) : XM (list (nat * option text)) :=
  match fuel with
  | 0 => throw OutOfFuel
  | S fuel =>
      x ← get o;
      p ← lift (PathFromSourceTreeAndPath x);
      if class_of x ==? PBXGroup then
        l ← children o; files ← map_m (file_paths fuel (path_below base p)) l; mret (concat files)
      else mret [(o, path_below base p)]
  end.

Lemma p_join_assoc a b c : p_join (p_join a b) c = p_join a (p_join b c).
Proof.
  unfold p_join. destruct (lstarts [slash] c) eqn:Hc; [by rewrite Hc|].
  destruct (lstarts [slash] b) eqn:Hb.
  - assert (∀ t, lstarts [slash] (b ++ t) = true) as Hbt by (intros t; destruct b; [done|exact Hb]).
    destruct (_ || _); by rewrite Hbt.
  - assert (∀ t, b ≠ [] → lstarts [slash] (b ++ t) = false) as Hbt by (intros t Hne; destruct b; [done|exact Hb]).
    destruct (decide (b = [])) as [->|Hne].
    + cbn [app]. rewrite (bool_decide_eq_true_2 (@nil ascii = [])) by done. cbn [orb app]. rewrite Hc, app_nil_r.
      destruct (decide (a = [])) as [->|Ha]; [done|]. rewrite (bool_decide_eq_false_2 (a = [])) by done. cbn [orb].
      destruct (decide (last a = Some slash)) as [Hl|Hl].
      * rewrite (bool_decide_eq_true_2 (last a = Some slash)) by done. rewrite (bool_decide_eq_false_2 (a = [])) by done. cbn [orb]. by rewrite bool_decide_eq_true_2.
      * rewrite (bool_decide_eq_false_2 (last a = Some slash)) by done. rewrite (bool_decide_eq_false_2 (a ++ [slash] = [])) by (by destruct a).
        rewrite last_snoc. rewrite (bool_decide_eq_true_2 (Some slash = Some slash)) by done. cbn [orb]. by rewrite <- app_assoc.
    + rewrite (bool_decide_eq_false_2 (b = [])) by done. cbn [orb].
      assert (∀ t : text, (t ++ b ==? []) = false) as Hnil by (intros t; apply bool_decide_eq_false_2; by destruct t, b).
      assert (∀ t, last (t ++ b) = last b) as Hlast by (intros t; rewrite last_app; destruct (last b) eqn:Hl; [done|by apply last_None in Hl]).
      destruct ((a ==? []) || (last a ==? Some slash)).
      * rewrite Hnil, Hlast. cbn [orb]. case_bool_decide; rewrite Hbt by done; by rewrite <- !app_assoc.
      * change (a ++ slash :: b) with (a ++ ([slash] ++ b)). rewrite app_assoc, Hnil, Hlast. cbn [orb]. case_bool_decide; rewrite Hbt by done; by rewrite <- !app_assoc.
Qed.

Lemma p_join_starts c a b : a ≠ [] → lstarts [slash] b = false → lstarts [c] (p_join a b) = lstarts [c] a.
Proof. intros Ha Hb. unfold p_join. rewrite Hb. destruct a; [done|]. by destruct (_ || _). Qed.

(** Groups that are relative to their parents have no path that starts with a dollar. *)
Definition no_dollar (ps : xprops) : Prop := default group_tree (str_of ps "sourceTree") = group_tree → ∀ p, str_of ps "path" = Some p → lstarts ["$"%char] p = false.

(** The path of the properties *)
Definition path_of (ps : xprops) : option (option text) :=
  tree ← str_of ps "sourceTree";
  Some (match (if tree ==? group_tree then [] else [chars "$(" ++ tree ++ chars ")"]) ++ option_list (str_of ps "path") with
        | [] => None | p :: ps => Some (p_join_list p ps) end).
Lemma PathFrom_path_of x p : PathFromSourceTreeAndPath x = Ok p ↔ path_of (properties x) = Some p.
Proof.
  unfold PathFromSourceTreeAndPath, path_of, property, str_of, str_property. destruct (dict_get (properties x) "sourceTree") as [[]|]; cbn; try done.
  split; intros Heq; by simplify_eq.
Qed.

Lemma str_of_set_eq ps key t : str_of (dict_set ps key (XStr t)) key = Some t.
Proof. unfold str_of. by rewrite dict_get_set_eq. Qed.
Lemma str_of_set_ne ps key key' v : key ≠ key' → str_of (dict_set ps key v) key' = str_of ps key'.
Proof. intros Hne. unfold str_of. by rewrite dict_get_set_ne. Qed.
Lemma str_of_del_ne ps key key' : key ≠ key' → str_of (dict_del ps key) key' = str_of ps key'.
Proof. intros Hne. unfold str_of. by rewrite dict_get_del_ne. Qed.

(** The tree and the path that the group gets *)
Definition merged (old ps : xprops) : option text * option text :=
  if default group_tree (str_of ps "sourceTree") ==? group_tree then
    (match dict_get old "sourceTree" with Some _ => str_of old "sourceTree" | None => str_of ps "sourceTree" end,
     match str_of old "path", str_of ps "path" with Some p, Some q => Some (p_join p q) | Some p, None => Some p | None, q => q end)
  else (str_of ps "sourceTree", str_of ps "path").

Lemma take_over_merged old ps :
  str_of (take_over_properties old ps) "sourceTree" = (merged old ps).1 ∧ str_of (take_over_properties old ps) "path" = (merged old ps).2
  ∧ dict_get (take_over_properties old ps) "children" = dict_get ps "children".
Proof.
  unfold take_over_properties. cbn zeta.
  set (ps1 := if default group_tree (str_of ps "sourceTree") ==? group_tree then _ else ps).
  assert (str_of ps1 "sourceTree" = (merged old ps).1 ∧ str_of ps1 "path" = (merged old ps).2 ∧ dict_get ps1 "children" = dict_get ps "children") as (Ht&Hp&Hc).
  { subst ps1. unfold merged. case_bool_decide; [|done]. cbn [fst snd].
    set (psa := match str_of old "path" with Some p => _ | None => ps end).
    assert (str_of psa "sourceTree" = str_of ps "sourceTree" ∧ dict_get psa "children" = dict_get ps "children"
      ∧ str_of psa "path" = match str_of old "path", str_of ps "path" with Some p, Some q => Some (p_join p q) | Some p, None => Some p | None, q => q end) as (Hta&Hca&Hpa).
    { subst psa. destruct (str_of old "path"), (str_of ps "path") eqn:Hq; rewrite ?str_of_set_eq, ?str_of_set_ne, ?dict_get_set_ne by done; by rewrite ?Hq. }
    rewrite <- Hta, <- Hpa, <- Hca. destruct (dict_get old "sourceTree") as [tree|] eqn:Htree; [|done].
    split_and!; [unfold str_of; by rewrite dict_get_set_eq, Htree|by rewrite str_of_set_ne|by rewrite dict_get_set_ne]. }
  set (name := match str_of ps1 "name" with Some n => Some n | None => str_of ps1 "path" end).
  set (ps2 := match str_of old "name" with Some n => if Some n ==? name then ps1 else dict_set ps1 "name" (XStr n) | None => ps1 end).
  assert (str_of ps2 "sourceTree" = str_of ps1 "sourceTree" ∧ str_of ps2 "path" = str_of ps1 "path" ∧ dict_get ps2 "children" = dict_get ps1 "children") as (Ht2&Hp2&Hc2).
  { subst ps2. destruct (str_of old "name"); [|done]. case_bool_decide; [done|]. by rewrite !str_of_set_ne, dict_get_set_ne. }
  rewrite <- Ht, <- Hp, <- Hc, <- Ht2, <- Hp2, <- Hc2. destruct (str_of ps2 "name"); [|done]. destruct (str_of ps2 "path") eqn:Hp3; [|by rewrite Hp3].
  case_bool_decide; [|by rewrite Hp3]. rewrite !str_of_del_ne, dict_get_del_ne by done. by rewrite Hp3.
Qed.

Lemma take_over_no_dollar old ps : no_dollar old → no_dollar ps → is_Some (str_of old "sourceTree") → no_dollar (take_over_properties old ps).
Proof.
  intros Ho Hps [t Ht] Htree p Hp. destruct (take_over_merged old ps) as (Hmt&Hmp&_). rewrite Hmt in Htree. rewrite Hmp in Hp. clear Hmt Hmp.
  unfold merged in *. case_bool_decide as Hg; cbn [fst snd] in *; [|by apply Hps].
  assert (default group_tree (str_of old "sourceTree") = group_tree) as Hot.
  { unfold str_of in *. destruct (dict_get old "sourceTree") as [[]|]; by simplify_eq. }
  destruct (str_of old "path") as [p0|] eqn:Hp0, (str_of ps "path") as [q|] eqn:Hq; simplify_eq.
  - destruct (decide (p0 = [])) as [->|Hne]; [unfold p_join; destruct (lstarts [slash] q); by apply Hps|].
    destruct (lstarts [slash] q) eqn:Hs; [unfold p_join; rewrite Hs; by apply Hps|]. rewrite p_join_starts by done. by apply Ho.
  - by apply Ho.
  - by apply Hps.
Qed.

(** Does a path start anew? *)
Definition rooted (p : text) : bool := lstarts [slash] p || lstarts ["$"%char] p.
Lemma path_below_rooted base p : rooted p = true → path_below base (Some p) = Some p.
Proof. intros Hp. destruct base; [|done]. unfold path_below. fold (rooted p). by rewrite Hp. Qed.
Lemma path_below_None base : path_below base None = base.
Proof. by destruct base. Qed.

Lemma p_join_rooted p q : p ≠ [] → rooted p = true → rooted (p_join p q) = true.
Proof.
  intros Hne Hp. destruct (lstarts [slash] q) eqn:Hq; [unfold p_join, rooted; by rewrite Hq, Hq|]. unfold rooted in *. by rewrite !p_join_starts.
Qed.

Lemma path_below_join base p q : lstarts ["$"%char] q = false → path_below base (Some (p_join p q)) = path_below (path_below base (Some p)) (Some q).
Proof.
  intros Hdol. destruct (lstarts [slash] q) eqn:Hq.
  - assert (rooted q = true) as Hr by (unfold rooted; by rewrite Hq). assert (p_join p q = q) as -> by (unfold p_join; by rewrite Hq). by rewrite !path_below_rooted.
  - destruct base as [b|]; [|cbn [path_below]; by rewrite Hq, Hdol]. destruct (rooted p) eqn:Hp.
    + assert (p ≠ []) as Hne by (by intros ->). rewrite (path_below_rooted _ p), (path_below_rooted _ (p_join p q)) by (done || by apply p_join_rooted). unfold path_below. by rewrite Hq, Hdol.
    + assert (rooted (p_join p q) = false) as Hpq.
      { destruct (decide (p = [])) as [->|Hne]; [unfold rooted, p_join; rewrite Hq; cbn [app orb]; rewrite bool_decide_eq_true_2 by done; cbn [orb app]; by rewrite Hq, Hdol|].
        unfold rooted in *. by rewrite !p_join_starts. }
      unfold path_below at 1 3. fold (rooted (p_join p q)) (rooted p). rewrite Hpq, Hp. unfold path_below. rewrite Hq, Hdol. cbn [orb]. by rewrite p_join_assoc.
Qed.

Lemma path_of_str ps p : path_of ps = Some p → ∃ tree, str_of ps "sourceTree" = Some tree
  ∧ p = if tree ==? group_tree then str_of ps "path"
        else Some (match str_of ps "path" with Some q => p_join (chars "$(" ++ tree ++ chars ")") q | None => chars "$(" ++ tree ++ chars ")" end).
Proof.
  unfold path_of. destruct (str_of ps "sourceTree") as [tree|]; [|done]. cbn [mbind option_bind]. intros [= <-]. exists tree. split; [done|].
  case_bool_decide; by destruct (str_of ps "path").
Qed.
Lemma path_of_eq ps tree p : str_of ps "sourceTree" = Some tree → str_of ps "path" = p →
  path_of ps = Some (if tree ==? group_tree then p else Some (match p with Some q => p_join (chars "$(" ++ tree ++ chars ")") q | None => chars "$(" ++ tree ++ chars ")" end)).
Proof. intros Ht <-. unfold path_of. rewrite Ht. cbn [mbind option_bind]. f_equal. case_bool_decide; by destruct (str_of ps "path"). Qed.

(** The path of the group is the path of the child below it. *)
Lemma take_over_path old ps p q : path_of old = Some p → path_of ps = Some q → no_dollar ps →
  ∃ r, path_of (take_over_properties old ps) = Some r ∧ ∀ base, path_below base r = path_below (path_below base p) q.
Proof.
  intros (T&HT&->)%path_of_str (U&HU&->)%path_of_str Hdol. destruct (take_over_merged old ps) as (Ht&Hp&_).
  unfold merged in *. rewrite HU in *. cbn [default from_option id] in *.
  set (root := λ T : text, chars "$(" ++ T ++ chars ")") in *.
  assert (∀ T q, rooted (p_join (root T) q) = true) as Hroot by (intros T' q; by apply p_join_rooted).
  case_bool_decide as HUg; cbn [fst snd] in Ht, Hp.
  - subst U. assert (dict_get old "sourceTree" = Some (XStr T)) as HT' by (unfold str_of in HT; destruct (dict_get old "sourceTree") as [[]|]; by simplify_eq).
    rewrite HT', HT in Ht. eexists. split; [by eapply path_of_eq|]. intros base.
    destruct (str_of old "path") as [a|] eqn:Ha, (str_of ps "path") as [c|] eqn:Hc; rewrite ?path_below_None.
    + assert (lstarts ["$"%char] c = false) as Hd by (apply Hdol; [by rewrite HU|done]).
      case_bool_decide; [by apply path_below_join|]. fold (root T). rewrite <- p_join_assoc. by apply path_below_join.
    + by case_bool_decide.
    + assert (lstarts ["$"%char] c = false) as Hd by (apply Hdol; [by rewrite HU|done]).
      case_bool_decide; [by rewrite path_below_None|]. fold (root T). by apply path_below_join.
    + by case_bool_decide; rewrite ?path_below_None.
  - eexists. split; [by eapply path_of_eq|]. intros base. rewrite bool_decide_eq_false_2 by done. fold (root U).
    destruct (str_of ps "path"); rewrite !path_below_rooted; done.
Qed.

(** What the paths depend on *)
Definition view (h : heap) (o : nat) : option (cls * xprops) := (λ x, (class_of x, properties x)) <$> objects h !! o.
Lemma view_Some h o c ps : view h o = Some (c, ps) ↔ ∃ x, objects h !! o = Some x ∧ class_of x = c ∧ properties x = ps.
Proof. unfold view. rewrite fmap_Some. split; [intros (x&Hx&[= -> ->]); by exists x|]. by intros (x&Hx&<-&<-); exists x. Qed.
Definition children_in (ps : xprops) : option (list nat) := objects_of <$> dict_get ps "children".

Lemma children_Ok o l h h' : children o h = Ok (l, h') ↔ h' = h ∧ ∃ c ps, view h o = Some (c, ps) ∧ children_in ps = Some l.
Proof.
  unfold children. rewrite XM_bind_Ok. split.
  - intros (x&h1&Hget&Hrun). unfold get in Hget. destruct (objects h !! o) as [x'|] eqn:Hx; [|done]. injection Hget as -> <-.
    apply XM_bind_Ok in Hrun as (v&h1&Hv&Hret). unfold lift, property in Hv. destruct (dict_get (properties x) "children") as [w|] eqn:Hw; [|done]. injection Hv as -> <-.
    apply XM_ret_Ok in Hret as [-> ->]. split; [done|]. exists (class_of x), (properties x). unfold view, children_in. by rewrite Hx, Hw.
  - intros (->&c&ps&(x&Hx&<-&<-)%view_Some&Hl). exists x, h. split; [by apply get_lookup|]. apply XM_bind_Ok. unfold children_in in Hl.
    destruct (dict_get (properties x) "children") as [v|] eqn:Hv; [|done]. injection Hl as <-. exists v, h. unfold lift, property. by rewrite Hv.
Qed.

Lemma map_m_Forall2 {A B} (f : A → XM B) l h ls : (∀ a, a ∈ l → ∀ b h', f a h = Ok (b, h') → h' = h) →
  map_m f l h = Ok (ls, h) ↔ Forall2 (λ a b, f a h = Ok (b, h)) l ls.
Proof.
  revert ls. induction l as [|a l IH]; intros ls Hf; cbn [map_m].
  - split; [intros [-> _]%XM_ret_Ok; constructor|]. by intros ->%Forall2_nil_inv_l.
  - rewrite XM_bind_Ok. split.
    + intros (b&h1&Ha&(bs&h2&Hl&[-> <-]%XM_ret_Ok)%XM_bind_Ok). assert (h1 = h) as -> by (eapply Hf; [by left|done]).
      constructor; [done|]. apply IH; [|done]. intros. eapply Hf; [by right|done].
    + intros (b&bs&Ha&Hl&->)%Forall2_cons_inv_l. exists b, h. split; [done|]. apply XM_bind_Ok. exists bs, h. split; [|done]. apply IH; [|done]. intros. eapply Hf; [by right|done].
Qed.

Lemma reads_children o : reads (children o).
Proof. by intros h l h' [-> _]%children_Ok. Qed.
Lemma reads_file_paths fuel base o : reads (file_paths fuel base o).
Proof.
  revert base o. induction fuel as [|fuel IH]; intros base o; cbn [file_paths]; [apply reads_throw|]. apply reads_bind; [apply reads_get|]. intros x.
  apply reads_bind; [apply reads_lift|]. intros p. case_bool_decide; [|apply reads_ret]. apply reads_bind; [apply reads_children|]. intros l.
  apply reads_bind; [by apply reads_map_m|]. intros. apply reads_ret.
Qed.

Lemma file_paths_S fuel base o h files : file_paths (S fuel) base o h = Ok (files, h) ↔
  ∃ c ps p, view h o = Some (c, ps) ∧ path_of ps = Some p
  ∧ if c ==? PBXGroup then ∃ l ls, children_in ps = Some l ∧ Forall2 (λ c files, file_paths fuel (path_below base p) c h = Ok (files, h)) l ls ∧ files = concat ls
    else files = [(o, path_below base p)].
Proof.
  cbn [file_paths]. rewrite XM_bind_Ok. split.
  - intros (x&h1&Hget&Hrun). unfold get in Hget. destruct (objects h !! o) as [x'|] eqn:Hx; [|done]. injection Hget as -> <-.
    apply XM_bind_Ok in Hrun as (p&h1&Hp&Hrun). unfold lift in Hp. destruct (PathFromSourceTreeAndPath x) as [p'|] eqn:Hpath; [|done]. injection Hp as -> <-.
    exists (class_of x), (properties x), p. split_and!; [by apply view_Some; exists x|by apply PathFrom_path_of|]. case_bool_decide; [|by apply XM_ret_Ok in Hrun as [-> _]].
    apply XM_bind_Ok in Hrun as (l&h1&Hl&Hrun). apply children_Ok in Hl as (->&c&ps&Hv&Hl). apply view_Some in Hv as (x'&Hx'&_&<-). rewrite Hx in Hx'. injection Hx' as <-.
    apply XM_bind_Ok in Hrun as (ls&h1&Hls&Hret). apply XM_ret_Ok in Hret as [-> <-]. exists l, ls. split_and!; [done| |done].
    apply map_m_Forall2 in Hls; [done|]. intros. by eapply reads_file_paths.
  - intros (c&ps&p&Hv&Hp&Hrest). pose proof Hv as Hv'. apply view_Some in Hv as (x&Hx&<-&<-). exists x, h. split; [by apply get_lookup|]. apply XM_bind_Ok.
    exists p, h. unfold lift. rewrite (proj2 (PathFrom_path_of _ _) Hp). split; [done|]. case_bool_decide; [|by rewrite Hrest].
    destruct Hrest as (l&ls&Hl&Hls&->). apply XM_bind_Ok. exists l, h. split; [apply children_Ok; split; [done|by eexists _, _]|]. apply XM_bind_Ok. exists ls, h.
    split; [|done]. apply map_m_Forall2; [|done]. intros. by eapply reads_file_paths.
Qed.

Lemma file_paths_mono fuel fuel' base o h files : fuel ≤ fuel' → file_paths fuel base o h = Ok (files, h) → file_paths fuel' base o h = Ok (files, h).
Proof.
  revert fuel' base o files. induction fuel as [|fuel IH]; intros fuel' base o files Hf Hrun; [done|]. destruct fuel' as [|fuel']; [lia|].
  apply file_paths_S in Hrun as (c&ps&p&Hv&Hp&Hrest). apply file_paths_S. exists c, ps, p. split_and!; [done..|]. case_bool_decide; [|done].
  destruct Hrest as (l&ls&Hl&Hls&->). exists l, ls. split_and!; [done| |done]. eapply Forall2_impl; [exact Hls|]. intros ? ? ?. apply IH; [lia|done].
Qed.

(** The step of the loop *)
Lemma set_parents h p l : (∀ o, o ∈ l → is_Some (objects h !! o)) →
  ∃ h', for_m l (λ o, modify o (with_parent p)) h = Ok (tt, h') ∧ next h' = next h ∧ ∀ o, view h' o = view h o.
Proof.
  revert h. induction l as [|o l IH]; intros h Hl; [by exists h|]. destruct (Hl o) as [x Hx]; [by left|].
  cbn [for_m]. unfold mbind, XM_bind. rewrite (modify_lookup _ _ _ _ Hx). set (h1 := Heap _ _).
  assert (∀ o, view h1 o = view h o) as Hv.
  { intros o'. unfold view. subst h1. cbn [objects]. destruct (decide (o' = o)) as [->|Hne]; [by rewrite lookup_insert_eq, Hx|by rewrite lookup_insert_ne]. }
  destruct (IH h1) as (h'&Hrun&Hn&Hv').
  { intros o' Ho'. subst h1. cbn [objects]. destruct (decide (o' = o)) as [->|Hne]; [by rewrite lookup_insert_eq|]. rewrite lookup_insert_ne by done. apply Hl. by right. }
  exists h'. split_and!; [done|by rewrite Hn|]. intros o'. by rewrite Hv', Hv.
Qed.

Lemma take_over_spec h o c k ps kc psc l :
  view h o = Some (k, ps) → view h c = Some (kc, psc) → children_in psc = Some l → (∀ g, g ∈ l → is_Some (objects h !! g)) →
  ∃ h', take_over o c h = Ok (tt, h') ∧ next h' = next h
    ∧ ∀ o', view h' o' = if decide (o' = o) then Some (k, take_over_properties ps psc) else view h o'.
Proof.
  intros (x&Hx&<-&<-)%view_Some (cx&Hcx&<-&<-)%view_Some Hl Hex. unfold take_over, mbind, XM_bind. rewrite (get_lookup _ _ _ Hx), (get_lookup _ _ _ Hcx).
  rewrite (modify_lookup _ _ _ _ Hx). set (h1 := Heap _ _).
  assert (∀ o', view h1 o' = if decide (o' = o) then Some (class_of x, take_over_properties (properties x) (properties cx)) else view h o') as Hv.
  { intros o'. unfold view at 1. subst h1. cbn [objects]. case_decide as Ho; [subst o'; by rewrite lookup_insert_eq|by rewrite lookup_insert_ne]. }
  assert (children o h1 = Ok (l, h1)) as ->.
  { apply children_Ok. split; [done|]. eexists _, _. rewrite Hv, decide_True by done. split; [done|]. unfold children_in. destruct (take_over_merged (properties x) (properties cx)) as (_&_&->). done. }
  destruct (set_parents h1 (Some o) l) as (h'&Hrun&Hn&Hv').
  { intros g Hg. subst h1. cbn [objects]. destruct (decide (g = o)) as [->|Hne]; [by rewrite lookup_insert_eq|]. rewrite lookup_insert_ne by done. by apply Hex. }
  exists h'. split_and!; [done|by rewrite Hn|]. intros o'. by rewrite Hv', Hv.
Qed.

Definition same_files (h h' : heap) : Prop := ∀ fuel base o files, file_paths fuel base o h = Ok (files, h) → file_paths fuel base o h' = Ok (files, h').
Definition plain_groups (h : heap) : Prop := ∀ o ps, view h o = Some (PBXGroup, ps) → no_dollar ps.
(** It has no only child to take over. *)
Definition collapsed (h : heap) (o : nat) : Prop :=
  ∀ ps c psc, view h o = Some (PBXGroup, ps) → children_in ps = Some [c] → view h c ≠ Some (PBXGroup, psc).

Record tidies (h h' : heap) : Prop := {
  tidies_files : same_files h h';
  tidies_plain : plain_groups h → plain_groups h';
  tidies_next : next h' = next h;
  tidies_class o : fst <$> view h' o = fst <$> view h o;
  tidies_collapsed o : collapsed h o → view h' o = view h o
}.

Lemma view_class h h' o c ps : tidies h h' → view h o = Some (c, ps) → ∃ ps', view h' o = Some (c, ps').
Proof. intros Ht Hv. pose proof (tidies_class _ _ Ht o) as Hc. rewrite Hv in Hc. destruct (view h' o) as [[c' ps']|]; [|done]. injection Hc as ->. by exists ps'. Qed.
Lemma view_class_inv h h' o c ps : tidies h h' → view h' o = Some (c, ps) → ∃ ps', view h o = Some (c, ps').
Proof. intros Ht Hv. pose proof (tidies_class _ _ Ht o) as Hc. rewrite Hv in Hc. destruct (view h o) as [[c' ps']|]; [|done]. injection Hc as ->. by exists ps'. Qed.
Lemma collapsed_stable h h' o : tidies h h' → collapsed h o → collapsed h' o.
Proof.
  intros Ht Hc ps c psc Hv Hl Hvc. rewrite (tidies_collapsed _ _ Ht o Hc) in Hv. destruct (view_class_inv _ _ _ _ _ Ht Hvc) as [psc' Hvc']. by eapply Hc.
Qed.
#[export] Instance tidies_preorder : PreOrder tidies.
Proof.
  split; [intros h; by split; [intros ? ? ? ?|..]|]. intros h1 h2 h3 H12 H23. split.
  - intros fuel base o files Hf. by apply (tidies_files _ _ H23), (tidies_files _ _ H12).
  - intros Hp. by apply (tidies_plain _ _ H23), (tidies_plain _ _ H12).
  - by rewrite (tidies_next _ _ H23), (tidies_next _ _ H12).
  - intros o. by rewrite (tidies_class _ _ H23), (tidies_class _ _ H12).
  - intros o Hc. rewrite (tidies_collapsed _ _ H23); [by apply (tidies_collapsed _ _ H12)|]. by eapply collapsed_stable.
Qed.

Lemma file_paths_exists fuel base o h files : file_paths fuel base o h = Ok (files, h) → is_Some (objects h !! o).
Proof. destruct fuel; [done|]. intros (c&ps&p&(x&Hx&_)%view_Some&_)%file_paths_S. by exists x. Qed.

(** Taking over a child leaves every path as it was. *)
Lemma take_over_step h o c ps psc fuel base files :
  plain_groups h → view h o = Some (PBXGroup, ps) → children_in ps = Some [c] → view h c = Some (PBXGroup, psc) →
  file_paths (S (S fuel)) base o h = Ok (files, h) →
  ∃ h', take_over o c h = Ok (tt, h') ∧ tidies h h' ∧ file_paths (S fuel) base o h' = Ok (files, h').
Proof.
  intros Hplain Ho Hps Hc Hfiles.
  apply file_paths_S in Hfiles as (k&ps'&p&Hv&Hp&Hrest). rewrite Ho in Hv. injection Hv as <- <-. rewrite bool_decide_eq_true_2 in Hrest by done.
  destruct Hrest as (l&ls&Hl&Hls&->). rewrite Hps in Hl. injection Hl as <-. apply Forall2_cons_inv_l in Hls as (fc&ls'&Hfc&->%Forall2_nil_inv_l&->).
  apply file_paths_S in Hfc as (k&ps'&q&Hv&Hq&Hrest). rewrite Hc in Hv. injection Hv as <- <-. rewrite bool_decide_eq_true_2 in Hrest by done.
  destruct Hrest as (l&ls&Hl&Hls&->).
  destruct (take_over_spec h o c _ _ _ _ l Ho Hc Hl) as (h'&Hrun&Hn&Hview).
  { intros g Hg. apply list_elem_of_lookup_1 in Hg as [i Hi]. destruct (Forall2_lookup_l _ _ _ _ _ Hls Hi) as (fg&_&Hfg). by eapply file_paths_exists. }
  destruct (take_over_path ps psc p q Hp Hq (Hplain _ _ Hc)) as (r&Hr&Hbelow).
  assert (same_files h h') as Hsame.
  { intros f. induction f as [f IH] using lt_wf_ind. intros b o' fs Hrun'. destruct f as [|f]; [done|].
    apply file_paths_S in Hrun' as (k&ps'&p'&Hv&Hp'&Hrest). apply file_paths_S. destruct (decide (o' = o)) as [->|Hne].
    - rewrite Ho in Hv. injection Hv as <- <-. rewrite Hp in Hp'. injection Hp' as <-. exists PBXGroup, (take_over_properties ps psc), r.
      rewrite Hview, decide_True by done. split_and!; [done..|]. rewrite bool_decide_eq_true_2 in Hrest |- * by done.
      destruct Hrest as (l'&ls'&Hl'&Hls'&->). rewrite Hps in Hl'. injection Hl' as <-. apply Forall2_cons_inv_l in Hls' as (fc&ls2&Hfc&->%Forall2_nil_inv_l&->).
      destruct f as [|f]; [done|]. apply file_paths_S in Hfc as (k&ps'&q'&Hv&Hq'&Hrest). rewrite Hc in Hv. injection Hv as <- <-. rewrite Hq in Hq'. injection Hq' as <-.
      rewrite bool_decide_eq_true_2 in Hrest by done. destruct Hrest as (l'&ls'&Hl'&Hls'&->). rewrite Hl in Hl'. injection Hl' as <-.
      exists l, ls'. split_and!; [|rewrite Hbelow|cbn [concat]; by rewrite app_nil_r].
      + unfold children_in. destruct (take_over_merged ps psc) as (_&_&->). exact Hl.
      + eapply Forall2_impl; [exact Hls'|]. intros g fg Hfg. apply IH; [lia|]. eapply file_paths_mono; [|exact Hfg]. lia.
    - exists k, ps', p'. rewrite Hview, decide_False by done. split_and!; [done..|]. case_bool_decide; [|done]. destruct Hrest as (l'&ls'&Hl'&Hls'&->).
      exists l', ls'. split_and!; [done| |done]. eapply Forall2_impl; [exact Hls'|]. intros g fg Hfg. apply IH; [lia|done]. }
  exists h'. split; [done|]. split.
  - split; [done| |done| |].
    + intros _ o' ps' Hv. rewrite Hview in Hv. case_decide; [|by eapply Hplain]. injection Hv as <-. apply path_of_str in Hp as (tree&Htree&_).
      apply take_over_no_dollar; [by eapply Hplain|by eapply Hplain|by exists tree].
    + intros o'. rewrite Hview. case_decide; [|done]. subst. by rewrite Ho.
    + intros o' Hcol. rewrite Hview. case_decide; [|done]. subst. by destruct (Hcol _ _ _ Ho Hps Hc).
  - apply file_paths_S. exists PBXGroup, (take_over_properties ps psc), r. rewrite Hview, decide_True by done. split_and!; [done..|].
    rewrite bool_decide_eq_true_2 by done. exists l, ls. split_and!; [|rewrite Hbelow|cbn [concat]; by rewrite app_nil_r].
    + unfold children_in. destruct (take_over_merged ps psc) as (_&_&->). exact Hl.
    + eapply Forall2_impl; [exact Hls|]. intros g fg Hfg. by apply Hsame.
Qed.

Lemma get_class_Ok o k ps h : view h o = Some (k, ps) → ∃ x, get o h = Ok (x, h) ∧ class_of x = k.
Proof. intros (x&Hx&<-&_)%view_Some. exists x. split; [by apply get_lookup|done]. Qed.

Lemma take_over_loop_spec fuel h o ps base files :
  plain_groups h → view h o = Some (PBXGroup, ps) → file_paths fuel base o h = Ok (files, h) →
  ∃ h', take_over_loop fuel o h = Ok (tt, h') ∧ tidies h h' ∧ collapsed h' o.
Proof.
  revert h ps. induction fuel as [|fuel IH]; intros h ps Hplain Ho Hfiles; [done|]. cbn [take_over_loop].
  pose proof Hfiles as Hfiles0. apply file_paths_S in Hfiles as (k&ps'&p&Hv&Hp&Hrest). rewrite Ho in Hv. injection Hv as <- <-. rewrite bool_decide_eq_true_2 in Hrest by done.
  destruct Hrest as (l&ls&Hl&Hls&->). unfold mbind, XM_bind.
  assert (children o h = Ok (l, h)) as -> by (apply children_Ok; split; [done|by eexists _, _]).
  assert ((∀ c psc, l = [c] → view h c ≠ Some (PBXGroup, psc)) → ∃ h', (mret tt : XM unit) h = Ok (tt, h') ∧ tidies h h' ∧ collapsed h' o) as Hdone.
  { intros Hno. exists h. split_and!; [done|done|]. intros ps' c psc Hv Hl'. rewrite Ho in Hv. injection Hv as <-. rewrite Hl in Hl'. injection Hl' as ->. by apply Hno. }
  destruct l as [|c [|c' l]]; [by apply Hdone| |by apply Hdone].
  apply Forall2_cons_inv_l in Hls as (fc&ls'&Hfc&_&_). destruct fuel as [|fuel]; [done|].
  pose proof Hfc as (k&psc&q&Hvc&_&_)%file_paths_S. destruct (get_class_Ok _ _ _ _ Hvc) as (cx&->&Hk). rewrite Hk. case_bool_decide as Hclass.
  - subst k. destruct (take_over_step h o c ps psc fuel base _ Hplain Ho Hl ltac:(by rewrite <- Hclass) Hfiles0) as (h1&->&Ht&Hfiles1).
    destruct (view_class _ _ _ _ _ Ht Ho) as [ps1 Ho1]. destruct (IH h1 ps1 (tidies_plain _ _ Ht Hplain) Ho1 Hfiles1) as (h'&Hrun&Ht'&Hcol).
    exists h'. split_and!; [done|by etrans|done].
  - apply Hdone. intros c' psc' [= <-]. rewrite Hvc. congruence.
Qed.

(** The groups below a group, itself included *)
Inductive below (h : heap) : nat → nat → Prop :=
  | below_self o : below h o o
  | below_child o ps l c psc d : view h o = Some (PBXGroup, ps) → children_in ps = Some l → c ∈ l → view h c = Some (PBXGroup, psc) → below h c d → below h o d.

Lemma below_stable h h' o : tidies h h' → (∀ d, below h o d → collapsed h d) → ∀ d, below h' o d → collapsed h' d.
Proof.
  intros Ht Hall d Hd. revert Hall. induction Hd as [o|o ps l c psc d Hv Hl Hc Hvc Hd IH]; intros Hall.
  - eapply collapsed_stable; [done|]. apply Hall. constructor.
  - apply IH. intros d' Hd'. rewrite (tidies_collapsed _ _ Ht o) in Hv by (apply Hall; constructor). destruct (view_class_inv _ _ _ _ _ Ht Hvc) as [psc' Hvc'].
    apply Hall. by eapply below_child.
Qed.

Lemma take_over_only_child_spec fuel recurse h o ps base files :
  plain_groups h → view h o = Some (PBXGroup, ps) → file_paths fuel base o h = Ok (files, h) →
  ∃ h', take_over_only_child fuel recurse o h = Ok (tt, h') ∧ tidies h h' ∧ collapsed h' o ∧ (recurse = true → ∀ d, below h' o d → collapsed h' d).
Proof.
  revert h o ps base files. induction fuel as [|fuel IH]; intros h o ps base files Hplain Ho Hfiles; [done|]. cbn [take_over_only_child].
  destruct (take_over_loop_spec _ _ _ _ _ _ Hplain Ho Hfiles) as (h1&Hloop&Ht&Hcol). unfold mbind at 1, XM_bind at 1. rewrite Hloop.
  destruct recurse; [|by exists h1].
  apply (tidies_files _ _ Ht) in Hfiles. pose proof (tidies_plain _ _ Ht Hplain) as Hplain1. clear Hloop.
  apply file_paths_S in Hfiles as (k&ps1&p&Ho1&_&Hrest). destruct (view_class _ _ _ _ _ Ht Ho) as [ps1' Hv]. rewrite Ho1 in Hv. injection Hv as -> <-.
  rewrite bool_decide_eq_true_2 in Hrest by done. destruct Hrest as (l&ls&Hl&Hls&_). unfold mbind at 1, XM_bind at 1.
  assert (children o h1 = Ok (l, h1)) as -> by (apply children_Ok; split; [done|by eexists _, _]).
  assert (∀ cs fs h1, plain_groups h1 → Forall2 (λ c files, file_paths fuel (path_below base p) c h1 = Ok (files, h1)) cs fs →
    ∃ h', for_m cs (λ child, c ← get child; if class_of c ==? PBXGroup then take_over_only_child fuel true child else mret tt) h1 = Ok (tt, h')
      ∧ tidies h1 h' ∧ ∀ c psc, c ∈ cs → view h' c = Some (PBXGroup, psc) → ∀ d, below h' c d → collapsed h' d) as Hfor.
  { clear -IH. intros cs fs h1 Hplain Hls. revert h1 Hplain Hls. revert fs. induction cs as [|c cs IHcs]; intros fs h1 Hplain Hls.
    - exists h1. split_and!; [done|done|]. by intros c psc ?%elem_of_nil.
    - apply Forall2_cons_inv_l in Hls as (fc&fs'&Hfc&Hls&->). cbn [for_m]. unfold mbind at 1, XM_bind at 1. unfold mbind at 1, XM_bind at 1.
      destruct fuel as [|fuel]; [done|]. pose proof Hfc as (k&psc&q&Hvc&_&_)%file_paths_S. destruct (get_class_Ok _ _ _ _ Hvc) as (cx&->&Hk). rewrite Hk.
      assert (∃ h2, (if k ==? PBXGroup then take_over_only_child (S fuel) true c else mret tt) h1 = Ok (tt, h2) ∧ tidies h1 h2
        ∧ ∀ psc, view h2 c = Some (PBXGroup, psc) → ∀ d, below h2 c d → collapsed h2 d) as (h2&->&Ht2&Hbelow2).
      { case_bool_decide as Hclass.
        - subst k. rewrite Hclass in Hvc. destruct (IH h1 c psc _ _ Hplain Hvc Hfc) as (h2&Hrun&Ht2&_&Hb). exists h2. split_and!; [done|done|]. intros. by apply Hb.
        - exists h1. split_and!; [done|done|]. intros psc' Hv. rewrite Hvc in Hv. congruence. }
      destruct (IHcs fs' h2 (tidies_plain _ _ Ht2 Hplain)) as (h'&->&Ht'&Hbelow').
      { eapply Forall2_impl; [exact Hls|]. intros c' f' Hf'. by apply (tidies_files _ _ Ht2). }
      exists h'. split_and!; [done|by etrans|]. intros c' psc' [->|Hc']%elem_of_cons Hv; [|by eapply Hbelow'].
      destruct (view_class_inv _ _ _ _ _ Ht' Hv) as [psc2 Hv2]. eapply below_stable; [done|]. by eapply Hbelow2. }
  destruct (Hfor l ls h1 Hplain1 Hls) as (h'&->&Ht'&Hbelow'). exists h'. split_and!; [done|by etrans|by eapply collapsed_stable|].
  intros _ d Hd. destruct Hd as [|o ps' l' c psc d Hv Hl' Hc Hvc Hd]; [by eapply collapsed_stable|].
  rewrite (tidies_collapsed _ _ Ht' o Hcol), Ho1 in Hv. injection Hv as <-. rewrite Hl in Hl'. injection Hl' as <-. by eapply Hbelow'.
Qed.


(** ** Examples *)
Definition group_run {A} (m : nat → XM A) : result A := match (g ← new PBXGroup [("name", str "Source")]; m g) module_heap with Ok (a, _) => Ok a | Err e => Err e end.
Definition add_files (g : nat) (l : list string) : XM (list nat) := map_m (λ p, AddOrGetFileByPath g (chars p) true) l.
Definition full_paths (l : list nat) : XM (list (option string)) := ps ← map_m FullPath l; mret ((λ p : option text, of_chars <$> p) <$> (ps : list (option text))).

Example files_of_a_group :
  group_run (λ g, l ← add_files g ["src/main.cc"; "src/./lib/../util.cc"; "src/main.cc"; "$(INTERMEDIATE_DIR)/gen/k.c"]; ps ← full_paths l; mret (nth 0 l 0 =? nth 2 l 0, ps))
  = Ok (true, [Some "src/main.cc"; Some "src/util.cc"; Some "src/main.cc"; Some "$(INTERMEDIATE_DIR)/gen/k.c"]).
Proof. vm_compute. reflexivity. Qed.

(** The variants of a file are in one group. *)
Example variants :
  group_run (λ g, l ← add_files g ["res/en.lproj/Main.nib"; "res/fr.lproj/Main.nib"]; x ← get (nth 0 l 0); mret (nth 0 l 0 =? nth 1 l 0, class_of x, length (objects_property "children" x)))
  = Ok (true, PBXVariantGroup, 2).
Proof. vm_compute. reflexivity. Qed.

(** A directory is looked up with its last slash, under which it is not stored, so adding it again fails. *)
Example directory_twice : group_run (λ g, add_files g ["res/"; "res/"]) = Err (ValueError "Found multiple children with path res").
Proof. vm_compute. reflexivity. Qed.

(** The root of an absolute path becomes a group with an empty path, which is not found again and makes the path a relative one. *)
Example absolute_path :
  group_run (λ g, l ← add_files g ["/usr/a.c"; "/usr/a.c"]; ps ← full_paths l; x ← get g; mret (nth 0 l 0 =? nth 1 l 0, ps, length (objects_property "children" x)))
  = Ok (false, [Some "usr/a.c"; Some "usr/a.c"], 2).
Proof. vm_compute. reflexivity. Qed.

(** What is taken over loses its variant groups to lookup: the same variant makes a second group. *)
Example variants_after_taking_over :
  group_run (λ g, l ← add_files g ["res/en.lproj/Main.nib"]; _ ← TakeOverOnlyChild true g; l' ← add_files g ["fr.lproj/Main.nib"]; mret (nth 0 l 0 =? nth 0 l' 0))
  = Ok false.
Proof. vm_compute. reflexivity. Qed.

Definition sample_group_heap : heap := match new PBXGroup [("name", str "Source")] module_heap with Ok (_, h) => h | Err _ => module_heap end.
Definition sample_group : nat := match new PBXGroup [("name", str "Source")] module_heap with Ok (o, _) => o | Err _ => 0 end.
Definition sample_components : list text := chars <$> ["src"; "lib"; "main.cc"].

Definition no_dicts (h : heap) : bool :=
  forallb (λ p, (children_by_path p.2 ==? []) && (negb (subclass (class_of p.2) PBXGroup) || match dict_get (properties p.2) "children" with Some (XList _) => true | _ => false end))
    (map_to_list (objects h)).
Lemma no_dicts_tree h : well_typed h → no_dicts h = true → tree_ok h.
Proof.
  intros Hwt Hb. unfold no_dicts in Hb. rewrite forallb_forall in Hb. split; [done| |].
  - intros g gx Hg%elem_of_map_to_list%list_elem_of_In%Hb Hgroup. apply andb_true_iff in Hg as [_ Hg]. cbn [snd] in Hg. rewrite Hgroup in Hg. cbn [negb orb] in Hg.
    destruct (dict_get (properties gx) "children") as [[| | |l|]|]; try done. by exists l.
  - intros g gx p c Hg%elem_of_map_to_list%list_elem_of_In%Hb Hd. apply andb_true_iff in Hg as [Hg _]. apply bool_decide_eq_true in Hg. cbn [snd] in Hg. by rewrite Hg in Hd.
Qed.

Lemma sample_group_ok : tree_ok sample_group_heap ∧ ∃ gx, objects sample_group_heap !! sample_group = Some gx ∧ subclass (class_of gx) PBXGroup = true.
Proof.
  assert (new PBXGroup [("name", str "Source")] module_heap = Ok (sample_group, sample_group_heap)) as Hnew.
  { assert (is_ok (new PBXGroup [("name", str "Source")] module_heap) = true) as Hok by (vm_compute; reflexivity).
    unfold sample_group, sample_group_heap. by destruct (new PBXGroup _ _) as [[]|]. }
  destruct (keeps_new _ _ (λ _, True) _ _ _ module_heap_well_typed I Hnew) as (Hwt&_&gx&Hg&Hc).
  split; [apply no_dicts_tree; [done|vm_compute; reflexivity]|]. exists gx. split; [exact Hg|by rewrite Hc].
Qed.
Lemma sample_components_plain : Forall plain_component sample_components.
Proof.
  repeat (apply Forall_cons; split; [|]); [..|constructor]; (split; [split; [split_and!|]|]); try (by vm_compute); by apply (bool_decide_unpack _).
Qed.
Lemma sample_group_runs : is_ok (AddOrGetFileByPath sample_group (ljoin [slash] sample_components) true sample_group_heap) = true.
Proof. vm_compute. reflexivity. Qed.

Lemma AddOrGetFileByPath_correct_witness : ∃ f h', AddOrGetFileByPath sample_group (ljoin [slash] sample_components) true sample_group_heap = Ok (f, h')
  ∧ located h' sample_group sample_components f.
Proof.
  destruct sample_group_ok as (Hok&gx&Hg&Hgroup).
  pose proof (AddOrGetFileByPath_correct sample_group_heap sample_group gx sample_components Hok Hg Hgroup ltac:(discriminate) sample_components_plain) as Hadd.
  pose proof sample_group_runs as Hruns. destruct (AddOrGetFileByPath sample_group _ true sample_group_heap) as [[f h']|e]; [|discriminate Hruns].
  exists f, h'. split; [reflexivity|]. exact (proj1 (proj2 (proj2 Hadd))).
Defined.

(** The group with the file, for taking over *)
Definition sample_tree_heap : heap := match AddOrGetFileByPath sample_group (ljoin [slash] sample_components) true sample_group_heap with Ok (_, h) => h | Err _ => sample_group_heap end.
Definition plain_groupsb (h : heap) : bool :=
  forallb (λ p, negb (default group_tree (str_of (properties p.2) "sourceTree") ==? group_tree)
    || match str_of (properties p.2) "path" with Some q => negb (lstarts ["$"%char] q) | None => true end) (map_to_list (objects h)).
Lemma plain_groupsb_ok h : plain_groupsb h = true → plain_groups h.
Proof.
  intros Hb o ps (x&Hx&_&<-)%view_Some Htree q Hq. unfold plain_groupsb in Hb. rewrite forallb_forall in Hb. apply elem_of_map_to_list, list_elem_of_In, Hb in Hx. cbn [snd] in Hx.
  rewrite Htree, Hq in Hx. rewrite bool_decide_eq_true_2 in Hx by done. cbn [negb orb] in Hx. by apply negb_true_iff in Hx.
Qed.
Lemma sample_tree : plain_groups sample_tree_heap ∧ (∃ x, objects sample_tree_heap !! sample_group = Some x ∧ class_of x = PBXGroup)
  ∧ file_paths (S (next sample_tree_heap)) None sample_group sample_tree_heap = Ok ([(14, Some (chars "src/lib/main.cc"))], sample_tree_heap).
Proof.
  split; [apply plain_groupsb_ok; vm_compute; reflexivity|]. split.
  - assert (class_of <$> objects sample_tree_heap !! sample_group = Some PBXGroup) as Hc by (vm_compute; reflexivity).
    destruct (objects sample_tree_heap !! sample_group) as [x|]; [|done]. exists x. split; [done|]. by injection Hc.
  - assert (fst <$> file_paths (S (next sample_tree_heap)) None sample_group sample_tree_heap = Ok [(14, Some (chars "src/lib/main.cc"))]) as Hf by (vm_compute; reflexivity).
    destruct (file_paths _ None sample_group sample_tree_heap) as [[files h']|e] eqn:Hrun; [|done]. apply reads_file_paths in Hrun as ->. by injection Hf as ->.
Qed.
