(* ===== verification/XcProject.v ===== *)
(** * Build phases, targets and projects of Xcode

    The operations of [XCBuildPhase], [XCTarget], [PBXNativeTarget], [PBXProject] and [XCProjectFile] of
    tools/gyp/pylib/gyp/xcodeproj_file.py that put objects together: files of phases, phases of targets, products,
    dependencies within a project and across projects, the groups of a project. *)
From S2P Require Import Prelude PyDict PyStr PyPath Common XcObject XcPrint XcIds XcGroup.
From Stdlib Require Import Ascii.

Definition with_hashables (hs : list text) (x : xobject) : xobject :=
  XObject (class_of x) (xid x) (parent x) (properties x) hs (children_by_path x) (variant_children_by_name_and_path x) (files_by_path x)
    (files_by_xcfilelikeelement x) (path x) (other_pbxprojects x).
Definition with_other_projects (d : list (nat * (nat * nat))) (x : xobject) : xobject :=
  XObject (class_of x) (xid x) (parent x) (properties x) (hashables x) (children_by_path x) (variant_children_by_name_and_path x) (files_by_path x)
    (files_by_xcfilelikeelement x) (path x) d.

(** An attribute of [None] is asked for. *)
Definition some_object (o : option nat) : XM nat := match o with Some o => mret o | None => throw (AttributeError "NoneType") end.

(** ** The groups of a project *)
Definition GroupByName (o : nat) (name : string) : XM nat :=
  x ← get o;
  _ ← (if dict_mem (properties x) "mainGroup" then mret tt else g ← new PBXGroup []; SetProperty o "mainGroup" (XObj g));
  x ← get o; main_group ← object_at "mainGroup" x;
  group ← GetChildByName main_group (chars name);
  match group with
  | Some group => mret group
  | None => group ← new PBXGroup [("name", str name)]; _ ← AppendChild main_group group; mret group
  end.
Definition SourceGroup (o : nat) : XM nat := GroupByName o "Source".
Definition ProductsGroup (o : nat) : XM nat := GroupByName o "Products".
Definition IntermediatesGroup (o : nat) : XM nat := GroupByName o "Intermediates".
Definition FrameworksGroup (o : nat) : XM nat := GroupByName o "Frameworks".
Definition ProjectsGroup (o : nat) : XM nat := GroupByName o "Projects".

Definition source_tree_groups : list string := ["DERIVED_FILE_DIR"; "INTERMEDIATE_DIR"; "PROJECT_DERIVED_FILE_DIR"; "SHARED_INTERMEDIATE_DIR"].
Definition RootGroupForPath (o : nat) (p : text) : XM (nat * bool) :=
  let '(source_tree, _) := SourceTreeAndPathFromPath p in
  group ← (match source_tree with Some tree => if of_chars tree in? source_tree_groups then IntermediatesGroup o else SourceGroup o | None => SourceGroup o end);
  mret (group, true).
Definition AddOrGetFileInRootGroup (o : nat) (p : text) : XM nat :=
  '(group, hierarchical) ← RootGroupForPath o p; AddOrGetFileByPath group p hierarchical.

Definition main_group (o : nat) : XM nat := x ← get o; object_at "mainGroup" x.
Definition RootGroupsTakeOverOnlyChildren (recurse : bool) (o : nat) : XM unit :=
  g ← main_group o; l ← children g;
  for_m l (λ group, is_group ← isinstance group PBXGroup; if is_group : bool then TakeOverOnlyChild recurse group else mret tt).

(** *** Their order *)
Definition root_order : list string := ["Source"; "Intermediates"; "Projects"; "Frameworks"; "Products"; "Build"].
Fixpoint index_of (name : text) (l : list string) : option Z :=
  match l with [] => None | n :: l => if chars n ==? name then Some 0%Z else i ← index_of name l; Some (i + 1)%Z end.
Definition order_index (name : option text) : option Z := n ← name; index_of n root_order.
Definition valid_class_type (c : cls) : result bool :=
  match c with PBXFileReference | PBXVariantGroup => Ok false | PBXGroup => Ok true | c => Err (KeyError (class_name c)) end.
Definition cmp_Z (a b : Z) : Z := if (a <? b)%Z then (-1)%Z else if (b <? a)%Z then 1%Z else 0%Z.

(** [CompareRootGroup], from the classes and the names of both *)
Definition CompareRootGroup (self other : cls * option text) : result Z :=
  let self_in := subclass self.1 PBXGroup && bool_decide (is_Some (order_index self.2)) in
  let other_in := subclass self.1 PBXGroup && bool_decide (is_Some (order_index other.2)) in
  if negb self_in && negb other_in then
    s ← valid_class_type self.1; t ← valid_class_type other.1; Ok (compare_keys (s, self.2) (t, other.2))
  else
    match order_index self.2, order_index other.2 with
    | Some _, None => Ok (-1)%Z
    | None, Some _ => Ok 1%Z
    | Some i, Some j => Ok (cmp_Z i j)
    | None, None => Err (ValueError "not in list")
    end.
Definition root_not_after (a b : (cls * option text) * nat) : Prop := match CompareRootGroup b.1 a.1 with Ok z => (0 ≤ z)%Z | Err _ => True end.
#[export] Instance root_not_after_dec : RelDecision root_not_after.
Proof. intros a b. unfold root_not_after. destruct (CompareRootGroup _ _); apply _. Defined.

(** An object of another class stops the sort if there is anything to compare. *)
Definition root_key (o : nat) : XM (cls * option text) := x ← get o; _ ← lift (valid_class_type (class_of x)); name ← name_of o; mret (class_of x, name).
Definition sort_root_groups (l : list nat) : XM (list nat) := if length l <=? 1 then mret l else sort_by root_not_after root_key l.

Definition native_products (o : nat) : XM (list nat) :=
  x ← get o; v ← lift (property "targets" x);
  products ← map_m (λ target, t ← get target; if subclass (class_of t) PBXNativeTarget then p ← object_at "productReference" t; mret [p] else mret []) (objects_of v);
  mret (concat products).

(** The products of the targets, which must be the children of the group *)
Definition target_product (old : list nat) (target : nat) : XM (list nat) :=
  t ← get target;
  if subclass (class_of t) PBXNativeTarget then
    product ← object_at "productReference" t; if product in? old then mret [product] else throw AssertionError
  else mret [].
Definition group_products (o : nat) (old : list nat) : XM (list nat) :=
  x ← get o; v ← lift (property "targets" x);
  products ← map_m (target_product old) (objects_of v);
  if length (concat products) =? length old then mret (concat products) else throw AssertionError.
Definition SortGroups (o : nat) : XM unit :=
  g ← main_group o; l ← children g; l ← sort_root_groups l;
  _ ← modify g (with_property "children" (XList (XObj <$> l)));
  for_m l (λ group,
    is_group ← isinstance group PBXGroup;
    if is_group : bool then
      name ← name_of group;
      if name ==? Some (chars "Products") then
        old ← children group; products ← group_products o old;
        modify group (with_property "children" (XList (XObj <$> products)))
      else SortGroup group
    else mret tt).

(** ** References to other projects *)
Definition target_name (o : nat) : XM text := n ← name_of o; lift (match n with Some n => Ok n | None => Err (TypeError "remoteInfo") end).

Section projects.
Context `{RealPath}.

Definition SetUpProductReferences (o other_pbxproject product_group project_ref : nat) : XM unit :=
  x ← get other_pbxproject; v ← lift (property "targets" x);
  for_m (objects_of v) (λ target,
    t ← get target;
    if subclass (class_of t) PBXNativeTarget then
      other_fileref ← object_at "productReference" t;
      proxy ← GetChildByRemoteObject product_group other_fileref;
      match proxy with
      | Some _ => mret tt
      | None =>
          name ← target_name target;
          container_item ← new PBXContainerItemProxy
            [("containerPortal", XObj project_ref); ("proxyType", XInt 2); ("remoteGlobalIDString", XObj other_fileref);
             ("remoteInfo", XStr name)];
          f ← get other_fileref;
          file_type ← lift (property "explicitFileType" f); p ← lift (property "path" f); tree ← lift (property "sourceTree" f);
          reference_proxy ← new PBXReferenceProxy [("fileType", file_type); ("path", p); ("sourceTree", tree); ("remoteRef", XObj container_item)];
          AppendChild product_group reference_proxy
      end
    else mret tt).

Definition project_path (x : xobject) : result text := match path x with Some p => Ok p | None => Err (AttributeError "path") end.
(** The path of the other project, from the directory of this one *)
Definition other_project_path (x other : xobject) : result text :=
  p ← project_path x; dir ← property "projectDirPath" x; dir ← as_str dir;
  let this_path := p_dirname p in
  let this_path := match dir with [] => this_path | c :: _ => if p_isabs [c] then dir else p_join this_path dir end in
  q ← project_path other; Ok (RelativePath q this_path).

(** The lower-case name of the referred project, by which the references are sorted *)
Definition reference_key (v : xval) : XM text :=
  match v with
  | XDict d =>
      ref ← lift (match dict_get d (chars "ProjectRef") with Some v => as_obj v | None => Err (KeyError "ProjectRef") end);
      name ← name_of ref; lift (match name with Some n => Ok (lower_char <$> n) | None => Err (AttributeError "lower") end)
  | _ => throw (TypeError "ProjectRef")
  end.
Definition sort_references (l : list xval) : XM (list xval) :=
  sort_by key_le reference_key l.
Definition sort_project_references (o : nat) : XM unit :=
  x ← get o; l ← lift (property "projectReferences" x); l ← lift (as_list l); l ← sort_references l;
  modify o (with_property "projectReferences" (XList l)).

Definition new_project_reference (o other_pbxproject : nat) : XM (nat * nat) :=
  product_group ← new PBXGroup [("name", str "Products")];
  _ ← modify product_group (with_parent (Some o));
  hs ← hashables_of other_pbxproject;
  _ ← modify product_group (λ x, with_hashables (hashables x ++ hs) x);
  x ← get o; y ← get other_pbxproject; other_path ← lift (other_project_path x y);
  project_ref ← new PBXFileReference [("lastKnownFileType", str "wrapper.pb-project"); ("path", XStr other_path); ("sourceTree", str "SOURCE_ROOT")];
  g ← ProjectsGroup o; _ ← AppendChild g project_ref;
  _ ← modify o (λ x, with_other_projects (dict_set (other_pbxprojects x) other_pbxproject (product_group, project_ref)) x);
  _ ← AppendProperty o "projectReferences" (XDict [(chars "ProductGroup", XObj product_group); (chars "ProjectRef", XObj project_ref)]);
  _ ← sort_project_references o;
  mret (product_group, project_ref).

Definition AddOrGetProjectReference (o other_pbxproject : nat) : XM (nat * nat) :=
  x ← get o;
  _ ← (if dict_mem (properties x) "projectReferences" then mret tt else modify o (with_property "projectReferences" (XList [])));
  refs ← (match dict_get (other_pbxprojects x) other_pbxproject with Some refs => mret refs | None => new_project_reference o other_pbxproject end);
  _ ← SetUpProductReferences o other_pbxproject refs.1 refs.2;
  mret refs.

Definition project_reference (pbxproject other_pbxproject : option nat) : XM (nat * nat) :=
  p ← some_object pbxproject; q ← some_object other_pbxproject; AddOrGetProjectReference p q.

Fixpoint position (o : nat) (l : list nat) : option Z :=
  match l with [] => None | p :: l => if p =? o then Some 0%Z else i ← position o l; Some (i + 1)%Z end.
Definition remote_index (remote_products : list nat) (proxy : nat) : XM Z :=
  x ← get proxy; item ← object_at "remoteRef" x; y ← get item; remote ← object_at "remoteGlobalIDString" y;
  lift (match position remote remote_products with Some i => Ok i | None => Err (ValueError "not in list") end).
Definition index_le (a b : Z * nat) : Prop := (a.1 ≤ b.1)%Z.
#[export] Instance index_le_dec : RelDecision index_le.
Proof. intros a b. unfold index_le. apply _. Defined.

Definition SortRemoteProductReferences (o : nat) : XM unit :=
  x ← get o;
  for_m (other_pbxprojects x) (λ '(other_pbxproject, (product_group, _)),
    remote_products ← native_products other_pbxproject;
    l ← children product_group;
    l ← (if length l <=? 1 then mret l else sort_by index_le (remote_index remote_products) l);
    modify product_group (with_property "children" (XList (XObj <$> l)))).

(** ** Targets *)
Definition configuration_list (o : nat) : XM nat := x ← get o; object_at "buildConfigurationList" x.
Definition target_HasBuildSetting (o : nat) (key : string) : XM Z := c ← configuration_list o; HasBuildSetting c (chars key).
Definition target_GetBuildSetting (o : nat) (key : string) : XM (option xval) := c ← configuration_list o; GetBuildSetting c (chars key).
Definition target_SetBuildSetting (o : nat) (key : string) (value : xval) : XM unit := c ← configuration_list o; SetBuildSetting c (chars key) value.
Definition target_DelBuildSetting (o : nat) (key : string) : XM unit := c ← configuration_list o; DelBuildSetting c (chars key).

(** [XCTarget.AddDependency] *)
Definition XCTarget_AddDependency (o other : nat) : XM unit :=
  pbxproject ← PBXProjectAncestor o; other_pbxproject ← PBXProjectAncestor other;
  if bool_decide (pbxproject = other_pbxproject) then
    name ← target_name other;
    p ← lift (match pbxproject with Some p => Ok p | None => Err (TypeError "containerPortal of PBXContainerItemProxy must be XCContainerPortal, not NoneType") end);
    container ← new PBXContainerItemProxy [("containerPortal", XObj p); ("proxyType", XInt 1); ("remoteGlobalIDString", XObj other); ("remoteInfo", XStr name)];
    dependency ← new PBXTargetDependency [("target", XObj other); ("targetProxy", XObj container)];
    AppendProperty o "dependencies" (XObj dependency)
  else
    refs ← project_reference pbxproject other_pbxproject;
    name ← target_name other;
    container ← new PBXContainerItemProxy
      [("containerPortal", XObj refs.2); ("proxyType", XInt 1); ("remoteGlobalIDString", XObj other); ("remoteInfo", XStr name)];
    dependency ← new PBXTargetDependency [("name", XStr name); ("targetProxy", XObj container)];
    AppendProperty o "dependencies" (XObj dependency).

(** *** Phases *)
Definition build_phases (o : nat) : XM (list nat) := x ← get o; v ← lift (property "buildPhases" x); mret (objects_of v).
Definition is_phase (types : list cls) (phase : nat) : XM bool := x ← get phase; mret (existsb (subclass (class_of x)) types).

Fixpoint only_phase (type : cls) (l : list nat) (the_phase : option nat) : XM (option nat) :=
  match l with
  | [] => mret the_phase
  | phase :: l =>
      b ← is_phase [type] phase;
      if b : bool then match the_phase with None => only_phase type l (Some phase) | Some _ => throw AssertionError end else only_phase type l the_phase
  end.
Definition GetBuildPhaseByType (o : nat) (type : cls) : XM (option nat) :=
  x ← get o; only_phase type (objects_property "buildPhases" x) None.

(** The first index with a phase of one of the types, or the end *)
Fixpoint insert_at (types : list cls) (l : list nat) : XM nat :=
  match l with
  | [] => mret 0
  | phase :: l => b ← is_phase types phase; if b : bool then mret 0 else i ← insert_at types l; mret (S i)
  end.
Definition insert_phase (o phase : nat) (before : list cls) : XM unit :=
  l ← build_phases o; i ← insert_at before l;
  _ ← modify o (with_property "buildPhases" (XList (XObj <$> (take i l ++ phase :: drop i l))));
  modify phase (with_parent (Some o)).

Definition HeadersPhase (o : nat) : XM nat :=
  phase ← GetBuildPhaseByType o PBXHeadersBuildPhase;
  match phase with
  | Some phase => mret phase
  | None =>
      phase ← new PBXHeadersBuildPhase [];
      _ ← insert_phase o phase [PBXResourcesBuildPhase; PBXSourcesBuildPhase; PBXFrameworksBuildPhase]; mret phase
  end.
Definition ResourcesPhase (o : nat) : XM nat :=
  phase ← GetBuildPhaseByType o PBXResourcesBuildPhase;
  match phase with
  | Some phase => mret phase
  | None => phase ← new PBXResourcesBuildPhase []; _ ← insert_phase o phase [PBXSourcesBuildPhase; PBXFrameworksBuildPhase]; mret phase
  end.
Definition last_phase (o : nat) (type : cls) : XM nat :=
  phase ← GetBuildPhaseByType o type;
  match phase with Some phase => mret phase | None => phase ← new type []; _ ← AppendProperty o "buildPhases" (XObj phase); mret phase end.
Definition SourcesPhase (o : nat) : XM nat := last_phase o PBXSourcesBuildPhase.
Definition FrameworksPhase (o : nat) : XM nat := last_phase o PBXFrameworksBuildPhase.

(** [PBXNativeTarget.AddDependency] *)
Definition static_library_type : xval := str "com.apple.product-type.library.static".
Definition shared_library_type : xval := str "com.apple.product-type.library.dynamic".
Definition framework_type : xval := str "com.apple.product-type.framework".

(** Is the product of the other target linked? *)
Definition links_to (o other : nat) : XM bool :=
  x ← get o; y ← get other;
  match dict_get (properties x) "productType", dict_get (properties y) "productType" with
  | Some type, Some other_type =>
      if subclass (class_of y) PBXNativeTarget && negb (type ==? static_library_type) then
        if other_type ==? static_library_type then mret true
        else if (other_type ==? shared_library_type) || (other_type ==? framework_type) then
          has ← target_HasBuildSetting other "MACH_O_TYPE";
          if (has =? 0)%Z then mret true else v ← target_GetBuildSetting other "MACH_O_TYPE"; mret (negb (v ==? Some (str "mh_bundle")))
        else mret false
      else mret false
  | _, _ => mret false
  end.
Definition AddDependency (o other : nat) : XM unit :=
  _ ← XCTarget_AddDependency o other;
  x ← get o;
  if subclass (class_of x) PBXNativeTarget then
    links ← links_to o other;
    if links : bool then
      y ← get other; file_ref ← object_at "productReference" y;
      pbxproject ← PBXProjectAncestor o; other_pbxproject ← PBXProjectAncestor other;
      file_ref ← (if bool_decide (pbxproject = other_pbxproject) then mret file_ref
                  else refs ← project_reference pbxproject other_pbxproject;
                       proxy ← GetChildByRemoteObject refs.1 file_ref; lift (match proxy with Some f => Ok f | None => Err (TypeError "fileRef") end));
      phase ← FrameworksPhase o;
      build_file ← new PBXBuildFile [("fileRef", XObj file_ref)];
      AppendProperty phase "files" (XObj build_file)
    else mret tt
  else mret tt.
End projects.

(** *** Products *)
Definition product_filetypes : list (string * (string * (string * string))) :=
  [("com.apple.product-type.application", ("wrapper.application", ("", ".app")));
   ("com.apple.product-type.bundle", ("wrapper.cfbundle", ("", ".bundle")));
   ("com.apple.product-type.framework", ("wrapper.framework", ("", ".framework")));
   ("com.apple.product-type.library.dynamic", ("compiled.mach-o.dylib", ("lib", ".dylib")));
   ("com.apple.product-type.library.static", ("archive.ar", ("lib", ".a")));
   ("com.apple.product-type.tool", ("compiled.mach-o.executable", ("", "")));
   ("com.apple.product-type.bundle.unit-test", ("wrapper.cfbundle", ("", ".xctest")));
   ("com.googlecode.gyp.xcode.bundle", ("compiled.mach-o.dylib", ("", ".so")))].

(** Loadable modules become dynamic libraries with settings of their own; what comes out is the extension to force. *)
Definition loadable_module (o : nat) (suffix : text) (force_extension : option text) : XM (option text) :=
  x ← get o;
  force_extension ←
    (if str_property "productType" x ==? Some (chars "com.googlecode.gyp.xcode.bundle") then
       _ ← modify o (with_property "productType" shared_library_type);
       _ ← target_SetBuildSetting o "MACH_O_TYPE" (str "mh_bundle");
       _ ← target_SetBuildSetting o "DYLIB_CURRENT_VERSION" (str "");
       _ ← target_SetBuildSetting o "DYLIB_COMPATIBILITY_VERSION" (str "");
       mret (Some (default (drop 1 suffix) force_extension))
     else mret force_extension);
  x ← get o;
  mret (if str_property "productType" x ==? Some (chars "com.apple.product-type-bundle.unit.test") then Some (default (drop 1 suffix) force_extension)
        else force_extension).

(** The name is the property [productName]. *)
Definition product_name (o : nat) : XM text := x ← get o; v ← lift (property "productName" x); lift (as_str v).
Definition set_product_name (o : nat) (name : text) : XM unit :=
  _ ← SetProperty o "productName" (XStr name); target_SetBuildSetting o "PRODUCT_NAME" (XStr name).

(** The suffix that a forced extension leaves *)
Definition apply_extension (o : nat) (filetype suffix : text) (force_extension : option text) : XM text :=
  match force_extension with
  | None => mret suffix
  | Some extension =>
      suffix ← (if lstarts (chars "wrapper.") filetype then
                  _ ← target_SetBuildSetting o "WRAPPER_EXTENSION" (XStr extension); mret suffix
                else _ ← target_SetBuildSetting o "EXECUTABLE_EXTENSION" (XStr extension); mret ("."%char :: extension));
      if lstarts (chars "compiled.mach-o.executable") filetype then
        name ← product_name o; _ ← set_product_name o (name ++ suffix); mret []
      else mret suffix
  end.

(** The name loses the prefix that the file gets. *)
Definition strip_prefix (o : nat) (prefix : text) : XM text :=
  name ← product_name o;
  if negb (prefix ==? []) && lstarts prefix name then let name := drop (length prefix) name in _ ← set_product_name o name; mret name else mret name.

Definition set_up_product (o products_group : nat) (filetype prefix suffix : text) (force_outdir force_prefix force_extension : option text) : XM unit :=
  force_extension ← loadable_module o suffix force_extension;
  suffix ← apply_extension o filetype suffix force_extension;
  let prefix := default prefix force_prefix in
  _ ← target_SetBuildSetting o (if lstarts (chars "wrapper.") filetype then "WRAPPER_PREFIX" else "EXECUTABLE_PREFIX") (XStr prefix);
  _ ← (match force_outdir with Some dir => target_SetBuildSetting o "TARGET_BUILD_DIR" (XStr dir) | None => mret tt end);
  name ← strip_prefix o prefix;
  file_ref ← new PBXFileReference
    [("explicitFileType", XStr filetype); ("includeInIndex", XInt 0); ("path", XStr (prefix ++ name ++ suffix)); ("sourceTree", str "BUILT_PRODUCTS_DIR")];
  _ ← AppendChild products_group file_ref;
  SetProperty o "productReference" (XObj file_ref).

(** [PBXNativeTarget]'s own part of the constructor *)
Definition PBXNativeTarget_init (o : nat) (force_outdir force_prefix force_extension : option text) : XM unit :=
  x ← get o;
  match str_property "productName" x, str_property "productType" x with
  | Some _, Some type =>
      match dict_get product_filetypes (of_chars type) with
      | Some (filetype, (prefix, suffix)) =>
          if dict_mem (properties x) "productReference" then mret tt
          else
            pbxproject ← PBXProjectAncestor o;
            match pbxproject with
            | None => mret tt
            | Some p =>
                products_group ← ProductsGroup p;
                set_up_product o products_group (chars filetype) (chars prefix) (chars suffix) force_outdir force_prefix force_extension
            end
      | None => mret tt
      end
  | _, _ => mret tt
  end.
Definition new_native_target (ps : xprops) (p : option nat) (force_outdir force_prefix force_extension : option text) : XM nat :=
  o ← construct new_fuel PBXNativeTarget ps None p None;
  _ ← PBXNativeTarget_init o force_outdir force_prefix force_extension;
  mret o.

(** ** Files of build phases *)
Definition ancestor_project (o : nat) : XM nat := p ← PBXProjectAncestor o; some_object p.
Definition FileGroup (o : nat) (p : text) : XM (nat * bool) :=
  x ← get o;
  match class_of x with
  | PBXHeadersBuildPhase | PBXResourcesBuildPhase | PBXSourcesBuildPhase | PBXCopyFilesBuildPhase => project ← ancestor_project o; RootGroupForPath project p
  | PBXFrameworksBuildPhase =>
      project ← ancestor_project o;
      if lower_extension p ==? chars "o" then RootGroupForPath project p else g ← FrameworksGroup project; mret (g, false)
  | _ => throw (RuntimeError "NotImplementedError")
  end.

Definition AppendBuildFile (o pbxbuildfile : nat) (p : option text) : XM unit :=
  _ ← AppendProperty o "files" (XObj pbxbuildfile); AddBuildFileToDicts o pbxbuildfile p.

Definition AddFile (o : nat) (p : text) (settings : option text) : XM unit :=
  '(file_group, hierarchical) ← FileGroup o p;
  file_ref ← AddOrGetFileByPath file_group p hierarchical;
  x ← get o; f ← get file_ref;
  match dict_get (files_by_xcfilelikeelement x) file_ref with
  | Some pbxbuildfile =>
      if subclass (class_of f) PBXVariantGroup then AddBuildFileToDicts o pbxbuildfile (Some p)
      else build_file ← new PBXBuildFile (("fileRef", XObj file_ref) :: match settings with Some s => [("settings", XStr s)] | None => [] end);
        AppendBuildFile o build_file (Some p)
  | None =>
      build_file ← new PBXBuildFile (("fileRef", XObj file_ref) :: match settings with Some s => [("settings", XStr s)] | None => [] end);
      AppendBuildFile o build_file (Some p)
  end.

(** [path_tree_re]: what it takes for the variable goes on to the last parenthesis that it can. *)
Fixpoint last_variable (name s : text) : option (text * option text) :=
  match s with
  | [] => None
  | c :: s =>
      if c ==? "010"%char then None
      else match last_variable (c :: name) s with
      | Some r => Some r
      | None => if c ==? ")"%char then rest ← after_variable s; Some (reverse name, rest) else None
      end
  end.
Definition path_tree_match (p : text) : option (text * option text) :=
  match p with "$"%char :: "("%char :: s => last_variable [] s | _ => None end.
Definition destination (p : text) : result (text * Z) :=
  match path_tree_match p with
  | Some (tree, relative) => Ok (if tree ==? chars "BUILT_PRODUCTS_DIR" then (default [] relative, 16%Z) else (p, 0%Z))
  | None => match p with c :: q => if c ==? slash then Ok (q, 0%Z) else Err (ValueError "Can't use path") | [] => Err (ValueError "Can't use path") end
  end.
Definition SetDestination (o : nat) (p : text) : XM unit :=
  '(dst_path, subfolder) ← lift (destination p);
  _ ← modify o (with_property "dstPath" (XStr dst_path)); modify o (with_property "dstSubfolderSpec" (XInt subfolder)).

(** ** The version of a project file *)
Definition version_to_object_version : list (string * Z) := [("2.4", 45%Z); ("3.0", 45%Z); ("3.1", 45%Z); ("3.2", 46%Z)].
Definition SetXcodeVersion (o : nat) (version : string) : XM unit :=
  match dict_get version_to_object_version version with
  | None => throw (RuntimeError ("Unsupported Xcode version " +:+ version))
  | Some n =>
      x ← get o; root ← object_at "rootObject" x;
      _ ← SetProperty root "compatibilityVersion" (str ("Xcode " +:+ version)); SetProperty o "objectVersion" (XInt n)
  end.

(** ** Examples *)

(** A file with the name of a root group: it comes after the group, and the group after it. *)
Example root_groups_disagree :
  CompareRootGroup (PBXFileReference, Some (chars "Source")) (PBXGroup, Some (chars "Products")) = Ok 1%Z
  ∧ CompareRootGroup (PBXGroup, Some (chars "Products")) (PBXFileReference, Some (chars "Source")) = Ok 1%Z.
Proof. split; reflexivity. Qed.
(** The groups of a new project, the known ones first *)
Example known_groups_first :
  CompareRootGroup (PBXGroup, Some (chars "Source")) (PBXGroup, Some (chars "Build")) = Ok (-1)%Z
  ∧ CompareRootGroup (PBXGroup, Some (chars "a")) (PBXGroup, Some (chars "Build")) = Ok 1%Z.
Proof. split; reflexivity. Qed.
Example destinations :
  destination (chars "$(BUILT_PRODUCTS_DIR)/a/b") = Ok (chars "a/b", 16%Z) ∧ destination (chars "/a/b") = Ok (chars "a/b", 0%Z)
  ∧ destination (chars "$(SRCROOT)/a") = Ok (chars "$(SRCROOT)/a", 0%Z) ∧ destination (chars "a/b") = Err (ValueError "Can't use path").
Proof. split_and!; reflexivity. Qed.
