(* ===== verification/XcTypes.v ===== *)
(** * The types of Xcode projects

    Whatever the public operations of tools/gyp/pylib/gyp/xcodeproj_file.py do to the objects of a project, these keep to the schemas of their
    classes: the invariant of [XcObject] for the operations of [XcGroup], [XcProject] and [XcIds]. *)
From S2P Require Import Prelude PyDict PyStr PyPath Common XcObject XcPrint XcIds XcGroup XcProject.
From Stdlib Require Import Ascii.

(** ** Computations that keep the types *)
Definition safe {A} (m : XM A) : Prop := keeps m (λ _, True) (λ _ _, True).

Lemma safe_keeps {A} (m : XM A) (P : heap → Prop) : safe m → keeps m P (λ _ _, True).
Proof. intros Hm. by eapply keeps_pre. Qed.
Lemma safe_bind {A B} (m : XM A) (f : A → XM B) : safe m → (∀ a, safe (f a)) → safe (m ≫= f).
Proof. intros Hm Hf. eapply keeps_bind; [done|exact Hm|]. intros a. by apply safe_keeps. Qed.
Lemma safe_reads {A} (m : XM A) : reads m → safe m.
Proof. by apply keeps_reads. Qed.
Lemma safe_ret {A} (a : A) : safe (mret a).
Proof. by apply keeps_ret. Qed.
Lemma keeps_bind_safe {A B} (m : XM A) (f : A → XM B) (P : heap → Prop) :
  stable P → keeps m P (λ _ _, True) → (∀ a, keeps (f a) P (λ _ _, True)) → keeps (m ≫= f) P (λ _ _, True).
Proof. intros HP Hm Hf. eapply keeps_bind; [done|exact Hm|]. intros a. eapply keeps_pre; [apply Hf|]. by intros h []. Qed.
Lemma safe_throw {A} e : safe (throw e : XM A).
Proof. apply keeps_throw. Qed.
Lemma safe_lift {A} (r : result A) : safe (lift r).
Proof. by apply keeps_lift. Qed.
Lemma safe_get o : safe (get o).
Proof. apply safe_reads, reads_get. Qed.
Lemma safe_for_m {A} (l : list A) body : (∀ a, safe (body a)) → safe (for_m l body).
Proof. intros Hbody. apply keeps_for_m; [done|]. intros a _. apply Hbody. Qed.
Lemma safe_map_m {A B} (f : A → XM B) l : (∀ a, safe (f a)) → safe (map_m f l).
Proof. intros Hf. induction l; cbn [map_m]; [apply safe_ret|]. apply safe_bind; [apply Hf|]. intros. apply safe_bind; [done|]. intros. apply safe_ret. Qed.
Lemma safe_weaken {A} (m : XM A) Q : keeps m (λ _, True) Q → safe m.
Proof. intros Hm. by eapply keeps_weaken. Qed.
Lemma safe_heap {A} (f : heap → XM A) : (∀ h0, safe (f h0)) → safe (λ h, f h h).
Proof. intros Hf h. apply Hf. Qed.

(** What starts with a look at the object runs only if there is one. *)
Definition looks_at {A} (m : XM A) (o : nat) : Prop := ∀ h r, m h = Ok r → is_Some (objects h !! o).
Lemma looks_at_get {A} o (f : xobject → XM A) : looks_at (x ← get o; f x) o.
Proof. intros h [a h'] (x&h1&Hget&_)%XM_bind_Ok. unfold get in Hget. by destruct (objects h !! o). Qed.
Lemma looks_at_bind {A B} (m : XM A) (f : A → XM B) o : looks_at m o → looks_at (m ≫= f) o.
Proof. intros Hm h [b h'] (a&h1&Ha&_)%XM_bind_Ok. by eapply Hm. Qed.
Lemma safe_at {A} (m : XM A) o : looks_at m o → (∀ c, keeps m (is_a o c) (λ _ _, True)) → safe m.
Proof. intros Hlook Hm h a h' Hwt _ Hrun. destruct (Hlook _ _ Hrun) as [x Hx]. apply (Hm (class_of x) h a h' Hwt); [by exists x|done]. Qed.

Lemma safe_new c ps : safe (new c ps).
Proof. eapply safe_weaken, keeps_new. Qed.
Lemma safe_AppendProperty o key v : safe (AppendProperty o key v).
Proof. apply (safe_at _ o); [apply looks_at_get|]. intros c. apply keeps_AppendProperty. Qed.
Lemma safe_SetProperty o key v : safe (SetProperty o key v).
Proof.
  apply (safe_at _ o); [|intros c; apply keeps_SetProperty]. intros h [[] h'] Hrun. unfold SetProperty, UpdateProperties in Hrun. cbn [for_m] in Hrun.
  apply XM_bind_Ok in Hrun as (u&h1&Hrun&_). by apply looks_at_get in Hrun.
Qed.
Lemma safe_DelProperty o key : safe (DelProperty o key).
Proof. apply keeps_DelProperty. Qed.
Lemma safe_modify_same o f : (∀ x, class_of (f x) = class_of x ∧ properties (f x) = properties x ∧ xid (f x) = xid x) → safe (modify o f).
Proof. apply keeps_modify_same. Qed.
Lemma safe_AddChildToDicts o child : safe (AddChildToDicts o child).
Proof.
  apply (safe_at _ o); [|intros c; apply keeps_AddChildToDicts]. intros h r Hrun. destruct r as [u h']. unfold AddChildToDicts in Hrun.
  apply XM_bind_Ok in Hrun as (c&h1&->%reads_get&Hrun). apply XM_bind_Ok in Hrun as (p&h1&->%reads_lift&Hrun). by apply looks_at_get in Hrun.
Qed.
Lemma safe_AppendChild o child : safe (AppendChild o child).
Proof. apply safe_bind; [apply safe_AppendProperty|]. intros. apply safe_AddChildToDicts. Qed.
Lemma safe_SetBuildSetting o key v : safe (SetBuildSetting o key v).
Proof. by apply keeps_SetBuildSetting. Qed.
Lemma safe_DelBuildSetting o key : safe (DelBuildSetting o key).
Proof.
  unfold DelBuildSetting. apply safe_bind; [apply safe_reads, reads_configurations|]. intros cs. apply safe_for_m. intros c.
  by apply (keeps_settings (λ d, dict_del d key)).
Qed.

Create HintDb safe.
#[local] Hint Resolve safe_ret safe_throw safe_lift safe_get safe_new safe_AppendProperty safe_SetProperty safe_DelProperty safe_AddChildToDicts safe_AppendChild
  safe_SetBuildSetting safe_DelBuildSetting : safe.
Ltac safe_step :=
  lazymatch goal with
  | |- safe (_ ≫= _) => apply safe_bind; [|intros]
  | |- safe (for_m _ _) => apply safe_for_m; intros
  | |- safe (map_m _ _) => apply safe_map_m; intros
  | |- safe (match ?x with _ => _ end) => destruct x
  | |- safe (let '(_, _) := ?x in _) => destruct x
  | |- safe _ => solve [auto with safe | by apply safe_modify_same]
  end.
Ltac safe_tac := repeat safe_step.

(** ** What only reads *)
Lemma reads_first_child test l : (∀ o, reads (test o)) → reads (first_child test l).
Proof. intros Ht. induction l; cbn [first_child]; [apply reads_ret|]. apply reads_bind; [apply Ht|]. intros []; [apply reads_ret|done]. Qed.
Lemma reads_name_of o : reads (name_of o).
Proof. intros h a h'. apply reads_Name. Qed.
Lemma safe_name_of o : safe (name_of o).
Proof. apply safe_reads, reads_name_of. Qed.
#[local] Hint Resolve safe_name_of : safe.
Lemma safe_first_child test l : (∀ o, safe (test o)) → safe (first_child test l).
Proof. intros Ht. induction l; cbn [first_child]; safe_tac. Qed.
Lemma safe_GetChildByName o name : safe (GetChildByName o name).
Proof. unfold GetChildByName. safe_tac. apply safe_first_child. intros. safe_tac. Qed.
Lemma safe_GetChildByPath o p : safe (GetChildByPath o p).
Proof. unfold GetChildByPath. safe_tac. Qed.
Lemma safe_GetChildByRemoteObject o p : safe (GetChildByRemoteObject o p).
Proof. unfold GetChildByRemoteObject. safe_tac. apply safe_first_child. intros. unfold is_proxy_of. safe_tac. Qed.
Lemma safe_children o : safe (children o).
Proof. unfold children. safe_tac. Qed.
Lemma safe_isinstance o c : safe (isinstance o c).
Proof. unfold isinstance. safe_tac. Qed.
Lemma safe_FullPath o : safe (FullPath o).
Proof. apply safe_reads, reads_FullPath. Qed.
Lemma safe_object_at key x : safe (object_at key x).
Proof. unfold object_at. safe_tac. Qed.
Lemma safe_blind {A} (m : XM A) : blind m → safe m.
Proof. intros Hm. apply safe_reads. intros h a h' Hrun. by apply (Hm h h a h' (reflexivity h)) in Hrun as [-> _]. Qed.
Lemma safe_PBXProjectAncestor o : safe (PBXProjectAncestor o).
Proof. apply safe_blind, blind_PBXProjectAncestor. Qed.
Lemma safe_hashables_of o : safe (hashables_of o).
Proof. apply safe_blind, blind_Hashables. Qed.
#[local] Hint Resolve safe_GetChildByName safe_GetChildByPath safe_GetChildByRemoteObject safe_children safe_isinstance safe_FullPath safe_object_at safe_PBXProjectAncestor
  safe_hashables_of : safe.

(** ** Groups *)
Lemma safe_add_or_get o p c ps : safe (add_or_get o p c ps).
Proof. unfold add_or_get. safe_tac. Qed.
Lemma safe_variant_group o name p : safe (AddOrGetVariantGroupByNameAndPath o name p).
Proof. unfold AddOrGetVariantGroupByNameAndPath. safe_tac. Qed.
#[local] Hint Resolve safe_add_or_get safe_variant_group : safe.
Lemma safe_AddOrGetFileByPath o p hierarchical : safe (AddOrGetFileByPath o p hierarchical).
Proof.
  unfold AddOrGetFileByPath. generalize (S (length p)). intros fuel. revert o p. induction fuel as [|fuel IH]; intros o p; cbn [add_or_get_file]; cbn zeta; safe_tac.
Qed.
#[local] Hint Resolve safe_AddOrGetFileByPath : safe.

(** A list that is put in place of the children, of the phases *)
Lemma keeps_list o key c t l (P : heap → Prop) :
  (∃ a, attributes_of c key = Some a ∧ is_list a = true ∧ property_type a = TClass t) →
  (∀ h, P h → is_a o c h ∧ ∀ d, d ∈ l → typed h (TClass t) (XObj d)) →
  keeps (modify o (with_property key (XList (XObj <$> l)))) P (λ _ _, True).
Proof.
  intros (a&Ha&Hlist&Ht) HP. eapply keeps_with_property; [|exact Ha]. intros h Hh. destruct (HP h Hh) as [Ho Hl]. split; [done|].
  unfold value_ok. rewrite Hlist, Ht. eexists. split; [done|]. apply Forall_fmap, Forall_forall. exact Hl.
Qed.

Lemma children_attributes c a : attributes_of c "children" = Some a → is_list a = true ∧ property_type a = TClass XCHierarchicalElement ∧ (c = PBXGroup ∨ c = PBXVariantGroup).
Proof. destruct c; intros [= <-]; auto. Qed.

(** The children of an object of a well-typed heap are elements, and it is a group. *)
Lemma children_typed h o l : well_typed h → children o h = Ok (l, h) → ∃ x, objects h !! o = Some x ∧ (class_of x = PBXGroup ∨ class_of x = PBXVariantGroup)
  ∧ ∀ c, c ∈ l → typed h (TClass XCHierarchicalElement) (XObj c).
Proof.
  intros Hwt (_&c&ps&(x&Hx&<-&<-)%view_Some&Hl)%children_Ok. exists x. split; [done|]. unfold children_in in Hl.
  destruct (dict_get (properties x) "children") as [v|] eqn:Hv; [|done]. injection Hl as <-.
  destruct (wt_objects _ Hwt _ _ Hx _ _ (dict_get_In _ _ _ Hv)) as (a&Ha&Hok). apply children_attributes in Ha as (Hlist&Ht&Hc). split; [done|].
  unfold value_ok in Hok. rewrite Hlist, Ht in Hok. destruct Hok as (vs&->&Hvs). intros c (w&Hw&Heq)%list_elem_of_omap. rewrite Forall_forall in Hvs. specialize (Hvs w Hw).
  destruct w; try done. by injection Heq as ->.
Qed.

Lemma safe_put_children o (m : list nat → XM (list nat)) :
  (∀ l h l' h', m l h = Ok (l', h') → h' = h ∧ ∀ c, c ∈ l' → c ∈ l) →
  safe (l ← children o; l' ← m l; modify o (with_property "children" (XList (XObj <$> l')))).
Proof.
  intros Hm h r h' Hwt _ (l&h1&Hl&Hrun)%XM_bind_Ok. assert (h1 = h) as -> by by apply reads_children in Hl.
  apply XM_bind_Ok in Hrun as (l'&h1&[-> Hsub]%Hm&Hrun). destruct (children_typed _ _ _ Hwt Hl) as (x&Hx&Hc&Htyped).
  eapply (keeps_list o "children" (class_of x) XCHierarchicalElement l' (λ h, is_a o (class_of x) h ∧ ∀ d, d ∈ l' → typed h (TClass XCHierarchicalElement) (XObj d)));
    [|done|exact Hwt| |exact Hrun].
  - destruct Hc as [-> | ->]; eexists; by split_and!.
  - split; [by exists x|]. intros d Hd. by apply Htyped, Hsub.
Qed.
Lemma safe_set_children {A} o (m : list nat → XM (list nat)) (rest : list nat → XM A) :
  (∀ l h l' h', m l h = Ok (l', h') → h' = h ∧ ∀ c, c ∈ l' → c ∈ l) → (∀ l, safe (rest l)) →
  safe (l ← children o; l' ← m l; _ ← modify o (with_property "children" (XList (XObj <$> l'))); rest l').
Proof.
  intros Hm Hrest h r h' Hwt Hh Hrun. apply XM_bind_Ok in Hrun as (l&h1&Hl&Hrun). apply XM_bind_Ok in Hrun as (l'&h2&Hl'&Hrun). apply XM_bind_Ok in Hrun as ([]&h3&Hset&Hrun).
  destruct (safe_put_children o m Hm h tt h3 Hwt Hh) as (Hwt3&He3&_); [apply XM_bind_Ok; exists l, h1; split; [done|]; apply XM_bind_Ok; by exists l', h2|].
  destruct (Hrest l' h3 r h' Hwt3 I Hrun) as (?&?&_). split_and!; [done|by etrans|done].
Qed.

(** Sorting neither adds elements nor changes anything. *)
Lemma sort_by_elements {K A} (le : relation (K * A)) `{!RelDecision le} (key : A → XM K) l h l' h' :
  (∀ a, reads (key a)) → sort_by le key l h = Ok (l', h') → h' = h ∧ ∀ a, a ∈ l' → a ∈ l.
Proof.
  intros Hkey (keyed&h1&Hk&[-> ->]%XM_ret_Ok)%XM_bind_Ok. apply map_m_reads_Ok with (R := λ a k, k.2 = a) in Hk as [-> Hk].
  - split; [done|]. intros a. rewrite merge_sort_Permutation. intros (k&->&Hin)%list_elem_of_fmap. apply list_elem_of_lookup_1 in Hin as [i Hi].
    destruct (Forall2_lookup_r _ _ _ _ _ Hk Hi) as (a'&Ha'&->). by eapply list_elem_of_lookup_2.
  - intros a k h2 _ (i&h3&->%Hkey&[-> ->]%XM_ret_Ok)%XM_bind_Ok. done.
Qed.
Lemma sort_some_elements {K A} (le : relation (K * A)) `{!RelDecision le} (key : A → XM K) l h l' h' :
  (∀ a, reads (key a)) → (if length l <=? 1 then mret l else sort_by le key l) h = Ok (l', h') → h' = h ∧ ∀ a, a ∈ l' → a ∈ l.
Proof. intros Hkey. destruct (_ <=? _); [by intros [-> ->]%XM_ret_Ok|by apply sort_by_elements]. Qed.

Lemma reads_compare_key o : reads (compare_key o).
Proof.
  unfold compare_key. apply reads_bind; [apply reads_get|]. intros x. apply reads_bind; [destruct (class_of x); first [apply reads_ret|apply reads_throw]|].
  intros g. apply reads_bind; [apply reads_name_of|]. intros n. apply reads_ret.
Qed.
Lemma sort_children_elements l h l' h' : sort_children l h = Ok (l', h') → h' = h ∧ ∀ c, c ∈ l' → c ∈ l.
Proof. apply sort_some_elements, reads_compare_key. Qed.

Lemma safe_sort_group fuel o : safe (sort_group fuel o).
Proof.
  revert o. induction fuel as [|fuel IH]; intros o; cbn [sort_group]; [apply safe_throw|]. apply safe_set_children; [apply sort_children_elements|].
  intros l. safe_tac.
Qed.
Lemma safe_SortGroup o : safe (SortGroup o).
Proof. apply (safe_heap (λ h0, sort_group (S (next h0)) o)). intros. apply safe_sort_group. Qed.

(** What is taken over is typed, since the schemas of groups are the same. *)
Lemma take_over_elements old ps key v : (key, v) ∈ take_over_properties old ps →
  (key, v) ∈ ps ∨ (key, v) ∈ old ∨ (key = "path" ∨ key = "name") ∧ ∃ t, v = XStr t.
Proof.
  unfold take_over_properties. cbn zeta.
  set (ps1 := if default group_tree (str_of ps "sourceTree") ==? group_tree then _ else ps).
  assert (∀ p, p ∈ ps1 → p ∈ ps ∨ p ∈ old ∨ (p.1 = "path" ∨ p.1 = "name") ∧ ∃ t, p.2 = XStr t) as H1.
  { intros p. subst ps1. case_bool_decide; [|by left]. set (psa := match str_of old "path" with Some p => _ | None => ps end).
    assert (∀ p, p ∈ psa → p ∈ ps ∨ p.1 = "path" ∧ ∃ t, p.2 = XStr t) as Ha.
    { intros p'. subst psa. destruct (str_of old "path"); [|by left]. destruct (str_of ps "path"); intros [->|?]%elem_of_dict_set; auto; right; split; eauto. }
    destruct (dict_get old "sourceTree") as [tree|] eqn:Htree.
    - intros [->|[?|[? ?]]%Ha]%elem_of_dict_set; [right; left; by apply dict_get_In|by left|right; right; auto].
    - intros [?|[? ?]]%Ha; [by left|right; right; auto]. }
  set (name := match str_of ps1 "name" with Some n => Some n | None => str_of ps1 "path" end).
  set (ps2 := match str_of old "name" with Some n => if Some n ==? name then ps1 else dict_set ps1 "name" (XStr n) | None => ps1 end).
  assert (∀ p, p ∈ ps2 → p ∈ ps ∨ p ∈ old ∨ (p.1 = "path" ∨ p.1 = "name") ∧ ∃ t, p.2 = XStr t) as H2.
  { intros p. subst ps2. destruct (str_of old "name"); [|apply H1]. case_bool_decide; [apply H1|]. intros [->|?]%elem_of_dict_set; [right; right; eauto|by apply H1]. }
  intros Hin. apply (H2 (key, v)). destruct (str_of ps2 "name"); [|done]. destruct (str_of ps2 "path"); [|done]. case_bool_decide; [|done].
  by apply list_elem_of_filter in Hin as [_ Hin].
Qed.

Lemma group_attributes c : c = PBXGroup ∨ c = PBXVariantGroup → attributes_of c = attributes_of PBXGroup.
Proof. by intros [-> | ->]. Qed.

Lemma keeps_take_over o c :
  keeps (take_over o c) (λ h, ∃ x cx, objects h !! o = Some x ∧ (class_of x = PBXGroup ∨ class_of x = PBXVariantGroup) ∧ objects h !! c = Some cx ∧ class_of cx = PBXGroup) (λ _ _, True).
Proof.
  intros h [] h' Hwt (x&cx&Hx&Hclass&Hcx&Hc) Hrun. unfold take_over in Hrun. apply XM_bind_Ok in Hrun as (x'&h1&Hget&Hrun).
  rewrite (get_lookup _ _ _ Hx) in Hget. injection Hget as <- <-. apply XM_bind_Ok in Hrun as (cx'&h1&Hget&Hrun). rewrite (get_lookup _ _ _ Hcx) in Hget. injection Hget as <- <-.
  apply XM_bind_Ok in Hrun as ([]&h1&Hmod&Hrun).
  assert (well_typed h1 ∧ extends h h1) as [Hwt1 He1].
  { apply (keeps_modify o _ (λ h0, h0 = h)) in Hmod as (?&?&_); [done|done|by left| |done|done]. intros h0 y -> Hy Hok. rewrite Hx in Hy. injection Hy as <-.
    intros key v Hin. cbn [with_children_by_path with_properties properties class_of] in *. rewrite group_attributes by done.
    apply take_over_elements in Hin as [Hin|[Hin|[Hkey [t ->]]]].
    - apply (wt_objects _ Hwt _ _ Hcx) in Hin. by rewrite Hc in Hin.
    - apply Hok in Hin. by rewrite group_attributes in Hin.
    - exists (optional TStr). split; [by destruct Hkey as [-> | ->]|done]. }
  assert (safe (l ← children o; for_m l (λ grandchild, modify grandchild (with_parent (Some o))))) as Hsafe by safe_tac.
  destruct (Hsafe h1 tt h' Hwt1 I Hrun) as (?&?&_). split_and!; [done|by etrans|done].
Qed.

Lemma safe_take_over_loop fuel o : safe (take_over_loop fuel o).
Proof.
  induction fuel as [|fuel IH]; cbn [take_over_loop]; [apply safe_throw|]. intros h [] h' Hwt _ (l&h1&Hl&Hrun)%XM_bind_Ok.
  assert (h1 = h) as -> by by apply reads_children in Hl. destruct (children_typed _ _ _ Hwt Hl) as (x&Hx&Hc&_).
  destruct l as [|c [|c' l]]; [exact (safe_ret tt h tt h' Hwt I Hrun)| |exact (safe_ret tt h tt h' Hwt I Hrun)]. apply XM_bind_Ok in Hrun as (cx&h1&Hget&Hrun).
  unfold get in Hget. destruct (objects h !! c) as [cx'|] eqn:Hcx; [|done]. injection Hget as -> <-. case_bool_decide as Hclass; [|exact (safe_ret tt h tt h' Hwt I Hrun)].
  apply XM_bind_Ok in Hrun as ([]&h1&Htake&Hrun). destruct (keeps_take_over o c h tt h1 Hwt ltac:(by exists x, cx) Htake) as (Hwt1&He1&_).
  destruct (IH h1 tt h' Hwt1 I Hrun) as (?&?&_). split_and!; [done|by etrans|done].
Qed.
Lemma safe_TakeOverOnlyChild recurse o : safe (TakeOverOnlyChild recurse o).
Proof.
  apply (safe_heap (λ h0, take_over_only_child (S (next h0)) recurse o)). intros h0. generalize (S (next h0)). intros fuel. revert o.
  induction fuel as [|fuel IH]; intros o; cbn [take_over_only_child]; [apply safe_throw|]. apply safe_bind; [apply safe_take_over_loop|]. intros. safe_tac.
Qed.
#[local] Hint Resolve safe_SortGroup safe_TakeOverOnlyChild : safe.

(** ** Projects *)
Lemma safe_GroupByName o name : safe (GroupByName o name).
Proof. unfold GroupByName. safe_tac. Qed.
#[local] Hint Resolve safe_GroupByName : safe.
Lemma safe_some_object o : safe (some_object o).
Proof. unfold some_object. safe_tac. Qed.
Lemma safe_RootGroupForPath o p : safe (RootGroupForPath o p).
Proof. unfold RootGroupForPath, SourceGroup, IntermediatesGroup. safe_tac. Qed.
#[local] Hint Resolve safe_RootGroupForPath safe_some_object : safe.
Lemma safe_AddOrGetFileInRootGroup o p : safe (AddOrGetFileInRootGroup o p).
Proof. unfold AddOrGetFileInRootGroup. safe_tac. Qed.
Lemma safe_main_group o : safe (main_group o).
Proof. unfold main_group. safe_tac. Qed.
#[local] Hint Resolve safe_main_group : safe.
Lemma safe_RootGroupsTakeOverOnlyChildren recurse o : safe (RootGroupsTakeOverOnlyChildren recurse o).
Proof. unfold RootGroupsTakeOverOnlyChildren. safe_tac. Qed.

Lemma reads_root_key o : reads (root_key o).
Proof.
  unfold root_key. apply reads_bind; [apply reads_get|]. intros x. apply reads_bind; [apply reads_lift|]. intros _. apply reads_bind; [apply reads_name_of|].
  intros n. apply reads_ret.
Qed.
Lemma sort_root_elements l h l' h' : sort_root_groups l h = Ok (l', h') → h' = h ∧ ∀ c, c ∈ l' → c ∈ l.
Proof. apply sort_some_elements, reads_root_key. Qed.

Lemma safe_native_products o : safe (native_products o).
Proof. unfold native_products. safe_tac. Qed.
#[local] Hint Resolve safe_native_products : safe.

Lemma reads_object_at key x : reads (object_at key x).
Proof. unfold object_at. apply reads_bind; [apply reads_lift|]. intros. apply reads_lift. Qed.
Lemma target_product_elements old target l h h' : target_product old target h = Ok (l, h') → h' = h ∧ ∀ c, c ∈ l → c ∈ old.
Proof.
  intros (x&h1&->%reads_get&Hrun)%XM_bind_Ok. destruct (subclass _ _); [|apply XM_ret_Ok in Hrun as [-> ->]; set_solver].
  apply XM_bind_Ok in Hrun as (p&h1&->%reads_object_at&Hrun). destruct (p in? old) eqn:Hp; [|done]. apply XM_ret_Ok in Hrun as [-> ->].
  split; [done|]. apply bool_decide_eq_true in Hp. set_solver.
Qed.
Lemma group_products_elements o l h l' h' : group_products o l h = Ok (l', h') → h' = h ∧ ∀ c, c ∈ l' → c ∈ l.
Proof.
  intros (x&h1&->%reads_get&Hrun)%XM_bind_Ok. apply XM_bind_Ok in Hrun as (v&h1&->%reads_lift&Hrun). apply XM_bind_Ok in Hrun as (ps&h1&Hps&Hrun).
  assert (h1 = h ∧ ∀ c, c ∈ concat ps → c ∈ l) as [-> Hsub].
  { clear Hrun. revert ps h1 Hps. induction (objects_of v) as [|t ts IH]; intros ps h1 Hps; cbn [map_m] in Hps; [apply XM_ret_Ok in Hps as [-> ->]; set_solver|].
    apply XM_bind_Ok in Hps as (p&h2&[-> Hp]%target_product_elements&Hps). apply XM_bind_Ok in Hps as (qs&h2&[-> Hqs]%IH&[-> ->]%XM_ret_Ok).
    cbn [concat]. set_solver. }
  destruct (_ =? _); [|done]. by apply XM_ret_Ok in Hrun as [-> ->].
Qed.

Lemma safe_SortGroups o : safe (SortGroups o).
Proof.
  unfold SortGroups. apply safe_bind; [auto with safe|]. intros g. apply safe_set_children; [apply sort_root_elements|]. intros l. apply safe_for_m. intros group.
  apply safe_bind; [auto with safe|]. intros []; [|apply safe_ret]. apply safe_bind; [auto with safe|]. intros name. case_bool_decide; [|auto with safe].
  apply safe_put_children, group_products_elements.
Qed.

Section projects.
Context `{RealPath}.

Lemma safe_target_name o : safe (target_name o).
Proof. unfold target_name. safe_tac. Qed.
#[local] Hint Resolve safe_target_name : safe.
Lemma safe_SetUpProductReferences o other pg pr : safe (SetUpProductReferences o other pg pr).
Proof. unfold SetUpProductReferences. safe_tac. Qed.

Lemma reads_reference_key v : reads (reference_key v).
Proof.
  unfold reference_key. destruct v; try apply reads_throw. apply reads_bind; [apply reads_lift|]. intros ref. apply reads_bind; [apply reads_name_of|].
  intros n. apply reads_lift.
Qed.
Lemma sort_references_dicts l h l' h' : sort_references l h = Ok (l', h') → h' = h ∧ ∀ v, v ∈ l' → v ∈ l.
Proof. apply sort_by_elements, reads_reference_key. Qed.

Lemma project_references_attributes c a : attributes_of c "projectReferences" = Some a → a = Attributes true TDict false false None.
Proof. destruct c; by intros [= <-]. Qed.

Lemma project_references_attributes_project : attributes_of PBXProject "projectReferences" = Some (Attributes true TDict false false None).
Proof. done. Qed.
Lemma safe_sort_project_references o : safe (sort_project_references o).
Proof.
  intros h [] h' Hwt _ (x&h1&Hget&Hrun)%XM_bind_Ok. unfold get in Hget. destruct (objects h !! o) as [x'|] eqn:Hx; [|done]. injection Hget as -> <-.
  apply XM_bind_Ok in Hrun as (v&h1&Hv&Hrun). unfold lift, property in Hv. destruct (dict_get (properties x) "projectReferences") as [w|] eqn:Hw; [|done]. injection Hv as -> <-.
  apply XM_bind_Ok in Hrun as (l&h1&Hl&Hrun). destruct v as [| | |l0|]; try done. injection Hl as -> <-. apply XM_bind_Ok in Hrun as (l'&h1&[-> Hsub]%sort_references_dicts&Hmod).
  destruct (wt_objects _ Hwt _ _ Hx _ _ (dict_get_In _ _ _ Hw)) as (a&Ha&Hok). pose proof (project_references_attributes _ _ Ha) as ->.
  destruct Hok as (vs&[= <-]&Hvs).
  eapply (keeps_with_property o "projectReferences" (XList l') _ (class_of x) (is_a o (class_of x))); [|exact Ha|exact Hwt|by exists x|exact Hmod].
  intros h2 Ho. split; [done|]. exists l'. split; [done|]. apply Forall_forall. intros v Hv. rewrite Forall_forall in Hvs. specialize (Hvs v (Hsub v Hv)). by destruct v.
Qed.

#[local] Hint Resolve safe_SetUpProductReferences safe_sort_project_references : safe.
Lemma keeps_AddOrGetProjectReference o other : keeps (AddOrGetProjectReference o other) (is_a o PBXProject) (λ _ _, True).
Proof.
  assert (safe (new_project_reference o other)) as Hnew by (unfold new_project_reference, ProjectsGroup; safe_tac).
  unfold AddOrGetProjectReference. apply keeps_bind_get. intros x Hc _. apply keeps_seq; [apply is_a_stable| |].
  - destruct (dict_mem _ _); [by apply keeps_ret|]. eapply keeps_with_property; [|apply project_references_attributes_project]. intros h Ho. split; [exact Ho|by exists []].
  - apply safe_keeps. safe_tac.
Qed.

(** The ancestor is a project. *)
Lemma project_ancestor_class fuel o p h h' : project_ancestor fuel o h = Ok (Some p, h') → is_a p PBXProject h.
Proof.
  revert o. induction fuel as [|fuel IH]; intros o Hrun; cbn [project_ancestor] in Hrun; [done|]. apply XM_bind_Ok in Hrun as (x&h1&Hget&Hrun). unfold get in Hget.
  destruct (objects h !! o) as [x'|] eqn:Hx; [|done]. injection Hget as -> <-. destruct (subclass (class_of x) PBXProject) eqn:Hc.
  - apply XM_ret_Ok in Hrun as [[= ->] _]. exists x. split; [done|]. by destruct (class_of x).
  - destruct (parent x) as [q|]; [by eapply IH|]. by apply XM_ret_Ok in Hrun as [? _].
Qed.
Definition is_project (p : option nat) (h : heap) : Prop := match p with Some p => is_a p PBXProject h | None => True end.
Lemma is_project_stable p : stable (is_project p).
Proof. destruct p; [apply is_a_stable|done]. Qed.
Lemma keeps_PBXProjectAncestor o P : keeps (PBXProjectAncestor o) P is_project.
Proof.
  intros h p h' Hwt Hh Hp. assert (h' = h) as -> by (by apply (blind_PBXProjectAncestor _ h h _ _ (reflexivity h)) in Hp as [-> _]). split_and!; [done|reflexivity|].
  destruct p as [p|]; [by eapply project_ancestor_class|done].
Qed.
Lemma keeps_project_reference p q : keeps (project_reference p q) (is_project p) (λ _ _, True).
Proof.
  unfold project_reference. destruct p as [p|]; [|intros h a h' _ _ Hrun; by apply XM_bind_Ok in Hrun as (?&?&?&_)].
  destruct q as [q|]; [|intros h a h' _ _ Hrun; by apply XM_bind_Ok in Hrun as (?&?&_&(?&?&?&_)%XM_bind_Ok)]. apply keeps_AddOrGetProjectReference.
Qed.

(** After looking up the projects of both targets *)
Lemma safe_projects {A} o other (f : option nat → option nat → XM A) :
  (∀ p q, keeps (f p q) (is_project p) (λ _ _, True)) → safe (p ← PBXProjectAncestor o; q ← PBXProjectAncestor other; f p q).
Proof.
  intros Hf. eapply keeps_bind; [done|apply keeps_PBXProjectAncestor|]. intros p. eapply keeps_pre with (P := is_project p); [|by intros h []].
  eapply keeps_bind; [apply is_project_stable|apply keeps_PBXProjectAncestor|]. intros q. eapply keeps_pre; [apply Hf|by intros h []].
Qed.
Lemma keeps_with_reference {A} p q (f : nat * nat → XM A) : (∀ r, safe (f r)) → keeps (r ← project_reference p q; f r) (is_project p) (λ _ _, True).
Proof. intros Hf. eapply keeps_bind; [apply is_project_stable|apply keeps_project_reference|]. intros r. apply safe_keeps, Hf. Qed.

Lemma safe_XCTarget_AddDependency o other : safe (XCTarget_AddDependency o other).
Proof. apply safe_projects. intros p q. case_bool_decide; [apply safe_keeps; safe_tac|]. apply keeps_with_reference. intros r. safe_tac. Qed.

Lemma reads_remote_index products proxy : reads (remote_index products proxy).
Proof.
  unfold remote_index. apply reads_bind; [apply reads_get|]. intros x. apply reads_bind; [apply reads_object_at|]. intros item. apply reads_bind; [apply reads_get|].
  intros y. apply reads_bind; [apply reads_object_at|]. intros. apply reads_lift.
Qed.
Lemma safe_SortRemoteProductReferences o : safe (SortRemoteProductReferences o).
Proof.
  unfold SortRemoteProductReferences. apply safe_bind; [auto with safe|]. intros x. apply safe_for_m. intros [other [pg pr]]. apply safe_bind; [auto with safe|]. intros products.
  apply (safe_put_children pg (λ l, if length l <=? 1 then mret l else sort_by index_le (remote_index products) l)).
  intros l h l' h'. apply sort_some_elements, reads_remote_index.
Qed.
End projects.

(** ** Targets and phases *)
Lemma build_phases_attributes c a : attributes_of c "buildPhases" = Some a → is_list a = true ∧ property_type a = TClass XCBuildPhase.
Proof. destruct c; intros [= <-]; auto. Qed.

Lemma keeps_insert_phase o phase before c : subclass c XCBuildPhase = true → keeps (insert_phase o phase before) (is_a phase c) (λ _ _, True).
Proof.
  intros Hc h [] h' Hwt (px&Hpx&Hclass) Hrun. unfold insert_phase in Hrun. apply XM_bind_Ok in Hrun as (l&h1&Hl&Hrun).
  unfold build_phases in Hl. apply XM_bind_Ok in Hl as (x&h2&Hget&Hl). unfold get in Hget. destruct (objects h !! o) as [x'|] eqn:Hx; [|done]. injection Hget as -> <-.
  apply XM_bind_Ok in Hl as (v&h2&Hv&Hret). unfold lift, property in Hv. destruct (dict_get (properties x) "buildPhases") as [w|] eqn:Hw; [|done]. injection Hv as -> <-.
  apply XM_ret_Ok in Hret as [-> ->]. destruct (wt_objects _ Hwt _ _ Hx _ _ (dict_get_In _ _ _ Hw)) as (a&Ha&Hok).
  destruct (build_phases_attributes _ _ Ha) as [Hlist Ht]. unfold value_ok in Hok. rewrite Hlist, Ht in Hok. destruct Hok as (vs&->&Hvs).
  apply XM_bind_Ok in Hrun as (i&h1&Hi&Hrun).
  assert (h1 = h) as ->.
  { clear -Hi. revert i Hi. generalize (objects_of (XList vs)). intros l. induction l as [|p l IH]; intros i Hi; cbn [insert_at] in Hi; [by apply XM_ret_Ok in Hi as [_ ->]|].
    apply XM_bind_Ok in Hi as (b&h2&(px&h3&->%reads_get&[_ ->]%XM_ret_Ok)%XM_bind_Ok&Hi). destruct b; [by apply XM_ret_Ok in Hi as [_ ->]|].
    apply XM_bind_Ok in Hi as (j&h3&Hj&[_ ->]%XM_ret_Ok). by eapply IH. }
  assert (∀ d, d ∈ objects_of (XList vs) → typed h (TClass XCBuildPhase) (XObj d)) as Hobjs.
  { intros d (w&Hw'&Heq)%list_elem_of_omap. rewrite Forall_forall in Hvs. specialize (Hvs w Hw'). destruct w; try done. by injection Heq as ->. }
  assert (safe (modify phase (with_parent (Some o)))) as Hparent by by apply safe_modify_same.
  apply XM_bind_Ok in Hrun as ([]&h2&Hset&Hrun).
  destruct (keeps_list o "buildPhases" (class_of x) XCBuildPhase _
    (λ h, is_a o (class_of x) h ∧ ∀ d, d ∈ take i (objects_of (XList vs)) ++ phase :: drop i (objects_of (XList vs)) → typed h (TClass XCBuildPhase) (XObj d))
    (ex_intro _ a (conj Ha (conj Hlist Ht))) (λ _ H, H) h tt h2 Hwt) as (Hwt2&He2&_); [|exact Hset|].
  - split; [by exists x|]. intros d [Hd|[->|Hd]%elem_of_cons]%elem_of_app; [apply Hobjs; apply elem_of_take in Hd as (?&?&?); by eapply list_elem_of_lookup_2| |].
    + exists px. by rewrite Hclass.
    + apply Hobjs. apply list_elem_of_lookup_1 in Hd as [j Hj]. rewrite lookup_drop in Hj. by eapply list_elem_of_lookup_2.
  - destruct (Hparent h2 tt h' Hwt2 I Hrun) as (?&?&_). split_and!; [done|by etrans|done].
Qed.

Lemma safe_only_phase type l p : safe (only_phase type l p).
Proof. revert p. induction l as [|o l IH]; intros p; cbn [only_phase]; [apply safe_ret|]. unfold is_phase. safe_tac. Qed.
Lemma safe_GetBuildPhaseByType o type : safe (GetBuildPhaseByType o type).
Proof. unfold GetBuildPhaseByType. apply safe_bind; [auto with safe|]. intros. apply safe_only_phase. Qed.
#[local] Hint Resolve safe_GetBuildPhaseByType : safe.

Lemma safe_new_phase o c before : subclass c XCBuildPhase = true → safe (phase ← new c []; _ ← insert_phase o phase before; mret phase).
Proof.
  intros Hc. eapply keeps_bind; [done|apply (keeps_new _ _ (λ _, True))|]. intros phase. eapply keeps_pre with (P := is_a phase c); [|by intros h []].
  apply keeps_seq; [apply is_a_stable|by apply keeps_insert_phase|by apply keeps_ret].
Qed.
Lemma safe_HeadersPhase o : safe (HeadersPhase o).
Proof. unfold HeadersPhase. apply safe_bind; [auto with safe|]. intros []; [apply safe_ret|by apply safe_new_phase]. Qed.
Lemma safe_ResourcesPhase o : safe (ResourcesPhase o).
Proof. unfold ResourcesPhase. apply safe_bind; [auto with safe|]. intros []; [apply safe_ret|by apply safe_new_phase]. Qed.
Lemma safe_last_phase o type : safe (last_phase o type).
Proof. unfold last_phase. safe_tac. Qed.
#[local] Hint Resolve safe_last_phase : safe.

Lemma safe_configurations o : safe (configurations o).
Proof. apply safe_reads, reads_configurations. Qed.
Lemma safe_HasBuildSetting o key : safe (HasBuildSetting o key).
Proof. apply safe_reads, reads_HasBuildSetting. Qed.
Lemma safe_get_setting cs key v : safe (get_setting cs key v).
Proof.
  revert v. induction cs as [|c cs IH]; intros v; cbn [get_setting]; [apply safe_ret|]. apply safe_bind; [apply safe_reads, reads_build_settings|]. intros d. safe_tac.
Qed.
#[local] Hint Resolve safe_configurations safe_HasBuildSetting safe_get_setting : safe.
Lemma safe_configuration_list o : safe (configuration_list o).
Proof. unfold configuration_list. safe_tac. Qed.
#[local] Hint Resolve safe_configuration_list : safe.
Lemma safe_target_HasBuildSetting o key : safe (target_HasBuildSetting o key).
Proof. unfold target_HasBuildSetting. safe_tac. Qed.
Lemma safe_target_GetBuildSetting o key : safe (target_GetBuildSetting o key).
Proof. unfold target_GetBuildSetting, GetBuildSetting. safe_tac. Qed.
Lemma safe_target_SetBuildSetting o key v : safe (target_SetBuildSetting o key v).
Proof. unfold target_SetBuildSetting. safe_tac. Qed.
Lemma safe_target_DelBuildSetting o key : safe (target_DelBuildSetting o key).
Proof. unfold target_DelBuildSetting. safe_tac. Qed.
#[local] Hint Resolve safe_target_HasBuildSetting safe_target_GetBuildSetting safe_target_SetBuildSetting : safe.

Lemma safe_links_to o other : safe (links_to o other).
Proof.
  unfold links_to. safe_tac.
Qed.
#[local] Hint Resolve safe_links_to : safe.

Section targets.
Context `{RealPath}.
#[local] Hint Resolve safe_XCTarget_AddDependency : safe.
Lemma safe_AddDependency o other : safe (AddDependency o other).
Proof.
  unfold AddDependency. apply safe_bind; [auto with safe|]. intros _. apply safe_bind; [auto with safe|]. intros x. destruct (subclass _ _); [|apply safe_ret].
  apply safe_bind; [auto with safe|]. intros []; [|apply safe_ret]. apply safe_bind; [auto with safe|]. intros y. apply safe_bind; [auto with safe|]. intros f.
  apply safe_projects. intros p q. eapply keeps_bind_safe; [apply is_project_stable| |intros file_ref; apply safe_keeps; unfold FrameworksPhase; safe_tac].
  case_bool_decide; [by apply keeps_ret|]. apply keeps_with_reference. intros r. safe_tac.
Qed.
End targets.

(** *** Products *)
Lemma safe_product_name o : safe (product_name o).
Proof. unfold product_name. safe_tac. Qed.
Lemma safe_set_product_name o name : safe (set_product_name o name).
Proof. unfold set_product_name. safe_tac. Qed.
#[local] Hint Resolve safe_product_name safe_set_product_name : safe.
Lemma safe_loadable_module o suffix ext : safe (loadable_module o suffix ext).
Proof.
  apply (safe_at _ o); [apply looks_at_get|]. intros c. unfold loadable_module. apply keeps_bind_get. intros x _ Hstr.
  apply keeps_bind_safe; [apply is_a_stable| |intros; apply safe_keeps; safe_tac]. case_bool_decide as Htype; [|by apply keeps_ret].
  apply keeps_seq; [apply is_a_stable|apply keeps_with_str; by eapply Hstr|]. apply safe_keeps. safe_tac.
Qed.
Lemma safe_apply_extension o filetype suffix ext : safe (apply_extension o filetype suffix ext).
Proof. unfold apply_extension. safe_tac. Qed.
Lemma safe_strip_prefix o prefix : safe (strip_prefix o prefix).
Proof. unfold strip_prefix. safe_tac. Qed.
#[local] Hint Resolve safe_loadable_module safe_apply_extension safe_strip_prefix : safe.
Lemma safe_set_up_product o g filetype prefix suffix dir p ext : safe (set_up_product o g filetype prefix suffix dir p ext).
Proof. unfold set_up_product. cbn zeta. safe_tac. Qed.
#[local] Hint Resolve safe_set_up_product : safe.
Lemma safe_PBXNativeTarget_init o dir p ext : safe (PBXNativeTarget_init o dir p ext).
Proof. unfold PBXNativeTarget_init, ProductsGroup. safe_tac. Qed.
Lemma safe_construct fuel c ps p project_path : safe (construct fuel c ps None p project_path).
Proof. eapply safe_weaken. by apply (proj1 (keeps_construct_Copy fuel) c ps None). Qed.
Lemma safe_new_native_target ps p dir prefix ext : safe (new_native_target ps p dir prefix ext).
Proof. unfold new_native_target. apply safe_bind; [apply safe_construct|]. intros o. apply safe_bind; [apply safe_PBXNativeTarget_init|]. intros. apply safe_ret. Qed.

(** *** Files *)
Lemma safe_AddBuildFileToDicts o f p : safe (AddBuildFileToDicts o f p).
Proof.
  apply (safe_at _ o); [|intros c; apply keeps_AddBuildFileToDicts]. intros h [u h'] Hrun. unfold AddBuildFileToDicts in Hrun.
  apply XM_bind_Ok in Hrun as (x&h1&->%reads_get&Hrun). apply XM_bind_Ok in Hrun as (v&h1&->%reads_lift&Hrun). apply XM_bind_Ok in Hrun as (e&h1&->%reads_lift&Hrun).
  apply XM_bind_Ok in Hrun as (b&h1&Hb&Hrun). apply XM_bind_Ok in Hb as (y&h2&->%reads_get&[_ ->]%XM_ret_Ok).
  apply XM_bind_Ok in Hrun as (paths&h1&Hpaths&Hrun). assert (h1 = h) as ->.
  { destruct p; [by apply XM_ret_Ok in Hpaths as [_ ->]|]. destruct b.
    - apply XM_bind_Ok in Hpaths as (g&h2&->%reads_get&Hpaths). apply XM_bind_Ok in Hpaths as (w&h2&->%reads_lift&Hpaths).
      apply (reads_map_m FullPath (objects_of w) reads_FullPath) in Hpaths. done.
    - apply XM_bind_Ok in Hpaths as (q&h2&->%reads_FullPath&[_ ->]%XM_ret_Ok). done. }
  apply XM_bind_Ok in Hrun as (u'&h1&Hfor&Hrun). destruct paths as [|q paths].
  - apply XM_ret_Ok in Hfor as [_ ->]. by apply looks_at_get in Hrun.
  - cbn [for_m] in Hfor. apply XM_bind_Ok in Hfor as (u2&h2&Hadd&_). unfold AddPathToDict in Hadd. by apply looks_at_get in Hadd.
Qed.
#[local] Hint Resolve safe_AddBuildFileToDicts : safe.
Lemma safe_FileGroup o p : safe (FileGroup o p).
Proof. unfold FileGroup, ancestor_project, FrameworksGroup. apply safe_bind; [auto with safe|]. intros x. destruct (class_of x); safe_tac. Qed.
#[local] Hint Resolve safe_FileGroup : safe.
Lemma safe_AddFile o p settings : safe (AddFile o p settings).
Proof. unfold AddFile, AppendBuildFile. safe_tac. Qed.

Lemma keeps_SetDestination o p : keeps (SetDestination o p) (is_a o PBXCopyFilesBuildPhase) (λ _ _, True).
Proof.
  unfold SetDestination. apply keeps_bind_safe; [apply is_a_stable|by apply keeps_lift|]. intros [dst sub]. apply keeps_seq; [apply is_a_stable| |].
  - apply keeps_with_str. exists (required TStr). done.
  - by apply (keeps_with_property o "dstSubfolderSpec" (XInt sub) (required TInt) PBXCopyFilesBuildPhase).
Qed.
Lemma safe_SetXcodeVersion o version : safe (SetXcodeVersion o version).
Proof. unfold SetXcodeVersion. safe_tac. Qed.

(** ** Scripts

    A script calls one public operation after the other, on objects that it may choose freely, as a generator does that keeps them in variables. *)
Section scripts.
Context `{RealPath} `{Sha1}.

Inductive operation :=
  | New (c : cls) (ps : xprops) (parent : option nat) (project_path : option text)
  | NewNativeTarget (ps : xprops) (parent : option nat) (force_outdir force_prefix force_extension : option text)
  | CopyObject (o : nat)
  | SetProp (o : nat) (key : string) (value : xval)
  | AppendProp (o : nat) (key : string) (value : xval)
  | DelProp (o : nat) (key : string)
  | GroupAppendChild (o child : nat)
  | GroupAddOrGetFile (o : nat) (p : text) (hierarchical : bool)
  | GroupTakeOver (recurse : bool) (o : nat)
  | GroupSort (o : nat)
  | SetSetting (o : nat) (key : string) (value : xval)
  | DelSetting (o : nat) (key : string)
  | PhaseAddFile (o : nat) (p : text) (settings : option text)
  | PhaseSetDestination (o : nat) (p : text)
  | TargetAddDependency (o other : nat)
  | TargetHeadersPhase (o : nat)
  | TargetResourcesPhase (o : nat)
  | TargetSourcesPhase (o : nat)
  | TargetFrameworksPhase (o : nat)
  | ProjectAddOrGetFile (o : nat) (p : text)
  | ProjectTakeOver (recurse : bool) (o : nat)
  | ProjectSortGroups (o : nat)
  | ProjectReference (o other : nat)
  | ProjectSortRemoteProducts (o : nat)
  | FileSetXcodeVersion (o : nat) (version : string)
  | FileComputeIDs (recursive overwrite : bool) (o : nat).

(** A method runs on the objects whose classes have it. *)
Definition method {A} (o : nat) (c : cls) (m : XM A) : XM unit :=
  has ← isinstance o c; if has : bool then _ ← m; mret tt else throw (AttributeError (class_name c)).

Definition perform (op : operation) : XM unit :=
  match op with
  | New c ps parent project_path => _ ← construct new_fuel c ps None parent project_path; mret tt
  | NewNativeTarget ps parent dir prefix ext => _ ← new_native_target ps parent dir prefix ext; mret tt
  | CopyObject o => method o XCObject (Copy new_fuel o)
  | SetProp o key value => method o XCObject (SetProperty o key value)
  | AppendProp o key value => method o XCObject (AppendProperty o key value)
  | DelProp o key => method o XCObject (DelProperty o key)
  | GroupAppendChild o child => method o PBXGroup (AppendChild o child)
  | GroupAddOrGetFile o p hierarchical => method o PBXGroup (AddOrGetFileByPath o p hierarchical)
  | GroupTakeOver recurse o => method o PBXGroup (TakeOverOnlyChild recurse o)
  | GroupSort o => method o PBXGroup (SortGroup o)
  | SetSetting o key value => method o XCTarget (target_SetBuildSetting o key value)
  | DelSetting o key => method o XCTarget (target_DelBuildSetting o key)
  | PhaseAddFile o p settings => method o XCBuildPhase (AddFile o p settings)
  | PhaseSetDestination o p => method o PBXCopyFilesBuildPhase (SetDestination o p)
  | TargetAddDependency o other => method o XCTarget (AddDependency o other)
  | TargetHeadersPhase o => method o PBXNativeTarget (HeadersPhase o)
  | TargetResourcesPhase o => method o PBXNativeTarget (ResourcesPhase o)
  | TargetSourcesPhase o => method o PBXNativeTarget (SourcesPhase o)
  | TargetFrameworksPhase o => method o PBXNativeTarget (FrameworksPhase o)
  | ProjectAddOrGetFile o p => method o PBXProject (AddOrGetFileInRootGroup o p)
  | ProjectTakeOver recurse o => method o PBXProject (RootGroupsTakeOverOnlyChildren recurse o)
  | ProjectSortGroups o => method o PBXProject (SortGroups o)
  | ProjectReference o other => method o PBXProject (AddOrGetProjectReference o other)
  | ProjectSortRemoteProducts o => method o PBXProject (SortRemoteProductReferences o)
  | FileSetXcodeVersion o version => method o XCProjectFile (SetXcodeVersion o version)
  | FileComputeIDs recursive overwrite o => method o XCProjectFile (ComputeProjectIDs recursive overwrite o)
  end.

(** What scripts lead to from a heap, each operation a step; a script ends at an exception. *)
Inductive reachable (h : heap) : heap → Prop :=
  | reachable_start : reachable h h
  | reachable_step h1 op h2 : reachable h h1 → perform op h1 = Ok (tt, h2) → reachable h h2.

(** *** Every operation keeps the types. *)
Lemma safe_method {A} o c (m : XM A) : safe m → safe (method o c m).
Proof. intros Hm. unfold method. apply safe_bind; [auto with safe|]. intros []; [|apply safe_throw]. apply safe_bind; [done|]. intros. apply safe_ret. Qed.

(** The class of the object is known where it has no subclasses. *)
Lemma safe_method_of {A} o c (m : XM A) : (∀ d, subclass d c = true → d = c) → keeps m (is_a o c) (λ _ _, True) → safe (method o c m).
Proof.
  intros Hc Hm h [] h' Hwt _ (b&h1&Hb&Hrun)%XM_bind_Ok. unfold isinstance in Hb. apply XM_bind_Ok in Hb as (x&h2&Hget&[-> ->]%XM_ret_Ok).
  unfold get in Hget. destruct (objects h !! o) as [x'|] eqn:Hx; [|done]. injection Hget as -> <-. destruct (subclass (class_of x) c) eqn:Hsub; [|done].
  apply XM_bind_Ok in Hrun as (a&h1&Ha&[_ ->]%XM_ret_Ok). apply (Hm h a h1 Hwt); [|done]. exists x. by apply Hc in Hsub.
Qed.

(** Identifiers are hexadecimal. *)
Lemma safe_set_id o hash : safe (modify o (with_id (Some (id_of hash)))).
Proof.
  apply keeps_modify; [done| |by intros h x _ _ Hx key v Hv; apply Hx]. intros x. right. intros t [= <-]. apply is_id_word, id_of_is_id.
Qed.
Lemma safe_ComputeProjectIDs recursive overwrite o : safe (ComputeProjectIDs recursive overwrite o).
Proof.
  assert (∀ fuel seed o, safe (ComputeIDs fuel recursive overwrite seed o)) as Hids.
  { induction fuel as [|fuel IH]; intros seed o'; cbn [ComputeIDs]; [apply safe_throw|]. pose proof (λ o, safe_blind _ (blind_HashablesForChild o)). pose proof safe_set_id. safe_tac. }
  unfold ComputeProjectIDs. safe_tac. intros h. apply Hids.
Qed.
Lemma safe_Copy o : safe (method o XCObject (Copy new_fuel o)).
Proof.
  apply (safe_at _ o); [apply looks_at_bind, looks_at_get|]. intros c. unfold method. apply keeps_bind_safe; [apply is_a_stable|apply safe_keeps, safe_isinstance|].
  intros []; [|apply keeps_throw]. apply keeps_bind_safe; [apply is_a_stable|eapply keeps_weaken; [apply (proj2 (keeps_construct_Copy new_fuel))|done|done]|].
  intros _. by apply keeps_ret.
Qed.

Lemma safe_perform op : safe (perform op).
Proof.
  destruct op; cbn [perform];
    lazymatch goal with
    | |- safe (method _ _ (Copy _ _)) => apply safe_Copy
    | |- safe (method _ _ (SetDestination _ _)) => apply safe_method_of; [by intros []|apply keeps_SetDestination]
    | |- safe (method _ _ (AddOrGetProjectReference _ _)) => apply safe_method_of; [by intros []|apply keeps_AddOrGetProjectReference]
    | |- safe (method _ _ _) => apply safe_method
    | |- _ => apply safe_bind; [|intros; apply safe_ret]
    end.
  - apply safe_construct.
  - apply safe_new_native_target.
  - apply safe_SetProperty.
  - apply safe_AppendProperty.
  - apply safe_DelProperty.
  - apply safe_AppendChild.
  - apply safe_AddOrGetFileByPath.
  - apply safe_TakeOverOnlyChild.
  - apply safe_SortGroup.
  - apply safe_target_SetBuildSetting.
  - apply safe_target_DelBuildSetting.
  - apply safe_AddFile.
  - apply safe_AddDependency.
  - apply safe_HeadersPhase.
  - apply safe_ResourcesPhase.
  - apply safe_last_phase.
  - apply safe_last_phase.
  - apply safe_AddOrGetFileInRootGroup.
  - apply safe_RootGroupsTakeOverOnlyChildren.
  - apply safe_SortGroups.
  - apply safe_SortRemoteProductReferences.
  - apply safe_SetXcodeVersion.
  - apply safe_ComputeProjectIDs.
Qed.

End scripts.

(** *** A script

    A static library, a tool that depends on it and has one source file and headers, a second project with a tool that depends on the library of the first. *)
Definition project_at (p : string) : operation := New PBXProject [] None (Some (chars p)).
Definition target_of (project : nat) (name : string) (type : xval) : operation :=
  NewNativeTarget [("name", str name); ("productName", str name); ("productType", type)] (Some project) None None None.
Definition sample_script : list operation :=
  [project_at "lib/base.xcodeproj"; target_of 11 "base" static_library_type; AppendProp 11 "targets" (XObj 18);
   target_of 11 "tool" (str "com.apple.product-type.tool"); AppendProp 11 "targets" (XObj 28); TargetAddDependency 28 18;
   PhaseAddFile 34 (chars "src/main.cc") None; TargetResourcesPhase 28; TargetHeadersPhase 28;
   project_at "app/app.xcodeproj"; target_of 46 "app" (str "com.apple.product-type.application"); AppendProp 46 "targets" (XObj 53);
   TargetAddDependency 53 18; ProjectSortGroups 11; ProjectSortGroups 46;
   New XCProjectFile [("rootObject", XObj 46)] None None; FileSetXcodeVersion 73 "3.2"; FileComputeIDs true true 73].
#[local] Existing Instance toy_sha1.
#[local] Instance work : RealPath := realpath_nolinks (chars "/work").
Definition run_script (script : list operation) : XM unit := for_m script perform.
Lemma run_script_reachable script h0 h h' : reachable h0 h → run_script script h = Ok (tt, h') → reachable h0 h'.
Proof.
  revert h. induction script as [|op script IH]; intros h Hreach Hrun; cbn [run_script for_m] in Hrun; [by apply XM_ret_Ok in Hrun as [_ ->]|].
  apply XM_bind_Ok in Hrun as ([]&h1&Hop&Hrun). eapply IH; [|exact Hrun]. by eapply reachable_step.
Qed.
Definition script_heap : heap := match run_script sample_script module_heap with Ok (_, h) => h | Err _ => module_heap end.
Lemma sample_script_runs : run_script sample_script module_heap = Ok (tt, script_heap).
Proof.
  assert (is_ok (run_script sample_script module_heap) = true) as Hok by (vm_compute; reflexivity).
  unfold script_heap. destruct (run_script sample_script module_heap) as [[[] h]|e]; done.
Qed.
Definition script_result {A} (m : XM A) : result A := match m script_heap with Ok (a, _) => Ok a | Err e => Err e end.

(** The phases of the tool are in the order that Xcode wants; it links the library, the application of the other project a proxy of it. *)
Example phases_of_the_tool :
  script_result (l ← build_phases 28; map_m (λ o, x ← get o; mret (class_of x, length (objects_property "files" x))) l)
  = Ok [(PBXHeadersBuildPhase, 0); (PBXResourcesBuildPhase, 0); (PBXSourcesBuildPhase, 1); (PBXFrameworksBuildPhase, 1)].
Proof. vm_compute. reflexivity. Qed.
Example linked_proxy :
  script_result (f ← FrameworksPhase 53; x ← get f; map_m (λ b, y ← get b; r ← object_at "fileRef" y; z ← get r; mret (class_of z, str_property "path" z)) (objects_property "files" x))
  = Ok [(PBXReferenceProxy, Some (chars "libbase.a"))].
Proof. vm_compute. reflexivity. Qed.

