(* ===== verification/XcGen.v ===== *)
(** * The generator of Xcode projects

    tools/gyp/pylib/gyp/generator/xcode.py: an Xcode project for every build file, a target for every target that Load returns, with its actions, rules,
    sources, copies, libraries and settings; the order of the targets and groups; the files that are written.  What it reads of the
    dictionaries is in records; the calls of the module of Xcode objects are those of [XcObject], [XcGroup], [XcProject], [XcIds]
    and [XcPrint]. *)
From S2P Require Import Prelude PyDict PyStr PyPath Common Shell TargetSpec XcObject XcPrint XcIds XcGroup XcProject.
From Stdlib Require Import Ascii.

(** ** Variables of Xcode *)

(** [(.*?)\)]: up to the next parenthesis on the line, and what follows *)
Fixpoint until_paren (s : text) : option (text * text) :=
  match s with
  | [] => None
  | c :: s =>
      if c ==? newline_char then None
      else if c ==? ")"%char then Some ([], s)
      else '(name, rest) ← until_paren s; Some (c :: name, rest)
  end.

(** A text as characters and the names of the variables between them; [skip] characters belong to the last variable. *)
Fixpoint pieces (skip : nat) (s : text) : list (ascii + text) :=
  match s with
  | [] => []
  | c :: s =>
      match skip with
      | S skip => pieces skip s
      | 0 =>
          match (if c ==? "$"%char then match s with "("%char :: s => until_paren s | _ => None end else None) with
          | Some (name, _) => inr name :: pieces (length name + 2) s
          | None => inl c :: pieces 0 s
          end
      end
  end.
Definition ConvertVariablesToShellSyntax (s : text) : text :=
  (pieces 0 s) ≫= λ p, match p with inl c => [c] | inr name => chars "${" ++ name ++ chars "}" end.

(** The template of [re.sub], where [whole] is what was matched *)
Definition octal_digit (c : ascii) : bool := let n := nat_of_ascii c in (48 <=? n) && (n <=? 55).
Definition decimal_digit (c : ascii) : bool := let n := nat_of_ascii c in (48 <=? n) && (n <=? 57).
Definition octal (ds : text) : ascii := ascii_of_nat ((foldl (λ n d, 8 * n + (nat_of_ascii d - 48)) 0 ds) mod 256).
Definition template_escape (c : ascii) : text :=
  match c with
  | "a" => ["007"] | "b" => ["008"] | "f" => ["012"] | "n" => ["010"] | "r" => ["013"] | "t" => ["009"] | "v" => ["011"] | "\" => ["\"]
  | c => ["\"; c]
  end%char.
(** What follows a backslash and [g] *)
Definition group_reference (s : text) : option text :=
  match s with
  | "<"%char :: s => let '(digits, rest) := span decimal_digit s in
      match rest with ">"%char :: rest => if negb (digits ==? []) && forallb (λ d, d ==? "0"%char) digits then Some rest else None | _ => None end
  | _ => None
  end.
Definition re_error {A} : result A := Err (RuntimeError "sre_constants.error").

Fixpoint re_template (fuel : nat) (whole s : text) : result text :=
  match fuel with
  | 0 => Err OutOfFuel
  | S fuel =>
      match s with
      | [] => Ok []
      | "\"%char :: [] => re_error
      | "\"%char :: c :: s =>
          if c ==? "g"%char then match group_reference s with Some rest => t ← re_template fuel whole rest; Ok (whole ++ t) | None => re_error end
          else if c ==? "0"%char then
            let n := length (span octal_digit (take 2 s)).1 in
            t ← re_template fuel whole (drop n s); Ok (octal (take n s) :: t)
          else if decimal_digit c then
            if octal_digit c && (2 <=? length (span octal_digit (take 2 s)).1) then
              t ← re_template fuel whole (drop 2 s); Ok (octal (c :: take 2 s) :: t)
            else re_error
          else t ← re_template fuel whole s; Ok (template_escape c ++ t)
      | c :: s => t ← re_template fuel whole s; Ok (c :: t)
      end
  end.
Definition re_replacement (whole s : text) : result text := re_template (S (length s)) whole s.

Definition variables_of (s : text) : list text := omap (λ p, match p with inl _ => None | inr name => Some name end) (pieces 0 s).
Definition variable_text (name : text) : text := chars "$(" ++ name ++ chars ")".

(** The expression of a variable is replaced only if it is there: the template is looked at in any case. *)
Definition expand_variable (expansions : list (text * text)) (variable : text) (s : text) : result text :=
  match dict_get expansions variable with
  | None => Ok s
  | Some replacement => r ← re_replacement (variable_text variable) replacement; Ok (lreplace (variable_text variable) r s)
  end.
Definition ExpandXcodeVariables (s : text) (expansions : list (text * text)) : result text :=
  for_each (reverse (variables_of s)) s (expand_variable expansions).

Definition EscapeXcodeDefine (s : text) : text := s ≫= λ c, if c in? ["\"; quote_char; "'"; " "]%char then ["\"%char; c] else [c].

(** ** What is read of the dictionaries *)
Record xaction := {
  base_action : gyp_action; as_resources : bool; action_inputs_excluded : list text; action_outputs_excluded : list text
}.
Record xrule := { base_rule : gyp_rule; rule_extension : text; rule_as_resources : bool; rule_inputs_excluded : list text }.
Record xconfig := {
  mac_framework_dirs : list text; config_include_dirs : list text; config_library_dirs : list text; config_defines : list text;
  xcode_settings : list (text * xval); xcode_config_file : option text
}.
Record xspec := {
  toolset : string; default_configuration : string; config_dicts : list (string * xconfig); target_type : string;
  mac_xctest_bundle : bool; mac_bundle : bool; target_product_name : option text;
  force_outdir : option text; force_prefix : option text; force_extension : option text;
  actions : list xaction; rules : list xrule; mac_bundle_resources : list text; spec_sources : list text;
  mac_framework_private_headers : list text; mac_framework_headers : list text; copies : list gyp_copy;
  sources_excluded : list text; mac_bundle_resources_excluded : list text; mac_framework_headers_excluded : list text;
  mac_framework_private_headers_excluded : list text; postbuilds : list (text * list text);
  spec_dependencies : list string; spec_libraries : list text
}.
Record run_as := { working_directory : text; environment : list (text * text); command : list text }.
Record file_target := {
  name_of_target : string; toolset_of_target : string; suppress_wildcard : bool; run_as_of : option run_as; dependents_test_runner : bool
}.
Record build_file_dict := {
  included_files : list text; file_targets : list file_target; file_settings : list (text * xval); file_config : option text;
  file_configurations : list (text * (list (text * xval) * option text))
}.
Record params := {
  suffix : text; generator_output : text; xcode_parallel_builds : bool; xcode_serialize_all_test_runs : bool;
  xcode_project_version : option string; xcode_list_excluded_files : bool; standalone : bool
}.

Definition lookup_or_key_error {A} (d : list (string * A)) (key : string) : XM A :=
  lift (match dict_get d key with Some a => Ok a | None => Err (KeyError key) end).

(** ** Configurations *)
Definition CreateXCConfigurationList (configuration_names : list text) : XM nat :=
  xccl ← new XCConfigurationList [("buildConfigurations", XList [])];
  let names := if configuration_names ==? [] then [chars "Default"] else configuration_names in
  _ ← for_m names (λ name, xcbc ← new XCBuildConfiguration [("name", XStr name)]; AppendProperty xccl "buildConfigurations" (XObj xcbc));
  _ ← SetProperty xccl "defaultConfigurationName" (XStr (default [] (head names)));
  mret xccl.

(** [AppendBuildSetting] of a configuration and of a list of them *)
Definition append_setting (key : text) (value : text) (configuration : nat) : XM unit :=
  d ← build_settings configuration;
  l ← lift (match dict_get d key with None => Ok [] | Some (XList l) => Ok l | Some _ => Err (AttributeError "append") end);
  modify configuration (with_property "buildSettings" (XDict (dict_set d key (XList (l ++ [XStr value]))))).
Definition AppendBuildSetting (o : nat) (key value : text) : XM unit := cs ← configurations o; for_m cs (append_setting key value).

(** [value in setting], for a list or a text *)
Definition in_setting (value : text) (setting : option xval) : result bool :=
  match setting with
  | Some (XList l) => Ok (XStr value in? l)
  | Some (XStr s) => Ok (contains value s)
  | Some (XDict d) => Ok (dict_mem d value)
  | _ => Err (TypeError "not iterable")
  end.
Definition library_search_paths : text := chars "LIBRARY_SEARCH_PATHS".
Definition xcode_standard_library_dirs : list text := chars <$> ["$(SDKROOT)/usr/lib"; "$(SDKROOT)/usr/local/lib"].
Definition apply_settings (o : nat) (settings : list (text * xval)) : XM unit := for_m settings (λ '(key, value), SetBuildSetting o key value).

(** ** Files of targets *)

(** A method that only native targets have *)
Definition native {A} (xct : nat) (m : XM A) : XM A :=
  is_native ← isinstance xct PBXNativeTarget; if is_native : bool then m else throw (AttributeError "PBXAggregateTarget").

Definition source_extensions : list string := ["c"; "cc"; "cpp"; "cxx"; "m"; "mm"; "s"].
Definition library_extensions : list string := ["a"; "dylib"; "framework"; "o"].

Section generator.
Context `{RealPath} `{Sha1} (cwd : text).

Definition AddSourceToTarget (source : text) (type : string) (pbxp xct : nat) : XM unit :=
  let ext := of_chars (lower_extension (p_basename source)) in
  if (ext in? source_extensions) && negb (type ==? "none") then phase ← native xct (SourcesPhase xct); AddFile phase source None
  else if (ext in? library_extensions) && negb (type ==? "none") then phase ← native xct (FrameworksPhase xct); AddFile phase source None
  else _ ← AddOrGetFileInRootGroup pbxp source; mret tt.
Definition AddResourceToTarget (resource : text) (xct : nat) : XM unit :=
  phase ← native xct (ResourcesPhase xct); AddFile phase resource None.
Definition AddHeaderToTarget (header : text) (xct : nat) (is_public : bool) : XM unit :=
  phase ← native xct (HeadersPhase xct);
  AddFile phase header (Some (chars (if is_public then "{ATTRIBUTES = (Public, ); }" else "{ATTRIBUTES = (Private, ); }"))).
Definition add_to_root_groups (pbxp : nat) (files : list text) : XM unit := for_m files (λ f, _ ← AddOrGetFileInRootGroup pbxp f; mret tt).

(** ** Script phases *)
Definition line (t : text) : text := t ++ [newline_char].
Definition exec_script (command : text) : text := line (chars "exec " ++ command) ++ line (chars "exit 1").
Definition action_script (a : gyp_action) : text :=
  let message := match action_message a with
    | Some m => if m ==? [] then [] else chars "echo note: " ++ EncodePOSIXShellArgument m
    | None => []
    end in
  let message_sh := ConvertVariablesToShellSyntax message in
  (if message_sh ==? [] then [] else line message_sh) ++ exec_script (ConvertVariablesToShellSyntax (EncodePOSIXShellList (action_command a))).
Definition quoted_text (t : text) : text := quote_char :: t ++ [quote_char].
Definition str_list (l : list text) : xval := XList (XStr <$> l).
Definition make_script (makefile_name : text) : text :=
  line (chars "JOB_COUNT=" ++ quoted_text (chars "$(/usr/sbin/sysctl -n hw.ncpu)"))
  ++ line (chars "if [ " ++ quoted_text (chars "${JOB_COUNT}") ++ chars " -gt 4 ]; then")
  ++ line (chars "  JOB_COUNT=4") ++ line (chars "fi")
  ++ line (chars "exec xcrun make -f " ++ quoted_text (chars "${PROJECT_FILE_PATH}/" ++ makefile_name) ++ chars " -j " ++ quoted_text (chars "${JOB_COUNT}"))
  ++ line (chars "exit 1").

(** [buildPhases.insert(index, phase)], around the checks of the object *)
Definition insert_build_phase (o index phase : nat) : XM unit :=
  x ← get o; v ← lift (property "buildPhases" x); l ← lift (as_list v);
  modify o (with_property "buildPhases" (XList (take index l ++ XObj phase :: drop index l))).
(** The phase goes to the support target, or to the target itself at [prebuild_index]. *)
Definition add_prebuild (xct : nat) (support_xct : option nat) (prebuild_index phase : nat) : XM nat :=
  match support_xct with
  | Some s => _ ← AppendProperty s "buildPhases" (XObj phase); mret prebuild_index
  | None => _ ← insert_build_phase xct prebuild_index phase; mret (S prebuild_index)
  end.

Definition add_action (type : string) (pbxp xct : nat) (support_xct : option nat) (prebuild_index : nat) (a : xaction) : XM nat :=
  let b := base_action a in
  ssbp ← new PBXShellScriptBuildPhase
    [("inputPaths", str_list (action_inputs b)); ("name", XStr (chars "Action " ++ quoted_text (action_name b)));
     ("outputPaths", str_list (action_outputs b)); ("shellScript", XStr (action_script b)); ("showEnvVarsInLog", XInt 0)];
  prebuild_index ← add_prebuild xct support_xct prebuild_index ssbp;
  _ ← (if action_as_sources b then for_m (action_outputs b) (λ output, AddSourceToTarget output type pbxp xct) else mret tt);
  _ ← (if as_resources a then for_m (action_outputs b) (λ output, AddResourceToTarget output xct) else mret tt);
  mret prebuild_index.
Fixpoint fold_m {A S} (l : list A) (s : S) (body : S → A → XM S) : XM S :=
  match l with [] => mret s | a :: l => s ← body s a; fold_m l s body end.

(** *** Rules *)
Definition rule_input_dict (rule_source : text) : list (text * text) :=
  let '(dirname, basename) := p_split rule_source in
  let '(root, ext) := p_splitext basename in
  [(chars "INPUT_FILE_BASE", root); (chars "INPUT_FILE_SUFFIX", ext); (chars "INPUT_FILE_NAME", basename); (chars "INPUT_FILE_PATH", rule_source);
   (chars "INPUT_FILE_DIRNAME", dirname)].

(** What a rule does for one source: its outputs, message and command *)
Record rule_step := { step_source : text; concrete_outputs : list text; step_message : option text; step_action : text }.
Definition rule_command (r : gyp_rule) : result (list text) := match rule_action r with Some l => Ok l | None => Err (KeyError "action") end.

Definition do_rule_source (type : string) (pbxp xct : nat) (bundle_resources : list text) (r : xrule) (rule_source : text) : XM rule_step :=
  let b := base_rule r in
  let d := rule_input_dict rule_source in
  outputs ← map_m (λ output, concrete ← lift (ExpandXcodeVariables output d); _ ← AddOrGetFileInRootGroup pbxp concrete; mret concrete) (rule_outputs b);
  _ ← (if rule_as_sources b then for_m outputs (λ output, AddSourceToTarget output type pbxp xct) else mret tt);
  _ ← (if (rule_source in? bundle_resources) || rule_as_resources r then for_m outputs (λ output, AddResourceToTarget output xct) else mret tt);
  message ← lift (match rule_message b with
    | Some m => if m ==? [] then Ok (Some m) else Some <$> ExpandXcodeVariables (EncodePOSIXShellArgument m) d
    | None => Ok None
    end);
  command ← lift (rule_command b);
  action ← lift (ExpandXcodeVariables (EncodePOSIXShellList command) d);
  mret {| step_source := rule_source; concrete_outputs := outputs; step_message := message; step_action := action |}.

(** *** The makefile of a rule, line by line *)
Definition continued (l : list text) : list text :=
  imap (λ i t, chars "    " ++ t ++ (if S i =? length l then [] else chars " \")) l.
Definition output_lines (outputs : list text) : list text := imap (λ i t, (if i =? 0 then [] else chars "    ") ++ t ++ chars " \") outputs.
Definition output_dirs (outputs : list text) : list text :=
  foldl (λ dirs o, let d := p_dirname o in if negb (d ==? []) && negb (d in? dirs) then dirs ++ [d] else dirs) [] outputs.
Definition recipe_lines (s : rule_step) : list text :=
  (let dirs := output_dirs (concrete_outputs s) in
   if dirs ==? [] then [] else [chars "@mkdir -p " ++ quoted_text (ljoin [quote_char; " "%char; quote_char] dirs)])
  ++ (match step_message s with Some m => if m ==? [] then [] else [chars "@echo note: " ++ m] | None => [] end)
  ++ [step_action s].
Definition rule_lines (inputs : list text) (s : rule_step) : list text :=
  [] :: output_lines (concrete_outputs s) ++ [chars "    : \"] ++ continued (step_source s :: inputs) ++ (cons "009"%char <$> recipe_lines s).
(** Every source has as many outputs as the rule, at least one where the makefile is written. *)
Definition first_output (s : rule_step) : text := default [] (head (concrete_outputs s)).
Definition makefile_lines (inputs : list text) (steps : list rule_step) : list text :=
  chars "all: \" :: continued (first_output <$> steps) ++ (steps ≫= rule_lines inputs).
Definition rule_makefile (inputs : list text) (steps : list rule_step) : text := concat (line <$> makefile_lines inputs steps).
Definition makefile_name (target_name : string) (rule_name : text) : text := only_word_chars (chars target_name ++ "_"%char :: rule_name) ++ chars ".make".

(** One rule: what it leaves is the index and the makefile, if there is one *)
Definition add_rule (skip_excluded : bool) (type : string) (target_name : string) (pbxp xct : nat) (support_xct : option nat) (project_dir : text)
    (bundle_resources : list text) (s : nat * list (text * text)) (r : xrule) : XM (nat * list (text * text)) :=
  let b := base_rule r in
  steps ← map_m (do_rule_source type pbxp xct bundle_resources r) (rule_sources b);
  s ← (if (steps ≫= concrete_outputs) ==? [] then mret s
       else
         let name := makefile_name target_name (rule_name b) in
         ssbp ← new PBXShellScriptBuildPhase
           [("name", XStr (chars "Rule " ++ quoted_text (rule_name b))); ("shellScript", XStr (make_script name)); ("showEnvVarsInLog", XInt 0)];
         prebuild_index ← add_prebuild xct support_xct s.1 ssbp;
         mret (prebuild_index, s.2 ++ [(p_join project_dir name, rule_makefile (rule_inputs b) steps)]));
  _ ← add_to_root_groups pbxp (rule_inputs b ++ (if skip_excluded then [] else rule_inputs_excluded r));
  mret s.

(** *** Copies *)
Definition copy_destination_path (dest : text) : result text :=
  match dest with
  | [] => Err IndexError
  | c :: _ => Ok (if c in? [slash; "$"%char] then dest else chars "$(SRCROOT)/" ++ dest)
  end.
(** The phases made for the destinations so far *)
Definition add_copy (xct prebuild_index : nat) (pbxcp_dict : list (text * nat)) (c : gyp_copy) : XM (list (text * nat)) :=
  dest ← lift (copy_destination_path (copy_destination c));
  '(pbxcp, pbxcp_dict) ← (match dict_get pbxcp_dict dest with
    | Some pbxcp => mret (pbxcp, pbxcp_dict)
    | None =>
        pbxcp ← construct new_fuel PBXCopyFilesBuildPhase [("name", XStr (chars "Copy to " ++ copy_destination c))] None (Some xct) None;
        _ ← SetDestination pbxcp dest;
        _ ← insert_build_phase xct prebuild_index pbxcp;
        mret (pbxcp, dict_set pbxcp_dict dest pbxcp)
    end);
  _ ← for_m (copy_files c) (λ file, AddFile pbxcp file None);
  mret pbxcp_dict.

Definition add_postbuild (xct : nat) (postbuild : text * list text) : XM unit :=
  ssbp ← new PBXShellScriptBuildPhase
    [("inputPaths", str_list [chars "$(BUILT_PRODUCTS_DIR)/$(EXECUTABLE_PATH)"]); ("name", XStr (chars "Postbuild " ++ quoted_text postbuild.1));
     ("shellScript", XStr (exec_script (EncodePOSIXShellList postbuild.2))); ("showEnvVarsInLog", XInt 0)];
  AppendProperty xct "buildPhases" (XObj ssbp).

Definition add_library (xct : nat) (library : text) : XM unit :=
  phase ← native xct (FrameworksPhase xct); _ ← AddFile phase library None;
  let library_dir := p_dirname library in
  if library_dir in? xcode_standard_library_dirs then mret tt
  else
    has ← target_HasBuildSetting xct (of_chars library_search_paths);
    there ← (if (has =? 0)%Z then mret false
             else v ← target_GetBuildSetting xct (of_chars library_search_paths); lift (in_setting library_dir v));
    if there : bool then mret tt else c ← configuration_list xct; AppendBuildSetting c library_search_paths library_dir.

(** *** The settings of a configuration *)
Definition add_library_dir (xcbc : nat) (library_dir : text) : XM unit :=
  if library_dir in? xcode_standard_library_dirs then mret tt
  else
    d ← build_settings xcbc;
    there ← lift (match dict_get d library_search_paths with Some v => in_setting library_dir (Some v) | None => Ok false end);
    if there : bool then mret tt else append_setting library_search_paths library_dir xcbc.
Definition set_base_configuration (pbxp xcbc : nat) (config_file : option text) : XM unit :=
  match config_file with
  | Some f => config_ref ← AddOrGetFileInRootGroup pbxp f; modify xcbc (with_property "baseConfigurationReference" (XObj config_ref))
  | None => mret tt
  end.
Definition add_configuration (pbxp xct : nat) (dicts : list (string * xconfig)) (name : string) : XM unit :=
  c ← lookup_or_key_error dicts name;
  l ← configuration_list xct; xcbc ← ConfigurationNamed l (chars name);
  _ ← for_m (mac_framework_dirs c) (λ dir, append_setting (chars "FRAMEWORK_SEARCH_PATHS") dir xcbc);
  _ ← for_m (config_include_dirs c) (λ dir, append_setting (chars "HEADER_SEARCH_PATHS") dir xcbc);
  _ ← for_m (config_library_dirs c) (add_library_dir xcbc);
  _ ← for_m (config_defines c) (λ define, append_setting (chars "GCC_PREPROCESSOR_DEFINITIONS") (EscapeXcodeDefine define) xcbc);
  _ ← for_m (xcode_settings c) (λ '(key, value), set_setting key value xcbc);
  set_base_configuration pbxp xcbc (xcode_config_file c).

(** ** Targets *)
Definition types : list (string * string) :=
  [("executable", "com.apple.product-type.tool"); ("loadable_module", "com.googlecode.gyp.xcode.bundle");
   ("shared_library", "com.apple.product-type.library.dynamic"); ("static_library", "com.apple.product-type.library.static");
   ("executable+bundle", "com.apple.product-type.application"); ("loadable_module+bundle", "com.apple.product-type.bundle");
   ("loadable_module+xctest", "com.apple.product-type.bundle.unit-test"); ("shared_library+bundle", "com.apple.product-type.framework")].
Definition is_bundle (s : xspec) : bool := mac_bundle s || mac_xctest_bundle s.
(** The type of the product; a target of type none makes nothing. *)
Definition product_type (s : xspec) : result (option string) :=
  if target_type s ==? "none" then (if is_bundle s then Err AssertionError else Ok None)
  else
    _ ← raise_if (mac_xctest_bundle s && negb (target_type s ==? "loadable_module")) AssertionError;
    let key := target_type s +:+ (if mac_xctest_bundle s then "+xctest" else if is_bundle s then "+bundle" else "") in
    match dict_get types key with Some t => Ok (Some t) | None => Err (KeyError key) end.

Definition configuration_names (s : xspec) : list string :=
  foldl (λ names n, if n in? names then names else names ++ [n]) [default_configuration s] (str_sorted (dict_keys (config_dicts s))).
Definition option_str (key : string) (t : option text) : xprops := match t with Some t => [(key, XStr t)] | None => [] end.

(** The objects for a target: itself, and the one for its actions and rules *)
Definition new_target (pbxp : nat) (target_name : string) (s : xspec) (names : list string) : XM nat :=
  type ← lift (product_type s);
  xccl ← CreateXCConfigurationList (chars <$> names);
  let ps := [("buildConfigurationList", XObj xccl); ("name", str target_name)] ++ option_str "productName" (target_product_name s) in
  xct ← (match type with
         | Some t => new_native_target (("productType", str t) :: ps) (Some pbxp) (force_outdir s) (force_prefix s) (force_extension s)
         | None => construct new_fuel PBXAggregateTarget ps None (Some pbxp) None
         end);
  _ ← AppendProperty pbxp "targets" (XObj xct);
  mret xct.
Definition new_support_target (pbxp xct : nat) (target_name : string) (s : xspec) (names : list string) : XM (option nat) :=
  if negb (target_type s ==? "none") && (negb (length (actions s) =? 0) || negb (length (rules s) =? 0)) then
    xccl ← CreateXCConfigurationList (chars <$> names);
    let product := match target_product_name s with Some t => if t ==? [] then None else Some (t ++ chars " Support") | None => None end in
    support_xct ← construct new_fuel PBXAggregateTarget
      ([("buildConfigurationList", XObj xccl); ("name", XStr (chars target_name ++ chars " Support"))] ++ option_str "productName" product) None (Some pbxp) None;
    _ ← AppendProperty pbxp "targets" (XObj support_xct);
    _ ← AddDependency xct support_xct;
    mret (Some support_xct)
  else mret None.

(** What the generator keeps besides the objects: the target object of each target, what it hangs on the objects as attributes (the support target and the
    runner of the tests), and the makefiles written. *)
Record gen_state := GenState {
  xcode_targets : list (string * nat); support_target : list (nat * option nat); test_runner : list (nat * nat); makefiles : list (text * text)
}.
Record xcode_project := XcodeProject { gyp_path : string; proj_path : text; project : nat; project_file : nat; dict_of : build_file_dict }.

Definition add_bundle_files (s : xspec) (rules_by_ext : list text) (pbxp xct : nat) : XM unit :=
  let without_rule f := negb (drop 1 (p_splitext f).2 in? rules_by_ext) in
  let to_root_group f := _ ← AddOrGetFileInRootGroup pbxp f; mret tt in
  _ ← for_m (spec_sources s) (λ source, if without_rule source then AddSourceToTarget source (target_type s) pbxp xct else to_root_group source);
  _ ← (if is_bundle s then
         _ ← for_m (mac_bundle_resources s) (λ resource, if without_rule resource then AddResourceToTarget resource xct else to_root_group resource);
         for_m (mac_framework_private_headers s) (λ header, AddHeaderToTarget header xct false)
       else mret tt);
  if is_bundle s || (target_type s ==? "static_library") then for_m (mac_framework_headers s) (λ header, AddHeaderToTarget header xct true) else mret tt.

Definition built_product (item : text) : bool := lstarts (chars "$(BUILT_PRODUCTS_DIR)/") item.
Definition add_project_files (skip_excluded : bool) (s : xspec) (pbxp : nat) : XM unit :=
  _ ← (if skip_excluded then mret tt
       else add_to_root_groups pbxp (sources_excluded s ++ mac_bundle_resources_excluded s ++ mac_framework_headers_excluded s ++ mac_framework_private_headers_excluded s));
  for_m (actions s) (λ a,
    let groups := action_inputs (base_action a) ++ (if skip_excluded then [] else action_inputs_excluded a)
                  ++ action_outputs (base_action a) ++ (if skip_excluded then [] else action_outputs_excluded a) in
    add_to_root_groups pbxp (filter (λ item, built_product item = false) groups)).

Definition add_dependency (st : gen_state) (xct : nat) (support_xct : option nat) (dependency : string) : XM unit :=
  other ← lookup_or_key_error (xcode_targets st) dependency;
  _ ← AddDependency xct other;
  match support_xct with Some s => AddDependency s other | None => mret tt end.

Definition generate_target (ps : params) (projects : list (string * xcode_project)) (target_dicts : list (string * xspec)) (st : gen_state) (qualified_target : string)
    : XM gen_state :=
  let '(build_file, target_name, _) := ParseQualifiedTarget qualified_target in
  let skip_excluded := negb (xcode_list_excluded_files ps) in
  s ← lookup_or_key_error target_dicts qualified_target;
  _ ← (if toolset s ==? "target" then mret tt else throw (RuntimeError "Multiple toolsets not supported"));
  xcp ← lookup_or_key_error projects (default "None" build_file);
  let pbxp := project xcp in
  let names := configuration_names s in
  xct ← new_target pbxp target_name s names;
  support_xct ← new_support_target pbxp xct target_name s names;
  let type := target_type s in
  let bundle_resources := if is_bundle s then mac_bundle_resources s else [] in
  prebuild_index ← fold_m (actions s) 0 (add_action type pbxp xct support_xct);
  '(prebuild_index, written) ← fold_m (rules s) (prebuild_index, [])
    (add_rule skip_excluded type target_name pbxp xct support_xct (proj_path xcp) bundle_resources);
  _ ← add_bundle_files s (rule_extension <$> rules s) pbxp xct;
  _ ← fold_m (copies s) [] (add_copy xct prebuild_index);
  _ ← add_project_files skip_excluded s pbxp;
  _ ← for_m (postbuilds s) (add_postbuild xct);
  let st := GenState (dict_set (xcode_targets st) qualified_target xct) (dict_set (support_target st) xct support_xct) (test_runner st) (makefiles st ++ written) in
  _ ← for_m (spec_dependencies s) (add_dependency st xct support_xct);
  _ ← for_m (spec_libraries s) (add_library xct);
  _ ← for_m names (add_configuration pbxp xct (config_dicts s));
  mret st.

(** ** Projects *)
Definition abspath (p : text) : text := abs_path (abspath_comps cwd p).
Definition project_path_of (ps : params) (build_file_root : text) : text :=
  let p := build_file_root ++ suffix ps ++ chars ".xcodeproj" in
  if generator_output ps ==? [] then p else p_join (generator_output ps) p.
Definition XcodeProject_init (gyp_path : string) (p : text) (d : build_file_dict) : XM xcode_project :=
  project ← construct new_fuel PBXProject [] None None (Some p);
  let dir := p_dirname p in
  _ ← SetProperty project "projectDirPath" (XStr (RelativePath (p_dirname (abspath (chars gyp_path))) (if dir ==? [] then dot else dir)));
  project_file ← new XCProjectFile [("rootObject", XObj project)];
  mret (XcodeProject gyp_path p project project_file d).

Definition new_project (ps : params) (projects : list (string * xcode_project)) (item : string * build_file_dict) : XM (list (string * xcode_project)) :=
  let '(build_file, d) := item in
  let '(root, ext) := p_splitext (chars build_file) in
  if negb (ext ==? chars ".gyp") then mret projects
  else
    xcp ← XcodeProject_init build_file (project_path_of ps root) d;
    _ ← (if xcode_parallel_builds ps then
           SetProperty (project xcp) "attributes" (XDict [(chars "BuildIndependentTargetsInParallel", str "YES")])
         else mret tt);
    _ ← (match xcode_project_version ps with Some v => if v ==? "" then mret tt else SetXcodeVersion (project_file xcp) v | None => mret tt end);
    _ ← (if standalone ps then mret tt
         else
           g ← main_group (project xcp);
           build_group ← new PBXGroup [("name", str "Build")];
           _ ← AppendChild g build_group;
           for_m (included_files d) (λ f, _ ← AddOrGetFileByPath build_group f false; mret tt));
    mret (dict_set projects build_file xcp).

(** *** [Finalize1] *)

(** The names of the configurations of the targets, each once *)
Definition names_of_configurations (targets : list nat) : XM (list text) :=
  fold_m targets [] (λ names xct,
    l ← configuration_list xct; cs ← configurations l;
    fold_m cs names (λ names c, x ← get c; v ← lift (property "name" x); n ← lift (as_str v); mret (if n in? names then names else names ++ [n]))).

Definition configure_project (xcp : xcode_project) (names : list text) : XM unit :=
  let d := dict_of xcp in
  xccl ← CreateXCConfigurationList names;
  _ ← SetProperty (project xcp) "buildConfigurationList" (XObj xccl);
  _ ← SetBuildSetting xccl (chars "INTERMEDIATE_DIR") (str "$(PROJECT_DERIVED_FILE_DIR)/$(CONFIGURATION)");
  _ ← SetBuildSetting xccl (chars "SHARED_INTERMEDIATE_DIR") (str "$(SYMROOT)/DerivedSources/$(CONFIGURATION)");
  _ ← apply_settings xccl (file_settings d);
  _ ← (match file_config d with
       | Some f => config_ref ← AddOrGetFileInRootGroup (project xcp) f; SetBaseConfiguration xccl (XObj config_ref)
       | None => mret tt
       end);
  if length (file_configurations d) =? 0 then mret tt
  else for_m names (λ name,
    match dict_get (file_configurations d) name with
    | None | Some ([], None) => mret tt
    | Some (settings, config_file) =>
        xcc ← ConfigurationNamed xccl name;
        _ ← for_m settings (λ '(key, value), set_setting key value xcc);
        set_base_configuration (project xcp) xcc config_file
    end).

Definition shell_text (t : text) : text := ConvertVariablesToShellSyntax t.
Definition serialize_prefix : text :=
  chars "python -c " ++ [quote_char] ++ line (chars "import fcntl, subprocess, sys") ++ line (chars "file = open('$TMPDIR/GYP_serialize_test_runs', 'a')")
  ++ line (chars "fcntl.flock(file.fileno(), fcntl.LOCK_EX)") ++ chars "sys.exit(subprocess.call(sys.argv[1:]))" ++ [quote_char] ++ [" "%char].
Definition run_script_of (serialize_all_tests : bool) (r : run_as) : text :=
  (if working_directory r ==? [] then [] else line (chars "cd " ++ quoted_text (shell_text (working_directory r))))
  ++ (if length (environment r) =? 0 then []
      else line (ljoin [newline_char] ((λ '(key, val), chars "export " ++ key ++ "="%char :: quoted_text (shell_text val)) <$> environment r)))
  ++ exec_script ((if serialize_all_tests then serialize_prefix else []) ++ shell_text (EncodePOSIXShellList (command r))).

(** The target that runs a target, with its one phase *)
Definition new_run_target (pbxp : nat) (serialize_all_tests : bool) (names : list text) (target_name : string) (xcode_target : nat) (r : run_as) : XM nat :=
  xccl ← CreateXCConfigurationList names;
  x ← get xcode_target; product ← lift (property "productName" x);
  run_target ← construct new_fuel PBXAggregateTarget
    [("name", XStr (chars "Run " ++ chars target_name)); ("productName", product); ("buildConfigurationList", XObj xccl)] None (Some pbxp) None;
  _ ← AddDependency run_target xcode_target;
  ssbp ← new PBXShellScriptBuildPhase [("shellScript", XStr (run_script_of serialize_all_tests r)); ("showEnvVarsInLog", XInt 0)];
  _ ← AppendProperty run_target "buildPhases" (XObj ssbp);
  mret run_target.

(** The lists that the loop over the targets of the file builds *)
Record sorting := Sorting {
  ordered : list nat; ordinary : nat; support : nat; run_tests : list nat; for_all : list nat; has_custom_all : bool; runners : list (nat * nat)
}.
Definition sort_target (xcp : xcode_project) (st : gen_state) (serialize_all_tests : bool) (names : list text) (s : sorting) (t : file_target) : XM sorting :=
  xcode_target ← lookup_or_key_error (xcode_targets st) (QualifiedTarget (gyp_path xcp) (name_of_target t) (Some (toolset_of_target t)));
  x ← get (project xcp); v ← lift (property "targets" x);
  _ ← (if xcode_target in? objects_of v then mret tt else throw AssertionError);
  supported ← lift (match dict_get (support_target st) xcode_target with Some o => Ok o | None => Err (AttributeError "support_target") end);
  let all := if suppress_wildcard t then for_all s else for_all s ++ [xcode_target] in
  let custom := has_custom_all s || (lower (name_of_target t) ==? "all") in
  match run_as_of t with
  | None =>
      mret (Sorting (ordered s ++ xcode_target :: option_list supported) (S (ordinary s)) (support s + length (option_list supported)) (run_tests s) all custom (runners s))
  | Some r =>
      run_target ← new_run_target (project xcp) serialize_all_tests names (name_of_target t) xcode_target r;
      mret (Sorting (ordered s ++ xcode_target :: option_list supported ++ [run_target]) (S (ordinary s)) (support s + length (option_list supported))
              (run_tests s ++ [run_target]) all custom (dict_set (runners s) xcode_target run_target))
  end.

(** [targets.insert(index, target)] of the project *)
Definition insert_target (pbxp index target : nat) : XM unit :=
  x ← get pbxp; v ← lift (property "targets" x); l ← lift (as_list v);
  modify pbxp (with_property "targets" (XList (take index l ++ XObj target :: drop index l))).
Definition new_umbrella (pbxp : nat) (ps : xprops) (targets : list nat) : XM nat :=
  o ← construct new_fuel PBXAggregateTarget ps None (Some pbxp) None; _ ← for_m targets (λ t, AddDependency o t); mret o.

Definition Finalize1 (serialize_all_tests : bool) (st : gen_state) (xcp : xcode_project) : XM gen_state :=
  let pbxp := project xcp in
  x ← get pbxp; v ← lift (property "targets" x);
  names ← names_of_configurations (objects_of v);
  _ ← configure_project xcp names;
  s ← fold_m (file_targets (dict_of xcp)) (Sorting [] 0 0 [] [] false (test_runner st)) (sort_target xcp st serialize_all_tests names);
  x ← get pbxp; v ← lift (property "targets" x);
  _ ← (if length (objects_of v) =? ordinary s + support s then mret tt else throw AssertionError);
  _ ← modify pbxp (with_property "targets" (XList (XObj <$> ordered s)));
  _ ← RootGroupsTakeOverOnlyChildren true pbxp;
  _ ← SortGroups pbxp;
  _ ← (if (1 <? length (for_all s)) && negb (has_custom_all s) then
         xccl ← CreateXCConfigurationList names;
         all_target ← new_umbrella pbxp [("buildConfigurationList", XObj xccl); ("name", str "All")] (for_all s);
         insert_target pbxp 0 all_target
       else mret tt);
  _ ← (if 1 <? length (run_tests s) then
         xccl ← CreateXCConfigurationList names;
         run_all_tests_target ← new_umbrella pbxp [("buildConfigurationList", XObj xccl); ("name", str "Run All Tests")] (run_tests s);
         insert_target pbxp 1 run_all_tests_target
       else mret tt);
  mret (GenState (xcode_targets st) (support_target st) (runners s) (makefiles st)).

(** *** [Finalize2] *)

(** The runners of the targets that a target depends on *)
Definition runners_below (st : gen_state) (xcode_target : nat) : XM (list nat) :=
  x ← get xcode_target; v ← lift (property "dependencies" x);
  rs ← map_m (λ pbxtd, y ← get pbxtd; pbxcip ← object_at "targetProxy" y; z ← get pbxcip; dependency_xct ← object_at "remoteGlobalIDString" z;
                       mret (option_list (dict_get (test_runner st) dependency_xct))) (objects_of v);
  mret (concat rs).
Definition add_dependents_test_runner (xcp : xcode_project) (st : gen_state) (t : file_target) : XM unit :=
  if dependents_test_runner t then
    xcode_target ← lookup_or_key_error (xcode_targets st) (QualifiedTarget (gyp_path xcp) (name_of_target t) (Some (toolset_of_target t)));
    is_aggregate ← isinstance xcode_target PBXAggregateTarget;
    if is_aggregate : bool then
      all_run_tests ← runners_below st xcode_target;
      if length all_run_tests =? 0 then mret tt
      else
        run_all_target ← new_umbrella (project xcp)
          [("name", XStr (chars "Run " ++ chars (name_of_target t) ++ chars " Tests")); ("productName", str (name_of_target t))] all_run_tests;
        x ← get (project xcp); v ← lift (property "targets" x);
        idx ← lift (match position xcode_target (objects_of v) with Some i => Ok (Z.to_nat i) | None => Err (ValueError "not in list") end);
        insert_target (project xcp) (S idx) run_all_target
    else mret tt
  else mret tt.
Definition Finalize2 (st : gen_state) (xcp : xcode_project) : XM unit :=
  _ ← for_m (file_targets (dict_of xcp)) (add_dependents_test_runner xcp st);
  x ← get (project xcp);
  _ ← for_m (dict_keys (other_pbxprojects x)) (λ other_pbxproject, _ ← AddOrGetProjectReference (project xcp) other_pbxproject; mret tt);
  _ ← SortRemoteProductReferences (project xcp);
  _ ← ComputeProjectIDs true true (project_file xcp);
  EnsureNoIDCollisions (project_file xcp).

(** [Write]: the file and its text *)
Definition write_project (xcp : xcode_project) : XM (text * text) :=
  t ← PrintProjectFile (project_file xcp); mret (p_join (proj_path xcp) (chars "project.pbxproj"), t).

(** ** [GenerateOutput]: the files that are written *)
Definition GenerateOutput (ps : params) (target_list : list string) (target_dicts : list (string * xspec)) (data : list (string * build_file_dict)) : XM (list (text * text)) :=
  projects ← fold_m data [] (new_project ps);
  st ← fold_m target_list (GenState [] [] [] []) (generate_target ps projects target_dicts);
  let build_files := filter (λ f, ends_with (chars ".gyp") (chars f) = true) (dict_keys data) in
  xcps ← map_m (lookup_or_key_error projects) build_files;
  st ← fold_m xcps st (Finalize1 (xcode_serialize_all_test_runs ps));
  _ ← for_m xcps (Finalize2 st);
  texts ← map_m write_project xcps;
  mret (makefiles st ++ texts).
End generator.
