(* ===== verification/XcRules.v ===== *)
(** * The makefiles of rules in Xcode projects

    tools/gyp/pylib/gyp/generator/xcode.py writes a makefile for each rule that has outputs, which a script phase of the target runs.  Here is what make
    reads in it, and what the expansion of variables in it comes to. *)
From S2P Require Import Prelude PyDict PyStr PyPath Common Shell TargetSpec MakeQuote XcObject XcPrint XcIds XcGroup XcProject XcGen.
From Stdlib Require Import Ascii.

(** ** What make reads

    A backslash at the end of a line continues it. *)
Fixpoint logical_lines (lines : list text) : list text :=
  match lines with
  | [] => []
  | l :: lines =>
      match logical_lines lines with
      | n :: ns => if (last l) ==? (Some backslash) then (removelast l ++ " "%char :: n) :: ns else l :: n :: ns
      | [] => [l]
      end
  end.
Definition read_makefile (t : text) : list make_rule := read_rules (logical_lines (lsplit nl t)).

(** The rules that a makefile should have *)
Definition rule_of (inputs : list text) (s : rule_step) : make_rule :=
  {| targets := concrete_outputs s; prerequisites := step_source s :: inputs; order_only_prerequisites := []; recipe := recipe_lines s |}.
Definition rules_of_steps (inputs : list text) (steps : list rule_step) : list make_rule :=
  {| targets := [chars "all"]; prerequisites := first_output <$> steps; order_only_prerequisites := []; recipe := [] |} :: (rule_of inputs <$> steps).

(** ** Names *)
Definition plain_file (name : text) : Prop := name_ok name ∧ " "%char ∉ name.
Definition line_ok (t : text) : Prop := (nl ∉ t) ∧ last t ≠ Some backslash.
Definition step_ok (s : rule_step) : Prop :=
  Forall plain_file (concrete_outputs s) ∧ concrete_outputs s ≠ [] ∧ plain_file (step_source s) ∧ (∀ m, step_message s = Some m → line_ok m) ∧ line_ok (step_action s).

Lemma lsplit_lines (lines : list text) : Forall (λ l, nl ∉ l) lines → lsplit nl (concat (line <$> lines)) = lines ++ [[]].
Proof.
  induction 1 as [|l lines Hl _ IH]; [done|]. rewrite fmap_cons. cbn [concat]. unfold line at 1. rewrite <- app_assoc. cbn [app].
  rewrite (lsplit_app nl) by done. by rewrite IH.
Qed.

(** ** Words on a line *)
Definition words_are (s : text) (l : list text) : Prop :=
  (∀ rest, make_words [] (s ++ rest) = l ++ make_words [] rest) ∧ Forall (λ c, c ∉ special_in_rules) s.

Lemma special_not_blank c : c ∈ special_in_rules → c ≠ " "%char.
Proof. intros Hc ->. by apply (bool_decide_pack _) in Hc. Qed.
Lemma words_nil : words_are [] [].
Proof. split; [done|constructor]. Qed.
Lemma words_app s1 l1 s2 l2 : words_are s1 l1 → words_are s2 l2 → words_are (s1 ++ s2) (l1 ++ l2).
Proof. intros [H1 Hc1] [H2 Hc2]. split; [|by apply Forall_app]. intros rest. by rewrite <- app_assoc, H1, H2, <- app_assoc. Qed.
Lemma words_blank : words_are [" "%char] [].
Proof. split; [done|]. repeat constructor. intros Hc. by apply special_not_blank in Hc. Qed.
Lemma words_indent : words_are (chars "    ") [].
Proof. split; [done|]. by apply (bool_decide_unpack _). Qed.
Lemma make_words_plain name word rest :
  Forall (λ c, c ∉ special_in_rules) name → " "%char ∉ name → make_words word (name ++ rest) = make_words (word ++ name) rest.
Proof.
  intros Hname. revert word. induction Hname as [|c name Hc Hname IH]; intros word Hb; [by rewrite app_nil_r|].
  apply not_elem_of_cons in Hb as [Hb Hb']. cbn [app make_words]. rewrite (bool_decide_eq_false_2 (c = backslash)) by (intros ->; apply Hc; by left).
  assert (is_blank c = false) as ->.
  { apply bool_decide_eq_false. intros [?|Ht]%elem_of_cons; [done|]. apply list_elem_of_singleton in Ht as ->. apply Hc. by apply (bool_decide_unpack _). }
  by rewrite IH, <- app_assoc.
Qed.
Lemma words_name name : plain_file name → words_are (name ++ [" "%char]) [name].
Proof.
  intros [[Hne Hc] Hb]. split; [|apply Forall_app; split; [done|apply words_blank]]. intros rest. rewrite <- app_assoc, make_words_plain by done.
  cbn [app make_words]. rewrite (bool_decide_eq_false_2 (" "%char = backslash)) by done. change (is_blank " "%char) with true. cbn iota.
  by rewrite (bool_decide_eq_false_2 (name = [])).
Qed.
Lemma words_last name : plain_file name → make_words [] (chars "    " ++ name) = [name].
Proof.
  intros [[Hne Hc] Hb]. destruct words_indent as [-> _]. rewrite <- (app_nil_r name) at 1. rewrite make_words_plain by done. cbn [app make_words].
  by rewrite (bool_decide_eq_false_2 (name = [])).
Qed.
Lemma words_without s l c : words_are s l → c ∈ special_in_rules → c ∉ s.
Proof. intros [_ Hs] Hc Hin. by apply (proj1 (Forall_forall _ _) Hs c). Qed.

(** ** Continued lines *)
Definition joined (parts : list text) (e : text) : text := concat ((λ a, a ++ [" "%char]) <$> parts) ++ e.
Lemma logical_plain e lines : last e ≠ Some backslash → logical_lines (e :: lines) = e :: logical_lines lines.
Proof.
  intros He. cbn [logical_lines]. destruct (logical_lines lines) as [|n ns] eqn:Hl; [done|]. by rewrite bool_decide_eq_false_2.
Qed.
Lemma logical_joined parts e lines : last e ≠ Some backslash →
  logical_lines (((λ a, a ++ [backslash]) <$> parts) ++ e :: lines) = joined parts e :: logical_lines lines.
Proof.
  intros He. induction parts as [|a parts IH]; [by apply logical_plain|]. cbn [fmap list_fmap app logical_lines]. cbn [fmap list_fmap app] in IH. rewrite IH.
  rewrite last_snoc, bool_decide_eq_true_2 by done. rewrite removelast_last. unfold joined. cbn [fmap list_fmap concat]. by rewrite <- !app_assoc.
Qed.
Lemma joined_app parts a parts' e : joined (parts ++ a :: parts') e = joined parts [] ++ a ++ " "%char :: joined parts' e.
Proof. unfold joined. rewrite fmap_app, concat_app. cbn [fmap list_fmap concat]. by rewrite app_nil_r, <- !app_assoc. Qed.
Lemma words_joined (f : text → text) parts : (∀ t, t ∈ parts → words_are (f t) [t]) → words_are (joined (f <$> parts) []) parts.
Proof.
  unfold joined. rewrite app_nil_r. induction parts as [|t parts IH]; intros Hf; [apply words_nil|]. cbn [fmap list_fmap concat].
  apply (words_app _ [t]); [|apply IH; intros; apply Hf; by right]. apply (words_app _ [t] _ []); [apply Hf; by left|apply words_blank].
Qed.

Lemma continued_snoc l z : continued (l ++ [z]) = ((λ a, a ++ [backslash]) <$> ((λ t, chars "    " ++ t ++ [" "%char]) <$> l)) ++ [chars "    " ++ z].
Proof.
  unfold continued. rewrite imap_app. f_equal.
  - rewrite <- list_fmap_compose. rewrite <- imap_const at 1. apply imap_ext. intros i t Hi%lookup_lt_Some. rewrite (proj2 (Nat.eqb_neq _ _)); [unfold compose, const; by rewrite <- !app_assoc|].
    rewrite length_app. cbn. lia.
  - cbn [imap]. rewrite (proj2 (Nat.eqb_eq _ _)); [by rewrite app_nil_r|]. rewrite length_app. cbn. lia.
Qed.

(** ** The rules *)
Lemma read_names_line names_part names rest_part prereqs rules :
  make_words [] names_part = names → Forall (λ c, c ∉ special_in_rules) names_part → (∃ c s, names_part = c :: s) → (∀ c, c ∈ [":"; "="; ";"; "|"]%char → c ∉ rest_part) →
  make_words [] rest_part = prereqs →
  read_line (names_part ++ ":"%char :: rest_part) rules
  = {| targets := names; prerequisites := prereqs; order_only_prerequisites := []; recipe := [] |} :: rules.
Proof.
  intros Hw Hchars (c&s&Heq) Hrest Hp. rewrite Forall_forall in Hchars.
  assert (∀ c, c ∈ [":"; "#"; tab]%char → c ∉ names_part) as Hout.
  { intros d Hd Hin. apply (Hchars d Hin). clear Hin. revert d Hd. apply Forall_forall. by apply (bool_decide_unpack _). }
  pose proof (Hout ":"%char ltac:(by apply (bool_decide_unpack _))) as Hcolon. pose proof (Hout "#"%char ltac:(by apply (bool_decide_unpack _))) as Hhash.
  pose proof (Hout tab ltac:(by apply (bool_decide_unpack _))) as Htab. clear Hout Hchars. rewrite Heq in *.
  apply not_elem_of_cons in Hhash as [Hhash _], Htab as [Htab _]. cbn [app]. unfold read_line at 1.
  rewrite !bool_decide_eq_false_2 by done. rewrite app_comm_cons, span_until by done. cbn [tail].
  rewrite (bool_decide_eq_false_2 ("="%char ∈ _)) by (intros [?|Hin]%elem_of_cons; [done|]; revert Hin; apply Hrest; by apply (bool_decide_unpack _)).
  unfold read_head. rewrite !span_none by (apply Hrest; by apply (bool_decide_unpack _)). cbn [tail]. by rewrite Hw, Hp.
Qed.


(** A list on continued lines, the last one open *)
Definition spread (l : list text) (z : text) : text := joined ((λ t, chars "    " ++ t ++ [" "%char]) <$> l) (chars "    " ++ z).
Lemma last_plain pre z : plain_file z → last (pre ++ z) ≠ Some backslash.
Proof.
  intros [[Hne Hc] _]. destruct z as [|c z _] using rev_ind; [done|]. rewrite app_assoc, last_snoc. intros [= ->]. apply Forall_app in Hc as [_ Hc].
  apply Forall_cons in Hc as [Hc _]. apply Hc. by left.
Qed.
Lemma spread_words l z : Forall plain_file (l ++ [z]) → make_words [] (spread l z) = l ++ [z].
Proof.
  intros [Hl Hz]%Forall_app. apply Forall_cons in Hz as [Hz _]. unfold spread, joined.
  assert (words_are (concat ((λ a, a ++ [" "%char]) <$> ((λ t, chars "    " ++ t ++ [" "%char]) <$> l))) l) as [-> _]; [|by rewrite words_last].
  rewrite <- (app_nil_r (concat _)). apply words_joined. intros t Ht. rewrite Forall_forall in Hl. apply (words_app _ []); [apply words_indent|by apply words_name, Hl].
Qed.
Lemma spread_without l z c : Forall plain_file (l ++ [z]) → c ∈ special_in_rules → c ∉ spread l z.
Proof.
  intros [Hl Hz]%Forall_app Hc Hin. apply Forall_cons in Hz as [Hz _]. unfold spread, joined in Hin. apply elem_of_app in Hin as [Hin|[Hin|Hin]%elem_of_app].
  - rewrite <- (app_nil_r (concat _)) in Hin. revert Hin. eapply words_without; [apply words_joined|done]. intros t Ht. rewrite Forall_forall in Hl.
    apply (words_app _ []); [apply words_indent|by apply words_name, Hl].
  - revert Hin. eapply words_without; [apply words_indent|done].
  - destruct Hz as [[_ Hz] _]. by apply (proj1 (Forall_forall _ _) Hz c).
Qed.
Lemma continued_lines parts l z lines : plain_file z →
  logical_lines (((λ a, a ++ [backslash]) <$> parts) ++ continued (l ++ [z]) ++ lines)
  = (joined parts [] ++ spread l z) :: logical_lines lines.
Proof.
  intros Hz. rewrite continued_snoc, <- app_assoc, app_assoc, <- fmap_app. cbn [app]. rewrite logical_joined by by apply last_plain.
  f_equal. unfold spread, joined. rewrite fmap_app, concat_app, app_nil_r. by rewrite <- !app_assoc.
Qed.

Definition output_parts (outs : list text) : list text :=
  match outs with [] => [] | o :: outs => (o ++ [" "%char]) :: ((λ t, chars "    " ++ t ++ [" "%char]) <$> outs) end.
Lemma output_lines_parts outs : output_lines outs = (λ a, a ++ [backslash]) <$> output_parts outs.
Proof.
  destruct outs as [|o outs]; [done|]. unfold output_lines, output_parts. cbn [imap]. rewrite fmap_cons. f_equal; [cbn; by rewrite <- app_assoc|].
  rewrite <- list_fmap_compose, <- imap_const. apply imap_ext. intros i t _. unfold const, compose. cbn [Nat.eqb]. by rewrite <- !app_assoc.
Qed.
Lemma output_parts_words outs : Forall plain_file outs → words_are (joined (output_parts outs) []) outs.
Proof.
  intros Houts. destruct Houts as [|o outs Ho Houts]; [apply words_nil|]. unfold output_parts.
  assert (∀ a parts, joined (a :: parts) [] = a ++ [" "%char] ++ joined parts []) as -> by (intros; unfold joined; cbn; by rewrite <- !app_assoc).
  apply (words_app _ [o] _ outs); [by apply words_name|]. apply (words_app [" "%char] []); [apply words_blank|].
  apply words_joined. intros t Ht. rewrite Forall_forall in Houts. apply (words_app _ []); [apply words_indent|by apply words_name, Houts].
Qed.

(** The line of a rule, put together *)
Definition rule_head (s : rule_step) (l : list text) (z : text) : text :=
  (joined (output_parts (concrete_outputs s)) [] ++ chars "    ") ++ ":"%char :: (chars "  " ++ spread l z).
Lemma rule_head_line s l z lines : plain_file z →
  logical_lines (output_lines (concrete_outputs s) ++ [chars "    : \"] ++ continued (l ++ [z]) ++ lines) = rule_head s l z :: logical_lines lines.
Proof.
  intros Hz. rewrite output_lines_parts. change [chars "    : \"] with ((λ a, a ++ [backslash]) <$> [chars "    : "]).
  rewrite app_assoc, <- fmap_app, continued_lines by done. f_equal. rewrite joined_app. unfold rule_head. unfold joined at 2. cbn [fmap list_fmap concat].
  rewrite <- !app_assoc. done.
Qed.
Lemma blank_words s : make_words [] (chars "  " ++ s) = make_words [] s.
Proof. done. Qed.
Lemma read_rule_head s inputs rules : step_ok s → Forall plain_file inputs → ∀ l z, step_source s :: inputs = l ++ [z] →
  read_line (rule_head s l z) rules
  = {| targets := concrete_outputs s; prerequisites := step_source s :: inputs; order_only_prerequisites := []; recipe := [] |} :: rules.
Proof.
  intros (Houts&Hne&Hsrc&_) Hins l z Heq. assert (Forall plain_file (l ++ [z])) as Hall by (rewrite <- Heq; by constructor).
  unfold rule_head. rewrite Heq. apply read_names_line.
  - destruct (words_app _ _ _ _ (output_parts_words _ Houts) words_indent) as [Hw _]. specialize (Hw []). by rewrite !app_nil_r in Hw.
  - apply (words_app _ _ _ _ (output_parts_words _ Houts) words_indent).
  - destruct (concrete_outputs s) as [|o outs]; [done|]. apply Forall_cons in Houts as [[[Ho _] _] _]. destruct o; [done|]. by eexists _, _.
  - intros c Hc [Hin|[Hin|Hin]%elem_of_cons]%elem_of_cons; [subst; by apply (bool_decide_pack _) in Hc..|]. revert Hin. apply spread_without; [done|].
    revert c Hc. apply Forall_forall. by apply (bool_decide_unpack _).
  - rewrite blank_words. by apply spread_words.
Qed.

(** *** The commands *)
Lemma drop_while_sub {A} (P : A → bool) l x : x ∈ drop_while P l → x ∈ l.
Proof. induction l as [|y l IH]; [done|]. cbn [drop_while]. destruct (P y); [|done]. intros Hx%IH. by right. Qed.
Lemma dirname_sub p c : c ∈ p_dirname p → c ∈ p.
Proof.
  unfold p_dirname, p_split. destruct (lrsplit1 slash p) as [[a b]|] eqn:Hs; [|by intros ?%elem_of_nil]. apply lrsplit1_Some in Hs as [-> _].
  assert (c ∈ a ++ [slash] → c ∈ a ++ slash :: b) as Hsub by (intros [?| ->%list_elem_of_singleton]%elem_of_app; apply elem_of_app; [by left|right; by left]).
  cbn [fst]. destruct (forallb _ _); [exact Hsub|]. unfold rstrip. rewrite elem_of_reverse. intros Hin%drop_while_sub. rewrite elem_of_reverse in Hin. by apply Hsub.
Qed.
Lemma output_dirs_from outs d : d ∈ output_dirs outs → ∃ o, o ∈ outs ∧ d = p_dirname o.
Proof.
  unfold output_dirs. assert (∀ dirs, d ∈ foldl (λ dirs o, let d := p_dirname o in if negb (d ==? []) && negb (d in? dirs) then dirs ++ [d] else dirs) dirs outs →
    d ∈ dirs ∨ ∃ o, o ∈ outs ∧ d = p_dirname o) as H.
  { induction outs as [|o outs IH]; intros dirs; cbn [foldl]; [by left|]. cbn zeta. intros Hd%IH. destruct Hd as [Hd|(o'&Ho&Hd)]; [|right; exists o'; split; [by right|done]].
    destruct (_ && _); [|by left]. apply elem_of_app in Hd as [Hd|Hd%list_elem_of_singleton]; [by left|]. right. exists o. split; [by left|done]. }
  intros [?%elem_of_nil|Ho]%H; done.
Qed.
Lemma ljoin_sub sep (l : list text) c : c ∈ ljoin sep l → c ∈ sep ∨ ∃ w, w ∈ l ∧ c ∈ w.
Proof.
  induction l as [|w l IH]; [by intros ?%elem_of_nil|]. destruct (decide (l = [])) as [->|Hne]; [intros Hc; right; exists w; split; [by left|done]|].
  rewrite ljoin_cons by done. intros [Hc|[Hc|Hc]%elem_of_app]%elem_of_app; [right; exists w; split; [by left|done]|by left|].
  destruct (IH Hc) as [?|(w'&?&?)]; [by left|]. right. exists w'. split; [by right|done].
Qed.

Lemma quoted_line_ok a t : nl ∉ a → nl ∉ t → line_ok (a ++ quoted_text t).
Proof.
  intros Ha Ht. split.
  - intros [?|[?|[?|Hq%list_elem_of_singleton]%elem_of_app]%elem_of_cons]%elem_of_app; done.
  - unfold quoted_text. rewrite app_comm_cons, app_assoc, last_snoc. done.
Qed.
Lemma recipe_ok s : step_ok s → Forall line_ok (recipe_lines s).
Proof.
  intros (Houts&_&_&Hm&Ha). unfold recipe_lines. apply Forall_app. split; [|apply Forall_app; split].
  - case_bool_decide; constructor; [|constructor]. apply quoted_line_ok; [intros Hin; by apply (bool_decide_pack _) in Hin|].
    intros [Hin|(d&(o&Ho&->)%output_dirs_from&Hin%dirname_sub)]%ljoin_sub; [by apply (bool_decide_pack _) in Hin|].
    rewrite Forall_forall in Houts. destruct (Houts o Ho) as [[_ Hc] _]. apply (proj1 (Forall_forall _ _) Hc nl Hin). by apply (bool_decide_unpack _).
  - destruct (step_message s) as [m|]; [|constructor]. destruct (Hm m eq_refl) as [Hnl Hl]. case_bool_decide; constructor; [|constructor]. split.
    + intros [Hin|?]%elem_of_app; [by apply (bool_decide_pack _) in Hin|done].
    + rewrite last_app. destruct (last m) eqn:He; [done|]. by apply last_None in He.
  - by constructor.
Qed.

Lemma logical_recipe l lines : Forall line_ok l → logical_lines ((cons tab <$> l) ++ lines) = (cons tab <$> l) ++ logical_lines lines.
Proof.
  induction 1 as [|t l [_ Ht] _ IH]; [done|]. rewrite fmap_cons. cbn [app]. rewrite logical_plain; [by rewrite IH|]. destruct t; [done|]. by rewrite last_cons_cons.
Qed.

(** *** The file *)
Lemma rule_lines_read inputs s lines : step_ok s → Forall plain_file inputs → ∃ head,
  logical_lines (rule_lines inputs s ++ lines) = [] :: head :: (cons tab <$> recipe_lines s) ++ logical_lines lines
  ∧ ∀ rules, read_line head rules
    = {| targets := concrete_outputs s; prerequisites := step_source s :: inputs; order_only_prerequisites := []; recipe := [] |} :: rules.
Proof.
  intros Hs Hins. destruct (exists_last (l := step_source s :: inputs) ltac:(done)) as (l&z&Heq). exists (rule_head s l z).
  assert (plain_file z) as Hz.
  { assert (Forall plain_file (l ++ [z])) as [_ Hz]%Forall_app by (rewrite <- Heq; constructor; [apply Hs|done]). by apply Forall_cons in Hz as [? _]. }
  split; [|intros rules; by apply read_rule_head]. unfold rule_lines. rewrite <- app_comm_cons, logical_plain by done. f_equal. rewrite <- !app_assoc, Heq.
  rewrite rule_head_line by done. f_equal. apply logical_recipe. by apply recipe_ok.
Qed.

Lemma read_rule_lines inputs steps : Forall step_ok steps → Forall plain_file inputs → ∀ rules,
  foldl (λ rules line, read_line line rules) rules (logical_lines ((steps ≫= rule_lines inputs) ++ [[]])) = reverse (rule_of inputs <$> steps) ++ rules.
Proof.
  intros Hsteps Hins. induction Hsteps as [|s steps Hs _ IH]; intros rules; [done|]. rewrite bind_cons, <- app_assoc.
  destruct (rule_lines_read inputs s ((steps ≫= rule_lines inputs) ++ [[]]) Hs Hins) as (head&->&Hhead).
  cbn [foldl]. rewrite Hhead. cbn [read_line]. rewrite foldl_app, read_actions, IH. rewrite fmap_cons, reverse_cons, <- app_assoc. done.
Qed.

Lemma plain_no_nl t : plain_file t → nl ∉ t.
Proof. intros [[_ Hc] _] Hin. apply (proj1 (Forall_forall _ _) Hc nl Hin). by apply (bool_decide_unpack _). Qed.
Lemma no_nl_app a b : nl ∉ a → nl ∉ b → nl ∉ a ++ b.
Proof. intros Ha Hb [?|?]%elem_of_app; done. Qed.
Lemma no_nl_chars s : bool_decide (nl ∉ chars s) = true → nl ∉ chars s.
Proof. by intros H%bool_decide_eq_true. Qed.
Lemma continued_no_nl l : Forall plain_file l → Forall (λ t, nl ∉ t) (continued l).
Proof.
  intros Hl. apply Forall_lookup. intros i t Ht. unfold continued in Ht. rewrite list_lookup_imap in Ht. apply fmap_Some in Ht as (x&Hx&->).
  apply no_nl_app; [by apply no_nl_chars|]. apply no_nl_app; [by apply plain_no_nl, (proj1 (Forall_lookup _ _) Hl i)|].
  destruct (_ =? _); [apply not_elem_of_nil|by apply no_nl_chars].
Qed.
Lemma output_lines_no_nl l : Forall plain_file l → Forall (λ t, nl ∉ t) (output_lines l).
Proof.
  intros Hl. apply Forall_lookup. intros i t Ht. unfold output_lines in Ht. rewrite list_lookup_imap in Ht. apply fmap_Some in Ht as (x&Hx&->).
  apply no_nl_app; [destruct (i =? 0); [apply not_elem_of_nil|by apply no_nl_chars]|]. apply no_nl_app; [by apply plain_no_nl, (proj1 (Forall_lookup _ _) Hl i)|].
  by apply no_nl_chars.
Qed.
Lemma first_output_plain s : step_ok s → plain_file (first_output s).
Proof. intros (Ho&Hne&_). unfold first_output. destruct (concrete_outputs s); [done|]. by apply Forall_cons in Ho as [? _]. Qed.
Lemma rule_lines_no_nl inputs s : step_ok s → Forall plain_file inputs → Forall (λ t, nl ∉ t) (rule_lines inputs s).
Proof.
  intros Hs Hins. unfold rule_lines. constructor; [apply not_elem_of_nil|]. apply Forall_app. split; [apply output_lines_no_nl, Hs|]. constructor; [by apply no_nl_chars|].
  apply Forall_app. split; [apply continued_no_nl; constructor; [apply Hs|done]|]. apply Forall_fmap. eapply Forall_impl; [by apply recipe_ok|].
  intros t [Ht _]. unfold compose. by intros [?|?]%elem_of_cons.
Qed.

(** C40: make reads the makefile of a rule, for sources with plain names, as exactly the rules it stands for: everything is asked for by the first rule, which
    needs the first output of every source; and for every source one rule, whose targets are its outputs and which needs the
    source and the further inputs of the rule, with the commands that make the directories, print the message and do the work. *)
Theorem rule_makefile_rules inputs steps :
  steps ≠ [] → Forall step_ok steps → Forall plain_file inputs → read_makefile (rule_makefile inputs steps) = rules_of_steps inputs steps.
Proof.
  intros Hne Hsteps Hins. unfold read_makefile, rule_makefile.
  assert (Forall plain_file (first_output <$> steps)) as Hfirst by (apply Forall_fmap; eapply Forall_impl; [done|]; apply first_output_plain).
  rewrite lsplit_lines.
  2: { unfold makefile_lines. constructor; [by apply no_nl_chars|]. apply Forall_app. split; [by apply continued_no_nl|].
       apply Forall_forall. intros t (s&Ht&Hs)%list_elem_of_bind. rewrite Forall_forall in Hsteps.
       assert (Forall (λ t, nl ∉ t) (rule_lines inputs s)) as Hl by (apply rule_lines_no_nl; auto). rewrite Forall_forall in Hl. by apply Hl. }
  destruct (exists_last (l := first_output <$> steps) ltac:(by destruct steps)) as (l&z&Heq). unfold makefile_lines. rewrite Heq in *.
  assert (plain_file z) as Hz by (apply Forall_app in Hfirst as [_ Hz]; by apply Forall_cons in Hz as [? _]).
  change (chars "all: \") with (chars "all: " ++ [backslash]). cbn [app]. rewrite <- app_assoc.
  pose proof (continued_lines [chars "all: "] l z ((steps ≫= rule_lines inputs) ++ [[]]) Hz) as Hlines. cbn [fmap list_fmap app] in Hlines.
  cbn [app] in Hlines |- *. rewrite Hlines. unfold read_rules. cbn [foldl].
  change (joined [chars "all: "] [] ++ spread l z) with (chars "all" ++ ":"%char :: (chars "  " ++ spread l z)).
  rewrite (read_names_line (chars "all") [chars "all"] _ (first_output <$> steps)).
  - rewrite read_rule_lines by done. unfold rules_of_steps. rewrite reverse_app, reverse_involutive. done.
  - done.
  - by apply (bool_decide_unpack _).
  - by eexists _, _.
  - intros c Hc [Hin|[Hin|Hin]%elem_of_cons]%elem_of_cons; [subst; by apply (bool_decide_pack _) in Hc..|]. revert Hin. apply spread_without; [done|].
    revert c Hc. apply Forall_forall. by apply (bool_decide_unpack _).
  - rewrite blank_words, Heq. by apply spread_words.
Qed.
Definition sample_step (name message : string) : rule_step :=
  {| step_source := chars name ++ chars ".y"; concrete_outputs := [chars "$(INTERMEDIATE_DIR)/" ++ chars name ++ chars ".cc"; chars "$(INTERMEDIATE_DIR)/" ++ chars name ++ chars ".h"];
     step_message := Some (chars message); step_action := chars "python bison.py " ++ chars name |}.
Lemma plain_filesb l : bool_decide (Forall (λ t, t ≠ [] ∧ Forall (λ c, c ∉ special_in_rules) t ∧ " "%char ∉ t) l) = true → Forall plain_file l.
Proof. intros H%bool_decide_eq_true. eapply Forall_impl; [exact H|]. intros t (?&?&?). by split. Qed.
Lemma step_okb s m : Forall plain_file (step_source s :: concrete_outputs s) → concrete_outputs s ≠ [] → step_message s = Some m →
  bool_decide (Forall (λ t, (nl ∉ t) ∧ last t ≠ Some backslash) [m; step_action s]) = true → step_ok s.
Proof.
  intros [Hs Ho]%Forall_cons Hne Hm [Hml [Ha _]%Forall_cons]%bool_decide_eq_true%Forall_cons. split_and!; try done. intros m'. rewrite Hm. by intros [= <-].
Qed.
Lemma rule_makefile_rules_witness :
  let inputs := [chars "bison.py"] in let steps := [sample_step "css" "making $(css)"; sample_step "xml/path" "making path"] in
  read_makefile (rule_makefile inputs steps) = rules_of_steps inputs steps ∧ targets <$> rules_of_steps inputs steps
    = [[chars "all"]; [chars "$(INTERMEDIATE_DIR)/css.cc"; chars "$(INTERMEDIATE_DIR)/css.h"];
       [chars "$(INTERMEDIATE_DIR)/xml/path.cc"; chars "$(INTERMEDIATE_DIR)/xml/path.h"]].
Proof.
  cbn zeta. split; [|by vm_compute]. apply rule_makefile_rules; [done| |].
  - repeat apply Forall_cons_2; [..|apply Forall_nil_2]; (eapply step_okb; [by apply plain_filesb; vm_compute|done|done|by vm_compute]).
  - by apply plain_filesb; vm_compute.
Defined.

(** A source with a blank in its name is not quoted: make takes it for two files. *)
Example blank_in_a_source :
  prerequisites <$> read_makefile (rule_makefile [] [sample_step "two words" "making"]) = [[chars "$(INTERMEDIATE_DIR)/two"; chars "words.cc"] ; [chars "two"; chars "words.y"]].
Proof. vm_compute. reflexivity. Qed.
