(* ===== verification/XcGenTypes.v ===== *)
(** * The types of the projects that the generator of Xcode writes

    The generator stores phases and targets in its objects past their checks; whatever it is given, the objects keep to the schemas of their
    classes all the same, as in [XcTypes], unless it is given configuration files, which it stores as they come. *)
From S2P Require Import Prelude PyDict PyStr PyPath Common Shell TargetSpec XcObject XcPrint XcIds XcGroup XcProject XcTypes XcGen.
From Stdlib Require Import Ascii.

#[local] Hint Resolve safe_ret safe_throw safe_lift safe_get safe_new safe_AppendProperty safe_SetProperty safe_AppendChild safe_SetBuildSetting safe_construct
  safe_isinstance safe_AddOrGetFileByPath safe_AddOrGetFileInRootGroup safe_main_group safe_object_at safe_HeadersPhase safe_ResourcesPhase safe_last_phase
  safe_AddFile safe_AddDependency safe_configurations safe_configuration_list safe_target_HasBuildSetting safe_target_GetBuildSetting
  safe_new_native_target safe_SetXcodeVersion safe_RootGroupsTakeOverOnlyChildren safe_SortGroups safe_SortRemoteProductReferences safe_ComputeProjectIDs : safe.

(** ** Stores past the checks *)
Lemma keeps_list_insert o key t index v :
  (∀ c a, attributes_of c key = Some a → is_list a = true ∧ property_type a = TClass t) →
  keeps (x ← get o; w ← lift (property key x); l ← lift (as_list w); modify o (with_property key (XList (take index l ++ v :: drop index l))))
    (λ h, typed h (TClass t) v) (λ _ _, True).
Proof.
  intros Hattr h [] h' Hwt Hv (x&h1&Hget&Hrun)%XM_bind_Ok. unfold get in Hget. destruct (objects h !! o) as [x'|] eqn:Hx; [|done]. injection Hget as -> <-.
  apply XM_bind_Ok in Hrun as (w&h1&Hw&Hrun). unfold lift, property in Hw. destruct (dict_get (properties x) key) as [w'|] eqn:Hkey; [|done]. injection Hw as -> <-.
  apply XM_bind_Ok in Hrun as (l&h1&Hl&Hmod). destruct (wt_objects _ Hwt _ _ Hx _ _ (dict_get_In _ _ _ Hkey)) as (a&Ha&Hok).
  destruct (Hattr _ _ Ha) as [Hlist Ht]. unfold value_ok in Hok. rewrite Hlist, Ht in Hok. destruct Hok as (l'&->&Hl'). injection Hl as <- <-.
  eapply (keeps_with_property o key _ a (class_of x) (λ h, is_a o (class_of x) h ∧ Forall (typed h (TClass t)) (take index l' ++ v :: drop index l')));
    [|exact Ha|exact Hwt| |exact Hmod].
  - intros h1 [Ho Hall]. split; [done|]. unfold value_ok. rewrite Hlist, Ht. by eexists.
  - split; [by exists x|]. apply Forall_app. split; [by apply Forall_take|]. constructor; [done|by apply Forall_drop].
Qed.
Lemma targets_attributes c a : attributes_of c "targets" = Some a → is_list a = true ∧ property_type a = TClass XCTarget.
Proof. destruct c; intros [= <-]; auto. Qed.

Lemma is_a_typed o c t h : subclass c t = true → is_a o c h → typed h (TClass t) (XObj o).
Proof. intros Hsub (x&Hx&Hc). exists x. by rewrite Hc. Qed.
Lemma keeps_insert_build_phase o index phase c : subclass c XCBuildPhase = true → keeps (insert_build_phase o index phase) (is_a phase c) (λ _ _, True).
Proof.
  intros Hc. eapply keeps_pre; [apply (keeps_list_insert o "buildPhases" XCBuildPhase), build_phases_attributes|]. intros h. by apply is_a_typed.
Qed.
Lemma keeps_insert_target o index target c : subclass c XCTarget = true → keeps (insert_target o index target) (is_a target c) (λ _ _, True).
Proof. intros Hc. eapply keeps_pre; [apply (keeps_list_insert o "targets" XCTarget), targets_attributes|]. intros h. by apply is_a_typed. Qed.

(** What is done with a new object of a known class *)
Lemma safe_with {A B} (m : XM A) (P : A → heap → Prop) (f : A → XM B) :
  keeps m (λ _, True) P → (∀ a, keeps (f a) (P a) (λ _ _, True)) → safe (m ≫= f).
Proof. intros Hm Hf. eapply keeps_bind; [done|exact Hm|]. intros a. eapply keeps_pre; [apply Hf|]. by intros h []. Qed.
Lemma keeps_construct c ps p project_path : keeps (construct new_fuel c ps None p project_path) (λ _, True) (λ o, is_a o c).
Proof. by apply (proj1 (keeps_construct_Copy new_fuel) c ps None). Qed.
Lemma keeps_then {A B} (m : XM A) (f : A → XM B) (P : heap → Prop) : keeps m P (λ _ _, True) → (∀ a, safe (f a)) → keeps (m ≫= f) P (λ _ _, True).
Proof.
  intros Hm Hf h b h' Hwt Hh (a&h1&Ha&Hb)%XM_bind_Ok. destruct (Hm _ _ _ Hwt Hh Ha) as (Hwt1&He1&_). destruct (Hf a _ _ _ Hwt1 I Hb) as (?&?&_).
  split_and!; [done|by etrans|done].
Qed.
Lemma keeps_skip {A B} (m : XM A) (f : A → XM B) (P : heap → Prop) (Q : B → heap → Prop) : stable P → safe m → (∀ a, keeps (f a) P Q) → keeps (m ≫= f) P Q.
Proof.
  intros HP Hm Hf. eapply keeps_bind; [done|eapply keeps_pre with (P := λ _, True); [exact Hm|done]|]. intros a. eapply keeps_pre; [apply Hf|]. by intros h [].
Qed.
Lemma keeps_fold_m {A S} (I : S → heap → Prop) (l : list A) (s : S) (body : S → A → XM S) :
  (∀ s a, a ∈ l → keeps (body s a) (I s) I) → keeps (fold_m l s body) (I s) I.
Proof.
  revert s. induction l as [|a l IH]; intros s Hbody; cbn [fold_m]; [by apply keeps_ret|].
  intros h s' h' Hwt Hh (s1&h1&Ha&Hrun)%XM_bind_Ok. destruct (Hbody s a ltac:(by left) _ _ _ Hwt Hh Ha) as (Hwt1&He1&Hs1).
  destruct (IH s1 (λ s a H, Hbody s a ltac:(by right)) _ _ _ Hwt1 Hs1 Hrun) as (?&?&?). split_and!; [done|by etrans|done].
Qed.
Lemma safe_fold_m {A S} (l : list A) (s : S) (body : S → A → XM S) : (∀ s a, safe (body s a)) → safe (fold_m l s body).
Proof. intros Hbody. eapply keeps_weaken; [apply (keeps_fold_m (λ _ _, True))|done|done]. intros. apply Hbody. Qed.

Lemma safe_bind_lift {A B} (r : result A) (f : A → XM B) : (∀ a, r = Ok a → safe (f a)) → safe (a ← lift r; f a).
Proof. intros Hf h b h' Hwt _ (a&h1&Ha&Hb)%XM_bind_Ok. unfold lift in Ha. destruct r as [a'|]; [|done]. injection Ha as -> <-. by apply (Hf a eq_refl h b h' Hwt). Qed.

(** ** Settings *)
Lemma safe_append_setting key value c : safe (append_setting key value c).
Proof.
  intros h [] h' Hwt _ (d&h1&Hd&Hrun)%XM_bind_Ok. pose proof (reads_build_settings _ _ _ _ Hd) as ->. apply XM_bind_Ok in Hrun as (l&h1&->%reads_lift&Hmod).
  apply (keeps_settings (λ d, dict_set d key (XList (l ++ [XStr value]))) c (λ _, True) ltac:(done) h tt h' Hwt I). apply XM_bind_Ok. by exists d, h.
Qed.
Lemma safe_set_setting key value c : safe (set_setting key value c).
Proof. by apply (keeps_settings (λ d, dict_set d key value)). Qed.
Lemma safe_build_settings c : safe (build_settings c).
Proof. apply safe_reads, reads_build_settings. Qed.
Lemma safe_find_configuration cs name : safe (find_configuration cs name).
Proof. induction cs as [|c cs IH]; cbn [find_configuration]; [apply safe_throw|]. safe_tac. Qed.
Lemma safe_ConfigurationNamed o name : safe (ConfigurationNamed o name).
Proof. unfold ConfigurationNamed. apply safe_bind; [auto with safe|]. intros. apply safe_find_configuration. Qed.
#[local] Hint Resolve safe_append_setting safe_set_setting safe_build_settings safe_ConfigurationNamed : safe.
Lemma safe_AppendBuildSetting o key value : safe (AppendBuildSetting o key value).
Proof. unfold AppendBuildSetting. safe_tac. Qed.
Lemma safe_CreateXCConfigurationList names : safe (CreateXCConfigurationList names).
Proof. unfold CreateXCConfigurationList. safe_tac. Qed.
Lemma safe_apply_settings o settings : safe (apply_settings o settings).
Proof. unfold apply_settings. safe_tac. Qed.
Lemma safe_lookup {A} (d : list (string * A)) key : safe (lookup_or_key_error d key).
Proof. unfold lookup_or_key_error. auto with safe. Qed.
#[local] Hint Resolve safe_AppendBuildSetting safe_CreateXCConfigurationList safe_apply_settings safe_lookup : safe.

Section generator.
Context `{RealPath} `{Sha1} (cwd : text).
#[local] Hint Resolve safe_AddDependency : safe.

(** ** Files and phases *)
Lemma safe_native {A} xct (m : XM A) : safe m → safe (native xct m).
Proof. intros Hm. unfold native. apply safe_bind; [auto with safe|]. intros []; [done|apply safe_throw]. Qed.
Lemma safe_SourcesPhase o : safe (SourcesPhase o).
Proof. apply safe_last_phase. Qed.
Lemma safe_FrameworksPhase o : safe (FrameworksPhase o).
Proof. apply safe_last_phase. Qed.
#[local] Hint Resolve safe_SourcesPhase safe_FrameworksPhase safe_native : safe.
Lemma safe_AddSourceToTarget source type pbxp xct : safe (AddSourceToTarget source type pbxp xct).
Proof. unfold AddSourceToTarget. cbn zeta. safe_tac. Qed.
Lemma safe_AddResourceToTarget resource xct : safe (AddResourceToTarget resource xct).
Proof. unfold AddResourceToTarget. safe_tac. Qed.
Lemma safe_AddHeaderToTarget header xct b : safe (AddHeaderToTarget header xct b).
Proof. unfold AddHeaderToTarget. safe_tac. Qed.
Lemma safe_add_to_root_groups pbxp files : safe (add_to_root_groups pbxp files).
Proof. unfold add_to_root_groups. safe_tac. Qed.
#[local] Hint Resolve safe_AddSourceToTarget safe_AddResourceToTarget safe_AddHeaderToTarget safe_add_to_root_groups : safe.

(** A new script phase goes where it should. *)
Lemma safe_new_prebuild {B} ps xct support_xct index (f : nat → XM B) :
  (∀ i, safe (f i)) → safe (ssbp ← new PBXShellScriptBuildPhase ps; i ← add_prebuild xct support_xct index ssbp; f i).
Proof.
  intros Hf. eapply safe_with; [apply (keeps_new _ _ (λ _, True))|]. intros ssbp. apply keeps_then; [|done]. unfold add_prebuild. destruct support_xct as [s|].
  - apply safe_keeps. safe_tac.
  - apply keeps_then; [by apply keeps_insert_build_phase|]. intros. apply safe_ret.
Qed.
Lemma safe_add_action type pbxp xct support_xct index a : safe (add_action type pbxp xct support_xct index a).
Proof. unfold add_action. cbn zeta. apply safe_new_prebuild. intros i. safe_tac. Qed.
Lemma safe_do_rule_source type pbxp xct resources r source : safe (do_rule_source type pbxp xct resources r source).
Proof. unfold do_rule_source. cbn zeta. safe_tac. Qed.
#[local] Hint Resolve safe_do_rule_source : safe.
Lemma safe_add_rule skip type name pbxp xct support_xct dir resources s r : safe (add_rule skip type name pbxp xct support_xct dir resources s r).
Proof.
  unfold add_rule. cbn zeta. apply safe_bind; [safe_tac|]. intros steps. apply safe_bind; [|intros; safe_tac].
  case_bool_decide; [apply safe_ret|]. apply safe_new_prebuild. intros i. apply safe_ret.
Qed.
Lemma safe_add_copy xct index d c : safe (add_copy xct index d c).
Proof.
  unfold add_copy. apply safe_bind; [auto with safe|]. intros dest. apply safe_bind; [|intros [pbxcp d']; safe_tac].
  destruct (dict_get d dest); [apply safe_ret|]. eapply safe_with; [apply keeps_construct|]. intros pbxcp.
  apply keeps_seq; [apply is_a_stable|apply keeps_SetDestination|]. apply keeps_then; [by apply keeps_insert_build_phase|]. intros. apply safe_ret.
Qed.
Lemma safe_add_postbuild xct p : safe (add_postbuild xct p).
Proof. unfold add_postbuild. safe_tac. Qed.
Lemma safe_add_library xct library : safe (add_library xct library).
Proof. unfold add_library. cbn zeta. safe_tac. Qed.
Lemma safe_add_library_dir c dir : safe (add_library_dir c dir).
Proof. unfold add_library_dir. safe_tac. Qed.
#[local] Hint Resolve safe_add_postbuild safe_add_library safe_add_library_dir : safe.
Lemma safe_add_configuration pbxp xct dicts name : (∀ n c, (n, c) ∈ dicts → xcode_config_file c = None) → safe (add_configuration pbxp xct dicts name).
Proof.
  intros Hno. unfold add_configuration, lookup_or_key_error. apply safe_bind_lift. intros c Hc.
  rewrite (Hno name c); [|destruct (dict_get dicts name) eqn:Hd; [|done]; injection Hc as <-; by apply dict_get_In]. unfold set_base_configuration. safe_tac.
Qed.

(** ** Targets *)
Lemma safe_new_target pbxp name s names : safe (new_target pbxp name s names).
Proof. unfold new_target. cbn zeta. safe_tac. Qed.
Lemma keeps_new_support_target pbxp xct name s names (P : heap → Prop) :
  keeps (new_support_target pbxp xct name s names) P (λ o h, ∀ s, o = Some s → is_a s PBXAggregateTarget h).
Proof.
  eapply keeps_pre with (P := λ _, True); [|done]. unfold new_support_target. destruct (_ && _); [|by apply keeps_ret].
  eapply keeps_bind with (Q := λ _ _, True); [done|apply safe_CreateXCConfigurationList|]. intros xccl. eapply keeps_pre with (P := λ _, True); [|done]. cbn zeta.
  eapply keeps_bind with (Q := λ o, is_a o PBXAggregateTarget); [done|apply keeps_construct|]. intros o. eapply keeps_pre with (P := is_a o PBXAggregateTarget); [|by intros h []].
  apply keeps_seq; [apply is_a_stable|apply safe_keeps; auto with safe|]. apply keeps_seq; [apply is_a_stable|apply safe_keeps; auto with safe|].
  apply keeps_ret. by intros h Ho s' [= <-].
Qed.
Lemma safe_add_bundle_files s exts pbxp xct : safe (add_bundle_files s exts pbxp xct).
Proof. unfold add_bundle_files. cbn zeta. safe_tac. Qed.
Lemma safe_add_project_files skip s pbxp : safe (add_project_files skip s pbxp).
Proof. unfold add_project_files. cbn zeta. safe_tac. Qed.
Lemma safe_add_dependency st xct support_xct dependency : safe (add_dependency st xct support_xct dependency).
Proof. unfold add_dependency. safe_tac. Qed.
#[local] Hint Resolve safe_new_target safe_add_bundle_files safe_add_project_files safe_add_dependency : safe.

(** The support targets that the generator remembers are targets. *)
Definition support_typed (st : gen_state) (h : heap) : Prop :=
  ∀ o s, dict_get (support_target st) o = Some (Some s) → typed h (TClass XCTarget) (XObj s).
Lemma support_typed_stable st : stable (support_typed st).
Proof. intros h h' He Hst o s Hs. eapply typed_extends; [done|by eapply Hst]. Qed.

Definition no_config_files (target_dicts : list (string * xspec)) (data : list (string * build_file_dict)) : Prop :=
  (∀ n s, (n, s) ∈ target_dicts → ∀ m c, (m, c) ∈ config_dicts s → xcode_config_file c = None)
  ∧ (∀ n d, (n, d) ∈ data → file_config d = None ∧ ∀ m c, (m, c) ∈ file_configurations d → c.2 = None).

Lemma keeps_generate_target ps projects target_dicts st target :
  (∀ n s, (n, s) ∈ target_dicts → ∀ m c, (m, c) ∈ config_dicts s → xcode_config_file c = None) →
  keeps (generate_target ps projects target_dicts st target) (support_typed st) support_typed.
Proof.
  intros Hno. unfold generate_target. destruct (ParseQualifiedTarget target) as [[build_file name] ts]. cbn zeta.
  intros h st' h' Hwt Hst (s&h1&Hs&Hrun)%XM_bind_Ok. unfold lookup_or_key_error, lift in Hs. destruct (dict_get target_dicts target) as [s'|] eqn:Hd; [|done].
  injection Hs as -> <-. specialize (Hno _ _ (dict_get_In _ _ _ Hd)). revert h st' h' Hwt Hst Hrun.
  match goal with |- ∀ h st' h', _ → _ → ?m h = _ → _ => change (keeps m (support_typed st) support_typed) end.
  apply keeps_skip; [apply support_typed_stable|destruct (_ ==? _); [apply safe_ret|apply safe_throw]|]. intros _.
  apply keeps_skip; [apply support_typed_stable|apply safe_lookup|]. intros xcp. apply keeps_skip; [apply support_typed_stable|auto with safe|]. intros xct.
  eapply keeps_bind; [apply support_typed_stable|apply keeps_new_support_target|]. intros support_xct.
  set (P := λ h, support_typed st h ∧ ∀ s, support_xct = Some s → is_a s PBXAggregateTarget h).
  assert (stable P) as HP by (intros h1 h2 He [Hst Hs]; split; [by eapply support_typed_stable|]; intros s' Hs'; eapply is_a_stable; [done|by apply Hs]).
  change (keeps ?m _ _) with (keeps m P support_typed).
  apply keeps_skip; [done|apply safe_fold_m; intros; apply safe_add_action|]. intros index.
  apply keeps_skip; [done|apply safe_fold_m; intros; apply safe_add_rule|]. intros [index' written].
  apply keeps_skip; [done|auto with safe|]. intros _. apply keeps_skip; [done|apply safe_fold_m; intros; apply safe_add_copy|]. intros _.
  apply keeps_skip; [done|auto with safe|]. intros _. apply keeps_skip; [done|safe_tac|]. intros _. apply keeps_skip; [done|safe_tac|]. intros _.
  apply keeps_skip; [done|safe_tac|]. intros _. apply keeps_skip; [done|apply safe_for_m; intros; by apply safe_add_configuration|]. intros _.
  apply keeps_ret. intros h [Hst Hs] o s' Hget. cbn [support_target] in Hget. destruct (decide (o = xct)) as [->|Hne].
  - rewrite dict_get_set_eq in Hget. injection Hget as ->. eapply is_a_typed; [|by apply Hs]. done.
  - rewrite dict_get_set_ne in Hget by done. by eapply Hst.
Qed.

(** ** Projects *)
Lemma safe_new_project ps projects item : safe (new_project cwd ps projects item).
Proof.
  unfold new_project, XcodeProject_init. destruct item as [build_file d]. destruct (p_splitext _) as [root ext]. destruct (negb _); [apply safe_ret|]. cbn zeta. safe_tac.
Qed.
Lemma safe_names_of_configurations l : safe (names_of_configurations l).
Proof. unfold names_of_configurations. apply safe_fold_m. intros names xct. apply safe_bind; [auto with safe|]. intros. apply safe_bind; [auto with safe|]. intros. apply safe_fold_m. intros. safe_tac. Qed.
Lemma safe_configure_project xcp names :
  file_config (dict_of xcp) = None → (∀ m c, (m, c) ∈ file_configurations (dict_of xcp) → c.2 = None) → safe (configure_project xcp names).
Proof.
  intros Hfile Hno. unfold configure_project. cbn zeta. rewrite Hfile. repeat (apply safe_bind; [auto with safe|]; intros). destruct (_ =? _); [apply safe_ret|].
  apply safe_for_m. intros name. destruct (dict_get (file_configurations (dict_of xcp)) name) as [[settings config_file]|] eqn:Hd; [|apply safe_ret].
  apply dict_get_In in Hd. apply Hno in Hd. cbn in Hd. subst config_file. destruct settings; [apply safe_ret|]. unfold set_base_configuration. safe_tac.
Qed.
Lemma keeps_new_run_target pbxp b names name target r : keeps (new_run_target pbxp b names name target r) (λ _, True) (λ o, is_a o PBXAggregateTarget).
Proof.
  unfold new_run_target. do 3 (apply keeps_skip; [done|auto with safe|]; intros ?).
  eapply keeps_bind with (Q := λ o, is_a o PBXAggregateTarget); [done|apply keeps_construct|]. intros o. eapply keeps_pre with (P := is_a o PBXAggregateTarget); [|by intros h []].
  do 3 (apply keeps_skip; [apply is_a_stable|auto with safe|]; intros ?). by apply keeps_ret.
Qed.

(** The targets that are put into order are targets: the first ones are looked up in the project. *)
Definition sorted_typed (st : gen_state) (s : sorting) (h : heap) : Prop :=
  support_typed st h ∧ ∀ o, o ∈ ordered s → typed h (TClass XCTarget) (XObj o).
Lemma sorted_typed_stable st s : stable (sorted_typed st s).
Proof. intros h h' He [Hst Hs]. split; [by eapply support_typed_stable|]. intros o Ho. eapply typed_extends; [done|by apply Hs]. Qed.

Lemma targets_typed h x o v c : well_typed h → objects h !! o = Some x → property "targets" x = Ok v → c ∈ objects_of v → typed h (TClass XCTarget) (XObj c).
Proof.
  intros Hwt Hx Hv Hc. unfold property in Hv. destruct (dict_get (properties x) "targets") as [w|] eqn:Hw; [|done]. injection Hv as ->.
  destruct (wt_objects _ Hwt _ _ Hx _ _ (dict_get_In _ _ _ Hw)) as (a&Ha&Hok). destruct (targets_attributes _ _ Ha) as [Hlist Ht].
  unfold value_ok in Hok. rewrite Hlist, Ht in Hok. destruct Hok as (l&->&Hl). apply list_elem_of_omap in Hc as (w&Hw'&Heq).
  rewrite Forall_forall in Hl. specialize (Hl w Hw'). destruct w; try done. by injection Heq as ->.
Qed.

(** What is put behind the targets sorted so far *)
Lemma keeps_sort_target xcp st b names s t : keeps (sort_target xcp st b names s t) (sorted_typed st s) (sorted_typed st).
Proof.
  unfold sort_target. apply keeps_skip; [apply sorted_typed_stable|auto with safe|]. intros target.
  intros h s' h' Hwt [Hst Hs] (x&h1&Hget&Hrun)%XM_bind_Ok. unfold get in Hget. destruct (objects h !! project xcp) as [x'|] eqn:Hx; [|done]. injection Hget as -> <-.
  apply XM_bind_Ok in Hrun as (v&h1&Hv&Hrun). unfold lift in Hv. destruct (property "targets" x) as [v'|] eqn:Hprop; [|done]. injection Hv as -> <-.
  destruct (target in? objects_of v) eqn:Hin; [|by apply XM_bind_Ok in Hrun as (?&?&?&_)]. apply bool_decide_eq_true in Hin.
  pose proof (targets_typed _ _ _ _ _ Hwt Hx Hprop Hin) as Htarget. apply XM_bind_Ok in Hrun as (u&h1&[_ ->]%XM_ret_Ok&Hrun).
  apply XM_bind_Ok in Hrun as (supported&h1&Hsup&Hrun). unfold lift in Hsup.
  destruct (dict_get (support_target st) target) as [o|] eqn:Hd; [|done]. injection Hsup as <- <-.
  set (l := ordered s ++ target :: option_list o). set (P h := support_typed st h ∧ ∀ c, c ∈ l → typed h (TClass XCTarget) (XObj c)).
  assert (stable P) as HP.
  { intros h1 h2 He [Hst1 Hl]. split; [by eapply support_typed_stable|]. intros c Hc. eapply typed_extends; [done|by apply Hl]. }
  assert (P h) as HPh.
  { split; [done|]. intros c [Hc|[->|Hc]%elem_of_cons]%elem_of_app; [by apply Hs|done|]. destruct o as [o|]; [|by apply elem_of_nil in Hc].
    apply list_elem_of_singleton in Hc as ->. by eapply Hst. }
  revert Hrun. revert s' h'. enough (∀ m, keeps m P (sorted_typed st) → ∀ s' h', m h = Ok (s', h') → well_typed h' ∧ extends h h' ∧ sorted_typed st s' h') as Hcut.
  { apply Hcut. destruct (run_as_of t) as [r|]; [|by apply keeps_ret].
    eapply keeps_bind; [done|eapply keeps_pre; [apply keeps_new_run_target|done]|]. intros run. apply keeps_ret. intros h2 [[Hst2 Hl2] Hr]. split; [done|].
    cbn [ordered]. intros c Hc. rewrite app_comm_cons, app_assoc in Hc. apply elem_of_app in Hc as [Hc|Hc]; [by apply Hl2|].
    apply list_elem_of_singleton in Hc as ->. eapply is_a_typed; [|exact Hr]. done. }
  intros m Hm s' h' Hrun. by apply (Hm h s' h' Hwt HPh).
Qed.

Lemma keeps_new_umbrella pbxp ps targets : keeps (new_umbrella pbxp ps targets) (λ _, True) (λ o, is_a o PBXAggregateTarget).
Proof.
  unfold new_umbrella. eapply keeps_bind with (Q := λ o, is_a o PBXAggregateTarget); [done|apply keeps_construct|]. intros o.
  eapply keeps_pre with (P := is_a o PBXAggregateTarget); [|by intros h []]. apply keeps_seq; [apply is_a_stable|apply safe_keeps; safe_tac|]. by apply keeps_ret.
Qed.
Lemma safe_insert_umbrella pbxp ps targets index : safe (o ← new_umbrella pbxp ps targets; insert_target pbxp index o).
Proof. eapply safe_with; [apply keeps_new_umbrella|]. intros o. by apply keeps_insert_target. Qed.

(** The list of targets is replaced by the ordered one. *)
Lemma keeps_replace_targets {A} st s pbxp (check : list nat → bool) (rest : XM A) :
  safe rest →
  keeps (x ← get pbxp; v ← lift (property "targets" x); _ ← (if check (objects_of v) then mret tt else throw AssertionError);
         _ ← modify pbxp (with_property "targets" (XList (XObj <$> ordered s))); rest) (sorted_typed st s) (λ _ _, True).
Proof.
  intros Hrest h a h' Hwt [Hst Hs] (x&h1&Hget&Hrun)%XM_bind_Ok. unfold get in Hget. destruct (objects h !! pbxp) as [x'|] eqn:Hx; [|done]. injection Hget as -> <-.
  apply XM_bind_Ok in Hrun as (v&h1&Hv&Hrun). unfold lift, property in Hv. destruct (dict_get (properties x) "targets") as [w|] eqn:Hw; [|done]. injection Hv as -> <-.
  destruct (wt_objects _ Hwt _ _ Hx _ _ (dict_get_In _ _ _ Hw)) as (at_&Ha&_). destruct (targets_attributes _ _ Ha) as [Hlist Ht].
  destruct (check _); [|by apply XM_bind_Ok in Hrun as (?&?&?&_)]. apply XM_bind_Ok in Hrun as (u&h1&[_ ->]%XM_ret_Ok&Hrun).
  revert Hrun. revert a h'. pose (P h := is_a pbxp (class_of x) h ∧ ∀ d, d ∈ ordered s → typed h (TClass XCTarget) (XObj d)).
  assert (keeps (_ ← modify pbxp (with_property "targets" (XList (XObj <$> ordered s))); rest) P (λ _ _, True)) as Hk.
  { apply keeps_then; [|done]. apply (keeps_list pbxp "targets" (class_of x) XCTarget); [by exists at_|done]. }
  intros a h' Hrun. apply (Hk h a h' Hwt); [|done]. split; [by exists x|done].
Qed.


(** Every result of a computation *)
Definition returns {A} (m : XM A) (P : A → Prop) : Prop := ∀ h a h', m h = Ok (a, h') → P a.
Lemma returns_bind {A B} (m : XM A) (f : A → XM B) P : (∀ a, returns (f a) P) → returns (m ≫= f) P.
Proof. intros Hf h b h' (a&h1&_&Hb)%XM_bind_Ok. by eapply Hf. Qed.
Lemma returns_ret {A} (a : A) (P : A → Prop) : P a → returns (mret a) P.
Proof. intros Ha h b h' [-> _]%XM_ret_Ok. done. Qed.
Lemma Finalize1_state b st xcp : returns (Finalize1 b st xcp) (λ st', support_target st' = support_target st).
Proof. unfold Finalize1. cbn zeta. repeat (apply returns_bind; intros ?). by apply returns_ret. Qed.

Lemma keeps_Finalize1 b st xcp :
  file_config (dict_of xcp) = None → (∀ m c, (m, c) ∈ file_configurations (dict_of xcp) → c.2 = None) →
  keeps (Finalize1 b st xcp) (support_typed st) support_typed.
Proof.
  intros Hfile Hno. assert (keeps (Finalize1 b st xcp) (support_typed st) (λ _ _, True)) as Hk.
  { unfold Finalize1. cbn zeta. apply keeps_skip; [apply support_typed_stable|auto with safe|]. intros x. apply keeps_skip; [apply support_typed_stable|auto with safe|]. intros v.
    apply keeps_skip; [apply support_typed_stable|apply safe_names_of_configurations|]. intros names.
    apply keeps_skip; [apply support_typed_stable|by apply safe_configure_project|]. intros _.
    eapply keeps_bind with (Q := sorted_typed st); [apply support_typed_stable| |].
    - eapply keeps_pre; [apply (keeps_fold_m (sorted_typed st)); intros; apply keeps_sort_target|]. intros h Hst. split; [done|]. intros o ?%elem_of_nil. done.
    - intros s. eapply keeps_pre with (P := sorted_typed st s); [|by intros h []].
      apply (keeps_replace_targets st s (project xcp) (λ l, length l =? ordinary s + support s)). apply safe_bind; [apply safe_RootGroupsTakeOverOnlyChildren|]. intros _.
      apply safe_bind; [apply safe_SortGroups|]. intros _. apply safe_bind; [|intros _; apply safe_bind; [|intros; apply safe_ret]].
      + destruct (_ && _); [|apply safe_ret]. apply safe_bind; [auto with safe|]. intros. apply safe_insert_umbrella.
      + destruct (1 <? _); [|apply safe_ret]. apply safe_bind; [auto with safe|]. intros. apply safe_insert_umbrella. }
  intros h st' h' Hwt Hst Hrun. destruct (Hk h st' h' Hwt Hst Hrun) as (?&He&_). split_and!; [done|done|]. intros o s. rewrite (Finalize1_state _ _ _ _ _ _ Hrun).
  intros Hget. eapply typed_extends; [done|by eapply Hst].
Qed.

Lemma safe_runners_below st o : safe (runners_below st o).
Proof. unfold runners_below. safe_tac. Qed.
Lemma safe_add_dependents_test_runner xcp st t : safe (add_dependents_test_runner xcp st t).
Proof.
  unfold add_dependents_test_runner. destruct (dependents_test_runner t); [|apply safe_ret]. apply safe_bind; [auto with safe|]. intros target.
  apply safe_bind; [auto with safe|]. intros []; [|apply safe_ret]. apply safe_bind; [apply safe_runners_below|]. intros tests. destruct (_ =? _); [apply safe_ret|].
  eapply safe_with; [apply keeps_new_umbrella|]. intros o. do 3 (apply keeps_skip; [apply is_a_stable|auto with safe|]; intros ?). by apply keeps_insert_target.
Qed.
Lemma reads_check_ids all ids : reads (check_ids all ids).
Proof.
  revert ids. induction all as [|d all IH]; intros ids; cbn [check_ids]; [apply reads_ret|]. apply reads_bind; [apply reads_get|]. intros x.
  destruct (_ in? _); [apply reads_throw|apply IH].
Qed.
Lemma reads_EnsureNoIDCollisions o : reads (EnsureNoIDCollisions o).
Proof. apply reads_bind; [apply reads_Descendants|]. intros. apply reads_check_ids. Qed.

(** *** Printing only reads. *)
Lemma reads_value alternate single fl v : ∀ tabs, reads (XCPrintableValue alternate single tabs fl v).
Proof.
  induction v as [o|s|z|l IH|d IH] using xval_ind; intros tabs; cbn [XCPrintableValue]; cbn zeta; [|apply reads_ret|apply reads_ret| |].
  - apply reads_bind; [apply reads_get|]. intros x. apply reads_bind; [apply reads_lift|]. intros i. apply reads_bind; [apply reads_Comment|]. intros. apply reads_ret.
  - match goal with |- reads (if fl then _ else ?full) => assert (reads full) as Hfull end.
    { apply reads_bind; [|intros; apply reads_ret]. induction IH as [|x l Hx _ IHl]; [apply reads_ret|]. apply reads_bind; [apply Hx|]. intros y.
      apply reads_bind; [apply IHl|]. intros. apply reads_ret. }
    destruct fl; [|exact Hfull]. destruct l as [|[] [|]]; try exact Hfull; try apply reads_ret; apply reads_throw.
  - apply reads_bind; [|intros; apply reads_ret]. induction IH as [|[k x] d Hx _ IHd]; [apply reads_ret|]. apply reads_bind.
    + apply reads_bind; [apply Hx|]. intros. apply reads_ret.
    + intros y. apply reads_bind; [apply IHd|]. intros. apply reads_ret.
Qed.
Lemma reads_line x tabs key v : reads (XCKVPrint x tabs key v).
Proof.
  unfold XCKVPrint. cbn zeta. apply reads_bind.
  - destruct (_ && _); [|apply reads_ret]. apply reads_bind; [apply reads_lift|]. intros o. apply reads_bind; [apply reads_get|]. intros. apply reads_lift.
  - intros w. apply reads_bind; [apply reads_value|]. intros. apply reads_ret.
Qed.
Lemma reads_object o : reads (PrintObject o).
Proof.
  unfold PrintObject. apply reads_bind; [apply reads_VerifyHasRequiredProperties|]. intros _. apply reads_bind; [apply reads_get|]. intros x. cbn zeta.
  apply reads_bind; [apply reads_value|]. intros. apply reads_bind; [apply reads_line|]. intros.
  apply reads_bind; [apply reads_map_m; intros [? [? ?]]; apply reads_line|]. intros. apply reads_ret.
Qed.
Lemma reads_PrintProjectFile o : reads (PrintProjectFile o).
Proof.
  unfold PrintProjectFile. apply reads_bind; [apply reads_VerifyHasRequiredProperties|]. intros _. apply reads_bind; [apply reads_get|]. intros x.
  apply reads_bind; [|intros; apply reads_ret]. apply reads_map_m. intros [k [key v]]. destruct (_ ==? _); [|apply reads_line].
  unfold PrintObjects. apply reads_bind; [apply reads_Descendants|]. intros all. apply reads_bind; [intros h a h' [= _ <-]; done|]. intros h.
  apply reads_bind; [|intros; apply reads_ret]. apply reads_map_m. intros [c members]. apply reads_bind; [apply reads_map_m, reads_object|]. intros. apply reads_ret.
Qed.

(** *** The projects of the build files *)
Section projects.
Context (data : list (string * build_file_dict)).
Definition project_ok (n : string) (xcp : xcode_project) (h : heap) : Prop :=
  is_a (project xcp) PBXProject h ∧ is_a (project_file xcp) XCProjectFile h ∧ gyp_path xcp = n ∧ (n, dict_of xcp) ∈ data.
Definition projects_ok (projects : list (string * xcode_project)) (h : heap) : Prop :=
  ∀ n xcp, dict_get projects n = Some xcp → project_ok n xcp h.
Lemma project_ok_stable n xcp : stable (project_ok n xcp).
Proof. intros h h' He (Hp&Hf&?&?). split_and!; [by eapply is_a_stable|by eapply is_a_stable|done|done]. Qed.
Lemma projects_ok_stable projects : stable (projects_ok projects).
Proof. intros h h' He Hok n xcp Hn. eapply project_ok_stable; [done|by apply Hok]. Qed.

Lemma keeps_XcodeProject_init gyp p d P :
  (gyp, d) ∈ data → stable P → keeps (XcodeProject_init cwd gyp p d) P (λ xcp h, P h ∧ project_ok gyp xcp h).
Proof.
  intros Hd HP. unfold XcodeProject_init. eapply keeps_bind with (Q := λ o, is_a o PBXProject); [done|eapply keeps_pre; [apply keeps_construct|done]|].
  intros o. cbn zeta. assert (stable (λ h, P h ∧ is_a o PBXProject h)) as HP'.
  { intros h1 h2 He [??]. split; [by eapply HP|by eapply is_a_stable]. }
  apply keeps_skip; [done|auto with safe|]. intros _. eapply keeps_bind; [done|apply keeps_new|]. intros f. apply keeps_ret. intros h [[??] ?]. by split_and!.
Qed.
Lemma keeps_new_project ps projects item : item ∈ data → keeps (new_project cwd ps projects item) (projects_ok projects) projects_ok.
Proof.
  intros Hin. unfold new_project. destruct item as [f d]. destruct (p_splitext _) as [root ext]. destruct (negb _); [by apply keeps_ret|].
  eapply keeps_bind; [apply projects_ok_stable|by apply keeps_XcodeProject_init, projects_ok_stable|]. intros xcp.
  set (P := λ h, projects_ok projects h ∧ project_ok f xcp h).
  assert (stable P) as HP by (intros h1 h2 He [??]; split; [by eapply projects_ok_stable|by eapply project_ok_stable]).
  eapply keeps_pre with (P := P); [|by intros h [_ []]].
  apply keeps_skip; [done|safe_tac|]. intros _. apply keeps_skip; [done|destruct (xcode_project_version ps); safe_tac|]. intros _.
  apply keeps_skip; [done|safe_tac|]. intros _. apply keeps_ret. intros h [Hok Hxcp] n xcp'. destruct (decide (n = f)) as [->|Hne].
  - rewrite dict_get_set_eq. by intros [= <-].
  - rewrite dict_get_set_ne by done. apply Hok.
Qed.
End projects.

Lemma safe_Finalize2 st n xcp data h h' : well_typed h → project_ok data n xcp h → Finalize2 st xcp h = Ok (tt, h') → well_typed h' ∧ extends h h'.
Proof.
  intros Hwt Hok Hrun. assert (keeps (Finalize2 st xcp) (is_a (project xcp) PBXProject) (λ _ _, True)) as Hk.
  { unfold Finalize2. apply keeps_skip; [apply is_a_stable|apply safe_for_m; intros; apply safe_add_dependents_test_runner|]. intros _.
    apply keeps_skip; [apply is_a_stable|auto with safe|]. intros x. apply keeps_seq; [apply is_a_stable| |apply safe_keeps].
    - apply keeps_for_m; [apply is_a_stable|]. intros other _. apply keeps_then; [apply keeps_AddOrGetProjectReference|]. intros. apply safe_ret.
    - apply safe_bind; [auto with safe|]. intros _. apply safe_bind; [apply safe_ComputeProjectIDs|]. intros _. apply safe_reads, reads_EnsureNoIDCollisions. }
  destruct (Hk h tt h' Hwt) as (?&?&_); [apply Hok|done|done].
Qed.

(** ** The whole generator *)

(** The text is read back as the objects below the project file, by their identifiers, with their classes and properties. *)
Definition reads_as (h : heap) (o : nat) (t : text) : Prop :=
  ∃ x all pairs, objects h !! o = Some x ∧ Descendants o h = Ok (all, h) ∧ pairs ≡ₚ object_pair h <$> filter (λ d, d ≠ o) all
    ∧ ∃ n, ∀ fuel, n ≤ fuel → ∃ rest, read_value fuel t = Some (file_plist h x pairs, rest) ∧ skip Plain rest = [].

Lemma lookup_projects data projects h names xcps h' :
  projects_ok data projects h → map_m (lookup_or_key_error projects) names h = Ok (xcps, h') →
  h' = h ∧ gyp_path <$> xcps = names ∧ Forall (λ xcp, project_ok data (gyp_path xcp) xcp h) xcps.
Proof.
  intros Hok. revert xcps h'. induction names as [|n names IH]; intros xcps h' Hrun; cbn [map_m] in Hrun; [by apply XM_ret_Ok in Hrun as [-> ->]|].
  apply XM_bind_Ok in Hrun as (xcp&h1&Hn&Hrun). unfold lookup_or_key_error, lift in Hn. destruct (dict_get projects n) as [xcp'|] eqn:Hd; [|done]. injection Hn as -> <-.
  apply XM_bind_Ok in Hrun as (l&h1&(->&Hl&Hall)%IH&[-> ->]%XM_ret_Ok). pose proof (Hok _ _ Hd) as Hxcp. assert (gyp_path xcp = n) as Hpath by apply Hxcp.
  split_and!; [done|by rewrite fmap_cons, Hl, Hpath|]. constructor; [by rewrite Hpath|done].
Qed.

Lemma Finalize2_all st data xcps h h' :
  well_typed h → Forall (λ xcp, project_ok data (gyp_path xcp) xcp h) xcps → for_m xcps (Finalize2 st) h = Ok (tt, h') → well_typed h' ∧ extends h h'.
Proof.
  intros Hwt Hall. revert h Hwt Hall. induction xcps as [|xcp xcps IH]; intros h Hwt Hall Hrun; cbn [for_m] in Hrun; [by apply XM_ret_Ok in Hrun as [_ ->]|].
  apply Forall_cons in Hall as [Hxcp Hall]. apply XM_bind_Ok in Hrun as ([]&h1&Hf&Hrun). destruct (safe_Finalize2 _ _ _ _ _ _ Hwt Hxcp Hf) as [Hwt1 He1].
  destruct (IH h1 Hwt1) as [? ?]; [|done|split; [done|by etrans]]. eapply Forall_impl; [exact Hall|]. intros. by eapply project_ok_stable.
Qed.

Lemma written_projects data xcps h texts h' :
  well_typed h → Forall (λ xcp, project_ok data (gyp_path xcp) xcp h) xcps → map_m write_project xcps h = Ok (texts, h') →
  h' = h ∧ Forall2 (λ xcp file, file.1 = p_join (proj_path xcp) (chars "project.pbxproj") ∧ (all_readable h → reads_as h (project_file xcp) file.2)) xcps texts.
Proof.
  intros Hwt Hall. revert texts h'. induction Hall as [|xcp xcps Hxcp Hall IH]; intros texts h' Hrun; cbn [map_m] in Hrun; [by apply XM_ret_Ok in Hrun as [-> ->]|].
  apply XM_bind_Ok in Hrun as (file&h1&Hfile&Hrun). apply XM_bind_Ok in Hfile as (t&h2&Ht&[-> ->]%XM_ret_Ok). pose proof (reads_PrintProjectFile _ _ _ _ Ht) as ->.
  apply XM_bind_Ok in Hrun as (l&h1&[-> Hl]%IH&[-> ->]%XM_ret_Ok). split; [done|]. constructor; [|done]. split; [done|]. intros Hread.
  destruct Hxcp as (_&(x&Hx&_)&_). destruct (PrintProjectFile_read _ _ _ _ _ (wt_ids _ Hwt) Hread Hx Ht) as (_&all&pairs&?&?&?). by exists x, all, pairs.
Qed.

End generator.

(** ** Two build files

    A library with an action and a rule for two sources, in one file; in another one a program that depends on it, with a run of its own. *)
#[local] Existing Instance toy_sha1.
#[local] Instance work : RealPath := realpath_nolinks (chars "/work").
Definition sample_params : params :=
  {| suffix := []; generator_output := []; xcode_parallel_builds := true; xcode_serialize_all_test_runs := false; xcode_project_version := Some "3.2";
     xcode_list_excluded_files := true; standalone := false |}.
Definition plain_config : xconfig :=
  {| mac_framework_dirs := []; config_include_dirs := [chars "include"]; config_library_dirs := []; config_defines := [chars "NAME=a b"];
     xcode_settings := [(chars "GCC_OPTIMIZATION_LEVEL", XInt 2)]; xcode_config_file := None |}.
Definition plain_target : xspec :=
  {| toolset := "target"; default_configuration := "Debug"; config_dicts := [("Debug", plain_config); ("Release", plain_config)]; target_type := "executable";
     mac_xctest_bundle := false; mac_bundle := false; target_product_name := None; force_outdir := None; force_prefix := None; force_extension := None;
     actions := []; rules := []; mac_bundle_resources := []; spec_sources := []; mac_framework_private_headers := []; mac_framework_headers := [];
     copies := []; sources_excluded := []; mac_bundle_resources_excluded := []; mac_framework_headers_excluded := [];
     mac_framework_private_headers_excluded := []; postbuilds := []; spec_dependencies := []; spec_libraries := [] |}.
Definition sample_action : xaction :=
  {| base_action := {| action_name := chars "version"; action_inputs := [chars "version.py"]; action_outputs := [chars "$(INTERMEDIATE_DIR)/version.cc"];
                       action_as_sources := true; action_command := [chars "python"; chars "version.py"; chars "$(INTERMEDIATE_DIR)/version.cc"];
                       action_message := Some (chars "Version") |};
     as_resources := false; action_inputs_excluded := []; action_outputs_excluded := [] |}.
Definition sample_rule : xrule :=
  {| base_rule := {| rule_name := chars "grammar"; rule_sources := [chars "src/a.y"; chars "src/b.y"]; rule_inputs := [chars "bison.py"];
                     rule_outputs := [chars "$(INTERMEDIATE_DIR)/$(INPUT_FILE_BASE).cc"; chars "$(INTERMEDIATE_DIR)/$(INPUT_FILE_BASE).h"]; rule_as_sources := true;
                     rule_action := Some [chars "python"; chars "bison.py"; chars "$(INPUT_FILE_PATH)"]; rule_message := None |};
     rule_extension := chars "y"; rule_as_resources := false; rule_inputs_excluded := [] |}.
Definition sample_library : xspec :=
  {| toolset := toolset plain_target; default_configuration := "Debug"; config_dicts := config_dicts plain_target; target_type := "static_library";
     mac_xctest_bundle := false; mac_bundle := false; target_product_name := None; force_outdir := None; force_prefix := None; force_extension := None;
     actions := [sample_action]; rules := [sample_rule]; mac_bundle_resources := []; spec_sources := chars <$> ["src/main.cc"; "src/a.y"; "src/b.y"];
     mac_framework_private_headers := []; mac_framework_headers := []; copies := [{| copy_destination := chars "out"; copy_files := [chars "README"] |}];
     sources_excluded := [chars "src/win.cc"]; mac_bundle_resources_excluded := []; mac_framework_headers_excluded := [];
     mac_framework_private_headers_excluded := []; postbuilds := [(chars "strip", [chars "strip"; chars "a"])]; spec_dependencies := []; spec_libraries := [] |}.
Definition sample_program : xspec :=
  {| toolset := "target"; default_configuration := "Debug"; config_dicts := config_dicts plain_target; target_type := "executable";
     mac_xctest_bundle := false; mac_bundle := false; target_product_name := None; force_outdir := None; force_prefix := None; force_extension := None;
     actions := []; rules := []; mac_bundle_resources := []; spec_sources := [chars "app/app.mm"]; mac_framework_private_headers := []; mac_framework_headers := [];
     copies := []; sources_excluded := []; mac_bundle_resources_excluded := []; mac_framework_headers_excluded := [];
     mac_framework_private_headers_excluded := []; postbuilds := []; spec_dependencies := ["lib/lib.gyp:lib#target"];
     spec_libraries := [chars "$(SDKROOT)/usr/lib/libz.dylib"; chars "third/libq.a"] |}.
Definition sample_file_target (name : string) (r : option run_as) : file_target :=
  {| name_of_target := name; toolset_of_target := "target"; suppress_wildcard := false; run_as_of := r; dependents_test_runner := false |}.
Definition sample_dict (included : list text) (t : file_target) : build_file_dict :=
  {| included_files := included; file_targets := [t]; file_settings := [(chars "SDKROOT", str "macosx")]; file_config := None; file_configurations := [] |}.
Definition sample_data : list (string * build_file_dict) :=
  [("lib/lib.gyp", sample_dict [chars "lib/lib.gyp"; chars "common.gypi"] (sample_file_target "lib" None)); ("common.gypi", sample_dict [] (sample_file_target "none" None));
   ("app/app.gyp", sample_dict [chars "app/app.gyp"]
      (sample_file_target "app" (Some {| working_directory := chars "$(BUILT_PRODUCTS_DIR)"; environment := [(chars "A", chars "$(B)")]; command := [chars "./app"; chars "-v"] |})))].
Definition sample_dicts : list (string * xspec) := [("lib/lib.gyp:lib#target", sample_library); ("app/app.gyp:app#target", sample_program)].
Definition sample_run : result (list (text * text) * heap) :=
  GenerateOutput (chars "/work") sample_params ["lib/lib.gyp:lib#target"; "app/app.gyp:app#target"] sample_dicts sample_data module_heap.
Definition heap_after {A} (r : result (A * heap)) : heap := match r with Ok (_, h) => h | Err _ => module_heap end.
Definition files_after (r : result (list (text * text) * heap)) : list (text * text) := match r with Ok (out, _) => out | Err _ => [] end.
Definition written_heap : heap := heap_after sample_run.
Definition written_files : list (text * text) := files_after sample_run.
Lemma run_result (r : result (list (text * text) * heap)) : is_ok r = true → r = Ok (files_after r, heap_after r).
Proof. by destruct r as [[out h]|e]. Qed.
Lemma generator_run_Ok :
  GenerateOutput (chars "/work") sample_params ["lib/lib.gyp:lib#target"; "app/app.gyp:app#target"] sample_dicts sample_data module_heap = Ok (written_files, written_heap).
Proof. apply (run_result sample_run). vm_compute. reflexivity. Qed.
Lemma sample_without_config_files : no_config_files sample_dicts sample_data.
Proof.
  split.
  - intros n s Hs m c Hc. repeat (apply elem_of_cons in Hs as [[= -> ->]|Hs]); [..|by apply elem_of_nil in Hs];
      (repeat (apply elem_of_cons in Hc as [[= -> ->]|Hc]); [done..|by apply elem_of_nil in Hc]).
  - intros n d Hd. repeat (apply elem_of_cons in Hd as [[= -> ->]|Hd]); [..|by apply elem_of_nil in Hd];
      (split; [done|]; by intros m c ?%elem_of_nil).
Qed.
Lemma written_readable : all_readable written_heap.
Proof. apply all_readableb_ok. vm_compute. reflexivity. Qed.

Example written_paths : fst <$> written_files = chars <$> ["lib/lib.xcodeproj/lib_grammar.make"; "lib/lib.xcodeproj/project.pbxproj"; "app/app.xcodeproj/project.pbxproj"].
Proof. vm_compute. reflexivity. Qed.
(** What the theorem says of a list of projects and their files, for the first one *)
Lemma first_project (h : heap) (xcps : list xcode_project) (texts made : list (text * text)) name names :
  gyp_path <$> xcps = name :: names → all_readable h →
  Forall2 (λ xcp file, file.1 = p_join (proj_path xcp) (chars "project.pbxproj") ∧ (all_readable h → reads_as h (project_file xcp) file.2)) xcps texts →
  ∃ xcp t, gyp_path xcp = name ∧ (p_join (proj_path xcp) (chars "project.pbxproj"), t) ∈ made ++ texts ∧ reads_as h (project_file xcp) t.
Proof.
  intros Hnames Hread Hall. destruct Hall as [|xcp [p t] xcps texts [Hp Ht] _]; [done|]. injection Hnames as Hname _. exists xcp, t.
  split_and!; [done| |by apply Ht]. apply elem_of_app. right. cbn [fst] in Hp. subst p. left.
Qed.

(** A library that is called as its prefix loses its name. *)
Example prefix_is_the_name :
  (λ p, str_property "productName" p.2) <$> filter (λ p, class_of p.2 = PBXNativeTarget) (map_to_list (objects written_heap)) = [Some (chars "app"); Some []].
Proof. vm_compute. reflexivity. Qed.
